(* ===== verification/_CoqProject ===== *)
-Q . S2P
Prelude.v
GateWord.v
OperationGate.v
GateProtocol.v
GateLeases.v
TimestampWindow.v
VersionManager.v
VersionThreads.v
Timeline.v
VersionSystem.v
VersionProperties.v
VersionEffects.v
Archive.v
Values.v
RedoRecords.v
WalFormat.v
WalWriter.v
WalParser.v
VertexTimestamp.v
CsrView.v
MutableCsr.v
MutableCsrSpec.v
MutableCsrProperties.v
SingleMutableCsr.v
ImmutableCsr.v
ImmutableCsrProperties.v
StringColumn.v
StringColumnProperties.v
StringColumnDump.v
LFIndexer.v
LFIndexerTable.v
LFIndexerProperties.v
KeyColumns.v
Tables.v
PropertyColumns.v
TableRows.v
CheckpointManifest.v
ModuleKeys.v
VertexTable.v
VertexTableProperties.v
VertexTableInserts.v
CsrBase.v
EdgeSchema.v
LabelIndexer.v
SchemaLabels.v
SchemaLabelsProperties.v
SchemaColumns.v
DirtyTracker.v
EdgeTable.v
EdgeArcs.v
EdgeStores.v
EdgeTableSpec.v
EdgeTableDelete.v
EdgeTableProperties.v
EdgeTableRebuild.v
PropertyGraph.v
GraphColumns.v
GraphReplay.v
GraphVertices.v
GraphEdges.v
GraphInvariant.v
GraphCapacity.v
GraphTypes.v
GraphProperties.v
GraphSample.v
SnapshotStore.v
SnapshotThreads.v
SnapshotInvariant.v
SnapshotProperties.v
SnapshotEffects.v
Transactions.v
TransactionThreads.v
TransactionSystem.v
TransactionContent.v
TransactionIsolation.v
TransactionInvariant.v
TransactionWrites.v
TransactionFailures.v
TransactionProperties.v
