(* ===== verification/Prelude.v ===== *)
(** * Verification of the storage and transaction core of NeuG

    NeuG is a transactional property-graph database.  A transaction takes a
    timestamp from the version manager, logs its operations to the write-ahead
    log, and applies them to vertex and edge tables whose entries carry the
    timestamp from which they are visible; readers run against a published
    timestamp and see the entries that are not newer.  Inserts go into the
    current graph in place; updates work on a private copy, which replaces the
    current graph through a store of snapshots that readers pin.  This development models
    that core from the sources under src/ (paths below are relative to it) and
    proves what makes it correct.

    ** Parts and files

    - Admission (include/neug/transaction/operation_gate.h,
      src/transaction/operation_gate.cc).  [GateWord] is the packed 64-bit word
      with its shifts and masks; [OperationGate] has every method as a machine
      that makes at most one atomic access per step; [GateProtocol] is the
      interface (class [GateClient]) a caller must satisfy and the invariant
      that ties the word to the callers; [GateLeases] has the shared, inserter
      and exclusive leases as one client.
    - Versions (src/transaction/timestamp_window.cc, version_manager.cc,
      timestamp_lease.cc).  [TimestampWindow] is the ring of completed
      timestamps, [VersionManager] the methods as machines over the atomics and
      the spin lock, [VersionThreads] the callers as the leases drive them;
      [Timeline] and [VersionSystem] hold the invariants, [VersionProperties]
      the guarantees, [VersionEffects] what one step does to timestamps and the
      published view.
    - Snapshots (src/storages/graph/graph_snapshot_store.cc).  [SnapshotStore] is
      the pool of slots with its methods as machines, [SnapshotThreads] its
      users, [SnapshotInvariant] the moves a user can make and the invariant they
      keep, [SnapshotProperties] the guarantees, [SnapshotEffects] what one step
      does to slots and the current index.
    - Transactions (src/transaction/*_transaction.cc, read_snapshot_lease.cc,
      current_graph_write_guard.cc, and the beginnings and the manual checkpoint
      in src/main/execution_slot.cc and checkpoint_coordinator.cc).
      [Transactions] composes the methods above with the log and the graph
      objects; [TransactionThreads] has any number of clients and what each of
      them is doing at the version manager and the store; [TransactionSystem]
      shows that their runs are runs of those components; [TransactionContent]
      is the invariant that relates graphs, log and views, kept by the steps
      in [TransactionIsolation], [TransactionInvariant] and [TransactionWrites];
      [TransactionFailures] and [TransactionProperties] have the guarantees.
    - Log.  [Archive] (utils/serialization), [Values] (src/common/types.cc,
      types/value.cc), [RedoRecords] (storages/graph/operation_params.cc,
      transaction/wal/wal.cc and the reading loop of
      transaction_utils.cc), [WalFormat] (wal_builder.cc, wal.h), [WalWriter]
      (local_wal_writer.cc) and [WalParser] (local_wal_parser.cc).
    - Columns (include/neug/utils/property/column.h, src/utils/property/column.cc,
      and the bulk writes of src/storages/loader/loader_utils.cc).
      [StringColumn] has the string column with its buffer of bytes and its
      array of items, [StringColumnProperties] its refinement of a plain list of
      strings, [StringColumnDump] its checkpoint payload and reopening;
      [PropertyColumns] has the fixed-width and empty columns, the dispatch over
      types and the bulk writes.
    - Primary keys (include/neug/utils/id_indexer.h).  [LFIndexer] has the
      open-addressing indexer over a column of keys that is an interface,
      [LFIndexerTable] the theory of its probe sequences, [LFIndexerProperties]
      its refinement of a list of distinct keys; [KeyColumns] discharges the
      interface with the fixed-width and the string columns.
    - Property tables (src/utils/property/table.cc).  [Tables] has the table over
      any columns and its header; [TableRows] the class [ColumnLaws] of what a
      table relies on, the rows of a table, and the instances.
    - Vertex tables.  [VertexTimestamp] (src/storages/graph/vertex_timestamp.cc)
      has the validity intervals; [VertexTable]
      (src/storages/graph/vertex_table.cc, include/neug/storages/graph/
      vertex_table.h) composes them with the indexer and the property table, and
      has the set of vertices and the view that insert transactions write
      through; [VertexTableProperties] has its refinement of a list of rows,
      [VertexTableInserts] the bulk inserts and the view.
    - Checkpoints (src/storages/checkpoint_manifest.cc, include/neug/storages/
      module_broker.h, and the Dump and Open of the tables).
      [CheckpointManifest] has descriptors by name, the reuse of earlier ones and
      the broker of modules; [ModuleKeys] the names under which vertex and edge
      tables put their parts into a checkpoint and find them again.
    - Adjacency tables.  [CsrView] (include/neug/storages/csr/nbr.h, csr_view.h)
      has the entries, the iterator of visible entries and the ordered scans;
      [MutableCsr] the operations of src/storages/csr/mutable_csr.cc,
      [MutableCsrSpec] their effect on plain lists, [MutableCsrProperties] the
      guarantees over sequences of operations; [SingleMutableCsr] the table
      with at most one edge per vertex; [ImmutableCsr] the tables of
      immutable_csr.cc with their lists in one buffer, [ImmutableCsrProperties]
      their guarantees; [CsrBase] the virtual functions over all kinds, and the
      search of csr_view_utils.cc for the other entry of an edge.
    - Edge tables (src/storages/graph/edge_table.cc, edge_table.h).  [EdgeSchema]
      has the properties of a triplet, [EdgeTable] the two directions with the
      shared property table and every operation; [EdgeArcs] edges as arcs seen from either end, [EdgeStores] what
      an adjacency table stores, [EdgeTableSpec] the effect of the operations on
      a list of arcs, [EdgeTableDelete] the deletion of a vertex's edges,
      [EdgeTableProperties] sequences of operations, [EdgeTableRebuild] the
      rebuilding when properties change.
    - Schema (src/storages/graph/schema.cc, schema.h).  [LabelIndexer] has the
      names and ids of labels with the ids that are free, [SchemaLabels] labels
      and triplets with their tombstones, [SchemaLabelsProperties] the invariant
      of a schema; [SchemaColumns] the properties of vertex types and the changes
      of properties.
    - Property graph (src/storages/graph/property_graph.cc, dirty_tracker.h).
      [DirtyTracker] has the dirty bits; [PropertyGraph] the graph with its types,
      vertices, edges and capacity; [GraphColumns] the changes of properties;
      [GraphReplay] the application of a log (ReplayCowGraphWal of
      src/transaction/transaction_utils.cc).  Vertex tables are used through the
      class [VertexTables], since labels differ in the types of their keys;
      [GraphVertices] states what the graph relies on ([VertexTableLaws]) and
      discharges it with the vertex tables above.  [GraphEdges] is the theory of
      the loops over edge tables, [GraphInvariant] the invariant of a graph,
      [GraphCapacity], [GraphTypes] and [GraphProperties] the guarantees,
      [GraphSample] a concrete graph.

    ** How the code is represented

    Machine integers are [Z] with their wrap-around written out ([u32], [u64]);
    bit fields use the source's shifts and masks; columns, indexers and tables
    thread their state through the monad [st] of this file, in which an
    exception keeps the state written before it.  Exceptions are values
    ([res], [ctl]); what C++ leaves undefined (reads or writes outside an array,
    a union member that was not written, a conversion to a 32-bit integer that
    overflows) is [OutOfBounds], so a theorem that an operation returns [Ok]
    also shows that it stays inside its buffers.  A loop that the source can run
    for ever has the result [Diverges] when its fuel is used up.  Concurrent code is a step
    machine per method and a relation that interleaves any number of threads;
    the memory model is sequential consistency.  The sources annotate
    accesses as relaxed, acquire or release; reorderings that such accesses
    permit between different words are not covered.  What the environment
    decides is an input: spurious failures of weak exchanges (also those of the
    timestamps of vertices, an oracle [weak] of the vertex table's operations),
    clocks, and the answers of the operating system to every file call.
    [std::sort] is any function with the documented behaviour of [std::sort].
    The class [Memory] of [CsrBase] holds what adjacency tables leave open: the
    sorts, the content of fresh memory, and whether a null pointer is written to.
    A schema object that tables share is a copy in each of them, kept equal
    ([shared_vertex], [shared_edge]).
    Index metadata in the log is an opaque byte string.

    ** What the theorems show

    - Admission: an exclusive lease excludes every other lease, the packed word
      counts admissions exactly, the overflow and underflow checks never fire
      ([exclusive_lease_excludes], [gate_word_exact]).  Bound: at most
      2^31 - 1 threads, the capacity of the reader field.
    - Versions: reader views are complete and never change, write timestamps are
      unique, completed writes become readable, updates and compactions exclude
      what they must, no internal error is reachable and callers fail only with a
      timeout or when timestamps are exhausted ([reader_view_frozen],
      [write_timestamps_unique], [quiescent_caught_up], [update_excludes],
      [no_internal_error]); the advance loop terminates on the maximal completed
      prefix ([advance_folds_prefix]).
    - Snapshots: pinned snapshots never change, no check of the store fails, no
      slot is lost ([pinned_snapshot_stable], [store_never_fails],
      [slots_not_leaked]).
    - Transactions: a read lease is a consistent snapshot of the transactions up
      to its timestamp and stays so ([read_lease_consistent],
      [repeatable_read]); transactions use the version manager and the store
      within their protocols ([transactions_refine]); log and graph agree
      between transactions ([log_agrees]); readers make progress, with one more
      step for every weak exchange that fails without a reason
      ([reader_progress]); the process ends only at the steps the code names
      ([only_declared_deaths]).  An insert whose graph operation threw after its
      record was logged is torn ([w_torn]): of it the graph has the first ones of
      the logged operations ([throwing_insert_diverges] is a run that has one).  Bounds: fewer than 2^31 - 1 clients, a store
      with at least one slot, a recovered timestamp below 2^32 - 1.
    - Log: types, values and all redo records round-trip to their canonical form,
      and exactly where they carry nothing the format drops ([redo_roundtrip],
      [canon_redo], [storable_redo]; [varchar_width_lost] is a record that
      does); an append is durable or disables the writer ([append_durable]);
      recovery finds exactly what was written ([recovery_complete]); composed,
      committed transactions survive a restart ([wal_end_to_end]); what a failed
      append leaves is recovered as if committed ([torn_record_blocks_recovery]).
    - Columns: a string column behaves as a list of strings cut to the longest run
      of whole characters within the width, in terms of an independent UTF-8
      decoder ([string_column_refines]), and loads back what it dumped
      ([string_dump_roundtrip]); cutting ends on a prefix of whole characters
      for well-formed text ([truncate_ends_on_text]).  An over-long string that is
      not text is excluded.
    - Primary keys: the indexer behaves as a list of distinct keys, through
      growth and rehashing ([indexer_refines]), for keys that the column stores
      unchanged; an over-long string key is not ([long_key_lost]).
    - Property tables: names, positions and types stay in step while no name is
      taken twice; renaming onto a name in use leaves the renamed column under no
      name ([table_header_refines]).
    - Vertex tables: timestamps behave as a map from vertex to the timestamp it
      exists from, as long as the source's assertions hold
      ([vertex_table_refines]); the table behaves as a list of rows
      with key, interval and properties, for keys and values that are stored
      unchanged ([vertex_rows_refine]); a bulk load either
      inserts each new key once, in order, revives deleted ones and reports the
      rest, or stops at a spurious failure with the remaining keys indexed
      ([bulk_keys_exact]); the insertion of a transaction is exact or
      changes nothing ([view_add_exact]).
    - Checkpoints: a vertex table is put together from what is read back of
      exactly its own parts ([vertex_checkpoint_opens]); reusing a module takes
      along exactly what it refers to, also when references form cycles
      ([reuse_closure_exact]).
    - Adjacency tables: operations behave as operations on plain edge lists
      ([csr_refines_lists], [immutable_refines_lists]); the edge counter is exact;
      the ordered scans return what a full scan would ([nbr_gt_exact]), unless the
      data of a sorted table was updated ([update_hides_edge]); deletion can be
      reverted.  Left out are resizes that shrink a table, lists longer than an
      [int] can reserve for ([max_reservable], [reservation_bounds]), and the
      compaction that writes through a null pointer ([null_compaction]).
    - Edge tables: the two directions of a table hold the same edges as one plain
      list through sequences of allowed operations ([edge_table_refines]);
      deleting a vertex's edges ends and is exact, also for loops and for parallel
      edges the search can tell apart ([delete_vertex_exact]; for the others
      [parallel_edges_diverge]); giving a triplet its first property keeps its
      edges ([first_property_keeps_edges]), other than for a triplet with incoming
      edges only ([only_in_rebuild_loses]).  The tables are those with any
      number of mutable edges per vertex in both directions.
    - Schema: names, ids, tombstones and triplets fit together through every
      addition and deletion of labels ([AddVertexLabel_ok], [AddEdgeLabel_ok],
      [DeleteEdgeLabel_ok], [DeleteVertexLabel_ok]); the key of a triplet
      determines its labels ([triplet_roundtrip]); the key column of a vertex type
      stays where the schema says ([delete_keeps_columns]).
    - Property graph: from a consistent graph, deleting a vertex, a batch of
      vertices, an edge type or a vertex type and growing a vertex table have
      exactly their effect on the vertices and edges of all labels and leave the
      graph consistent, for single deletions where the edges are distinguishable
      ([distinguishable]; [graph_delete_vertex], [graph_batch_delete],
      [graph_delete_edge_type], [graph_delete_vertex_type],
      [graph_ensure_capacity]).
    - Replay: the data of a log applies exactly its records in canonical form
      ([replay_exact]), and the record of a deleted vertex deletes it with its
      edges, under the conditions of the deletion ([replay_remove_vertex]); a whole log is replayed and read in
      [replayed_reads].
    - Behaviour that departs from the intent is stated as theorems as well:
      [varchar_width_lost], [torn_record_blocks_recovery], [update_hides_edge],
      [single_overwrite_miscounts], [throwing_insert_diverges],
      [short_strings_cut], [bulk_write_starved], [long_key_lost],
      [failed_insert_shadows], [edge_checkpoint_collides], [null_compaction],
      [parallel_edges_diverge], [only_in_rebuild_loses],
      [repeated_property_diverges].

    ** Fuel

    Readers of nested types and values recurse with the number of remaining
    bytes as fuel; every level of nesting consumes at least one byte, and the
    round-trip theorems include that this is enough.  The replay loop uses the
    length of the content, since each record takes at least one byte.  The
    recovery scan of a file takes the number of records it may read as a
    parameter; the theorems hold for any number above that of the records
    written.  The advance of the read timestamp takes three steps per
    outstanding timestamp.  Cutting a string takes one round per byte and one to
    stop; a probe of an indexer visits each slot at most once; the doubling of a
    capacity takes at most two rounds more than the size asked for; the
    iteration over a set of vertices takes one round per row up to its limit;
    the walk over references takes one round per module of the manifest and one
    to stop; the loop that deletes the edges of a vertex takes one round per entry
    of its list and one to stop.  Where such a loop terminates the theorems say so; where it does
    not ([truncate_ends_on_text]) the result is [Diverges].  Step machines have
    no fuel: a run is any finite sequence of steps.

    ** Bounds

    Indexers and vertex tables are covered up to a capacity of 2^31 rows, string
    columns up to 2^48 bytes (the width of an item's offset), tables up to
    2^31 columns, lists of a mutable adjacency table up to [max_reservable]
    entries after a batch and 2^30 before a single insertion.

    ** Not modelled

    Of the schema the YAML form, compaction, statistics, projected graphs and the
    accessors for the planner; of the property graph opening, dumping, compacting
    and cloning, and its indexes, whose records in a log are a parameter of the
    replay; concurrent insertions into an indexer and the older IdIndexer; nested
    columns, which are a parameter with laws; memory mapping, file checksums and
    the JSON form of a manifest; cloning and detaching, that is the sharing of
    buffers between snapshots; SetVertexSchema; the reads inside a transaction and
    the commit of bulk loads; and the query layers (compiler, execution, server,
    bindings), which are a separate program on top of this one.  In the model of
    transactions a graph is the list of operations applied to it.  The invariant
    of a property graph is shown for deletions and growth; that creating types and
    adding vertices and edges keep it is shown for the schema and for each table,
    not for the graph as a whole.  Consistency of a graph is stated for triplets
    with any number of mutable edges in both directions. *)

From stdpp Require Export base list list_numbers numbers gmap sorting.
From Stdlib Require Export ZArith Lia.

#[global] Open Scope Z_scope.

(** ** Failures

    C++ exceptions are values.  Messages are not modelled; each constructor is
    the exception class that the [THROW_*] macro raises, except that the
    runtime error of an admission counter at its limit is kept apart
    ([AdmissionLimit]) from the other runtime errors.  [CheckFailed] stands
    for a failed [CHECK]/[LOG(FATAL)] (process abort), [OutOfBounds] for what
    the C++ code leaves undefined (a read or write outside an array, a read of
    a union member that was not written, an overflowing conversion), and
    [Diverges] for a loop that never leaves its body: it is the answer of a
    loop whose fuel bounds the number of different iterations. *)
Inductive exn :=
  | InvalidArgument
  | InternalError
  | StorageError
  | NotSupported
  | NotImplemented
  | RuntimeFailure
  | AdmissionLimit
  | Overflow
  | IndexError
  | IOError
  | TransactionTimeout
  | CheckFailed
  | OutOfBounds
  | Diverges.

#[global] Instance exn_eq_dec : EqDecision exn.
Proof. solve_decision. Defined.

Inductive res (A : Type) :=
  | Ok (a : A)
  | Throw (e : exn).
Arguments Ok {A} a.
Arguments Throw {A} e.

#[global] Instance res_ret : MRet res := λ A a, Ok a.
#[global] Instance res_bind : MBind res := λ A B f m,
  match m with Ok a => f a | Throw e => Throw e end.
#[global] Instance res_fmap : FMap res := λ A B f m,
  match m with Ok a => Ok (f a) | Throw e => Throw e end.

Definition of_option {A} (e : exn) (o : option A) : res A :=
  match o with Some a => Ok a | None => Throw e end.

Lemma res_bind_ok {A B} (m : res A) (f : A → res B) (b : B) :
  m ≫= f = Ok b ↔ ∃ a, m = Ok a ∧ f a = Ok b.
Proof. destruct m; simpl; naive_solver. Qed.

(** ** Computations over a state

    The operations of a component that calls others: a state is passed on and
    an exception ends the computation, leaving the state as it is then. *)
Definition st (S A : Type) : Type := S → S * res A.

#[global] Instance st_ret {S} : MRet (st S) := λ A a s, (s, Ok a).
#[global] Instance st_bind {S} : MBind (st S) := λ A B f m s,
  match m s with (s', Ok a) => f a s' | (s', Throw e) => (s', Throw e) end.
Definition throw {S A} (e : exn) : st S A := λ s, (s, Throw e).
Definition get_state {S} : st S S := λ s, (s, Ok s).
Definition lift_res {S A} (r : res A) : st S A := λ s, (s, r).
Definition update {S} (f : S → S) : st S unit := λ s, (f s, Ok tt).

(** A method of a member. *)
Definition on {S F A} (get : S → F) (set : F → S → S) (m : st F A) : st S A := λ s,
  let '(x, r) := m (get s) in (set x s, r).

(** The body for each element, in order. *)
Fixpoint for_each {S A} (l : list A) (body : A → st S unit) : st S unit :=
  match l with [] => mret tt | a :: l => body a ;; for_each l body end.

Lemma st_bind_ok {S A B} (m : st S A) (f : A → st S B) s s' a :
  m s = (s', Ok a) → (m ≫= f) s = f a s'.
Proof. intros E. unfold mbind, st_bind. by rewrite E. Qed.

Lemma st_bind_throw {S A B} (m : st S A) (f : A → st S B) s s' e :
  m s = (s', Throw e) → (m ≫= f) s = (s', Throw e).
Proof. intros E. unfold mbind, st_bind. by rewrite E. Qed.

Lemma st_bind_done {S A D} (m : st S A) (f : A → st S D) s a : (m s).2 = Ok a → (m ≫= f) s = f a (m s).1.
Proof. intros H. apply st_bind_ok. by rewrite <- H, <- surjective_pairing. Qed.

Lemma get_then {S A} (k : S → st S A) s : (get_state ≫= k) s = k s s.
Proof. done. Qed.
Lemma lift_then {S A B} (x : A) (k : A → st S B) s : (lift_res (Ok x) ≫= k) s = k x s.
Proof. done. Qed.
Lemma update_then {S A} (f : S → S) (k : unit → st S A) s : (update f ≫= k) s = k tt (f s).
Proof. done. Qed.

Lemma for_each_nested {S A B} (l : list A) (h : A → list B) (f : B → st S unit) s :
  for_each l (λ a, for_each (h a) f) s = for_each (l ≫= h) f s.
Proof.
  assert (Happ : ∀ (k1 k2 : list B) s, for_each (k1 ++ k2) f s = (for_each k1 f;; for_each k2 f) s).
  { induction k1 as [|b k1 IH]; intros k2 x; [done|]. cbn [app for_each]. unfold mbind, st_bind in *.
    destruct (f b x) as [x' [[]|e]]; [|done]. apply IH. }
  revert s. induction l as [|a l IH]; intros s; [done|]. cbn [for_each]. rewrite bind_cons, Happ. unfold mbind, st_bind.
  destruct (for_each (h a) f s) as [s' [[]|e]]; [|done]. apply IH.
Qed.

Lemma for_each_ext {S A} (l : list A) (f g : A → st S unit) s : (∀ a s, a ∈ l → f a s = g a s) → for_each l f s = for_each l g s.
Proof.
  revert s. induction l as [|a l IH]; intros s H; [done|]. cbn [for_each]. unfold mbind, st_bind. rewrite H by (by left).
  destruct (g a s) as [s' [[]|e]]; [|done]. apply IH. intros b s'' Hb. apply H. by right.
Qed.

(** A loop keeps an invariant and leaves behind what each round achieves. *)
Lemma for_each_ind {S A} (Inv : S → Prop) (Post : A → S → Prop) (l : list A) (f : A → st S unit) s :
  (∀ a s, a ∈ l → Inv s → let x := f a s in x.2 = Ok tt ∧ Inv x.1 ∧ Post a x.1) →
  (∀ a b s, a ∈ l → Inv s → Post b s → Post b (f a s).1) →
  Inv s → let x := for_each l f s in x.2 = Ok tt ∧ Inv x.1 ∧ (∀ a, a ∈ l → Post a x.1) ∧ ∀ b, Post b s → Post b x.1.
Proof.
  revert s. induction l as [|a l IH]; intros s Hf Hp Hi.
  { split_and!; [done|done|by intros a ?%not_elem_of_nil|done]. }
  cbn [for_each]. destruct (Hf a s) as (H1 & H2 & H3); [by left|done|]. rewrite (st_bind_done _ _ _ tt H1).
  destruct (IH (f a s).1) as (K1 & K2 & K3 & K4); [|intros; apply Hp; [by right|done|done]|done|].
  { intros; apply Hf; [by right|done]. }
  split_and!; [done|done| |].
  - intros b [->|Hb]%elem_of_cons; [by apply K4|by apply K3].
  - intros b Hb. apply K4, Hp; [by left|done|done].
Qed.

Lemma when_for_each {S B} (b : bool) (x : B) (f : B → st S unit) s :
  (if b then f x else mret tt) s = for_each (if b then [x] else []) f s.
Proof. destruct b; [|done]. cbn. unfold mbind, st_bind. by destruct (f x s) as [s' [[]|e]]. Qed.

Lemma pair_for_each {S B} (b1 b2 : bool) (x1 x2 : B) (f : B → st S unit) s :
  ((if b1 then f x1 else mret tt);; (if b2 then f x2 else mret tt)) s =
  for_each ((if b1 then [x1] else []) ++ (if b2 then [x2] else [])) f s.
Proof.
  destruct b1; cbn [app]; [|by rewrite <- when_for_each]. cbn [for_each]. unfold mbind, st_bind.
  destruct (f x1 s) as [s' [[]|e]]; [|done]. by rewrite <- when_for_each.
Qed.

Lemma on_run {S F A} (get : S → F) (set : F → S → S) (m : st F A) s x r :
  m (get s) = (x, r) → on get set m s = (set x s, r).
Proof. intros E. unfold on. by rewrite E. Qed.

(** ** Machine integers

    Values of unsigned w-bit types are integers in [0, 2^w); the wrap-around
    of an operation is written with [u32], [u64] or [i32]. *)
Definition u8 (z : Z) : Z := z `mod` 2^8.
Definition u32 (z : Z) : Z := z `mod` 2^32.
Definition u64 (z : Z) : Z := z `mod` 2^64.
Definition i32 (z : Z) : Z := (z + 2^31) `mod` 2^32 - 2^31.
Definition i64 (z : Z) : Z := (z + 2^63) `mod` 2^64 - 2^63.

Arguments u8 : simpl never.
Arguments u32 : simpl never.
Arguments u64 : simpl never.
Arguments i32 : simpl never.
Arguments i64 : simpl never.

Definition U32_MAX : Z := 2^32 - 1.

Arguments U32_MAX : simpl never.

Definition is_u32 (z : Z) : Prop := 0 ≤ z < 2^32.
Definition is_u64 (z : Z) : Prop := 0 ≤ z < 2^64.

Lemma u32_id z : is_u32 z → u32 z = z.
Proof. unfold u32, is_u32. intros. apply Z.mod_small. lia. Qed.
Lemma u64_id z : is_u64 z → u64 z = z.
Proof. unfold u64, is_u64. intros. apply Z.mod_small. lia. Qed.
Lemma u64_range z : is_u64 (u64 z).
Proof. apply Z.mod_pos_bound. lia. Qed.
Lemma u64_add_l a b : u64 (u64 a + b) = u64 (a + b).
Proof. apply Zplus_mod_idemp_l. Qed.
Lemma u64_sub_l a b : u64 (u64 a - b) = u64 (a - b).
Proof. apply Zminus_mod_idemp_l. Qed.
Lemma u32_range z : is_u32 (u32 z).
Proof. apply Z.mod_pos_bound. lia. Qed.

(** ** Reflexive-transitive closure and reachability *)
Section reach.
Context {S : Type} (R : S → S → Prop).

Inductive star : S → S → Prop :=
  | star_refl s : star s s
  | star_snoc s t u : star s t → R t u → star s u.

(** An invariant established initially and kept by every step holds in
    every reachable state. *)
Lemma star_invariant (P : S → Prop) :
  (∀ s t, P s → R s t → P t) → ∀ s t, star s t → P s → P t.
Proof. intros Hstep s t Hst. induction Hst; eauto. Qed.

Lemma star_trans s t u : star s t → star t u → star s u.
Proof. intros Hst Htu. revert Hst. induction Htu; eauto using star. Qed.
End reach.

(** ** Integer sums over lists *)
Definition zsum {A} (f : A → Z) (l : list A) : Z := foldr (λ x a, f x + a) 0 l.

Section zsum.
Context {A : Type}.
Implicit Types (f g : A → Z) (l : list A).

Lemma zsum_app f l k : zsum f (l ++ k) = zsum f l + zsum f k.
Proof. induction l; simpl; lia. Qed.

Lemma zsum_snoc f l x : zsum f (l ++ [x]) = zsum f l + f x.
Proof. rewrite zsum_app. simpl. lia. Qed.

Lemma zsum_perm f l k : l ≡ₚ k → zsum f l = zsum f k.
Proof. induction 1; simpl in *; lia. Qed.

Lemma zsum_nonneg f l : (∀ x, x ∈ l → 0 ≤ f x) → 0 ≤ zsum f l.
Proof.
  induction l as [|x l IH]; simpl; intros Hf; [lia|].
  pose proof (Hf x ltac:(left)). assert (0 ≤ zsum f l); [|lia].
  apply IH. intros. apply Hf. by right.
Qed.

Lemma zsum_le_length f l : (∀ x, x ∈ l → f x ≤ 1) → zsum f l ≤ Z.of_nat (length l).
Proof.
  induction l as [|x l IH]; simpl; intros Hf; [lia|].
  pose proof (Hf x ltac:(left)). assert (zsum f l ≤ Z.of_nat (length l)); [|lia].
  apply IH. intros. apply Hf. by right.
Qed.

Lemma zsum_elem_le f l x : (∀ y, y ∈ l → 0 ≤ f y) → x ∈ l → f x ≤ zsum f l.
Proof.
  intros Hf Hx. apply list_elem_of_split in Hx as (l1 & l2 & ->).
  rewrite zsum_app. simpl.
  assert (0 ≤ zsum f l1) by (apply zsum_nonneg; intros; apply Hf; set_solver).
  assert (0 ≤ zsum f l2) by (apply zsum_nonneg; intros; apply Hf; set_solver). lia.
Qed.

Lemma zsum_zero f l : (∀ x, x ∈ l → f x = 0) → zsum f l = 0.
Proof.
  induction l as [|x l IH]; simpl; intros Hf; [done|].
  rewrite (Hf x ltac:(left)), IH; [done|]. intros. apply Hf. by right.
Qed.

Lemma zsum_le f g l : (∀ x, x ∈ l → f x ≤ g x) → zsum f l ≤ zsum g l.
Proof.
  induction l as [|x l IH]; simpl; intros Hf; [lia|].
  pose proof (Hf x ltac:(left)). assert (zsum f l ≤ zsum g l); [|lia].
  apply IH. intros. apply Hf. by right.
Qed.

Lemma zsum_linear a b f g l :
  zsum (λ x, a * f x + b * g x) l = a * zsum f l + b * zsum g l.
Proof. induction l; simpl; lia. Qed.

Lemma zsum_nonzero f l : zsum f l ≠ 0 → ∃ x, x ∈ l ∧ f x ≠ 0.
Proof.
  induction l as [|x l IH]; simpl; intros Hf; [done|].
  destruct (decide (f x = 0)) as [Hx|Hx]; [|by exists x; set_solver].
  destruct IH as (y & Hy & ?); [lia|]. exists y. set_solver.
Qed.

Lemma zsum_cons f x l : zsum f (x :: l) = f x + zsum f l.
Proof. done. Qed.

Lemma zsum_two_le f l t u x y :
  (∀ z, 0 ≤ f z) → l !! t = Some x → l !! u = Some y → t ≠ u → f x + f y ≤ zsum f l.
Proof.
  intros Hf. revert t u.
  induction l as [|z l IH]; intros [|t] [|u] Hx Hy Hne; simplify_eq/=.
  - assert (y ∈ l) by (apply list_elem_of_lookup; eauto).
    pose proof (zsum_elem_le f l y (λ z _, Hf z) ltac:(done)). lia.
  - assert (x ∈ l) by (apply list_elem_of_lookup; eauto).
    pose proof (zsum_elem_le f l x (λ z _, Hf z) ltac:(done)). lia.
  - pose proof (IH t u Hx Hy ltac:(congruence)). specialize (Hf z). lia.
Qed.

(** The slot of one thread in a pool, and everything else. *)
Lemma pool_split l t x :
  l !! t = Some x →
  ∃ rest, (∀ f, zsum f l = f x + zsum f rest) ∧
          (∀ f x', zsum f (<[t:=x']> l) = f x' + zsum f rest) ∧
          (∀ y, y ∈ l ↔ y = x ∨ y ∈ rest) ∧
          (∀ x' y, y ∈ <[t:=x']> l ↔ y = x' ∨ y ∈ rest) ∧
          length l = S (length rest) ∧
          (∀ y, y ∈ rest ↔ ∃ u, u ≠ t ∧ l !! u = Some y).
Proof.
  intros Hl. exists (take t l ++ drop (S t) l).
  pose proof (take_drop_middle l t x Hl) as Hm.
  assert (Ht : (t < length l)%nat) by eauto using lookup_lt_Some.
  assert (Hi : ∀ x', <[t:=x']> l = take t l ++ x' :: drop (S t) l)
    by (intros; apply insert_take_drop; lia).
  split_and!.
  - intros f. rewrite <- Hm at 1. rewrite !zsum_app. simpl. lia.
  - intros f x'. rewrite Hi, !zsum_app. simpl. lia.
  - intros y. rewrite <- Hm at 1. set_solver.
  - intros x' y. rewrite Hi. set_solver.
  - rewrite <- Hm at 1. rewrite !length_app. simpl. lia.
  - intros y. rewrite elem_of_app, !list_elem_of_lookup. split.
    + intros [[u Hu]|[u Hu]].
      * exists u. apply lookup_take_Some in Hu as [? ?]. split; [lia|done].
      * rewrite lookup_drop in Hu. exists (S t + u)%nat. split; [lia|done].
    + intros (u & Hne & Hu). destruct (decide (u < t)%nat).
      * left. exists u. apply lookup_take_Some. done.
      * right. exists (u - S t)%nat. rewrite lookup_drop. by replace (S t + (u - S t))%nat with u by lia.
Qed.
End zsum.

(** ** Filters *)
Section filters.
Context {A : Type} (P : A → Prop) `{!∀ x, Decision (P x)}.
Implicit Types (l : list A).

Lemma filter_ext_in (Q : A → Prop) `{!∀ x, Decision (Q x)} l :
  (∀ x, x ∈ l → P x ↔ Q x) → filter P l = filter Q l.
Proof.
  induction l as [|x l IH]; intros Hpq; [done|]. rewrite !filter_cons.
  rewrite IH by (intros; apply Hpq; by right). specialize (Hpq x ltac:(left)).
  destruct (decide (P x)), (decide (Q x)); tauto || done.
Qed.

Lemma filter_split_length l :
  (length (filter P l) + length (filter (λ x, ¬ P x) l) = length l)%nat.
Proof.
  induction l as [|x l IH]; [done|]. rewrite !filter_cons.
  destruct (decide (P x)), (decide (¬ P x)); cbn; try tauto; lia.
Qed.

Lemma filter_none_in l : (∀ x, x ∈ l → ¬ P x) → filter P l = [].
Proof.
  induction l as [|x l IH]; intros Hp; [done|]. rewrite filter_cons_False by (apply Hp; by left).
  apply IH. intros y Hy. apply Hp. by right.
Qed.

Lemma filter_all_in l : (∀ x, x ∈ l → P x) → filter P l = l.
Proof.
  induction l as [|x l IH]; intros Hp; [done|]. rewrite filter_cons_True by (apply Hp; by left).
  f_equal. apply IH. intros y Hy. apply Hp. by right.
Qed.
End filters.

(** ** Writing one value at several places *)

Lemma foldl_insert_length {A B} (f : A → nat) (x : B) l (a : list B) :
  length (foldl (λ a r, <[f r := x]> a) a l) = length a.
Proof. revert a. induction l as [|r l IH]; intros a; cbn; [done|]. by rewrite IH, length_insert. Qed.

Lemma foldl_insert_Forall {A B} (f : A → nat) (x : B) l (a : list B) (P : B → Prop) :
  P x → Forall P a → Forall P (foldl (λ a r, <[f r := x]> a) a l).
Proof.
  intros Hx. revert a. induction l as [|r l IH]; intros a Ha; cbn; [done|]. apply IH. by apply Forall_insert.
Qed.

Lemma foldl_insert_ne {A B} (f : A → nat) (x : B) l (a : list B) i :
  (∀ r, r ∈ l → f r ≠ i) → foldl (λ a r, <[f r := x]> a) a l !! i = a !! i.
Proof.
  revert a. induction l as [|r l IH]; intros a Hn; cbn; [done|].
  rewrite IH by (intros; apply Hn; by right). apply list_lookup_insert_ne. apply Hn. by left.
Qed.

Lemma foldl_insert_in {A B} (f : A → nat) (x : B) l (a : list B) r :
  r ∈ l → (f r < length a)%nat → foldl (λ a r, <[f r := x]> a) a l !! f r = Some x.
Proof.
  revert a r. induction l as [|r0 l IH]; intros a r Hr Hlen; [by apply not_elem_of_nil in Hr|]. cbn.
  destruct (decide (Exists (λ r', f r' = f r) l)) as [He|He].
  - apply Exists_exists in He as (r' & Hr' & E). rewrite <- E. apply IH; [done|]. rewrite length_insert. lia.
  - rewrite foldl_insert_ne.
    2:{ intros r' Hr' E. apply He, Exists_exists. eauto. }
    apply elem_of_cons in Hr as [->|Hr]; [by apply list_lookup_insert_eq|].
    destruct He. apply Exists_exists. eauto.
Qed.

(** ** Automation *)

(** [case_match_all] destructs every [if]/[match] scrutinee in the goal and
    the hypotheses, [solve_ranges] discharges machine-integer side conditions. *)
Ltac case_bool :=
  match goal with
  | H : context [if ?b then _ else _] |- _ => destruct b eqn:?
  | |- context [if ?b then _ else _] => destruct b eqn:?
  end.

(** Linear arithmetic with [Z.div] and [Z.modulo] by constants. *)
Ltac dlia := Z.to_euclidean_division_equations; lia.

Ltac bool_to_prop :=
  repeat match goal with
  | H : (_ && _) = true |- _ => apply andb_true_iff in H; destruct H
  | H : (_ || _) = false |- _ => apply orb_false_iff in H; destruct H
  | H : (_ <? _) = true |- _ => apply Z.ltb_lt in H
  | H : (_ <? _) = false |- _ => apply Z.ltb_ge in H
  | H : (_ <=? _) = true |- _ => apply Z.leb_le in H
  | H : (_ <=? _) = false |- _ => apply Z.leb_gt in H
  | H : (_ =? _) = true |- _ => apply Z.eqb_eq in H
  | H : (_ =? _) = false |- _ => apply Z.eqb_neq in H
  | H : Nat.ltb _ _ = true |- _ => apply Nat.ltb_lt in H
  | H : Nat.ltb _ _ = false |- _ => apply Nat.ltb_ge in H
  | H : Nat.leb _ _ = true |- _ => apply Nat.leb_le in H
  | H : Nat.leb _ _ = false |- _ => apply Nat.leb_gt in H
  | H : Nat.eqb _ _ = true |- _ => apply Nat.eqb_eq in H
  | H : Nat.eqb _ _ = false |- _ => apply Nat.eqb_neq in H
  | H : negb _ = true |- _ => apply negb_true_iff in H
  | H : negb _ = false |- _ => apply negb_false_iff in H
  | H : bool_decide _ = true |- _ => apply bool_decide_eq_true in H
  | H : bool_decide _ = false |- _ => apply bool_decide_eq_false in H
  end.

Create HintDb neug discriminated.
#[export] Hint Resolve u64_range u32_range : neug.
#[export] Hint Constructors star : neug.
