(* ===== verification/GateWord.v ===== *)
(** * The packed admission word

    [detail::AdmissionState] and [detail::OperationGateWord] of
    include/neug/transaction/operation_gate.h: one 64-bit word holds the
    admission phase (bits 62-63), the inserter count (bits 31-61) and the
    reader count (bits 0-30).  The accessors are the source's shifts and masks;
    the lemmas relate them to the arithmetic view [pack]. *)

From S2P Require Import Prelude.

(** The two-bit phase field has a fourth pattern that names no enumerator. *)
Inductive AdmissionState := kOpen | kInsertsBlocked | kAllBlocked | kUnnamed.

#[global] Instance AdmissionState_eq_dec : EqDecision AdmissionState.
Proof. solve_decision. Defined.

Definition code (p : AdmissionState) : Z :=
  match p with kOpen => 0 | kInsertsBlocked => 1 | kAllBlocked => 2 | kUnnamed => 3 end.

Definition of_code (z : Z) : AdmissionState :=
  if z =? 0 then kOpen else if z =? 1 then kInsertsBlocked
  else if z =? 2 then kAllBlocked else kUnnamed.

Module OperationGateWord.

Definition kMaxReaderCount : Z := 0x7fffffff.
Definition kMaxInserterCount : Z := 0x7fffffff.
Definition kReaderMask : Z := kMaxReaderCount.
Definition kInserterMask : Z := Z.shiftl kMaxInserterCount 31.
Definition kPhaseMask : Z := Z.shiftl 3 62.
Definition kReaderUnit : Z := 1.
Definition kInserterUnit : Z := Z.shiftl 1 31.

Definition empty (phase : AdmissionState) : Z := u64 (Z.shiftl (code phase) 62).

Definition phase (word : Z) : AdmissionState := of_code (Z.shiftr word 62).

Definition readers (word : Z) : Z := u32 (Z.land word kReaderMask).

Definition inserters (word : Z) : Z :=
  u32 (Z.land (Z.shiftr word 31) kMaxInserterCount).

(** [~kPhaseMask] is the 64-bit complement. *)
Definition with_phase (word : Z) (desired_phase : AdmissionState) : Z :=
  Z.lor (Z.land word (Z.lxor kPhaseMask (2^64 - 1)))
        (u64 (Z.shiftl (code desired_phase) 62)).

Definition increment_inserter (word : Z) : Z := u64 (word + kInserterUnit).

(** [compare_exchange] on the gate word: success installs [desired]; failure
    reports the current word.  A weak exchange may also fail spuriously. *)
Definition cas (spurious : bool) (gate observed desired : Z) : Z * option Z :=
  if (gate =? observed) && negb spurious then (desired, None) else (gate, Some gate).

Definition try_change_phase (spurious : bool) (gate observed : Z)
    (desired_phase : AdmissionState) : Z * option Z :=
  cas spurious gate observed (with_phase observed desired_phase).

Arguments empty : simpl never.
Arguments phase : simpl never.
Arguments readers : simpl never.
Arguments inserters : simpl never.
Arguments with_phase : simpl never.
Arguments increment_inserter : simpl never.
Arguments kMaxReaderCount : simpl never.
Arguments kMaxInserterCount : simpl never.

(** ** Arithmetic view *)

Definition pack (p i r : Z) : Z := p * 2^62 + i * 2^31 + r.

Definition fields_ok (p i r : Z) : Prop := 0 ≤ p < 4 ∧ 0 ≤ i < 2^31 ∧ 0 ≤ r < 2^31.

Lemma pack_range p i r : fields_ok p i r → is_u64 (pack p i r).
Proof. unfold fields_ok, is_u64, pack. lia. Qed.

Lemma readers_mod w : readers w = w `mod` 2^31.
Proof.
  unfold readers, kReaderMask, kMaxReaderCount, u32.
  change 0x7fffffff with (Z.ones 31). rewrite Z.land_ones by lia.
  apply Z.mod_small. pose proof (Z.mod_pos_bound w (2^31)). lia.
Qed.

Lemma inserters_mod w : inserters w = (w `div` 2^31) `mod` 2^31.
Proof.
  unfold inserters, kMaxInserterCount, u32. rewrite Z.shiftr_div_pow2 by lia.
  change 0x7fffffff with (Z.ones 31). rewrite Z.land_ones by lia.
  apply Z.mod_small. pose proof (Z.mod_pos_bound (w `div` 2^31) (2^31)). lia.
Qed.

Lemma phase_div w : phase w = of_code (w `div` 2^62).
Proof. unfold phase. by rewrite Z.shiftr_div_pow2 by lia. Qed.

Lemma readers_pack p i r : fields_ok p i r → readers (pack p i r) = r.
Proof. intros (?&?&?). rewrite readers_mod. unfold pack. dlia. Qed.

Lemma inserters_pack p i r : fields_ok p i r → inserters (pack p i r) = i.
Proof. intros (?&?&?). rewrite inserters_mod. unfold pack. dlia. Qed.

Lemma phase_pack p i r : fields_ok p i r → phase (pack p i r) = of_code p.
Proof. intros (?&?&?). rewrite phase_div. unfold pack. f_equal. dlia. Qed.

Lemma code_range p : 0 ≤ code p < 4.
Proof. destruct p; simpl; lia. Qed.

Lemma code_of_code z : 0 ≤ z < 4 → code (of_code z) = z.
Proof. intros. unfold of_code. repeat case_bool; simpl; lia. Qed.

Lemma of_code_code p : of_code (code p) = p.
Proof. by destruct p. Qed.

Lemma kPhaseMask_compl : Z.lxor kPhaseMask (2^64 - 1) = Z.ones 62.
Proof. reflexivity. Qed.

Lemma lor_shiftl_add a b n : 0 ≤ n → 0 ≤ b < 2^n → Z.lor b (Z.shiftl a n) = b + a * 2^n.
Proof.
  intros Hn Hb. rewrite <- Z.shiftl_mul_pow2 by lia.
  pose proof (Z.add_lor_land b (Z.shiftl a n)) as Hadd.
  assert (Z.land b (Z.shiftl a n) = 0) as Hland; [|lia].
  apply Z.bits_inj'. intros k Hk. rewrite Z.land_spec, Z.bits_0.
  destruct (decide (k < n)).
  - rewrite Z.shiftl_spec_low by lia. apply andb_false_r.
  - replace (Z.testbit b k) with false; [done|]. symmetry.
    destruct (decide (b = 0)) as [->|]; [apply Z.bits_0|].
    apply Z.bits_above_log2; [lia|]. apply Z.log2_lt_pow2; [lia|].
    assert (2^n ≤ 2^k) by (apply Z.pow_le_mono_r; lia). lia.
Qed.

(** Replacing the phase touches nothing but the phase field. *)
Lemma with_phase_pack p i r d :
  fields_ok p i r → with_phase (pack p i r) d = pack (code d) i r.
Proof.
  intros (?&?&?). pose proof (code_range d). unfold with_phase.
  rewrite kPhaseMask_compl, Z.land_ones by lia.
  rewrite u64_id by (unfold is_u64; rewrite Z.shiftl_mul_pow2; lia).
  replace (pack p i r `mod` 2^62) with (i * 2^31 + r) by (unfold pack; dlia).
  rewrite lor_shiftl_add by lia. unfold pack. lia.
Qed.

End OperationGateWord.
