(* ===== verification/OperationGate.v ===== *)
(** * OperationGate: the methods as interleaved machines

    Each method of [OperationGate] (src/transaction/operation_gate.cc) is a
    small machine over the shared gate word.  A step performs at most one
    atomic access of the word (load, fetch_add, fetch_sub or
    compare-exchange), so that interleavings of steps of different threads are
    the interleavings of the C++ atomics under sequential consistency.  Local
    computation and the runtime backoff, which do not touch the word, are part
    of the step that follows them.  What the environment decides (a spurious
    failure of a weak exchange, whether a deadline has passed) is the [oracle]
    of the step. *)

From S2P Require Import Prelude GateWord.
Import OperationGateWord.

(** How a step ends: another program point, the method's return value, or an
    exception. *)
Inductive ctl (pc R : Type) :=
  | Goto (p : pc)
  | Return (r : R)
  | Raise (e : exn).
Arguments Goto {pc R} p.
Arguments Return {pc R} r.
Arguments Raise {pc R} e.

Record oracle := Oracle { spurious : bool; expired : bool }.

Module OperationGate.

(** ** Shared admission *)

Inductive acquire_shared_pc :=
  | AS_load                       (* observed = state_.load() *)
  | AS_loop (observed : Z)
  | AS_rollback (counter_exhausted : bool).

Definition acquire_shared (o : oracle) (c : acquire_shared_pc) (w : Z)
  : Z * ctl acquire_shared_pc unit :=
  match c with
  | AS_load => (w, Goto (AS_loop w))
  | AS_loop observed =>
      if bool_decide (phase observed = kAllBlocked) then (w, Goto AS_load)
      else
        let previous := w in
        let w' := u64 (w + kReaderUnit) in
        let counter_exhausted := kMaxReaderCount <=? readers previous in
        if bool_decide (phase previous ≠ kAllBlocked) && negb counter_exhausted
        then (w', Return tt)
        else (w', Goto (AS_rollback counter_exhausted))
  | AS_rollback counter_exhausted =>
      let w' := u64 (w - kReaderUnit) in
      if counter_exhausted then (w', Raise AdmissionLimit) else (w', Goto AS_load)
  end.

Inductive acquire_shared_until_pc :=
  | ASU_load
  | ASU_deadline (observed : Z)
  | ASU_loop (observed : Z)
  | ASU_confirm                   (* admitted; the deadline is checked again *)
  | ASU_expired                   (* admitted after the deadline: give back *)
  | ASU_rollback (counter_exhausted : bool).

Definition acquire_shared_until (o : oracle) (c : acquire_shared_until_pc) (w : Z)
  : Z * ctl acquire_shared_until_pc bool :=
  match c with
  | ASU_load => (w, Goto (ASU_deadline w))
  | ASU_deadline observed =>
      if expired o then (w, Return false) else (w, Goto (ASU_loop observed))
  | ASU_loop observed =>
      if bool_decide (phase observed = kAllBlocked) then (w, Goto ASU_load)
      else
        let previous := w in
        let w' := u64 (w + kReaderUnit) in
        let counter_exhausted := kMaxReaderCount <=? readers previous in
        if bool_decide (phase previous ≠ kAllBlocked) && negb counter_exhausted
        then (w', Goto ASU_confirm)
        else (w', Goto (ASU_rollback counter_exhausted))
  | ASU_confirm =>
      if negb (expired o) then (w, Return true) else (w, Goto ASU_expired)
  | ASU_expired => (u64 (w - kReaderUnit), Return false)
  | ASU_rollback counter_exhausted =>
      let w' := u64 (w - kReaderUnit) in
      if counter_exhausted then (w', Raise AdmissionLimit) else (w', Goto ASU_load)
  end.

Inductive release_pc := REL_check | REL_sub.

Definition release_shared (o : oracle) (c : release_pc) (w : Z)
  : Z * ctl release_pc unit :=
  match c with
  | REL_check => if readers w =? 0 then (w, Raise InternalError) else (w, Goto REL_sub)
  | REL_sub => (u64 (w - kReaderUnit), Return tt)
  end.

(** ** Inserter admission *)

Inductive acquire_inserter_pc := AI_load | AI_loop (observed : Z).

Definition acquire_inserter (o : oracle) (c : acquire_inserter_pc) (w : Z)
  : Z * ctl acquire_inserter_pc unit :=
  match c with
  | AI_load => (w, Goto (AI_loop w))
  | AI_loop observed =>
      if bool_decide (phase observed ≠ kOpen) then (w, Goto AI_load)
      else if inserters observed =? kMaxInserterCount then (w, Raise AdmissionLimit)
      else
        match cas (spurious o) w observed (increment_inserter observed) with
        | (w', None) => (w', Return tt)
        | (w', Some current) => (w', Goto (AI_loop current))
        end
  end.

Definition release_inserter (o : oracle) (c : release_pc) (w : Z)
  : Z * ctl release_pc unit :=
  match c with
  | REL_check => if inserters w =? 0 then (w, Raise InternalError) else (w, Goto REL_sub)
  | REL_sub => (u64 (w - kInserterUnit), Return tt)
  end.

(** ** Phase changes *)

Inductive phase_pc := PH_load | PH_loop (observed : Z).

Definition enter_phase (desired : AdmissionState) (o : oracle) (c : phase_pc) (w : Z)
  : Z * ctl phase_pc unit :=
  match c with
  | PH_load => (w, Goto (PH_loop w))
  | PH_loop observed =>
      if bool_decide (phase observed ≠ kOpen) then (w, Goto PH_load)
      else
        match try_change_phase (spurious o) w observed desired with
        | (w', None) => (w', Return tt)
        | (w', Some current) => (w', Goto (PH_loop current))
        end
  end.

Definition transition_phase (expected desired : AdmissionState) (o : oracle)
    (c : phase_pc) (w : Z) : Z * ctl phase_pc unit :=
  match c with
  | PH_load => (w, Goto (PH_loop w))
  | PH_loop observed =>
      if bool_decide (phase observed ≠ expected) then (w, Raise InternalError)
      else
        match try_change_phase (spurious o) w observed desired with
        | (w', None) => (w', Return tt)
        | (w', Some current) => (w', Goto (PH_loop current))
        end
  end.

(** The phase test of [reopen] is a debug assertion and has no effect. *)
Definition reopen (o : oracle) (c : phase_pc) (w : Z) : Z * ctl phase_pc unit :=
  match c with
  | PH_load => (w, Goto (PH_loop w))
  | PH_loop observed =>
      match try_change_phase (spurious o) w observed kOpen with
      | (w', None) => (w', Return tt)
      | (w', Some current) => (w', Goto (PH_loop current))
      end
  end.

Definition unseal_to_open (o : oracle) (c : phase_pc) (w : Z) : Z * ctl phase_pc unit :=
  match c with
  | PH_load => (w, Goto (PH_loop w))
  | PH_loop observed =>
      match try_change_phase (spurious o) w observed kOpen with
      | (w', None) => (w', Return tt)
      | (w', Some current) => (w', Goto (PH_loop current))
      end
  end.

Inductive enter_phase_until_pc :=
  | EU_load
  | EU_deadline (observed : Z)
  | EU_cas (observed : Z)
  | EU_confirm
  | EU_reopen (c : phase_pc).

Definition enter_phase_until (desired : AdmissionState) (o : oracle)
    (c : enter_phase_until_pc) (w : Z) : Z * ctl enter_phase_until_pc bool :=
  match c with
  | EU_load => (w, Goto (EU_deadline w))
  | EU_deadline observed =>
      if expired o then (w, Return false)
      else if bool_decide (phase observed = kOpen) then (w, Goto (EU_cas observed))
      else (w, Goto EU_load)
  | EU_cas observed =>
      match try_change_phase (spurious o) w observed desired with
      | (w', None) => (w', Goto EU_confirm)
      | (w', Some _) => (w', Goto EU_load)
      end
  | EU_confirm =>
      if negb (expired o) then (w, Return true) else (w, Goto (EU_reopen PH_load))
  | EU_reopen c' =>
      match reopen o c' w with
      | (w', Goto c'') => (w', Goto (EU_reopen c''))
      | (w', Return _) => (w', Return false)
      | (w', Raise e) => (w', Raise e)
      end
  end.

Inductive try_enter_phase_pc := TE_load | TE_cas (observed : Z).

(** A strong exchange: no spurious failure. *)
Definition try_enter_phase (desired : AdmissionState) (o : oracle)
    (c : try_enter_phase_pc) (w : Z) : Z * ctl try_enter_phase_pc bool :=
  match c with
  | TE_load =>
      if bool_decide (phase w ≠ kOpen) then (w, Return false) else (w, Goto (TE_cas w))
  | TE_cas observed =>
      match cas false w observed (with_phase observed desired) with
      | (w', None) => (w', Return true)
      | (w', Some _) => (w', Return false)
      end
  end.

(** A single strong exchange from the empty open word to the empty blocked
    word: it fails as soon as any admission count is non-zero. *)
Definition try_seal_open_state (w : Z) : Z * bool :=
  match cas false w (empty kOpen) (empty kAllBlocked) with
  | (w', None) => (w', true)
  | (w', Some _) => (w', false)
  end.

(** ** Drain waits *)

Definition wait_readers_drained (o : oracle) (c : unit) (w : Z) : Z * ctl unit unit :=
  if readers w =? 0 then (w, Return tt) else (w, Goto tt).

Definition wait_inserters_drained (o : oracle) (c : unit) (w : Z) : Z * ctl unit unit :=
  if inserters w =? 0 then (w, Return tt) else (w, Goto tt).

Inductive wait_until_pc := WU_load | WU_deadline | WU_final.

Definition wait_readers_drained_until (o : oracle) (c : wait_until_pc) (w : Z)
  : Z * ctl wait_until_pc bool :=
  match c with
  | WU_load => if readers w =? 0 then (w, Goto WU_final) else (w, Goto WU_deadline)
  | WU_deadline => if expired o then (w, Return false) else (w, Goto WU_load)
  | WU_final => (w, Return (negb (expired o)))
  end.

Definition wait_inserters_drained_until (o : oracle) (c : wait_until_pc) (w : Z)
  : Z * ctl wait_until_pc bool :=
  match c with
  | WU_load => if inserters w =? 0 then (w, Goto WU_final) else (w, Goto WU_deadline)
  | WU_deadline => if expired o then (w, Return false) else (w, Goto WU_load)
  | WU_final => (w, Return (negb (expired o)))
  end.

End OperationGate.

(** ** What each step does to the word

    Local specifications: the change of the word by a step in terms of the
    units the program point owns, under facts every thread may assume of the
    word (proved from the protocol invariant in GateProtocol). *)

Module GateSteps.
Import OperationGate.

Lemma phase_code w : is_u64 w → code (phase w) = w `div` 2^62.
Proof. intros [??]. rewrite phase_div, code_of_code; [done|]. dlia. Qed.

Lemma with_phase_delta w d :
  is_u64 w → with_phase w d = w + (code d - code (phase w)) * 2^62.
Proof.
  intros Hw. rewrite (phase_code w Hw). destruct Hw as [Hw0 Hw1].
  assert (Hp : w = pack (w `div` 2^62) ((w `div` 2^31) `mod` 2^31) (w `mod` 2^31)).
  { unfold pack. change (2^62) with (2^31*2^31). rewrite <- Z.div_div by lia. dlia. }
  rewrite Hp at 1. rewrite with_phase_pack.
  - unfold pack in *. lia.
  - unfold fields_ok. dlia.
Qed.

Lemma readers_pos w : is_u64 w → 1 ≤ readers w → u64 (w - kReaderUnit) = w - 1.
Proof. unfold is_u64, kReaderUnit. rewrite readers_mod. intros. apply u64_id. unfold is_u64. dlia. Qed.

Lemma readers_room w : is_u64 w → readers w < kMaxReaderCount → u64 (w + kReaderUnit) = w + 1.
Proof.
  unfold is_u64, kReaderUnit, kMaxReaderCount. rewrite readers_mod. intros.
  apply u64_id. unfold is_u64. dlia.
Qed.

Lemma inserters_pos w : is_u64 w → 1 ≤ inserters w → u64 (w - kInserterUnit) = w - 2^31.
Proof.
  unfold is_u64. change kInserterUnit with (2^31). rewrite inserters_mod. intros.
  apply u64_id. unfold is_u64. dlia.
Qed.

Lemma inserters_room w :
  is_u64 w → phase w = kOpen → increment_inserter w = w + 2^31.
Proof.
  intros Hw Hp. unfold increment_inserter. change kInserterUnit with (2^31).
  pose proof (phase_code w Hw) as Hc. rewrite Hp in Hc. cbn in Hc.
  apply u64_id. unfold is_u64 in *. dlia.
Qed.

Ltac gs := cbn; split_and?; try done; try lia; try (intros; lia || done).

Definition as_rd (c : acquire_shared_pc) : Z := match c with AS_rollback _ => 1 | _ => 0 end.
Definition as_ok (c : acquire_shared_pc) : Prop := c ≠ AS_rollback true.

Lemma acquire_shared_spec o c w w' k :
  is_u64 w → as_ok c →
  (as_rd c = 0 → readers w < kMaxReaderCount) → (as_rd c = 1 → 1 ≤ readers w) →
  acquire_shared o c w = (w', k) →
  match k with
  | Goto c' => w' = w + as_rd c' - as_rd c ∧ as_ok c'
  | Return _ => w' = w + 1 - as_rd c ∧ phase w ≠ kAllBlocked
  | Raise _ => False
  end.
Proof.
  intros Hw Hok Hroom Hpos Hs. destruct c as [|obs|b]; cbn in *.
  - simplify_eq. gs.
  - rewrite readers_room in Hs by eauto with lia. specialize (Hroom eq_refl).
    case_bool_decide; simplify_eq; [gs|].
    destruct (kMaxReaderCount <=? readers w) eqn:E; bool_to_prop; [lia|].
    case_bool_decide; cbn in *; simplify_eq; gs.
  - rewrite readers_pos in Hs by eauto with lia. destruct b; [done|]. simplify_eq. gs.
Qed.

Definition asu_rd (c : acquire_shared_until_pc) : Z :=
  match c with ASU_confirm | ASU_expired | ASU_rollback _ => 1 | _ => 0 end.
Definition asu_adm (c : acquire_shared_until_pc) : Z :=
  match c with ASU_confirm | ASU_expired => 1 | _ => 0 end.
Definition asu_ok (c : acquire_shared_until_pc) : Prop := c ≠ ASU_rollback true.

Lemma acquire_shared_until_spec o c w w' k :
  is_u64 w → asu_ok c →
  (asu_rd c = 0 → readers w < kMaxReaderCount) → (asu_rd c = 1 → 1 ≤ readers w) →
  acquire_shared_until o c w = (w', k) →
  match k with
  | Goto c' => w' = w + asu_rd c' - asu_rd c ∧ asu_ok c' ∧
               (asu_adm c < asu_adm c' → phase w ≠ kAllBlocked)
  | Return b => w' = w + (if b then 1 else 0) - asu_rd c ∧ (b = true → asu_adm c = 1)
  | Raise _ => False
  end.
Proof.
  intros Hw Hok Hroom Hpos Hs. destruct c as [|obs|obs| | |b]; cbn in *; simplify_eq.
  - gs.
  - case_bool; simplify_eq; gs.
  - rewrite readers_room in Hs by eauto with lia. specialize (Hroom eq_refl).
    case_bool_decide; simplify_eq; [gs|].
    destruct (kMaxReaderCount <=? readers w) eqn:E; bool_to_prop; [lia|].
    case_bool_decide; cbn in *; simplify_eq; gs.
  - case_bool; simplify_eq; gs.
  - rewrite readers_pos by eauto with lia. gs.
  - rewrite readers_pos in Hs by eauto with lia. destruct b; [done|]. simplify_eq.
    gs.
Qed.

Lemma release_shared_spec o c w w' k :
  is_u64 w → 1 ≤ readers w → release_shared o c w = (w', k) →
  match k with
  | Goto c' => w' = w | Return _ => w' = w - 1 | Raise _ => False
  end.
Proof.
  intros Hw Hr Hs. destruct c; cbn in Hs.
  - case_bool; simplify_eq; bool_to_prop; [lia|done].
  - rewrite readers_pos in Hs by done. by simplify_eq.
Qed.

Lemma release_inserter_spec o c w w' k :
  is_u64 w → 1 ≤ inserters w → release_inserter o c w = (w', k) →
  match k with
  | Goto c' => w' = w | Return _ => w' = w - 2^31 | Raise _ => False
  end.
Proof.
  intros Hw Hr Hs. destruct c; cbn in Hs.
  - case_bool; simplify_eq; bool_to_prop; [lia|done].
  - rewrite inserters_pos in Hs by done. by simplify_eq.
Qed.

Definition ai_ok (c : acquire_inserter_pc) : Prop :=
  match c with AI_load => True | AI_loop obs => inserters obs < kMaxInserterCount end.

Lemma cas_cases s w obs des w' r :
  cas s w obs des = (w', r) → (r = None ∧ w = obs ∧ w' = des) ∨ (r = Some w ∧ w' = w).
Proof. unfold cas. intros H. case_bool; bool_to_prop; naive_solver. Qed.

Lemma acquire_inserter_spec o c w w' k :
  is_u64 w → ai_ok c → inserters w < kMaxInserterCount →
  acquire_inserter o c w = (w', k) →
  match k with
  | Goto c' => w' = w ∧ ai_ok c'
  | Return _ => w' = w + 2^31 ∧ phase w = kOpen
  | Raise _ => False
  end.
Proof.
  intros Hw Hok Hi Hs. destruct c as [|obs]; cbn in *; simplify_eq; [done|].
  case_bool_decide as Hp; simplify_eq; [done|]. case_bool; bool_to_prop; [lia|].
  destruct (cas _ _ _ _) as [w1 r] eqn:E. apply cas_cases in E as [(->&<-&->)|(->&->)]; simplify_eq.
  - by rewrite inserters_room.
  - done.
Qed.

Definition ph_ok (p : AdmissionState) (c : phase_pc) : Prop :=
  match c with PH_load => True | PH_loop obs => phase obs = p end.

Lemma enter_phase_spec d o c w w' k :
  is_u64 w → enter_phase d o c w = (w', k) →
  match k with
  | Goto c' => w' = w
  | Return _ => w' = w + code d * 2^62 ∧ phase w = kOpen
  | Raise _ => False
  end.
Proof.
  intros Hw Hs. destruct c as [|obs]; cbn in *; simplify_eq; [done|].
  case_bool_decide as Hp; simplify_eq; [done|].
  unfold try_change_phase in Hs. destruct (cas _ _ _ _) as [w1 r] eqn:E.
  apply cas_cases in E as [(->&<-&->)|(->&->)]; simplify_eq; [|done].
  rewrite with_phase_delta, Hp by done. cbn. gs.
Qed.

Lemma transition_phase_spec e d o c w w' k :
  is_u64 w → phase w = e → ph_ok e c → transition_phase e d o c w = (w', k) →
  match k with
  | Goto c' => w' = w ∧ ph_ok e c'
  | Return _ => w' = w + (code d - code e) * 2^62
  | Raise _ => False
  end.
Proof.
  intros Hw Hp Hok Hs. destruct c as [|obs]; cbn in *; simplify_eq; [done|].
  case_bool_decide as Hq; [done|].
  unfold try_change_phase in Hs. destruct (cas _ _ _ _) as [w1 r] eqn:E.
  apply cas_cases in E as [(->&<-&->)|(->&->)]; simplify_eq; [|done].
  by rewrite with_phase_delta.
Qed.

Lemma reopen_spec o c w w' k :
  is_u64 w → reopen o c w = (w', k) →
  match k with
  | Goto c' => w' = w
  | Return _ => w' = w - code (phase w) * 2^62
  | Raise _ => False
  end.
Proof.
  intros Hw Hs. destruct c as [|obs]; cbn in *; simplify_eq; [done|].
  unfold try_change_phase in Hs. destruct (cas _ _ _ _) as [w1 r] eqn:E.
  apply cas_cases in E as [(->&<-&->)|(->&->)]; simplify_eq; [|done].
  rewrite with_phase_delta by done. cbn. lia.
Qed.

(** [eu_own]: whether the machine holds the phase it was asked to enter. *)
Definition eu_own (c : enter_phase_until_pc) : bool :=
  match c with EU_confirm | EU_reopen _ => true | _ => false end.
Definition eu_ok (c : enter_phase_until_pc) : Prop :=
  match c with EU_cas obs => phase obs = kOpen | _ => True end.

Lemma enter_phase_until_spec d o c w w' k :
  is_u64 w → eu_ok c → (eu_own c = true → phase w = d) →
  enter_phase_until d o c w = (w', k) →
  let units b := (if b : bool then code d * 2^62 else 0) in
  match k with
  | Goto c' => w' = w + units (eu_own c') - units (eu_own c) ∧ eu_ok c' ∧
               (eu_own c = false → eu_own c' = true → phase w = kOpen)
  | Return b => w' = w + units b - units (eu_own c) ∧ (b = true → eu_own c = true)
  | Raise _ => False
  end.
Proof.
  intros Hw Hok Hown Hs. destruct c as [|obs|obs| |c]; cbn in *; simplify_eq.
  - gs.
  - case_bool; simplify_eq; [gs|].
    case_bool_decide; simplify_eq; gs.
  - unfold try_change_phase in Hs. destruct (cas _ _ _ _) as [w1 r] eqn:E.
    apply cas_cases in E as [(->&<-&->)|(->&->)]; simplify_eq; cbn.
    + rewrite with_phase_delta, Hok by done. cbn. gs.
    + gs.
  - case_bool; simplify_eq; cbn; gs.
  - destruct (reopen o c w) as [w1 r] eqn:E. pose proof (reopen_spec o c w w1 r Hw E) as Hr.
    rewrite (Hown eq_refl) in Hr. destruct r; simplify_eq; cbn; [|gs|done].
    gs.
Qed.

End GateSteps.
