(* ===== verification/GateProtocol.v ===== *)
(** * The admission protocol of the gate word

    What one thread contributes to the packed word, the invariant that ties
    the word to the contributions of all threads, and the conditions under
    which a thread's step keeps that invariant.  Clients of the gate (the
    leases of operation_gate.cc, the version manager) are instances of
    [GateClient]; the exclusion theorems are proved against the class. *)

From S2P Require Import Prelude GateWord OperationGate.
Import OperationGateWord.

(** [rd]: reader units of the word that belong to the thread (speculative ones
    included); [adm]: readers it has been admitted for; [ins]: inserter units;
    [own]: the phase it has installed; [di]/[dr]: it has seen the inserters or
    the readers drained while owning that phase. *)
Class GateClient (T : Type) := {
  rd : T → Z;
  adm : T → Z;
  ins : T → Z;
  own : T → option AdmissionState;
  di : T → bool;
  dr : T → bool;
  rd_law : ∀ x, 0 ≤ adm x ∧ adm x ≤ rd x ∧ rd x ≤ 1;
  ins_law : ∀ x, 0 ≤ ins x ≤ 1;
  own_law : ∀ x p, own x = Some p → p = kInsertsBlocked ∨ p = kAllBlocked;
  di_law : ∀ x, di x = true → own x ≠ None;
  dr_law : ∀ x, dr x = true → own x = Some kAllBlocked
}.

Section protocol.
Context {T : Type} `{!GateClient T}.
Implicit Types (x y : T) (ts : list T).

Definition pcode x : Z := match own x with Some p => code p | None => 0 end.
Definition nown x : Z := match own x with Some _ => 1 | None => 0 end.
Definition contrib x : Z := pack (pcode x) (ins x) (rd x).

Record gate_inv (w : Z) (ts : list T) : Prop := {
  gi_word : w = zsum contrib ts;
  gi_own : zsum nown ts ≤ 1;
  gi_len : Z.of_nat (length ts) ≤ kMaxReaderCount;
  gi_di : ∀ x, x ∈ ts → di x = true → zsum ins ts = 0;
  gi_dr : ∀ x, x ∈ ts → dr x = true → zsum adm ts = 0
}.

(** A step of one thread that respects the protocol. *)
Record legal_step (x : T) (w : Z) (x' : T) (w' : Z) : Prop := {
  ls_word : w' = w + contrib x' - contrib x;
  ls_own : own x = None → own x' ≠ None → phase w = kOpen;
  ls_ins : ins x < ins x' → phase w = kOpen;
  ls_adm : adm x < adm x' → phase w ≠ kAllBlocked;
  ls_di : di x' = true → own x ≠ None ∧ (di x = true ∨ inserters w = 0);
  ls_dr : dr x' = true → own x = Some kAllBlocked ∧ (dr x = true ∨ readers w = 0)
}.

Lemma nown_range x : 0 ≤ nown x ≤ 1.
Proof. unfold nown. destruct (own x); lia. Qed.

Lemma pcode_range x : 0 ≤ pcode x ≤ 2 * nown x.
Proof.
  unfold pcode, nown. destruct (own x) as [p|] eqn:E; [|lia].
  destruct (own_law _ _ E) as [-> | ->]; simpl; lia.
Qed.

Lemma zsum_contrib ts : zsum contrib ts = pack (zsum pcode ts) (zsum ins ts) (zsum rd ts).
Proof. unfold pack. induction ts as [|x ts IH]; [done|].
  rewrite !zsum_cons, IH. unfold contrib, pack. lia. Qed.

Lemma sums_range w ts :
  gate_inv w ts →
  fields_ok (zsum pcode ts) (zsum ins ts) (zsum rd ts) ∧
  0 ≤ zsum adm ts ≤ zsum rd ts ∧ zsum rd ts ≤ Z.of_nat (length ts) ∧
  zsum pcode ts ≤ 2.
Proof.
  intros Hi. pose proof (gi_own _ _ Hi). pose proof (gi_len _ _ Hi) as Hlen.
  unfold kMaxReaderCount in Hlen.
  assert (0 ≤ zsum ins ts) by (apply zsum_nonneg; intros; apply ins_law).
  assert (zsum ins ts ≤ Z.of_nat (length ts)) by (apply zsum_le_length; intros; apply ins_law).
  assert (zsum rd ts ≤ Z.of_nat (length ts)) by (apply zsum_le_length; intros; apply rd_law).
  assert (0 ≤ zsum adm ts) by (apply zsum_nonneg; intros; apply rd_law).
  assert (zsum adm ts ≤ zsum rd ts) by (apply zsum_le; intros; apply rd_law).
  assert (0 ≤ zsum pcode ts) by (apply zsum_nonneg; intros; apply pcode_range).
  assert (zsum pcode ts ≤ zsum (λ x, 2 * nown x + 0 * nown x) ts)
    by (apply zsum_le; intros x _; pose proof (pcode_range x); lia).
  rewrite zsum_linear in *. unfold fields_ok. lia.
Qed.

(** The accessors of the word read off the sums. *)
Lemma gate_decode w ts :
  gate_inv w ts →
  readers w = zsum rd ts ∧ inserters w = zsum ins ts ∧ phase w = of_code (zsum pcode ts).
Proof.
  intros Hi. destruct (sums_range _ _ Hi) as (Hf & _).
  rewrite (gi_word _ _ Hi), zsum_contrib.
  rewrite readers_pack, inserters_pack, phase_pack by done. done.
Qed.

Lemma nown_zero_pcode x : nown x = 0 → pcode x = 0.
Proof. pose proof (pcode_range x). lia. Qed.

Lemma rest_unowned w ts x rest :
  gate_inv w ts → own x ≠ None →
  (∀ f : T → Z, zsum f ts = f x + zsum f rest) →
  zsum nown rest = 0 ∧ zsum pcode rest = 0 ∧ (∀ y, y ∈ rest → own y = None).
Proof.
  intros Hi Hown Hs. pose proof (gi_own _ _ Hi) as Ho. rewrite (Hs nown) in Ho.
  assert (nown x = 1) by (unfold nown; destruct (own x); done).
  assert (Hn : ∀ y, y ∈ rest → 0 ≤ nown y) by (intros; apply nown_range).
  pose proof (zsum_nonneg nown rest Hn).
  assert (Hz : ∀ y, y ∈ rest → nown y = 0).
  { intros y Hy. pose proof (zsum_elem_le nown rest y Hn Hy). pose proof (nown_range y). lia. }
  split_and!; [lia| |].
  - apply zsum_zero. eauto using nown_zero_pcode.
  - intros y Hy. specialize (Hz y Hy). unfold nown in Hz. by destruct (own y).
Qed.

(** The owner's phase is the phase of the word, and there is no other owner. *)
Lemma owner_phase w ts x p :
  gate_inv w ts → x ∈ ts → own x = Some p → phase w = p.
Proof.
  intros Hi Hx Hown. apply list_elem_of_lookup in Hx as [t Ht].
  destruct (pool_split _ _ _ Ht) as (rest & Hs & _).
  destruct (rest_unowned w ts x rest Hi) as (_ & Hp & _); [congruence|done|].
  destruct (gate_decode _ _ Hi) as (_ & _ & ->). rewrite (Hs pcode), Hp.
  unfold pcode. rewrite Hown, Z.add_0_r. apply of_code_code.
Qed.

Lemma owner_unique w ts t u x y :
  gate_inv w ts → ts !! t = Some x → ts !! u = Some y →
  own x ≠ None → own y ≠ None → t = u.
Proof.
  intros Hi Hx Hy Ox Oy. destruct (decide (t = u)) as [|Hne]; [done|exfalso].
  pose proof (zsum_two_le nown ts t u x y (λ z, proj1 (nown_range z)) Hx Hy Hne).
  pose proof (gi_own _ _ Hi). unfold nown in *. destruct (own x), (own y); simpl in *; try done; lia.
Qed.

(** What a thread may assume of the word it shares. *)
Record gate_view (w : Z) (x : T) : Prop := {
  gv_range : is_u64 w;
  gv_room : rd x = 0 → readers w < kMaxReaderCount;
  gv_reader : rd x = 1 → 1 ≤ readers w;
  gv_iroom : ins x = 0 → inserters w < kMaxInserterCount;
  gv_inserter : ins x = 1 → 1 ≤ inserters w;
  gv_phase : ∀ p, own x = Some p → phase w = p
}.

Lemma gate_inv_view w ts t x : gate_inv w ts → ts !! t = Some x → gate_view w x.
Proof.
  intros Hi Hx. destruct (gate_decode _ _ Hi) as (Hr & Hn & _).
  destruct (sums_range _ _ Hi) as (Hf & _).
  assert (Hxin : x ∈ ts) by (apply list_elem_of_lookup; eauto).
  destruct (pool_split _ _ _ Hx) as (rest & Hs & _ & _ & _ & Hlen & _).
  pose proof (gi_len _ _ Hi) as Hl. unfold kMaxReaderCount in Hl.
  assert (Hbound : ∀ f : T → Z, (∀ z, 0 ≤ f z ≤ 1) →
    f x ≤ zsum f ts ≤ f x + Z.of_nat (length rest)).
  { intros f Hf'. rewrite (Hs f).
    pose proof (zsum_nonneg f rest (λ z _, proj1 (Hf' z))).
    pose proof (zsum_le_length f rest (λ z _, proj2 (Hf' z))). lia. }
  assert (∀ z, 0 ≤ rd z ≤ 1) as Hrd1 by (intros z; pose proof (rd_law z); lia).
  pose proof (Hbound rd Hrd1). pose proof (Hbound ins ins_law).
  unfold kMaxReaderCount, kMaxInserterCount in *.
  split; rewrite ?Hr, ?Hn; unfold kMaxReaderCount, kMaxInserterCount; try lia.
  - rewrite (gi_word _ _ Hi), zsum_contrib. by apply pack_range.
  - intros p Hp. by eapply owner_phase.
Qed.

(** ** Exclusion *)

(** While a thread owns the blocked phase after draining, no thread holds a
    reader or inserter admission, and no other thread owns a phase. *)
Lemma drained_exclusive w ts t x :
  gate_inv w ts → ts !! t = Some x → di x = true → dr x = true →
  ∀ u y, ts !! u = Some y → adm y = 0 ∧ ins y = 0 ∧ (own y ≠ None → u = t).
Proof.
  intros Hi Hx Hdi Hdr u y Hy.
  assert (Hxin : x ∈ ts) by (apply list_elem_of_lookup; eauto).
  assert (Hyin : y ∈ ts) by (apply list_elem_of_lookup; eauto).
  pose proof (gi_di _ _ Hi x Hxin Hdi) as Hins. pose proof (gi_dr _ _ Hi x Hxin Hdr) as Hadm.
  pose proof (zsum_elem_le ins ts y (λ z _, proj1 (ins_law z)) Hyin).
  pose proof (zsum_elem_le adm ts y (λ z _, proj1 (rd_law z)) Hyin).
  pose proof (ins_law y). pose proof (rd_law y). split_and!; [lia..|].
  intros Oy. eapply owner_unique; eauto. by apply di_law.
Qed.

(** ** Legal steps keep the invariant *)
Lemma legal_step_inv w ts t x x' w' :
  gate_inv w ts → ts !! t = Some x → legal_step x w x' w' → gate_inv w' (<[t:=x']> ts).
Proof.
  intros Hi Hx Hl.
  destruct (gate_decode _ _ Hi) as (Hrd & Hin & Hph).
  assert (Hxin : x ∈ ts) by (apply list_elem_of_lookup; eauto).
  destruct (pool_split _ _ _ Hx) as (rest & Hs & Hs' & He & He' & Hlen & _).
  assert (Hopen : zsum nown rest = 0 ∨ phase w ≠ kOpen).
  { destruct (decide (zsum nown rest = 0)); [by left|right].
    pose proof (zsum_nonneg nown rest (λ z _, proj1 (nown_range z))).
    assert (∃ y, y ∈ rest ∧ own y ≠ None) as (y & Hy & Oy).
    { destruct (zsum_nonzero nown rest n) as (y & Hy & Hn). exists y. split; [done|].
      unfold nown in Hn. by destruct (own y). }
    destruct (own y) as [p|] eqn:E; [|done].
    rewrite (owner_phase w ts y p) by (try apply He; auto).
    by destruct (own_law _ _ E) as [-> | ->]. }
  assert (Hblk : ∀ y, y ∈ rest → dr y = true → adm x' ≤ adm x).
  { intros y Hy Hdr. destruct (decide (adm x < adm x')) as [Hlt|]; [|lia].
    exfalso. apply (ls_adm _ _ _ _ Hl Hlt), (owner_phase w ts y); [done|by apply He; right|].
    by apply dr_law. }
  assert (Hblki : ∀ y, y ∈ ts → own y ≠ None → ins x' ≤ ins x).
  { intros y Hy Oy. destruct (decide (ins x < ins x')) as [Hlt|]; [|lia].
    exfalso. pose proof (ls_ins _ _ _ _ Hl Hlt) as Ho. destruct (own y) as [p|] eqn:E; [|done].
    pose proof (owner_phase w ts y p Hi Hy E). destruct (own_law _ _ E); congruence. }
  split.
  - rewrite Hs'. pose proof (gi_word _ _ Hi) as Hw. rewrite (Hs contrib) in Hw.
    rewrite (ls_word _ _ _ _ Hl). lia.
  - rewrite Hs'. pose proof (gi_own _ _ Hi) as Ho. rewrite (Hs nown) in Ho.
    pose proof (nown_range x). pose proof (nown_range x').
    destruct (decide (nown x' ≤ nown x)); [lia|].
    assert (zsum nown rest = 0) as ->; [|lia].
    destruct Hopen as [|Hne]; [done|]. exfalso. apply Hne, (ls_own _ _ _ _ Hl); unfold nown in *;
      destruct (own x), (own x'); first [lia|done].
  - rewrite length_insert. apply (gi_len _ _ Hi).
  - intros y Hy Hdi. apply He' in Hy. rewrite Hs'. pose proof (ins_law x').
    pose proof (ins_law x). pose proof (zsum_nonneg ins rest (λ z _, proj1 (ins_law z))).
    cut (zsum ins ts = 0 ∧ ins x' ≤ ins x); [rewrite (Hs ins); lia|].
    destruct Hy as [->|Hy].
    + destruct (ls_di _ _ _ _ Hl Hdi) as [Ox [Hd|Hd]]; split; eauto using gi_di; congruence.
    + split; [eapply (gi_di _ _ Hi y); [by apply He; right|done]|].
      apply (Hblki y); [by apply He; right|by apply di_law].
  - intros y Hy Hdr. apply He' in Hy. rewrite Hs'. pose proof (rd_law x').
    pose proof (rd_law x). pose proof (zsum_nonneg adm rest (λ z _, proj1 (rd_law z))).
    cut (zsum adm ts = 0 ∧ adm x' ≤ adm x); [rewrite (Hs adm); lia|].
    destruct Hy as [->|Hy].
    + destruct (ls_dr _ _ _ _ Hl Hdr) as [Ox Hd]. split.
      * destruct Hd as [Hd|Hd]; [by eapply gi_dr|].
        destruct (sums_range _ _ Hi) as (_ & ? & _). lia.
      * destruct (decide (adm x < adm x')) as [Hlt|]; [|lia].
        exfalso. apply (ls_adm _ _ _ _ Hl Hlt), (owner_phase w ts x); done.
    + split; [eapply (gi_dr _ _ Hi y); [by apply He; right|done]|]. by apply (Hblk y).
Qed.

End protocol.
