(* ===== verification/GateLeases.v ===== *)
(** * Leases over the operation gate

    [SharedOperationLease] and [ExclusiveOperationLease] of
    src/transaction/operation_gate.cc and the inserter admission, as clients of
    one gate: any number of threads acquire, hold and release leases, timed or
    not, in any interleaving. *)

From S2P Require Import Prelude GateWord OperationGate GateProtocol.
Import OperationGateWord OperationGate GateSteps.

(** The operation an idle thread starts next. *)
Inductive lease_op := OpShared | OpSharedUntil | OpInserter | OpExclusive | OpExclusiveUntil.

Inductive lease_thread :=
  | LIdle
  | LShared (c : acquire_shared_pc)
  | LSharedUntil (c : acquire_shared_until_pc)
  | LReader
  | LSharedRelease (c : release_pc)
  | LInsAcquire (c : acquire_inserter_pc)
  | LInserter
  | LInsRelease (c : release_pc)
  | LExclEnter (c : phase_pc)
  | LExclWaitIns
  | LExclWaitRd
  | LExclEnterUntil (c : enter_phase_until_pc)
  | LExclWaitInsUntil (c : wait_until_pc)
  | LExclWaitRdUntil (c : wait_until_pc)
  | LExclAbort (c : phase_pc)
  | LExclusive
  | LExclRelease (c : phase_pc)
  | LFailed (e : exn).

Definition SharedOperationLease_ctor (o : oracle) (c : acquire_shared_pc) (w : Z)
  : lease_thread * Z :=
  match acquire_shared o c w with
  | (w', Goto c') => (LShared c', w')
  | (w', Return _) => (LReader, w')
  | (w', Raise e) => (LFailed e, w')
  end.

Definition SharedOperationLease_ctor_until (o : oracle) (c : acquire_shared_until_pc)
    (w : Z) : lease_thread * Z :=
  match acquire_shared_until o c w with
  | (w', Goto c') => (LSharedUntil c', w')
  | (w', Return true) => (LReader, w')
  | (w', Return false) => (LFailed TransactionTimeout, w')
  | (w', Raise e) => (LFailed e, w')
  end.

Definition SharedOperationLease_release (o : oracle) (c : release_pc) (w : Z)
  : lease_thread * Z :=
  match release_shared o c w with
  | (w', Goto c') => (LSharedRelease c', w')
  | (w', Return _) => (LIdle, w')
  | (w', Raise e) => (LFailed e, w')
  end.

(** [enter_phase(kAllBlocked)], then the inserters, then the readers drain. *)
Definition ExclusiveOperationLease_ctor (o : oracle) (x : lease_thread) (w : Z)
  : lease_thread * Z :=
  match x with
  | LExclEnter c =>
      match enter_phase kAllBlocked o c w with
      | (w', Goto c') => (LExclEnter c', w')
      | (w', Return _) => (LExclWaitIns, w')
      | (w', Raise e) => (LFailed e, w')
      end
  | LExclWaitIns =>
      match wait_inserters_drained o tt w with
      | (w', Return _) => (LExclWaitRd, w')
      | (w', _) => (LExclWaitIns, w')
      end
  | LExclWaitRd =>
      match wait_readers_drained o tt w with
      | (w', Return _) => (LExclusive, w')
      | (w', _) => (LExclWaitRd, w')
      end
  | _ => (x, w)
  end.

(** The timed constructor; a drain that times out reopens the gate and
    rethrows. *)
Definition ExclusiveOperationLease_ctor_until (o : oracle) (x : lease_thread) (w : Z)
  : lease_thread * Z :=
  match x with
  | LExclEnterUntil c =>
      match enter_phase_until kAllBlocked o c w with
      | (w', Goto c') => (LExclEnterUntil c', w')
      | (w', Return true) => (LExclWaitInsUntil WU_load, w')
      | (w', Return false) => (LFailed TransactionTimeout, w')
      | (w', Raise e) => (LFailed e, w')
      end
  | LExclWaitInsUntil c =>
      match wait_inserters_drained_until o c w with
      | (w', Goto c') => (LExclWaitInsUntil c', w')
      | (w', Return true) => (LExclWaitRdUntil WU_load, w')
      | (w', _) => (LExclAbort PH_load, w')
      end
  | LExclWaitRdUntil c =>
      match wait_readers_drained_until o c w with
      | (w', Goto c') => (LExclWaitRdUntil c', w')
      | (w', Return true) => (LExclusive, w')
      | (w', _) => (LExclAbort PH_load, w')
      end
  | LExclAbort c =>
      match reopen o c w with
      | (w', Goto c') => (LExclAbort c', w')
      | (w', _) => (LFailed TransactionTimeout, w')
      end
  | _ => (x, w)
  end.

Definition ExclusiveOperationLease_release (o : oracle) (c : phase_pc) (w : Z)
  : lease_thread * Z :=
  match reopen o c w with
  | (w', Goto c') => (LExclRelease c', w')
  | (w', Return _) => (LIdle, w')
  | (w', Raise e) => (LFailed e, w')
  end.

(** One atomic step of a thread. *)
Definition lease_step (op : lease_op) (o : oracle) (x : lease_thread) (w : Z)
  : lease_thread * Z :=
  match x with
  | LIdle =>
      (match op with
       | OpShared => LShared AS_load
       | OpSharedUntil => LSharedUntil ASU_load
       | OpInserter => LInsAcquire AI_load
       | OpExclusive => LExclEnter PH_load
       | OpExclusiveUntil => LExclEnterUntil EU_load
       end, w)
  | LShared c => SharedOperationLease_ctor o c w
  | LSharedUntil c => SharedOperationLease_ctor_until o c w
  | LReader => (LSharedRelease REL_check, w)
  | LSharedRelease c => SharedOperationLease_release o c w
  | LInsAcquire c =>
      match acquire_inserter o c w with
      | (w', Goto c') => (LInsAcquire c', w')
      | (w', Return _) => (LInserter, w')
      | (w', Raise e) => (LFailed e, w')
      end
  | LInserter => (LInsRelease REL_check, w)
  | LInsRelease c =>
      match release_inserter o c w with
      | (w', Goto c') => (LInsRelease c', w')
      | (w', Return _) => (LIdle, w')
      | (w', Raise e) => (LFailed e, w')
      end
  | LExclEnter _ | LExclWaitIns | LExclWaitRd => ExclusiveOperationLease_ctor o x w
  | LExclEnterUntil _ | LExclWaitInsUntil _ | LExclWaitRdUntil _ | LExclAbort _ =>
      ExclusiveOperationLease_ctor_until o x w
  | LExclusive => (LExclRelease PH_load, w)
  | LExclRelease c => ExclusiveOperationLease_release o c w
  | LFailed e => (LFailed e, w)
  end.

(** ** The gate with its threads *)

Record lease_state := LeaseState { lw : Z; lts : list lease_thread }.

Inductive lease_trans : lease_state → lease_state → Prop :=
  | lease_trans_intro w ts t x op o x' w' :
      ts !! t = Some x → lease_step op o x w = (x', w') →
      lease_trans (LeaseState w ts) (LeaseState w' (<[t:=x']> ts)).

Definition lease_init (n : nat) : lease_state :=
  LeaseState (empty kOpen) (replicate n LIdle).

(** ** Contributions *)

Definition lt_rd (x : lease_thread) : Z :=
  match x with
  | LShared c => as_rd c | LSharedUntil c => asu_rd c
  | LReader | LSharedRelease _ => 1 | _ => 0
  end.
Definition lt_adm (x : lease_thread) : Z :=
  match x with
  | LSharedUntil c => asu_adm c | LReader | LSharedRelease _ => 1 | _ => 0
  end.
Definition lt_ins (x : lease_thread) : Z :=
  match x with LInserter | LInsRelease _ => 1 | _ => 0 end.
Definition lt_own (x : lease_thread) : option AdmissionState :=
  match x with
  | LExclWaitIns | LExclWaitRd | LExclWaitInsUntil _ | LExclWaitRdUntil _
  | LExclAbort _ | LExclusive | LExclRelease _ => Some kAllBlocked
  | LExclEnterUntil c => if eu_own c then Some kAllBlocked else None
  | _ => None
  end.
Definition lt_di (x : lease_thread) : bool :=
  match x with
  | LExclWaitRd | LExclWaitInsUntil WU_final | LExclWaitRdUntil _
  | LExclusive | LExclRelease _ => true
  | _ => false
  end.
Definition lt_dr (x : lease_thread) : bool :=
  match x with LExclWaitRdUntil WU_final | LExclusive | LExclRelease _ => true | _ => false end.

#[global, program] Instance lease_client : GateClient lease_thread := {
  rd := lt_rd; adm := lt_adm; ins := lt_ins; own := lt_own; di := lt_di; dr := lt_dr }.
Next Obligation. intros []; cbn; try lia; destruct c; cbn; lia. Qed.
Next Obligation. intros []; cbn; lia. Qed.
Next Obligation. intros [] p; cbn; try case_bool; naive_solver. Qed.
Next Obligation. intros []; cbn; try done; destruct c; done. Qed.
Next Obligation. intros []; cbn; try done; destruct c; done. Qed.

(** Program points that the protocol makes reachable: no counter exhaustion,
    and the only failure is a deadline. *)
Definition lease_ok (x : lease_thread) : Prop :=
  match x with
  | LShared c => as_ok c | LSharedUntil c => asu_ok c
  | LInsAcquire c => ai_ok c | LExclEnterUntil c => eu_ok c
  | LFailed e => e = TransactionTimeout
  | _ => True
  end.

(** ** Every step is legal *)

(** Splits the goal [legal_step _ _ _ _ ∧ _] once the step is known. *)
Ltac legal := split; [split; cbn -[Z.mul Z.pow]; unfold contrib, pack, pcode, nown;
  cbn -[Z.mul Z.pow]; intros; try done; try lia|cbn; try done].

Lemma shared_ctor_legal o c w x' w' :
  gate_view w (LShared c) → as_ok c → SharedOperationLease_ctor o c w = (x', w') →
  legal_step (LShared c) w x' w' ∧ lease_ok x'.
Proof.
  intros [] Hok Hs. unfold SharedOperationLease_ctor in Hs.
  destruct (acquire_shared o c w) as [w1 k] eqn:E.
  pose proof (acquire_shared_spec o c w w1 k) as Hsp.
  ospecialize* Hsp; [done..|]. destruct k; simplify_eq; [destruct Hsp..|done]; legal.
Qed.

Lemma shared_until_legal o c w x' w' :
  gate_view w (LSharedUntil c) → asu_ok c → SharedOperationLease_ctor_until o c w = (x', w') →
  legal_step (LSharedUntil c) w x' w' ∧ lease_ok x'.
Proof.
  intros [] Hok Hs. unfold SharedOperationLease_ctor_until in Hs.
  destruct (acquire_shared_until o c w) as [w1 k] eqn:E.
  pose proof (acquire_shared_until_spec o c w w1 k) as Hsp.
  ospecialize* Hsp; [done..|]. destruct k as [c'|[]|]; simplify_eq; [| | |done].
  - destruct Hsp as (? & ? & ?). legal. by auto.
  - destruct Hsp as (-> & Ha). specialize (Ha eq_refl). destruct c; try done; legal.
  - destruct Hsp as (-> & Ha). destruct c; legal.
Qed.

Lemma exclusive_legal o x w x' w' :
  gate_view w x → lease_ok x →
  (x' , w') = ExclusiveOperationLease_ctor o x w ∨
  (x' , w') = ExclusiveOperationLease_ctor_until o x w →
  legal_step x w x' w' ∧ lease_ok x'.
Proof.
  intros Hv Hok Hs.
  assert (Hid : legal_step x w x w ∧ lease_ok x).
  { split; [split|done]; try lia; try done.
    - intros Hd. split; [by apply di_law|by left].
    - intros Hd. split; [by apply dr_law|by left]. }
  destruct Hv as [Hw _ _ _ _ Hph].
  destruct Hs as [Hs|Hs]; destruct x; cbn -[readers inserters] in Hs; simplify_eq; try done.
  - destruct (enter_phase _ o c w) as [w1 k] eqn:E.
    pose proof (enter_phase_spec _ o c w w1 k Hw E) as Hsp.
    destruct k; simplify_eq; [|destruct Hsp as [-> Hopen]|done]; legal; cbn; lia.
  - unfold wait_inserters_drained in Hs. case_bool; simplify_eq; [|done]. bool_to_prop. legal.
    split; [done|by right].
  - unfold wait_readers_drained in Hs. case_bool; simplify_eq; [|done]. bool_to_prop. legal.
    + split; [done|by left].
    + split; [done|by right].
  - destruct (enter_phase_until _ o c w) as [w1 k] eqn:E.
    pose proof (enter_phase_until_spec kAllBlocked o c w w1 k Hw Hok) as Hsp.
    ospecialize* Hsp; [intros He; apply Hph; cbn; by rewrite He|done|].
    destruct k as [c'|[]|]; simplify_eq; [| | |done].
    + destruct Hsp as (-> & Hok' & Hopen). legal; destruct (eu_own c), (eu_own c'); cbn; try lia; try done; auto.
    + destruct Hsp as (-> & Ho). specialize (Ho eq_refl). legal; rewrite ?Ho in *; cbn; try lia; done.
    + destruct Hsp as (-> & _). legal; destruct (eu_own c); cbn; try lia; done.
  - destruct c; cbn -[readers inserters] in Hs; try (case_bool; simplify_eq; bool_to_prop; legal);
      (split; [done|first [by left|by right]]).
  - destruct c; cbn -[readers inserters] in Hs; try (case_bool; simplify_eq; bool_to_prop; legal);
      (split; [done|first [by left|by right]]).
  - destruct (reopen o c w) as [w1 k] eqn:E.
    pose proof (reopen_spec o c w w1 k Hw E) as Hsp. rewrite (Hph kAllBlocked eq_refl) in Hsp.
    destruct k; simplify_eq; [| |done]; legal.
Qed.

Lemma lease_step_legal op o x w x' w' :
  gate_view w x → lease_ok x → lease_step op o x w = (x', w') →
  legal_step x w x' w' ∧ lease_ok x'.
Proof.
  intros Hv Hok Hs. pose proof Hv as [Hw _ Hr Hni Hi Hph].
  destruct x; cbn [lease_step] in Hs; try (by eapply (exclusive_legal o); eauto).
  - destruct op; simplify_eq; legal.
  - by eapply shared_ctor_legal.
  - by eapply shared_until_legal.
  - simplify_eq. legal.
  - unfold SharedOperationLease_release in Hs. destruct (release_shared o c w) as [w1 k] eqn:E.
    pose proof (release_shared_spec o c w w1 k Hw (Hr eq_refl) E).
    destruct k; simplify_eq; [| |done]; legal.
  - destruct (acquire_inserter o c w) as [w1 k] eqn:E.
    pose proof (acquire_inserter_spec o c w w1 k Hw Hok (Hni eq_refl) E) as Hsp.
    destruct k; simplify_eq; [destruct Hsp..|done]; legal.
  - simplify_eq. legal.
  - destruct (release_inserter o c w) as [w1 k] eqn:E.
    pose proof (release_inserter_spec o c w w1 k Hw (Hi eq_refl) E).
    destruct k; simplify_eq; [| |done]; legal.
  - simplify_eq. legal; (split; [done|by left]).
  - unfold ExclusiveOperationLease_release in Hs. destruct (reopen o c w) as [w1 k] eqn:E.
    pose proof (reopen_spec o c w w1 k Hw E) as Hsp. rewrite (Hph kAllBlocked eq_refl) in Hsp.
    destruct k; simplify_eq; [| |done]; legal; (split; [done|by left]).
Qed.

(** ** Reachable states *)

Definition lease_inv (s : lease_state) : Prop :=
  gate_inv (lw s) (lts s) ∧ ∀ x, x ∈ lts s → lease_ok x.

Lemma lease_init_inv n : Z.of_nat n ≤ kMaxReaderCount → lease_inv (lease_init n).
Proof.
  intros Hn. split; cbn.
  - split; rewrite ?zsum_zero; try done.
    + intros x Hx. by apply elem_of_replicate in Hx as [-> _].
    + intros x Hx. by apply elem_of_replicate in Hx as [-> _].
    + by rewrite length_replicate.
    + intros x Hx. by apply elem_of_replicate in Hx as [-> _].
    + intros x Hx. by apply elem_of_replicate in Hx as [-> _].
  - intros x Hx. by apply elem_of_replicate in Hx as [-> _].
Qed.

Lemma lease_trans_inv s s' : lease_inv s → lease_trans s s' → lease_inv s'.
Proof.
  intros [Hi Hok] Ht. destruct Ht as [w ts t x op o x' w' Hx Hs]. cbn in *.
  assert (Hxin : x ∈ ts) by (apply list_elem_of_lookup; eauto).
  destruct (lease_step_legal op o x w x' w') as [Hl Hok']; eauto using gate_inv_view.
  split; [by eapply legal_step_inv|].
  intros y Hy. apply list_elem_of_lookup in Hy as [u Hu].
  apply list_lookup_insert_Some in Hu as [(->&->&_)|(_&Hu)]; [done|].
  apply Hok, list_elem_of_lookup. eauto.
Qed.

Lemma lease_reachable_inv n s :
  Z.of_nat n ≤ kMaxReaderCount → star lease_trans (lease_init n) s → lease_inv s.
Proof.
  intros Hn Hs. eapply star_invariant; eauto using lease_trans_inv, lease_init_inv.
Qed.

(** A schedule names the thread that moves, the operation it starts if idle,
    and the oracle of the step. *)
Definition lease_run (sched : list (nat * lease_op * oracle)) (s : lease_state) : lease_state :=
  foldl (λ s '(t, op, o),
    match lts s !! t with
    | Some x => let '(x', w') := lease_step op o x (lw s) in
                LeaseState w' (<[t:=x']> (lts s))
    | None => s
    end) s sched.

Lemma lease_run_star sched s : star lease_trans s (lease_run sched s).
Proof.
  revert s. induction sched as [|[[t op] o] sched IH]; intros s; cbn; [constructor|].
  destruct (lts s !! t) as [x|] eqn:Hx; [|apply IH].
  destruct (lease_step op o x (lw s)) as [x' w'] eqn:Hs.
  eapply star_trans; [|apply IH]. eapply star_snoc; [constructor|].
  destruct s. by econstructor.
Qed.

(** C31: In every state reachable from an open gate by any
    interleaving of at most [kMaxReaderCount] threads, while one thread holds the
    exclusive lease no other thread holds a lease of any kind: no other thread is
    an admitted reader, an admitted inserter, or the owner of a phase.  A thread
    inside the speculative window of [acquire_shared] may still be counted in the
    reader field, but it is not admitted. *)
Theorem exclusive_lease_excludes (n : nat) (s : lease_state) (t u : nat) (x : lease_thread) :
  Z.of_nat n ≤ kMaxReaderCount →
  star lease_trans (lease_init n) s →
  lts s !! t = Some LExclusive → lts s !! u = Some x → u ≠ t →
  x ≠ LReader ∧ x ≠ LInserter ∧ x ≠ LExclusive ∧
  lt_adm x = 0 ∧ lt_ins x = 0 ∧ lt_own x = None.
Proof.
  intros Hn Hs Ht Hu Hne. destruct (lease_reachable_inv n s Hn Hs) as [Hi _].
  destruct (drained_exclusive _ _ t LExclusive Hi Ht eq_refl eq_refl u x Hu) as (Ha & Hin & Ho).
  cbn in *. assert (lt_own x = None) by (destruct (lt_own x); naive_solver).
  destruct x; cbn in *; split_and!; done || lia.
Qed.

Definition calm : oracle := Oracle false false.

Lemma exclusive_lease_excludes_witness :
  let s := lease_run [(0%nat, OpShared, calm); (1%nat, OpExclusive, calm);
      (0%nat, OpShared, calm); (1%nat, OpShared, calm); (1%nat, OpShared, calm);
      (1%nat, OpShared, calm); (1%nat, OpShared, calm); (0%nat, OpShared, calm)] (lease_init 2) in
  lts s !! 1%nat = Some LExclusive ∧
  (LShared (AS_rollback false) ≠ LReader ∧ LShared (AS_rollback false) ≠ LInserter ∧
   LShared (AS_rollback false) ≠ LExclusive ∧ lt_adm (LShared (AS_rollback false)) = 0 ∧
   lt_ins (LShared (AS_rollback false)) = 0 ∧ lt_own (LShared (AS_rollback false)) = None).
Proof.
  split; [vm_compute; reflexivity|].
  apply (exclusive_lease_excludes 2 (lease_run [(0%nat, OpShared, calm); (1%nat, OpExclusive, calm);
      (0%nat, OpShared, calm); (1%nat, OpShared, calm); (1%nat, OpShared, calm);
      (1%nat, OpShared, calm); (1%nat, OpShared, calm); (0%nat, OpShared, calm)] (lease_init 2)) 1 0).
  - vm_compute. discriminate.
  - apply lease_run_star.
  - vm_compute. reflexivity.
  - vm_compute. reflexivity.
  - discriminate.
Defined.

(** The packed 64-bit word never loses or invents an
    admission: in every reachable state its two counters are the sums of the
    threads' contributions, it is back to the empty open word whenever every
    thread is idle or has failed, and the only failure a lease constructor
    raises is the expiry of its deadline (the counter-exhaustion and underflow
    checks never fire). *)
Theorem gate_word_exact (n : nat) (s : lease_state) :
  Z.of_nat n ≤ kMaxReaderCount →
  star lease_trans (lease_init n) s →
  readers (lw s) = zsum lt_rd (lts s) ∧
  inserters (lw s) = zsum lt_ins (lts s) ∧
  ((∀ x, x ∈ lts s → x = LIdle ∨ ∃ e, x = LFailed e) → lw s = empty kOpen) ∧
  (∀ e, LFailed e ∈ lts s → e = TransactionTimeout).
Proof.
  intros Hn Hs. destruct (lease_reachable_inv n s Hn Hs) as [Hi Hok].
  destruct (gate_decode _ _ Hi) as (Hr & Hin & _). split_and!; [done..| |].
  - intros Hall. rewrite (gi_word _ _ Hi). apply zsum_zero. intros x Hx.
    destruct (Hall x Hx) as [->|[e ->]]; done.
  - intros e He. exact (Hok _ He).
Qed.

Lemma gate_word_exact_witness :
  let s := lease_run [(0%nat, OpShared, calm); (1%nat, OpInserter, calm);
      (0%nat, OpShared, calm); (0%nat, OpShared, calm); (1%nat, OpInserter, calm);
      (1%nat, OpInserter, calm)] (lease_init 3) in
  (lw s = pack 0 1 1 ∧ lts s = [LReader; LInserter; LIdle]) ∧
  readers (lw s) = zsum lt_rd (lts s) ∧
  inserters (lw s) = zsum lt_ins (lts s) ∧
  ((∀ x, x ∈ lts s → x = LIdle ∨ ∃ e, x = LFailed e) → lw s = empty kOpen) ∧
  (∀ e, LFailed e ∈ lts s → e = TransactionTimeout).
Proof.
  intros s. split; [vm_compute; split; reflexivity|].
  apply (gate_word_exact 3 s).
  - vm_compute. discriminate.
  - apply lease_run_star.
Defined.
