(* ===== verification/TimestampWindow.v ===== *)
(** * TimestampWindow

    include/neug/transaction/timestamp_window.h and
    src/transaction/timestamp_window.cc: a ring of 65536 slots that records
    completed write timestamps until the read timestamp passes them.  The
    array [completed_ts_] is a function from slot index to the stored value;
    zero is an empty slot. *)

From stdpp Require Import functions.
From S2P Require Import Prelude.

Module TimestampWindow.

Definition kWindowSize : Z := 65536.
Definition ts_index (ts : Z) : Z := ts `mod` kWindowSize.

Arguments ts_index : simpl never.

Abbreviation window := (Z → Z).

Definition init : window := λ _, 0.
Definition mark_completed (ts : Z) (win : window) : window := <[ts_index ts := ts]> win.
Definition is_completed (ts : Z) (win : window) : bool := win (ts_index ts) =? ts.
(** A compare-exchange of the exact timestamp with zero. *)
Definition clear (ts : Z) (win : window) : window :=
  if win (ts_index ts) =? ts then <[ts_index ts := 0]> win else win.

(** ** Slots do not collide inside the window *)
Lemma ts_index_inj lo a b :
  lo < a ≤ lo + kWindowSize → lo < b ≤ lo + kWindowSize → ts_index a = ts_index b → a = b.
Proof. unfold ts_index, kWindowSize. intros. dlia. Qed.

Lemma mark_completed_same ts win : mark_completed ts win (ts_index ts) = ts.
Proof. unfold mark_completed. by rewrite fn_lookup_insert. Qed.

Lemma mark_completed_ne ts win i :
  i ≠ ts_index ts → mark_completed ts win i = win i.
Proof. intros. unfold mark_completed. by rewrite fn_lookup_insert_ne. Qed.

Lemma clear_same ts win : win (ts_index ts) = ts → clear ts win (ts_index ts) = 0.
Proof. intros H. unfold clear. by rewrite H, Z.eqb_refl, fn_lookup_insert. Qed.

Lemma clear_ne ts win i : i ≠ ts_index ts → clear ts win i = win i.
Proof. intros. unfold clear. case_bool; [by rewrite fn_lookup_insert_ne|done]. Qed.

End TimestampWindow.
