(* ===== verification/VersionManager.v ===== *)
(** * VersionManager

    src/transaction/version_manager.cc: write timestamps are reserved from
    [write_ts_], completed in the [TimestampWindow] and folded into
    [read_ts_] under a spin lock; [published_read_view_] pairs the read
    timestamp with the installed snapshot generation.  As in OperationGate,
    every method is a machine whose steps make at most one atomic access, so
    all interleavings of concurrent callers are covered. *)

From stdpp Require Import functions.
From S2P Require Import Prelude GateWord OperationGate TimestampWindow.
Import OperationGateWord OperationGate.

(** ** Packed read view (version_manager.h) *)

Record PublishedReadView := ReadView { visibility_ts : Z; snapshot_generation : Z }.

Definition PackPublishedReadView (view : PublishedReadView) : Z :=
  Z.lor (u64 (Z.shiftl (snapshot_generation view) 32)) (visibility_ts view).

Definition UnpackPublishedReadView (packed : Z) : PublishedReadView :=
  ReadView (u32 packed) (u32 (Z.shiftr packed 32)).

Module VersionManager.

(** The shared members.  [lock_] is the spin lock, [gate_] the packed word. *)
Record vm := Vm {
  write_ts_ : Z;
  read_ts_ : Z;
  installed_snapshot_generation_ : Z;
  published_read_view_ : Z;
  gate_ : Z;
  ts_window_ : TimestampWindow.window;
  lock_ : bool
}.

Definition set_write_ts v s := Vm v (read_ts_ s) (installed_snapshot_generation_ s)
  (published_read_view_ s) (gate_ s) (ts_window_ s) (lock_ s).
Definition set_read_ts v s := Vm (write_ts_ s) v (installed_snapshot_generation_ s)
  (published_read_view_ s) (gate_ s) (ts_window_ s) (lock_ s).
Definition set_generation v s := Vm (write_ts_ s) (read_ts_ s) v
  (published_read_view_ s) (gate_ s) (ts_window_ s) (lock_ s).
Definition set_published v s := Vm (write_ts_ s) (read_ts_ s)
  (installed_snapshot_generation_ s) v (gate_ s) (ts_window_ s) (lock_ s).
Definition set_gate v s := Vm (write_ts_ s) (read_ts_ s)
  (installed_snapshot_generation_ s) (published_read_view_ s) v (ts_window_ s) (lock_ s).
Definition set_window v s := Vm (write_ts_ s) (read_ts_ s)
  (installed_snapshot_generation_ s) (published_read_view_ s) (gate_ s) v (lock_ s).
Definition set_lock v s := Vm (write_ts_ s) (read_ts_ s)
  (installed_snapshot_generation_ s) (published_read_view_ s) (gate_ s) (ts_window_ s) v.

(** A gate method acts on the gate word only. *)
Definition on_gate {pc R} (m : Z → Z * ctl pc R) (s : vm) : vm * ctl pc R :=
  let '(w, k) := m (gate_ s) in (set_gate w s, k).

(** Running a callee inside a caller's program point. *)
Definition embed {pc pc' R R'} (inj : pc → pc') (ret : R → ctl pc' R')
    (r : vm * ctl pc R) : vm * ctl pc' R' :=
  match r with
  | (s, Goto c) => (s, Goto (inj c))
  | (s, Return v) => (s, ret v)
  | (s, Raise e) => (s, Raise e)
  end.

(** ** Initialisation *)

Definition init_ts (initial_read_view : PublishedReadView) (s : vm) : res vm :=
  let ts := visibility_ts initial_read_view in
  if ts =? U32_MAX then Throw RuntimeFailure
  else Ok (Vm (u32 (ts + 1)) ts (snapshot_generation initial_read_view)
             (PackPublishedReadView initial_read_view) (empty kOpen)
             TimestampWindow.init (lock_ s)).

(** ** ReserveWriteTimestamp *)

Inductive TimestampReservation := kReserved (timestamp : Z) | kWindowFull | kExhausted.

Inductive reserve_pc :=
  | RV_load
  | RV_check (candidate : Z)
  | RV_refresh (current_read_ts : Z)
  | RV_cas (candidate : Z).

Definition ReserveWriteTimestamp (o : oracle) (c : reserve_pc) (s : vm)
  : vm * ctl reserve_pc TimestampReservation :=
  match c with
  | RV_load => (s, Goto (RV_check (write_ts_ s)))
  | RV_check candidate =>
      if candidate =? U32_MAX then (s, Return kExhausted)
      else
        let current_read_ts := read_ts_ s in
        let outstanding := u64 (candidate - current_read_ts) in
        if TimestampWindow.kWindowSize <? outstanding then
          if candidate <=? current_read_ts
          then (s, Goto (RV_refresh current_read_ts))
          else (s, Return kWindowFull)
        else (s, Goto (RV_cas candidate))
  | RV_refresh current_read_ts =>
      let candidate := write_ts_ s in
      if candidate <=? current_read_ts then (s, Raise InternalError)
      else (s, Goto (RV_check candidate))
  | RV_cas candidate =>
      if (write_ts_ s =? candidate) && negb (spurious o)
      then (set_write_ts (u32 (candidate + 1)) s, Return (kReserved candidate))
      else (s, Goto (RV_check (write_ts_ s)))
  end.

(** The exception for a failed reservation. *)
Definition throw_timestamp_reservation_failure (full : bool) : exn :=
  if full then InternalError else RuntimeFailure.

(** ** Completing a write timestamp *)

Inductive advance_pc :=
  | ADV_load
  | ADV_check (current : Z)
  | ADV_clear (current : Z)
  | ADV_store (current : Z)
  | ADV_generation (current : Z)
  | ADV_publish (current generation : Z).

Definition advance_read_ts_locked (c : advance_pc) (s : vm) : vm * ctl advance_pc unit :=
  match c with
  | ADV_load => (s, Goto (ADV_check (read_ts_ s)))
  | ADV_check current =>
      if TimestampWindow.is_completed (u32 (current + 1)) (ts_window_ s)
      then (s, Goto (ADV_clear current)) else (s, Goto (ADV_generation current))
  | ADV_clear current =>
      (set_window (TimestampWindow.clear (u32 (current + 1)) (ts_window_ s)) s,
       Goto (ADV_store current))
  | ADV_store current =>
      (set_read_ts (u32 (current + 1)) s, Goto (ADV_check (u32 (current + 1))))
  | ADV_generation current =>
      (s, Goto (ADV_publish current (installed_snapshot_generation_ s)))
  | ADV_publish current generation =>
      (set_published (PackPublishedReadView (ReadView current generation)) s, Return tt)
  end.

Inductive complete_pc :=
  | CW_mark
  | CW_lock
  | CW_read
  | CW_advance (c : advance_pc)
  | CW_unlock.

Definition complete_write_timestamp (ts : Z) (c : complete_pc) (s : vm)
  : vm * ctl complete_pc unit :=
  match c with
  | CW_mark => (set_window (TimestampWindow.mark_completed ts (ts_window_ s)) s, Goto CW_lock)
  | CW_lock => if lock_ s then (s, Goto CW_lock) else (set_lock true s, Goto CW_read)
  | CW_read =>
      if ts =? u32 (read_ts_ s + 1) then (s, Goto (CW_advance ADV_load)) else (s, Goto CW_unlock)
  | CW_advance a => embed CW_advance (λ _, Goto CW_unlock) (advance_read_ts_locked a s)
  | CW_unlock => (set_lock false s, Return tt)
  end.

(** ** Readers *)

Inductive read_pc := RO_admit (c : acquire_shared_pc) | RO_load.

Definition acquire_read_operation (o : oracle) (c : read_pc) (s : vm)
  : vm * ctl read_pc PublishedReadView :=
  match c with
  | RO_admit a => embed RO_admit (λ _, Goto RO_load) (on_gate (acquire_shared o a) s)
  | RO_load => (s, Return (UnpackPublishedReadView (published_read_view_ s)))
  end.

(** ** Inserters *)

Inductive insert_pc :=
  | AIT_admit (c : acquire_inserter_pc)
  | AIT_reserve (c : reserve_pc)
  | AIT_release (exhausted : bool) (c : release_pc).

Definition acquire_insert_timestamp (o : oracle) (c : insert_pc) (s : vm)
  : vm * ctl insert_pc Z :=
  match c with
  | AIT_admit a =>
      embed AIT_admit (λ _, Goto (AIT_reserve RV_load)) (on_gate (acquire_inserter o a) s)
  | AIT_reserve r =>
      embed AIT_reserve
        (λ rs, match rs with
               | kReserved ts => Return ts
               | kWindowFull => Goto (AIT_release false REL_check)
               | kExhausted => Goto (AIT_release true REL_check)
               end) (ReserveWriteTimestamp o r s)
  | AIT_release ex r =>
      embed (AIT_release ex)
        (λ _, if ex then Raise (throw_timestamp_reservation_failure false)
              else Goto (AIT_admit AI_load))
        (on_gate (release_inserter o r) s)
  end.

Inductive insert_end_pc := RIT_complete (c : complete_pc) | RIT_release (c : release_pc).

Definition release_insert_timestamp (ts : Z) (o : oracle) (c : insert_end_pc) (s : vm)
  : vm * ctl insert_end_pc unit :=
  match c with
  | RIT_complete a =>
      embed RIT_complete (λ _, Goto (RIT_release REL_check)) (complete_write_timestamp ts a s)
  | RIT_release r => embed RIT_release (λ _, Return tt) (on_gate (release_inserter o r) s)
  end.

(** ** Updates *)

Inductive reserve_update_pc :=
  | RU_reserve (c : reserve_pc)
  | RU_reopen (full : bool) (c : phase_pc).

Definition reserve_update_timestamp (o : oracle) (c : reserve_update_pc) (s : vm)
  : vm * ctl reserve_update_pc Z :=
  match c with
  | RU_reserve r =>
      embed RU_reserve
        (λ rs, match rs with
               | kReserved ts => Return ts
               | kWindowFull => Goto (RU_reopen true PH_load)
               | kExhausted => Goto (RU_reopen false PH_load)
               end) (ReserveWriteTimestamp o r s)
  | RU_reopen full r =>
      embed (RU_reopen full) (λ _, Raise (throw_timestamp_reservation_failure full))
        (on_gate (transition_phase kInsertsBlocked kOpen o r) s)
  end.

Inductive update_pc :=
  | AU_enter (c : phase_pc)
  | AU_drain
  | AU_reserve (c : reserve_update_pc).

Definition acquire_update_timestamp (o : oracle) (c : update_pc) (s : vm)
  : vm * ctl update_pc Z :=
  match c with
  | AU_enter a =>
      embed AU_enter (λ _, Goto AU_drain) (on_gate (enter_phase kInsertsBlocked o a) s)
  | AU_drain =>
      embed (λ _, AU_drain) (λ _, Goto (AU_reserve (RU_reserve RV_load)))
        (on_gate (wait_inserters_drained o tt) s)
  | AU_reserve r => embed AU_reserve Return (reserve_update_timestamp o r s)
  end.

Inductive update_until_pc :=
  | AUU_enter (c : enter_phase_until_pc)
  | AUU_drain (c : wait_until_pc)
  | AUU_deadline
  | AUU_back (c : phase_pc)
  | AUU_reserve (c : reserve_update_pc).

Definition acquire_update_timestamp_until (o : oracle) (c : update_until_pc) (s : vm)
  : vm * ctl update_until_pc Z :=
  match c with
  | AUU_enter a =>
      embed AUU_enter (λ b : bool, if b then Goto (AUU_drain WU_load) else Raise TransactionTimeout)
        (on_gate (enter_phase_until kInsertsBlocked o a) s)
  | AUU_drain a =>
      embed AUU_drain (λ b : bool, if b then Goto AUU_deadline else Goto (AUU_back PH_load))
        (on_gate (wait_inserters_drained_until o a) s)
  | AUU_deadline =>
      if expired o then (s, Goto (AUU_back PH_load))
      else (s, Goto (AUU_reserve (RU_reserve RV_load)))
  | AUU_back a =>
      embed AUU_back (λ _, Raise TransactionTimeout)
        (on_gate (transition_phase kInsertsBlocked kOpen o a) s)
  | AUU_reserve r => embed AUU_reserve Return (reserve_update_timestamp o r s)
  end.

Inductive try_update_pc :=
  | TA_enter (c : try_enter_phase_pc)
  | TA_check
  | TA_reopen (c : phase_pc)
  | TA_reserve (c : reserve_update_pc).

(** [None] is the [false] return of the source, [Some ts] its [true]. *)
Definition try_acquire_update_timestamp (o : oracle) (c : try_update_pc) (s : vm)
  : vm * ctl try_update_pc (option Z) :=
  match c with
  | TA_enter a =>
      embed TA_enter (λ b : bool, if b then Goto TA_check else Return None)
        (on_gate (try_enter_phase kInsertsBlocked o a) s)
  | TA_check =>
      if inserters (gate_ s) =? 0 then (s, Goto (TA_reserve (RU_reserve RV_load)))
      else (s, Goto (TA_reopen PH_load))
  | TA_reopen a => embed TA_reopen (λ _, Return None) (on_gate (reopen o a) s)
  | TA_reserve r => embed TA_reserve (λ ts, Return (Some ts)) (reserve_update_timestamp o r s)
  end.

Definition begin_update_commit (o : oracle) (c : phase_pc) (s : vm) : vm * ctl phase_pc unit :=
  on_gate (transition_phase kInsertsBlocked kAllBlocked o c) s.

Inductive drain_pc := DR_check | DR_wait.

Definition drain_readers (o : oracle) (c : drain_pc) (s : vm) : vm * ctl drain_pc unit :=
  match c with
  | DR_check =>
      if bool_decide (phase (gate_ s) ≠ kAllBlocked) then (s, Raise InternalError)
      else (s, Goto DR_wait)
  | DR_wait => embed (λ _, DR_wait) Return (on_gate (wait_readers_drained o tt) s)
  end.

Inductive finish_pc := FU_generation | FU_complete (c : complete_pc) | FU_reopen (c : phase_pc).

Definition finish_update_timestamp (ts : Z) (installed_snapshot_generation : option Z)
    (o : oracle) (c : finish_pc) (s : vm) : vm * ctl finish_pc unit :=
  match c with
  | FU_generation =>
      (match installed_snapshot_generation with
       | Some g => set_generation g s | None => s end, Goto (FU_complete CW_mark))
  | FU_complete a =>
      embed FU_complete (λ _, Goto (FU_reopen PH_load)) (complete_write_timestamp ts a s)
  | FU_reopen a => embed FU_reopen Return (on_gate (reopen o a) s)
  end.

Inductive reset_pc :=
  | FR_gate
  | FR_check
  | FR_write
  | FR_read
  | FR_window
  | FR_generation
  | FR_publish (generation : Z)
  | FR_open (c : phase_pc).

Definition finish_update_and_reset_timeline (ts : Z) (o : oracle) (c : reset_pc) (s : vm)
  : vm * ctl reset_pc unit :=
  match c with
  | FR_gate =>
      if bool_decide (phase (gate_ s) = kAllBlocked) && (inserters (gate_ s) =? 0)
      then (s, Goto FR_check) else (s, Raise CheckFailed)
  | FR_check =>
      if write_ts_ s =? u32 (ts + 1) then (s, Goto FR_write) else (s, Raise CheckFailed)
  | FR_write => (set_write_ts 1 s, Goto FR_read)
  | FR_read => (set_read_ts 0 s, Goto FR_window)
  | FR_window => (set_window TimestampWindow.init s, Goto FR_generation)
  | FR_generation => (s, Goto (FR_publish (installed_snapshot_generation_ s)))
  | FR_publish g => (set_published (PackPublishedReadView (ReadView 0 g)) s, Goto (FR_open PH_load))
  | FR_open a =>
      embed FR_open Return (on_gate (transition_phase kAllBlocked kOpen o a) s)
  end.

(** ** Compaction *)

Inductive compact_pc :=
  | AC_enter (c : phase_pc)
  | AC_readers
  | AC_inserters
  | AC_reserve (c : reserve_pc)
  | AC_back (full : bool) (c : phase_pc).

Definition acquire_compact_timestamp (o : oracle) (c : compact_pc) (s : vm)
  : vm * ctl compact_pc Z :=
  match c with
  | AC_enter a =>
      embed AC_enter (λ _, Goto AC_readers) (on_gate (enter_phase kAllBlocked o a) s)
  | AC_readers =>
      embed (λ _, AC_readers) (λ _, Goto AC_inserters) (on_gate (wait_readers_drained o tt) s)
  | AC_inserters =>
      embed (λ _, AC_inserters) (λ _, Goto (AC_reserve RV_load))
        (on_gate (wait_inserters_drained o tt) s)
  | AC_reserve r =>
      embed AC_reserve
        (λ rs, match rs with
               | kReserved ts => Return ts
               | kWindowFull => Goto (AC_back true PH_load)
               | kExhausted => Goto (AC_back false PH_load)
               end) (ReserveWriteTimestamp o r s)
  | AC_back full a =>
      embed (AC_back full) (λ _, Raise (throw_timestamp_reservation_failure full))
        (on_gate (transition_phase kAllBlocked kOpen o a) s)
  end.

Inductive compact_end_pc := RC_check | RC_complete (c : complete_pc) | RC_open (c : phase_pc).

Definition release_compact_timestamp (ts : Z) (o : oracle) (c : compact_end_pc) (s : vm)
  : vm * ctl compact_end_pc unit :=
  match c with
  | RC_check =>
      if bool_decide (phase (gate_ s) ≠ kAllBlocked) then (s, Raise InternalError)
      else (s, Goto (RC_complete CW_mark))
  | RC_complete a =>
      embed RC_complete (λ _, Goto (RC_open PH_load)) (complete_write_timestamp ts a s)
  | RC_open a => embed RC_open Return (on_gate (transition_phase kAllBlocked kOpen o a) s)
  end.

(** Reverting completes the timestamp as well, so that later commits advance. *)
Definition revert_compact_timestamp (ts : Z) (o : oracle) (c : compact_end_pc) (s : vm)
  : vm * ctl compact_end_pc unit :=
  match c with
  | RC_check =>
      if bool_decide (phase (gate_ s) ≠ kAllBlocked) then (s, Raise InternalError)
      else (s, Goto (RC_complete CW_mark))
  | RC_complete a =>
      embed RC_complete (λ _, Goto (RC_open PH_load)) (complete_write_timestamp ts a s)
  | RC_open a => embed RC_open Return (on_gate (transition_phase kAllBlocked kOpen o a) s)
  end.

(** ** Swapping the runtime wait *)

Inductive switch_pc := SW_lock | SW_seal | SW_unseal (c : phase_pc) | SW_unlock (result : bool).

(** For a non-null callback; the callback itself is stored while the gate is
    sealed and is not part of this state. *)
Definition try_set_runtime_wait_if_quiescent (o : oracle) (c : switch_pc) (s : vm)
  : vm * ctl switch_pc bool :=
  match c with
  | SW_lock => if lock_ s then (s, Return false) else (set_lock true s, Goto SW_seal)
  | SW_seal =>
      let '(w, b) := try_seal_open_state (gate_ s) in
      (set_gate w s, if b then Goto (SW_unseal PH_load) else Goto (SW_unlock false))
  | SW_unseal a =>
      embed SW_unseal (λ _, Goto (SW_unlock true)) (on_gate (unseal_to_open o a) s)
  | SW_unlock b => (set_lock false s, Return b)
  end.

End VersionManager.
