(* ===== verification/VersionThreads.v ===== *)
(** * Concurrent callers of the version manager

    Threads that use the version manager the way the transactions and the
    leases of src/transaction/timestamp_lease.cc do: an operation is acquired,
    held, and ended, in any interleaving with the others. *)

From S2P Require Import Prelude GateWord OperationGate GateProtocol TimestampWindow VersionManager.
Import OperationGateWord OperationGate GateSteps VersionManager.

(** What a thread does next where the code leaves a choice. *)
Inductive vm_cmd :=
  | CRead | CInsert | CUpdate | CUpdateUntil | CTryUpdate | CCompact | CSwitch
  | CBegin | CExclusive | CFinish (g : option Z) | CReset | CEnd (revert : bool).

Inductive vm_thread :=
  | VIdle
  | VReadOp (c : read_pc)
  | VReader (view : PublishedReadView)
  | VReadEnd (c : release_pc)
  | VInsOp (c : insert_pc)
  | VInserter (ts : Z)
  | VInsEnd (ts : Z) (c : insert_end_pc)
  | VUpdOp (c : update_pc)
  | VUpdUntilOp (c : update_until_pc)
  | VTryOp (c : try_update_pc)
  | VUpd (ts : Z)
  | VUpdBegin (ts : Z) (c : phase_pc)
  | VUpdCommit (ts : Z)
  | VUpdDrain (ts : Z) (c : drain_pc)
  | VUpdExcl (ts : Z)
  | VUpdFinish (ts : Z) (g : option Z) (committed : bool) (c : finish_pc)
  | VUpdReset (ts : Z) (c : reset_pc)
  | VCmpOp (c : compact_pc)
  | VCmp (ts : Z)
  | VCmpEnd (ts : Z) (revert : bool) (c : compact_end_pc)
  | VSwitch (c : switch_pc)
  | VFailed (e : exn).

(** Continuing a method: its next point, the state it returns to, or failure. *)
Definition run {pc R} (inj : pc → vm_thread) (ret : R → vm_thread) (r : vm * ctl pc R)
  : vm_thread * vm :=
  match r with
  | (s, Goto c) => (inj c, s)
  | (s, Return v) => (ret v, s)
  | (s, Raise e) => (VFailed e, s)
  end.

Definition start_idle (cmd : vm_cmd) : vm_thread :=
  match cmd with
  | CRead => VReadOp (RO_admit AS_load)
  | CInsert => VInsOp (AIT_admit AI_load)
  | CUpdate => VUpdOp (AU_enter PH_load)
  | CUpdateUntil => VUpdUntilOp (AUU_enter EU_load)
  | CTryUpdate => VTryOp (TA_enter TE_load)
  | CCompact => VCmpOp (AC_enter PH_load)
  | CSwitch => VSwitch SW_lock
  | _ => VIdle
  end.

(** [UpdateTimestampLease]: [VUpd] is a lease whose commit has not started,
    [VUpdCommit] and [VUpdExcl] one whose commit has.  [BeginCommit],
    [MakeUpdateExclusive], [Finish], [FinishAndResetTimeline] and the
    destructor's [reset] (a [Finish] without a generation) are the commands;
    a command its [CHECK]s refuse is not offered. *)
Definition UpdateTimestampLease_next (x : vm_thread) (cmd : vm_cmd) : vm_thread :=
  match x, cmd with
  | VUpd ts, CBegin => VUpdBegin ts PH_load
  | VUpd ts, CFinish None => VUpdFinish ts None false FU_generation
  | VUpdCommit ts, CExclusive => VUpdDrain ts DR_check
  | VUpdExcl ts, CExclusive => VUpdDrain ts DR_check
  | VUpdCommit ts, CFinish g => VUpdFinish ts g true FU_generation
  | VUpdExcl ts, CFinish g => VUpdFinish ts g true FU_generation
  | VUpdCommit ts, CReset => VUpdReset ts FR_gate
  | VUpdExcl ts, CReset => VUpdReset ts FR_gate
  | _, _ => x
  end.

Definition vm_step (cmd : vm_cmd) (o : oracle) (x : vm_thread) (s : vm) : vm_thread * vm :=
  match x with
  | VIdle => (start_idle cmd, s)
  | VReadOp c => run VReadOp VReader (acquire_read_operation o c s)
  | VReader _ => (VReadEnd REL_check, s)
  | VReadEnd c => run VReadEnd (λ _, VIdle) (on_gate (release_shared o c) s)
  | VInsOp c => run VInsOp VInserter (acquire_insert_timestamp o c s)
  | VInserter ts => (VInsEnd ts (RIT_complete CW_mark), s)
  | VInsEnd ts c => run (VInsEnd ts) (λ _, VIdle) (release_insert_timestamp ts o c s)
  | VUpdOp c => run VUpdOp VUpd (acquire_update_timestamp o c s)
  | VUpdUntilOp c => run VUpdUntilOp VUpd (acquire_update_timestamp_until o c s)
  | VTryOp c =>
      run VTryOp (λ r, match r with Some ts => VUpd ts | None => VIdle end)
        (try_acquire_update_timestamp o c s)
  | VUpdBegin ts c => run (VUpdBegin ts) (λ _, VUpdCommit ts) (begin_update_commit o c s)
  | VUpdDrain ts c => run (VUpdDrain ts) (λ _, VUpdExcl ts) (drain_readers o c s)
  | VUpdFinish ts g b c =>
      run (VUpdFinish ts g b) (λ _, VIdle) (finish_update_timestamp ts g o c s)
  | VUpdReset ts c => run (VUpdReset ts) (λ _, VIdle) (finish_update_and_reset_timeline ts o c s)
  | VUpd _ | VUpdCommit _ | VUpdExcl _ => (UpdateTimestampLease_next x cmd, s)
  | VCmpOp c => run VCmpOp VCmp (acquire_compact_timestamp o c s)
  | VCmp ts => (VCmpEnd ts (match cmd with CEnd r => r | _ => false end) RC_check, s)
  | VCmpEnd ts false c => run (VCmpEnd ts false) (λ _, VIdle) (release_compact_timestamp ts o c s)
  | VCmpEnd ts true c => run (VCmpEnd ts true) (λ _, VIdle) (revert_compact_timestamp ts o c s)
  | VSwitch c => run VSwitch (λ _, VIdle) (try_set_runtime_wait_if_quiescent o c s)
  | VFailed e => (VFailed e, s)
  end.

Record vm_state := VmState { vs : vm; vts : list vm_thread }.

Inductive vm_trans : vm_state → vm_state → Prop :=
  | vm_trans_intro s ts t x cmd o x' s' :
      ts !! t = Some x → vm_step cmd o x s = (x', s') →
      vm_trans (VmState s ts) (VmState s' (<[t:=x']> ts)).

(** A freshly initialised version manager with [n] idle callers; the member
    initialisers are write_ts_ = 1, read_ts_ = 1, generation 0. *)
Definition vm_default : vm :=
  Vm 1 1 0 (PackPublishedReadView (ReadView 1 0)) (empty kOpen) TimestampWindow.init false.

Definition vm_initial (view : PublishedReadView) (n : nat) (st : vm_state) : Prop :=
  init_ts view vm_default = Ok (vs st) ∧ vts st = replicate n VIdle.

Definition vm_run (sched : list (nat * vm_cmd * oracle)) (st : vm_state) : vm_state :=
  foldl (λ st '(t, cmd, o),
    match vts st !! t with
    | Some x => let '(x', s') := vm_step cmd o x (vs st) in VmState s' (<[t:=x']> (vts st))
    | None => st
    end) st sched.

Lemma vm_run_star sched st : star vm_trans st (vm_run sched st).
Proof.
  revert st. induction sched as [|[[t cmd] o] sched IH]; intros st; cbn; [constructor|].
  destruct (vts st !! t) as [x|] eqn:Hx; [|apply IH].
  destruct (vm_step cmd o x (vs st)) as [x' s'] eqn:Hs.
  eapply star_trans; [|apply IH]. eapply star_snoc; [constructor|].
  destruct st. by econstructor.
Qed.

(** ** Contributions to the gate word *)

Definition vt_rd (x : vm_thread) : Z :=
  match x with
  | VReadOp (RO_admit a) => as_rd a
  | VReadOp RO_load | VReader _ | VReadEnd _ => 1
  | _ => 0
  end.
Definition vt_adm (x : vm_thread) : Z :=
  match x with VReadOp RO_load | VReader _ | VReadEnd _ => 1 | _ => 0 end.
Definition vt_ins (x : vm_thread) : Z :=
  match x with
  | VInsOp (AIT_admit _) => 0
  | VInsOp _ | VInserter _ | VInsEnd _ _ => 1
  | _ => 0
  end.
Definition vt_own (x : vm_thread) : option AdmissionState :=
  match x with
  | VUpdOp (AU_enter _) => None
  | VUpdOp _ | VUpd _ | VUpdBegin _ _ => Some kInsertsBlocked
  | VUpdUntilOp (AUU_enter c) => if eu_own c then Some kInsertsBlocked else None
  | VUpdUntilOp _ => Some kInsertsBlocked
  | VTryOp (TA_enter _) => None
  | VTryOp _ => Some kInsertsBlocked
  | VUpdCommit _ | VUpdDrain _ _ | VUpdExcl _ | VUpdReset _ _ => Some kAllBlocked
  | VUpdFinish _ _ b _ => Some (if b then kAllBlocked else kInsertsBlocked)
  | VCmpOp (AC_enter _) => None
  | VCmpOp _ | VCmp _ | VCmpEnd _ _ _ => Some kAllBlocked
  | VSwitch (SW_unseal _) => Some kAllBlocked
  | _ => None
  end.
Definition vt_di (x : vm_thread) : bool :=
  match x with
  | VUpdOp (AU_reserve _) | VTryOp (TA_reserve _) => true
  | VUpdUntilOp (AUU_drain WU_final) | VUpdUntilOp AUU_deadline | VUpdUntilOp (AUU_reserve _) => true
  | VUpd _ | VUpdBegin _ _ | VUpdCommit _ | VUpdDrain _ _ | VUpdExcl _
  | VUpdFinish _ _ _ _ | VUpdReset _ _ => true
  | VCmpOp (AC_reserve _) | VCmpOp (AC_back _ _) | VCmp _ | VCmpEnd _ _ _ => true
  | _ => false
  end.
Definition vt_dr (x : vm_thread) : bool :=
  match x with
  | VUpdExcl _ => true
  | VCmpOp AC_inserters | VCmpOp (AC_reserve _) | VCmpOp (AC_back _ _)
  | VCmp _ | VCmpEnd _ _ _ => true
  | _ => false
  end.

#[global, program] Instance vm_client : GateClient vm_thread := {
  rd := vt_rd; adm := vt_adm; ins := vt_ins; own := vt_own; di := vt_di; dr := vt_dr }.
Next Obligation. intros []; cbn; try lia; destruct c; cbn; try lia; destruct c; cbn; lia. Qed.
Next Obligation. intros []; cbn; try lia; destruct c; cbn; lia. Qed.
Next Obligation. intros [] p; cbn; try (destruct c; cbn); try case_bool; naive_solver. Qed.
Next Obligation. intros []; cbn; try done; destruct c; cbn; try done; destruct c; done. Qed.
Next Obligation. intros []; cbn; try done; destruct c; done. Qed.

(** ** What a thread holds of the timeline *)

(** [THeld ts]: a reserved timestamp not yet marked completed; [TCompl]: marked,
    inside [complete_write_timestamp]; the flag says that a new snapshot
    generation has been stored and not yet published.  [TLock]: the spin lock
    alone; [TReset]: inside the timeline reset. *)
Inductive tlocal :=
  | TNone
  | TReserve (c : reserve_pc)
  | THeld (ts : Z) (dirty : bool)
  | TCompl (ts : Z) (dirty : bool) (c : complete_pc)
  | TLock
  | TReset (c : reset_pc).

Definition tl_complete (ts : Z) (dirty : bool) (c : complete_pc) : tlocal :=
  match c with
  | CW_mark => THeld ts dirty
  | CW_unlock => TCompl ts false CW_unlock
  | _ => TCompl ts dirty c
  end.
Definition tl_reserve_update (c : reserve_update_pc) : tlocal :=
  match c with RU_reserve r => TReserve r | RU_reopen _ _ => TNone end.

Definition tl (x : vm_thread) : tlocal :=
  match x with
  | VInsOp (AIT_reserve r) => TReserve r
  | VInserter ts => THeld ts false
  | VInsEnd ts (RIT_complete c) => tl_complete ts false c
  | VUpdOp (AU_reserve r) | VUpdUntilOp (AUU_reserve r) | VTryOp (TA_reserve r) =>
      tl_reserve_update r
  | VUpd ts | VUpdBegin ts _ | VUpdCommit ts | VUpdDrain ts _ | VUpdExcl ts => THeld ts false
  | VUpdFinish ts _ _ FU_generation => THeld ts false
  | VUpdFinish ts g _ (FU_complete c) => tl_complete ts (bool_decide (is_Some g)) c
  | VUpdReset ts (FR_gate | FR_check | FR_write) => THeld ts false
  | VUpdReset ts (FR_open _) => TNone
  | VUpdReset ts c => TReset c
  | VCmpOp (AC_reserve r) => TReserve r
  | VCmp ts => THeld ts false
  | VCmpEnd ts _ RC_check => THeld ts false
  | VCmpEnd ts _ (RC_complete c) => tl_complete ts false c
  | VSwitch (SW_seal | SW_unseal _ | SW_unlock _) => TLock
  | _ => TNone
  end.
