(* ===== verification/Timeline.v ===== *)
(** * The timeline invariant

    What reservations, completions and the advance of the read timestamp keep
    true of the shared timeline, for any number of threads.  The proofs are
    per kind of move; VersionSystem connects the moves to the methods. *)

From stdpp Require Import functions.
From S2P Require Import Prelude GateWord OperationGate GateProtocol TimestampWindow VersionManager VersionThreads.
Import OperationGate VersionManager TimestampWindow.

Definition held (l : tlocal) : option Z := match l with THeld ts _ => Some ts | _ => None end.

(** The timestamp the advance loop has cleared but not yet stored. *)
Definition gap (l : tlocal) : option Z :=
  match l with TCompl _ _ (CW_advance (ADV_store c)) => Some (u32 (c + 1)) | _ => None end.
Definition tok (l : tlocal) : option Z :=
  match held l with Some a => Some a | None => gap l end.

Definition locked (l : tlocal) : Z :=
  match l with
  | TLock | TCompl _ _ (CW_read | CW_advance _ | CW_unlock) => 1
  | _ => 0
  end.
Definition advancing (l : tlocal) : bool :=
  match l with TCompl _ _ (CW_advance _) => true | _ => false end.

(** The thread will examine timestamp [r + 1] before it gives the lock up. *)
Definition resp (r : Z) (l : tlocal) : bool :=
  match l with
  | TCompl ts _ (CW_lock | CW_read) => ts =? r + 1
  | TCompl _ _ (CW_advance (ADV_load | ADV_check _ | ADV_clear _)) => true
  | _ => false
  end.
Definition dirty (l : tlocal) : bool :=
  match l with THeld _ d | TCompl _ d _ => d | _ => false end.
Definition active (l : tlocal) : bool :=
  match l with TNone | TLock => false | _ => true end.
Definition resetting (l : tlocal) : bool := match l with TReset _ => true | _ => false end.

Definition pc_ok (s : vm) (l : tlocal) : Prop :=
  match l with
  | TReserve RV_load => True
  | TReserve (RV_check c) => 0 ≤ c ≤ write_ts_ s
  | TReserve (RV_refresh cr) => cr ≤ read_ts_ s
  | TReserve (RV_cas c) => 0 ≤ c ≤ write_ts_ s ∧ c < U32_MAX ∧ c - read_ts_ s ≤ kWindowSize
  | TCompl _ _ (CW_advance (ADV_check c | ADV_store c | ADV_generation c)) => c = read_ts_ s
  | TCompl _ _ (CW_advance (ADV_clear c)) =>
      c = read_ts_ s ∧ ts_window_ s (ts_index (c + 1)) = c + 1
  | TCompl _ _ (CW_advance (ADV_publish c g)) =>
      c = read_ts_ s ∧ g = installed_snapshot_generation_ s
  | TCompl _ _ CW_mark => False
  | TCompl _ d CW_unlock => d = false
  | TReset _ => False
  | _ => True
  end.

Record timeline (s : vm) (ls : list tlocal) : Prop := {
  tl_range : 0 ≤ read_ts_ s < write_ts_ s ∧ write_ts_ s ≤ U32_MAX ∧
             write_ts_ s - read_ts_ s ≤ kWindowSize + 1;
  tl_cover : ∀ v, read_ts_ s < v < write_ts_ s →
             ts_window_ s (ts_index v) = v ∨ ∃ l, l ∈ ls ∧ tok l = Some v;
  tl_win : ∀ i, ts_window_ s i = 0 ∨
             (read_ts_ s < ts_window_ s i < write_ts_ s ∧ ts_index (ts_window_ s i) = i);
  tl_tok : ∀ l a, l ∈ ls → tok l = Some a →
             read_ts_ s < a < write_ts_ s ∧ ts_window_ s (ts_index a) ≠ a;
  tl_uniq : ∀ t u l k a, ls !! t = Some l → ls !! u = Some k →
             tok l = Some a → tok k = Some a → t = u;
  tl_pc : ∀ l, l ∈ ls → pc_ok s l;
  tl_resp : ts_window_ s (ts_index (read_ts_ s + 1)) = read_ts_ s + 1 →
             ∃ l, l ∈ ls ∧ resp (read_ts_ s) l = true;
  tl_pub : ∃ v g, published_read_view_ s = PackPublishedReadView (ReadView v g) ∧
             0 ≤ v ≤ read_ts_ s ∧
             ((∀ l, l ∈ ls → advancing l = false) → v = read_ts_ s) ∧
             ((∀ l, l ∈ ls → dirty l = false) → g = installed_snapshot_generation_ s)
}.

(** The spin lock is held by exactly the thread inside its critical section. *)
Definition lock_inv (s : vm) (ls : list tlocal) : Prop :=
  zsum locked ls = if lock_ s then 1 else 0.

Definition same_timeline (s s' : vm) : Prop :=
  write_ts_ s' = write_ts_ s ∧ read_ts_ s' = read_ts_ s ∧
  installed_snapshot_generation_ s' = installed_snapshot_generation_ s ∧
  published_read_view_ s' = published_read_view_ s ∧ ts_window_ s' = ts_window_ s.

Lemma locked_range l : 0 ≤ locked l ≤ 1.
Proof. destruct l as [| | |? ? []| |]; cbn; lia. Qed.

Lemma u32_succ z : 0 ≤ z < U32_MAX → u32 (z + 1) = z + 1.
Proof. unfold U32_MAX. intros. apply u32_id. unfold is_u32. lia. Qed.

Section timeline.
Implicit Types (s : vm) (l : tlocal) (ls : list tlocal).

(** No other thread is inside the lock. *)
Lemma lock_exclusive s ls t u l k :
  lock_inv s ls → ls !! t = Some l → ls !! u = Some k →
  locked l = 1 → locked k = 1 → t = u.
Proof.
  intros Hi Hl Hk H1 H2. destruct (decide (t = u)) as [|Hne]; [done|exfalso].
  pose proof (zsum_two_le locked ls t u l k (λ z, proj1 (locked_range z)) Hl Hk Hne).
  unfold lock_inv in Hi. destruct (lock_ s); lia.
Qed.

Lemma tok_uniq_insert ls t l l' :
  ls !! t = Some l →
  (∀ u k a, ls !! u = Some k → tok l' = Some a → tok k = Some a → u = t) →
  (∀ u v k j a, ls !! u = Some k → ls !! v = Some j →
     tok k = Some a → tok j = Some a → u = v) →
  ∀ u v k j a, <[t:=l']> ls !! u = Some k → <[t:=l']> ls !! v = Some j →
     tok k = Some a → tok j = Some a → u = v.
Proof.
  intros Hl Hnew Hold u v k j a Hu Hv Ha Hb.
  apply list_lookup_insert_Some in Hu as [(->&->&_)|(Hn&Hu)];
  apply list_lookup_insert_Some in Hv as [(->&->&_)|(Hm&Hv)]; eauto.
  symmetry. eauto.
Qed.

(** Slots of live timestamps are distinct. *)
Lemma live_index_inj s ls a b :
  timeline s ls → read_ts_ s < a < write_ts_ s → read_ts_ s < b < write_ts_ s →
  ts_index a = ts_index b → a = b.
Proof.
  intros Ht Ha Hb. pose proof (tl_range _ _ Ht).
  apply (ts_index_inj (read_ts_ s)); lia.
Qed.

(** A move that leaves the timeline alone. *)
Lemma timeline_quiet s s' ls t l l' :
  timeline s ls → ls !! t = Some l → same_timeline s s' →
  tok l' = tok l →
  (ts_window_ s (ts_index (read_ts_ s + 1)) = read_ts_ s + 1 →
     resp (read_ts_ s) l = true → resp (read_ts_ s) l' = true) →
  (advancing l = true → advancing l' = true) →
  (dirty l = true → dirty l' = true) →
  pc_ok s l' →
  timeline s' (<[t:=l']> ls).
Proof.
  intros Ht Hl (Ew & Er & Eg & Ep & Ewin) Htok Hresp Hadv Hdirty Hpc.
  destruct (pool_split _ _ _ Hl) as (rest & _ & _ & He & He' & _).
  assert (Hpc' : ∀ k, pc_ok s k → pc_ok s' k).
  { intros k. unfold pc_ok. rewrite Ew, Er, Eg, Ewin. done. }
  split; rewrite ?Ew, ?Er, ?Eg, ?Ep, ?Ewin.
  - apply (tl_range _ _ Ht).
  - intros v Hv. destruct (tl_cover _ _ Ht v Hv) as [|(k & Hk & Hkt)]; [by left|right].
    apply He in Hk as [->|Hk].
    + exists l'. split; [by apply He'; left|congruence].
    + exists k. split; [by apply He'; right|done].
  - apply (tl_win _ _ Ht).
  - intros k a Hk Hka. apply He' in Hk as [->|Hk].
    + apply (tl_tok _ _ Ht l); [by apply He; left|congruence].
    + apply (tl_tok _ _ Ht k); [by apply He; right|done].
  - eapply tok_uniq_insert; [done| |apply (tl_uniq _ _ Ht)].
    intros u k a Hu Ha Hk. eapply (tl_uniq _ _ Ht); eauto. congruence.
  - intros k Hk. apply He' in Hk as [->|Hk]; [by apply Hpc'|].
    apply Hpc', (tl_pc _ _ Ht). by apply He; right.
  - intros Hc. destruct (tl_resp _ _ Ht Hc) as (k & Hk & Hr).
    apply He in Hk as [->|Hk].
    + exists l'. split; [by apply He'; left|by auto].
    + exists k. split; [by apply He'; right|done].
  - destruct (tl_pub _ _ Ht) as (v & g & Hp & Hv & Hva & Hg). exists v, g.
    split_and!; [done|lia|lia| |].
    + intros Hall. apply Hva. intros k Hk. apply He in Hk as [->|Hk].
      * specialize (Hall l' ltac:(by apply He'; left)). destruct (advancing l); [|done]. rewrite (Hadv eq_refl) in Hall. done.
      * apply Hall, He'. by right.
    + intros Hall. apply Hg. intros k Hk. apply He in Hk as [->|Hk].
      * specialize (Hall l' ltac:(by apply He'; left)). destruct (dirty l); [|done]. rewrite (Hdirty eq_refl) in Hall. done.
      * apply Hall, He'. by right.
Qed.

(** Reserving the next write timestamp. *)
Lemma timeline_reserve s ls t :
  timeline s ls → ls !! t = Some (TReserve (RV_cas (write_ts_ s))) →
  timeline (set_write_ts (u32 (write_ts_ s + 1)) s)
           (<[t := THeld (write_ts_ s) false]> ls).
Proof.
  intros Ht Hl.
  destruct (pool_split _ _ _ Hl) as (rest & _ & _ & He & He' & _).
  pose proof (tl_range _ _ Ht) as Hr.
  pose proof (tl_pc _ _ Ht _ (proj2 (He _) (or_introl eq_refl))) as (Hc1 & Hc2 & Hc3).
  assert (Ew : u32 (write_ts_ s + 1) = write_ts_ s + 1) by (apply u32_succ; lia).
  assert (Hnw : ∀ i, ts_window_ s i ≠ write_ts_ s).
  { intros i Hi. destruct (tl_win _ _ Ht i); lia. }
  split; cbn; rewrite ?Ew.
  - lia.
  - intros v Hv. destruct (decide (v = write_ts_ s)) as [->|].
    + right. exists (THeld (write_ts_ s) false). split; [by apply He'; left|done].
    + destruct (tl_cover _ _ Ht v) as [|(k & Hk & Hkt)]; [lia|by left|right].
      apply He in Hk as [->|Hk]; [done|]. exists k. split; [by apply He'; right|done].
  - intros i. destruct (tl_win _ _ Ht i) as [|[? ?]]; [by left|right]. split; [lia|done].
  - intros k a Hk Hka. apply He' in Hk as [->|Hk].
    + injection Hka as <-. split; [lia|by apply Hnw].
    + destruct (tl_tok _ _ Ht k a); [by apply He; right|done|]. split; [lia|done].
  - eapply tok_uniq_insert; [done| |apply (tl_uniq _ _ Ht)].
    intros u k a Hu Ha Hk. injection Ha as <-.
    assert (k ∈ ls) by (apply list_elem_of_lookup; eauto).
    destruct (tl_tok _ _ Ht k (write_ts_ s)); [done|done|lia].
  - intros k Hk. apply He' in Hk as [->|Hk]; [done|].
    pose proof (tl_pc _ _ Ht k (proj2 (He _) (or_intror Hk))) as Hp.
    unfold pc_ok in *. destruct k as [|[]| |? ? []| |]; cbn in *; try done; lia.
  - intros Hc. destruct (tl_resp _ _ Ht Hc) as (k & Hk & Hrs).
    apply He in Hk as [->|Hk]; [done|]. exists k. split; [by apply He'; right|done].
  - destruct (tl_pub _ _ Ht) as (v & g & Hp & Hv & Hva & Hg). exists v, g.
    split_and!; [done|lia|lia| |]; intros Hall.
    + apply Hva. intros k Hk. apply He in Hk as [->|Hk]; [done|]. apply Hall, He'. by right.
    + apply Hg. intros k Hk. apply He in Hk as [->|Hk]; [done|]. apply Hall, He'. by right.
Qed.

(** Marking a held timestamp completed never overwrites a live slot. *)
Lemma mark_slot_free s ls l a :
  timeline s ls → l ∈ ls → tok l = Some a → ts_window_ s (ts_index a) = 0.
Proof.
  intros Ht Hl Ha. destruct (tl_tok _ _ Ht l a Hl Ha) as [Hr Hne].
  destruct (tl_win _ _ Ht (ts_index a)) as [|[Hw Hi]]; [done|].
  exfalso. apply Hne. by eapply live_index_inj.
Qed.

Lemma timeline_mark s ls t ts d :
  timeline s ls → ls !! t = Some (THeld ts d) →
  timeline (set_window (mark_completed ts (ts_window_ s)) s) (<[t:=TCompl ts d CW_lock]> ls).
Proof.
  intros Ht Hl.
  destruct (pool_split _ _ _ Hl) as (rest & _ & _ & He & He' & _ & Hrest).
  pose proof (tl_range _ _ Ht) as Hr.
  assert (Hin : THeld ts d ∈ ls) by (apply He; by left).
  destruct (tl_tok _ _ Ht _ ts Hin eq_refl) as [Hts Hslot].
  assert (Hidx : ∀ v, read_ts_ s < v < write_ts_ s → v ≠ ts →
    mark_completed ts (ts_window_ s) (ts_index v) = ts_window_ s (ts_index v)).
  { intros v Hv Hne. apply mark_completed_ne. intros Hi. by apply Hne, (live_index_inj s ls). }
  assert (Hother : ∀ k a, k ∈ rest → tok k = Some a → read_ts_ s < a < write_ts_ s ∧ a ≠ ts).
  { intros k a Hk Ha. destruct (tl_tok _ _ Ht k a (proj2 (He _) (or_intror Hk)) Ha) as [Hra _].
    split; [done|]. intros ->. apply Hrest in Hk as (u & Hne & Hu).
    by apply Hne, (tl_uniq _ _ Ht u t k (THeld ts d) ts). }
  split; cbn.
  - done.
  - intros v Hv. destruct (decide (v = ts)) as [->|Hne]; [left; apply mark_completed_same|].
    rewrite Hidx by done. destruct (tl_cover _ _ Ht v Hv) as [|(k & Hk & Hkt)]; [by left|right].
    apply He in Hk as [->|Hk]; [cbn in Hkt; congruence|]. exists k. split; [by apply He'; right|done].
  - intros i. destruct (decide (i = ts_index ts)) as [->|].
    + right. by rewrite mark_completed_same.
    + rewrite mark_completed_ne by done. apply (tl_win _ _ Ht).
  - intros k a Hk Hka. apply He' in Hk as [->|Hk]; [done|].
    destruct (Hother k a Hk Hka) as [Hra Hne]. rewrite Hidx by done.
    apply (tl_tok _ _ Ht k a (proj2 (He _) (or_intror Hk)) Hka).
  - eapply tok_uniq_insert; [done| |apply (tl_uniq _ _ Ht)]. done.
  - intros k Hk. apply He' in Hk as [->|Hk]; [done|].
    pose proof (tl_pc _ _ Ht k (proj2 (He _) (or_intror Hk))) as Hp.
    destruct k as [|[]| |? ? [| | |[]|]| |]; cbn in *; try done.
    destruct Hp as [-> Hp]. split; [done|].
    destruct (decide (read_ts_ s + 1 = ts)) as [E|]; [exfalso; apply Hslot; by rewrite <- E|].
    by rewrite Hidx by lia.
  - destruct (decide (ts = read_ts_ s + 1)) as [E|].
    + intros _. exists (TCompl ts d CW_lock). split; [by apply He'; left|].
      cbn. by rewrite E, Z.eqb_refl.
    + rewrite Hidx by lia. intros Hc. destruct (tl_resp _ _ Ht Hc) as (k & Hk & Hrs).
      apply He in Hk as [->|Hk]; [done|]. exists k. split; [by apply He'; right|done].
  - destruct (tl_pub _ _ Ht) as (v & g & Hp & Hv & Hva & Hg). exists v, g.
    split_and!; [done|lia|lia| |]; intros Hall.
    + apply Hva. intros k Hk. apply He in Hk as [->|Hk]; [done|]. apply Hall, He'. by right.
    + apply Hg. intros k Hk. apply He in Hk as [->|Hk]; [|by apply Hall, He'; right].
      apply (Hall (TCompl ts d CW_lock)), He'. by left.
Qed.

(** Clearing the slot that the read timestamp is about to pass. *)
Lemma timeline_clear s ls t ts d :
  timeline s ls → lock_inv s ls →
  ls !! t = Some (TCompl ts d (CW_advance (ADV_clear (read_ts_ s)))) →
  timeline (set_window (clear (u32 (read_ts_ s + 1)) (ts_window_ s)) s)
           (<[t:=TCompl ts d (CW_advance (ADV_store (read_ts_ s)))]> ls).
Proof.
  intros Ht Hlk Hl.
  destruct (pool_split _ _ _ Hl) as (rest & _ & _ & He & He' & _ & Hrest).
  pose proof (tl_range _ _ Ht) as Hr.
  pose proof (tl_pc _ _ Ht _ (proj2 (He _) (or_introl eq_refl))) as [_ Hwin].
  set (n := read_ts_ s + 1) in *.
  assert (En : u32 n = n) by (apply u32_succ; lia). rewrite En.
  assert (Hn : read_ts_ s < n < write_ts_ s).
  { destruct (tl_win _ _ Ht (ts_index n)); lia. }
  assert (Hidx : ∀ v, read_ts_ s < v < write_ts_ s → v ≠ n →
    clear n (ts_window_ s) (ts_index v) = ts_window_ s (ts_index v)).
  { intros v Hv Hne. apply clear_ne. intros Hi. by apply Hne, (live_index_inj s ls). }
  assert (Hnadv : ∀ k, k ∈ rest → locked k = 0).
  { intros k Hk. apply Hrest in Hk as (u & Hne & Hu). pose proof (locked_range k).
    destruct (decide (locked k = 1)) as [E|]; [|lia].
    exfalso. apply Hne. by eapply (lock_exclusive s ls u t). }
  split; cbn.
  - done.
  - intros v Hv. destruct (decide (v = n)) as [->|Hne].
    + right. eexists. split; [apply He'; by left|].
      change (Some (u32 n) = Some n). by rewrite En.
    + rewrite Hidx by done. destruct (tl_cover _ _ Ht v Hv) as [|(k & Hk & Hkt)]; [by left|right].
      apply He in Hk as [->|Hk]; [done|]. exists k. split; [by apply He'; right|done].
  - intros i. destruct (decide (i = ts_index n)) as [->|].
    + left. by apply clear_same.
    + rewrite clear_ne by done. apply (tl_win _ _ Ht).
  - intros k a Hk Hka. apply He' in Hk as [->|Hk].
    + change (Some (u32 n) = Some a) in Hka. rewrite En in Hka. injection Hka as <-. split; [done|].
      rewrite clear_same by done. lia.
    + destruct (tl_tok _ _ Ht k a (proj2 (He _) (or_intror Hk)) Hka) as [Hra Hs].
      split; [done|]. rewrite Hidx; [done|done|]. intros ->. done.
  - eapply tok_uniq_insert; [done| |apply (tl_uniq _ _ Ht)].
    intros u k a Hu Ha Hka. change (Some (u32 n) = Some a) in Ha. rewrite En in Ha. injection Ha as <-.
    assert (Hk : k ∈ ls) by (apply list_elem_of_lookup; eauto).
    exfalso. by apply (tl_tok _ _ Ht k n Hk Hka).
  - intros k Hk. apply He' in Hk as [->|Hk]; [done|]. specialize (Hnadv k Hk).
    pose proof (tl_pc _ _ Ht k (proj2 (He _) (or_intror Hk))) as Hp.
    destruct k as [|[]| |? ? [| | |[]|]| |]; cbn in *; done.
  - fold n. rewrite clear_same by done. lia.
  - destruct (tl_pub _ _ Ht) as (v & g & Hp & Hv & Hva & Hg). exists v, g.
    split_and!; [done|lia|lia| |]; intros Hall.
    + specialize (Hall _ (proj2 (He' _ _) (or_introl eq_refl))). done.
    + apply Hg. intros k Hk. apply He in Hk as [->|Hk]; [|by apply Hall, He'; right].
      apply (Hall _ (proj2 (He' _ _) (or_introl eq_refl))).
Qed.

(** Storing the advanced read timestamp. *)
Lemma timeline_store s ls t ts d :
  timeline s ls → lock_inv s ls →
  ls !! t = Some (TCompl ts d (CW_advance (ADV_store (read_ts_ s)))) →
  timeline (set_read_ts (u32 (read_ts_ s + 1)) s)
           (<[t:=TCompl ts d (CW_advance (ADV_check (u32 (read_ts_ s + 1))))]> ls).
Proof.
  intros Ht Hlk Hl.
  destruct (pool_split _ _ _ Hl) as (rest & _ & _ & He & He' & _ & Hrest).
  pose proof (tl_range _ _ Ht) as Hr.
  set (n := read_ts_ s + 1) in *.
  assert (En : u32 n = n) by (apply u32_succ; lia).
  destruct (tl_tok _ _ Ht _ n (proj2 (He _) (or_introl eq_refl))) as [Hn Hwin].
  { change (Some (u32 n) = Some n). by rewrite En. }
  rewrite En.
  assert (Hnadv : ∀ k, k ∈ rest → locked k = 0).
  { intros k Hk. apply Hrest in Hk as (u & Hne & Hu). pose proof (locked_range k).
    destruct (decide (locked k = 1)) as [E|]; [|lia].
    exfalso. apply Hne. by eapply (lock_exclusive s ls u t). }
  split; cbn.
  - unfold kWindowSize in *. lia.
  - intros v Hv. destruct (tl_cover _ _ Ht v) as [|(k & Hk & Hkt)]; [lia|by left|right].
    apply He in Hk as [->|Hk].
    + change (Some (u32 n) = Some v) in Hkt. rewrite En in Hkt. injection Hkt as <-. lia.
    + exists k. split; [by apply He'; right|done].
  - intros i. destruct (tl_win _ _ Ht i) as [|[Hw Hi]]; [by left|right]. split; [|done].
    assert (ts_window_ s i ≠ n); [|lia]. intros E. apply Hwin. rewrite <- E at 1. by rewrite Hi.
  - intros k a Hk Hka. apply He' in Hk as [->|Hk]; [done|].
    destruct (tl_tok _ _ Ht k a (proj2 (He _) (or_intror Hk)) Hka) as [Hra Hs]. split; [|done].
    assert (a ≠ n); [|lia]. intros ->. apply Hrest in Hk as (u & Hne & Hu). apply Hne.
    eapply (tl_uniq _ _ Ht u t k _ n); [done..|]. change (Some (u32 n) = Some n). by rewrite En.
  - eapply tok_uniq_insert; [done| |apply (tl_uniq _ _ Ht)]. done.
  - intros k Hk. apply He' in Hk as [->|Hk]; [done|]. specialize (Hnadv k Hk).
    pose proof (tl_pc _ _ Ht k (proj2 (He _) (or_intror Hk))) as Hp.
    destruct k as [|[]| |? ? [| | |[]|]| |]; cbn in *; try done; lia.
  - intros _. eexists. split; [apply He'; by left|done].
  - destruct (tl_pub _ _ Ht) as (v & g & Hp & Hv & Hva & Hg). exists v, g.
    split_and!; [done|lia|lia| |]; intros Hall.
    + specialize (Hall _ (proj2 (He' _ _) (or_introl eq_refl))). done.
    + apply Hg. intros k Hk. apply He in Hk as [->|Hk]; [|by apply Hall, He'; right].
      apply (Hall _ (proj2 (He' _ _) (or_introl eq_refl))).
Qed.

(** Publishing the read view. *)
Lemma timeline_publish s ls t ts d :
  timeline s ls → lock_inv s ls →
  ls !! t = Some (TCompl ts d (CW_advance
              (ADV_publish (read_ts_ s) (installed_snapshot_generation_ s)))) →
  timeline (set_published (PackPublishedReadView
              (ReadView (read_ts_ s) (installed_snapshot_generation_ s))) s)
           (<[t:=TCompl ts false CW_unlock]> ls).
Proof.
  intros Ht Hlk Hl.
  destruct (pool_split _ _ _ Hl) as (rest & _ & _ & He & He' & _ & Hrest).
  pose proof (tl_range _ _ Ht) as Hr.
  split; cbn.
  - done.
  - intros v Hv. destruct (tl_cover _ _ Ht v) as [|(k & Hk & Hkt)]; [lia|by left|right].
    apply He in Hk as [->|Hk]; [done|]. exists k. split; [by apply He'; right|done].
  - apply (tl_win _ _ Ht).
  - intros k a Hk Hka. apply He' in Hk as [->|Hk]; [done|].
    by apply (tl_tok _ _ Ht k a (proj2 (He _) (or_intror Hk))).
  - eapply tok_uniq_insert; [done| |apply (tl_uniq _ _ Ht)]. done.
  - intros k Hk. apply He' in Hk as [->|Hk]; [done|].
    apply (tl_pc _ _ Ht k (proj2 (He _) (or_intror Hk))).
  - intros Hc. destruct (tl_resp _ _ Ht Hc) as (k & Hk & Hrs).
    apply He in Hk as [->|Hk]; [done|]. exists k. split; [by apply He'; right|done].
  - eexists _, _. split_and!; [done|lia|lia|done..].
Qed.

(** ** A thread alone on the timeline *)

Lemma inactive_facts l r :
  active l = false → tok l = None ∧ resp r l = false ∧ advancing l = false ∧ dirty l = false.
Proof. by destruct l. Qed.

(** When every thread but one is off the timeline, the read timestamp has
    caught up with everything that thread does not hold. *)
Lemma sole_caught_up s ls t l :
  timeline s ls → ls !! t = Some l →
  (∀ u k, u ≠ t → ls !! u = Some k → active k = false) →
  resp (read_ts_ s) l = false → read_ts_ s + 1 < write_ts_ s → tok l = Some (read_ts_ s + 1).
Proof.
  intros Ht Hl Hsole Hnr Hlt.
  assert (Hin : ∀ k, k ∈ ls → k = l ∨ active k = false).
  { intros k Hk. apply list_elem_of_lookup in Hk as [u Hu].
    destruct (decide (u = t)) as [->|]; [left; congruence|right; eauto]. }
  destruct (tl_cover _ _ Ht (read_ts_ s + 1)) as [Hc|(k & Hk & Hka)]; [lia| |].
  - destruct (tl_resp _ _ Ht Hc) as (k & Hk & Hr).
    destruct (Hin k Hk) as [->|Ha]; [congruence|].
    destruct (inactive_facts k (read_ts_ s) Ha) as (? & ? & _); congruence.
  - destruct (Hin k Hk) as [->|Ha]; [done|].
    destruct (inactive_facts k (read_ts_ s) Ha) as (? & ? & _); congruence.
Qed.

(** Storing a new snapshot generation. *)
Lemma timeline_generation s ls t ts g :
  timeline s ls → ls !! t = Some (THeld ts false) →
  (∀ u k, u ≠ t → ls !! u = Some k → active k = false) →
  timeline (set_generation g s) (<[t:=THeld ts true]> ls).
Proof.
  intros Ht Hl Hsole.
  destruct (pool_split _ _ _ Hl) as (rest & _ & _ & He & He' & _ & Hrest).
  assert (Hina : ∀ k, k ∈ rest → active k = false).
  { intros k Hk. apply Hrest in Hk as (u & Hne & Hu). eauto. }
  split; cbn; try apply Ht.
  - intros v Hv. destruct (tl_cover _ _ Ht v) as [|(k & Hk & Hkt)]; [lia|by left|right].
    apply He in Hk as [->|Hk].
    + eexists. split; [apply He'; by left|done].
    + exists k. split; [by apply He'; right|done].
  - intros k a Hk Hka. apply He' in Hk as [->|Hk].
    + by apply (tl_tok _ _ Ht _ a (proj2 (He _) (or_introl eq_refl))).
    + by apply (tl_tok _ _ Ht k a (proj2 (He _) (or_intror Hk))).
  - eapply tok_uniq_insert; [done| |apply (tl_uniq _ _ Ht)].
    intros u k a Hu Ha Hk. by eapply (tl_uniq _ _ Ht).
  - intros k Hk. apply He' in Hk as [->|Hk]; [done|]. specialize (Hina k Hk). by destruct k.
  - intros Hc. destruct (tl_resp _ _ Ht Hc) as (k & Hk & Hrs).
    apply He in Hk as [->|Hk]; [done|]. exists k. split; [by apply He'; right|done].
  - destruct (tl_pub _ _ Ht) as (v & g' & Hp & Hv & Hva & Hg). exists v, g'.
    split_and!; [done|lia|lia| |]; intros Hall.
    + apply Hva. intros k Hk. apply He in Hk as [->|Hk]; [done|]. apply Hall, He'. by right.
    + specialize (Hall _ (proj2 (He' _ _) (or_introl eq_refl))). done.
Qed.

(** The state a timeline reset ends in. *)
Lemma timeline_fresh s ls r g :
  (∀ k, k ∈ ls → active k = false) →
  0 ≤ r < U32_MAX → write_ts_ s = r + 1 → read_ts_ s = r → ts_window_ s = init →
  installed_snapshot_generation_ s = g →
  published_read_view_ s = PackPublishedReadView (ReadView r g) →
  timeline s ls.
Proof.
  intros Hina Hr Hw Hrd Hwin Hg Hp.
  assert (Hf : ∀ k, k ∈ ls → tok k = None) by (intros k Hk; by apply (inactive_facts k 0), Hina).
  split; rewrite ?Hw, ?Hrd, ?Hwin.
  - unfold kWindowSize. lia.
  - intros. lia.
  - by left.
  - intros k a Hk Ha. rewrite Hf in Ha by done. done.
  - intros t u k j a Hk Hj Ha. rewrite Hf in Ha; [done|]. apply list_elem_of_lookup. eauto.
  - intros k Hk. specialize (Hina k Hk). by destruct k.
  - unfold init. lia.
  - exists r, g. rewrite Hg. split_and!; [done|lia|lia|done|done].
Qed.
End timeline.

(** ** Moves *)

Definition same_all (s s' : vm) : Prop := same_timeline s s' ∧ lock_ s' = lock_ s.

(** The moves a thread can make on the timeline. *)
Inductive tmove (s : vm) : tlocal → tlocal → vm → Prop :=
  | tm_same l s' : same_all s s' → tmove s l l s'
  | tm_start s' : same_all s s' → tmove s TNone (TReserve RV_load) s'
  | tm_reserve o c c' s' : ReserveWriteTimestamp o c s = (s', Goto c') →
      tmove s (TReserve c) (TReserve c') s'
  | tm_reserved o c ts s' : ReserveWriteTimestamp o c s = (s', Return (kReserved ts)) →
      tmove s (TReserve c) (THeld ts false) s'
  | tm_refused o c r s' : ReserveWriteTimestamp o c s = (s', Return r) →
      r = kWindowFull ∨ r = kExhausted → tmove s (TReserve c) TNone s'
  | tm_generation ts g : tmove s (THeld ts false) (THeld ts true) (set_generation g s)
  | tm_complete ts d c c' s' : complete_write_timestamp ts c s = (s', Goto c') →
      tmove s (tl_complete ts d c) (tl_complete ts d c') s'
  | tm_completed ts d c s' : complete_write_timestamp ts c s = (s', Return tt) →
      tmove s (tl_complete ts d c) TNone s'
  | tm_lock : lock_ s = false → tmove s TNone TLock (set_lock true s)
  | tm_unlock : tmove s TLock TNone (set_lock false s)
  | tm_reset_write ts : tmove s (THeld ts false) (TReset FR_read) (set_write_ts 1 s)
  | tm_reset o ts c c' s' : (c = FR_read ∨ c = FR_window ∨ c = FR_generation) →
      finish_update_and_reset_timeline ts o c s = (s', Goto c') →
      tmove s (TReset c) (TReset c') s'
  | tm_reset_done g : tmove s (TReset (FR_publish g)) TNone
      (set_published (PackPublishedReadView (ReadView 0 g)) s).

Lemma lock_inv_step s s' ls t l l' :
  lock_inv s ls → ls !! t = Some l →
  (if lock_ s' then 1 else 0) = (if lock_ s then 1 else 0) + locked l' - locked l →
  lock_inv s' (<[t:=l']> ls).
Proof.
  intros Hi Hl He. destruct (pool_split _ _ _ Hl) as (rest & Hs & Hs' & _).
  unfold lock_inv in *. rewrite Hs', He. rewrite (Hs locked) in Hi. lia.
Qed.

Lemma tmove_lock s l l' s' ls t :
  lock_inv s ls → ls !! t = Some l → tmove s l l' s' → lock_inv s' (<[t:=l']> ls).
Proof.
  intros Hi Hl Hm. eapply lock_inv_step; [done..|].
  assert (Hlk : locked l = 1 → lock_ s = true).
  { intros H1. unfold lock_inv in Hi. destruct (lock_ s); [done|].
    pose proof (zsum_elem_le locked ls l (λ z _, proj1 (locked_range z))) as Hle.
    specialize (Hle ltac:(apply list_elem_of_lookup; eauto)). lia. }
  destruct Hm as [l s' [_ E]|s' [_ E]|o c c' s' E|o c ts s' E|o c r s' E _| |ts d c c' s' E
                 |ts d c s' E|E| | |o ts c c' s' [->|[->| ->]] E|]; cbn in *; simplify_eq;
    repeat match goal with
    | H : ReserveWriteTimestamp _ ?c _ = _ |- _ => destruct c; cbn in H
    | H : complete_write_timestamp _ ?c _ = _ |- _ => destruct c as [| | |[]|]; cbn in *
    end;
    repeat (case_bool; simplify_eq/=); rewrite ?E, ?Hlk by done; try lia.
  all: try (destruct (lock_ s); done || lia).
Qed.

Lemma reserve_pc_ok s ls o c c' s' :
  timeline s ls → pc_ok s (TReserve c) → ReserveWriteTimestamp o c s = (s', Goto c') →
  s' = s ∧ pc_ok s (TReserve c').
Proof.
  intros Ht Hok Hs. pose proof (tl_range _ _ Ht).
  assert (Hwin : ∀ k, 0 ≤ k ≤ write_ts_ s → u64 (k - read_ts_ s) ≤ kWindowSize →
                 k - read_ts_ s ≤ kWindowSize).
  { intros k Hk Hu. unfold u64, U32_MAX, kWindowSize in *. dlia. }
  destruct c; cbn in *; repeat case_bool; simplify_eq; bool_to_prop; cbn;
    (split; [done|]); try lia.
  specialize (Hwin candidate). lia.
Qed.

Lemma reserved_at s o c ts s' :
  pc_ok s (TReserve c) → ReserveWriteTimestamp o c s = (s', Return (kReserved ts)) →
  ts = write_ts_ s ∧ c = RV_cas ts ∧ s' = set_write_ts (u32 (write_ts_ s + 1)) s.
Proof.
  intros Hok Hs. destruct c; cbn in *; repeat case_bool; simplify_eq; bool_to_prop.
  by subst.
Qed.

Lemma refused_same s o c r s' :
  ReserveWriteTimestamp o c s = (s', Return r) → r = kWindowFull ∨ r = kExhausted → s' = s.
Proof. intros Hs Hr. destruct c; cbn in *; repeat case_bool; simplify_eq; by destruct Hr. Qed.

(** One step of [complete_write_timestamp] keeps the timeline. *)
Lemma complete_timeline s ls t ts d c c' s' :
  timeline s ls → lock_inv s ls → ls !! t = Some (tl_complete ts d c) →
  complete_write_timestamp ts c s = (s', Goto c') →
  (c = CW_read → d = true → ts = read_ts_ s + 1) →
  timeline s' (<[t:=tl_complete ts d c']> ls).
Proof.
  intros Ht Hlk Hl Hs Hd. pose proof (tl_range _ _ Ht) as Hr.
  assert (Hpc : pc_ok s (tl_complete ts d c)) by (apply (tl_pc _ _ Ht), list_elem_of_lookup; eauto).
  assert (En : u32 (read_ts_ s + 1) = read_ts_ s + 1) by (apply u32_succ; lia).
  destruct c as [| | |[|cu|cu|cu|cu|cu g]|]; cbn in Hs; simplify_eq.
  - by apply timeline_mark.
  - case_bool; simplify_eq; (eapply timeline_quiet; [done..|]); done.
  - rewrite En in Hs. case_bool; simplify_eq; bool_to_prop.
    + eapply timeline_quiet; done.
    + destruct d; [by destruct (Hd eq_refl eq_refl)|].
      eapply timeline_quiet; try done. cbn. rewrite Z.eqb_eq. done.
  - eapply timeline_quiet; done.
  - cbn in Hpc. subst cu. unfold is_completed in Hs. rewrite En in Hs.
    case_bool; cbn in Hs; simplify_eq; bool_to_prop; (eapply timeline_quiet; try done).
  - cbn in Hpc. destruct Hpc as [-> _]. by apply timeline_clear.
  - cbn in Hpc. subst cu. by apply timeline_store.
  - cbn in Hpc. subst cu. eapply timeline_quiet; done.
  - cbn in Hpc. destruct Hpc as [-> ->]. by eapply timeline_publish.
Qed.

(** Every move outside a reset keeps the timeline. *)
Lemma tmove_timeline s l l' s' ls t :
  timeline s ls → lock_inv s ls → ls !! t = Some l → tmove s l l' s' →
  (∀ u k, dirty l' = true → u ≠ t → ls !! u = Some k → active k = false) →
  (∀ ts, l = TCompl ts true CW_read → ts = read_ts_ s + 1) →
  resetting l' = false →
  timeline s' (<[t:=l']> ls).
Proof.
  intros Ht Hlk Hl Hm Hsole Hdirty Hnr.
  assert (Hpc : pc_ok s l) by (apply (tl_pc _ _ Ht), list_elem_of_lookup; eauto).
  destruct Hm as [l s' [E _]|s' [E _]|o c c' s' E|o c ts s' E|o c r s' E Hr| |ts d c c' s' E
                 |ts d c s' E|E| | |o ts c c' s' Hc E|]; try done.
  - eapply timeline_quiet; done.
  - eapply timeline_quiet; done.
  - destruct (reserve_pc_ok s ls o c c' s' Ht Hpc E) as [-> ?]. eapply timeline_quiet; done.
  - destruct (reserved_at s o c ts s' Hpc E) as (-> & -> & ->). by apply timeline_reserve.
  - rewrite (refused_same s o c r s' E Hr). eapply timeline_quiet; done.
  - apply timeline_generation; eauto.
  - eapply complete_timeline; [done..|]. intros -> ->. by apply Hdirty.
  - destruct c as [| | |[]|]; cbn in E; repeat case_bool; simplify_eq. eapply timeline_quiet; done.
  - eapply timeline_quiet; done.
  - eapply timeline_quiet; done.
Qed.
