(* ===== verification/VersionSystem.v ===== *)
(** * The version manager under concurrency

    Every step of every caller respects the gate protocol and the timeline,
    hence the guarantees that hold in all reachable states: what a reader's
    view contains, uniqueness of write timestamps, exclusion, progress of the
    read timestamp, and the absence of internal errors. *)

From stdpp Require Import functions.
From S2P Require Import Prelude GateWord OperationGate GateProtocol TimestampWindow VersionManager VersionThreads Timeline.
Import OperationGateWord OperationGate GateSteps VersionManager TimestampWindow.

Definition ru_ok (c : reserve_update_pc) : Prop :=
  match c with
  | RU_reserve _ => True
  | RU_reopen full p => full = false ∧ ph_ok kInsertsBlocked p
  end.

(** Program points that can occur. *)
Definition vm_ok (x : vm_thread) : Prop :=
  match x with
  | VReadOp (RO_admit a) => as_ok a
  | VInsOp (AIT_admit a) => ai_ok a
  | VUpdOp (AU_reserve r) | VUpdUntilOp (AUU_reserve r) | VTryOp (TA_reserve r) => ru_ok r
  | VUpdUntilOp (AUU_enter c) => eu_ok c
  | VUpdUntilOp (AUU_back c) | VUpdBegin _ c => ph_ok kInsertsBlocked c
  | VTryOp (TA_enter (TE_cas obs)) => phase obs = kOpen
  | VUpdReset _ (FR_open c) | VCmpEnd _ _ (RC_open c) => ph_ok kAllBlocked c
  | VCmpOp (AC_back full c) => full = false ∧ ph_ok kAllBlocked c
  | VFailed e => e = TransactionTimeout ∨ e = RuntimeFailure
  | _ => True
  end.

(** A timestamp whose completion has not reached the advance. *)
Definition pending (l : tlocal) : option Z :=
  match l with THeld a _ | TCompl a _ (CW_lock | CW_read) => Some a | _ => None end.

(** What a thread may assume of the timeline. *)
Record time_view (s : vm) (x : vm_thread) : Prop := {
  tv_range : ∀ c, tl x = TReserve c → 0 ≤ read_ts_ s < write_ts_ s ∧ write_ts_ s ≤ U32_MAX;
  tv_pc : ∀ c, tl x = TReserve c → pc_ok s (TReserve c);
  tv_sole : ∀ c, vt_di x = true → tl x = TReserve c → read_ts_ s + 1 = write_ts_ s;
  tv_held : ∀ a, vt_di x = true → pending (tl x) = Some a →
            0 ≤ read_ts_ s ∧ read_ts_ s = a - 1 ∧ write_ts_ s = a + 1 ∧ write_ts_ s ≤ U32_MAX;
  tv_ins : vt_di x = true → inserters (gate_ s) = 0
}.

Definition step_ok (s : vm) (x x' : vm_thread) (s' : vm) : Prop :=
  legal_step x (gate_ s) x' (gate_ s') ∧ vm_ok x' ∧ tmove s (tl x) (tl x') s'.

Lemma same_gate s w : same_all s (set_gate w s).
Proof. by repeat split. Qed.
Lemma same_refl s : same_all s s.
Proof. by repeat split. Qed.
#[local] Hint Resolve same_gate same_refl : core.

Lemma reserve_spec o c s s' k :
  0 ≤ read_ts_ s < write_ts_ s → write_ts_ s ≤ U32_MAX → pc_ok s (TReserve c) →
  ReserveWriteTimestamp o c s = (s', k) →
  gate_ s' = gate_ s ∧ (∀ e, k ≠ Raise e) ∧
  (read_ts_ s + 1 = write_ts_ s → k ≠ Return kWindowFull).
Proof.
  intros Hr Hw Hpc Hs. unfold U32_MAX in *.
  assert (Hwin : ∀ v, 0 ≤ v ≤ write_ts_ s → kWindowSize < u64 (v - read_ts_ s) →
                 read_ts_ s < v → read_ts_ s + 1 = write_ts_ s → False).
  { intros v Hv Hu Hlt E. rewrite u64_id in Hu by (unfold is_u64; lia). unfold kWindowSize in Hu. lia. }
  destruct c; cbn in *; repeat case_bool; simplify_eq; bool_to_prop; split_and?; try done; try lia.
  intros E _. by apply (Hwin candidate).
Qed.

Lemma complete_spec ts c s s' k :
  complete_write_timestamp ts c s = (s', k) → gate_ s' = gate_ s ∧ ∀ e, k ≠ Raise e.
Proof. intros Hs. destruct c as [| | |[]|]; cbn in Hs; repeat case_bool; by simplify_eq/=. Qed.

(** Splits [step_ok]; what remains are the protocol obligations that need
    more than computation. *)
Ltac vlegal := split; [split; cbn -[Z.mul Z.pow]; unfold contrib, pack, pcode, nown;
  cbn -[Z.mul Z.pow]; intros; try done; try lia; try (cbn [code] in *; lia); try (split; [done|by left]); try (split; [done|by right])
  |split; [cbn; try done; try by auto|]].

Section steps.
Context (o : oracle) (s : vm).

Lemma read_step c x' s' :
  gate_view (gate_ s) (VReadOp c) → vm_ok (VReadOp c) →
  run VReadOp VReader (acquire_read_operation o c s) = (x', s') →
  step_ok s (VReadOp c) x' s'.
Proof.
  intros [Hw Hroom Hrd _ _ _] Hok Hs. destruct c as [a|]; cbn in Hs.
  - unfold on_gate in Hs. destruct (acquire_shared o a (gate_ s)) as [w1 k] eqn:E.
    pose proof (acquire_shared_spec o a _ w1 k Hw Hok Hroom Hrd E) as Hsp.
    destruct k; cbn in Hs; simplify_eq; [destruct Hsp..|done]; vlegal; by apply tm_same.
  - simplify_eq. vlegal. by apply tm_same.
Qed.

Lemma read_end_step c x' s' :
  gate_view (gate_ s) (VReadEnd c) →
  run VReadEnd (λ _, VIdle) (on_gate (release_shared o c) s) = (x', s') →
  step_ok s (VReadEnd c) x' s'.
Proof.
  intros [Hw _ Hrd _ _ _] Hs. unfold on_gate in Hs.
  destruct (release_shared o c (gate_ s)) as [w1 k] eqn:E.
  pose proof (release_shared_spec o c _ w1 k Hw (Hrd eq_refl) E) as Hsp.
  destruct k; cbn in Hs; simplify_eq; [..|done]; vlegal; by apply tm_same.
Qed.

Lemma insert_step c x' s' :
  gate_view (gate_ s) (VInsOp c) → vm_ok (VInsOp c) → time_view s (VInsOp c) →
  run VInsOp VInserter (acquire_insert_timestamp o c s) = (x', s') →
  step_ok s (VInsOp c) x' s'.
Proof.
  intros [Hw _ _ Hroom Hin _] Hok Hv Hs. destruct c as [a|r|ex r]; cbn in Hs.
  - unfold on_gate in Hs. destruct (acquire_inserter o a (gate_ s)) as [w1 k] eqn:E.
    pose proof (acquire_inserter_spec o a _ w1 k Hw Hok (Hroom eq_refl) E) as Hsp.
    destruct k; cbn in Hs; simplify_eq; [destruct Hsp..|done]; vlegal; [by apply tm_same|by apply tm_start].
  - destruct (ReserveWriteTimestamp o r s) as [s1 k] eqn:E.
    destruct (tv_range _ _ Hv r eq_refl) as [Hr1 Hr2].
    destruct (reserve_spec o r s s1 k Hr1 Hr2 (tv_pc _ _ Hv r eq_refl) E) as (Hg & Hne & _).
    destruct k as [c'|[ts| |]|e]; cbn in Hs; simplify_eq; [..|by destruct (Hne e)];
      vlegal; cbn; try (rewrite Hg; lia).
    + by eapply tm_reserve.
    + by eapply tm_reserved.
    + eapply tm_refused; eauto.
    + eapply tm_refused; eauto.
  - unfold on_gate in Hs. destruct (release_inserter o r (gate_ s)) as [w1 k] eqn:E.
    pose proof (release_inserter_spec o r _ w1 k Hw (Hin eq_refl) E) as Hsp.
    destruct k; cbn in Hs; try done; [|destruct ex]; simplify_eq; vlegal; by apply tm_same.
Qed.

Lemma insert_end_step ts c x' s' :
  gate_view (gate_ s) (VInsEnd ts c) →
  run (VInsEnd ts) (λ _, VIdle) (release_insert_timestamp ts o c s) = (x', s') →
  step_ok s (VInsEnd ts c) x' s'.
Proof.
  intros [Hw _ _ _ Hin _] Hs. destruct c as [a|r]; cbn in Hs.
  - destruct (complete_write_timestamp ts a s) as [s1 k] eqn:E.
    destruct (complete_spec _ _ _ _ _ E) as [Hg Hne].
    destruct k as [c'|[]|e]; cbn in Hs; simplify_eq; [..|by destruct (Hne e)]; vlegal; cbn;
      try (rewrite Hg; lia); [by apply tm_complete|by apply tm_completed].
  - unfold on_gate in Hs. destruct (release_inserter o r (gate_ s)) as [w1 k] eqn:E.
    pose proof (release_inserter_spec o r _ w1 k Hw (Hin eq_refl) E) as Hsp.
    destruct k; cbn in Hs; simplify_eq; [..|done]; vlegal; by apply tm_same.
Qed.

Lemma reserve_update_sub r s' k :
  is_u64 (gate_ s) → phase (gate_ s) = kInsertsBlocked → ru_ok r →
  (∀ c, tl_reserve_update r = TReserve c → 0 ≤ read_ts_ s < write_ts_ s ∧ write_ts_ s ≤ U32_MAX) →
  (∀ c, tl_reserve_update r = TReserve c → pc_ok s (TReserve c)) →
  (∀ c, tl_reserve_update r = TReserve c → read_ts_ s + 1 = write_ts_ s) →
  reserve_update_timestamp o r s = (s', k) →
  match k with
  | Goto r' => gate_ s' = gate_ s ∧ ru_ok r' ∧
               tmove s (tl_reserve_update r) (tl_reserve_update r') s'
  | Return ts => gate_ s' = gate_ s ∧ tmove s (tl_reserve_update r) (THeld ts false) s'
  | Raise e => gate_ s' = gate_ s - 2^62 ∧ e = RuntimeFailure ∧
               tmove s (tl_reserve_update r) TNone s'
  end.
Proof.
  intros Hw Hp Hok Hr Hpc Hsole Hs. destruct r as [r|full r]; cbn in Hs.
  - destruct (ReserveWriteTimestamp o r s) as [s1 k1] eqn:E. destruct (Hr r eq_refl) as [Hr1 Hr2].
    destruct (reserve_spec o r s s1 k1 Hr1 Hr2 (Hpc r eq_refl) E) as (Hg & Hne & Hfull).
    specialize (Hfull (Hsole r eq_refl)).
    destruct k1 as [c'|[ts| |]|e]; cbn in Hs; simplify_eq; [| | | by destruct (Hne e)]; split_and?;
      try done.
    + by eapply tm_reserve.
    + by eapply tm_reserved.
    + eapply tm_refused; eauto.
  - unfold on_gate in Hs. destruct Hok as [-> Hok].
    destruct (transition_phase _ _ o r (gate_ s)) as [w1 k1] eqn:E.
    pose proof (transition_phase_spec _ _ o r _ w1 k1 Hw Hp Hok E) as Hsp.
    destruct k1; cbn in Hs; simplify_eq; [..|done].
    + destruct Hsp. split_and!; [done..|by apply tm_same].
    + split_and!; [cbn in *; lia|done|by apply tm_same].
Qed.

(** The three ways to acquire an update. *)
Lemma update_step c x' s' :
  gate_view (gate_ s) (VUpdOp c) → vm_ok (VUpdOp c) → time_view s (VUpdOp c) →
  run VUpdOp VUpd (acquire_update_timestamp o c s) = (x', s') → step_ok s (VUpdOp c) x' s'.
Proof.
  intros [Hw _ _ _ _ Hph] Hok Hv Hs. destruct c as [a| |r]; cbn in Hs.
  - unfold on_gate in Hs. destruct (enter_phase _ o a (gate_ s)) as [w1 k] eqn:E.
    pose proof (enter_phase_spec _ o a _ w1 k Hw E) as Hsp.
    destruct k; cbn in Hs; simplify_eq; [|destruct Hsp|done]; vlegal; by apply tm_same.
  - unfold on_gate, wait_inserters_drained in Hs. case_bool; cbn in Hs; simplify_eq; bool_to_prop; vlegal.
    + by apply tm_start.
    + by apply tm_same.
  - destruct (reserve_update_timestamp o r s) as [s1 k] eqn:E.
    pose proof (reserve_update_sub r s1 k Hw (Hph _ eq_refl) Hok (tv_range _ _ Hv) (tv_pc _ _ Hv)
      (λ c, tv_sole _ _ Hv c eq_refl) E) as Hsp.
    destruct k; cbn in Hs; simplify_eq; [destruct Hsp as (Hg & ? & ?)|destruct Hsp as (Hg & ?)
      |destruct Hsp as (Hg & -> & ?)]; vlegal; cbn; try rewrite Hg; try lia; done.
Qed.

Lemma update_until_step c x' s' :
  gate_view (gate_ s) (VUpdUntilOp c) → vm_ok (VUpdUntilOp c) → time_view s (VUpdUntilOp c) →
  run VUpdUntilOp VUpd (acquire_update_timestamp_until o c s) = (x', s') →
  step_ok s (VUpdUntilOp c) x' s'.
Proof.
  intros [Hw _ _ _ _ Hph] Hok Hv Hs. destruct c as [a|a| |a|r]; cbn in Hs.
  - unfold on_gate in Hs. destruct (enter_phase_until _ o a (gate_ s)) as [w1 k] eqn:E.
    pose proof (enter_phase_until_spec kInsertsBlocked o a _ w1 k Hw Hok) as Hsp.
    ospecialize* Hsp; [intros He; apply Hph; cbn; by rewrite He|done|].
    destruct k as [c'|[]|]; cbn in Hs; simplify_eq; [| | |done].
    + destruct Hsp as (? & Hok' & Hopen).
      vlegal; destruct (eu_own a), (eu_own c'); cbn in *; try lia; try done; auto; by apply tm_same.
    + destruct Hsp as (? & Ho). specialize (Ho eq_refl).
      vlegal; rewrite ?Ho in *; cbn in *; try lia; try done. by apply tm_same.
    + destruct Hsp as (? & _). vlegal; destruct (eu_own a); cbn in *; try lia; try done; by apply tm_same.
  - unfold on_gate in Hs. destruct a; cbn in Hs; try case_bool; cbn in Hs; simplify_eq; bool_to_prop;
      vlegal; try (by apply tm_same); case_bool; simplify_eq; vlegal; by apply tm_same.
  - case_bool; cbn in Hs; simplify_eq; vlegal; [by apply tm_same|by apply tm_start].
  - unfold on_gate in Hs. destruct (transition_phase _ _ o a (gate_ s)) as [w1 k] eqn:E.
    pose proof (transition_phase_spec _ _ o a _ w1 k Hw (Hph _ eq_refl) Hok E) as Hsp.
    destruct k; cbn in Hs; simplify_eq; [destruct Hsp| |done]; vlegal; by apply tm_same.
  - destruct (reserve_update_timestamp o r s) as [s1 k] eqn:E.
    pose proof (reserve_update_sub r s1 k Hw (Hph _ eq_refl) Hok (tv_range _ _ Hv) (tv_pc _ _ Hv)
      (λ c, tv_sole _ _ Hv c eq_refl) E) as Hsp.
    destruct k; cbn in Hs; simplify_eq; [destruct Hsp as (Hg & ? & ?)|destruct Hsp as (Hg & ?)
      |destruct Hsp as (Hg & -> & ?)]; vlegal; cbn; try rewrite Hg; try lia; done.
Qed.

Lemma try_update_step c x' s' :
  gate_view (gate_ s) (VTryOp c) → vm_ok (VTryOp c) → time_view s (VTryOp c) →
  run VTryOp (λ r, match r with Some ts => VUpd ts | None => VIdle end)
    (try_acquire_update_timestamp o c s) = (x', s') → step_ok s (VTryOp c) x' s'.
Proof.
  intros [Hw _ _ _ _ Hph] Hok Hv Hs. destruct c as [a| |a|r]; cbn in Hs.
  - unfold on_gate in Hs. destruct a as [|obs]; cbn in Hs.
    + case_bool_decide as Hp; cbn in Hs; simplify_eq; vlegal; try (by apply tm_same).
    + destruct (cas _ _ _ _) as [w1 r] eqn:E. cbn in Hok.
      apply cas_cases in E as [(->&<-&->)|(->&->)]; cbn in Hs; simplify_eq; [|vlegal; by apply tm_same].
      pose proof (with_phase_delta (gate_ s) kInsertsBlocked Hw) as Hd. rewrite Hok in Hd.
      vlegal. by apply tm_same.
  - case_bool; cbn in Hs; simplify_eq; bool_to_prop; vlegal; [by apply tm_start|by apply tm_same].
  - unfold on_gate in Hs. destruct (reopen o a (gate_ s)) as [w1 k] eqn:E.
    pose proof (reopen_spec o a _ w1 k Hw E) as Hsp. rewrite (Hph _ eq_refl) in Hsp.
    destruct k; cbn in Hs; simplify_eq; [..|done]; vlegal; by apply tm_same.
  - destruct (reserve_update_timestamp o r s) as [s1 k] eqn:E.
    pose proof (reserve_update_sub r s1 k Hw (Hph _ eq_refl) Hok (tv_range _ _ Hv) (tv_pc _ _ Hv)
      (λ c, tv_sole _ _ Hv c eq_refl) E) as Hsp.
    destruct k; cbn in Hs; simplify_eq; [destruct Hsp as (Hg & ? & ?)|destruct Hsp as (Hg & ?)
      |destruct Hsp as (Hg & -> & ?)]; vlegal; cbn; try rewrite Hg; try lia; done.
Qed.

(** Committing, draining and ending an update. *)
Lemma begin_step ts c x' s' :
  gate_view (gate_ s) (VUpdBegin ts c) → vm_ok (VUpdBegin ts c) →
  run (VUpdBegin ts) (λ _, VUpdCommit ts) (begin_update_commit o c s) = (x', s') →
  step_ok s (VUpdBegin ts c) x' s'.
Proof.
  intros [Hw _ _ _ _ Hph] Hok Hs. unfold begin_update_commit, on_gate in Hs.
  destruct (transition_phase _ _ o c (gate_ s)) as [w1 k] eqn:E.
  pose proof (transition_phase_spec _ _ o c _ w1 k Hw (Hph _ eq_refl) Hok E) as Hsp.
  destruct k; cbn in Hs; simplify_eq; [destruct Hsp| |done]; vlegal; by apply tm_same.
Qed.

Lemma drain_step ts c x' s' :
  gate_view (gate_ s) (VUpdDrain ts c) →
  run (VUpdDrain ts) (λ _, VUpdExcl ts) (drain_readers o c s) = (x', s') →
  step_ok s (VUpdDrain ts c) x' s'.
Proof.
  intros [Hw _ _ _ _ Hph] Hs. destruct c; cbn in Hs.
  - rewrite (Hph _ eq_refl) in Hs. rewrite bool_decide_false in Hs by auto.
    cbn in Hs. simplify_eq. vlegal; by apply tm_same.
  - unfold on_gate, wait_readers_drained in Hs.
    case_bool; cbn in Hs; simplify_eq; bool_to_prop; vlegal; by apply tm_same.
Qed.

Lemma finish_step ts g b c x' s' :
  gate_view (gate_ s) (VUpdFinish ts g b c) →
  run (VUpdFinish ts g b) (λ _, VIdle) (finish_update_timestamp ts g o c s) = (x', s') →
  step_ok s (VUpdFinish ts g b c) x' s'.
Proof.
  intros [Hw _ _ _ _ Hph] Hs. destruct c as [|a|a]; cbn in Hs.
  - simplify_eq. destruct g as [g|], b; vlegal; cbn;
      first [by apply tm_same | by apply tm_generation].
  - destruct (complete_write_timestamp ts a s) as [s1 k] eqn:E.
    destruct (complete_spec _ _ _ _ _ E) as [Hg Hne].
    destruct k as [c'|[]|e]; cbn in Hs; simplify_eq; [..|by destruct (Hne e)]; destruct b; vlegal; cbn;
      try (rewrite Hg; lia); first [by apply tm_complete|by eapply tm_completed].
  - unfold on_gate in Hs. destruct (reopen o a (gate_ s)) as [w1 k] eqn:E.
    pose proof (reopen_spec o a _ w1 k Hw E) as Hsp. rewrite (Hph _ eq_refl) in Hsp.
    destruct k; cbn in Hs; simplify_eq; [..|done]; destruct b; vlegal; by apply tm_same.
Qed.

Lemma reset_step ts c x' s' :
  gate_view (gate_ s) (VUpdReset ts c) → vm_ok (VUpdReset ts c) → time_view s (VUpdReset ts c) →
  run (VUpdReset ts) (λ _, VIdle) (finish_update_and_reset_timeline ts o c s) = (x', s') →
  step_ok s (VUpdReset ts c) x' s'.
Proof.
  intros [Hw _ _ _ _ Hph] Hok Hv Hs. pose proof (Hph kAllBlocked eq_refl) as Hp.
  destruct c; cbn in Hs.
  - rewrite Hp, (tv_ins _ _ Hv eq_refl) in Hs. rewrite bool_decide_true in Hs by done. cbn in Hs.
    simplify_eq. vlegal; by apply tm_same.
  - destruct (tv_held _ _ Hv ts eq_refl eq_refl) as (? & ? & Hwr & Hmx).
    rewrite (u32_succ ts), Hwr, Z.eqb_refl in Hs by lia.
    cbn in Hs. simplify_eq. vlegal; by apply tm_same.
  - simplify_eq. vlegal. apply tm_reset_write.
  - simplify_eq. vlegal. cbn. eapply (tm_reset _ o ts); eauto.
  - simplify_eq. vlegal. cbn. eapply (tm_reset _ o ts); eauto.
  - simplify_eq. vlegal. cbn. eapply (tm_reset _ o ts); eauto.
  - simplify_eq. vlegal. cbn. apply tm_reset_done.
  - unfold on_gate in Hs. destruct (transition_phase _ _ o c (gate_ s)) as [w1 k] eqn:E.
    pose proof (transition_phase_spec _ _ o c _ w1 k Hw Hp Hok E) as Hsp.
    destruct k; cbn in Hs; simplify_eq; [destruct Hsp| |done]; vlegal; by apply tm_same.
Qed.

Lemma compact_step c x' s' :
  gate_view (gate_ s) (VCmpOp c) → vm_ok (VCmpOp c) → time_view s (VCmpOp c) →
  run VCmpOp VCmp (acquire_compact_timestamp o c s) = (x', s') → step_ok s (VCmpOp c) x' s'.
Proof.
  intros [Hw _ _ _ _ Hph] Hok Hv Hs. destruct c as [a| | |r|full a]; cbn in Hs.
  - unfold on_gate in Hs. destruct (enter_phase _ o a (gate_ s)) as [w1 k] eqn:E.
    pose proof (enter_phase_spec _ o a _ w1 k Hw E) as Hsp.
    destruct k; cbn in Hs; simplify_eq; [|destruct Hsp|done]; vlegal; by apply tm_same.
  - unfold on_gate, wait_readers_drained in Hs.
    case_bool; cbn in Hs; simplify_eq; bool_to_prop; vlegal; by apply tm_same.
  - unfold on_gate, wait_inserters_drained in Hs.
    case_bool; cbn in Hs; simplify_eq; bool_to_prop; vlegal; [by apply tm_start|by apply tm_same].
  - destruct (ReserveWriteTimestamp o r s) as [s1 k] eqn:E.
    destruct (tv_range _ _ Hv r eq_refl) as [Hr1 Hr2].
    destruct (reserve_spec o r s s1 k Hr1 Hr2 (tv_pc _ _ Hv r eq_refl) E) as (Hg & Hne & Hf).
    specialize (Hf (tv_sole _ _ Hv r eq_refl eq_refl)).
    destruct k as [c'|[ts| |]|e]; cbn in Hs; simplify_eq; [| | |by destruct (Hne e)];
      vlegal; cbn; try (rewrite Hg; lia).
    + by eapply tm_reserve.
    + by eapply tm_reserved.
    + eapply tm_refused; eauto.
  - destruct Hok as [-> Hok]. unfold on_gate in Hs.
    destruct (transition_phase _ _ o a (gate_ s)) as [w1 k] eqn:E.
    pose proof (transition_phase_spec _ _ o a _ w1 k Hw (Hph _ eq_refl) Hok E) as Hsp.
    destruct k; cbn in Hs; simplify_eq; [destruct Hsp| |done]; vlegal; by apply tm_same.
Qed.

Lemma compact_end_step ts b c x' s' :
  gate_view (gate_ s) (VCmpEnd ts b c) → vm_ok (VCmpEnd ts b c) →
  run (VCmpEnd ts b) (λ _, VIdle) (release_compact_timestamp ts o c s) = (x', s') →
  step_ok s (VCmpEnd ts b c) x' s'.
Proof.
  intros [Hw _ _ _ _ Hph] Hok Hs. pose proof (Hph kAllBlocked eq_refl) as Hp.
  destruct c as [|a|a]; cbn in Hs.
  - rewrite Hp in Hs. rewrite bool_decide_false in Hs by auto. cbn in Hs. simplify_eq. vlegal.
    by apply tm_same.
  - destruct (complete_write_timestamp ts a s) as [s1 k] eqn:E.
    destruct (complete_spec _ _ _ _ _ E) as [Hg Hne].
    destruct k as [c'|[]|e]; cbn in Hs; simplify_eq; [..|by destruct (Hne e)]; vlegal; cbn;
      try (rewrite Hg; lia); first [by apply tm_complete|by apply tm_completed].
  - unfold on_gate in Hs. destruct (transition_phase _ _ o a (gate_ s)) as [w1 k] eqn:E.
    pose proof (transition_phase_spec _ _ o a _ w1 k Hw Hp Hok E) as Hsp.
    destruct k; cbn in Hs; simplify_eq; [destruct Hsp| |done]; vlegal; by apply tm_same.
Qed.

Lemma switch_step c x' s' :
  gate_view (gate_ s) (VSwitch c) →
  run VSwitch (λ _, VIdle) (try_set_runtime_wait_if_quiescent o c s) = (x', s') →
  step_ok s (VSwitch c) x' s'.
Proof.
  intros [Hw _ _ _ _ Hph] Hs. destruct c as [| |a|b]; cbn in Hs.
  - case_bool; cbn in Hs; simplify_eq; vlegal; [by apply tm_same|by apply tm_lock].
  - unfold try_seal_open_state in Hs. destruct (cas _ _ _ _) as [w1 r] eqn:E.
    apply cas_cases in E as [(->&Hw0&->)|(->&->)]; cbn in Hs; simplify_eq; vlegal; try by apply tm_same.
    + by rewrite Hw0.
    + by rewrite Hw0.
  - unfold on_gate in Hs. destruct (unseal_to_open o a (gate_ s)) as [w1 k] eqn:E.
    pose proof (reopen_spec o a _ w1 k Hw E) as Hsp. rewrite (Hph _ eq_refl) in Hsp.
    destruct k; cbn in Hs; simplify_eq; [..|done]; vlegal; by apply tm_same.
  - simplify_eq. vlegal. by apply tm_unlock.
Qed.
End steps.

Lemma revert_is_release ts o c s :
  revert_compact_timestamp ts o c s = release_compact_timestamp ts o c s.
Proof. by destruct c. Qed.

(** Every step of every caller keeps the gate protocol and the timeline. *)
Lemma vm_step_ok cmd o x s x' s' :
  gate_view (gate_ s) x → vm_ok x → time_view s x → vm_step cmd o x s = (x', s') →
  step_ok s x x' s'.
Proof.
  intros Hg Hok Hv Hs. destruct x; cbn [vm_step] in Hs.
  all: try (by eauto using read_step, read_end_step, insert_step, insert_end_step, update_step,
    update_until_step, try_update_step, begin_step, drain_step, finish_step, reset_step,
    compact_step, switch_step).
  - simplify_eq. destruct cmd; vlegal; by apply tm_same.
  - simplify_eq. vlegal. by apply tm_same.
  - simplify_eq. vlegal. by apply tm_same.
  - simplify_eq. destruct cmd as [| | | | | | | | |[]| |]; vlegal; by apply tm_same.
  - simplify_eq. destruct cmd; vlegal; by apply tm_same.
  - simplify_eq. destruct cmd; vlegal; by apply tm_same.
  - simplify_eq. vlegal. by apply tm_same.
  - destruct revert; rewrite ?revert_is_release in Hs; by eapply compact_end_step.
  - simplify_eq. vlegal. by apply tm_same.
Qed.

(** ** The invariant *)

(** The members already rewritten while the timeline is reset. *)
Definition reset_ok (s : vm) (c : reset_pc) : Prop :=
  match c with
  | FR_read => write_ts_ s = 1
  | FR_window => write_ts_ s = 1 ∧ read_ts_ s = 0
  | FR_generation => write_ts_ s = 1 ∧ read_ts_ s = 0 ∧ ts_window_ s = init
  | FR_publish g => write_ts_ s = 1 ∧ read_ts_ s = 0 ∧ ts_window_ s = init ∧
                    g = installed_snapshot_generation_ s
  | _ => False
  end.

Record vm_inv (st : vm_state) : Prop := {
  vi_gate : gate_inv (gate_ (vs st)) (vts st);
  vi_ok : ∀ x, x ∈ vts st → vm_ok x;
  vi_lock : lock_inv (vs st) (tl <$> vts st);
  vi_time : (∀ u y, vts st !! u = Some y → resetting (tl y) = false) →
            timeline (vs st) (tl <$> vts st);
  vi_reset : ∀ u y c, vts st !! u = Some y → tl y = TReset c → reset_ok (vs st) c;
  vi_sole : ∀ u y a, vts st !! u = Some y → vt_di y = true → pending (tl y) = Some a →
            read_ts_ (vs st) = a - 1 ∧ write_ts_ (vs st) = a + 1
}.

(** A thread on the timeline is an admitted inserter or a drained owner. *)
Lemma active_link x : active (tl x) = true → vt_ins x = 1 ∨ vt_di x = true.
Proof.
  destruct x as [|[]| | |[]| |? []|[| |[]]|[| | | |[]]|[| | |[]]| | | | | |? ? ? []|? []|[]| |? ? []|[]|];
    cbn; intros; first [done | by left | by right].
Qed.

Lemma dirty_link x : dirty (tl x) = true → vt_di x = true.
Proof.
  destruct x as [|[]| | |[]| |? [[]|]|[| |[]]|[| | | |[]]|[| | |[]]| | | | | |? ? ? []|? []|[]| |? ? [|[]|]|[]|];
    cbn; done.
Qed.

Lemma resetting_link x : resetting (tl x) = true → vt_di x = true.
Proof.
  destruct x as [|[]| | |[]| |? [[]|]|[| |[]]|[| | | |[]]|[| | |[]]| | | | | |? ? ? [|[]|]|? []|[]| |? ? [|[]|]|[]|];
    cbn; done.
Qed.

Lemma sole_others w ts t u x y :
  gate_inv w ts → ts !! t = Some x → vt_di x = true → u ≠ t → ts !! u = Some y →
  active (tl y) = false.
Proof.
  intros Hi Hx Hd Hne Hy. destruct (active (tl y)) eqn:Ha; [exfalso|done].
  assert (Hxin : x ∈ ts) by (apply list_elem_of_lookup; eauto).
  assert (Hyin : y ∈ ts) by (apply list_elem_of_lookup; eauto).
  destruct (active_link y Ha) as [Hin|Hdi].
  - pose proof (gi_di _ _ Hi x Hxin Hd) as Hz.
    pose proof (zsum_elem_le ins ts y (λ z _, proj1 (ins_law z)) Hyin). cbn in *. lia.
  - apply Hne. eapply (owner_unique w ts u t); eauto; by apply di_law.
Qed.

Lemma inactive_move s l l' s' :
  tmove s l l' s' → active l = false → active l' = false → same_timeline s s'.
Proof.
  intros Hm Hl Hl'. destruct Hm as [? ? []|? []|??? []|? | |?|ts d [] ? ? E|ts d []|?| | |? ? ? ? ? ? |]; try done.
Qed.

Lemma same_reset_ok s s' c : same_timeline s s' → reset_ok s c → reset_ok s' c.
Proof. intros (Ew & Er & Eg & Ep & Ewin). destruct c; cbn; rewrite ?Ew, ?Er, ?Eg, ?Ewin; done. Qed.

Section preserve.
Context (st : vm_state) (t : nat) (x : vm_thread).
Context (Hinv : vm_inv st) (Hx : vts st !! t = Some x).
Let s := vs st.

Lemma active_timeline :
  active (tl x) = true → resetting (tl x) = false → timeline s (tl <$> vts st).
Proof using Hinv Hx.
  intros Ha Hr. apply (vi_time _ Hinv). intros u y Hy.
  destruct (resetting (tl y)) eqn:E; [|done]. destruct (decide (u = t)) as [->|Hne]; [congruence|].
  assert (active (tl x) = false); [|congruence].
  eapply (sole_others _ _ u t y x (vi_gate _ Hinv)); eauto. by apply resetting_link.
Qed.

Lemma others_inactive u k :
  vt_di x = true → u ≠ t → (tl <$> vts st) !! u = Some k → active k = false.
Proof using Hinv Hx.
  intros Hd Hne Hk. rewrite list_lookup_fmap in Hk. apply fmap_Some in Hk as (y & Hy & ->).
  by eapply (sole_others _ _ t u x y (vi_gate _ Hinv)).
Qed.

Lemma tl_lookup : (tl <$> vts st) !! t = Some (tl x).
Proof using Hx. by rewrite list_lookup_fmap, Hx. Qed.

(** An owner alone on the timeline has caught up when it reserves. *)
Lemma sole_reserve c :
  vt_di x = true → tl x = TReserve c → read_ts_ s + 1 = write_ts_ s.
Proof using Hinv Hx.
  intros Hd Hc.
  assert (Ht : timeline s (tl <$> vts st)) by (apply active_timeline; by rewrite Hc).
  pose proof (tl_range _ _ Ht). destruct (decide (read_ts_ s + 1 < write_ts_ s)) as [Hlt|]; [|lia].
  pose proof (sole_caught_up s _ t (tl x) Ht tl_lookup) as Hsc. rewrite Hc in Hsc.
  ospecialize* Hsc; [|done..]. intros u k Hne Hk. by eapply others_inactive.
Qed.

Lemma inv_time_view : time_view s x.
Proof using Hinv Hx.
  assert (Hact : ∀ c, tl x = TReserve c → timeline s (tl <$> vts st)).
  { intros c Hc. apply active_timeline; by rewrite Hc. }
  split.
  - intros c Hc. pose proof (tl_range _ _ (Hact c Hc)). lia.
  - intros c Hc. rewrite <- Hc. apply (tl_pc _ _ (Hact c Hc)), list_elem_of_lookup.
    eauto using tl_lookup.
  - intros c Hd Hc. by eapply sole_reserve.
  - intros a Hd Hp. destruct (vi_sole _ Hinv t x a Hx Hd Hp) as [Hr Hw].
    assert (Ht : timeline s (tl <$> vts st)) by (apply active_timeline; by destruct (tl x)).
    pose proof (tl_range _ _ Ht). unfold s in *. lia.
  - intros Hd. unfold s. destruct (gate_decode _ _ (vi_gate _ Hinv)) as (_ & -> & _).
    eapply (gi_di _ _ (vi_gate _ Hinv) x); [|done]. apply list_elem_of_lookup. eauto.
Qed.
End preserve.

(** Moves of the owner of the reset, and of a thread that becomes pending. *)
Lemma move_reset s l s' c :
  tmove s l (TReset c) s' → (∀ c', l = TReset c' → reset_ok s c') → reset_ok s' c.
Proof.
  intros Hm Hold. remember (TReset c) as l' eqn:El.
  destruct Hm as [l s' [Hsame _]| | | | | |ts d c1 c2 s' _| | | | |o ts c1 c2 s' Hc1 E|]; simplify_eq.
  - eapply same_reset_ok; [done|by apply Hold].
  - by destruct c2.
  - done.
  - specialize (Hold _ eq_refl). destruct Hc1 as [->|[->| ->]]; cbn in E; simplify_eq; cbn in *; intuition.
Qed.

Lemma move_pending s l l' s' a :
  tmove s l l' s' → pending l' = Some a →
  (∃ o c, l = TReserve c ∧ ReserveWriteTimestamp o c s = (s', Return (kReserved a))) ∨
  (pending l = Some a ∧ read_ts_ s' = read_ts_ s ∧ write_ts_ s' = write_ts_ s).
Proof.
  intros Hm Hp. destruct Hm as [l s' [(Ew & Er & _) _]|s' [E _]|o c c' s' E|o c ts s' E|o c r s' E Hr| |ts d c c' s' E
                 |ts d c s' E|E| | |o ts c c' s' Hc E|]; cbn in *; simplify_eq.
  - by right.
  - left. eauto.
  - by right.
  - right. destruct c as [| | |[]|]; cbn in E; repeat case_bool; simplify_eq/=; done.
Qed.

(** The timeline after a step that leaves no reset in progress. *)
Lemma timeline_step st t x x' s' :
  vm_inv st → vts st !! t = Some x → tmove (vs st) (tl x) (tl x') s' →
  gate_inv (gate_ s') (<[t:=x']> (vts st)) →
  resetting (tl x') = false →
  (∀ u y, u ≠ t → vts st !! u = Some y → resetting (tl y) = false) →
  timeline s' (<[t:=tl x']> (tl <$> vts st)).
Proof.
  intros Hinv Hx Hm Hg' Hr' Hothers.
  pose proof (tl_lookup st t x Hx) as Hl.
  destruct (resetting (tl x)) eqn:Hr.
  - pose proof (resetting_link x Hr) as Hd.
    destruct (tl x) as [| | | | |c] eqn:Htl; try done.
    pose proof (vi_reset _ Hinv t x c Hx Htl) as Hro.
    remember (tl x') as l' eqn:El. remember (TReset c) as l eqn:El0.
    destruct Hm as [| | | | | |ts d c1 c2 ? ?|ts d c1 ? ?| | | |? ? ? ? ? ?|]; simplify_eq; try done.
    + by destruct c1.
    + by destruct c1.
    + cbn in Hro. destruct Hro as (? & ? & ? & ?). eapply (timeline_fresh _ _ 0); try done.
      intros k Hk. apply list_elem_of_lookup in Hk as [u Hu].
      apply list_lookup_insert_Some in Hu as [(_&<-&_)|(Hne&Hu)]; [done|].
      by eapply (others_inactive st t x).
  - eapply tmove_timeline; [|apply (vi_lock _ Hinv)|done|done| | |done].
    + apply (vi_time _ Hinv). intros u y Hy. destruct (decide (u = t)) as [->|]; [congruence|eauto].
    + intros u k Hd Hne Hk. rewrite list_lookup_fmap in Hk. apply fmap_Some in Hk as (y & Hy & ->).
      eapply (sole_others _ _ t u x' y Hg'); [|by apply dirty_link|done|].
      * apply list_lookup_insert_eq. eauto using lookup_lt_Some.
      * by rewrite list_lookup_insert_ne.
    + intros ts Hts. destruct (vi_sole _ Hinv t x ts Hx) as [Hrd _]; [|by rewrite Hts|lia].
      apply dirty_link. by rewrite Hts.
Qed.

Lemma vm_trans_inv st st' : vm_inv st → vm_trans st st' → vm_inv st'.
Proof.
  intros Hinv Htr. destruct Htr as [s ts t x cmd o x' s' Hx Hs].
  set (st := VmState s ts) in *.
  assert (Hxin : x ∈ ts) by (apply list_elem_of_lookup; eauto).
  destruct (vm_step_ok cmd o x s x' s') as (Hleg & Hok' & Hm); [|by apply (vi_ok _ Hinv)| |done|].
  { eapply gate_inv_view; [apply (vi_gate _ Hinv)|done]. }
  { by apply (inv_time_view st t x). }
  assert (Hg' : gate_inv (gate_ s') (<[t:=x']> ts)) by (by eapply legal_step_inv; [apply (vi_gate _ Hinv)|..]).
  assert (Htl : (<[t:=x']> ts) !! t = Some x') by (apply list_lookup_insert_eq; eauto using lookup_lt_Some).
  (** a drained owner elsewhere: this step leaves the timeline alone *)
  assert (Hfar : ∀ u y, u ≠ t → ts !! u = Some y → vt_di y = true → same_timeline s s').
  { intros u y Hne Hy Hd. eapply inactive_move; [done| |].
    - by eapply (sole_others _ _ u t y x (vi_gate _ Hinv)).
    - eapply (sole_others _ _ u t y x' Hg'); eauto. by rewrite list_lookup_insert_ne. }
  (** a pending thread that owns the gate after the step owned it before *)
  assert (Hback : active (tl x) = true → vt_di x' = true → vt_di x = true).
  { intros Ha Hd. destruct (ls_di _ _ _ _ Hleg Hd) as [_ [|Hz]]; [done|].
    destruct (active_link x Ha) as [Hin|]; [|done].
    pose proof (gv_inserter _ _ (gate_inv_view _ _ t x (vi_gate _ Hinv) Hx) Hin). cbn in *. lia. }
  assert (Hcase : ∀ u y, <[t:=x']> ts !! u = Some y → (u = t ∧ y = x') ∨ (u ≠ t ∧ ts !! u = Some y)).
  { intros u y Hu. apply list_lookup_insert_Some in Hu as [(->&->&_)|(Hne&Hu)]; auto. }
  split; cbn.
  - done.
  - intros y Hy. apply list_elem_of_lookup in Hy as [u Hu].
    destruct (Hcase u y Hu) as [[_ ->]|[_ Hu']]; [done|]. apply (vi_ok _ Hinv), list_elem_of_lookup. eauto.
  - rewrite list_fmap_insert. eapply tmove_lock; [apply (vi_lock _ Hinv)|by apply (tl_lookup st)|done].
  - intros Hnr. rewrite list_fmap_insert. apply (timeline_step st t x x'); try done.
    + by apply (Hnr t).
    + intros u y Hne Hy. apply (Hnr u). by rewrite list_lookup_insert_ne.
  - intros u y c Hu Hc. destruct (Hcase u y Hu) as [[-> ->]|[Hne Hu']].
    + rewrite Hc in Hm. eapply move_reset; [done|]. intros c' Hc'. by eapply (vi_reset _ Hinv t x).
    + eapply same_reset_ok; [|by eapply (vi_reset _ Hinv u y)].
      eapply (Hfar u y); [done..|]. apply resetting_link. by rewrite Hc.
  - intros u y a Hu Hd Hp. destruct (Hcase u y Hu) as [[-> ->]|[Hne Hu']].
    + destruct (move_pending _ _ _ _ _ Hm Hp) as [(o' & c & Hl & Hr)|(Hl & -> & ->)].
      * assert (Hdx : vt_di x = true) by (apply Hback; [by rewrite Hl|done]).
        pose proof (sole_reserve st t x Hinv Hx c Hdx Hl).
        destruct (inv_time_view st t x Hinv Hx) as [Hrg Hpc _ _ _]. specialize (Hrg c Hl). specialize (Hpc c Hl).
        destruct (reserved_at _ _ _ _ _ Hpc Hr) as (-> & -> & ->). cbn in *.
        rewrite u32_succ by lia. lia.
      * eapply (vi_sole _ Hinv t x); [done| |done]. apply Hback; [by destruct (tl x)|done].
    + destruct (Hfar u y Hne Hu' Hd) as (-> & -> & _). by eapply (vi_sole _ Hinv u y).
Qed.
