(* ===== verification/VersionProperties.v ===== *)
(** * Guarantees of the version manager

    The properties of the reachable states of VersionThreads' system, obtained
    from the invariant of VersionSystem, and the sequential specification of
    the advance of the read timestamp. *)

From stdpp Require Import functions.
From S2P Require Import Prelude GateWord OperationGate GateProtocol TimestampWindow VersionManager VersionThreads Timeline VersionSystem.
Import OperationGateWord OperationGate GateSteps VersionManager TimestampWindow.

Definition vm_reachable (view : PublishedReadView) (n : nat) (st : vm_state) : Prop :=
  ∃ st0, vm_initial view n st0 ∧ star vm_trans st0 st.

(** Initial views are well typed and there are fewer callers than the reader
    counter can hold. *)
Definition vm_config (view : PublishedReadView) (n : nat) : Prop :=
  is_u32 (visibility_ts view) ∧ Z.of_nat n ≤ kMaxReaderCount.

Lemma vm_initial_inv view n st : vm_config view n → vm_initial view n st → vm_inv st.
Proof.
  intros [Hv Hn] [Hi Hts]. destruct st as [s ts]. cbn in *. subst ts.
  unfold init_ts in Hi. case_bool; simplify_eq. bool_to_prop.
  assert (Hrep : ∀ x, x ∈ replicate n VIdle → x = VIdle) by (intros x Hx; by apply elem_of_replicate in Hx as [-> _]).
  assert (Htl : ∀ k, k ∈ tl <$> replicate n VIdle → k = TNone).
  { intros k Hk. apply list_elem_of_fmap in Hk as (y & -> & Hy). by rewrite (Hrep y Hy). }
  assert (Hl : ∀ u y, replicate n VIdle !! u = Some y → y = VIdle).
  { intros u y Hy. apply Hrep, list_elem_of_lookup. eauto. }
  unfold is_u32, U32_MAX in *.
  split; cbn.
  - split; rewrite ?zsum_zero; try done; try (intros x Hx; by rewrite (Hrep x Hx)).
    by rewrite length_replicate.
  - intros x Hx. by rewrite (Hrep x Hx).
  - unfold lock_inv. cbn. apply zsum_zero. intros k Hk. by rewrite (Htl k Hk).
  - intros _. eapply (timeline_fresh _ _ (visibility_ts view) (snapshot_generation view)); cbn; try done.
    all: try (intros k Hk; by rewrite (Htl k Hk)).
    all: try (unfold U32_MAX; lia).
    all: try (apply u32_id; unfold is_u32; lia).
    all: try (by destruct view).
  - intros u y c Hy. by rewrite (Hl u y Hy).
  - intros u y a Hy. by rewrite (Hl u y Hy).
Qed.

Lemma vm_reachable_inv view n st : vm_config view n → vm_reachable view n st → vm_inv st.
Proof.
  intros Hc (st0 & Hi & Hs). eapply star_invariant; eauto using vm_trans_inv, vm_initial_inv.
Qed.

Definition no_reset (st : vm_state) : Prop := ∀ x, x ∈ vts st → resetting (tl x) = false.

Lemma inv_timeline st : vm_inv st → no_reset st → timeline (vs st) (tl <$> vts st).
Proof. intros Hi Hn. apply (vi_time _ Hi). intros u y Hy. apply Hn, list_elem_of_lookup. eauto. Qed.

(** ** Monotonicity *)

Lemma tmove_mono s ls l l' s' :
  timeline s ls → l ∈ ls → tmove s l l' s' → resetting l' = false →
  read_ts_ s ≤ read_ts_ s' ∧ write_ts_ s ≤ write_ts_ s'.
Proof.
  intros Ht Hl Hm Hr. pose proof (tl_range _ _ Ht) as Hrg. pose proof (tl_pc _ _ Ht l Hl) as Hpc.
  assert (En : u32 (read_ts_ s + 1) = read_ts_ s + 1) by (apply u32_succ; lia).
  destruct Hm as [l s' [(Ew & Er & _) _]|s' [(Ew & Er & _) _]|o c c' s' E|o c ts s' E|o c r s' E Hr0| |ts d c c' s' E
                 |ts d c s' E|E| | |o ts c c' s' Hc E|]; try done; cbn; try lia.
  - destruct (reserve_pc_ok s ls o c c' s' Ht Hpc E) as [-> ?]. lia.
  - destruct (reserved_at s o c ts s' Hpc E) as (-> & -> & ->). cbn in *. rewrite u32_succ; lia.
  - rewrite (refused_same s o c r s' E Hr0). lia.
  - destruct c as [| | |[]|]; cbn in E, Hpc; repeat case_bool; simplify_eq/=; try lia.
  - destruct c as [| | |[]|]; cbn in E; repeat case_bool; simplify_eq/=; lia.
Qed.

Definition vm_trans_no_reset (st st' : vm_state) : Prop := vm_trans st st' ∧ no_reset st'.

Lemma run_mono st st' :
  vm_inv st → no_reset st → star vm_trans_no_reset st st' →
  vm_inv st' ∧ no_reset st' ∧
  read_ts_ (vs st) ≤ read_ts_ (vs st') ∧ write_ts_ (vs st) ≤ write_ts_ (vs st').
Proof.
  intros Hi Hn Hs. revert Hi Hn.
  induction Hs as [|a b c Hs IH [Htr Hnr]]; intros Hi Hn; [split_and!; done || lia|].
  destruct (IH Hi Hn) as (Hib & Hnb & Hr & Hw). pose proof (vm_trans_inv _ _ Hib Htr) as Hic.
  split_and!; try done; destruct Htr as [s ts t x cmd o x' s' Hx Hstep]; cbn in *.
  all: destruct (vm_step_ok cmd o x s x' s') as (_ & _ & Hm);
    [eapply gate_inv_view; [apply (vi_gate _ Hib)|done]
    |apply (vi_ok _ Hib), list_elem_of_lookup; eauto
    |by apply (inv_time_view _ t x Hib)|done|].
  all: assert (Hx' : x' ∈ <[t:=x']> ts) by (apply list_elem_of_lookup; exists t;
    apply list_lookup_insert_eq; eauto using lookup_lt_Some).
  all: destruct (tmove_mono s (tl <$> ts) (tl x) (tl x') s') as [??]; eauto; try lia.
  all: first [apply (inv_timeline _ Hib Hnb)
             |apply list_elem_of_fmap; exists x; split; [done|]; apply list_elem_of_lookup; eauto].
Qed.

(** ** Concrete runs *)

Definition vm_start (view : PublishedReadView) (n : nat) : vm_state :=
  VmState (match init_ts view vm_default with Ok s => s | Throw _ => vm_default end)
          (replicate n VIdle).
Definition no_resetb (st : vm_state) : bool := forallb (λ x, negb (resetting (tl x))) (vts st).
Fixpoint run_no_resetb (sched : list (nat * vm_cmd * oracle)) (st : vm_state) : bool :=
  match sched with
  | [] => true
  | a :: sched => no_resetb (vm_run [a] st) && run_no_resetb sched (vm_run [a] st)
  end.

Lemma no_resetb_true st : no_resetb st = true → no_reset st.
Proof.
  unfold no_resetb. rewrite forallb_forall. intros H x Hx.
  specialize (H x). rewrite <- list_elem_of_In in H. specialize (H Hx). by destruct (resetting (tl x)).
Qed.

Lemma vm_start_reachable view n sched :
  visibility_ts view <> U32_MAX → vm_reachable view n (vm_run sched (vm_start view n)).
Proof.
  intros Hv. exists (vm_start view n). split; [|apply vm_run_star].
  unfold vm_initial, vm_start, init_ts. by rewrite (proj2 (Z.eqb_neq _ _) Hv).
Qed.

Lemma vm_run_star_no_reset sched st :
  run_no_resetb sched st = true → star vm_trans_no_reset st (vm_run sched st).
Proof.
  revert st. induction sched as [|[[t cmd] o] sched IH]; intros st H; [constructor|].
  cbn [run_no_resetb] in H. apply andb_true_iff in H as [Hn H].
  change (vm_run ((t, cmd, o) :: sched) st) with (vm_run sched (vm_run [(t, cmd, o)] st)).
  eapply star_trans; [|by apply IH]. clear IH H.
  apply no_resetb_true in Hn. revert Hn. cbn.
  destruct (vts st !! t) as [x|] eqn:Hx; [|constructor].
  destruct (vm_step cmd o x (vs st)) as [x' s'] eqn:Hs. intros Hn.
  eapply star_snoc; [constructor|]. split; [|done]. destruct st. by econstructor.
Qed.

Definition steps (k t : nat) (cmd : vm_cmd) : list (nat * vm_cmd * oracle) :=
  replicate k (t, cmd, Oracle false false).

(** ** The packed read view *)

Lemma pack_view_sum v g :
  is_u32 v → PackPublishedReadView (ReadView v g) = u32 g * 2^32 + v.
Proof.
  unfold is_u32. intros Hv. unfold PackPublishedReadView, u64. cbn -[Z.pow Z.shiftl].
  rewrite Z.shiftl_mul_pow2 by lia.
  replace ((g * 2^32) `mod` 2^64) with (u32 g * 2^32) by (unfold u32; dlia).
  rewrite <- Z.shiftl_mul_pow2, <- Z.add_lor_land by lia.
  replace (Z.land (u32 g ≪ 32) v) with 0; [lia|].
  symmetry. apply Z.bits_inj'. intros i Hi. rewrite Z.land_spec, Z.bits_0.
  destruct (decide (i < 32)).
  - rewrite Z.shiftl_spec_low by lia. done.
  - replace (Z.testbit v i) with false; [by rewrite andb_false_r|].
    symmetry. apply (Z.bounded_iff_bits_nonneg 32 v); lia.
Qed.

Lemma unpack_pack v g :
  is_u32 v → UnpackPublishedReadView (PackPublishedReadView (ReadView v g)) = ReadView v (u32 g).
Proof.
  intros Hv. rewrite pack_view_sum by done. unfold UnpackPublishedReadView.
  rewrite Z.shiftr_div_pow2 by lia. unfold is_u32 in Hv. pose proof (u32_range g) as Hg.
  unfold is_u32 in Hg. f_equal; unfold u32 in *; dlia.
Qed.

(** Packing a read view into one 64-bit word and unpacking it
    gives the view back, and packing is injective on well-typed views; the
    packed word fits in 64 bits. *)
Theorem read_view_roundtrip (view : PublishedReadView) :
  is_u32 (visibility_ts view) → is_u32 (snapshot_generation view) →
  UnpackPublishedReadView (PackPublishedReadView view) = view ∧
  is_u64 (PackPublishedReadView view).
Proof.
  destruct view as [v g]. cbn. intros Hv Hg. split.
  - by rewrite unpack_pack, u32_id.
  - rewrite pack_view_sum, u32_id by done. unfold is_u32, is_u64 in *. lia.
Qed.

Lemma read_view_roundtrip_witness :
  UnpackPublishedReadView (PackPublishedReadView (ReadView 7 (2^32 - 1))) = ReadView 7 (2^32 - 1) ∧
  is_u64 (PackPublishedReadView (ReadView 7 (2^32 - 1))).
Proof. apply (read_view_roundtrip (ReadView 7 (2^32 - 1))); unfold is_u32; cbn; lia. Defined.

(** ** Reachable states *)

Lemma timeline_held st u y a :
  timeline (vs st) (tl <$> vts st) → vts st !! u = Some y → held (tl y) = Some a →
  read_ts_ (vs st) < a < write_ts_ (vs st) ∧ tok (tl y) = Some a.
Proof.
  intros Ht Hy Ha. assert (tok (tl y) = Some a) by (unfold tok; by rewrite Ha).
  split; [|done]. eapply (tl_tok _ _ Ht (tl y)); [|done].
  apply list_elem_of_fmap. exists y. split; [done|]. apply list_elem_of_lookup. eauto.
Qed.

(** C7: The view a reader loads is complete and stays so: it is
    the published pair, its timestamp is at most the read timestamp, and from
    then on, until a timeline reset, every timestamp any writer holds or has
    yet to complete is larger, so no write becomes visible to the reader later. *)
Theorem reader_view_frozen (view : PublishedReadView) (n : nat) (st st' : vm_state)
    (cmd : vm_cmd) (o : oracle) (v : PublishedReadView) (s1 : vm) :
  vm_config view n → vm_reachable view n st → no_reset st →
  vm_step cmd o (VReadOp RO_load) (vs st) = (VReader v, s1) →
  star vm_trans_no_reset st st' →
  s1 = vs st ∧ visibility_ts v ≤ read_ts_ (vs st) ∧
  ∀ u y a, vts st' !! u = Some y → held (tl y) = Some a → visibility_ts v < a.
Proof.
  intros Hc Hr Hn Hs Hrun. pose proof (vm_reachable_inv _ _ _ Hc Hr) as Hi.
  cbn in Hs. simplify_eq.
  pose proof (inv_timeline _ Hi Hn) as Ht. pose proof (tl_range _ _ Ht).
  destruct (tl_pub _ _ Ht) as (v & g & -> & Hv & _).
  rewrite unpack_pack by (unfold is_u32, U32_MAX in *; lia). cbn.
  destruct (run_mono _ _ Hi Hn Hrun) as (Hi' & Hn' & Hrd & _). split_and!; [done|lia|].
  intros u y a Hy Ha. destruct (timeline_held st' u y a (inv_timeline _ Hi' Hn') Hy Ha). lia.
Qed.

(** A reader loads its view while a writer holds the next timestamp; the writer
    then completes it and another one starts. *)
Lemma reader_view_frozen_witness :
  let st := vm_run (steps 6 1 CInsert ++ steps 3 0 CRead) (vm_start (ReadView 5 3) 3) in
  let st' := vm_run (steps 20 1 CInsert ++ steps 6 2 CInsert) st in
  vts st !! 0%nat = Some (VReadOp RO_load) ∧ vts st' !! 2%nat = Some (VInserter 8) ∧
  (vs st = vs st ∧ visibility_ts (ReadView 5 3) ≤ read_ts_ (vs st) ∧
   ∀ u y a, vts st' !! u = Some y → held (tl y) = Some a → visibility_ts (ReadView 5 3) < a).
Proof.
  split; [vm_compute; reflexivity|]. split; [vm_compute; reflexivity|].
  apply (reader_view_frozen (ReadView 5 3) 3
    (vm_run (steps 6 1 CInsert ++ steps 3 0 CRead) (vm_start (ReadView 5 3) 3))
    (vm_run (steps 20 1 CInsert ++ steps 6 2 CInsert)
      (vm_run (steps 6 1 CInsert ++ steps 3 0 CRead) (vm_start (ReadView 5 3) 3)))
    CRead (Oracle false false)).
  - split; vm_compute; intuition congruence.
  - apply vm_start_reachable. vm_compute. discriminate.
  - apply no_resetb_true. vm_compute. reflexivity.
  - vm_compute. reflexivity.
  - apply vm_run_star_no_reset. vm_compute. reflexivity.
Defined.

(** Nobody on the timeline: everything reserved is readable and published. *)
Lemma idle_caught_up st : vm_inv st → (∀ x, x ∈ vts st → active (tl x) = false) →
  timeline (vs st) (tl <$> vts st) ∧ read_ts_ (vs st) + 1 = write_ts_ (vs st) ∧
  UnpackPublishedReadView (published_read_view_ (vs st)) =
    ReadView (read_ts_ (vs st)) (u32 (installed_snapshot_generation_ (vs st))).
Proof.
  intros Hi Hq. assert (Ht : timeline (vs st) (tl <$> vts st)).
  { apply inv_timeline; [done|]. intros x Hx. specialize (Hq x Hx). by destruct (tl x). }
  assert (Hall : ∀ l, l ∈ tl <$> vts st → active l = false).
  { intros l Hl. apply list_elem_of_fmap in Hl as (y & -> & Hy). auto. }
  pose proof (tl_range _ _ Ht). split; [done|]. split.
  - destruct (decide (read_ts_ (vs st) + 1 = write_ts_ (vs st))) as [|Hne]; [done|exfalso].
    assert (Hno : ∀ l r, l ∈ tl <$> vts st → tok l = None ∧ resp r l = false)
      by (intros l r Hl; destruct (inactive_facts l r (Hall l Hl)) as (?&?&_); done).
    destruct (tl_cover _ _ Ht (read_ts_ (vs st) + 1)) as [Hw|(l & Hl & Hk)]; [lia| |].
    + destruct (tl_resp _ _ Ht Hw) as (l & Hl & Hk).
      destruct (Hno l (read_ts_ (vs st)) Hl). congruence.
    + destruct (Hno l 0 Hl). congruence.
  - destruct (tl_pub _ _ Ht) as (v & g & -> & Hv & Hva & Hg).
    rewrite <- Hva, <- Hg.
    + apply unpack_pack. unfold is_u32, U32_MAX in *. lia.
    + intros l Hl. apply (inactive_facts l 0 (Hall l Hl)).
    + intros l Hl. apply (inactive_facts l 0 (Hall l Hl)).
Qed.

(** No completed write is left unpublished: whenever no
    thread is reserving, holding or completing a timestamp, every reserved
    timestamp is readable and the published view is the current read timestamp
    with the installed snapshot generation. *)
Theorem quiescent_caught_up (view : PublishedReadView) (n : nat) (st : vm_state) :
  vm_config view n → vm_reachable view n st →
  (∀ x, x ∈ vts st → active (tl x) = false) →
  read_ts_ (vs st) + 1 = write_ts_ (vs st) ∧
  UnpackPublishedReadView (published_read_view_ (vs st)) =
    ReadView (read_ts_ (vs st)) (u32 (installed_snapshot_generation_ (vs st))).
Proof. intros Hc Hr Hq. by apply idle_caught_up; [eapply vm_reachable_inv|]. Qed.

(** Two inserters complete out of order; a third caller has only started. *)
Lemma quiescent_caught_up_witness :
  let st := vm_run (steps 6 0 CInsert ++ steps 6 1 CInsert ++ steps 7 1 CInsert ++ steps 18 0 CInsert)
              (vm_start (ReadView 5 3) 2) in
  read_ts_ (vs st) = 7 ∧
  (read_ts_ (vs st) + 1 = write_ts_ (vs st) ∧
   UnpackPublishedReadView (published_read_view_ (vs st)) =
     ReadView (read_ts_ (vs st)) (u32 (installed_snapshot_generation_ (vs st)))).
Proof.
  split; [vm_compute; reflexivity|].
  apply (quiescent_caught_up (ReadView 5 3) 2).
  - split; vm_compute; intuition congruence.
  - apply vm_start_reachable. vm_compute. discriminate.
  - apply Forall_forall. vm_compute. repeat constructor.
Defined.

(** C32: Two threads never hold the same write timestamp, every
    held timestamp lies strictly between the read and the next write timestamp,
    the window of outstanding timestamps is bounded, and the slot a holder will
    mark is free: marking never overwrites another completion. *)
Theorem write_timestamps_unique (view : PublishedReadView) (n : nat) (st : vm_state)
    (t u : nat) (x y : vm_thread) (a b : Z) :
  vm_config view n → vm_reachable view n st → no_reset st →
  vts st !! t = Some x → vts st !! u = Some y →
  held (tl x) = Some a → held (tl y) = Some b →
  (a = b → t = u) ∧ read_ts_ (vs st) < a < write_ts_ (vs st) ∧
  write_ts_ (vs st) - read_ts_ (vs st) ≤ kWindowSize + 1 ∧
  ts_window_ (vs st) (ts_index a) = 0.
Proof.
  intros Hc Hr Hn Hx Hy Ha Hb. pose proof (vm_reachable_inv _ _ _ Hc Hr) as Hi.
  pose proof (inv_timeline _ Hi Hn) as Ht. pose proof (tl_range _ _ Ht).
  destruct (timeline_held st t x a Ht Hx Ha) as [Hra Hta].
  destruct (timeline_held st u y b Ht Hy Hb) as [_ Htb].
  split_and!; try lia.
  - intros ->. eapply (tl_uniq _ _ Ht t u (tl x) (tl y) b); rewrite ?list_lookup_fmap, ?Hx, ?Hy; done.
  - eapply mark_slot_free; [done| |done].
    apply list_elem_of_fmap. exists x. split; [done|]. apply list_elem_of_lookup. eauto.
Qed.

Lemma write_timestamps_unique_witness :
  let st := vm_run (steps 6 0 CInsert ++ steps 6 1 CInsert) (vm_start (ReadView 5 3) 2) in
  (6 = 7 → 0%nat = 1%nat) ∧ read_ts_ (vs st) < 6 < write_ts_ (vs st) ∧
  write_ts_ (vs st) - read_ts_ (vs st) ≤ kWindowSize + 1 ∧
  ts_window_ (vs st) (ts_index 6) = 0.
Proof.
  apply (write_timestamps_unique (ReadView 5 3) 2
    (vm_run (steps 6 0 CInsert ++ steps 6 1 CInsert) (vm_start (ReadView 5 3) 2)) 0 1
    (VInserter 6) (VInserter 7)).
  - split; vm_compute; intuition congruence.
  - apply vm_start_reachable. vm_compute. discriminate.
  - apply no_resetb_true. vm_compute. reflexivity.
  - vm_compute. reflexivity.
  - vm_compute. reflexivity.
  - reflexivity.
  - reflexivity.
Defined.

(** C33: An update that has its timestamp runs without admitted inserters
    and without a second update or compaction; one that has drained the readers,
    and every compaction, also runs without admitted readers. *)
Theorem update_excludes (view : PublishedReadView) (n : nat) (st : vm_state)
    (t u : nat) (x y : vm_thread) :
  vm_config view n → vm_reachable view n st →
  vts st !! t = Some x → vts st !! u = Some y → u ≠ t → vt_di x = true →
  vt_ins y = 0 ∧ vt_own y = None ∧ held (tl y) = None ∧ (vt_dr x = true → vt_adm y = 0).
Proof.
  intros Hc Hr Hx Hy Hne Hd. pose proof (vm_reachable_inv _ _ _ Hc Hr) as Hi.
  pose proof (vi_gate _ Hi) as Hg.
  assert (Hxin : x ∈ vts st) by (apply list_elem_of_lookup; eauto).
  assert (Hyin : y ∈ vts st) by (apply list_elem_of_lookup; eauto).
  split_and!.
  - pose proof (gi_di _ _ Hg x Hxin Hd).
    pose proof (zsum_elem_le ins (vts st) y (λ z _, proj1 (ins_law z)) Hyin).
    pose proof (ins_law y). cbn in *. lia.
  - destruct (vt_own y) eqn:E; [exfalso|done]. apply Hne.
    eapply (owner_unique _ _ u t y x Hg); eauto; [cbn; congruence|by apply di_law].
  - pose proof (sole_others _ _ t u x y Hg Hx Hd Hne Hy) as Ha. by destruct (tl y).
  - intros Hdr. by apply (drained_exclusive _ _ t x Hg Hx Hd Hdr u y Hy).
Qed.

(** A compaction holds its timestamp while a reader is backing off. *)
Lemma update_excludes_witness :
  let st := vm_run (steps 2 1 CRead ++ steps 8 0 CCompact ++ steps 1 1 CRead)
              (vm_start (ReadView 5 3) 2) in
  vts st !! 0%nat = Some (VCmp 6) ∧
  (vt_ins (VReadOp (RO_admit (AS_rollback false))) = 0 ∧
   vt_own (VReadOp (RO_admit (AS_rollback false))) = None ∧
   held (tl (VReadOp (RO_admit (AS_rollback false)))) = None ∧
   (vt_dr (VCmp 6) = true → vt_adm (VReadOp (RO_admit (AS_rollback false))) = 0)).
Proof.
  split; [vm_compute; reflexivity|].
  apply (update_excludes (ReadView 5 3) 2
    (vm_run (steps 2 1 CRead ++ steps 8 0 CCompact ++ steps 1 1 CRead)
              (vm_start (ReadView 5 3) 2)) 0 1).
  - split; vm_compute; intuition congruence.
  - apply vm_start_reachable. vm_compute. discriminate.
  - vm_compute. reflexivity.
  - vm_compute. reflexivity.
  - discriminate.
  - reflexivity.
Defined.

(** ** Which exceptions a caller can get *)

(** A caller whose reservation was refused because the timestamps are used up. *)
Definition out_of_timestamps (x : vm_thread) : bool :=
  match x with
  | VInsOp (AIT_release ex _) => ex
  | VUpdOp (AU_reserve (RU_reopen full _)) | VUpdUntilOp (AUU_reserve (RU_reopen full _))
  | VTryOp (TA_reserve (RU_reopen full _)) | VCmpOp (AC_back full _) => negb full
  | _ => false
  end.

Lemma refused_exhausted o c s s' :
  write_ts_ s ≤ U32_MAX → pc_ok s (TReserve c) →
  ReserveWriteTimestamp o c s = (s', Return kExhausted) → write_ts_ s = U32_MAX.
Proof.
  intros Hw Hpc Hs. destruct c; cbn in *; repeat case_bool; simplify_eq; bool_to_prop; lia.
Qed.

(** The gate and the completion of a timestamp never raise that runtime error. *)
Definition mild {A pc R} (r : A * ctl pc R) : Prop := r.2 ≠ Raise RuntimeFailure.

Lemma on_gate_mild {pc R} (m : Z → Z * ctl pc R) s : mild (m (gate_ s)) → mild (on_gate m s).
Proof. unfold mild, on_gate. by destruct (m (gate_ s)). Qed.

Lemma embed_mild {pc pc' R R'} (inj : pc → pc') (ret : R → ctl pc' R') r :
  mild r → (∀ v, ret v ≠ Raise RuntimeFailure) → mild (embed inj ret r).
Proof. unfold mild. destruct r as [s []]; cbn; intros; naive_solver. Qed.

Create HintDb mild.
#[local] Hint Resolve on_gate_mild : mild.

Ltac mild_cases := intros; unfold mild; repeat case_bool_decide; repeat case_bool; done.

Lemma acquire_shared_mild o c w : mild (acquire_shared o c w).
Proof. destruct c; cbn; mild_cases. Qed.
Lemma release_shared_mild o c w : mild (release_shared o c w).
Proof. destruct c; cbn; mild_cases. Qed.
Lemma acquire_inserter_mild o c w : mild (acquire_inserter o c w).
Proof. destruct c; cbn; unfold cas; mild_cases. Qed.
Lemma release_inserter_mild o c w : mild (release_inserter o c w).
Proof. destruct c; cbn; mild_cases. Qed.
Lemma enter_phase_mild d o c w : mild (enter_phase d o c w).
Proof. destruct c; cbn; unfold try_change_phase, cas; mild_cases. Qed.
Lemma transition_phase_mild a d o c w : mild (transition_phase a d o c w).
Proof. destruct c; cbn; unfold try_change_phase, cas; mild_cases. Qed.
Lemma reopen_mild o c w : mild (reopen o c w).
Proof. destruct c; cbn; unfold try_change_phase, cas; mild_cases. Qed.
Lemma enter_phase_until_mild d o c w : mild (enter_phase_until d o c w).
Proof.
  destruct c; cbn; unfold try_change_phase, cas; try mild_cases.
  pose proof (reopen_mild o c w). unfold mild in *. destruct (reopen o c w) as [? []]; cbn in *; congruence.
Qed.
Lemma try_enter_phase_mild d o c w : mild (try_enter_phase d o c w).
Proof. destruct c; cbn; unfold cas; mild_cases. Qed.
Lemma wait_readers_mild o c w : mild (wait_readers_drained o c w).
Proof. unfold wait_readers_drained. mild_cases. Qed.
Lemma wait_inserters_mild o c w : mild (wait_inserters_drained o c w).
Proof. unfold wait_inserters_drained. mild_cases. Qed.
Lemma wait_inserters_until_mild o c w : mild (wait_inserters_drained_until o c w).
Proof. destruct c; cbn; mild_cases. Qed.
Lemma complete_mild ts c s : mild (complete_write_timestamp ts c s).
Proof. destruct c as [| | |[]|]; cbn; mild_cases. Qed.
#[local] Hint Resolve acquire_shared_mild release_shared_mild acquire_inserter_mild
  release_inserter_mild enter_phase_mild transition_phase_mild reopen_mild enter_phase_until_mild
  try_enter_phase_mild wait_readers_mild wait_inserters_mild wait_inserters_until_mild
  complete_mild : mild.

(** Where a step of a caller leads. *)
Definition leads (s : vm) (x x' : vm_thread) : Prop :=
  (x' = VFailed RuntimeFailure → x = x' ∨ out_of_timestamps x = true) ∧
  (out_of_timestamps x' = true → out_of_timestamps x = true ∨ write_ts_ s = U32_MAX).

Lemma run_leads {pc R} s x (inj : pc → vm_thread) (ret : R → vm_thread) (r : vm * ctl pc R) :
  (∀ c, inj c ≠ VFailed RuntimeFailure) → (∀ v, ret v ≠ VFailed RuntimeFailure) →
  (∀ v, out_of_timestamps (ret v) = false) →
  (r.2 = Raise RuntimeFailure → out_of_timestamps x = true) →
  (∀ c, r.2 = Goto c → out_of_timestamps (inj c) = true →
     out_of_timestamps x = true ∨ write_ts_ s = U32_MAX) →
  leads s x (run inj ret r).1.
Proof.
  intros Hi Hr Ho Hraise Hgoto. destruct r as [s' [c|v|e]]; cbn in *; split; intros E.
  - by destruct (Hi c).
  - by eapply Hgoto.
  - by destruct (Hr v).
  - rewrite Ho in E. done.
  - simplify_eq. right. auto.
  - done.
Qed.

(** A method that neither raises the error nor refuses a reservation. *)
Lemma mild_leads {pc R} s x (inj : pc → vm_thread) (ret : R → vm_thread) (r : vm * ctl pc R) :
  mild r → (∀ c, inj c ≠ VFailed RuntimeFailure) → (∀ v, ret v ≠ VFailed RuntimeFailure) →
  (∀ v, out_of_timestamps (ret v) = false) → (∀ c, out_of_timestamps (inj c) = false) →
  leads s x (run inj ret r).1.
Proof.
  intros Hm Hi Hr Ho Hc. apply run_leads; try done. intros c _ E. by rewrite Hc in E.
Qed.

Ltac leads_done := unfold mild in *; cbn [embed]; apply run_leads; cbn in *; intros; simplify_eq; try done; try (by case_match); auto.

Section refusals.
Context (s : vm) (o : oracle).

(** A reservation whose refusal shows that the timestamps are used up. *)
Definition refuses_rightly (c : reserve_pc) : Prop :=
  mild (ReserveWriteTimestamp o c s) ∧
  ((ReserveWriteTimestamp o c s).2 = Return kExhausted → write_ts_ s = U32_MAX).

Lemma insert_leads c :
  (∀ r, c = AIT_reserve r → refuses_rightly r) →
  leads s (VInsOp c) (run VInsOp VInserter (acquire_insert_timestamp o c s)).1.
Proof.
  intros Hc. destruct c as [a|r|ex r]; cbn [acquire_insert_timestamp].
  - pose proof (on_gate_mild (acquire_inserter o a) s (acquire_inserter_mild o a _)) as Hm.
    destruct (on_gate _ _) as [s1 [| |e]]; leads_done.
  - destruct (Hc r eq_refl) as [Hm Hx].
    destruct (ReserveWriteTimestamp o r s) as [s1 [|[]|e]]; leads_done.
  - pose proof (on_gate_mild (release_inserter o r) s (release_inserter_mild o r _)) as Hm.
    destruct (on_gate _ _) as [s1 [| |e]], ex; leads_done.
Qed.

(** The reservation shared by the three ways to start an update. *)
Lemma reserve_update_leads r :
  (∀ c, r = RU_reserve c → refuses_rightly c) →
  match (reserve_update_timestamp o r s).2 with
  | Goto (RU_reopen false _) =>
      (∃ p, r = RU_reopen false p) ∨ write_ts_ s = U32_MAX
  | Raise RuntimeFailure => ∃ p, r = RU_reopen false p
  | _ => True
  end.
Proof.
  intros Hc. destruct r as [r|full r]; cbn [reserve_update_timestamp].
  - destruct (Hc r eq_refl) as [Hm Hx].
    destruct (ReserveWriteTimestamp o r s) as [s1 [|[]|[]]]; cbn in *; auto. by destruct Hm.
  - pose proof (on_gate_mild (transition_phase kInsertsBlocked kOpen o r) s
      (transition_phase_mild _ _ o r _)) as Hm.
    destruct (on_gate _ _) as [s1 [| |[]]], full; cbn in *; eauto; by destruct Hm.
Qed.

Ltac gate_case := match goal with |- context [on_gate ?m s] =>
  let Hm := fresh "Hm" in
  assert (Hm : mild (on_gate m s)) by eauto with mild;
  destruct (on_gate m s) as [? [|[]|]] end; leads_done.

Ltac reserve_case Hc := match goal with |- context [reserve_update_timestamp o ?r s] =>
  pose proof (reserve_update_leads r Hc) end;
  destruct (reserve_update_timestamp _ _ _) as [? [[|[]]| |[]]]; leads_done; naive_solver.

Lemma update_leads c :
  (∀ r, c = AU_reserve (RU_reserve r) → refuses_rightly r) →
  leads s (VUpdOp c) (run VUpdOp VUpd (acquire_update_timestamp o c s)).1.
Proof.
  intros Hc. destruct c as [a| |r]; cbn [acquire_update_timestamp]; [gate_case..|].
  assert (Hc' : ∀ c, r = RU_reserve c → refuses_rightly c) by (intros c ->; by apply Hc).
  reserve_case Hc'.
Qed.

Lemma update_until_leads c :
  (∀ r, c = AUU_reserve (RU_reserve r) → refuses_rightly r) →
  leads s (VUpdUntilOp c) (run VUpdUntilOp VUpd (acquire_update_timestamp_until o c s)).1.
Proof.
  intros Hc. destruct c as [a|a| |a|r]; cbn [acquire_update_timestamp_until]; [gate_case..| |gate_case|].
  - case_bool; leads_done.
  - assert (Hc' : ∀ c, r = RU_reserve c → refuses_rightly c) by (intros c ->; by apply Hc).
    reserve_case Hc'.
Qed.

Lemma try_update_leads c :
  (∀ r, c = TA_reserve (RU_reserve r) → refuses_rightly r) →
  leads s (VTryOp c) (run VTryOp (λ r, match r with Some ts => VUpd ts | None => VIdle end)
    (try_acquire_update_timestamp o c s)).1.
Proof.
  intros Hc. destruct c as [a| |a|r]; cbn [try_acquire_update_timestamp]; [gate_case| |gate_case|].
  - case_bool; leads_done.
  - assert (Hc' : ∀ c, r = RU_reserve c → refuses_rightly c) by (intros c ->; by apply Hc).
    reserve_case Hc'.
Qed.

Lemma compact_leads c :
  (∀ r, c = AC_reserve r → refuses_rightly r) →
  leads s (VCmpOp c) (run VCmpOp VCmp (acquire_compact_timestamp o c s)).1.
Proof.
  intros Hc. destruct c as [a| | |r|[] a]; cbn [acquire_compact_timestamp]; [gate_case..| |gate_case|gate_case].
  destruct (Hc r eq_refl) as [Hm Hx].
  destruct (ReserveWriteTimestamp o r s) as [s1 [|[]|e]]; leads_done.
Qed.
End refusals.

(** A runtime error is raised by a refused caller only, and a caller is refused
    only when the next timestamp is the largest one. *)
Lemma runtime_error_step st t x cmd o x' s' :
  vm_inv st → vts st !! t = Some x → vm_step cmd o x (vs st) = (x', s') → leads (vs st) x x'.
Proof.
  intros Hi Hx Hs. destruct (inv_time_view st t x Hi Hx) as [Hrg Hpc _ _ _].
  assert (Hex : ∀ c, tl x = TReserve c → refuses_rightly (vs st) o c).
  { intros c Hc. destruct (Hrg c Hc) as [Hr Hw]. unfold refuses_rightly, mild.
    destruct (ReserveWriteTimestamp o c (vs st)) as [s1 k] eqn:E.
    destruct (reserve_spec o c _ s1 _ Hr Hw (Hpc c Hc) E) as (_ & Hn & _).
    split; [apply Hn|]. cbn. intros Hk. subst k.
    eapply refused_exhausted; [exact Hw|by apply Hpc|exact E]. }
  replace x' with (vm_step cmd o x (vs st)).1 by (by rewrite Hs). clear Hs.
  destruct x; cbn [vm_step].
  - split; by destruct cmd.
  - apply mild_leads; try done. destruct c; cbn; [apply embed_mild; eauto with mild|]; done.
  - split; done.
  - apply mild_leads; try done. eauto with mild.
  - apply insert_leads. intros r ->. by apply Hex.
  - split; done.
  - apply mild_leads; try done. destruct c; cbn; apply embed_mild; eauto with mild; done.
  - apply update_leads. intros r ->. by apply Hex.
  - apply update_until_leads. intros r ->. by apply Hex.
  - apply try_update_leads. intros r ->. by apply Hex.
  - split; by destruct cmd as [| | | | | | | | |[]| |].
  - apply mild_leads; try done. unfold begin_update_commit. eauto with mild.
  - split; by destruct cmd.
  - apply mild_leads; try done. destruct c; cbn; [mild_cases|apply embed_mild; eauto with mild; done].
  - split; by destruct cmd.
  - apply mild_leads; try done. destruct c; cbn; [done|apply embed_mild; eauto with mild; done..].
  - apply mild_leads; try done. destruct c; cbn; try mild_cases. apply embed_mild; eauto with mild; done.
  - apply compact_leads. intros r ->. by apply Hex.
  - split; done.
  - destruct revert; (apply mild_leads; [|done..]); destruct c; cbn; try mild_cases; apply embed_mild; eauto with mild; done.
  - apply mild_leads; try done. destruct c; cbn; try mild_cases; [unfold try_seal_open_state, cas; mild_cases|].
    apply embed_mild; [|done]. apply on_gate_mild, reopen_mild.
  - split; cbn; auto.
Qed.

(** C34: In every reachable state of a version manager, whatever its
    callers do and however their steps interleave: (1) a caller that failed got a
    transaction timeout or the runtime error of exhausted timestamps; the errors of
    the internal checks and of the reader and inserter admission counters are never
    raised; (2) a step raises that runtime error only in a caller whose reservation
    was refused, and a reservation is refused for exhaustion only in a state whose
    next timestamp is the largest 32-bit value; (3) the gate word counts the
    admissions of readers and inserters exactly; (4) with every caller idle the gate
    word is the empty open word and the lock is free.  The number of callers and the
    initial view are those of [vm_config]: fewer callers than the admission counters
    can count. *)
Theorem no_internal_error (view : PublishedReadView) (n : nat) (st : vm_state) :
  vm_config view n → vm_reachable view n st →
  (∀ e, VFailed e ∈ vts st → e = TransactionTimeout ∨ e = RuntimeFailure) ∧
  (∀ t x cmd o x' s', vts st !! t = Some x → vm_step cmd o x (vs st) = (x', s') →
     (x' = VFailed RuntimeFailure → x = x' ∨ out_of_timestamps x = true) ∧
     (out_of_timestamps x' = true → out_of_timestamps x = true ∨ write_ts_ (vs st) = U32_MAX)) ∧
  readers (gate_ (vs st)) = zsum vt_rd (vts st) ∧
  inserters (gate_ (vs st)) = zsum vt_ins (vts st) ∧
  ((∀ x, x ∈ vts st → x = VIdle) → gate_ (vs st) = empty kOpen ∧ lock_ (vs st) = false).
Proof.
  intros Hc Hr. pose proof (vm_reachable_inv _ _ _ Hc Hr) as Hi. pose proof (vi_gate _ Hi) as Hg.
  destruct (gate_decode _ _ Hg) as (Hrd & Hin & _). split_and!; [| |done|done|].
  - intros e He. apply (vi_ok _ Hi _ He).
  - intros. by eapply runtime_error_step.
  - intros Hall. split.
    + rewrite (gi_word _ _ Hg). apply zsum_zero. intros x Hx. by rewrite (Hall x Hx).
    + pose proof (vi_lock _ Hi) as Hl. unfold lock_inv in Hl. rewrite zsum_zero in Hl.
      * by destruct (lock_ (vs st)).
      * intros l Hl'. apply list_elem_of_fmap in Hl' as (y & -> & Hy). by rewrite (Hall y Hy).
Qed.

(** A timed update gives up while an inserter is inside. *)
Lemma no_internal_error_witness :
  let st := vm_run (steps 6 0 CInsert ++ steps 6 1 CUpdateUntil ++
                    [(1%nat, CUpdateUntil, Oracle false true)] ++ steps 2 1 CUpdateUntil)
              (vm_start (ReadView 5 3) 2) in
  vts st !! 1%nat = Some (VFailed TransactionTimeout) ∧
  ((∀ e, VFailed e ∈ vts st → e = TransactionTimeout ∨ e = RuntimeFailure) ∧
   (∀ t x cmd o x' s', vts st !! t = Some x → vm_step cmd o x (vs st) = (x', s') →
      (x' = VFailed RuntimeFailure → x = x' ∨ out_of_timestamps x = true) ∧
      (out_of_timestamps x' = true → out_of_timestamps x = true ∨ write_ts_ (vs st) = U32_MAX)) ∧
   readers (gate_ (vs st)) = zsum vt_rd (vts st) ∧
   inserters (gate_ (vs st)) = zsum vt_ins (vts st) ∧
   ((∀ x, x ∈ vts st → x = VIdle) → gate_ (vs st) = empty kOpen ∧ lock_ (vs st) = false)).
Proof.
  split; [vm_compute; reflexivity|].
  apply (no_internal_error (ReadView 5 3) 2).
  - split; vm_compute; intuition congruence.
  - apply vm_start_reachable. vm_compute. discriminate.
Defined.

(** ** The advance loop, run to its end *)

Fixpoint exec {pc R} (step : pc → vm → vm * ctl pc R) (fuel : nat) (c : pc) (s : vm)
  : option (vm * R) :=
  match fuel with
  | O => None
  | S fuel =>
      match step c s with
      | (s', Goto c') => exec step fuel c' s'
      | (s', Return v) => Some (s', v)
      | (_, Raise _) => None
      end
  end.

(** What the loop leaves behind when it stops [k] timestamps further. *)
Definition advanced (k : Z) (s s' : vm) : Prop :=
  let r := read_ts_ s in
  read_ts_ s' = r + k ∧ write_ts_ s' = write_ts_ s ∧
  installed_snapshot_generation_ s' = installed_snapshot_generation_ s ∧
  gate_ s' = gate_ s ∧ lock_ s' = lock_ s ∧
  published_read_view_ s' = PackPublishedReadView (ReadView (r + k) (installed_snapshot_generation_ s)) ∧
  (∀ v, r < v ≤ r + k → ts_window_ s (ts_index v) = v) ∧
  ts_window_ s (ts_index (r + k + 1)) ≠ r + k + 1 ∧
  (∀ i, ts_window_ s' i =
        if (r <? ts_window_ s i) && (ts_window_ s i <=? r + k) then 0 else ts_window_ s i).

Definition window_ok (s : vm) : Prop :=
  0 ≤ read_ts_ s < write_ts_ s ∧ write_ts_ s ≤ U32_MAX ∧
  ∀ i, ts_window_ s i = 0 ∨
       (read_ts_ s < ts_window_ s i < write_ts_ s ∧ ts_index (ts_window_ s i) = i).

Lemma advance_loop m s :
  window_ok s → write_ts_ s - read_ts_ s ≤ Z.of_nat m →
  ∃ k s', 0 ≤ k < write_ts_ s - read_ts_ s ∧ advanced k s s' ∧
    exec advance_read_ts_locked (3 * m + 3) (ADV_check (read_ts_ s)) s = Some (s', tt).
Proof.
  revert s. induction m as [|m IH]; intros s (Hr & Hw & Hwin) Hm; [lia|].
  assert (En : u32 (read_ts_ s + 1) = read_ts_ s + 1) by (apply u32_succ; lia).
  replace (3 * S m + 3)%nat with (S (S (S (3 * m + 3)))) by lia.
  set (n := read_ts_ s + 1) in *.
  destruct (ts_window_ s (ts_index n) =? n) eqn:E.
  - set (s1 := set_read_ts n (set_window (clear n (ts_window_ s)) s)).
    assert (Hc : ∀ i, ts_window_ s1 i = if ts_window_ s i =? n then 0 else ts_window_ s i).
    { intros i. cbn. unfold clear. rewrite E. destruct (decide (i = ts_index n)) as [->|Hne].
      - by rewrite fn_lookup_insert, E.
      - rewrite fn_lookup_insert_ne by done. destruct (ts_window_ s i =? n) eqn:Ei; [|done].
        bool_to_prop. destruct (Hwin i) as [|[_ Hi]]; [lia|]. rewrite Ei in Hi. congruence. }
    apply Z.eqb_eq in E.
    assert (Hn : n < write_ts_ s) by (destruct (Hwin (ts_index n)); lia).
    destruct (IH s1) as (k & s' & Hk & (A1&A2&A3&A4&A5&A6&A7&A8&A9) & Hex).
    { split_and!; cbn; [lia|lia|done|]. intros i. specialize (Hc i). cbn in Hc. rewrite Hc.
      destruct (Hwin i) as [->|[H1 H2]]; [left; by destruct (0 =? n)|].
      case_match eqn:Ei; [by left|right]. bool_to_prop. split; [lia|done]. }
    { cbn. lia. }
    exists (k + 1), s'. cbn in Hk. split; [lia|]. split.
    + unfold advanced. replace (read_ts_ s + (k + 1)) with (n + k) by lia.
      split_and!; try done.
      * intros v Hv. destruct (decide (v = n)) as [->|]; [done|].
        specialize (A7 v). cbn in A7. specialize (A7 ltac:(lia)).
        specialize (Hc (ts_index v)). cbn in Hc. rewrite Hc in A7. case_match; [lia|done].
      * cbn in A8. specialize (Hc (ts_index (n + k + 1))). cbn in Hc. rewrite Hc in A8.
        case_match eqn:Ei; [bool_to_prop; lia|done].
      * intros i. rewrite A9. specialize (Hc i). cbn in Hc |- *. rewrite Hc.
        destruct (ts_window_ s i =? n) eqn:Ei; bool_to_prop.
        -- rewrite Ei. replace (read_ts_ s <? n) with true by (symmetry; apply Z.ltb_lt; lia).
           replace (n <=? n + k) with true by (symmetry; apply Z.leb_le; lia).
           case_match; done.
        -- replace (read_ts_ s <? ts_window_ s i) with (n <? ts_window_ s i); [done|].
           apply eq_true_iff_eq. rewrite !Z.ltb_lt. lia.
    + cbn -[Nat.mul]. unfold is_completed. fold n. rewrite En.
      rewrite E, Z.eqb_refl. cbn -[Nat.mul]. fold n. rewrite !En.
      unfold s1 in Hex. cbn -[Nat.mul] in Hex. exact Hex.
  - exists 0, (set_published (PackPublishedReadView (ReadView (read_ts_ s) (installed_snapshot_generation_ s))) s).
    split; [lia|]. split.
    + unfold advanced. rewrite Z.add_0_r. apply Z.eqb_neq in E. split_and!; try done; [lia|].
      intros i. cbn. case_match eqn:Ei; [|done]. bool_to_prop. lia.
    + cbn. unfold is_completed. fold n. rewrite En, E. done.
Qed.

(** The advance of the read timestamp terminates, within a
    number of steps linear in the outstanding timestamps, and folds exactly the
    maximal completed prefix: it stops at the first timestamp that is not
    completed, clears the slots it passed and no other, and publishes the new
    read timestamp with the installed generation in one word. *)
Theorem advance_folds_prefix (s : vm) :
  window_ok s →
  ∃ k s', 0 ≤ k < write_ts_ s - read_ts_ s ∧ advanced k s s' ∧
    exec advance_read_ts_locked (S (3 * Z.to_nat (write_ts_ s - read_ts_ s) + 3)) ADV_load s
      = Some (s', tt).
Proof.
  intros Hw. destruct (advance_loop (Z.to_nat (write_ts_ s - read_ts_ s)) s Hw) as (k & s' & Hk & Ha & He).
  { destruct Hw. lia. }
  exists k, s'. split; [done|]. split; [done|]. cbn -[Nat.mul]. exact He.
Qed.

Lemma advance_folds_prefix_witness :
  let s := set_window (mark_completed 9 (mark_completed 7 (mark_completed 6 init)))
             (Vm 10 5 3 0 0 init true) in
  window_ok s ∧
  ∃ k s', 0 ≤ k < write_ts_ s - read_ts_ s ∧ advanced k s s' ∧
    exec advance_read_ts_locked (S (3 * Z.to_nat (write_ts_ s - read_ts_ s) + 3)) ADV_load s
      = Some (s', tt).
Proof.
  assert (Hw : window_ok (set_window (mark_completed 9 (mark_completed 7 (mark_completed 6 init)))
             (Vm 10 5 3 0 0 init true))).
  { split_and!; [cbn; lia|cbn; lia|vm_compute; discriminate|]. intros i. cbn.
    unfold mark_completed. repeat (destruct (decide (i = ts_index 9)) as [->|]; [right; vm_compute; intuition congruence|
      rewrite fn_lookup_insert_ne by done]; destruct (decide (i = ts_index 7)) as [->|]; [right; vm_compute; intuition congruence|
      rewrite fn_lookup_insert_ne by done]; destruct (decide (i = ts_index 6)) as [->|]; [right; vm_compute; intuition congruence|
      rewrite fn_lookup_insert_ne by done]). by left. }
  split; [exact Hw|]. apply (advance_folds_prefix _ Hw).
Defined.
