(* ===== verification/VersionEffects.v ===== *)
(** * Effects of one step at the version manager

    What a step of one caller does to the timestamps, the installed generation
    and the published view, for the clients that relate them to graphs. *)

From S2P Require Import Prelude GateWord OperationGate GateProtocol TimestampWindow VersionManager VersionThreads Timeline VersionSystem VersionProperties.
Import OperationGateWord OperationGate GateSteps VersionManager TimestampWindow.

(** Timestamps off the timeline and on it. *)
Lemma tmove_idle_mono s l l' s' :
  tmove s l l' s' → active l = false → resetting l' = false →
  read_ts_ s ≤ read_ts_ s' ∧ write_ts_ s ≤ write_ts_ s'.
Proof.
  intros Hm Ha Hr. destruct Hm as [l s' [(-> & -> & _) _]|s' [(-> & -> & _) _]| | | | |? ? c|? ? c| | | | |];
    try done; try (cbn; lia); by destruct c.
Qed.

Lemma tmove_reserved s ls l l' s' a :
  tmove s l l' s' → (active l = true → timeline s ls ∧ pc_ok s l) → held l = None → held l' = Some a →
  a = write_ts_ s ∧ write_ts_ s' = a + 1 ∧ read_ts_ s' = read_ts_ s.
Proof.
  intros Hm Ht Hn Ha. destruct Hm as [| | |o c ts s' E| | |ts d c c' s' E| | | | | |]; simplify_eq/=; try congruence.
  - destruct (Ht eq_refl) as [Hti Hpc]. destruct (reserved_at _ _ _ _ _ Hpc E) as (-> & -> & ->).
    cbn in Hpc. cbn. rewrite u32_succ; lia.
  - exfalso. destruct c as [| | |[]|]; cbn in E, Hn; repeat case_bool; by simplify_eq/=.
Qed.

(** The installed generation and the published view. *)
Lemma tmove_generation s l l' s' :
  tmove s l l' s' → installed_snapshot_generation_ s' = installed_snapshot_generation_ s ∨
  ∃ ts, l = THeld ts false ∧ l' = THeld ts true.
Proof.
  intros Hm. destruct Hm as [l s' [(_ & _ & -> & _) _]|s' [(_ & _ & -> & _) _]|o c c' s' E|o c ts s' E|o c r s' E| |ts d c c' s' E
    |ts d c s' E| | | |o ts c c' s' [->|[->| ->]] E|]; eauto; left.
  all: repeat match goal with
    | H : ReserveWriteTimestamp _ ?c _ = _ |- _ => destruct c; cbn in H
    | H : complete_write_timestamp _ ?c _ = _ |- _ => destruct c as [| | |[]|]; cbn in H
    end; cbn in *; repeat case_bool; by simplify_eq/=.
Qed.

Lemma tmove_published s l l' s' :
  tmove s l l' s' → (active l = true → resetting l = false → pc_ok s l) →
  published_read_view_ s' = published_read_view_ s ∨ resetting l = true ∨
  ∃ ts d, l = TCompl ts d (CW_advance (ADV_publish (read_ts_ s) (installed_snapshot_generation_ s))) ∧
    s' = set_published (PackPublishedReadView (ReadView (read_ts_ s) (installed_snapshot_generation_ s))) s.
Proof.
  intros Hm Hpc. destruct Hm as [l s' [(_ & _ & _ & -> & _) _]|s' [(_ & _ & _ & -> & _) _]|o c c' s' E|o c ts s' E|o c r s' E|
    |ts d c c' s' E|ts d c s' E| | | |o ts c c' s' [->|[->| ->]] E|]; auto.
  - destruct c; cbn in E; repeat case_bool; simplify_eq/=; by left.
  - destruct c; cbn in E; repeat case_bool; simplify_eq/=; by left.
  - destruct c; cbn in E; repeat case_bool; simplify_eq/=; by left.
  - destruct c as [| | |[]|]; cbn in E; repeat case_bool; simplify_eq/=; try by left.
    right. right. destruct (Hpc eq_refl eq_refl) as [-> ->]. by exists ts, d.
  - destruct c as [| | |[]|]; cbn in E; repeat case_bool; simplify_eq/=; by left.
Qed.

Section effects.
Context (st : vm_state) (t : nat) (x : vm_thread) (cmd : vm_cmd) (o : oracle) (x' : vm_thread) (s' : vm).
Hypothesis Hinv : vm_inv st.
Hypothesis Hx : vts st !! t = Some x.
Hypothesis Hs : vm_step cmd o x (vs st) = (x', s').
Let s := vs st.

Lemma effect_legal : legal_step x (gate_ s) x' (gate_ s') ∧ tmove s (tl x) (tl x') s'.
Proof using Hinv Hx Hs.
  destruct (vm_step_ok cmd o x s x' s') as (? & _ & ?); [..|done]; [| | |done].
  - eapply gate_inv_view; [apply (vi_gate _ Hinv)|done].
  - apply (vi_ok _ Hinv), list_elem_of_lookup. eauto.
  - by apply (inv_time_view st t x).
Qed.

Lemma effect_move : tmove s (tl x) (tl x') s'.
Proof using Hinv Hx Hs. by destruct effect_legal. Qed.

Lemma effect_timeline : active (tl x) = true → resetting (tl x) = false →
  timeline s (tl <$> vts st) ∧ pc_ok s (tl x).
Proof using Hinv Hx.
  intros Ha Hr. pose proof (active_timeline st t x Hinv Hx Ha Hr) as Ht. split; [done|].
  apply (tl_pc _ _ Ht), list_elem_of_fmap. exists x. split; [done|]. apply list_elem_of_lookup. eauto.
Qed.

(** Timestamps only grow, except in a reset. *)
Lemma effect_mono : resetting (tl x) = false → resetting (tl x') = false →
  read_ts_ s ≤ read_ts_ s' ∧ write_ts_ s ≤ write_ts_ s'.
Proof using Hinv Hx Hs.
  intros Hr Hr'. pose proof effect_move as Hm. destruct (active (tl x)) eqn:Ha; [|by eapply tmove_idle_mono].
  destruct (effect_timeline Ha Hr) as [Ht _]. eapply tmove_mono; [exact Ht| |done|done].
  apply list_elem_of_fmap. exists x. split; [done|]. apply list_elem_of_lookup. eauto.
Qed.

(** A timestamp that is held after a step and not before is the next one. *)
Lemma effect_reserved a : held (tl x) = None → held (tl x') = Some a →
  a = write_ts_ s ∧ write_ts_ s' = a + 1 ∧ read_ts_ s' = read_ts_ s.
Proof using Hinv Hx Hs.
  intros Hn Ha. eapply (tmove_reserved s (tl <$> vts st)); eauto using effect_move.
  intros Hact. apply effect_timeline; [done|]. destruct (tl x) eqn:El; try done.
  pose proof effect_move as Hm. rewrite El in Hm. exfalso. remember (TReset c) as l. remember (tl x') as l'.
  destruct Hm; simplify_eq/=; try done. destruct c0 as [| | |[]|]; done.
Qed.

(** An update completes by publishing a view, and has been folded into the read
    timestamp then. *)
Lemma effect_completed ts g b c c' :
  x = VUpdFinish ts g b (FU_complete c) → c ≠ CW_unlock →
  x' = VUpdFinish ts g b (FU_complete CW_unlock) ∨ x' = VUpdFinish ts g b (FU_reopen c') →
  (ts < write_ts_ s → ts ≤ read_ts_ s') ∧ ∃ n, c = CW_advance (ADV_publish (read_ts_ s) n).
Proof using Hinv Hx Hs.
  intros Ex Hc Hx'. pose proof Hs as H. rewrite Ex in H. cbn in H. fold s in H.
  assert (Htl : tl x = tl_complete ts (bool_decide (is_Some g)) c) by (by rewrite Ex).
  assert (Hdi : vt_di x = true) by (by rewrite Ex).
  destruct c as [| | |a|]; cbn in H; try (repeat case_bool; simplify_eq/=; by destruct Hx').
  - (* not the next timestamp: impossible for an update *)
    destruct (vi_sole _ Hinv t x ts Hx Hdi) as [Hr Hw]; [by rewrite Htl|].
    destruct effect_timeline as [Ht _]; [by rewrite Htl..|]. pose proof (tl_range _ _ Ht). fold s in Hr, Hw.
    rewrite (u32_succ (read_ts_ s)) in H by lia. rewrite (proj2 (Z.eqb_eq _ _)) in H by lia.
    cbn in H. simplify_eq. by destruct Hx'.
  - destruct effect_timeline as [Ht Hpc]; [by rewrite Htl..|]. rewrite Htl in Hpc. pose proof (tl_range _ _ Ht) as Hrg.
    pose proof (sole_caught_up s _ t _ Ht (tl_lookup st t _ Hx)) as Hsc. rewrite Htl in Hsc.
    pose proof (λ u k Hne, others_inactive st t x Hinv Hx u k Hdi Hne) as Hoth. clear Htl.
    destruct a as [|cu|cu|cu|cu|cu n]; cbn in H; repeat case_bool; simplify_eq/=; try (by destruct Hx').
    destruct Hpc as [-> ->]. split; [|by eexists]. intros Hts.
    destruct (decide (ts ≤ read_ts_ s)) as [|Hlt]; [done|exfalso].
    ospecialize* Hsc; [done|done|lia|done].
Qed.
End effects.
