(* ===== verification/Archive.v ===== *)
(** * Archives

    include/neug/utils/serialization/in_archive.h and out_archive.h.  An
    archive is a list of bytes.  Writing appends; what a [Serialize] appended
    before it threw stays in the buffer, so a writer is the bytes it appends
    together with the exception it ends in.  Reading consumes a prefix; a read
    past the end, which the source does not check, is [OutOfBounds]. *)

From S2P Require Import Prelude.

(** ** Writers *)

Definition out : Type := (list Z * option exn)%type.

Definition put_nothing : out := ([], None).
Definition AddBytes (bs : list Z) : out := (bs, None).
Definition put_fail (e : exn) : out := ([], Some e).
(** [arc << a << b]: [b] runs only when [a] did not throw. *)
Definition put_seq (a b : out) : out :=
  match a with
  | (bs, None) => let '(bs', e) := b in (bs ++ bs', e)
  | (bs, Some e) => (bs, Some e)
  end.
Declare Scope archive_scope.
Delimit Scope archive_scope with arc.
Infix "<<" := put_seq (at level 61, left associativity) : archive_scope.
#[global] Open Scope archive_scope.

Definition put_all {A} (put : A → out) (l : list A) : out :=
  foldr (λ x acc, put x << acc) put_nothing l.

(** Appending to an archive's buffer. *)
Definition arc_write (buffer : list Z) (o : out) : list Z * option exn :=
  (buffer ++ o.1, o.2).

(** Little-endian bytes of an integer. *)
Fixpoint le (n : nat) (z : Z) : list Z :=
  match n with O => [] | S n => z `mod` 256 :: le n (z `div` 256) end.
Definition un_le (bs : list Z) : Z := foldr (λ b acc, b + 256 * acc) 0 bs.

Definition put_uint (n : nat) (z : Z) : out := AddBytes (le n z).
Abbreviation put_u8 := (put_uint 1).
Abbreviation put_u32 := (put_uint 4).
Abbreviation put_u64 := (put_uint 8).
Abbreviation put_i32 := (put_uint 4).
Abbreviation put_i64 := (put_uint 8).
Definition put_bool (b : bool) : out := put_u8 (if b then 1 else 0).
Definition put_string (s : list Z) : out := put_u64 (Z.of_nat (length s)) << AddBytes s.
(** [std::vector<T>] of a type that is not plain data. *)
Definition put_vector {A} (put : A → out) (v : list A) : out :=
  put_u64 (Z.of_nat (length v)) << put_all put v.
(** The [uint32_t] count followed by the elements that the redo records use. *)
Definition put_list32 {A} (put : A → out) (v : list A) : out :=
  put_u32 (Z.of_nat (length v)) << put_all put v.

(** ** Readers *)

Definition parser (A : Type) : Type := list Z → res (A * list Z).

#[global] Instance parser_ret : MRet parser := λ A a bs, Ok (a, bs).
#[global] Instance parser_bind : MBind parser := λ A B f p bs,
  match p bs with Ok (a, bs') => f a bs' | Throw e => Throw e end.
Definition get_fail {A} (e : exn) : parser A := λ _, Throw e.

Definition GetBytes (size : Z) : parser (list Z) := λ bs,
  if size <=? Z.of_nat (length bs) then Ok (take (Z.to_nat size) bs, drop (Z.to_nat size) bs)
  else Throw OutOfBounds.

Definition Peek {A} (p : parser A) : parser A := λ bs,
  match p bs with Ok (a, _) => Ok (a, bs) | Throw e => Throw e end.

Definition get_uint (n : nat) : parser Z := bs ← GetBytes (Z.of_nat n); mret (un_le bs).
Abbreviation get_u8 := (get_uint 1).
Abbreviation get_u32 := (get_uint 4).
Abbreviation get_u64 := (get_uint 8).
Definition get_i32 : parser Z := z ← get_u32; mret (i32 z).
Definition get_i64 : parser Z := z ← get_u64; mret (i64 z).
Definition get_bool : parser bool := z ← get_u8; mret (negb (z =? 0)).
Definition get_string : parser (list Z) := size ← get_u64; GetBytes size.

Fixpoint rep {A} (p : parser A) (n : nat) : parser (list A) :=
  match n with
  | O => mret []
  | S n => x ← p; xs ← rep p n; mret (x :: xs)
  end.
Definition get_vector {A} (p : parser A) : parser (list A) := n ← get_u64; rep p (Z.to_nat n).
Definition get_list32 {A} (p : parser A) : parser (list A) := n ← get_u32; rep p (Z.to_nat n).

(** ** Round trips *)

(** Reader [p] undoes writer [o]: it reads back [a] and leaves what follows. *)
Definition reads {A} (p : parser A) (o : out) (a : A) : Prop :=
  o.2 = None ∧ ∀ rest, p (o.1 ++ rest) = Ok (a, rest).

Definition is_byte (b : Z) : Prop := 0 ≤ b < 256.

Section reads.
Context {A B : Type}.

Lemma reads_ret (a : A) : reads (mret a) put_nothing a.
Proof. by split. Qed.

Lemma reads_bind (p : parser A) (f : A → parser B) o1 o2 a b :
  reads p o1 a → reads (f a) o2 b → reads (p ≫= f) (o1 << o2) b.
Proof.
  destruct o1 as [b1 e1], o2 as [b2 e2]. intros [H1 Hp] [H2 Hf]. cbn in *. subst e1 e2.
  split; [done|]. intros rest. cbn. rewrite <- app_assoc.
  unfold mbind, parser_bind. rewrite Hp. apply Hf.
Qed.

Lemma reads_last (p : parser A) (f : A → B) o a :
  reads p o a → reads (x ← p; mret (f x)) o (f a).
Proof.
  intros [H1 Hp]. split; [done|]. intros rest. unfold mbind, parser_bind. by rewrite Hp.
Qed.

Lemma reads_congr (p : parser A) o a a' : reads p o a → a = a' → reads p o a'.
Proof. by intros ? <-. Qed.
End reads.

Lemma put_seq_nothing o : o << put_nothing = o.
Proof. destruct o as [bs [e|]]; cbn; [done|]. by rewrite app_nil_r. Qed.

Lemma put_seq_assoc a b c : (a << b) << c = a << (b << c).
Proof.
  destruct a as [? [?|]], b as [? [?|]], c as [? [?|]]; cbn; try done; by rewrite app_assoc.
Qed.

Lemma put_all_cons {A} (put : A → out) x l : put_all put (x :: l) = put x << put_all put l.
Proof. done. Qed.

Lemma le_length n z : length (le n z) = n.
Proof. revert z. induction n; intros; cbn; auto. Qed.

Lemma un_le_le n z : un_le (le n z) = z `mod` 2^(8 * Z.of_nat n).
Proof.
  revert z. induction n as [|n IH]; intros z.
  { cbn -[Z.pow Z.mul]. by rewrite Z.mod_1_r. }
  change (un_le (le (S n) z)) with (z `mod` 256 + 256 * un_le (le n (z `div` 256))).
  rewrite IH. replace (8 * Z.of_nat (S n)) with (8 + 8 * Z.of_nat n) by lia.
  rewrite Z.pow_add_r by lia. change (2^8) with 256.
  rewrite Z.rem_mul_r; lia.
Qed.

Lemma le_byte n z b : b ∈ le n z → is_byte b.
Proof.
  revert z. induction n as [|n IH]; intros z; cbn; [by intros ?%not_elem_of_nil|].
  intros [->|H]%elem_of_cons; [unfold is_byte; dlia|eauto].
Qed.

Lemma GetBytes_app (xs rest : list Z) : GetBytes (Z.of_nat (length xs)) (xs ++ rest) = Ok (xs, rest).
Proof.
  unfold GetBytes. rewrite length_app, Nat2Z.inj_add, Nat2Z.id.
  rewrite (proj2 (Z.leb_le _ _)) by lia. by rewrite take_app_length, drop_app_length.
Qed.

Lemma reads_bytes xs : reads (GetBytes (Z.of_nat (length xs))) (AddBytes xs) xs.
Proof. split; [done|]. intros. apply GetBytes_app. Qed.

Lemma reads_uint n z : 0 ≤ z < 2^(8 * Z.of_nat n) → reads (get_uint n) (put_uint n z) z.
Proof.
  intros Hz. unfold get_uint, put_uint. eapply reads_congr.
  - apply (reads_last _ un_le). rewrite <- (le_length n z) at 1. apply reads_bytes.
  - rewrite un_le_le. by apply Z.mod_small.
Qed.

Lemma reads_i32 z : - 2^31 ≤ z < 2^31 → reads get_i32 (put_i32 z) z.
Proof.
  intros Hz. unfold get_i32. eapply reads_congr.
  - apply (reads_last get_u32 i32). unfold get_uint. apply (reads_last _ un_le).
    change (Z.of_nat 4) with (Z.of_nat (length (le 4 z))). apply reads_bytes.
  - rewrite un_le_le. unfold i32. change (8 * Z.of_nat 4) with 32. dlia.
Qed.

Lemma reads_i64 z : - 2^63 ≤ z < 2^63 → reads get_i64 (put_i64 z) z.
Proof.
  intros Hz. unfold get_i64. eapply reads_congr.
  - apply (reads_last get_u64 i64). unfold get_uint. apply (reads_last _ un_le).
    change (Z.of_nat 8) with (Z.of_nat (length (le 8 z))). apply reads_bytes.
  - rewrite un_le_le. unfold i64. change (8 * Z.of_nat 8) with 64. dlia.
Qed.

Lemma reads_bool b : reads get_bool (put_bool b) b.
Proof.
  unfold get_bool, put_bool. eapply reads_congr.
  - apply (reads_last get_u8 (λ z, negb (z =? 0))), (reads_uint 1). destruct b; lia.
  - by destruct b.
Qed.

Lemma reads_string s : Z.of_nat (length s) < 2^64 → reads get_string (put_string s) s.
Proof.
  intros Hs. unfold get_string, put_string. eapply reads_bind; [|apply reads_bytes].
  apply reads_uint. lia.
Qed.

Lemma reads_rep {A B} (p : parser B) (put : A → out) (f : A → B) (l : list A) :
  (∀ x, x ∈ l → reads p (put x) (f x)) → reads (rep p (length l)) (put_all put l) (f <$> l).
Proof.
  induction l as [|x l IH]; intros Hl; cbn [rep length]; [apply reads_ret|].
  rewrite put_all_cons. eapply reads_bind; [apply Hl; by left|].
  rewrite <- (put_seq_nothing (put_all put l)). eapply reads_bind; [apply IH; intros; apply Hl; by right|].
  apply reads_ret.
Qed.

Lemma reads_list32 {A B} (p : parser B) (put : A → out) (f : A → B) (l : list A) :
  Z.of_nat (length l) < 2^32 → (∀ x, x ∈ l → reads p (put x) (f x)) →
  reads (get_list32 p) (put_list32 put l) (f <$> l).
Proof.
  intros Hl Hx. unfold get_list32, put_list32. eapply reads_bind; [apply (reads_uint 4); lia|].
  rewrite Nat2Z.id. by apply reads_rep.
Qed.

Lemma reads_vector {A B} (p : parser B) (put : A → out) (f : A → B) (l : list A) :
  Z.of_nat (length l) < 2^64 → (∀ x, x ∈ l → reads p (put x) (f x)) →
  reads (get_vector p) (put_vector put l) (f <$> l).
Proof.
  intros Hl Hx. unfold get_vector, put_vector. eapply reads_bind; [apply (reads_uint 8); lia|].
  rewrite Nat2Z.id. by apply reads_rep.
Qed.

Create HintDb archive discriminated.
#[export] Hint Resolve reads_bool reads_string reads_i32 reads_i64 : archive.

(** [archive] reads a writer back field by field. *)
Ltac archive :=
  repeat match goal with
  | |- reads (mret _) put_nothing _ => apply reads_ret
  | |- reads (_ ≫= _) (_ << _) _ => eapply reads_bind
  | |- reads get_u8 _ _ => apply (reads_uint 1)
  | |- reads get_u32 _ _ => apply (reads_uint 4)
  | |- reads get_u64 _ _ => apply (reads_uint 8)
  | |- reads get_i32 _ _ => apply reads_i32
  | |- reads get_i64 _ _ => apply reads_i64
  | |- reads get_bool _ _ => apply reads_bool
  | |- reads get_string _ _ => apply reads_string
  end.
