(* ===== verification/Values.v ===== *)
(** * Data types and values in archives

    DataType (src/common/types.cc) and Value (src/common/types/value.cc) with
    their archive operators.  Strings are lists of bytes; floats are kept as
    their bit patterns. *)

From S2P Require Import Prelude Archive.

(** ** DataTypeId *)

Inductive DataTypeId :=
  | kInvalid | kNull | kUnknown | kBoolean | kInt8 | kInt16 | kInt32 | kInt64 | kDate
  | kTimestampMs | kFloat | kDouble | kVarchar | kInterval | kUInt8 | kUInt16 | kUInt32
  | kUInt64 | kInternalId | kStruct | kList | kMap | kArray | kVertex | kEdge | kPath | kEmpty
  | kUnnamedId (code : Z).

#[global] Instance DataTypeId_eq_dec : EqDecision DataTypeId.
Proof. solve_decision. Defined.

Definition DataTypeId_code (id : DataTypeId) : Z :=
  match id with
  | kInvalid => 0 | kNull => 1 | kUnknown => 2 | kBoolean => 10 | kInt8 => 11 | kInt16 => 12
  | kInt32 => 13 | kInt64 => 14 | kDate => 15 | kTimestampMs => 18 | kFloat => 22 | kDouble => 23
  | kVarchar => 25 | kInterval => 27 | kUInt8 => 28 | kUInt16 => 29 | kUInt32 => 30 | kUInt64 => 31
  | kInternalId => 40 | kStruct => 100 | kList => 101 | kMap => 102 | kArray => 108
  | kVertex => 200 | kEdge => 201 | kPath => 202 | kEmpty => 203
  | kUnnamedId c => c
  end.

Definition named_ids : list DataTypeId :=
  [kInvalid; kNull; kUnknown; kBoolean; kInt8; kInt16; kInt32; kInt64; kDate; kTimestampMs;
   kFloat; kDouble; kVarchar; kInterval; kUInt8; kUInt16; kUInt32; kUInt64; kInternalId;
   kStruct; kList; kMap; kArray; kVertex; kEdge; kPath; kEmpty].

(** The enumerator with a given byte. *)
Definition DataTypeId_of (c : Z) : DataTypeId :=
  match list_find (λ id, DataTypeId_code id = c) named_ids with
  | Some (_, id) => id | None => kUnnamedId c end.

Definition id_named (id : DataTypeId) : bool := bool_decide (id ∈ named_ids).

Definition put_id (id : DataTypeId) : out := put_u8 (DataTypeId_code id).
Definition get_id : parser DataTypeId := c ← get_u8; mret (DataTypeId_of c).

Lemma DataTypeId_of_code id : id_named id = true → DataTypeId_of (DataTypeId_code id) = id.
Proof. destruct id; intros H; try (vm_compute; reflexivity). by vm_compute in H. Qed.

Lemma reads_id id : id_named id = true → reads get_id (put_id id) id.
Proof.
  intros H. unfold get_id, put_id. eapply reads_congr.
  - apply (reads_last get_u8 DataTypeId_of), (reads_uint 1).
    destruct id; cbn -[Z.pow]; try lia. by vm_compute in H.
  - by apply DataTypeId_of_code.
Qed.

(** ** DataType *)

Inductive DataType :=
  | MkDataType (id_ : DataTypeId) (type_info_ : option ExtraTypeInfo)
with ExtraTypeInfo :=
  | StructTypeInfo (child_types : list DataType) (field_names : list (list Z))
  | ListTypeInfo (child_type : DataType)
  | ArrayTypeInfo (child_type : DataType) (num_elements : Z)
  | MapTypeInfo (key_type value_type : DataType)
  | StringTypeInfo (max_length : Z).

Definition id_ (t : DataType) : DataTypeId := let 'MkDataType i _ := t in i.
Definition type_info_ (t : DataType) : option ExtraTypeInfo := let 'MkDataType _ o := t in o.

(** The constructors with their checks. *)
Definition DataType_default : DataType := MkDataType kInvalid None.
Definition DataType_List (child : DataType) : DataType := MkDataType kList (Some (ListTypeInfo child)).
Definition DataType_Varchar (max_length : Z) : DataType :=
  MkDataType kVarchar (Some (StringTypeInfo max_length)).
Definition DataType_Array (child : DataType) (num_elements : Z) : res DataType :=
  if (num_elements =? 0) && bool_decide (id_ child ≠ kUnknown) then Throw RuntimeFailure
  else Ok (MkDataType kArray (Some (ArrayTypeInfo child num_elements))).
Definition DataType_Struct (children : list DataType) : DataType :=
  MkDataType kStruct (Some (StructTypeInfo children [])).
Definition is_blank (name : list Z) : bool := match name with [] => true | _ => false end.
(** The names that are not blank are pairwise different. *)
Fixpoint unique_names (seen names : list (list Z)) : bool :=
  match names with
  | [] => true
  | n :: names =>
      if is_blank n then unique_names seen names
      else if bool_decide (n ∈ seen) then false else unique_names (n :: seen) names
  end.
Definition DataType_StructNamed (field_names : list (list Z)) (field_types : list DataType)
  : res DataType :=
  if negb (length field_names =? length field_types)%nat then Throw RuntimeFailure
  else if existsb is_blank field_names && existsb (λ n, negb (is_blank n)) field_names
  then Throw RuntimeFailure
  else if negb (unique_names [] field_names) then Throw RuntimeFailure
  else Ok (MkDataType kStruct (Some (StructTypeInfo field_types field_names))).

(** operator<<; an info of the wrong class for the id fails its [Cast]. *)
Fixpoint put_type (t : DataType) : out :=
  match t with
  | MkDataType id info =>
      put_id id <<
      match info with
      | None => put_u8 0
      | Some i =>
          put_u8 1 <<
          match id, i with
          | kList, ListTypeInfo c => put_type c
          | kList, ArrayTypeInfo c _ => put_type c
          | kStruct, StructTypeInfo cs names =>
              put_vector put_type cs << put_vector put_string names
          | kArray, ArrayTypeInfo c n => put_type c << put_u64 n
          | kVarchar, StringTypeInfo n => put_u64 n
          | (kList | kStruct | kArray | kVarchar), _ => put_fail CheckFailed
          | _, _ => put_fail NotSupported
          end
      end
  end.

Definition of_res {A} (r : res A) : parser A := λ bs,
  match r with Ok a => Ok (a, bs) | Throw e => Throw e end.

(** operator>>; the fuel bounds the nesting. *)
Fixpoint get_type (fuel : nat) : parser DataType :=
  match fuel with
  | O => get_fail OutOfBounds
  | S fuel =>
      id ← get_id;
      has_extra_type_info ← get_u8;
      if has_extra_type_info =? 0 then mret (MkDataType id None)
      else match id with
        | kList => c ← get_type fuel; mret (DataType_List c)
        | kStruct =>
            cs ← get_vector (get_type fuel);
            names ← get_vector get_string;
            match names with
            | [] => mret (DataType_Struct cs)
            | _ => of_res (DataType_StructNamed names cs)
            end
        | kArray => c ← get_type fuel; n ← get_u64; of_res (DataType_Array c n)
        | kVarchar => n ← get_u64; mret (DataType_Varchar n)
        | _ => get_fail NotSupported
        end
  end.

(** Every level of a type takes at least two bytes, so the buffer bounds it. *)
Definition get_DataType : parser DataType := λ bs, get_type (S (length bs)) bs.

Definition fits64 (n : Z) : bool := (0 <=? n) && (n <? 2^64).
Definition fits32 (n : Z) : bool := (0 <=? n) && (n <? 2^32).
Definition short {A} (l : list A) : bool := fits64 (Z.of_nat (length l)).
Definition short32 {A} (l : list A) : bool := fits32 (Z.of_nat (length l)).
Definition name_ok (s : list Z) : bool := short s.

(** Types the constructors above build, of storable kinds. *)
Fixpoint type_ok (t : DataType) : bool :=
  match t with
  | MkDataType id None => id_named id
  | MkDataType id (Some i) =>
      match id, i with
      | kList, ListTypeInfo c => type_ok c
      | kStruct, StructTypeInfo cs names =>
          short cs && short names && forallb name_ok names && forallb type_ok cs &&
          match names with
          | [] => true
          | _ => (length names =? length cs)%nat
                 && negb (existsb is_blank names && existsb (λ n, negb (is_blank n)) names)
                 && unique_names [] names
          end
      | kArray, ArrayTypeInfo c n =>
          type_ok c && fits64 n && negb ((n =? 0) && bool_decide (id_ c ≠ kUnknown))
      | kVarchar, StringTypeInfo n => fits64 n
      | _, _ => false
      end
  end.

Fixpoint type_depth (t : DataType) : nat :=
  match t with
  | MkDataType _ None => 1
  | MkDataType _ (Some i) =>
      S match i with
        | StructTypeInfo cs _ => foldr (λ c n, Nat.max (type_depth c) n) 0%nat cs
        | ListTypeInfo c | ArrayTypeInfo c _ => type_depth c
        | MapTypeInfo k v => Nat.max (type_depth k) (type_depth v)
        | StringTypeInfo _ => 0
        end
  end.

Section DataType_ind.
Context (P : DataType → Prop).
Context (Hplain : ∀ id, P (MkDataType id None))
  (Hstruct : ∀ id cs names, (∀ c, c ∈ cs → P c) → P (MkDataType id (Some (StructTypeInfo cs names))))
  (Hlist : ∀ id c, P c → P (MkDataType id (Some (ListTypeInfo c))))
  (Harray : ∀ id c n, P c → P (MkDataType id (Some (ArrayTypeInfo c n))))
  (Hmap : ∀ id k v, P k → P v → P (MkDataType id (Some (MapTypeInfo k v))))
  (Hstring : ∀ id n, P (MkDataType id (Some (StringTypeInfo n)))).

Fixpoint DataType_nested_ind (t : DataType) : P t :=
  match t with
  | MkDataType id None => Hplain id
  | MkDataType id (Some i) =>
      match i with
      | StructTypeInfo cs names =>
          Hstruct id cs names (proj1 (Forall_forall P cs)
            ((fix go l : Forall P l :=
               match l with [] => Forall_nil_2 P | c :: l => Forall_cons_2 P c l (DataType_nested_ind c) (go l) end) cs))
      | ListTypeInfo c => Hlist id c (DataType_nested_ind c)
      | ArrayTypeInfo c n => Harray id c n (DataType_nested_ind c)
      | MapTypeInfo k v => Hmap id k v (DataType_nested_ind k) (DataType_nested_ind v)
      | StringTypeInfo n => Hstring id n
      end
  end.
End DataType_ind.

Lemma fits64_spec n : fits64 n = true → 0 ≤ n < 2^64.
Proof. unfold fits64. intros. bool_to_prop. lia. Qed.
Lemma fits32_spec n : fits32 n = true → 0 ≤ n < 2^32.
Proof. unfold fits32. intros. bool_to_prop. lia. Qed.

Lemma forallb_elem {A} (f : A → bool) l x : forallb f l = true → x ∈ l → f x = true.
Proof. rewrite forallb_forall. intros H Hx. by apply H, list_elem_of_In. Qed.

Lemma foldr_max_le {A} (f : A → nat) l x : x ∈ l → (f x ≤ foldr (λ c n, Nat.max (f c) n) 0 l)%nat.
Proof. induction 1; cbn; lia. Qed.

Lemma reads_names names :
  short names = true → forallb name_ok names = true →
  reads (get_vector get_string) (put_vector put_string names) names.
Proof.
  intros Hs Hn. eapply reads_congr; [apply (reads_vector _ _ id)|].
  - apply fits64_spec in Hs. lia.
  - intros x Hx. apply (reads_string x). pose proof (forallb_elem _ _ _ Hn Hx) as Hx'.
    apply fits64_spec in Hx'. lia.
  - apply list_fmap_id.
Qed.

Lemma reads_of_res {A} (r : res A) a : r = Ok a → reads (of_res r) put_nothing a.
Proof. intros ->. by split. Qed.

Lemma reads_types fuel cs :
  short cs = true → (∀ c, c ∈ cs → reads (get_type fuel) (put_type c) c) →
  reads (get_vector (get_type fuel)) (put_vector put_type cs) cs.
Proof.
  intros Hs Hc. eapply reads_congr; [apply (reads_vector _ _ id)|apply list_fmap_id].
  - apply fits64_spec in Hs. lia.
  - done.
Qed.

Lemma StructNamed_ok names cs :
  (length names =? length cs)%nat
    && negb (existsb is_blank names && existsb (λ n, negb (is_blank n)) names)
    && unique_names [] names = true →
  DataType_StructNamed names cs = Ok (MkDataType kStruct (Some (StructTypeInfo cs names))).
Proof.
  intros [[Hl Hb]%andb_true_iff Hu]%andb_true_iff. unfold DataType_StructNamed.
  apply negb_true_iff in Hb. by rewrite Hl, Hb, Hu.
Qed.

(** A type is read back whatever the fuel, if it covers the nesting. *)
Lemma reads_type_fuel t fuel :
  type_ok t = true → (type_depth t ≤ fuel)%nat → reads (get_type fuel) (put_type t) t.
Proof.
  revert fuel. induction t as [id|id cs names IH|id c IH|id c n IH|id k v _ _|id n] using DataType_nested_ind;
    intros [|fuel] Hok Hd; cbn [type_depth] in Hd; try lia; cbn [put_type get_type].
  - eapply reads_bind; [by apply reads_id|]. rewrite <- (put_seq_nothing (put_u8 0)).
    eapply reads_bind; [by apply (reads_uint 1)|]. apply reads_ret.
  - destruct id; try done. cbn [type_ok] in Hok. apply andb_true_iff in Hok as [Hok Hnames]. bool_to_prop.
    eapply reads_bind; [by apply reads_id|]. eapply reads_bind; [by apply (reads_uint 1)|]. cbn [Z.eqb].
    eapply reads_bind; [apply reads_types; [done|]|].
    { intros c Hc. apply IH; [done|by eapply forallb_elem|].
      pose proof (foldr_max_le type_depth cs c Hc). lia. }
    rewrite <- (put_seq_nothing (put_vector _ _)).
    eapply reads_bind; [by apply reads_names|].
    destruct names as [|a names]; [apply reads_ret|].
    apply reads_of_res. by apply StructNamed_ok.
  - destruct id; try done. eapply reads_bind; [by apply reads_id|].
    eapply reads_bind; [by apply (reads_uint 1)|]. cbn [Z.eqb].
    apply (reads_last (get_type fuel) DataType_List), IH; [done|lia].
  - destruct id; try done. cbn [type_ok] in Hok. bool_to_prop. eapply reads_bind; [by apply reads_id|].
    eapply reads_bind; [by apply (reads_uint 1)|]. cbn [Z.eqb].
    eapply reads_bind; [apply IH; [done|lia]|]. rewrite <- (put_seq_nothing (put_u64 n)).
    eapply reads_bind; [apply (reads_uint 8); by apply fits64_spec|].
    apply reads_of_res. unfold DataType_Array. case_match; [congruence|done].
  - by destruct id.
  - destruct id; try done. eapply reads_bind; [by apply reads_id|].
    eapply reads_bind; [by apply (reads_uint 1)|]. cbn [Z.eqb].
    apply (reads_last get_u64 DataType_Varchar), (reads_uint 8). by apply fits64_spec.
Qed.

Lemma put_seq_length a b : a.2 = None → length (a << b).1 = (length a.1 + length b.1)%nat.
Proof. destruct a as [? [?|]], b; cbn; [done|]. intros _. apply length_app. Qed.

Lemma reads_none {A} (p : parser A) o a : reads p o a → o.2 = None.
Proof. by intros []. Qed.

Lemma put_all_elem_length {A} (put : A → out) l x :
  (∀ y, y ∈ l → (put y).2 = None) → x ∈ l → (length (put x).1 ≤ length (put_all put l).1)%nat.
Proof.
  intros Hn Hx. induction l as [|y l IH]; [by apply not_elem_of_nil in Hx|].
  rewrite put_all_cons, put_seq_length by (apply Hn; by left).
  apply elem_of_cons in Hx as [->|Hx]; [lia|].
  specialize (IH (λ z Hz, Hn z (list_elem_of_further _ _ _ Hz)) Hx). lia.
Qed.

Lemma foldr_max_bound {A} (f : A → nat) l n :
  (∀ x, x ∈ l → (f x ≤ n)%nat) → (foldr (λ c m, Nat.max (f c) m) 0 l ≤ n)%nat.
Proof. induction l as [|x l IH]; cbn; intros H; [lia|].
  pose proof (H x ltac:(left)). specialize (IH ltac:(intros; apply H; by right)). lia. Qed.

Lemma type_ok_none t : type_ok t = true → (put_type t).2 = None.
Proof. intros H. by eapply reads_none, (reads_type_fuel t (type_depth t)). Qed.

(** The encoding is at least as long as the type is deep. *)
Lemma type_depth_bytes t : type_ok t = true → (type_depth t ≤ length (put_type t).1)%nat.
Proof.
  induction t as [id|id cs names IH|id c IH|id c n IH|id k v _ _|id n] using DataType_nested_ind;
    intros Hok; pose proof (type_ok_none _ Hok) as Hnone.
  - cbn [type_depth put_type]. rewrite put_seq_length by done. cbn. lia.
  - destruct id; try done. cbn [type_ok] in Hok. bool_to_prop.
    cbn [type_depth put_type]. rewrite !put_seq_length; try done.
    + unfold put_vector at 1. rewrite put_seq_length by done. cbn [put_id put_u8 put_uint AddBytes fst].
      rewrite !le_length. assert (foldr (λ c n, Nat.max (type_depth c) n) 0 cs ≤ length (put_all put_type cs).1)%nat; [|lia].
      apply foldr_max_bound. intros c Hc. etrans; [apply IH; [done|by eapply forallb_elem]|].
      apply put_all_elem_length; [|done]. intros y Hy. apply type_ok_none. by eapply forallb_elem.
    + apply (reads_none (get_vector (get_type (foldr (λ c n, Nat.max (type_depth c) n) 0%nat cs))) _ cs), reads_types; [done|].
      intros c Hc. apply reads_type_fuel; [by eapply forallb_elem|by apply (foldr_max_le type_depth)].
  - destruct id; try done. cbn [type_depth put_type]. rewrite !put_seq_length by done.
    cbn [put_id put_u8 put_uint AddBytes fst]. rewrite !le_length. specialize (IH Hok). lia.
  - destruct id; try done. cbn [type_ok] in Hok. bool_to_prop.
    cbn [type_depth put_type]. rewrite !put_seq_length by (try done; by apply type_ok_none).
    cbn [put_id put_u8 put_uint AddBytes fst]. rewrite !le_length. specialize (IH ltac:(done)). lia.
  - by destruct id.
  - destruct id; try done. cbn [type_depth put_type]. rewrite !put_seq_length by done. cbn. lia.
Qed.

Lemma reads_type t : type_ok t = true → reads get_DataType (put_type t) t.
Proof.
  intros Hok. split; [by apply type_ok_none|]. intros rest. unfold get_DataType.
  apply reads_type_fuel; [done|]. rewrite length_app. pose proof (type_depth_bytes t Hok). lia.
Qed.

(** ** Value *)

(** [V_none] is an unset payload; the nested and string payloads live behind
    [value_info_]. *)
Inductive Value :=
  | MkValue (type_ : DataType) (is_null_ : bool) (value_ : Val)
with Val :=
  | V_none
  | V_boolean (b : bool)
  | V_integer (z : Z)
  | V_bigint (z : Z)
  | V_uinteger (z : Z)
  | V_ubigint (z : Z)
  | V_float (bits : Z)
  | V_double (bits : Z)
  | V_date (u32 : Z)
  | V_timestamp_ms (milli_second : Z)
  | V_interval (months days micros : Z)
  | V_string (s : list Z)
  | V_nested (children : list Value).

Definition type_ (v : Value) : DataType := let 'MkValue t _ _ := v in t.
Definition IsNull (v : Value) : bool := let 'MkValue _ n _ := v in n.

Definition Value_default : Value := MkValue DataType_default true V_none.
Definition scalar (id : DataTypeId) (p : Val) : Value := MkValue (MkDataType id None) false p.
Definition Value_STRING (s : list Z) : Value := scalar kVarchar (V_string s).
Definition Value_VARCHAR (s : list Z) (max_length : Z) : Value :=
  MkValue (DataType_Varchar max_length) false (V_string s).
Definition Value_LIST (child : DataType) (vs : list Value) : Value :=
  MkValue (DataType_List child) false (V_nested vs).
Definition Value_ARRAY (array_type : DataType) (vs : list Value) : Value :=
  MkValue array_type false (V_nested vs).
Definition Value_STRUCT (t : DataType) (vs : list Value) : Value := MkValue t false (V_nested vs).

(** operator<<.  A payload of another member than the type says is a misuse of
    the union, reported as a failed check. *)
Fixpoint put_value (v : Value) : out :=
  match v with
  | MkValue t null p =>
      if null then put_id kEmpty
      else match id_ t, p with
        | kBoolean, V_boolean b => put_id kBoolean << put_bool b
        | kInt32, V_integer z => put_id kInt32 << put_i32 z
        | kUInt32, V_uinteger z => put_id kUInt32 << put_u32 z
        | kInt64, V_bigint z => put_id kInt64 << put_i64 z
        | kUInt64, V_ubigint z => put_id kUInt64 << put_u64 z
        | kFloat, V_float z => put_id kFloat << put_u32 z
        | kDouble, V_double z => put_id kDouble << put_u64 z
        | kVarchar, V_string s => put_id kVarchar << put_string s
        | kDate, V_date z => put_id kDate << put_u32 z
        | kTimestampMs, V_timestamp_ms z => put_id kTimestampMs << put_i64 z
        | kInterval, V_interval m d u => put_id kInterval << put_i32 m << put_i32 d << put_i64 u
        | (kList | kArray | kStruct) as id, V_nested cs =>
            put_id id << put_type t << put_list32 put_value cs
        | (kBoolean | kInt32 | kUInt32 | kInt64 | kUInt64 | kFloat | kDouble | kVarchar | kDate
           | kTimestampMs | kInterval | kList | kArray | kStruct), _ => put_fail CheckFailed
        | _, _ => put_fail NotSupported
        end
  end.

Definition ListType_GetChildType (t : DataType) : res DataType :=
  match type_info_ t with
  | Some (ListTypeInfo c) | Some (ArrayTypeInfo c _) => Ok c
  | _ => Throw CheckFailed
  end.

(** operator>>; the fuel bounds the nesting of values. *)
Fixpoint get_value (fuel : nat) : parser Value :=
  match fuel with
  | O => get_fail OutOfBounds
  | S fuel =>
      type_id ← get_id;
      match type_id with
      | kEmpty => mret Value_default
      | kBoolean => b ← get_bool; mret (scalar kBoolean (V_boolean b))
      | kInt32 => z ← get_i32; mret (scalar kInt32 (V_integer z))
      | kUInt32 => z ← get_u32; mret (scalar kUInt32 (V_uinteger z))
      | kInt64 => z ← get_i64; mret (scalar kInt64 (V_bigint z))
      | kUInt64 => z ← get_u64; mret (scalar kUInt64 (V_ubigint z))
      | kFloat => z ← get_u32; mret (scalar kFloat (V_float z))
      | kDouble => z ← get_u64; mret (scalar kDouble (V_double z))
      | kVarchar => s ← get_string; mret (Value_STRING s)
      | kDate => z ← get_u32; mret (scalar kDate (V_date z))
      | kTimestampMs => z ← get_i64; mret (scalar kTimestampMs (V_timestamp_ms z))
      | kInterval => m ← get_i32; d ← get_i32; u ← get_i64; mret (scalar kInterval (V_interval m d u))
      | kList =>
          dt ← get_DataType; cs ← get_list32 (get_value fuel);
          c ← of_res (ListType_GetChildType dt); mret (Value_LIST c cs)
      | kArray => dt ← get_DataType; cs ← get_list32 (get_value fuel); mret (Value_ARRAY dt cs)
      | kStruct => dt ← get_DataType; cs ← get_list32 (get_value fuel); mret (Value_STRUCT dt cs)
      | _ => get_fail NotSupported
      end
  end.

Definition get_Value : parser Value := λ bs, get_value (S (length bs)) bs.

(** Values whose payload is the member their type names and within its width. *)
Definition between (lo hi z : Z) : bool := (lo <=? z) && (z <? hi).

Fixpoint value_ok (v : Value) : bool :=
  match v with
  | MkValue t null p =>
      null ||
      match id_ t, p with
      | kBoolean, V_boolean _ => true
      | kInt32, V_integer z => between (-2^31) (2^31) z
      | kUInt32, V_uinteger z | kFloat, V_float z | kDate, V_date z => between 0 (2^32) z
      | kInt64, V_bigint z | kTimestampMs, V_timestamp_ms z => between (-2^63) (2^63) z
      | kUInt64, V_ubigint z | kDouble, V_double z => between 0 (2^64) z
      | kVarchar, V_string s => short s
      | kInterval, V_interval m d u =>
          between (-2^31) (2^31) m && between (-2^31) (2^31) d && between (-2^63) (2^63) u
      | (kList | kArray | kStruct), V_nested cs =>
          type_ok t && match type_info_ t with Some _ => true | None => false end
          && short32 cs && forallb value_ok cs
      | _, _ => false
      end
  end.

(** What is read back: a null loses its type and a string the declared length;
    everything else is kept. *)
Fixpoint canon (v : Value) : Value :=
  match v with
  | MkValue t null p =>
      if null then Value_default
      else match p with
        | V_nested cs => MkValue t false (V_nested (map canon cs))
        | _ => MkValue (MkDataType (id_ t) None) false p
        end
  end.

Fixpoint value_depth (v : Value) : nat :=
  match v with
  | MkValue _ false (V_nested cs) => S (foldr (λ c n, Nat.max (value_depth c) n) 0%nat cs)
  | _ => 1
  end.

Section Value_ind.
Context (P : Value → Prop).
Context (Hscalar : ∀ t n p, (∀ cs, p ≠ V_nested cs) → P (MkValue t n p))
  (Hnested : ∀ t n cs, (∀ c, c ∈ cs → P c) → P (MkValue t n (V_nested cs))).

Fixpoint Value_nested_ind (v : Value) : P v :=
  match v with
  | MkValue t n (V_nested cs) =>
      Hnested t n cs (proj1 (Forall_forall P cs)
        ((fix go l : Forall P l :=
           match l with [] => Forall_nil_2 P | c :: l => Forall_cons_2 P c l (Value_nested_ind c) (go l) end) cs))
  | MkValue t n p => Hscalar t n p ltac:(done)
  end.
End Value_ind.

Lemma between_spec lo hi z : between lo hi z = true → lo ≤ z < hi.
Proof. unfold between. intros. bool_to_prop. lia. Qed.

(** Reads the fields of a scalar value. *)
Ltac scalar_reads :=
  eapply reads_bind; [by apply reads_id|]; cbn [mbind];
  repeat match goal with H : between _ _ _ = true |- _ => apply between_spec in H end;
  first [ apply (reads_last get_bool (λ b, scalar kBoolean (V_boolean b)))
        | apply (reads_last get_i32 (λ z, scalar kInt32 (V_integer z)))
        | apply (reads_last get_u32 (λ z, scalar kUInt32 (V_uinteger z)))
        | apply (reads_last get_i64 (λ z, scalar kInt64 (V_bigint z)))
        | apply (reads_last get_u64 (λ z, scalar kUInt64 (V_ubigint z)))
        | apply (reads_last get_u32 (λ z, scalar kFloat (V_float z)))
        | apply (reads_last get_u64 (λ z, scalar kDouble (V_double z)))
        | apply (reads_last get_u32 (λ z, scalar kDate (V_date z)))
        | apply (reads_last get_i64 (λ z, scalar kTimestampMs (V_timestamp_ms z)))
        | apply (reads_last get_string Value_STRING) ];
  archive; try done; try lia.

Lemma reads_scalar t n p fuel :
  (∀ cs, p ≠ V_nested cs) → value_ok (MkValue t n p) = true →
  reads (get_value (S fuel)) (put_value (MkValue t n p)) (canon (MkValue t n p)).
Proof.
  intros Hp Hok. destruct n; cbn [put_value get_value canon].
  { rewrite <- (put_seq_nothing (put_id kEmpty)).
    eapply reads_bind; [by apply reads_id|]. apply reads_ret. }
  cbn [value_ok orb] in Hok.
  destruct p; try (destruct (id_ t); done); try (by destruct (Hp children)).
  all: destruct (id_ t); try done; try scalar_reads.
  - bool_to_prop. rewrite !put_seq_assoc.
    repeat match goal with H : between _ _ _ = true |- _ => apply between_spec in H end.
    eapply reads_bind; [by apply reads_id|]. eapply reads_bind; [by apply reads_i32|].
    eapply reads_bind; [by apply reads_i32|].
    apply (reads_last get_i64 (λ u, scalar kInterval (V_interval months days u))). by apply reads_i64.
  - apply fits64_spec in Hok. lia.
Qed.

Lemma list_type_child t :
  type_ok t = true → id_ t = kList → is_Some (type_info_ t) →
  ∃ c, ListType_GetChildType t = Ok c ∧ t = DataType_List c.
Proof.
  destruct t as [id [i|]]; cbn; intros Hok -> [x [=]]. destruct i; try done. by eexists.
Qed.

Lemma reads_value_fuel v fuel :
  value_ok v = true → (value_depth v ≤ fuel)%nat → reads (get_value fuel) (put_value v) (canon v).
Proof.
  revert fuel. induction v as [t n p Hp|t n cs IH] using Value_nested_ind; intros [|fuel] Hok Hd.
  - destruct n, p; cbn in Hd; lia.
  - by apply reads_scalar.
  - destruct n; cbn in Hd; lia.
  - destruct n.
    { cbn [put_value get_value canon]. rewrite <- (put_seq_nothing (put_id kEmpty)).
      eapply reads_bind; [by apply reads_id|]. apply reads_ret. }
    cbn [value_depth] in Hd. cbn [value_ok orb] in Hok.
    assert (Hcs : type_ok t && match type_info_ t with Some _ => true | None => false end
              && short32 cs && forallb value_ok cs = true → 
            reads (get_list32 (get_value fuel)) (put_list32 put_value cs) (map canon cs)).
    { intros H. bool_to_prop. apply reads_list32.
      - match goal with H : short32 _ = true |- _ => apply fits32_spec in H; lia end.
      - intros c Hc. apply IH; [done|by eapply forallb_elem|].
        pose proof (foldr_max_le value_depth cs c Hc). lia. }
    cbn [put_value get_value canon].
    destruct (id_ t) eqn:Hid; try done; specialize (Hcs Hok); bool_to_prop; rewrite put_seq_assoc;
      (eapply reads_bind; [by apply reads_id|]); (eapply reads_bind; [by apply reads_type|]).
    + by apply (reads_last _ (Value_STRUCT t)).
    + rewrite <- (put_seq_nothing (put_list32 _ _)). eapply reads_bind; [done|].
      destruct (list_type_child t) as (c & Hc & ->); [done|done|by destruct (type_info_ t)|].
      rewrite Hc. split; [done|]. intros rest. done.
    + by apply (reads_last _ (Value_ARRAY t)).
Qed.

Lemma value_ok_none v : value_ok v = true → (put_value v).2 = None.
Proof. intros H. by eapply reads_none, (reads_value_fuel v (value_depth v)). Qed.

Lemma put_value_nonempty v : value_ok v = true → (1 ≤ length (put_value v).1)%nat.
Proof.
  intros Hok. pose proof (value_ok_none v Hok) as Hn. destruct v as [t [] p]; [cbn; lia|].
  destruct (put_value (MkValue t false p)) as [bs e] eqn:E. cbn in *. subst e.
  cbn in Hok, E. destruct (id_ t), p; try done; cbn in E;
    repeat match type of E with context [put_all ?f ?l] => destruct (put_all f l) as [? [?|]]
                              | context [put_type ?t] => destruct (put_type t) as [? [?|]] end;
    cbn in E; simplify_eq; cbn; lia.
Qed.

Lemma value_depth_bytes v : value_ok v = true → (value_depth v ≤ length (put_value v).1)%nat.
Proof.
  induction v as [t n p Hp|t n cs IH] using Value_nested_ind; intros Hok.
  - pose proof (put_value_nonempty _ Hok). destruct n, p; cbn [value_depth]; try lia. by destruct (Hp children).
  - pose proof (put_value_nonempty _ Hok) as Hne. destruct n; [cbn [value_depth]; lia|].
    cbn [value_depth]. pose proof (value_ok_none _ Hok) as Hnone.
    assert (Hcs : short32 cs = true ∧ forallb value_ok cs = true ∧ type_ok t = true).
    { cbn in Hok. destruct (id_ t); try done; bool_to_prop; done. }
    destruct Hcs as (_ & Hcs & Ht).
    assert (Hl : (foldr (λ c n, Nat.max (value_depth c) n) 0 cs ≤ length (put_all put_value cs).1)%nat).
    { apply foldr_max_bound. intros c Hc. etrans; [apply IH; [done|by eapply forallb_elem]|].
      apply put_all_elem_length; [|done]. intros y Hy. apply value_ok_none. by eapply forallb_elem. }
    cbn [put_value]. cbn in Hok.
    destruct (id_ t); try done; rewrite put_seq_assoc, !put_seq_length by (try done; by apply type_ok_none);
      unfold put_list32; rewrite put_seq_length by done; cbn [put_id put_uint AddBytes fst];
      rewrite !le_length; lia.
Qed.

Lemma reads_value v : value_ok v = true → reads get_Value (put_value v) (canon v).
Proof.
  intros Hok. split; [by apply value_ok_none|]. intros rest. unfold get_Value.
  apply reads_value_fuel; [done|]. rewrite length_app. pose proof (value_depth_bytes v Hok). lia.
Qed.

(** Values that are read back unchanged: nulls without a type and scalars
    without type info, at every level. *)
Fixpoint storable (v : Value) : bool :=
  match v with
  | MkValue (MkDataType kInvalid None) true V_none => true
  | MkValue _ true _ => false
  | MkValue _ false (V_nested cs) => forallb storable cs
  | MkValue (MkDataType _ None) false _ => true
  | _ => false
  end.

Lemma canon_storable v : storable v = true → canon v = v.
Proof.
  induction v as [[id info] n p Hp|[id info] n cs IH] using Value_nested_ind; intros H.
  - destruct n, p, info, id; cbn in H |- *; try done; by destruct (Hp children).
  - destruct n; [by destruct id, info|].
    assert (Hcs : forallb storable cs = true) by (by destruct id, info). cbn. f_equal. f_equal.
    change (canon <$> cs = cs). rewrite <- (list_fmap_id cs) at 2.
    apply list_fmap_ext. intros i c Hc. apply IH; [by eapply list_elem_of_lookup_2|].
    eapply forallb_elem; [done|]. by eapply list_elem_of_lookup_2.
Qed.

(** Reading back a written data type gives the type again and
    leaves exactly the bytes that followed it, for every storable type. *)
Theorem datatype_roundtrip (t : DataType) (rest : list Z) :
  type_ok t = true →
  (put_type t).2 = None ∧ get_DataType ((put_type t).1 ++ rest) = Ok (t, rest).
Proof. intros H. destruct (reads_type t H) as [H1 H2]. by split. Qed.

Definition sample_type : DataType :=
  MkDataType kStruct (Some (StructTypeInfo
    [MkDataType kInt64 None; DataType_List (DataType_Varchar 300);
     MkDataType kArray (Some (ArrayTypeInfo (MkDataType kDouble None) 3))]
    [[97]; [98; 99]; [100]])).

Lemma datatype_roundtrip_witness :
  (put_type sample_type).2 = None ∧
  get_DataType ((put_type sample_type).1 ++ [7; 8]) = Ok (sample_type, [7; 8]).
Proof. apply (datatype_roundtrip sample_type [7; 8]). vm_compute. reflexivity. Defined.

(** Reading back a written value gives its canonical form (a null
    without its type, a string without its declared length, everything else the
    same at every level of nesting) and leaves the bytes that followed; values
    that carry no such information come back unchanged. *)
Theorem value_roundtrip (v : Value) (rest : list Z) :
  value_ok v = true →
  (put_value v).2 = None ∧ get_Value ((put_value v).1 ++ rest) = Ok (canon v, rest) ∧
  (storable v = true → canon v = v).
Proof.
  intros H. destruct (reads_value v H) as [H1 H2]. split_and!; [done|done|apply canon_storable].
Qed.

Definition sample_value : Value :=
  Value_LIST (MkDataType kInt32 None)
    [scalar kInt32 (V_integer (-5)); Value_default; scalar kInt32 (V_integer 2147483647)].

Lemma value_roundtrip_witness :
  storable sample_value = true ∧
  ((put_value sample_value).2 = None ∧
   get_Value ((put_value sample_value).1 ++ [1]) = Ok (canon sample_value, [1]) ∧
   (storable sample_value = true → canon sample_value = sample_value)).
Proof.
  split; [vm_compute; reflexivity|].
  apply (value_roundtrip sample_value [1]). vm_compute. reflexivity.
Defined.

(** A value that is not null and whose type is not one of the
    storable kinds is refused with a not-supported error before anything of it
    is written, and a tag of such a kind is refused on reading. *)
Theorem unsupported_value (v : Value) (rest : list Z) (id : DataTypeId) :
  id ∈ [kInvalid; kNull; kUnknown; kInt8; kInt16; kUInt8; kUInt16; kInternalId; kMap;
        kVertex; kEdge; kPath] →
  (IsNull v = false → id_ (type_ v) = id → put_value v = ([], Some NotSupported)) ∧
  get_Value ((put_id id).1 ++ rest) = Throw NotSupported.
Proof.
  intros Hid. split.
  - destruct v as [t n p]. cbn. intros -> ->.
    by repeat (apply elem_of_cons in Hid as [->|Hid]); [destruct p..|apply not_elem_of_nil in Hid].
  - assert (Hr : reads get_id (put_id id) id).
    { apply reads_id. by repeat (apply elem_of_cons in Hid as [->|Hid]); [..|apply not_elem_of_nil in Hid]. }
    unfold get_Value. cbn [get_value]. unfold mbind, parser_bind. rewrite (proj2 Hr).
    by repeat (apply elem_of_cons in Hid as [->|Hid]); [..|apply not_elem_of_nil in Hid].
Qed.

Lemma unsupported_value_witness :
  (IsNull (scalar kInt8 V_none) = false → id_ (type_ (scalar kInt8 V_none)) = kInt8 →
   put_value (scalar kInt8 V_none) = ([], Some NotSupported)) ∧
  get_Value ((put_id kInt8).1 ++ [5]) = Throw NotSupported.
Proof. apply (unsupported_value (scalar kInt8 V_none) [5] kInt8). do 3 right. left. Defined.
