(* ===== verification/RedoRecords.v ===== *)
(** * Operation parameters and redo records

    src/storages/graph/operation_params.cc, the archive operators of
    src/storages/graph/graph_entry.cc and the redo records of
    src/transaction/wal/wal.cc: how each logged operation is written, and how
    replay (src/transaction/transaction_utils.cc) reads it back. *)

From S2P Require Import Prelude Archive Values.

(** ** Operation parameters *)

Abbreviation str := (list Z).
Abbreviation property := (list Z * Value)%type.

Record CreateVertexTypeParam := MkCreateVertexType {
  vertex_label_name : str;
  cv_properties : list property;
  primary_key_names : list str;
  cv_temporary : bool
}.

Inductive EdgeStrategy := kNone | kSingle | kMultiple | kUnnamedStrategy (code : Z).
Definition EdgeStrategy_code (s : EdgeStrategy) : Z :=
  match s with kNone => 0 | kSingle => 1 | kMultiple => 2 | kUnnamedStrategy c => c end.
Definition EdgeStrategy_of (c : Z) : EdgeStrategy :=
  if c =? 0 then kNone else if c =? 1 then kSingle else if c =? 2 then kMultiple
  else kUnnamedStrategy c.

Record CreateEdgeTypeParam := MkCreateEdgeType {
  src_label_name : str;
  dst_label_name : str;
  edge_label_name : str;
  ce_properties : list property;
  oe_edge_strategy : EdgeStrategy;
  ie_edge_strategy : EdgeStrategy;
  sort_key_for_nbr : option str;
  ce_temporary : bool
}.

(** A property is written with its type, which reading skips. *)
Definition put_property (p : property) : out :=
  put_type (type_ p.2) << put_string p.1 << put_value p.2.
Definition get_property : parser property :=
  _ ← get_DataType; name ← get_string; v ← get_Value; mret (name, v).

Definition CreateVertexTypeParam_Serialize (c : CreateVertexTypeParam) : out :=
  put_string (vertex_label_name c) << put_list32 put_property (cv_properties c)
  << put_list32 put_string (primary_key_names c).

(** [CreateVertexTypeParamBuilder::Build] *)
Definition CreateVertexTypeParam_Build (c : CreateVertexTypeParam) : res CreateVertexTypeParam :=
  if is_blank (vertex_label_name c) then Throw InvalidArgument
  else match primary_key_names c with [] => Throw InvalidArgument | _ => Ok c end.

Definition CreateVertexTypeParam_Deserialize : parser CreateVertexTypeParam :=
  label ← get_string;
  props ← get_list32 get_property;
  keys ← get_list32 get_string;
  of_res (CreateVertexTypeParam_Build (MkCreateVertexType label props keys false)).

Definition put_strategy (s : EdgeStrategy) : out := put_i32 (EdgeStrategy_code s).
Definition get_strategy : parser EdgeStrategy := c ← get_i32; mret (EdgeStrategy_of c).

Definition CreateEdgeTypeParam_Serialize (c : CreateEdgeTypeParam) : out :=
  put_string (src_label_name c) << put_string (dst_label_name c) << put_string (edge_label_name c)
  << put_list32 put_property (ce_properties c)
  << put_strategy (oe_edge_strategy c) << put_strategy (ie_edge_strategy c)
  << match sort_key_for_nbr c with
     | Some key => put_u8 1 << put_string key
     | None => put_u8 0
     end.

(** [CreateEdgeTypeParamBuilder::Build] *)
Definition CreateEdgeTypeParam_Build (c : CreateEdgeTypeParam) : res CreateEdgeTypeParam :=
  if is_blank (src_label_name c) then Throw InvalidArgument
  else if is_blank (dst_label_name c) then Throw InvalidArgument
  else if is_blank (edge_label_name c) then Throw InvalidArgument
  else Ok c.

Definition CreateEdgeTypeParam_Deserialize : parser CreateEdgeTypeParam :=
  src ← get_string; dst ← get_string; edge ← get_string;
  props ← get_list32 get_property;
  oe ← get_strategy; ie ← get_strategy;
  has_sort_key ← get_u8;
  key ← (if has_sort_key =? 0 then mret None else (k ← get_string; mret (Some k)));
  of_res (CreateEdgeTypeParam_Build (MkCreateEdgeType src dst edge props oe ie key false)).

Definition AddVertexPropertiesParam_Serialize (ps : list property) : out := put_list32 put_property ps.
Definition AddVertexPropertiesParam_Deserialize : parser (list property) := get_list32 get_property.
Definition AddEdgePropertiesParam_Serialize (ps : list property) : out := put_list32 put_property ps.
Definition AddEdgePropertiesParam_Deserialize : parser (list property) := get_list32 get_property.

Definition put_rename (r : str * str) : out := put_string r.1 << put_string r.2.
Definition get_rename : parser (str * str) := o ← get_string; n ← get_string; mret (o, n).
Definition RenameVertexPropertiesParam_Serialize (rs : list (str * str)) : out := put_list32 put_rename rs.
Definition RenameVertexPropertiesParam_Deserialize : parser (list (str * str)) := get_list32 get_rename.
Definition RenameEdgePropertiesParam_Serialize (rs : list (str * str)) : out := put_list32 put_rename rs.
Definition RenameEdgePropertiesParam_Deserialize : parser (list (str * str)) := get_list32 get_rename.
Definition DeleteVertexPropertiesParam_Serialize (ns : list str) : out := put_list32 put_string ns.
Definition DeleteVertexPropertiesParam_Deserialize : parser (list str) := get_list32 get_string.
Definition DeleteEdgePropertiesParam_Serialize (ns : list str) : out := put_list32 put_string ns.
Definition DeleteEdgePropertiesParam_Deserialize : parser (list str) := get_list32 get_string.

(** ** Projected graph entries *)

Record VertexEntryInfo := MkVertexEntryInfo { labelName : str; v_predicate : str }.
Record EdgeEntryInfo := MkEdgeEntryInfo
  { srcLabelName : str; edgeLabelName : str; dstLabelName : str; e_predicate : str }.
Record ProjectedGraphEntry := MkProjectedGraphEntry
  { vertexInfos : list VertexEntryInfo; edgeInfos : list EdgeEntryInfo }.

Definition put_VertexEntryInfo (i : VertexEntryInfo) : out :=
  put_string (labelName i) << put_string (v_predicate i).
Definition get_VertexEntryInfo : parser VertexEntryInfo :=
  l ← get_string; p ← get_string; mret (MkVertexEntryInfo l p).
Definition put_EdgeEntryInfo (i : EdgeEntryInfo) : out :=
  put_string (srcLabelName i) << put_string (edgeLabelName i) << put_string (dstLabelName i)
  << put_string (e_predicate i).
Definition get_EdgeEntryInfo : parser EdgeEntryInfo :=
  s ← get_string; e ← get_string; d ← get_string; p ← get_string; mret (MkEdgeEntryInfo s e d p).
Definition put_ProjectedGraphEntry (e : ProjectedGraphEntry) : out :=
  put_vector put_VertexEntryInfo (vertexInfos e) << put_vector put_EdgeEntryInfo (edgeInfos e).
Definition get_ProjectedGraphEntry : parser ProjectedGraphEntry :=
  v ← get_vector get_VertexEntryInfo; e ← get_vector get_EdgeEntryInfo;
  mret (MkProjectedGraphEntry v e).

Create HintDb redo.

(** ** Redo records *)

(** One logged operation.  [CreateIndex] carries the JSON text of its
    [IndexMeta], as it is stored. *)
Inductive redo :=
  | CreateVertexType (config : CreateVertexTypeParam)
  | CreateEdgeType (config : CreateEdgeTypeParam)
  | InsertVertex (vertex_type : str) (oid : Value) (props : list Value)
  | InsertEdge (src_type : str) (src : Value) (dst_type : str) (dst : Value) (edge_type : str)
      (properties : list Value)
  | UpdateVertexProp (vertex_type : str) (oid : Value) (prop_id : Z) (value : Value)
  | UpdateEdgeProp (src_type : str) (src : Value) (dst_type : str) (dst : Value) (edge_type : str)
      (oe_offset ie_offset prop_id : Z) (value : Value)
  | RemoveVertex (vertex_type : str) (oid : Value)
  | RemoveEdge (src_type : str) (src : Value) (dst_type : str) (dst : Value) (edge_type : str)
      (oe_offset ie_offset : Z)
  | AddVertexProp (vertex_type : str) (config : list property)
  | AddEdgeProp (src_type dst_type edge_type : str) (config : list property)
  | RenameVertexProp (vertex_type : str) (config : list (str * str))
  | RenameEdgeProp (src_type dst_type edge_type : str) (config : list (str * str))
  | DeleteVertexProp (vertex_type : str) (config : list str)
  | DeleteEdgeProp (src_type dst_type edge_type : str) (config : list str)
  | DeleteVertexType (vertex_type : str)
  | DeleteEdgeType (src_type dst_type edge_type : str)
  | AddGraphEntry (name : str) (entry : ProjectedGraphEntry)
  | DropGraphEntry (name : str)
  | CreateIndex (meta_json : str)
  | DropIndex (name : str)
  | ActivateIndexes
  | OptimizeIndexes (names : list str).

(** [OpType] *)
Definition OpType (r : redo) : Z :=
  match r with
  | CreateVertexType _ => 0 | CreateEdgeType _ => 1 | InsertVertex _ _ _ => 2
  | InsertEdge _ _ _ _ _ _ => 3 | UpdateVertexProp _ _ _ _ => 4
  | UpdateEdgeProp _ _ _ _ _ _ _ _ _ => 5 | RemoveVertex _ _ => 6 | RemoveEdge _ _ _ _ _ _ _ => 7
  | AddVertexProp _ _ => 8 | AddEdgeProp _ _ _ _ => 9 | RenameVertexProp _ _ => 10
  | RenameEdgeProp _ _ _ _ => 11 | DeleteVertexProp _ _ => 12 | DeleteEdgeProp _ _ _ _ => 13
  | DeleteVertexType _ => 14 | DeleteEdgeType _ _ _ => 15 | AddGraphEntry _ _ => 16
  | DropGraphEntry _ => 17 | CreateIndex _ => 18 | DropIndex _ => 19 | ActivateIndexes => 20
  | OptimizeIndexes _ => 21
  end.

Definition put_triplet (s d e : str) : out := put_string s << put_string d << put_string e.
Definition put_edge_key (st : str) (s : Value) (dt : str) (d : Value) (et : str) : out :=
  put_string st << put_value s << put_string dt << put_value d << put_string et.

(** The [Serialize] of each redo record, after the operation type, which
    [put_redo] writes. *)
Definition CreateVertexTypeRedo_Serialize (c : CreateVertexTypeParam) : out :=
  CreateVertexTypeParam_Serialize c.
Definition CreateEdgeTypeRedo_Serialize (c : CreateEdgeTypeParam) : out :=
  CreateEdgeTypeParam_Serialize c.
Definition InsertVertexRedo_Serialize (t : str) (oid : Value) (props : list Value) : out :=
  put_string t << put_value oid << put_list32 put_value props.
Definition InsertEdgeRedo_Serialize (st : str) (s : Value) (dt : str) (d : Value) (et : str) (props : list Value) : out :=
  put_edge_key st s dt d et << put_list32 put_value props.
Definition UpdateVertexPropRedo_Serialize (t : str) (oid : Value) (p : Z) (v : Value) : out :=
  put_string t << put_value oid << put_i32 p << put_value v.
Definition UpdateEdgePropRedo_Serialize (st : str) (s : Value) (dt : str) (d : Value) (et : str) (oe ie p : Z) (v : Value) : out :=
  put_edge_key st s dt d et << put_i32 oe << put_i32 ie << put_i32 p << put_value v.
Definition RemoveVertexRedo_Serialize (t : str) (oid : Value) : out :=
  put_string t << put_value oid.
Definition RemoveEdgeRedo_Serialize (st : str) (s : Value) (dt : str) (d : Value) (et : str) (oe ie : Z) : out :=
  put_edge_key st s dt d et << put_i32 oe << put_i32 ie.
Definition AddVertexPropertiesRedo_Serialize (t : str) (c : list property) : out :=
  put_string t << AddVertexPropertiesParam_Serialize c.
Definition AddEdgePropertiesRedo_Serialize (s d e : str) (c : list property) : out :=
  put_triplet s d e << AddEdgePropertiesParam_Serialize c.
Definition RenameVertexPropertiesRedo_Serialize (t : str) (c : list (str * str)) : out :=
  put_string t << RenameVertexPropertiesParam_Serialize c.
Definition RenameEdgePropertiesRedo_Serialize (s d e : str) (c : list (str * str)) : out :=
  put_triplet s d e << RenameEdgePropertiesParam_Serialize c.
Definition DeleteVertexPropertiesRedo_Serialize (t : str) (c : list str) : out :=
  put_string t << DeleteVertexPropertiesParam_Serialize c.
Definition DeleteEdgePropertiesRedo_Serialize (s d e : str) (c : list str) : out :=
  put_triplet s d e << DeleteEdgePropertiesParam_Serialize c.
Definition DeleteVertexTypeRedo_Serialize (t : str) : out :=
  put_string t.
Definition DeleteEdgeTypeRedo_Serialize (s d e : str) : out :=
  put_triplet s d e.
Definition AddGraphEntryRedo_Serialize (n : str) (e : ProjectedGraphEntry) : out :=
  put_string n << put_ProjectedGraphEntry e.
Definition DropGraphEntryRedo_Serialize (n : str) : out :=
  put_string n.
Definition CreateIndexRedo_Serialize (json : str) : out :=
  put_string json.
Definition DropIndexRedo_Serialize (n : str) : out :=
  put_string n.
Definition ActivateIndexesRedo_Serialize : out := put_nothing.
Definition OptimizeIndexesRedo_Serialize (ns : list str) : out :=
  put_list32 put_string ns.

Definition put_redo_body (r : redo) : out :=
  match r with
  | CreateVertexType c => CreateVertexTypeRedo_Serialize c
  | CreateEdgeType c => CreateEdgeTypeRedo_Serialize c
  | InsertVertex t oid props => InsertVertexRedo_Serialize t oid props
  | InsertEdge st s dt d et props => InsertEdgeRedo_Serialize st s dt d et props
  | UpdateVertexProp t oid p v => UpdateVertexPropRedo_Serialize t oid p v
  | UpdateEdgeProp st s dt d et oe ie p v => UpdateEdgePropRedo_Serialize st s dt d et oe ie p v
  | RemoveVertex t oid => RemoveVertexRedo_Serialize t oid
  | RemoveEdge st s dt d et oe ie => RemoveEdgeRedo_Serialize st s dt d et oe ie
  | AddVertexProp t c => AddVertexPropertiesRedo_Serialize t c
  | AddEdgeProp s d e c => AddEdgePropertiesRedo_Serialize s d e c
  | RenameVertexProp t c => RenameVertexPropertiesRedo_Serialize t c
  | RenameEdgeProp s d e c => RenameEdgePropertiesRedo_Serialize s d e c
  | DeleteVertexProp t c => DeleteVertexPropertiesRedo_Serialize t c
  | DeleteEdgeProp s d e c => DeleteEdgePropertiesRedo_Serialize s d e c
  | DeleteVertexType t => DeleteVertexTypeRedo_Serialize t
  | DeleteEdgeType s d e => DeleteEdgeTypeRedo_Serialize s d e
  | AddGraphEntry n e => AddGraphEntryRedo_Serialize n e
  | DropGraphEntry n => DropGraphEntryRedo_Serialize n
  | CreateIndex json => CreateIndexRedo_Serialize json
  | DropIndex n => DropIndexRedo_Serialize n
  | ActivateIndexes => ActivateIndexesRedo_Serialize
  | OptimizeIndexes ns => OptimizeIndexesRedo_Serialize ns
  end.

Definition put_redo (r : redo) : out := put_u8 (OpType r) << put_redo_body r.

(** The [Deserialize] of each redo record. *)
Definition CreateVertexTypeRedo_Deserialize : parser redo :=
  c ← CreateVertexTypeParam_Deserialize; mret (CreateVertexType c).
Definition CreateEdgeTypeRedo_Deserialize : parser redo :=
  c ← CreateEdgeTypeParam_Deserialize; mret (CreateEdgeType c).
Definition InsertVertexRedo_Deserialize : parser redo :=
  t ← get_string; oid ← get_Value; ps ← get_list32 get_Value; mret (InsertVertex t oid ps).
Definition InsertEdgeRedo_Deserialize : parser redo :=
  st ← get_string; s ← get_Value; dt ← get_string; d ← get_Value; et ← get_string;
  ps ← get_list32 get_Value; mret (InsertEdge st s dt d et ps).
Definition UpdateVertexPropRedo_Deserialize : parser redo :=
  t ← get_string; oid ← get_Value; p ← get_i32; v ← get_Value; mret (UpdateVertexProp t oid p v).
Definition UpdateEdgePropRedo_Deserialize : parser redo :=
  st ← get_string; s ← get_Value; dt ← get_string; d ← get_Value; et ← get_string;
  oe ← get_i32; ie ← get_i32; p ← get_i32; v ← get_Value;
  mret (UpdateEdgeProp st s dt d et oe ie p v).
Definition RemoveVertexRedo_Deserialize : parser redo :=
  t ← get_string; oid ← get_Value; mret (RemoveVertex t oid).
Definition RemoveEdgeRedo_Deserialize : parser redo :=
  st ← get_string; s ← get_Value; dt ← get_string; d ← get_Value; et ← get_string;
  oe ← get_i32; ie ← get_i32; mret (RemoveEdge st s dt d et oe ie).
Definition AddVertexPropertiesRedo_Deserialize : parser redo :=
  t ← get_string; c ← AddVertexPropertiesParam_Deserialize; mret (AddVertexProp t c).
Definition AddEdgePropertiesRedo_Deserialize : parser redo :=
  s ← get_string; d ← get_string; e ← get_string; c ← AddEdgePropertiesParam_Deserialize;
  mret (AddEdgeProp s d e c).
Definition RenameVertexPropertiesRedo_Deserialize : parser redo :=
  t ← get_string; c ← RenameVertexPropertiesParam_Deserialize; mret (RenameVertexProp t c).
Definition RenameEdgePropertiesRedo_Deserialize : parser redo :=
  s ← get_string; d ← get_string; e ← get_string; c ← RenameEdgePropertiesParam_Deserialize;
  mret (RenameEdgeProp s d e c).
Definition DeleteVertexPropertiesRedo_Deserialize : parser redo :=
  t ← get_string; c ← DeleteVertexPropertiesParam_Deserialize; mret (DeleteVertexProp t c).
Definition DeleteEdgePropertiesRedo_Deserialize : parser redo :=
  s ← get_string; d ← get_string; e ← get_string; c ← DeleteEdgePropertiesParam_Deserialize;
  mret (DeleteEdgeProp s d e c).
Definition DeleteVertexTypeRedo_Deserialize : parser redo :=
  t ← get_string; mret (DeleteVertexType t).
Definition DeleteEdgeTypeRedo_Deserialize : parser redo :=
  s ← get_string; d ← get_string; e ← get_string; mret (DeleteEdgeType s d e).
Definition AddGraphEntryRedo_Deserialize : parser redo :=
  n ← get_string; e ← get_ProjectedGraphEntry; mret (AddGraphEntry n e).
Definition DropGraphEntryRedo_Deserialize : parser redo :=
  n ← get_string; mret (DropGraphEntry n).
Definition CreateIndexRedo_Deserialize : parser redo :=
  j ← get_string; mret (CreateIndex j).
Definition DropIndexRedo_Deserialize : parser redo :=
  n ← get_string; mret (DropIndex n).
Definition ActivateIndexesRedo_Deserialize : parser redo :=
  mret ActivateIndexes.
Definition OptimizeIndexesRedo_Deserialize : parser redo :=
  ns ← get_list32 get_string; mret (OptimizeIndexes ns).

(** The reader is selected by the operation type, as [ReplayCowGraphWal] does. *)
Definition get_redo_body (op : Z) : parser redo :=
  if op =? 0 then CreateVertexTypeRedo_Deserialize
  else if op =? 1 then CreateEdgeTypeRedo_Deserialize
  else if op =? 2 then InsertVertexRedo_Deserialize
  else if op =? 3 then InsertEdgeRedo_Deserialize
  else if op =? 4 then UpdateVertexPropRedo_Deserialize
  else if op =? 5 then UpdateEdgePropRedo_Deserialize
  else if op =? 6 then RemoveVertexRedo_Deserialize
  else if op =? 7 then RemoveEdgeRedo_Deserialize
  else if op =? 8 then AddVertexPropertiesRedo_Deserialize
  else if op =? 9 then AddEdgePropertiesRedo_Deserialize
  else if op =? 10 then RenameVertexPropertiesRedo_Deserialize
  else if op =? 11 then RenameEdgePropertiesRedo_Deserialize
  else if op =? 12 then DeleteVertexPropertiesRedo_Deserialize
  else if op =? 13 then DeleteEdgePropertiesRedo_Deserialize
  else if op =? 14 then DeleteVertexTypeRedo_Deserialize
  else if op =? 15 then DeleteEdgeTypeRedo_Deserialize
  else if op =? 16 then AddGraphEntryRedo_Deserialize
  else if op =? 17 then DropGraphEntryRedo_Deserialize
  else if op =? 18 then CreateIndexRedo_Deserialize
  else if op =? 19 then DropIndexRedo_Deserialize
  else if op =? 20 then ActivateIndexesRedo_Deserialize
  else if op =? 21 then OptimizeIndexesRedo_Deserialize
  else get_fail NotSupported.

#[export] Hint Unfold put_edge_key put_triplet
  CreateVertexTypeRedo_Serialize CreateVertexTypeRedo_Deserialize CreateEdgeTypeRedo_Serialize
  CreateEdgeTypeRedo_Deserialize InsertVertexRedo_Serialize InsertVertexRedo_Deserialize
  InsertEdgeRedo_Serialize InsertEdgeRedo_Deserialize UpdateVertexPropRedo_Serialize
  UpdateVertexPropRedo_Deserialize UpdateEdgePropRedo_Serialize UpdateEdgePropRedo_Deserialize
  RemoveVertexRedo_Serialize RemoveVertexRedo_Deserialize RemoveEdgeRedo_Serialize
  RemoveEdgeRedo_Deserialize AddVertexPropertiesRedo_Serialize AddVertexPropertiesRedo_Deserialize
  AddEdgePropertiesRedo_Serialize AddEdgePropertiesRedo_Deserialize RenameVertexPropertiesRedo_Serialize
  RenameVertexPropertiesRedo_Deserialize RenameEdgePropertiesRedo_Serialize RenameEdgePropertiesRedo_Deserialize
  DeleteVertexPropertiesRedo_Serialize DeleteVertexPropertiesRedo_Deserialize DeleteEdgePropertiesRedo_Serialize
  DeleteEdgePropertiesRedo_Deserialize DeleteVertexTypeRedo_Serialize DeleteVertexTypeRedo_Deserialize
  DeleteEdgeTypeRedo_Serialize DeleteEdgeTypeRedo_Deserialize AddGraphEntryRedo_Serialize
  AddGraphEntryRedo_Deserialize DropGraphEntryRedo_Serialize DropGraphEntryRedo_Deserialize
  CreateIndexRedo_Serialize CreateIndexRedo_Deserialize DropIndexRedo_Serialize
  DropIndexRedo_Deserialize ActivateIndexesRedo_Serialize ActivateIndexesRedo_Deserialize
  OptimizeIndexesRedo_Serialize OptimizeIndexesRedo_Deserialize
  : redo.

Definition get_redo : parser redo := op ← get_u8; get_redo_body op.

(** The replay loop: records until the archive is empty. *)
Fixpoint get_redos (fuel : nat) (bs : list Z) : res (list redo) :=
  match bs with
  | [] => Ok []
  | _ =>
      match fuel with
      | O => Throw OutOfBounds
      | S fuel =>
          match get_redo bs with
          | Ok (r, rest) => match get_redos fuel rest with Ok rs => Ok (r :: rs) | Throw e => Throw e end
          | Throw e => Throw e
          end
      end
  end.
Definition ReplayCowGraphWal_parse (content : list Z) : res (list redo) :=
  get_redos (length content) content.

(** ** Round trips *)

Definition str_ok (s : str) : bool := short s.
Definition strs_ok (l : list str) : bool := short32 l && forallb str_ok l.
Definition property_ok (p : property) : bool :=
  str_ok p.1 && value_ok p.2 && type_ok (type_ p.2).
Definition properties_ok (l : list property) : bool := short32 l && forallb property_ok l.
Definition values_ok (l : list Value) : bool := short32 l && forallb value_ok l.
Definition renames_ok (l : list (str * str)) : bool :=
  short32 l && forallb (λ r, str_ok r.1 && str_ok r.2) l.
Definition int_ok (z : Z) : bool := between (-2^31) (2^31) z.
Definition strategy_ok (s : EdgeStrategy) : bool :=
  match s with kUnnamedStrategy _ => false | _ => true end.
Definition named_ok (s : str) : bool := str_ok s && negb (is_blank s).
Definition vinfo_ok (i : VertexEntryInfo) : bool := str_ok (labelName i) && str_ok (v_predicate i).
Definition einfo_ok (i : EdgeEntryInfo) : bool :=
  str_ok (srcLabelName i) && str_ok (edgeLabelName i) && str_ok (dstLabelName i)
  && str_ok (e_predicate i).

(** Records whose fields fit their widths and that the builders accept. *)
Definition redo_ok (r : redo) : bool :=
  match r with
  | CreateVertexType c =>
      named_ok (vertex_label_name c) && properties_ok (cv_properties c)
      && strs_ok (primary_key_names c) && negb (length (primary_key_names c) =? 0)%nat
  | CreateEdgeType c =>
      named_ok (src_label_name c) && named_ok (dst_label_name c) && named_ok (edge_label_name c)
      && properties_ok (ce_properties c) && strategy_ok (oe_edge_strategy c)
      && strategy_ok (ie_edge_strategy c)
      && match sort_key_for_nbr c with Some k => str_ok k | None => true end
  | InsertVertex t oid ps => str_ok t && value_ok oid && values_ok ps
  | InsertEdge st s dt d et ps =>
      str_ok st && value_ok s && str_ok dt && value_ok d && str_ok et && values_ok ps
  | UpdateVertexProp t oid p v => str_ok t && value_ok oid && int_ok p && value_ok v
  | UpdateEdgeProp st s dt d et oe ie p v =>
      str_ok st && value_ok s && str_ok dt && value_ok d && str_ok et
      && int_ok oe && int_ok ie && int_ok p && value_ok v
  | RemoveVertex t oid => str_ok t && value_ok oid
  | RemoveEdge st s dt d et oe ie =>
      str_ok st && value_ok s && str_ok dt && value_ok d && str_ok et && int_ok oe && int_ok ie
  | AddVertexProp t c => str_ok t && properties_ok c
  | AddEdgeProp s d e c => str_ok s && str_ok d && str_ok e && properties_ok c
  | RenameVertexProp t c => str_ok t && renames_ok c
  | RenameEdgeProp s d e c => str_ok s && str_ok d && str_ok e && renames_ok c
  | DeleteVertexProp t c => str_ok t && strs_ok c
  | DeleteEdgeProp s d e c => str_ok s && str_ok d && str_ok e && strs_ok c
  | DeleteVertexType t => str_ok t
  | DeleteEdgeType s d e => str_ok s && str_ok d && str_ok e
  | AddGraphEntry n e =>
      str_ok n && short (vertexInfos e) && forallb vinfo_ok (vertexInfos e)
      && short (edgeInfos e) && forallb einfo_ok (edgeInfos e)
  | DropGraphEntry n | CreateIndex n | DropIndex n => str_ok n
  | ActivateIndexes => true
  | OptimizeIndexes ns => strs_ok ns
  end.

(** What replay sees: values in canonical form, and no temporary flag. *)
Definition canon_property (p : property) : property := (p.1, canon p.2).
Definition canon_redo (r : redo) : redo :=
  match r with
  | CreateVertexType c => CreateVertexType
      (MkCreateVertexType (vertex_label_name c) (canon_property <$> cv_properties c)
         (primary_key_names c) false)
  | CreateEdgeType c => CreateEdgeType
      (MkCreateEdgeType (src_label_name c) (dst_label_name c) (edge_label_name c)
         (canon_property <$> ce_properties c) (oe_edge_strategy c) (ie_edge_strategy c)
         (sort_key_for_nbr c) false)
  | InsertVertex t oid ps => InsertVertex t (canon oid) (canon <$> ps)
  | InsertEdge st s dt d et ps => InsertEdge st (canon s) dt (canon d) et (canon <$> ps)
  | UpdateVertexProp t oid p v => UpdateVertexProp t (canon oid) p (canon v)
  | UpdateEdgeProp st s dt d et oe ie p v =>
      UpdateEdgeProp st (canon s) dt (canon d) et oe ie p (canon v)
  | RemoveVertex t oid => RemoveVertex t (canon oid)
  | RemoveEdge st s dt d et oe ie => RemoveEdge st (canon s) dt (canon d) et oe ie
  | AddVertexProp t c => AddVertexProp t (canon_property <$> c)
  | AddEdgeProp s d e c => AddEdgeProp s d e (canon_property <$> c)
  | r => r
  end.

(** Records that are read back unchanged: not of a temporary type, with values that
    carry no type info beyond their type id and no null with a type. *)
Definition storable_redo (r : redo) : bool :=
  match r with
  | CreateVertexType c => negb (cv_temporary c) && forallb (storable ∘ snd) (cv_properties c)
  | CreateEdgeType c => negb (ce_temporary c) && forallb (storable ∘ snd) (ce_properties c)
  | InsertVertex _ oid ps => storable oid && forallb storable ps
  | InsertEdge _ s _ d _ ps => storable s && storable d && forallb storable ps
  | UpdateVertexProp _ oid _ v => storable oid && storable v
  | UpdateEdgeProp _ s _ d _ _ _ _ v => storable s && storable d && storable v
  | RemoveVertex _ oid => storable oid
  | RemoveEdge _ s _ d _ _ _ => storable s && storable d
  | AddVertexProp _ c => forallb (storable ∘ snd) c
  | AddEdgeProp _ _ _ c => forallb (storable ∘ snd) c
  | _ => true
  end.

Lemma canon_values_storable l : forallb storable l = true → canon <$> l = l.
Proof.
  intros H. rewrite <- (list_fmap_id l) at 2. apply list_fmap_ext. intros i v Hv.
  apply canon_storable. eapply forallb_elem; [done|]. by eapply list_elem_of_lookup_2.
Qed.

Lemma canon_properties_storable (l : list property) : forallb (storable ∘ snd) l = true → canon_property <$> l = l.
Proof.
  intros H. rewrite <- (list_fmap_id l) at 2. apply list_fmap_ext. intros i [n v] Hv.
  unfold canon_property. cbn. rewrite canon_storable; [done|].
  apply (forallb_elem _ _ _ H (list_elem_of_lookup_2 _ _ _ Hv)).
Qed.

Lemma canon_redo_storable r : storable_redo r = true → canon_redo r = r.
Proof.
  intros H. destruct r; cbn in H |- *; try done;
    repeat match goal with E : _ && _ = true |- _ => apply andb_true_iff in E as [? ?] end;
    rewrite ?canon_values_storable, ?canon_properties_storable, ?canon_storable by done; try done.
  - by match goal with c : CreateVertexTypeParam |- _ => destruct c as [? ? ? []] end.
  - by match goal with c : CreateEdgeTypeParam |- _ => destruct c as [? ? ? ? ? ? ? []] end.
Qed.

Lemma reads_str s : str_ok s = true → reads get_string (put_string s) s.
Proof. intros H. apply fits64_spec in H. apply reads_string. lia. Qed.

Lemma reads_int z : int_ok z = true → reads get_i32 (put_i32 z) z.
Proof. intros H. apply reads_i32. by apply between_spec. Qed.

Lemma reads_list_id {A} (p : parser A) put (ok : A → bool) l :
  short32 l && forallb ok l = true → (∀ x, ok x = true → reads p (put x) x) →
  reads (get_list32 p) (put_list32 put l) l.
Proof.
  intros [Hs Hl]%andb_true_iff Hp. eapply reads_congr; [apply (reads_list32 _ _ id)|apply list_fmap_id].
  - apply fits32_spec in Hs. lia.
  - intros x Hx. apply Hp. by eapply forallb_elem.
Qed.

Lemma reads_vector_id {A} (p : parser A) put (ok : A → bool) l :
  short l = true → forallb ok l = true → (∀ x, ok x = true → reads p (put x) x) →
  reads (get_vector p) (put_vector put l) l.
Proof.
  intros Hs Hl Hp. eapply reads_congr; [apply (reads_vector _ _ id)|apply list_fmap_id].
  - apply fits64_spec in Hs. lia.
  - intros x Hx. apply Hp. by eapply forallb_elem.
Qed.

Lemma reads_strs l : strs_ok l = true → reads (get_list32 get_string) (put_list32 put_string l) l.
Proof. intros H. by apply (reads_list_id _ _ str_ok), reads_str. Qed.

Lemma reads_values l :
  values_ok l = true → reads (get_list32 get_Value) (put_list32 put_value l) (canon <$> l).
Proof.
  intros [Hs Hl]%andb_true_iff. apply reads_list32; [apply fits32_spec in Hs; lia|].
  intros x Hx. apply reads_value. by eapply forallb_elem.
Qed.

(** Solves the reading of one field. *)
Ltac field :=
  first [ eassumption
        | apply reads_str; assumption | apply reads_int; assumption | apply reads_value; assumption
        | apply reads_values; assumption | apply reads_strs; assumption | apply reads_type; assumption ].

(** Reads a record field by field. *)
Ltac fields :=
  rewrite ?put_seq_assoc;
  repeat (eapply reads_bind; [field|]);
  eapply reads_congr; [eapply reads_last; field|reflexivity].

Lemma reads_property p : property_ok p = true → reads get_property (put_property p) (canon_property p).
Proof. destruct p as [n v]. unfold property_ok. cbn. intros H. bool_to_prop. unfold get_property, put_property. fields. Qed.

Lemma reads_properties l :
  properties_ok l = true →
  reads (get_list32 get_property) (put_list32 put_property l) (canon_property <$> l).
Proof.
  intros [Hs Hl]%andb_true_iff. apply reads_list32; [apply fits32_spec in Hs; lia|].
  intros x Hx. apply reads_property. by eapply forallb_elem.
Qed.

Lemma reads_renames l : renames_ok l = true → reads (get_list32 get_rename) (put_list32 put_rename l) l.
Proof.
  intros H. eapply (reads_list_id _ _ _ l H). intros [o n] Hx. cbn in Hx. bool_to_prop.
  unfold get_rename, put_rename. cbn [fst snd]. fields.
Qed.

Lemma reads_strategy s : strategy_ok s = true → reads get_strategy (put_strategy s) s.
Proof.
  intros H. unfold get_strategy, put_strategy. eapply reads_congr.
  - apply (reads_last get_i32 EdgeStrategy_of), reads_i32. destruct s; cbn; lia || done.
  - by destruct s.
Qed.

Lemma reads_entry e :
  short (vertexInfos e) = true → forallb vinfo_ok (vertexInfos e) = true →
  short (edgeInfos e) = true → forallb einfo_ok (edgeInfos e) = true →
  reads get_ProjectedGraphEntry (put_ProjectedGraphEntry e) e.
Proof.
  destruct e as [vi ei]. cbn [vertexInfos edgeInfos]. intros H1 H2 H3 H4.
  assert (reads (get_vector get_VertexEntryInfo) (put_vector put_VertexEntryInfo vi) vi).
  { apply (reads_vector_id _ _ vinfo_ok); [done..|]. intros [l p] Hx. unfold vinfo_ok in Hx. cbn [labelName v_predicate] in Hx.
    bool_to_prop. unfold get_VertexEntryInfo, put_VertexEntryInfo. cbn [labelName v_predicate]. fields. }
  assert (reads (get_vector get_EdgeEntryInfo) (put_vector put_EdgeEntryInfo ei) ei).
  { apply (reads_vector_id _ _ einfo_ok); [done..|]. intros [s l d p] Hx. unfold einfo_ok in Hx.
    cbn [srcLabelName edgeLabelName dstLabelName e_predicate] in Hx. bool_to_prop.
    unfold get_EdgeEntryInfo, put_EdgeEntryInfo. cbn [srcLabelName edgeLabelName dstLabelName e_predicate]. fields. }
  unfold get_ProjectedGraphEntry, put_ProjectedGraphEntry. fields.
Qed.

Lemma named_ok_spec s : named_ok s = true → str_ok s = true ∧ is_blank s = false.
Proof. unfold named_ok. intros. by bool_to_prop. Qed.

Lemma reads_create_vertex c :
  redo_ok (CreateVertexType c) = true →
  reads CreateVertexTypeParam_Deserialize (CreateVertexTypeParam_Serialize c)
    (MkCreateVertexType (vertex_label_name c) (canon_property <$> cv_properties c)
       (primary_key_names c) false).
Proof.
  destruct c as [l ps ks tmp]. cbn [redo_ok vertex_label_name cv_properties primary_key_names].
  intros H. bool_to_prop. destruct (named_ok_spec l) as [Hl Hb]; [done|].
  unfold CreateVertexTypeParam_Deserialize, CreateVertexTypeParam_Serialize.
  cbn [vertex_label_name cv_properties primary_key_names].
  pose proof (reads_properties ps ltac:(done)). rewrite <- (put_seq_nothing (put_list32 put_string ks)), !put_seq_assoc.
  do 3 (eapply reads_bind; [field|]). apply reads_of_res.
  unfold CreateVertexTypeParam_Build. cbn [vertex_label_name primary_key_names]. rewrite Hb. by destruct ks.
Qed.

Lemma reads_create_edge c :
  redo_ok (CreateEdgeType c) = true →
  reads CreateEdgeTypeParam_Deserialize (CreateEdgeTypeParam_Serialize c)
    (MkCreateEdgeType (src_label_name c) (dst_label_name c) (edge_label_name c)
       (canon_property <$> ce_properties c) (oe_edge_strategy c) (ie_edge_strategy c)
       (sort_key_for_nbr c) false).
Proof.
  destruct c as [s d e ps oe ie key tmp].
  cbn [redo_ok src_label_name dst_label_name edge_label_name ce_properties oe_edge_strategy
       ie_edge_strategy sort_key_for_nbr].
  intros H. bool_to_prop.
  destruct (named_ok_spec s) as [Hs Hsb]; [done|]. destruct (named_ok_spec d) as [Hd Hdb]; [done|].
  destruct (named_ok_spec e) as [He Heb]; [done|].
  unfold CreateEdgeTypeParam_Deserialize, CreateEdgeTypeParam_Serialize.
  cbn [src_label_name dst_label_name edge_label_name ce_properties oe_edge_strategy
       ie_edge_strategy sort_key_for_nbr].
  pose proof (reads_properties ps ltac:(done)).
  pose proof (reads_strategy oe ltac:(done)). pose proof (reads_strategy ie ltac:(done)).
  assert (Hb : CreateEdgeTypeParam_Build (MkCreateEdgeType s d e (canon_property <$> ps) oe ie key false)
             = Ok (MkCreateEdgeType s d e (canon_property <$> ps) oe ie key false)).
  { unfold CreateEdgeTypeParam_Build. cbn [src_label_name dst_label_name edge_label_name]. by rewrite Hsb, Hdb, Heb. }
  rewrite <- (put_seq_nothing (match key with Some _ => _ | None => _ end)), !put_seq_assoc.
  do 6 (eapply reads_bind; [field|]).
  destruct key as [k|]; rewrite ?put_seq_assoc.
  - eapply reads_bind; [by apply (reads_uint 1)|]. cbn [Z.eqb].
    eapply reads_bind; [|by apply reads_of_res]. by apply (reads_last get_string Some), reads_str.
  - eapply reads_bind; [by apply (reads_uint 1)|]. cbn [Z.eqb].
    rewrite <- (put_seq_nothing put_nothing).
    eapply reads_bind; [apply reads_ret|]. by apply reads_of_res.
Qed.

Lemma reads_redo_body r : redo_ok r = true → reads (get_redo_body (OpType r)) (put_redo_body r) (canon_redo r).
Proof.
  intros H. destruct r; cbn [OpType]; unfold get_redo_body; cbn [Z.eqb Pos.eqb put_redo_body canon_redo];
    autounfold with redo;
    unfold AddVertexPropertiesParam_Deserialize, AddVertexPropertiesParam_Serialize,
      AddEdgePropertiesParam_Deserialize, AddEdgePropertiesParam_Serialize,
      RenameVertexPropertiesParam_Deserialize, RenameVertexPropertiesParam_Serialize,
      RenameEdgePropertiesParam_Deserialize, RenameEdgePropertiesParam_Serialize,
      DeleteVertexPropertiesParam_Deserialize, DeleteVertexPropertiesParam_Serialize,
      DeleteEdgePropertiesParam_Deserialize, DeleteEdgePropertiesParam_Serialize.
  - eapply reads_congr; [by apply reads_last, reads_create_vertex|reflexivity].
  - eapply reads_congr; [by apply reads_last, reads_create_edge|reflexivity].
  - cbn [redo_ok] in H. bool_to_prop. fields.
  - cbn [redo_ok] in H. bool_to_prop. fields.
  - cbn [redo_ok] in H. bool_to_prop. fields.
  - cbn [redo_ok] in H. bool_to_prop. fields.
  - cbn [redo_ok] in H. bool_to_prop. fields.
  - cbn [redo_ok] in H. bool_to_prop. fields.
  - cbn [redo_ok] in H. bool_to_prop. pose proof (reads_properties config ltac:(done)). fields.
  - cbn [redo_ok] in H. bool_to_prop. pose proof (reads_properties config ltac:(done)). fields.
  - cbn [redo_ok] in H. bool_to_prop. pose proof (reads_renames config ltac:(done)). fields.
  - cbn [redo_ok] in H. bool_to_prop. pose proof (reads_renames config ltac:(done)). fields.
  - cbn [redo_ok] in H. bool_to_prop. fields.
  - cbn [redo_ok] in H. bool_to_prop. fields.
  - fields.
  - cbn [redo_ok] in H. bool_to_prop. fields.
  - cbn [redo_ok] in H. bool_to_prop. pose proof (reads_entry entry ltac:(done) ltac:(done) ltac:(done) ltac:(done)). fields.
  - fields.
  - fields.
  - fields.
  - apply reads_ret.
  - fields.
Qed.

Lemma reads_redo r : redo_ok r = true → reads get_redo (put_redo r) (canon_redo r).
Proof.
  intros H. unfold get_redo, put_redo. eapply reads_bind; [|by apply reads_redo_body].
  apply (reads_uint 1). destruct r; cbn; lia.
Qed.

Lemma put_redo_nonempty r : put_redo r = ([], None) → False.
Proof. unfold put_redo. by destruct (put_redo_body r). Qed.

Lemma get_redos_all rs fuel :
  forallb redo_ok rs = true → (length (put_all put_redo rs).1 ≤ fuel)%nat →
  (put_all put_redo rs).2 = None ∧ get_redos fuel (put_all put_redo rs).1 = Ok (canon_redo <$> rs).
Proof.
  revert fuel. induction rs as [|r rs IH]; intros fuel Hok Hf; [by destruct fuel|].
  cbn [forallb] in Hok. apply andb_true_iff in Hok as [Hr Hrs].
  destruct (reads_redo r Hr) as [Hn Hrd]. rewrite put_all_cons in *.
  rewrite put_seq_length in Hf by done.
  destruct (put_redo r) as [b e] eqn:Eb. cbn [fst snd] in *. subst e.
  destruct b as [|x b]; [by destruct (put_redo_nonempty r)|].
  destruct fuel as [|fuel]; [cbn in Hf; lia|].
  destruct (IH fuel) as [Hn' Hg]; [done|cbn in Hf; lia|].
  destruct (put_all put_redo rs) as [b' e'] eqn:Eb'. cbn [fst snd put_seq] in *. subst e'. split; [done|].
  change (get_redos (S fuel) ((x :: b) ++ b'))
    with (match get_redo ((x :: b) ++ b') with
          | Ok (r, rest) => match get_redos fuel rest with Ok rs => Ok (r :: rs) | Throw e => Throw e end
          | Throw e => Throw e
          end).
  by rewrite Hrd, Hg.
Qed.

(** C38: Writing a redo record and reading it back.  For a record of any
    operation whose fields fit their widths and that the parameter builders accept
    ([redo_ok]): writing it does not fail; reading what was written consumes exactly
    its bytes, whatever follows them; and it gives the canonical form of the
    operation, which has the operation type, names, keys, indexes and values of the
    logged one, except that a null value has no type, a scalar value has only its
    type id (a string no declared length) and a created type is not temporary.  A
    record without such information ([storable_redo]) is read back exactly. *)
Theorem redo_roundtrip (r : redo) (rest : list Z) :
  redo_ok r = true →
  (put_redo r).2 = None ∧ get_redo ((put_redo r).1 ++ rest) = Ok (canon_redo r, rest) ∧
  (storable_redo r = true → get_redo ((put_redo r).1 ++ rest) = Ok (r, rest)).
Proof.
  intros H. destruct (reads_redo r H) as [H1 H2]. split_and!; [done|done|].
  intros Hs. by rewrite H2, canon_redo_storable.
Qed.

Definition sample_redo : redo :=
  InsertEdge [80] (scalar kInt64 (V_bigint 7)) [81] (Value_STRING [120; 121]) [82; 83]
    [scalar kDouble (V_double 4614253070214989087); scalar kBoolean (V_boolean true)].

Lemma redo_roundtrip_witness :
  (put_redo sample_redo).2 = None ∧
  get_redo ((put_redo sample_redo).1 ++ [9]) = Ok (canon_redo sample_redo, [9]) ∧
  (storable_redo sample_redo = true → get_redo ((put_redo sample_redo).1 ++ [9]) = Ok (sample_redo, [9])).
Proof. apply (redo_roundtrip sample_redo [9]). vm_compute. reflexivity. Defined.

(** The declared length of a string property does not survive
    the log: a vertex type logged with a VARCHAR default of any declared length
    is replayed with a default of type VARCHAR without a length, although the
    type is written in front of it. *)
Theorem varchar_width_lost (label key : str) (text : str) (max_length : Z) (rest : list Z) :
  let logged := MkCreateVertexType label [(key, Value_VARCHAR text max_length)] [key] false in
  redo_ok (CreateVertexType logged) = true →
  get_redo ((put_redo (CreateVertexType logged)).1 ++ rest)
    = Ok (CreateVertexType (MkCreateVertexType label [(key, Value_STRING text)] [key] false), rest) ∧
  type_ (Value_STRING text) = MkDataType kVarchar None ∧
  type_ (Value_VARCHAR text max_length) = MkDataType kVarchar (Some (StringTypeInfo max_length)).
Proof.
  intros logged H. destruct (reads_redo _ H) as [_ Hr]. split_and!; [|done|done]. by rewrite Hr.
Qed.

Lemma varchar_width_lost_witness :
  let logged := MkCreateVertexType [65] [([107], Value_VARCHAR [] 64)] [[107]] false in
  get_redo ((put_redo (CreateVertexType logged)).1 ++ [])
    = Ok (CreateVertexType (MkCreateVertexType [65] [([107], Value_STRING [])] [[107]] false), []) ∧
  type_ (Value_STRING []) = MkDataType kVarchar None ∧
  type_ (Value_VARCHAR [] 64) = MkDataType kVarchar (Some (StringTypeInfo 64)).
Proof. apply (varchar_width_lost [65] [107] [] 64 []). vm_compute. reflexivity. Defined.
