(* ===== verification/WalFormat.v ===== *)
(** * The write-ahead log record

    [WalHeader] (include/neug/transaction/wal/wal.h) and [WalBuilder]
    (src/transaction/wal/wal_builder.cc).  The header is two 32-bit words in
    the bit-field layout of the Itanium ABI: the timestamp, then the type in
    bit 0 and the signed 31-bit length above it. *)

From S2P Require Import Prelude Archive Values RedoRecords.

Record WalHeader := MkWalHeader { timestamp : Z; type : Z; length_ : Z }.

Definition sizeof_WalHeader : nat := 8.
Definition i31 (z : Z) : Z := (z + 2^30) `mod` 2^31 - 2^30.

Definition put_header (h : WalHeader) : list Z :=
  le 4 (timestamp h) ++ le 4 (type h `mod` 2 + 2 * (length_ h `mod` 2^31)).

Definition get_header (bs : list Z) : WalHeader :=
  let w := un_le (take 4 (drop 4 bs)) in
  MkWalHeader (un_le (take 4 bs)) (w `mod` 2) (i31 (w `div` 2)).

Lemma put_header_length h : length (put_header h) = 8%nat.
Proof. unfold put_header. by rewrite length_app, !le_length. Qed.

Lemma get_put_header h rest :
  is_u32 (timestamp h) → 0 ≤ type h < 2 → -2^30 ≤ length_ h < 2^30 →
  get_header (put_header h ++ rest) = h.
Proof.
  intros Ht Hy Hl. unfold get_header, put_header, is_u32 in *. rewrite <- app_assoc.
  rewrite (take_app_length' _ _ 4), (drop_app_length' _ _ 4), (take_app_length' _ _ 4) by (by rewrite le_length).
  rewrite !un_le_le. change (8 * Z.of_nat 4) with 32. destruct h as [t y l]. cbn [timestamp type length_] in *.
  f_equal; unfold i31; dlia.
Qed.

Module WalBuilder.

Record builder := MkBuilder { arc_ : list Z; op_num_ : Z; schema_changed_ : bool }.

(** The constructor leaves room for the header. *)
Definition init : builder := MkBuilder (replicate sizeof_WalHeader 0) 0 false.

(** The [Log] methods set [schema_changed_] for DDL only; optimising indexes
    does not count. *)
Definition is_ddl (r : redo) : bool :=
  match r with
  | InsertVertex _ _ _ | InsertEdge _ _ _ _ _ _ | UpdateVertexProp _ _ _ _
  | UpdateEdgeProp _ _ _ _ _ _ _ _ _ | RemoveVertex _ _ | RemoveEdge _ _ _ _ _ _ _
  | OptimizeIndexes _ => false
  | _ => true
  end.

(** A [Log] method: serialize, count, and mark; an exception leaves the bytes
    already written in the buffer and the counters unchanged. *)
Definition log (r : redo) (b : builder) : builder * option exn :=
  let '(bs, e) := put_redo r in
  match e with
  | None => (MkBuilder (arc_ b ++ bs) (op_num_ b + 1) (schema_changed_ b || is_ddl r), None)
  | Some x => (MkBuilder (arc_ b ++ bs) (op_num_ b) (schema_changed_ b), Some x)
  end.

Definition size (b : builder) : Z := Z.of_nat (length (arc_ b)).
Definition content_size (b : builder) : Z := u64 (size b - Z.of_nat sizeof_WalHeader).

(** The header is written over the first bytes of the buffer. *)
Definition finalize (ts : Z) (b : builder) : res builder :=
  if (length (arc_ b) <? sizeof_WalHeader)%nat then Throw OutOfBounds
  else Ok (MkBuilder (put_header (MkWalHeader ts 1 (size b - Z.of_nat sizeof_WalHeader))
                        ++ drop sizeof_WalHeader (arc_ b)) (op_num_ b) (schema_changed_ b)).

Definition clear (b : builder) : builder := MkBuilder [] 0 false.

Fixpoint log_all (rs : list redo) (b : builder) : builder * option exn :=
  match rs with
  | [] => (b, None)
  | r :: rs => match log r b with
               | (b', None) => log_all rs b'
               | (b', Some e) => (b', Some e)
               end
  end.

(** ** What a transaction's buffer contains *)

Lemma log_ok r b :
  redo_ok r = true →
  log r b = (MkBuilder (arc_ b ++ (put_redo r).1) (op_num_ b + 1) (schema_changed_ b || is_ddl r), None).
Proof.
  intros H. destruct (reads_redo r H) as [Hn _]. unfold log. destruct (put_redo r). cbn in *. by subst.
Qed.

Lemma log_all_ok rs b :
  forallb redo_ok rs = true →
  log_all rs b = (MkBuilder (arc_ b ++ (put_all put_redo rs).1) (op_num_ b + Z.of_nat (length rs))
                    (schema_changed_ b || existsb is_ddl rs), None).
Proof.
  revert b. induction rs as [|r rs IH]; intros b H.
  - cbn. rewrite app_nil_r, Z.add_0_r, orb_false_r. by destruct b.
  - cbn [forallb] in H. apply andb_true_iff in H as [Hr Hrs]. cbn [log_all]. rewrite log_ok by done.
    rewrite IH by done. cbn [arc_ op_num_ schema_changed_]. rewrite put_all_cons.
    destruct (reads_redo r Hr) as [Hn _]. destruct (put_redo r) as [bs e]. cbn in Hn. subst e.
    destruct (put_all put_redo rs) as [bs' e'] eqn:E. cbn [put_seq fst existsb].
    rewrite <- app_assoc, <- orb_assoc. do 2 f_equal. cbn [length]. lia.
Qed.

(** The finished record of a transaction. *)
Definition record_of (ts : Z) (rs : list redo) : list Z :=
  let content := (put_all put_redo rs).1 in
  put_header (MkWalHeader ts 1 (Z.of_nat (length content))) ++ content.

Definition build (ts : Z) (rs : list redo) : res (list Z) :=
  match log_all rs init with
  | (b, None) => arc_ <$> finalize ts b
  | (_, Some e) => Throw e
  end.

Lemma build_record ts rs : forallb redo_ok rs = true → build ts rs = Ok (record_of ts rs).
Proof.
  intros H. unfold build. rewrite log_all_ok by done. cbn [arc_ init]. unfold finalize. cbn [arc_].
  rewrite length_app, length_replicate.
  destruct (Nat.ltb_spec (sizeof_WalHeader + length (put_all put_redo rs).1) sizeof_WalHeader); [lia|].
  unfold size. cbn [arc_ fmap res_fmap]. unfold record_of. cbn [arc_].
  rewrite drop_app_length', length_app, length_replicate by done. do 4 f_equal. lia.
Qed.

End WalBuilder.
