(* ===== verification/WalWriter.v ===== *)
(** * LocalWalWriter

    src/transaction/wal/local_wal_writer.cc.  The file is the bytes written so
    far in a preallocated file of zeros; what the operating system answers to
    each call is an input, so that every pattern of short writes,
    interruptions and failures is covered. *)

From S2P Require Import Prelude Archive WalFormat.

(** ** Files *)

(** [data] are the explicit bytes; up to [fsize] the rest is zero. *)
Record file := MkFile { data : list Z; fsize : Z }.

Definition zeros (n : nat) : list Z := replicate n 0.

(** Bytes [off, off + length bs) replaced; the file grows if needed. *)
Definition pwrite_bytes (f : file) (off : nat) (bs : list Z) : file :=
  let d := data f ++ zeros (off - length (data f)) in
  MkFile (take off d ++ bs ++ drop (off + length bs) d)
    (Z.max (fsize f) (Z.of_nat (off + length bs))).

Definition ftruncate (f : file) (size : Z) : file := MkFile (take (Z.to_nat size) (data f)) size.

(** Byte [i] of a file. *)
Definition byte_at (f : file) (i : nat) : Z := default 0 (data f !! i).

(** ** The writer *)

Module LocalWalWriter.

Definition TRUNC_SIZE : Z := 2^30.

Record writer := MkWriter {
  opened_ : bool;
  poisoned_ : bool;
  fd_ : option file;
  file_size_ : Z;
  file_used_ : Z;
  on_disk : list file         (* files this writer has closed *)
}.

Definition init : writer := MkWriter false false None 0 0 [].

(** One answer of [pwrite]. *)
Inductive write_answer := Written (n : nat) | Interrupted | WriteError.

(** The answers to one [append]. *)
Record answers := MkAnswers {
  create_ok : bool;           (* open, directory fsync and first ftruncate *)
  resize_ok : bool;
  writes : list write_answer;
  sync_ok : bool
}.

(** What an operation returned. *)
Inductive result (A : Type) := Returned (a : A) | Threw (e : exn) | Pending.
Arguments Returned {A} a.
Arguments Threw {A} e.
Arguments Pending {A}.

(** The descriptor is retired before it is closed; the file stays on disk. *)
Definition close_file (w : writer) : writer :=
  MkWriter (opened_ w) (poisoned_ w) None 0 0
    (on_disk w ++ match fd_ w with Some f => [f] | None => [] end).

Definition set_file (f : file) (size : Z) (w : writer) : writer :=
  MkWriter (opened_ w) (poisoned_ w) (Some f) size (file_used_ w) (on_disk w).

Definition retire_after_append_failure (w : writer) : writer :=
  close_file (MkWriter (opened_ w) true (fd_ w) (file_size_ w) (file_used_ w) (on_disk w)).

(** [close_ok]: the answer of [::close] on an open descriptor. *)
Definition close (close_ok : bool) (w : writer) : writer * result unit :=
  let was_open := match fd_ w with Some _ => true | None => false end in
  let w' := close_file (MkWriter false (poisoned_ w) (fd_ w) (file_size_ w) (file_used_ w) (on_disk w)) in
  if was_open && negb close_ok then (w', Threw IOError) else (w', Returned tt).

Definition open (close_ok : bool) (w : writer) : writer * result unit :=
  if poisoned_ w then (w, Threw IOError)
  else match close close_ok w with
    | (w', Returned _) =>
        (MkWriter true (poisoned_ w') (fd_ w') (file_size_ w') (file_used_ w') (on_disk w'), Returned tt)
    | r => r
    end.

(** The write loop: [total] bytes of [bs] are out; the answers not used are
    returned.  [None] when the last answer has not come. *)
Fixpoint write_all_at (f : file) (bs : list Z) (off total : nat) (ans : list write_answer)
  : option (file * bool * list write_answer) :=
  if (total <? length bs)%nat then
    match ans with
    | [] => None
    | Interrupted :: ans => write_all_at f bs off total ans
    | WriteError :: ans => Some (f, false, ans)
    | Written n :: ans =>
        let n := Nat.min n (length bs - total) in
        if (n =? 0)%nat then Some (f, false, ans)
        else write_all_at (pwrite_bytes f (off + total) (take n (drop total bs))) bs off (total + n) ans
    end
  else Some (f, true, ans).

Definition terminator : list Z := put_header (MkWalHeader 0 0 0).

(** The bytes of the record and of the terminator behind it. *)
Definition write_record (f : file) (bs : list Z) (used : nat) (ans : list write_answer)
  : option (file * bool) :=
  match write_all_at f bs used 0 ans with
  | None => None
  | Some (f, false, _) => Some (f, false)
  | Some (f, true, ans) =>
      match write_all_at f terminator (used + length bs) 0 ans with
      | None => None
      | Some (f, ok, _) => Some (f, ok)
      end
  end.

Definition create_file (w : writer) : writer :=
  MkWriter (opened_ w) (poisoned_ w) (Some (MkFile [] TRUNC_SIZE)) TRUNC_SIZE 0 (on_disk w).

(** The part of [append] after a file is open. *)
Definition append_open (f : file) (w : writer) (bs : list Z) (a : answers) : writer * result bool :=
  let len := Z.of_nat (length bs) in
  let expected_size := file_used_ w + len + Z.of_nat sizeof_WalHeader in
  let grow := file_size_ w <? expected_size in
  if grow && negb (resize_ok a) then (retire_after_append_failure w, Threw IOError)
  else
    let new_size := if grow then (expected_size / TRUNC_SIZE + 1) * TRUNC_SIZE else file_size_ w in
    let f := if grow then ftruncate f new_size else f in
    match write_record f bs (Z.to_nat (file_used_ w)) (writes a) with
    | None => (set_file f new_size w, Pending)
    | Some (f, false) => (retire_after_append_failure (set_file f new_size w), Threw IOError)
    | Some (f, true) =>
        if sync_ok a
        then (MkWriter (opened_ w) (poisoned_ w) (Some f) new_size (file_used_ w + len) (on_disk w),
              Returned true)
        else (retire_after_append_failure (set_file f new_size w), Threw IOError)
    end.

Definition append (bs : list Z) (a : answers) (w : writer) : writer * result bool :=
  if poisoned_ w then (w, Threw IOError)
  else if negb (opened_ w) then (w, Returned false)
  else if (length bs =? 0)%nat then (w, Returned true)
  else match fd_ w with
    | Some f => append_open f w bs a
    | None =>
        if create_ok a
        then append_open (MkFile [] TRUNC_SIZE) (create_file w) bs a
        else (close_file w, Returned false)
    end.

End LocalWalWriter.

(** ** What the write loop leaves in the file *)

Section files.
Import LocalWalWriter.

Lemma byte_at_beyond f i : (length (data f) ≤ i)%nat → byte_at f i = 0.
Proof. intros H. unfold byte_at. by rewrite lookup_ge_None_2. Qed.

Lemma byte_at_pad f n i : default 0 ((data f ++ zeros n) !! i) = byte_at f i.
Proof.
  unfold byte_at. destruct (decide (i < length (data f))%nat) as [Hi|Hi].
  - by rewrite lookup_app_l.
  - rewrite lookup_app_r, (lookup_ge_None_2 (data f)) by lia. cbn.
    destruct (zeros n !! _) as [z|] eqn:E; [|done]. by apply lookup_replicate_1 in E as [-> _].
Qed.

Lemma byte_at_pwrite f off bs i :
  byte_at (pwrite_bytes f off bs) i =
  if decide (off ≤ i < off + length bs)%nat then default 0 (bs !! (i - off)%nat) else byte_at f i.
Proof.
  unfold pwrite_bytes. set (d := data f ++ zeros (off - length (data f))).
  assert (Hd : (off ≤ length d)%nat) by (unfold d, zeros; rewrite length_app, length_replicate; lia).
  assert (Hpad : ∀ j, default 0 (d !! j) = byte_at f j) by (intros; apply byte_at_pad).
  unfold byte_at at 1. cbn [data].
  destruct (decide (off ≤ i < off + length bs)%nat) as [Hi|Hi].
  - rewrite lookup_app_r; rewrite length_take_le by done; [|lia]. by rewrite lookup_app_l by lia.
  - destruct (decide (i < off)%nat).
    + rewrite lookup_app_l by (rewrite length_take_le; lia). rewrite lookup_take_lt by lia. apply Hpad.
    + rewrite lookup_app_r; rewrite length_take_le by done; [|lia]. rewrite lookup_app_r by lia.
      rewrite lookup_drop. replace (off + length bs + (i - off - length bs))%nat with i by lia. apply Hpad.
Qed.

Lemma fsize_pwrite f off bs :
  Z.of_nat (off + length bs) ≤ fsize f → fsize (pwrite_bytes f off bs) = fsize f.
Proof. cbn. lia. Qed.

(** Bytes [from, to) of the file are those of [bs] at [off]. *)
Lemma write_all_at_spec ans f bs off total f' ok rest :
  write_all_at f bs off total ans = Some (f', ok, rest) →
  Z.of_nat (off + length bs) ≤ fsize f →
  fsize f' = fsize f ∧
  (∀ i, ¬ (off + total ≤ i < off + length bs)%nat → byte_at f' i = byte_at f i) ∧
  (ok = true → ∀ i, (off + total ≤ i < off + length bs)%nat →
     byte_at f' i = default 0 (bs !! (i - off)%nat)).
Proof.
  revert f total. induction ans as [|a ans IH]; intros f total H Hs; cbn [write_all_at] in H.
  - destruct (Nat.ltb_spec total (length bs)); simplify_eq. split_and!; [done|done|lia].
  - destruct (Nat.ltb_spec total (length bs)) as [Hlt|]; [|simplify_eq; split_and!; [done|done|lia]].
    destruct a as [n| |]; [|by apply IH|by simplify_eq].
    set (m := Nat.min n (length bs - total)) in *.
    destruct (Nat.eqb_spec m 0); [by simplify_eq|].
    assert (Hlen : length (take m (drop total bs)) = m) by (rewrite length_take, length_drop; lia).
    destruct (IH _ _ H) as (Hf & Hout & Hin); [rewrite fsize_pwrite; rewrite ?Hlen; lia|].
    rewrite fsize_pwrite in Hf by (rewrite Hlen; lia). split_and!; [done| |].
    + intros i Hi. rewrite Hout by lia. rewrite byte_at_pwrite, Hlen.
      destruct (decide _); [lia|done].
    + intros Hok i Hi. destruct (decide (off + (total + m) ≤ i)%nat).
      * apply Hin; [done|lia].
      * rewrite Hout by lia. rewrite byte_at_pwrite, Hlen. destruct (decide _); [|lia].
        rewrite lookup_take_lt, lookup_drop by lia. do 2 f_equal. lia.
Qed.

(** In any case the loop has written a beginning of [bs] and nothing else. *)
Lemma write_all_at_torn ans f bs off total f' ok rest :
  write_all_at f bs off total ans = Some (f', ok, rest) → (total ≤ length bs)%nat →
  Z.of_nat (off + length bs) ≤ fsize f →
  ∃ k, (total ≤ k ≤ length bs)%nat ∧ (ok = true → k = length bs) ∧
    ∀ i, byte_at f' i = if decide (off + total ≤ i < off + k)%nat then default 0 (bs !! (i - off)%nat)
                        else byte_at f i.
Proof.
  revert f total. induction ans as [|a ans IH]; intros f total H Ht Hs; cbn [write_all_at] in H.
  - destruct (Nat.ltb_spec total (length bs)); simplify_eq. exists total.
    split_and!; [lia..|intros; lia|]. intros i. by rewrite decide_False by lia.
  - assert (Hnone : ∃ k, (total ≤ k ≤ length bs)%nat ∧ (total = length bs ∨ ok = false → ok = true → k = length bs) ∧
      ∀ i, byte_at f i = if decide (off + total ≤ i < off + k)%nat then default 0 (bs !! (i - off)%nat) else byte_at f i).
    { exists total. split_and!; [lia..|intros []; [lia|congruence]|]. intros i. by rewrite decide_False by lia. }
    destruct Hnone as (k0 & Hk0 & Hend & Hsame).
    destruct (Nat.ltb_spec total (length bs)) as [Hlt|].
    2: { simplify_eq. exists k0. split_and!; [lia..|intros; apply Hend; [left; lia|done]|done]. }
    destruct a as [n| |]; [|by apply IH|simplify_eq; exists k0; split_and!; [lia..|done|done]].
    set (m := Nat.min n (length bs - total)) in *.
    destruct (Nat.eqb_spec m 0); [simplify_eq; exists k0; split_and!; [lia..|done|done]|].
    assert (Hlen : length (take m (drop total bs)) = m) by (rewrite length_take, length_drop; lia).
    destruct (IH _ _ H) as (k & Hk & Hok & Hin); [lia|rewrite fsize_pwrite; rewrite ?Hlen; lia|].
    exists k. split_and!; [lia|lia|done|]. intros i. rewrite Hin, byte_at_pwrite, Hlen.
    destruct (decide (off + (total + m) ≤ i < off + k)%nat), (decide (off + total ≤ i < off + k)%nat),
      (decide (off + total ≤ i < off + total + m)%nat); try lia; try done.
    rewrite lookup_take_lt, lookup_drop by lia. do 2 f_equal. lia.
Qed.

(** The loop always ends when the system answers every call and does not
    interrupt or shorten for ever: one byte per answer is enough. *)
Lemma write_all_at_progress ans f bs off total :
  (∀ a, a ∈ ans → ∃ n, a = Written (S n)) → (length bs - total ≤ length ans)%nat →
  ∃ f' rest, write_all_at f bs off total ans = Some (f', true, rest).
Proof.
  revert f total. induction ans as [|a ans IH]; intros f total Ha Hl; cbn [write_all_at].
  - destruct (Nat.ltb_spec total (length bs)); [cbn in Hl; lia|eauto].
  - destruct (Nat.ltb_spec total (length bs)) as [Hlt|]; [|eauto].
    destruct (Ha a ltac:(left)) as [n ->].
    destruct (Nat.eqb_spec (Nat.min (S n) (length bs - total)) 0); [lia|].
    apply IH; [intros; apply Ha; by right|cbn in Hl; lia].
Qed.
End files.

(** ** The writer's promise *)

Section append.
Import LocalWalWriter.

(** The file is [recs] followed by zeros. *)
Definition holds (f : file) (recs : list Z) : Prop :=
  ∀ i, byte_at f i = default 0 (recs !! i).

Definition writer_inv (w : writer) (recs : list Z) : Prop :=
  poisoned_ w = false ∧ file_used_ w = Z.of_nat (length recs) ∧
  match fd_ w with
  | Some f => holds f recs ∧ fsize f = file_size_ w
  | None => recs = []
  end.

Lemma holds_empty n : holds (MkFile [] n) [].
Proof. by intros i. Qed.

Lemma holds_truncate f recs n :
  holds f recs → Z.of_nat (length recs) ≤ n → holds (ftruncate f n) recs.
Proof.
  intros Hh Hn i. unfold byte_at, ftruncate. cbn [data].
  destruct (decide (i < Z.to_nat n)%nat).
  - rewrite lookup_take_lt by done. apply Hh.
  - rewrite lookup_take_ge by lia. by rewrite lookup_ge_None_2 by lia.
Qed.

Lemma terminator_zero i : default 0 (terminator !! i) = 0.
Proof. by do 8 (destruct i as [|i]; [done|]). Qed.

Lemma terminator_length : length terminator = 8%nat.
Proof. done. Qed.

(** A record written completely extends the records; in any case the ones
    before it are untouched. *)
Lemma write_record_spec f recs bs ans f' ok :
  holds f recs → write_record f bs (length recs) ans = Some (f', ok) →
  Z.of_nat (length recs + length bs + 8) ≤ fsize f →
  fsize f' = fsize f ∧ (ok = true → holds f' (recs ++ bs)) ∧
  (∀ i, (i < length recs)%nat → byte_at f' i = default 0 (recs !! i)).
Proof.
  intros Hh Hw Hs. unfold write_record in Hw.
  destruct (write_all_at f bs (length recs) 0 ans) as [[[f1 ok1] ans1]|] eqn:E1; [|done].
  destruct (write_all_at_spec _ _ _ _ _ _ _ _ E1) as (Hf1 & Hout1 & Hin1); [lia|].
  destruct ok1.
  2:{ simplify_eq. split_and!; [done|done|]. intros i Hi. rewrite Hout1 by lia. apply Hh. }
  destruct (write_all_at f1 terminator (length recs + length bs) 0 ans1) as [[[f2 ok2] ans2]|] eqn:E2; [|done].
  simplify_eq.
  destruct (write_all_at_spec _ _ _ _ _ _ _ _ E2) as (Hf2 & Hout2 & Hin2); [rewrite terminator_length; lia|].
  split_and!; [congruence| |].
  - intros -> i. destruct (decide (length recs + length bs ≤ i)%nat) as [Hi|Hi].
    + rewrite (lookup_ge_None_2 (recs ++ bs)) by (rewrite length_app; lia). cbn.
      destruct (decide (i < length recs + length bs + 8)%nat).
      * rewrite Hin2 by (rewrite ?terminator_length; first [done|lia]). apply terminator_zero.
      * rewrite Hout2 by (rewrite terminator_length; lia). rewrite Hout1 by lia.
        rewrite Hh. by rewrite lookup_ge_None_2 by lia.
    + rewrite Hout2 by lia. destruct (decide (i < length recs)%nat).
      * rewrite Hout1 by lia. rewrite Hh. by rewrite lookup_app_l by lia.
      * rewrite Hin1 by (first [done|lia]). by rewrite lookup_app_r by lia.
  - intros i Hi. rewrite Hout2 by lia. rewrite Hout1 by lia. apply Hh.
Qed.

(** However the write ends, the file holds the earlier records, a beginning of
    the record, and zeros. *)
Lemma write_record_torn f recs bs ans f' ok :
  holds f recs → write_record f bs (length recs) ans = Some (f', ok) →
  Z.of_nat (length recs + length bs + 8) ≤ fsize f →
  ∃ k, (k ≤ length bs)%nat ∧ holds f' (recs ++ take k bs).
Proof.
  intros Hh Hw Hs. unfold write_record in Hw.
  destruct (write_all_at f bs (length recs) 0 ans) as [[[f1 ok1] ans1]|] eqn:E1; [|done].
  destruct (write_all_at_torn _ _ _ _ _ _ _ _ E1) as (k & Hk & Hok & H1); [lia|lia|].
  assert (Hh1 : holds f1 (recs ++ take k bs)).
  { intros i. rewrite H1. destruct (decide _) as [Hi|Hi].
    - rewrite lookup_app_r, lookup_take_lt by lia. done.
    - rewrite Hh. destruct (decide (i < length recs)%nat).
      + by rewrite lookup_app_l.
      + rewrite (lookup_ge_None_2 recs), lookup_app_r, lookup_take_ge by lia. done. }
  exists k. split; [lia|]. destruct ok1; [|by simplify_eq].
  destruct (write_all_at f1 terminator _ 0 ans1) as [[[f2 ok2] ans2]|] eqn:E2; [|done]. simplify_eq.
  destruct (write_all_at_spec _ _ _ _ _ _ _ _ E1) as (Hf1 & _); [lia|].
  destruct (write_all_at_torn _ _ _ _ _ _ _ _ E2) as (j & Hj & _ & H2); [lia|rewrite terminator_length in *; lia|].
  rewrite (Hok eq_refl) in *. intros i. rewrite H2. destruct (decide _) as [Hi|]; [|apply Hh1].
  rewrite terminator_zero, lookup_ge_None_2; [done|]. rewrite length_app, length_take. lia.
Qed.

Definition keeps (recs : list Z) (w w' : writer) : Prop :=
  ∃ f, on_disk w' = on_disk w ++ [f] ∧
       ∀ i, (i < length recs)%nat → byte_at f i = default 0 (recs !! i).

Lemma append_open_spec f w recs bs a w' r :
  poisoned_ w = false → file_used_ w = Z.of_nat (length recs) → fd_ w = Some f →
  holds f recs → fsize f = file_size_ w →
  append_open f w bs a = (w', r) →
  match r with
  | Returned b => b = true ∧ writer_inv w' (recs ++ bs) ∧ on_disk w' = on_disk w ∧
                  Z.of_nat (length (recs ++ bs) + 8) ≤ file_size_ w' ∧ is_Some (fd_ w')
  | Threw e => e = IOError ∧ poisoned_ w' = true ∧ keeps recs w w'
  | Pending => True
  end.
Proof.
  intros Hp Hu Hfd Hh Hsz Ha. unfold append_open in Ha. rewrite Hu, Nat2Z.id in Ha.
  set (es := Z.of_nat (length recs) + Z.of_nat (length bs) + Z.of_nat sizeof_WalHeader) in *.
  assert (Hes : es = Z.of_nat (length recs + length bs + 8)) by (unfold es, sizeof_WalHeader; lia).
  destruct (Z.ltb_spec (file_size_ w) es) as [Hg|Hg]; cbn [andb] in Ha.
  - destruct (resize_ok a); cbn [negb] in Ha.
    2:{ simplify_eq. split_and!; [done|done|]. exists f. cbn. rewrite Hfd. split; [done|]. intros i _. apply Hh. }
    set (ns := (es `div` TRUNC_SIZE + 1) * TRUNC_SIZE) in *.
    assert (Hns : es ≤ ns) by (unfold ns, TRUNC_SIZE; dlia).
    destruct (write_record (ftruncate f ns) bs (length recs) (writes a)) as [[f' ok]|] eqn:E;
      [|by simplify_eq].
    destruct (write_record_spec (ftruncate f ns) recs bs (writes a) f' ok) as (Hf' & Hall & Hpre);
      [apply holds_truncate; [done|lia]|done|cbn; lia|].
    destruct ok; [destruct (sync_ok a)|]; simplify_eq.
    + split_and!; [done| |done|cbn; rewrite length_app; lia|by eexists].
      split_and!; cbn; [done|rewrite length_app; lia|split; [by apply Hall|done]].
    + split_and!; [done|done|]. exists f'. by split.
    + split_and!; [done|done|]. exists f'. by split.
  - destruct (write_record f bs (length recs) (writes a)) as [[f' ok]|] eqn:E; [|by simplify_eq].
    destruct (write_record_spec f recs bs (writes a) f' ok) as (Hf' & Hall & Hpre); [done|done|lia|].
    destruct ok; [destruct (sync_ok a)|]; simplify_eq.
    + split_and!; [done| |done|cbn; rewrite length_app; lia|by eexists].
      split_and!; cbn; [done|rewrite length_app; lia|split; [by apply Hall|congruence]].
    + split_and!; [done|done|]. exists f'. by split.
    + split_and!; [done|done|]. exists f'. by split.
Qed.

Lemma append_cases (w w' : writer) (recs bs : list Z) (a : answers) (r : result bool) :
  writer_inv w recs → append bs a w = (w', r) →
  match r with
  | Returned true => writer_inv w' (recs ++ bs) ∧ on_disk w' = on_disk w ∧
      (bs ≠ [] → Z.of_nat (length (recs ++ bs) + 8) ≤ file_size_ w' ∧ is_Some (fd_ w'))
  | Returned false => writer_inv w' recs ∧ on_disk w' = on_disk w
  | Threw e => e = IOError ∧ poisoned_ w' = true ∧ keeps recs w w'
  | Pending => True
  end.
Proof.
  intros (Hp & Hu & Hfd) Ha. unfold append in Ha. rewrite Hp in Ha.
  destruct (opened_ w); cbn [negb] in Ha; [|simplify_eq; by split_and!].
  destruct (Nat.eqb_spec (length bs) 0) as [Hl|Hl].
  { apply nil_length_inv in Hl as ->. simplify_eq. rewrite app_nil_r. by split_and!. }
  destruct (fd_ w) as [f|] eqn:Ef.
  - destruct Hfd as [Hh Hsz]. pose proof (append_open_spec f w recs bs a w' r Hp Hu Ef Hh Hsz Ha) as Hr.
    destruct r as [b|e|]; [|done|done]. destruct Hr as (-> & ? & ? & ? & ?). by split_and!.
  - subst recs. destruct (create_ok a).
    + pose proof (append_open_spec (MkFile [] TRUNC_SIZE) (create_file w) [] bs a w' r) as Hr.
      ospecialize* Hr; [done..|].
      destruct r as [b|e|]; [|done|done]. destruct Hr as (-> & ? & ? & ? & ?). by split_and!.
    + simplify_eq. cbn. rewrite Ef, app_nil_r. by split_and!.
Qed.

(** The file of an append that throws. *)
Definition torn_file (f : file) (recs bs : list Z) (k : nat) : Prop :=
  (k ≤ length bs)%nat ∧ holds f (recs ++ take k bs) ∧
  ((0 < k)%nat → Z.of_nat (length recs + length bs + 8) ≤ fsize f).

Lemma append_open_torn f w recs bs a w' e :
  file_used_ w = Z.of_nat (length recs) → fd_ w = Some f → holds f recs → fsize f = file_size_ w →
  append_open f w bs a = (w', Threw e) →
  ∃ f' k, on_disk w' = on_disk w ++ [f'] ∧ torn_file f' recs bs k.
Proof.
  intros Hu Hfd Hh Hsz Ha. unfold append_open in Ha. rewrite Hu, Nat2Z.id in Ha.
  set (es := Z.of_nat (length recs) + Z.of_nat (length bs) + Z.of_nat sizeof_WalHeader) in *.
  assert (Hes : es = Z.of_nat (length recs + length bs + 8)) by (unfold es, sizeof_WalHeader; lia).
  set (grow := file_size_ w <? es) in *. destruct (grow && negb (resize_ok a)) eqn:Eg.
  { simplify_eq. exists f, 0%nat. cbn. rewrite Hfd. split; [done|]. split_and!; [lia|by rewrite take_0, app_nil_r|lia]. }
  set (ns := if grow then (es `div` TRUNC_SIZE + 1) * TRUNC_SIZE else file_size_ w) in *. set (f0 := if grow then ftruncate f ns else f) in *.
  assert (H0 : holds f0 recs ∧ es ≤ fsize f0).
  { unfold f0, ns, grow. destruct (Z.ltb_spec (file_size_ w) es); [|split; [done|lia]].
    assert (es ≤ (es `div` TRUNC_SIZE + 1) * TRUNC_SIZE) by (unfold TRUNC_SIZE; dlia).
    split; [apply holds_truncate; [done|lia]|done]. }
  destruct H0 as [H0 Hf0].
  destruct (write_record f0 bs (length recs) (writes a)) as [[f' ok]|] eqn:E; [|by simplify_eq].
  destruct (write_record_spec f0 recs bs (writes a) f' ok H0 E) as (Hf' & _); [lia|].
  destruct (write_record_torn f0 recs bs (writes a) f' ok H0 E) as (k & Hk & Hh'); [lia|].
  exists f', k. assert (on_disk w' = on_disk w ++ [f']) by (destruct ok; [destruct (sync_ok a)|]; by simplify_eq).
  split; [done|]. split_and!; [done|done|lia].
Qed.

Lemma append_torn w w' recs bs a e :
  writer_inv w recs → append bs a w = (w', Threw e) →
  ∃ f k, on_disk w' = on_disk w ++ [f] ∧ torn_file f recs bs k.
Proof.
  intros (Hp & Hu & Hfd) Ha. unfold append in Ha. rewrite Hp in Ha.
  destruct (opened_ w); cbn [negb] in Ha; [|by simplify_eq].
  destruct (Nat.eqb_spec (length bs) 0) as [Hl|Hl]; [by simplify_eq|].
  destruct (fd_ w) as [f|] eqn:Ef.
  - destruct Hfd as [Hh Hsz]. by eapply append_open_torn.
  - subst recs. destruct (create_ok a); [|by simplify_eq].
    by apply (append_open_torn (MkFile [] TRUNC_SIZE) (create_file w) [] bs a w' e).
Qed.

Lemma append_inv w w' recs bs a :
  append bs a w = (w', Returned true) → writer_inv w recs → bs ≠ [] →
  writer_inv w' (recs ++ bs) ∧ Z.of_nat (length (recs ++ bs) + 8) ≤ file_size_ w'.
Proof.
  intros Ha Hi Hne. destruct (append_cases _ _ _ _ _ _ Hi Ha) as (H1 & _ & H2).
  destruct (H2 Hne). by split.
Qed.

(** C35: Whatever the operating system answers, an append that returns
    true has added exactly the record behind the earlier ones and in front of
    a zero terminator inside the file; one that returns false has changed
    nothing; and one that throws has disabled the writer and left the earlier
    records of its file intact. *)
Theorem append_durable (w w' : writer) (recs bs : list Z) (a : answers) (r : result bool) :
  writer_inv w recs → append bs a w = (w', r) →
  match r with
  | Returned true => writer_inv w' (recs ++ bs) ∧ on_disk w' = on_disk w ∧
      (bs ≠ [] → Z.of_nat (length (recs ++ bs) + 8) ≤ file_size_ w' ∧ is_Some (fd_ w'))
  | Returned false => writer_inv w' recs ∧ on_disk w' = on_disk w
  | Threw e => e = IOError ∧ poisoned_ w' = true ∧ keeps recs w w'
  | Pending => True
  end.
Proof. apply append_cases. Qed.
End append.

Section append_facts.
Import LocalWalWriter.

(** A short write, an interruption and a second short write, then the
    terminator in two pieces. *)
Definition sample_answers : answers :=
  MkAnswers true true [Written 2; Interrupted; Written 7; Written 3; Written 9] true.

Lemma append_durable_witness :
  let w := (open true init).1 in
  let w' := (append [5; 0; 0; 0; 2; 0; 0; 0; 9] sample_answers w).1 in
  writer_inv w' ([] ++ [5; 0; 0; 0; 2; 0; 0; 0; 9]) ∧ on_disk w' = on_disk w ∧
  ([5; 0; 0; 0; 2; 0; 0; 0; 9] ≠ [] →
   Z.of_nat (length ([] ++ [5; 0; 0; 0; 2; 0; 0; 0; 9]) + 8) ≤ file_size_ w' ∧ is_Some (fd_ w')).
Proof.
  apply (append_durable (open true init).1
    (append [5; 0; 0; 0; 2; 0; 0; 0; 9] sample_answers (open true init).1).1 []
    [5; 0; 0; 0; 2; 0; 0; 0; 9] sample_answers (Returned true)).
  - by split_and!.
  - vm_compute. reflexivity.
Defined.

(** One call on a writer. *)
Inductive call := CallOpen (close_ok : bool) | CallClose (close_ok : bool)
  | CallAppend (bs : list Z) (a : answers).
Definition perform (c : call) (w : writer) : writer :=
  match c with
  | CallOpen b => (open b w).1
  | CallClose b => (close b w).1
  | CallAppend bs a => (append bs a w).1
  end.

(** After an uncertain failure the writer stays disabled: no sequence
    of calls re-enables it, every later append and open throws an I/O error, and
    no byte of a file changes any more. *)
Theorem poisoned_for_ever (w : writer) (cs : list call) (bs : list Z) (a : answers) (b : bool) :
  poisoned_ w = true → fd_ w = None →
  let w' := foldl (λ w c, perform c w) w cs in
  poisoned_ w' = true ∧ on_disk w' = on_disk w ∧
  append bs a w' = (w', Threw IOError) ∧ open b w' = (w', Threw IOError).
Proof.
  intros Hp Hf w'. assert (Hw : poisoned_ w' = true ∧ fd_ w' = None ∧ on_disk w' = on_disk w).
  { unfold w'. clear w'. revert w Hp Hf. induction cs as [|c cs IH]; intros w Hp Hf; [done|]. cbn [foldl].
    assert (Hs : poisoned_ (perform c w) = true ∧ fd_ (perform c w) = None ∧ on_disk (perform c w) = on_disk w).
    { destruct c; cbn; unfold open, append, close; rewrite ?Hp, ?Hf; cbn; rewrite ?Hp, ?Hf, ?app_nil_r; done. }
    destruct Hs as (H1 & H2 & H3). destruct (IH _ H1 H2) as (? & ? & ->). done. }
  destruct Hw as (Hw & _ & Hd). split_and!; [done|done| |]; unfold append, open; by rewrite Hw.
Qed.

Lemma poisoned_for_ever_witness :
  let w := (append [1; 2] (MkAnswers true true [Written 1; WriteError] true) (open true init).1).1 in
  let w' := foldl (λ w c, perform c w) w [CallClose true; CallOpen true; CallAppend [7] sample_answers] in
  poisoned_ w' = true ∧ on_disk w' = on_disk w ∧
  append [3] sample_answers w' = (w', Threw IOError) ∧ open true w' = (w', Threw IOError).
Proof.
  apply (poisoned_for_ever
    (append [1; 2] (MkAnswers true true [Written 1; WriteError] true) (open true init).1).1);
    vm_compute; reflexivity.
Defined.
End append_facts.
