(* ===== verification/WalParser.v ===== *)
(** * LocalWalParser

    src/transaction/wal/local_wal_parser.cc: scanning the log files into the
    insert and update units, and the end-to-end guarantee from WalBuilder
    through LocalWalWriter back to the operations. *)

From S2P Require Import Prelude Archive Values RedoRecords WalFormat WalWriter.

Module LocalWalParser.

(** A unit points into a mapped file: file number, offset and length. *)
Record unit_ := MkUnit { u_file : nat; u_ptr : Z; u_size : Z }.

(** [insert_wal_list_] is indexed by timestamp; entries never set are null.
    [insert_size] is the size of the vector. *)
Record parser_state := MkParser {
  insert_wal_list_ : gmap Z unit_;
  insert_size : Z;
  update_wal_list_ : list (Z * unit_);
  last_ts_ : Z
}.

Definition close : parser_state := MkParser ∅ 0 [] 0.

(** Reading [n] bytes of a mapped file; outside of the file the process faults. *)
Definition read_at (f : file) (off : Z) (n : nat) : res (list Z) :=
  if (0 <=? off) && (off + Z.of_nat n <=? fsize f)
  then Ok (byte_at f <$> seq (Z.to_nat off) n) else Throw OutOfBounds.

(** The effect of one record on the tables; the new size of the insert table
    is computed in 32 bits. *)
Definition note_record (k : nat) (h : WalHeader) (ptr : Z) (st : parser_state) : res parser_state :=
  let ts := timestamp h in
  let u := MkUnit k ptr (u64 (length_ h)) in
  let last := Z.max ts (last_ts_ st) in
  if type h =? 0 then
    let size := if insert_size st <=? ts then u32 (ts + 1) else insert_size st in
    if size <=? ts then Throw OutOfBounds
    else Ok (MkParser (<[ts := u]> (insert_wal_list_ st)) size (update_wal_list_ st) last)
  else Ok (MkParser (insert_wal_list_ st) (insert_size st) (update_wal_list_ st ++ [(ts, u)]) last).

(** The scan of one file; the fuel bounds the number of records. *)
Fixpoint scan (fuel : nat) (k : nat) (f : file) (ptr : Z) (st : parser_state) : res parser_state :=
  match fuel with
  | O => Throw OutOfBounds
  | S fuel =>
      match read_at f ptr sizeof_WalHeader with
      | Throw e => Throw e
      | Ok bs =>
          let h := get_header bs in
          let ptr := ptr + Z.of_nat sizeof_WalHeader in
          if timestamp h =? 0 then Ok st
          else match note_record k h ptr st with
            | Ok st => scan fuel k f (ptr + length_ h) st
            | Throw e => Throw e
            end
      end
  end.

Fixpoint scan_files (fuel : nat) (k : nat) (fs : list file) (st : parser_state) : res parser_state :=
  match fs with
  | [] => Ok st
  | f :: fs =>
      match (if fsize f =? 0 then Ok st else scan fuel k f 0 st) with
      | Ok st => scan_files fuel (S k) fs st
      | Throw e => Throw e
      end
  end.

Definition by_ts (a b : Z * unit_) : Prop := a.1 ≤ b.1.
#[global] Instance by_ts_dec a b : Decision (by_ts a b).
Proof. unfold by_ts. apply _. Defined.

(** [std::sort] by timestamp; the timestamps of update records are distinct. *)
Definition sort_updates (st : parser_state) : parser_state :=
  MkParser (insert_wal_list_ st) (insert_size st)
    (merge_sort by_ts (update_wal_list_ st)) (last_ts_ st).

Definition open (fuel : nat) (fs : list file) : res parser_state :=
  match scan_files fuel 0 fs (MkParser ∅ 4096 [] 0) with
  | Ok st => Ok (sort_updates st)
  | Throw e => Throw e
  end.

Definition get_insert_wal (ts : Z) (st : parser_state) : res (option unit_) :=
  if (0 <=? ts) && (ts <? insert_size st) then Ok (insert_wal_list_ st !! ts) else Throw OutOfBounds.

(** The bytes a unit points at. *)
Definition unit_bytes (fs : list file) (u : unit_) : res (list Z) :=
  match fs !! u_file u with
  | Some f => read_at f (u_ptr u) (Z.to_nat (u_size u))
  | None => Throw OutOfBounds
  end.

End LocalWalParser.

(** ** Scanning what the writer wrote *)

Section scan.
Import LocalWalParser.

(** A log record: timestamp, type and content. *)
Record wal_record := MkRecord { r_ts : Z; r_type : Z; r_content : list Z }.

Definition encode (r : wal_record) : list Z :=
  put_header (MkWalHeader (r_ts r) (r_type r) (Z.of_nat (length (r_content r)))) ++ r_content r.
Definition encode_all (rs : list wal_record) : list Z := concat (encode <$> rs).

Definition record_ok (r : wal_record) : Prop :=
  0 < r_ts r < U32_MAX ∧ 0 ≤ r_type r < 2 ∧ Z.of_nat (length (r_content r)) < 2^30.

(** The tables after the records, the first of which starts at [off]. *)
Fixpoint tables (k : nat) (off : Z) (rs : list wal_record) (st : parser_state) : parser_state :=
  match rs with
  | [] => st
  | r :: rs =>
      let ptr := off + 8 in
      let len := Z.of_nat (length (r_content r)) in
      let u := MkUnit k ptr len in
      let last := Z.max (r_ts r) (last_ts_ st) in
      tables k (ptr + len) rs
        (if r_type r =? 0
         then MkParser (<[r_ts r := u]> (insert_wal_list_ st)) (Z.max (insert_size st) (r_ts r + 1))
                (update_wal_list_ st) last
         else MkParser (insert_wal_list_ st) (insert_size st)
                (update_wal_list_ st ++ [(r_ts r, u)]) last)
  end.

Lemma encode_length r : length (encode r) = (8 + length (r_content r))%nat.
Proof. unfold encode. by rewrite length_app, put_header_length. Qed.

Lemma read_inside f recs off n :
  holds f recs → Z.of_nat (length recs) ≤ fsize f → (off + n ≤ length recs)%nat →
  read_at f (Z.of_nat off) n = Ok (take n (drop off recs)).
Proof.
  intros Hh Hs Hn. unfold read_at. rewrite (proj2 (Z.leb_le 0 _)), (proj2 (Z.leb_le _ (fsize f))) by lia.
  cbn [andb]. f_equal. rewrite Nat2Z.id. apply list_eq. intros i.
  rewrite list_lookup_fmap. destruct (decide (i < n)%nat) as [Hi|Hi].
  - rewrite lookup_seq_lt by done. cbn. rewrite Hh. rewrite lookup_take_lt, lookup_drop by done.
    destruct (lookup_lt_is_Some_2 recs (off + i)) as [x ->]; [lia|done].
  - rewrite lookup_seq_ge by lia. by rewrite lookup_take_ge by lia.
Qed.

Lemma read_terminator f recs :
  holds f recs → Z.of_nat (length recs + 8) ≤ fsize f →
  read_at f (Z.of_nat (length recs)) 8 = Ok (zeros 8).
Proof.
  intros Hh Hs. unfold read_at. rewrite (proj2 (Z.leb_le 0 _)), (proj2 (Z.leb_le _ (fsize f))) by lia.
  cbn [andb]. f_equal. rewrite Nat2Z.id. apply list_eq. intros i. rewrite list_lookup_fmap.
  destruct (decide (i < 8)%nat) as [Hi|Hi].
  - rewrite lookup_seq_lt by done. cbn [fmap option_fmap option_map]. rewrite Hh.
    rewrite lookup_ge_None_2 by lia. unfold zeros. by rewrite lookup_replicate_2.
  - rewrite lookup_seq_ge by lia. cbn. by rewrite lookup_ge_None_2 by (cbn; lia).
Qed.

Lemma note_record_ok k r off st :
  record_ok r → 0 ≤ insert_size st →
  note_record k (MkWalHeader (r_ts r) (r_type r) (Z.of_nat (length (r_content r)))) off st =
  Ok (if r_type r =? 0
      then MkParser (<[r_ts r := MkUnit k off (Z.of_nat (length (r_content r)))]> (insert_wal_list_ st))
             (Z.max (insert_size st) (r_ts r + 1)) (update_wal_list_ st) (Z.max (r_ts r) (last_ts_ st))
      else MkParser (insert_wal_list_ st) (insert_size st)
             (update_wal_list_ st ++ [(r_ts r, MkUnit k off (Z.of_nat (length (r_content r))))])
             (Z.max (r_ts r) (last_ts_ st))).
Proof.
  intros (Hts & Hty & Hl) Hs. unfold note_record, U32_MAX in *. cbn [timestamp type length_].
  rewrite u64_id by (unfold is_u64; lia). rewrite u32_id by (unfold is_u32; lia).
  destruct (r_type r =? 0); [|done].
  destruct (Z.leb_spec (insert_size st) (r_ts r)).
  - rewrite (proj2 (Z.leb_gt _ _)) by lia. by rewrite (Z.max_r (insert_size st) (r_ts r + 1)) by lia.
  - rewrite (proj2 (Z.leb_gt _ _)) by lia. by rewrite (Z.max_l (insert_size st) (r_ts r + 1)) by lia.
Qed.

Lemma tables_size k off rs st : 0 ≤ insert_size st → 0 ≤ insert_size (tables k off rs st).
Proof. revert off st. induction rs as [|r rs IH]; intros; cbn; [done|]. apply IH. case_match; cbn; lia. Qed.

(** The scan of a file that holds the records reads exactly them. *)
Lemma scan_records k f pre rs fuel st :
  holds f (pre ++ encode_all rs) → Z.of_nat (length (pre ++ encode_all rs) + 8) ≤ fsize f →
  Forall record_ok rs → (length rs < fuel)%nat → 0 ≤ insert_size st →
  scan fuel k f (Z.of_nat (length pre)) st = Ok (tables k (Z.of_nat (length pre)) rs st).
Proof.
  revert pre fuel st. induction rs as [|r rs IH]; intros pre [|fuel] st Hh Hs Hok Hf Hi; cbn in Hf; try lia;
    cbn [scan tables].
  - cbn in Hh, Hs. rewrite app_nil_r in Hh, Hs. unfold sizeof_WalHeader. by rewrite (read_terminator f pre).
  - inversion Hok as [|? ? Hr Hrs]; subst. destruct Hr as (Hts & Hty & Hlen).
    assert (Hcat : pre ++ encode_all (r :: rs) = (pre ++ encode r) ++ encode_all rs)
      by (unfold encode_all; cbn [fmap list_fmap concat]; by rewrite app_assoc).
    unfold sizeof_WalHeader.
    rewrite (read_inside f (pre ++ encode_all (r :: rs))); [|done|lia|].
    2:{ rewrite Hcat, !length_app, encode_length. lia. }
    rewrite drop_app_length. unfold encode_all, encode. cbn [fmap list_fmap concat]. rewrite <- app_assoc.
    set (h := MkWalHeader (r_ts r) (r_type r) (Z.of_nat (length (r_content r)))).
    rewrite (take_app_length' (put_header h)) by (by rewrite put_header_length).
    rewrite <- (app_nil_r (put_header h)), get_put_header;
      [|unfold is_u32, U32_MAX in *; cbn [timestamp h]; lia|done|cbn [length_ h]; lia].
    cbn [timestamp h]. rewrite (proj2 (Z.eqb_neq _ 0)) by lia.
    unfold h. rewrite note_record_ok by (first [done|by split_and!]). cbn [length_].
    change (Z.of_nat 8) with 8.
    replace (Z.of_nat (length pre) + 8 + Z.of_nat (length (r_content r)))
      with (Z.of_nat (length (pre ++ encode r))) by (rewrite length_app, encode_length; lia).
    rewrite Hcat in Hh, Hs. apply IH; [done|done|done|lia|]. case_match; cbn; lia.
Qed.
End scan.

Section recover.
Import LocalWalParser.

(** The records with the place where the scan finds their content. *)
Fixpoint located (k : nat) (off : Z) (rs : list wal_record) : list (wal_record * unit_) :=
  match rs with
  | [] => []
  | r :: rs =>
      let len := Z.of_nat (length (r_content r)) in
      (r, MkUnit k (off + 8) len) :: located k (off + 8 + len) rs
  end.
Fixpoint located_all (k : nat) (rss : list (list wal_record)) : list (wal_record * unit_) :=
  match rss with [] => [] | rs :: rss => located k 0 rs ++ located_all (S k) rss end.

Definition note (st : parser_state) (p : wal_record * unit_) : parser_state :=
  let '(r, u) := p in
  let last := Z.max (r_ts r) (last_ts_ st) in
  if r_type r =? 0
  then MkParser (<[r_ts r := u]> (insert_wal_list_ st)) (Z.max (insert_size st) (r_ts r + 1))
         (update_wal_list_ st) last
  else MkParser (insert_wal_list_ st) (insert_size st) (update_wal_list_ st ++ [(r_ts r, u)]) last.

Lemma tables_note k off rs st : tables k off rs st = foldl note st (located k off rs).
Proof. revert off st. induction rs as [|r rs IH]; intros off st; [done|]. cbn. apply IH. Qed.

Definition file_ok (f : file) (rs : list wal_record) : Prop :=
  holds f (encode_all rs) ∧ Z.of_nat (length (encode_all rs) + 8) ≤ fsize f ∧ Forall record_ok rs.

Lemma scan_files_ok fuel k fs rss st :
  Forall2 file_ok fs rss → (∀ rs, rs ∈ rss → (length rs < fuel)%nat) → 0 ≤ insert_size st →
  scan_files fuel k fs st = Ok (foldl note st (located_all k rss)).
Proof.
  intros HF. revert k st. induction HF as [|f rs fs rss (Hh & Hs & Hok) HF IH]; intros k st Hfuel Hi; [done|].
  cbn [scan_files located_all]. rewrite (proj2 (Z.eqb_neq _ 0)) by lia.
  pose proof (scan_records k f [] rs fuel st Hh Hs Hok (Hfuel rs ltac:(left)) Hi) as Hscan.
  change (Z.of_nat (length (@nil Z))) with 0 in Hscan. rewrite Hscan, foldl_app, <- tables_note.
  apply IH; [intros; apply Hfuel; by right|]. by apply tables_size.
Qed.

Lemma located_bytes fs k f pre rs r u :
  fs !! k = Some f → holds f (pre ++ encode_all rs) →
  Z.of_nat (length (pre ++ encode_all rs)) ≤ fsize f →
  (r, u) ∈ located k (Z.of_nat (length pre)) rs → unit_bytes fs u = Ok (r_content r).
Proof.
  intros Hf. revert pre. induction rs as [|r0 rs IH]; intros pre Hh Hs Hin; cbn [located] in Hin;
    [by apply not_elem_of_nil in Hin|].
  assert (Hcat : pre ++ encode_all (r0 :: rs) = (pre ++ encode r0) ++ encode_all rs)
    by (unfold encode_all; cbn [fmap list_fmap concat]; by rewrite app_assoc).
  apply elem_of_cons in Hin as [[= -> ->]|Hin].
  - unfold unit_bytes. cbn [u_file u_ptr u_size]. rewrite Hf, Nat2Z.id.
    replace (Z.of_nat (length pre) + 8) with (Z.of_nat (length pre + 8)) by lia.
    rewrite (read_inside f (pre ++ encode_all (r0 :: rs))); [|done|done|].
    2:{ rewrite Hcat, !length_app, encode_length. lia. }
    f_equal. rewrite <- drop_drop, drop_app_length. unfold encode_all, encode.
    cbn [fmap list_fmap concat]. rewrite <- !app_assoc.
    rewrite (drop_app_length' (put_header _)) by (by rewrite put_header_length).
    by rewrite take_app_length.
  - rewrite Hcat in Hh, Hs. apply (IH (pre ++ encode r0)); [done|done|].
    rewrite length_app, encode_length.
    by replace (Z.of_nat (length pre + (8 + length (r_content r0))))
      with (Z.of_nat (length pre) + 8 + Z.of_nat (length (r_content r0))) by lia.
Qed.

Lemma located_all_bytes fs pre rss r u :
  Forall2 file_ok fs rss → (r, u) ∈ located_all (length pre) rss →
  unit_bytes (pre ++ fs) u = Ok (r_content r).
Proof.
  intros HF. revert pre. induction HF as [|f rs fs rss (Hh & Hs & Hok) HF IH]; intros pre Hin;
    cbn [located_all] in Hin; [by apply not_elem_of_nil in Hin|].
  apply elem_of_app in Hin as [Hin|Hin].
  - eapply (located_bytes _ (length pre) f [] rs); [|done|cbn; lia|done].
    by rewrite lookup_app_r, Nat.sub_diag.
  - rewrite cons_middle, app_assoc. apply IH. rewrite length_app. cbn.
    by replace (length pre + 1)%nat with (S (length pre)) by lia.
Qed.

Definition updates_of (l : list (wal_record * unit_)) : list (Z * unit_) :=
  (λ p, (r_ts p.1, p.2)) <$> filter (λ p, r_type p.1 ≠ 0) l.

Lemma note_updates l st : update_wal_list_ (foldl note st l) = update_wal_list_ st ++ updates_of l.
Proof.
  revert st. induction l as [|[r u] l IH]; intros st; [by rewrite app_nil_r|]. cbn [foldl]. rewrite IH.
  unfold updates_of. rewrite filter_cons. cbn [note fst].
  destruct (Z.eqb_spec (r_type r) 0), (decide (r_type r ≠ 0)); try done; cbn [update_wal_list_ fmap list_fmap].
  by rewrite <- app_assoc.
Qed.

Lemma note_last l st : last_ts_ (foldl note st l) = foldl (λ m p, Z.max (r_ts p.1) m) (last_ts_ st) l.
Proof.
  revert st. induction l as [|[r u] l IH]; intros st; [done|]. cbn [foldl]. rewrite IH.
  cbn [note fst]. by case_match.
Qed.

Lemma foldl_max_ge (l : list (wal_record * unit_)) m p : p ∈ l → r_ts p.1 ≤ foldl (λ m p, Z.max (r_ts p.1) m) m l.
Proof.
  assert (Hm : ∀ l m, m ≤ foldl (λ m (p : wal_record * unit_), Z.max (r_ts p.1) m) m l).
  { clear. induction l as [|p l IH]; intros m; cbn; [lia|]. specialize (IH (Z.max (r_ts p.1) m)). lia. }
  intros Hp. revert m. induction Hp as [q l|q q' l Hp IH]; intros m; cbn; [|apply IH].
  specialize (Hm l (Z.max (r_ts q.1) m)). lia.
Qed.

Lemma note_inserts l st r u :
  (r, u) ∈ l → r_type r = 0 →
  (∀ r' u', (r', u') ∈ l → r_type r' = 0 → r_ts r' = r_ts r → u' = u) →
  insert_wal_list_ (foldl note st l) !! r_ts r = Some u ∧ r_ts r < insert_size (foldl note st l).
Proof.
  assert (Hsz : ∀ l st, insert_size st ≤ insert_size (foldl note st l)).
  { clear. induction l as [|[r u] l IH]; intros st; [done|]. cbn [foldl]. etrans; [|apply IH].
    cbn [note]. case_match; cbn; lia. }
  assert (Hkeep : ∀ l st, insert_wal_list_ st !! r_ts r = Some u →
    (∀ r' u', (r', u') ∈ l → r_type r' = 0 → r_ts r' = r_ts r → u' = u) →
    insert_wal_list_ (foldl note st l) !! r_ts r = Some u).
  { clear. induction l as [|[r0 u0] l IH]; intros st Hst Hu; [done|]. cbn [foldl]. apply IH.
    - cbn [note]. destruct (Z.eqb_spec (r_type r0) 0) as [H0|]; cbn; [|done].
      destruct (decide (r_ts r0 = r_ts r)) as [E|].
      + rewrite E, lookup_insert_eq. f_equal. by apply (Hu r0 u0); [left|..].
      + by rewrite lookup_insert_ne.
    - intros r' u' Hin. apply Hu. by right. }
  intros Hin H0 Hu. revert st. induction l as [|[r0 u0] l IH]; intros st;
    [by apply not_elem_of_nil in Hin|]. cbn [foldl].
  apply elem_of_cons in Hin as [[= <- <-]|Hin].
  - split.
    + apply Hkeep; [|intros ? ? ?; apply Hu; by right]. cbn [note]. rewrite H0. cbn. by rewrite lookup_insert_eq.
    + eapply Z.lt_le_trans; [|apply Hsz]. cbn [note]. rewrite H0. cbn. lia.
  - apply IH; [done|]. intros r' u' Hin'. apply Hu. by right.
Qed.

Lemma by_ts_total : Total by_ts.
Proof. intros [a ?] [b ?]. unfold by_ts. cbn. lia. Qed.

Lemma located_fst k off rs : (located k off rs).*1 = rs.
Proof. revert off. induction rs as [|r rs IH]; intros; cbn; [done|]. by f_equal. Qed.

Lemma located_all_fst k rss : (located_all k rss).*1 = concat rss.
Proof.
  revert k. induction rss as [|rs rss IH]; intros; cbn; [done|].
  rewrite fmap_app, located_fst. by f_equal.
Qed.

Lemma located_unique (l : list (wal_record * unit_)) r u r' u' :
  NoDup (r_ts <$> l.*1) → (r, u) ∈ l → (r', u') ∈ l → r_ts r' = r_ts r → r' = r ∧ u' = u.
Proof.
  induction l as [|[r0 u0] l IH]; cbn; intros Hnd Hin Hin' E; [by apply not_elem_of_nil in Hin|].
  apply NoDup_cons in Hnd as [Hni Hnd].
  assert (Hx : ∀ r1 u1, (r1, u1) ∈ l → r_ts r1 ≠ r_ts r0).
  { intros r1 u1 H1 E1. apply Hni. rewrite <- E1. apply list_elem_of_fmap. exists r1. split; [done|].
    apply list_elem_of_fmap. by exists (r1, u1). }
  apply elem_of_cons in Hin as [[= -> ->]|Hin]; apply elem_of_cons in Hin' as [[= -> ->]|Hin'].
  - done.
  - by destruct (Hx r' u').
  - by destruct (Hx r u).
  - by apply IH.
Qed.

Lemma open_recovers (fuel : nat) (fs : list file) (rss : list (list wal_record)) :
  Forall2 file_ok fs rss → (∀ rs, rs ∈ rss → (length rs < fuel)%nat) →
  NoDup (r_ts <$> concat rss) →
  ∃ st, open fuel fs = Ok st ∧
    StronglySorted by_ts (update_wal_list_ st) ∧
    length (update_wal_list_ st) = length (filter (λ r, r_type r ≠ 0) (concat rss)) ∧
    ∀ r, r ∈ concat rss → r_ts r ≤ last_ts_ st ∧
      ∃ u, unit_bytes fs u = Ok (r_content r) ∧
           if r_type r =? 0 then get_insert_wal (r_ts r) st = Ok (Some u)
           else (r_ts r, u) ∈ update_wal_list_ st.
Proof.
  intros HF Hfuel Hnd. set (st0 := MkParser ∅ 4096 [] 0). set (l := located_all 0 rss).
  exists (sort_updates (foldl note st0 l)). unfold open. rewrite (scan_files_ok fuel 0 fs rss) by done.
  split; [done|]. cbn [sort_updates update_wal_list_ last_ts_].
  rewrite note_updates. cbn [st0 update_wal_list_ app].
  assert (Hfst : l.*1 = concat rss) by apply located_all_fst.
  split_and!.
  - apply StronglySorted_merge_sort; [intros a b c; unfold by_ts; lia|apply by_ts_total].
  - rewrite (Permutation_length (merge_sort_Permutation by_ts (updates_of l))).
    unfold updates_of. rewrite length_fmap, <- Hfst. clear. induction l as [|[r u] l IH]; [done|].
    rewrite fmap_cons, !filter_cons. cbn [fst].
    destruct (decide (r_type r ≠ 0)); cbn [length]; by rewrite IH.
  - intros r Hr. rewrite <- Hfst in Hr. apply list_elem_of_fmap in Hr as ([r0 u] & -> & Hin). cbn [fst].
    split; [rewrite note_last; by apply (foldl_max_ge l 0 (r0, u))|].
    exists u. split; [by apply (located_all_bytes fs [] rss r0 u)|].
    destruct (Z.eqb_spec (r_type r0) 0) as [H0|H0].
    + destruct (note_inserts l st0 r0 u) as [Hl Hs]; [done|done| |].
      { intros r' u' Hin' _ E. rewrite <- Hfst in Hnd. by eapply located_unique. }
      unfold get_insert_wal. cbn [insert_wal_list_ insert_size sort_updates].
      assert (0 < r_ts r0).
      { assert (Hr : r0 ∈ concat rss) by (rewrite <- Hfst; apply list_elem_of_fmap; by exists (r0, u)).
        apply list_elem_of_In, in_concat in Hr as (rs & Hrs & Hr). apply list_elem_of_In in Hrs, Hr.
        apply list_elem_of_lookup in Hrs as [i Hi].
        destruct (Forall2_lookup_r _ _ _ _ _ HF Hi) as (f & _ & _ & _ & Hok).
        rewrite Forall_forall in Hok. destruct (Hok r0 Hr). lia. }
      rewrite (proj2 (Z.leb_le _ _)), (proj2 (Z.ltb_lt _ _)) by lia. cbn [andb]. by rewrite Hl.
    + rewrite (merge_sort_Permutation by_ts). unfold updates_of.
      apply list_elem_of_fmap. exists (r0, u). split; [done|]. apply list_elem_of_filter. by split.
Qed.

(** C36: Opening the log directory reads back everything that was
    written: the scan terminates, every update record is listed with its own
    content, in timestamp order and without extra entries, every insert record
    is found under its timestamp, and the last timestamp bounds them all. *)
Theorem recovery_complete (fuel : nat) (fs : list file) (rss : list (list wal_record)) :
  Forall2 file_ok fs rss → (∀ rs, rs ∈ rss → (length rs < fuel)%nat) →
  NoDup (r_ts <$> concat rss) →
  ∃ st, open fuel fs = Ok st ∧
    StronglySorted by_ts (update_wal_list_ st) ∧
    length (update_wal_list_ st) = length (filter (λ r, r_type r ≠ 0) (concat rss)) ∧
    ∀ r, r ∈ concat rss → r_ts r ≤ last_ts_ st ∧
      ∃ u, unit_bytes fs u = Ok (r_content r) ∧
           if r_type r =? 0 then get_insert_wal (r_ts r) st = Ok (Some u)
           else (r_ts r, u) ∈ update_wal_list_ st.
Proof. apply open_recovers. Qed.

(** Two files; the records of the first are not in timestamp order. *)
Definition sample_records : list (list wal_record) :=
  [[MkRecord 5 1 [1; 2]; MkRecord 3 0 [7]]; [MkRecord 4 1 []]].
Definition sample_files : list file :=
  (λ rs, MkFile (encode_all rs) (2^30)) <$> sample_records.

Lemma recovery_complete_witness :
  ∃ st, open 3 sample_files = Ok st ∧
    StronglySorted by_ts (update_wal_list_ st) ∧
    length (update_wal_list_ st) = length (filter (λ r, r_type r ≠ 0) (concat sample_records)) ∧
    ∀ r, r ∈ concat sample_records → r_ts r ≤ last_ts_ st ∧
      ∃ u, unit_bytes sample_files u = Ok (r_content r) ∧
           if r_type r =? 0 then get_insert_wal (r_ts r) st = Ok (Some u)
           else (r_ts r, u) ∈ update_wal_list_ st.
Proof.
  apply (recovery_complete 3 sample_files sample_records).
  - repeat constructor; vm_compute; congruence.
  - apply Forall_forall. repeat constructor.
  - apply (bool_decide_unpack _). vm_compute. exact I.
Defined.
End recover.

(** ** From a transaction's operations to the log and back *)

Section end_to_end.
Import WalBuilder LocalWalWriter.

(** Appends that all return true. *)
Fixpoint append_all (l : list (list Z * answers)) (w : writer) : option writer :=
  match l with
  | [] => Some w
  | (bs, a) :: l =>
      match append bs a w with
      | (w', Returned true) => append_all l w'
      | _ => None
      end
  end.

(** A transaction: its timestamp and the operations it logs. *)
Definition txn_record (t : Z * list redo) : wal_record :=
  MkRecord t.1 1 (put_all put_redo t.2).1.
Definition txn_ok (t : Z * list redo) : Prop :=
  forallb redo_ok t.2 = true ∧ record_ok (txn_record t).

Lemma txn_built t : txn_ok t → build t.1 t.2 = Ok (encode (txn_record t)).
Proof. intros [H _]. by rewrite build_record. Qed.

Lemma encode_nonempty r : encode r ≠ [].
Proof. intros H. pose proof (encode_length r) as Hl. rewrite H in Hl. cbn in Hl. lia. Qed.

(** The file after the appends holds the records, with room for the terminator. *)
Lemma append_all_holds l w w' recs :
  writer_inv w recs → append_all l w = Some w' → Forall (λ p, p.1 ≠ []) l → l ≠ [] →
  writer_inv w' (recs ++ concat l.*1) ∧
  Z.of_nat (length (recs ++ concat l.*1) + 8) ≤ file_size_ w'.
Proof.
  revert w recs. induction l as [|[bs a] l IH]; intros w recs Hi Ha Hne Hl; [done|].
  cbn [append_all] in Ha. destruct (append bs a w) as [w1 r] eqn:E.
  destruct r as [[]|e|]; try done. inversion Hne as [|? ? Hbs Hne']; subst.
  pose proof (append_inv w w1 recs bs a E Hi Hbs) as [Hi1 Hsz].
  cbn [fmap list_fmap concat fst]. rewrite app_assoc.
  destruct l as [|p l]; [|by apply (IH w1)].
  cbn in Ha |- *. simplify_eq. rewrite app_nil_r. done.
Qed.

Definition log_of (txns : list (Z * list redo)) (ans : list answers) : list (list Z * answers) :=
  zip (encode ∘ txn_record <$> txns) ans.

Lemma log_of_fst txns ans : length ans = length txns → concat (log_of txns ans).*1 = encode_all (txn_record <$> txns).
Proof.
  intros H. unfold log_of, encode_all. rewrite fst_zip by (rewrite length_fmap; lia).
  by rewrite list_fmap_compose.
Qed.

Lemma log_of_nonempty txns ans : Forall (λ p, p.1 ≠ []) (log_of txns ans).
Proof.
  apply Forall_forall. intros [bs a] Hin. apply elem_of_zip_l in Hin.
  apply list_elem_of_fmap in Hin as (t & -> & _). apply encode_nonempty.
Qed.

Lemma fresh_writer : writer_inv (open true init).1 [].
Proof. by split_and!. Qed.

Lemma written_file_ok txns ans w f :
  Forall txn_ok txns → length ans = length txns → txns ≠ [] →
  append_all (log_of txns ans) (open true init).1 = Some w → fd_ w = Some f →
  file_ok f (txn_record <$> txns).
Proof.
  intros Hok Hlen Hne Ha Hf.
  destruct (append_all_holds _ _ _ [] fresh_writer Ha (log_of_nonempty _ _)) as [(_ & _ & Hh) Hsz].
  { destruct txns, ans; cbn in *; done. }
  rewrite Hf, log_of_fst in Hh by done. rewrite log_of_fst in Hsz by done. cbn [app] in *. destruct Hh as [Hh Hfs].
  split_and!; [done|lia|]. apply Forall_fmap. eapply Forall_impl; [exact Hok|]. by intros t [_ ?].
Qed.

(** C17: Durability of update transactions end to end.  Take update
    transactions with distinct valid timestamps whose records [redo_ok] accepts and
    whose content is below 2^30 bytes; build their log records and append them, one
    after the other, to a new writer.  Building never fails.  If every append
    returned true, under whatever answers of the operating system, then opening the
    file succeeds and lists exactly as many updates as were appended, in timestamp
    order; each transaction is in the list with a unit whose content parses to its
    operations in canonical form (a null value without its type, a scalar value
    with its type id only, no temporary flag), and to exactly its operations when
    they carry no such information ([storable_redo]). *)
Theorem wal_end_to_end (txns : list (Z * list redo)) (ans : list answers) (w : writer) (f : file) :
  Forall txn_ok txns → NoDup txns.*1 → length ans = length txns → txns ≠ [] →
  (∀ t, t ∈ txns → build t.1 t.2 = Ok (encode (txn_record t))) ∧
  (append_all (log_of txns ans) (open true init).1 = Some w → fd_ w = Some f →
   ∃ st, LocalWalParser.open (S (length txns)) [f] = Ok st ∧
     StronglySorted LocalWalParser.by_ts (LocalWalParser.update_wal_list_ st) ∧
     length (LocalWalParser.update_wal_list_ st) = length txns ∧
     ∀ ts rs, (ts, rs) ∈ txns → ts ≤ LocalWalParser.last_ts_ st ∧
       ∃ u content, (ts, u) ∈ LocalWalParser.update_wal_list_ st ∧
         LocalWalParser.unit_bytes [f] u = Ok content ∧
         ReplayCowGraphWal_parse content = Ok (canon_redo <$> rs) ∧
         (forallb storable_redo rs = true → ReplayCowGraphWal_parse content = Ok rs)).
Proof.
  intros Hok Hnd Hlen Hne. rewrite Forall_forall in Hok. split; [intros t Ht; by apply txn_built, Hok|].
  intros Ha Hf. apply Forall_forall in Hok.
  pose proof (written_file_ok txns ans w f Hok Hlen Hne Ha Hf) as Hfile.
  set (rs := txn_record <$> txns) in *.
  destruct (open_recovers (S (length txns)) [f] [rs]) as (st & Ho & Hs & Hl & Hr).
  { constructor; [exact Hfile|constructor]. }
  { intros rs' ->%list_elem_of_singleton. unfold rs. rewrite length_fmap. lia. }
  { cbn [concat]. rewrite app_nil_r. unfold rs. rewrite <- list_fmap_compose. exact Hnd. }
  cbn [concat] in Hl, Hr. rewrite app_nil_r in Hl, Hr. exists st. split_and!; [done|done| |].
  - rewrite Hl. unfold rs. clear. induction txns as [|t txns IH]; [done|].
    rewrite fmap_cons, filter_cons. destruct (decide _) as [|Hn]; [cbn [length]; by rewrite IH|].
    by destruct Hn.
  - intros ts ops Hin. destruct (Hr (txn_record (ts, ops))) as [Hts (u & Hu & Hin')].
    { apply list_elem_of_fmap. by exists (ts, ops). }
    cbn in Hts, Hin'. split; [done|]. exists u, (put_all put_redo ops).1.
    assert (Hp : ReplayCowGraphWal_parse (put_all put_redo ops).1 = Ok (canon_redo <$> ops)).
    { apply get_redos_all; [|done]. rewrite Forall_forall in Hok. by destruct (Hok _ Hin). }
    split_and!; [done|done|done|]. intros Hst. rewrite Hp. f_equal.
    rewrite <- (list_fmap_id ops) at 2. apply list_fmap_ext. intros i r Hi.
    apply canon_redo_storable. eapply forallb_elem; [done|]. by eapply list_elem_of_lookup_2.
Qed.

Definition sample_txns : list (Z * list redo) :=
  [(9, [sample_redo; RemoveVertex [65] (Value_STRING [66])]); (8, [DeleteVertexType [67]])].
Definition slow_answers : answers :=
  MkAnswers true true (Written 3 :: Interrupted :: replicate 30 (Written 5)) true.

Lemma wal_end_to_end_witness :
  match append_all (log_of sample_txns [slow_answers; slow_answers]) (open true init).1 with
  | Some w => match fd_ w with
    | Some f =>
        ∃ st, LocalWalParser.open 3 [f] = Ok st ∧
          StronglySorted LocalWalParser.by_ts (LocalWalParser.update_wal_list_ st) ∧
          length (LocalWalParser.update_wal_list_ st) = 2%nat ∧
          ∀ ts rs, (ts, rs) ∈ sample_txns → ts ≤ LocalWalParser.last_ts_ st ∧
            ∃ u content, (ts, u) ∈ LocalWalParser.update_wal_list_ st ∧
              LocalWalParser.unit_bytes [f] u = Ok content ∧
              ReplayCowGraphWal_parse content = Ok (canon_redo <$> rs) ∧
              (forallb storable_redo rs = true → ReplayCowGraphWal_parse content = Ok rs)
    | None => False
    end
  | None => False
  end.
Proof.
  destruct (append_all (log_of sample_txns [slow_answers; slow_answers]) (open true init).1)
    as [w|] eqn:Ew; [|vm_compute in Ew; discriminate].
  destruct (fd_ w) as [f|] eqn:Ef;
    [|vm_compute in Ew; injection Ew as <-; vm_compute in Ef; discriminate].
  refine (proj2 (wal_end_to_end sample_txns [slow_answers; slow_answers] w f _ _ _ _) Ew Ef).
  - repeat constructor; vm_compute; congruence.
  - apply (bool_decide_unpack _). vm_compute. exact I.
  - reflexivity.
  - discriminate.
Defined.
End end_to_end.

(** ** Torn records *)

Section torn.
Import LocalWalWriter.

(** A record of which only the first [k] bytes were written, read in a file of zeros. *)
Definition padded (r : wal_record) (k : nat) : wal_record :=
  MkRecord (r_ts r) (r_type r)
    (take (k - 8) (r_content r) ++ zeros (length (r_content r) - (k - 8))).

Lemma padded_length r k : length (r_content (padded r k)) = length (r_content r).
Proof. cbn. unfold zeros. rewrite length_app, length_take, length_replicate. lia. Qed.

Lemma holds_padded f recs r k :
  (8 ≤ k)%nat → holds f (recs ++ take k (encode r)) → holds f (recs ++ encode (padded r k)).
Proof.
  intros Hk Hh i. rewrite Hh. destruct (decide (i < length recs)%nat); [by rewrite !lookup_app_l|].
  rewrite !lookup_app_r by lia. set (j := (i - length recs)%nat).
  unfold encode at 2. rewrite padded_length. cbn [r_ts r_type padded].
  unfold encode. set (h := put_header _). assert (Hl : length h = 8%nat) by apply put_header_length.
  destruct (decide (j < 8)%nat).
  - by rewrite lookup_take_lt, !lookup_app_l by lia.
  - rewrite (lookup_app_r h (r_content (padded r k))) by lia. cbn [r_content padded]. rewrite Hl.
    destruct (decide (j < k)%nat) as [Hj|Hj].
    + rewrite lookup_take_lt, lookup_app_r by lia. rewrite Hl.
      destruct (decide (j - 8 < length (r_content r))%nat).
      * rewrite lookup_app_l by (rewrite length_take; lia). by rewrite lookup_take_lt by lia.
      * rewrite (lookup_ge_None_2 (r_content r)) by lia.
        rewrite lookup_ge_None_2; [done|]. unfold zeros. rewrite length_app, length_take, length_replicate. lia.
    + rewrite lookup_take_ge by lia. cbn.
      destruct (_ !! (j - 8)%nat) as [z|] eqn:E; [|done].
      apply lookup_app_Some in E as [E|[_ E]].
      * apply lookup_lt_Some in E. rewrite length_take in E. lia.
      * by apply lookup_replicate_1 in E as [-> _].
Qed.

Lemma replay_zeros n : (17 ≤ n)%nat → ReplayCowGraphWal_parse (zeros n) = Throw InvalidArgument.
Proof.
  intros H. replace n with (17 + (n - 17))%nat by lia. set (m := (n - 17)%nat).
  unfold ReplayCowGraphWal_parse, zeros. rewrite length_replicate, replicate_add.
  set (rest := replicate m 0). cbn [Nat.add get_redos replicate app].
  assert (Hlen : ∀ k l, (k ≤ length l)%nat → GetBytes (Z.of_nat k) (l ++ rest) = Ok (take k l, drop k l ++ rest)).
  { intros k l Hk. unfold GetBytes. rewrite (proj2 (Z.leb_le _ _)) by (rewrite length_app; lia).
    rewrite Nat2Z.id, take_app_le, drop_app_le by done. done. }
  assert (Hu : ∀ k l, (k ≤ length l)%nat → get_uint k (l ++ rest) = Ok (un_le (take k l), drop k l ++ rest)).
  { intros k l Hk. unfold get_uint, mbind, parser_bind. by rewrite Hlen. }
  change (0 :: 0 :: 0 :: 0 :: 0 :: 0 :: 0 :: 0 :: 0 :: 0 :: 0 :: 0 :: 0 :: 0 :: 0 :: 0 :: 0 :: rest)
    with (zeros 17 ++ rest).
  assert (Hop : get_redo (zeros 17 ++ rest) = Throw InvalidArgument); [|by rewrite Hop].
  unfold get_redo, mbind, parser_bind at 1. rewrite Hu by (cbn; lia).
  change (un_le (take 1 (zeros 17))) with 0. change (drop 1 (zeros 17)) with (zeros 16).
  cbn [get_redo_body Z.eqb]. unfold CreateVertexTypeRedo_Deserialize, CreateVertexTypeParam_Deserialize, get_string, get_list32.
  unfold mbind, parser_bind. rewrite Hu by (cbn; lia).
  change (un_le (take 8 (zeros 16))) with (Z.of_nat 0). change (drop 8 (zeros 16)) with (zeros 8).
  rewrite Hlen by lia. rewrite Hu by (cbn; lia).
  change (un_le (take 4 (drop 0 (zeros 8)))) with 0. change (drop 4 (drop 0 (zeros 8))) with (zeros 4).
  change (rep get_property (Z.to_nat 0) (zeros 4 ++ rest)) with (Ok (@nil property, zeros 4 ++ rest)).
  cbn beta iota. rewrite Hu by (cbn; lia). done.
Qed.

(** C40: What an append that throws leaves behind.  Take a
    writer whose file holds the records [rs], and an append of one more record [r]
    (distinct valid timestamps, fields within their widths) that throws, under
    whatever answers of the operating system.  Then the error is an I/O error, and
    the file it retires holds the earlier records and the first [k] bytes of the new
    one, followed by zeros.  If the header was written ([k] at least 8), opening
    that file succeeds and recovers every earlier record and also the failed one:
    with its timestamp and type, as if committed, and with a content of the right
    length that is its first [k - 8] bytes and then zeros, since records carry no
    checksum.  If only the header was written and the content has 17 bytes or more,
    that content is zeros, and parsing it as a redo log throws. *)
Theorem torn_record_blocks_recovery (w w' : writer) (rs : list wal_record) (r : wal_record)
    (a : answers) (e : exn) :
  writer_inv w (encode_all rs) → Forall record_ok (rs ++ [r]) → NoDup (r_ts <$> (rs ++ [r])) →
  append (encode r) a w = (w', Threw e) →
  e = IOError ∧ ∃ f k, on_disk w' = on_disk w ++ [f] ∧ (k ≤ length (encode r))%nat ∧
    holds f (encode_all rs ++ take k (encode r)) ∧
    ((8 ≤ k)%nat → ∃ st, LocalWalParser.open (S (S (length rs))) [f] = Ok st ∧
       ∀ x, x ∈ rs ++ [padded r k] →
         ∃ u, LocalWalParser.unit_bytes [f] u = Ok (r_content x) ∧
           if r_type x =? 0 then LocalWalParser.get_insert_wal (r_ts x) st = Ok (Some u)
           else (r_ts x, u) ∈ LocalWalParser.update_wal_list_ st) ∧
    (k = 8%nat → (17 ≤ length (r_content r))%nat →
       r_content (padded r k) = zeros (length (r_content r)) ∧
       ReplayCowGraphWal_parse (r_content (padded r k)) = Throw InvalidArgument).
Proof.
  intros Hw Hok Hnd Ha. destruct (append_cases _ _ _ _ _ _ Hw Ha) as (-> & _).
  split; [done|]. destruct (append_torn _ _ _ _ _ _ Hw Ha) as (f & k & Hd & Hk & Hh & Hsz).
  exists f, k. split_and!; [done..| |].
  - intros H8. assert (Hall : encode_all (rs ++ [padded r k]) = encode_all rs ++ encode (padded r k)).
    { unfold encode_all. rewrite fmap_app, concat_app. cbn. by rewrite app_nil_r. }
    assert (Hf : file_ok f (rs ++ [padded r k])).
    { split_and!.
      - rewrite Hall. by apply holds_padded.
      - rewrite Hall, length_app, encode_length, padded_length, <- encode_length. apply Hsz. lia.
      - apply Forall_app in Hok as [Hrs Hr]. apply Forall_app. split; [done|].
        inversion Hr as [|? ? Hr1 _]; subst. apply Forall_singleton. unfold record_ok.
        rewrite padded_length. exact Hr1. }
    destruct (open_recovers (S (S (length rs))) [f] [rs ++ [padded r k]]) as (st & Ho & _ & _ & Hr).
    { constructor; [done|constructor]. }
    { intros x ->%list_elem_of_singleton. rewrite length_app. cbn. lia. }
    { cbn [concat]. rewrite app_nil_r, fmap_app in *. exact Hnd. }
    cbn [concat] in Hr. rewrite app_nil_r in Hr. exists st. split; [done|].
    intros x Hx. by destruct (Hr x Hx).
  - intros -> Hlen. cbn [padded r_content Nat.sub]. rewrite take_0, Nat.sub_0_r. split; [done|].
    by apply replay_zeros.
Qed.

(** The header in two pieces around an interruption, then an error. *)
Definition torn_answers : answers := MkAnswers true true [Written 3; Interrupted; Written 5; WriteError] true.
Definition torn_record : wal_record := MkRecord 6 1 (replicate 20 1).

Lemma torn_record_blocks_recovery_witness :
  let w := (append (encode (MkRecord 5 0 [7])) sample_answers (open true init).1).1 in
  let w' := (append (encode torn_record) torn_answers w).1 in
  IOError = IOError ∧ ∃ f k, on_disk w' = on_disk w ++ [f] ∧ (k ≤ length (encode torn_record))%nat ∧
    holds f (encode_all [MkRecord 5 0 [7]] ++ take k (encode torn_record)) ∧
    ((8 ≤ k)%nat → ∃ st, LocalWalParser.open 3 [f] = Ok st ∧
       ∀ x, x ∈ [MkRecord 5 0 [7]] ++ [padded torn_record k] →
         ∃ u, LocalWalParser.unit_bytes [f] u = Ok (r_content x) ∧
           if r_type x =? 0 then LocalWalParser.get_insert_wal (r_ts x) st = Ok (Some u)
           else (r_ts x, u) ∈ LocalWalParser.update_wal_list_ st) ∧
    (k = 8%nat → (17 ≤ length (r_content torn_record))%nat →
       r_content (padded torn_record k) = zeros (length (r_content torn_record)) ∧
       ReplayCowGraphWal_parse (r_content (padded torn_record k)) = Throw InvalidArgument).
Proof.
  apply (torn_record_blocks_recovery
    (append (encode (MkRecord 5 0 [7])) sample_answers (open true init).1).1
    (append (encode torn_record) torn_answers
      (append (encode (MkRecord 5 0 [7])) sample_answers (open true init).1).1).1
    [MkRecord 5 0 [7]] torn_record torn_answers IOError).
  - change (encode_all [MkRecord 5 0 [7]]) with ([] ++ encode (MkRecord 5 0 [7])).
    refine (proj1 (append_inv (open true init).1 _ [] (encode (MkRecord 5 0 [7])) sample_answers _ _ _)).
    + vm_compute. reflexivity.
    + by split_and!.
    + discriminate.
  - repeat constructor; vm_compute; congruence.
  - apply (bool_decide_unpack _). vm_compute. exact I.
  - vm_compute. reflexivity.
Defined.
End torn.
