(* ===== verification/VertexTimestamp.v ===== *)
(** * VertexTimestamp

    src/storages/graph/vertex_timestamp.cc and its header: which vertices of a
    table exist at which timestamp.  Vertices below [init_vertex_num_] are
    compacted: they exist at every timestamp unless they are in the sparse set
    of removed vertices; the others have an entry in [inserted_vertices_]. *)

From stdpp Require Import gmap.
From S2P Require Import Prelude Archive.

Module VertexTimestamp.

Definition DELETED_TIMESTAMP : Z := U32_MAX.

Record t := MkVT {
  init_vertex_num_ : Z;
  inserted_vertices_ : option (list Z);
  max_vertex_num_ : Z;
  removed_vertices_ : option (gset Z)
}.

Definition set_inserted (a : option (list Z)) (s : t) : t :=
  MkVT (init_vertex_num_ s) a (max_vertex_num_ s) (removed_vertices_ s).
Definition set_removed (r : option (gset Z)) (s : t) : t :=
  MkVT (init_vertex_num_ s) (inserted_vertices_ s) (max_vertex_num_ s) r.

(** Array accesses; the source does not check them. *)
Definition array (s : t) : list Z := default [] (inserted_vertices_ s).
Definition load (s : t) (i : Z) : res Z :=
  if 0 <=? i then of_option OutOfBounds (array s !! Z.to_nat i) else Throw OutOfBounds.
Definition store (i : Z) (ts : Z) (s : t) : t :=
  set_inserted ((λ a, <[Z.to_nat i := ts]> a) <$> inserted_vertices_ s) s.

Definition fresh : t := MkVT 0 None 0 None.
Definition Reset (s : t) : t := fresh.
Definition Clear (s : t) : t := Reset s.
Definition Close (s : t) : t := Reset s.
Definition Swap (a b : t) : t * t := (b, a).

Definition make_timestamp_array (n : Z) (ts : Z) : list Z := replicate (Z.to_nat n) ts.

Definition Init (init_vertex_num max_vertex_num : Z) (s : t) : t :=
  if (init_vertex_num_ s =? init_vertex_num) && (max_vertex_num_ s =? max_vertex_num) then s
  else
    let mx := Z.max init_vertex_num max_vertex_num in
    let capacity := mx - init_vertex_num in
    MkVT init_vertex_num
      (if capacity =? 0 then None else Some (make_timestamp_array capacity DELETED_TIMESTAMP)) mx None.

(** [new_size] entries, the old ones kept at the front or at the back. *)
Definition resize_inserted_vertices (new_size : Z) (keep_front : bool) (s : t) : t :=
  set_inserted (Some
    match inserted_vertices_ s with
    | None => make_timestamp_array new_size DELETED_TIMESTAMP
    | Some a =>
        let old := max_vertex_num_ s - init_vertex_num_ s in
        let min_size := Z.min new_size old in
        let kept := if keep_front then take (Z.to_nat min_size) a
                    else take (Z.to_nat min_size) (drop (Z.to_nat (old - min_size)) a) in
        kept ++ make_timestamp_array (new_size - min_size) DELETED_TIMESTAMP
    end) s.

Definition Reserve (new_size : Z) (s : t) : t :=
  if (new_size <=? max_vertex_num_ s) && (init_vertex_num_ s <? new_size) then s
  else if new_size <=? init_vertex_num_ s then
    MkVT (u32 new_size) None (u32 new_size)
      ((λ r, filter (λ v, v < new_size) r) <$> removed_vertices_ s)
  else
    let s := resize_inserted_vertices (new_size - init_vertex_num_ s) true s in
    MkVT (init_vertex_num_ s) (inserted_vertices_ s) (u32 new_size) (removed_vertices_ s).

(** Entries for the compacted range from [v] on, so that [v] can be reused. *)
Definition materialize_compacted_range_for_reuse (v : Z) (s : t) : t :=
  let expanded := make_timestamp_array (init_vertex_num_ s - v) 0 ++ array s in
  let dead := filter (λ r, v ≤ r) (elements (default ∅ (removed_vertices_ s))) in
  let expanded := foldl (λ a r, <[Z.to_nat (r - v) := DELETED_TIMESTAMP]> a) expanded dead in
  MkVT v (Some expanded) (max_vertex_num_ s)
    ((λ r, filter (λ x, x < v) r) <$> removed_vertices_ s).

(** The exchange is the weak one: [spurious] lets it fail without cause. *)
Definition InsertVertex (spurious : bool) (v ts : Z) (s : t) : t * res unit :=
  let insert (s : t) :=
    match load s (v - init_vertex_num_ s) with
    | Throw e => (s, Throw e)
    | Ok old =>
        if (old =? DELETED_TIMESTAMP) && negb spurious
        then (store (v - init_vertex_num_ s) ts s, Ok tt) else (s, Throw InternalError)
    end in
  if v <? init_vertex_num_ s then
    if ts =? 0
    then (set_removed ((λ r, r ∖ {[v]}) <$> removed_vertices_ s) s, Ok tt)
    else insert (materialize_compacted_range_for_reuse v s)
  else insert s.

(** An entry that is set and not newer than [ts]. *)
Definition entry_valid (ts vertex_ts : Z) : bool :=
  negb (vertex_ts =? DELETED_TIMESTAMP) && (vertex_ts <=? ts).
Definition slot_valid (s : t) (ts i : Z) : bool :=
  match load s i with Ok vertex_ts => entry_valid ts vertex_ts | Throw _ => false end.

Definition IsVertexValid (v ts : Z) (s : t) : bool :=
  if max_vertex_num_ s <=? v then false
  else if init_vertex_num_ s <=? v then slot_valid s ts (v - init_vertex_num_ s)
  else match removed_vertices_ s with
    | Some r => bool_decide (v ∉ r)
    | None => true
    end.

Definition IsRemoved (v : Z) (s : t) : bool :=
  if max_vertex_num_ s <=? v then false
  else if init_vertex_num_ s <=? v then
    match load s (v - init_vertex_num_ s) with
    | Ok vertex_ts => vertex_ts =? DELETED_TIMESTAMP
    | Throw _ => false
    end
  else match removed_vertices_ s with
    | Some r => bool_decide (v ∈ r)
    | None => false
    end.

Definition ValidVertexNum (ts limit : Z) (s : t) : Z :=
  let limit := Z.min limit (max_vertex_num_ s) in
  let valid_num := Z.min (init_vertex_num_ s) limit in
  let valid_num := foldl (λ n v, if v <? limit then u64 (n - 1) else n) valid_num
                     (elements (default ∅ (removed_vertices_ s))) in
  if limit <=? init_vertex_num_ s then valid_num
  else foldl (λ n vertex_ts, if entry_valid ts vertex_ts then n + 1 else n)
       valid_num (take (Z.to_nat (limit - init_vertex_num_ s)) (array s)).

Definition RemoveVertex (v : Z) (s : t) : t * res Z :=
  if max_vertex_num_ s <=? v then (s, Throw InvalidArgument)
  else if init_vertex_num_ s <=? v then
    match load s (v - init_vertex_num_ s) with
    | Throw e => (s, Throw e)
    | Ok old_ts =>
        if old_ts =? DELETED_TIMESTAMP then (s, Throw InvalidArgument)
        else (store (v - init_vertex_num_ s) DELETED_TIMESTAMP s, Ok old_ts)
    end
  else (set_removed (Some (default ∅ (removed_vertices_ s) ∪ {[v]})) s, Ok 0).

Definition RevertRemoveVertex (v old_ts : Z) (s : t) : t * res unit :=
  if init_vertex_num_ s <=? v then
    match load s (v - init_vertex_num_ s) with
    | Throw e => (s, Throw e)
    | Ok _ => (store (v - init_vertex_num_ s) old_ts s, Ok tt)
    end
  else match removed_vertices_ s with
    | None => (s, Throw InternalError)
    | Some r => (set_removed (Some (r ∖ {[v]})) s, Ok tt)
    end.

(** The vertices [foreach_vertex] calls its function on, in order. *)
Definition foreach_vertex (vnum ts : Z) (s : t) : list Z :=
  let limit := Z.min vnum (max_vertex_num_ s) in
  filter (λ i, i ∉ default ∅ (removed_vertices_ s)) (seqZ 0 (init_vertex_num_ s)) ++
  (if limit <=? init_vertex_num_ s then []
   else (λ i, i + init_vertex_num_ s) <$>
        filter (λ i, slot_valid s ts i = true) (seqZ 0 (limit - init_vertex_num_ s))).

Definition Capacity (s : t) : Z := max_vertex_num_ s.

Definition ResetTimestamps (s : t) : t :=
  set_inserted ((λ a : list Z, (λ ts, if ts =? DELETED_TIMESTAMP then ts else 0) <$> a) <$> inserted_vertices_ s) s.

(** Length of the prefix of zero entries. *)
Fixpoint zero_prefix (a : list Z) : nat :=
  match a with [] => 0 | x :: a => if x =? 0 then S (zero_prefix a) else 0 end.

Definition Compact (s : t) : t :=
  let s := ResetTimestamps s in
  match inserted_vertices_ s with
  | None => s
  | Some a =>
      let num := max_vertex_num_ s - init_vertex_num_ s in
      let first_non_zero := Z.of_nat (zero_prefix a) in
      if 0 <? first_non_zero then
        let s := resize_inserted_vertices (num - first_non_zero) false s in
        MkVT (init_vertex_num_ s + first_non_zero) (inserted_vertices_ s) (max_vertex_num_ s)
          (removed_vertices_ s)
      else s
  end.

(** ** Dump and load *)

Definition sorted_elements (r : gset Z) : list Z := merge_sort Z.le (elements r).

Definition dump_ts (s : t) : out :=
  put_u32 (init_vertex_num_ s) << put_u32 (max_vertex_num_ s)
  << put_list32 put_u32 (sorted_elements (default ∅ (removed_vertices_ s)))
  << put_u32 (max_vertex_num_ s - init_vertex_num_ s)
  << put_all put_u32 (array s).

Definition load_ts (bs : list Z) (s : t) : res t :=
  match (i ← get_u32; m ← get_u32; rs ← get_list32 get_u32; n ← get_u32;
         a ← rep get_u32 (Z.to_nat n); mret (i, m, rs, n, a)) bs with
  | Throw e => Throw e
  | Ok (i, m, rs, n, a, _) =>
      let s := Init i m (MkVT i (inserted_vertices_ s) m (removed_vertices_ s)) in
      let s := match rs with
               | [] => s
               | _ => set_removed (Some (default ∅ (removed_vertices_ s) ∪ list_to_set rs)) s
               end in
      let s := resize_inserted_vertices n true s in
      Ok (set_inserted (Some (a ++ drop (length a) (array s))) s)
  end.

End VertexTimestamp.

(** ** What the table means *)

Section spec.
Import VertexTimestamp.
Implicit Types (s : t) (v ts : Z).

(** The timestamp a vertex exists from, if it exists. *)
Definition abs s v : option Z :=
  if (0 <=? v) && (v <? max_vertex_num_ s) then
    if v <? init_vertex_num_ s then
      (if bool_decide (v ∈ default ∅ (removed_vertices_ s)) then None else Some 0)
    else match load s (v - init_vertex_num_ s) with
      | Ok x => if x =? DELETED_TIMESTAMP then None else Some x
      | Throw _ => None
      end
  else None.

Record inv s : Prop := {
  inv_range : 0 ≤ init_vertex_num_ s ≤ max_vertex_num_ s ∧ max_vertex_num_ s < 2^32;
  inv_len : Z.of_nat (length (array s)) = max_vertex_num_ s - init_vertex_num_ s;
  inv_ts : Forall (λ x, 0 ≤ x ≤ U32_MAX) (array s);
  inv_removed : ∀ v, v ∈ default ∅ (removed_vertices_ s) → 0 ≤ v < init_vertex_num_ s
}.

Definition in_range s v : Prop := 0 ≤ v < max_vertex_num_ s.

Lemma load_in s v :
  inv s → init_vertex_num_ s ≤ v < max_vertex_num_ s →
  ∃ x, load s (v - init_vertex_num_ s) = Ok x ∧ 0 ≤ x ≤ U32_MAX ∧
       array s !! Z.to_nat (v - init_vertex_num_ s) = Some x.
Proof.
  intros Hi Hv. destruct (lookup_lt_is_Some_2 (array s) (Z.to_nat (v - init_vertex_num_ s))) as [x Hx].
  { pose proof (inv_len _ Hi). lia. }
  exists x. unfold load. rewrite (proj2 (Z.leb_le _ _)) by lia. rewrite Hx. split_and!; try done;
    pose proof (proj1 (Forall_lookup _ _) (inv_ts _ Hi) _ _ Hx); cbn in *; lia.
Qed.

(** Validity at a timestamp is existence from then on. *)
Lemma IsVertexValid_abs s v ts :
  inv s → 0 ≤ v → 0 ≤ ts →
  IsVertexValid v ts s = match abs s v with Some x => x <=? ts | None => false end.
Proof.
  intros Hi Hv Hts. unfold IsVertexValid, abs, slot_valid, entry_valid.
  rewrite (proj2 (Z.leb_le 0 v)) by done. cbn [andb].
  destruct (Z.leb_spec (max_vertex_num_ s) v), (Z.ltb_spec v (max_vertex_num_ s)); try lia.
  destruct (Z.leb_spec (init_vertex_num_ s) v), (Z.ltb_spec v (init_vertex_num_ s)); try lia.
  - destruct (load _ _) as [x|]; [|done]. by destruct (x =? DELETED_TIMESTAMP).
  - destruct (removed_vertices_ s) as [r|]; cbn.
    + repeat case_bool_decide; try done. symmetry. by apply Z.leb_le.
    + rewrite bool_decide_false by set_solver. symmetry. by apply Z.leb_le.
Qed.

Lemma IsRemoved_abs s v :
  inv s → 0 ≤ v → IsRemoved v s = match abs s v with Some _ => false | None => v <? max_vertex_num_ s end.
Proof.
  intros Hi Hv. unfold IsRemoved, abs. rewrite (proj2 (Z.leb_le 0 v)) by done. cbn [andb].
  destruct (Z.leb_spec (max_vertex_num_ s) v), (Z.ltb_spec v (max_vertex_num_ s)); try lia.
  destruct (Z.leb_spec (init_vertex_num_ s) v), (Z.ltb_spec v (init_vertex_num_ s)); try lia.
  - destruct (load_in s v Hi) as (x & -> & _); [lia|]. by destruct (x =? DELETED_TIMESTAMP).
  - destruct (removed_vertices_ s) as [r|]; cbn.
    + repeat case_bool_decide; try done.
    + by rewrite bool_decide_false by set_solver.
Qed.

Definition entry_abs (x : Z) : option Z := if x =? DELETED_TIMESTAMP then None else Some x.

Lemma array_store s i x : array (store i x s) = <[Z.to_nat i := x]> (array s).
Proof. unfold array, store. by destruct (inserted_vertices_ s). Qed.

Lemma store_spec s v x :
  inv s → init_vertex_num_ s ≤ v < max_vertex_num_ s → 0 ≤ x ≤ U32_MAX →
  inv (store (v - init_vertex_num_ s) x s) ∧
  ∀ u, abs (store (v - init_vertex_num_ s) x s) u = if decide (u = v) then entry_abs x else abs s u.
Proof.
  intros Hi Hv Hx. split.
  - split; rewrite ?array_store, ?length_insert; try apply Hi. apply Forall_insert; [apply Hi|done].
  - intros u. unfold abs, load. rewrite array_store. cbn [store init_vertex_num_ max_vertex_num_ removed_vertices_ set_inserted].
    pose proof (inv_range _ Hi). pose proof (inv_len _ Hi).
    destruct (decide (u = v)) as [->|Hne].
    + rewrite (proj2 (Z.leb_le 0 v)), (proj2 (Z.ltb_lt v _)) by lia. cbn [andb].
      rewrite (proj2 (Z.ltb_ge v _)), (proj2 (Z.leb_le 0 _)) by lia.
      by rewrite list_lookup_insert_eq by lia.
    + destruct ((0 <=? u) && (u <? max_vertex_num_ s)) eqn:E; [|done].
      destruct (Z.ltb_spec u (init_vertex_num_ s)); [done|].
      rewrite list_lookup_insert_ne by lia. done.
Qed.

(** ** Materializing the compacted range *)

(** Materializing changes the representation and nothing else. *)
Lemma materialize_spec s v :
  inv s → 0 ≤ v < init_vertex_num_ s →
  let s' := materialize_compacted_range_for_reuse v s in
  inv s' ∧ (∀ u, abs s' u = abs s u) ∧ init_vertex_num_ s' = v ∧ max_vertex_num_ s' = max_vertex_num_ s.
Proof.
  intros Hi Hv s'. pose proof (inv_range _ Hi). pose proof (inv_len _ Hi) as Hlen.
  set (base := make_timestamp_array (init_vertex_num_ s - v) 0 ++ array s).
  set (dead := filter (λ r, v ≤ r) (elements (default ∅ (removed_vertices_ s)))).
  assert (Ha : array s' = foldl (λ a r, <[Z.to_nat (r - v) := DELETED_TIMESTAMP]> a) base dead) by done.
  assert (Hbl : length base = Z.to_nat (max_vertex_num_ s - v)).
  { unfold base, make_timestamp_array. rewrite length_app, length_replicate. lia. }
  assert (Hdead : ∀ r, r ∈ dead ↔ v ≤ r ∧ r ∈ default ∅ (removed_vertices_ s)).
  { intros r. unfold dead. rewrite list_elem_of_filter, elem_of_elements. done. }
  assert (Hrem : ∀ r, r ∈ default ∅ (removed_vertices_ s') ↔ r < v ∧ r ∈ default ∅ (removed_vertices_ s)).
  { intros r. cbn. destruct (removed_vertices_ s) as [x|]; cbn; [by rewrite elem_of_filter|]. rewrite !elem_of_empty. tauto. }
  split_and!; [| |done|done].
  - split; rewrite ?Ha; cbn [init_vertex_num_ max_vertex_num_ s' materialize_compacted_range_for_reuse].
    + lia.
    + rewrite foldl_insert_length, Hbl. lia.
    + apply foldl_insert_Forall; [unfold DELETED_TIMESTAMP, U32_MAX; lia|]. apply Forall_app. split; [|apply Hi].
      apply Forall_replicate. unfold U32_MAX. lia.
    + intros u Hu. apply Hrem in Hu as [? Hu]. apply (inv_removed _ Hi) in Hu. lia.
  - intros u. unfold abs, load. rewrite Ha. cbn [init_vertex_num_ max_vertex_num_ s' materialize_compacted_range_for_reuse].
    destruct ((0 <=? u) && (u <? max_vertex_num_ s)) eqn:E; [|done]. bool_to_prop.
    destruct (Z.ltb_spec u v).
    { rewrite (proj2 (Z.ltb_lt u _)) by lia. change (default ∅ ((λ r, filter (λ x, x < v) r) <$> removed_vertices_ s))
        with (default ∅ (removed_vertices_ s')).
      rewrite (bool_decide_ext _ (u ∈ default ∅ (removed_vertices_ s))); [done|]. rewrite Hrem. tauto. }
    rewrite (proj2 (Z.leb_le 0 _)) by lia.
    destruct (decide (u ∈ dead)) as [Hd|Hd].
    { rewrite (foldl_insert_in (λ r, Z.to_nat (r - v)) _ dead base u Hd) by (rewrite Hbl; lia).
      apply Hdead in Hd as [_ Hd]. pose proof (inv_removed _ Hi u Hd). cbn [of_option].
      rewrite Z.eqb_refl, (proj2 (Z.ltb_lt u _)) by lia. by rewrite bool_decide_true. }
    rewrite foldl_insert_ne.
    2:{ intros r Hr E. apply Hd. replace u with r; [done|].
        apply Hdead in Hr as [? ?]. lia. }
    unfold base. destruct (Z.ltb_spec u (init_vertex_num_ s)).
    + rewrite lookup_app_l by (unfold make_timestamp_array; rewrite length_replicate; lia).
      unfold make_timestamp_array. rewrite lookup_replicate_2 by lia. cbn.
      rewrite bool_decide_false; [done|]. intros Hin. apply Hd, Hdead. split; [lia|done].
    + rewrite lookup_app_r by (unfold make_timestamp_array; rewrite length_replicate; lia).
      unfold make_timestamp_array. rewrite length_replicate.
      rewrite (proj2 (Z.leb_le 0 _)) by lia.
      by replace (Z.to_nat (u - v) - Z.to_nat (init_vertex_num_ s - v))%nat
        with (Z.to_nat (u - init_vertex_num_ s)) by lia.
Qed.

(** ** Operations *)

Lemma abs_entry s v :
  inv s → init_vertex_num_ s ≤ v < max_vertex_num_ s →
  ∃ x, load s (v - init_vertex_num_ s) = Ok x ∧ 0 ≤ x ≤ U32_MAX ∧ abs s v = entry_abs x.
Proof.
  intros Hi Hv. destruct (load_in s v Hi Hv) as (x & Hl & Hx & _). exists x. split_and!; try done; try lia.
  unfold abs. pose proof (inv_range _ Hi).
  rewrite (proj2 (Z.leb_le 0 v)), (proj2 (Z.ltb_lt v _)), (proj2 (Z.ltb_ge v _)), Hl by lia. done.
Qed.

Lemma abs_compacted s v :
  inv s → 0 ≤ v < init_vertex_num_ s →
  abs s v = if bool_decide (v ∈ default ∅ (removed_vertices_ s)) then None else Some 0.
Proof.
  intros Hi Hv. unfold abs. pose proof (inv_range _ Hi).
  by rewrite (proj2 (Z.leb_le 0 v)), (proj2 (Z.ltb_lt v (max_vertex_num_ s))), (proj2 (Z.ltb_lt v (init_vertex_num_ s))) by lia.
Qed.

Lemma entry_abs_None x : entry_abs x = None ↔ x = DELETED_TIMESTAMP.
Proof. unfold entry_abs. destruct (Z.eqb_spec x DELETED_TIMESTAMP); naive_solver. Qed.

Lemma set_removed_spec s (r : gset Z) v (b : bool) :
  inv s → 0 ≤ v < init_vertex_num_ s →
  (∀ u, u ∈ r ↔ (if decide (u = v) then b = true else u ∈ default ∅ (removed_vertices_ s))) →
  inv (set_removed (Some r) s) ∧
  ∀ u, abs (set_removed (Some r) s) u = if decide (u = v) then (if b then None else Some 0) else abs s u.
Proof.
  intros Hi Hv Hr. split.
  - split; try apply Hi. cbn. intros u Hu. apply Hr in Hu. destruct (decide (u = v)) as [->|]; [done|].
    by apply Hi.
  - intros u. pose proof (inv_range _ Hi). destruct (decide (u = v)) as [->|Hne].
    + unfold abs. cbn. rewrite (proj2 (Z.leb_le 0 v)), (proj2 (Z.ltb_lt v (max_vertex_num_ s))),
        (proj2 (Z.ltb_lt v (init_vertex_num_ s))) by lia. cbn.
      specialize (Hr v). destruct (decide (v = v)); [|done].
      destruct b; [by rewrite bool_decide_true by (by apply Hr)|].
      rewrite bool_decide_false; [done|]. intros Hin. by apply Hr in Hin.
    + unfold abs, load. cbn. specialize (Hr u). destruct (decide (u = v)); [done|].
      by rewrite (bool_decide_ext _ _ Hr).
Qed.

Lemma insert_entry s v ts :
  inv s → init_vertex_num_ s ≤ v < max_vertex_num_ s → 0 ≤ ts < U32_MAX →
  let r := match load s (v - init_vertex_num_ s) with
    | Throw e => (s, Throw e)
    | Ok old => if (old =? DELETED_TIMESTAMP) && negb false
                then (store (v - init_vertex_num_ s) ts s, Ok tt) else (s, Throw InternalError)
    end in
  inv r.1 ∧ max_vertex_num_ r.1 = max_vertex_num_ s ∧
  match abs s v with
  | None => r.2 = Ok tt ∧ ∀ u, abs r.1 u = if decide (u = v) then Some ts else abs s u
  | Some _ => r.2 = Throw InternalError ∧ ∀ u, abs r.1 u = abs s u
  end.
Proof.
  intros Hi Hv Hts. destruct (abs_entry s v Hi Hv) as (x & -> & Hx & ->). rewrite andb_true_r.
  unfold entry_abs. destruct (Z.eqb_spec x DELETED_TIMESTAMP) as [->|]; cbn; [|done].
  destruct (store_spec s v ts Hi Hv) as [Hi' Ha]; [lia|]. split_and!; [done|done|done|].
  intros u. rewrite Ha. unfold entry_abs, DELETED_TIMESTAMP.
  by rewrite (proj2 (Z.eqb_neq ts U32_MAX)) by lia.
Qed.

Lemma InsertVertex_spec s v ts :
  inv s → in_range s v → 0 ≤ ts < U32_MAX →
  let r := InsertVertex false v ts s in
  inv r.1 ∧ max_vertex_num_ r.1 = max_vertex_num_ s ∧
  match abs s v with
  | None => r.2 = Ok tt ∧ ∀ u, abs r.1 u = if decide (u = v) then Some ts else abs s u
  | Some _ => r.2 = (if (v <? init_vertex_num_ s) && (ts =? 0) then Ok tt else Throw InternalError) ∧
              ∀ u, abs r.1 u = abs s u
  end.
Proof.
  intros Hi Hv Hts. unfold InsertVertex, in_range in *.
  destruct (Z.ltb_spec v (init_vertex_num_ s)) as [Hlt|Hge].
  - destruct (Z.eqb_spec ts 0) as [->|Hne]; cbn [andb].
    + cbn [fst snd]. rewrite (abs_compacted s v) by (done || lia).
      destruct (removed_vertices_ s) as [r|] eqn:Er; cbn [fmap option_fmap option_map default].
      * destruct (set_removed_spec s (r ∖ {[v]}) v false Hi) as [Hi' Ha]; [lia| |].
        { rewrite Er. cbn. intros u. destruct (decide (u = v)) as [->|]; set_solver. }
        split_and!; [done|done|]. case_bool_decide as Hb; (split; [done|]); intros u; rewrite Ha.
        -- done.
        -- destruct (decide (u = v)) as [->|]; [|done]. rewrite (abs_compacted s v) by (done || lia).
           rewrite Er. cbn. by rewrite bool_decide_false.
      * replace (set_removed None s) with s by (destruct s; cbn in *; by subst).
        rewrite bool_decide_false by set_solver. by split_and!.
    + destruct (materialize_spec s v Hi) as (Hi' & Ha & Hini & Hmx); [lia|].
      set (s' := materialize_compacted_range_for_reuse v s) in *.
      destruct (insert_entry s' v ts Hi') as (H1 & H2 & H3); [lia|done|]. rewrite Ha in H3.
      split_and!; [done|congruence|].
      destruct (abs s v); destruct H3 as [? H3]; (split; [done|]); intros u; by rewrite H3, ?Ha.
  - cbn [andb]. destruct (insert_entry s v ts Hi) as (H1 & H2 & H3); [lia|done|]. by split_and!.
Qed.

(** A spurious failure of the exchange throws and leaves every vertex as it was; only a
    batch insert into the compacted prefix does not reach the exchange. *)
Lemma InsertVertex_spurious s v ts :
  inv s → in_range s v →
  if (v <? init_vertex_num_ s) && (ts =? 0) then InsertVertex true v ts s = InsertVertex false v ts s
  else let r := InsertVertex true v ts s in
    inv r.1 ∧ max_vertex_num_ r.1 = max_vertex_num_ s ∧ r.2 = Throw InternalError ∧ ∀ u, abs r.1 u = abs s u.
Proof.
  intros Hi Hv. unfold InsertVertex, in_range in *. destruct (Z.ltb_spec v (init_vertex_num_ s)) as [Hlt|Hge]; cbn [andb].
  - destruct (ts =? 0); [done|]. destruct (materialize_spec s v Hi) as (Hi' & Ha & Hini & Hmx); [lia|].
    destruct (abs_entry _ v Hi') as (x & -> & _); [lia|]. rewrite andb_false_r. by split_and!.
  - destruct (abs_entry s v Hi) as (x & -> & _); [lia|]. rewrite andb_false_r. by split_and!.
Qed.

Lemma RemoveVertex_spec s v :
  inv s → 0 ≤ v →
  let r := RemoveVertex v s in
  inv r.1 ∧ max_vertex_num_ r.1 = max_vertex_num_ s ∧ init_vertex_num_ r.1 = init_vertex_num_ s ∧
  match abs s v with
  | Some x => r.2 = Ok x ∧ ∀ u, abs r.1 u = if decide (u = v) then None else abs s u
  | None => r.2 = (if v <? init_vertex_num_ s then Ok 0 else Throw InvalidArgument) ∧
            ∀ u, abs r.1 u = abs s u
  end.
Proof.
  intros Hi Hv. unfold RemoveVertex. pose proof (inv_range _ Hi).
  destruct (Z.leb_spec (max_vertex_num_ s) v) as [Hm|Hm].
  { assert (abs s v = None) as ->.
    { unfold abs. by rewrite (proj2 (Z.ltb_ge v (max_vertex_num_ s))), andb_false_r by lia. }
    rewrite (proj2 (Z.ltb_ge v (init_vertex_num_ s))) by lia. by split_and!. }
  destruct (Z.leb_spec (init_vertex_num_ s) v) as [Hge|Hlt].
  - rewrite (proj2 (Z.ltb_ge v _)) by lia. destruct (abs_entry s v Hi) as (x & -> & Hx & ->); [lia|].
    unfold entry_abs. destruct (Z.eqb_spec x DELETED_TIMESTAMP) as [->|]; cbn; [by split_and!|].
    destruct (store_spec s v DELETED_TIMESTAMP Hi) as [Hi' Ha]; [lia|unfold DELETED_TIMESTAMP, U32_MAX; lia|].
    by split_and!.
  - rewrite (proj2 (Z.ltb_lt v _)) by lia. cbn [fst snd].
    destruct (set_removed_spec s (default ∅ (removed_vertices_ s) ∪ {[v]}) v true Hi) as [Hi' Ha]; [lia| |].
    { intros u. destruct (decide (u = v)) as [->|]; set_solver. }
    split_and!; [done|done|done|]. rewrite (abs_compacted s v) by (done || lia).
    case_bool_decide as Hb; (split; [done|]); intros u; rewrite Ha; [|done].
    destruct (decide (u = v)) as [->|]; [|done]. rewrite (abs_compacted s v) by (done || lia).
    by rewrite bool_decide_true.
Qed.

Lemma RevertRemoveVertex_spec s v x :
  inv s → in_range s v → abs s v = None → 0 ≤ x < U32_MAX → (v < init_vertex_num_ s → x = 0) →
  let r := RevertRemoveVertex v x s in
  inv r.1 ∧ r.2 = Ok tt ∧ ∀ u, abs r.1 u = if decide (u = v) then Some x else abs s u.
Proof.
  intros Hi Hv Hn Hx H0. unfold RevertRemoveVertex, in_range in *. pose proof (inv_range _ Hi).
  destruct (Z.leb_spec (init_vertex_num_ s) v) as [Hge|Hlt].
  - destruct (abs_entry s v Hi) as (y & -> & _); [lia|]. cbn [fst snd].
    destruct (store_spec s v x Hi) as [Hi' Ha]; [lia|lia|]. split_and!; [done|done|].
    intros u. rewrite Ha. unfold entry_abs, DELETED_TIMESTAMP. by rewrite (proj2 (Z.eqb_neq x U32_MAX)) by lia.
  - specialize (H0 Hlt). subst x. rewrite (abs_compacted s v) in Hn by (done || lia).
    destruct (removed_vertices_ s) as [r|] eqn:Er; cbn [default] in Hn; [|by rewrite bool_decide_false in Hn by set_solver].
    cbn [fst snd]. destruct (set_removed_spec s (r ∖ {[v]}) v false Hi) as [Hi' Ha]; [lia| |by split_and!].
    rewrite Er. cbn. intros u. destruct (decide (u = v)) as [->|]; set_solver.
Qed.

(** Two tables with the same frame and pointwise related entries. *)
Lemma abs_frame s s' u (f : option Z → option Z) :
  max_vertex_num_ s' = max_vertex_num_ s →
  (0 ≤ u < max_vertex_num_ s → abs s' u = f (abs s u)) → f None = None → abs s' u = f (abs s u).
Proof.
  intros Hm Hin Hf. destruct (decide (0 ≤ u < max_vertex_num_ s)) as [|Hn]; [auto|].
  unfold abs. rewrite Hm. replace ((0 <=? u) && (u <? max_vertex_num_ s)) with false; [done|].
  symmetry. apply andb_false_iff. rewrite Z.leb_gt, Z.ltb_ge. lia.
Qed.

Lemma array_ResetTimestamps s :
  array (ResetTimestamps s) = (λ ts, if ts =? DELETED_TIMESTAMP then ts else 0) <$> array s.
Proof. unfold array, ResetTimestamps. by destruct (inserted_vertices_ s). Qed.

Lemma ResetTimestamps_spec s :
  inv s → inv (ResetTimestamps s) ∧ ∀ u, abs (ResetTimestamps s) u = (λ _, 0) <$> abs s u.
Proof.
  intros Hi. split.
  - split; rewrite ?array_ResetTimestamps, ?length_fmap; try apply Hi.
    apply Forall_fmap. eapply Forall_impl; [apply Hi|]. intros x Hx. cbn. case_match; [done|].
    unfold U32_MAX. lia.
  - intros u. apply (abs_frame s _ u (fmap (λ _, 0))); [done| |done]. intros Hu.
    unfold abs, load. rewrite array_ResetTimestamps.
    cbn [ResetTimestamps set_inserted max_vertex_num_ init_vertex_num_ removed_vertices_].
    rewrite (proj2 (Z.leb_le 0 u)), (proj2 (Z.ltb_lt u (max_vertex_num_ s))) by lia. cbn [andb].
    destruct (Z.ltb_spec u (init_vertex_num_ s)); [by case_bool_decide|].
    rewrite (proj2 (Z.leb_le 0 _)), list_lookup_fmap by lia.
    destruct (array s !! _) as [x|]; cbn; [|done].
    destruct (Z.eqb_spec x DELETED_TIMESTAMP) as [->|]; [by rewrite Z.eqb_refl|]. done.
Qed.

Lemma zero_prefix_length a : (zero_prefix a ≤ length a)%nat.
Proof. induction a as [|x a IH]; cbn; [lia|]. case_match; lia. Qed.
Lemma zero_prefix_lookup a i : (i < zero_prefix a)%nat → a !! i = Some 0.
Proof.
  revert i. induction a as [|x a IH]; intros i Hi; cbn in Hi; [lia|].
  destruct (Z.eqb_spec x 0) as [->|]; [|lia]. destruct i; [done|]. apply IH. lia.
Qed.

(** Dropping the first [n] entries, all zero, moves them to the compacted part. *)
Lemma compact_prefix s n :
  inv s → (n ≤ length (array s))%nat → (∀ i, (i < n)%nat → array s !! i = Some 0) →
  let s' := MkVT (init_vertex_num_ s + Z.of_nat n) (Some (drop n (array s))) (max_vertex_num_ s)
              (removed_vertices_ s) in
  inv s' ∧ ∀ u, abs s' u = abs s u.
Proof.
  intros Hi Hn Hz s'. pose proof (inv_range _ Hi). pose proof (inv_len _ Hi).
  split.
  - split; unfold array; cbn.
    + lia.
    + rewrite length_drop. lia.
    + apply Forall_drop, Hi.
    + intros v Hv. apply Hi in Hv. lia.
  - intros u. apply (abs_frame s s' u id); [done| |done]. intros Hu. unfold id, abs, load, array. cbn.
    rewrite (proj2 (Z.leb_le 0 u)), (proj2 (Z.ltb_lt u (max_vertex_num_ s))) by lia. cbn [andb].
    destruct (Z.ltb_spec u (init_vertex_num_ s)).
    + by rewrite (proj2 (Z.ltb_lt u (_ + _))) by lia.
    + rewrite (proj2 (Z.leb_le 0 (u - init_vertex_num_ s))) by lia. fold (array s).
      destruct (Z.ltb_spec u (init_vertex_num_ s + Z.of_nat n)).
      * rewrite Hz by lia. cbn. rewrite bool_decide_false; [done|]. intros Hin. apply Hi in Hin. lia.
      * rewrite (proj2 (Z.leb_le 0 _)), lookup_drop by lia.
        by replace (n + Z.to_nat (u - (init_vertex_num_ s + Z.of_nat n)))%nat
          with (Z.to_nat (u - init_vertex_num_ s)) by lia.
Qed.

Lemma Compact_spec s :
  inv s → inv (Compact s) ∧ max_vertex_num_ (Compact s) = max_vertex_num_ s ∧
          ∀ u, abs (Compact s) u = (λ _, 0) <$> abs s u.
Proof.
  intros Hi. destruct (ResetTimestamps_spec s Hi) as [Hi' Ha]. unfold Compact.
  set (s1 := ResetTimestamps s) in *.
  destruct (inserted_vertices_ s1) as [a|] eqn:Ea; [|done].
  destruct (Z.ltb_spec 0 (Z.of_nat (zero_prefix a))) as [Hz|]; [|done].
  assert (Harr : array s1 = a) by (unfold array; by rewrite Ea).
  pose proof (zero_prefix_length a). pose proof (inv_len _ Hi') as Hl. rewrite Harr in Hl.
  destruct (compact_prefix s1 (zero_prefix a) Hi') as [Hc Hca]; rewrite ?Harr; [done|apply zero_prefix_lookup|].
  unfold resize_inserted_vertices. rewrite Ea. cbn [set_inserted init_vertex_num_ max_vertex_num_ removed_vertices_ inserted_vertices_].
  rewrite Z.min_l by lia. rewrite Z.sub_diag.
  replace (max_vertex_num_ s1 - init_vertex_num_ s1 -
    (max_vertex_num_ s1 - init_vertex_num_ s1 - Z.of_nat (zero_prefix a)))
    with (Z.of_nat (zero_prefix a)) by lia.
  rewrite Nat2Z.id, take_ge by (rewrite length_drop; lia). unfold make_timestamp_array. cbn [Z.to_nat replicate].
  rewrite app_nil_r. rewrite Harr in Hc, Hca. split_and!; [done|done|]. intros u. by rewrite Hca.
Qed.

(** Compaction stops before a vertex that does not exist. *)
Lemma Compact_init s n :
  inv s → init_vertex_num_ s ≤ n → abs s n = None → init_vertex_num_ (Compact s) ≤ n.
Proof.
  intros Hi Hn Ha. destruct (ResetTimestamps_spec s Hi) as [Hi' Ha']. unfold Compact.
  set (s1 := ResetTimestamps s) in *. change (init_vertex_num_ s) with (init_vertex_num_ s1) in Hn.
  destruct (inserted_vertices_ s1) as [a|] eqn:Ea; [|done]. destruct (Z.ltb_spec 0 (Z.of_nat (zero_prefix a))); [|done].
  cbn. destruct (Z.le_gt_cases (init_vertex_num_ s1 + Z.of_nat (zero_prefix a)) n) as [|Hlt]; [done|exfalso].
  assert (Harr : array s1 = a) by (unfold array; by rewrite Ea). pose proof (zero_prefix_length a).
  pose proof (inv_len _ Hi') as Hl. pose proof (inv_range _ Hi'). rewrite Harr in Hl.
  specialize (Ha' n). rewrite Ha in Ha'. cbn in Ha'. unfold abs, load in Ha'. rewrite Harr in Ha'.
  rewrite (proj2 (Z.leb_le 0 n)), (proj2 (Z.ltb_lt n (max_vertex_num_ s1))), (proj2 (Z.ltb_ge n (init_vertex_num_ s1))),
    (proj2 (Z.leb_le 0 (n - _))), zero_prefix_lookup in Ha' by lia. done.
Qed.

Lemma RevertRemoveVertex_frame v ts s :
  let s' := (RevertRemoveVertex v ts s).1 in
  init_vertex_num_ s' = init_vertex_num_ s ∧ max_vertex_num_ s' = max_vertex_num_ s.
Proof. unfold RevertRemoveVertex. by repeat case_match. Qed.

Lemma Reserve_init n s : init_vertex_num_ s < n → init_vertex_num_ (Reserve n s) = init_vertex_num_ s.
Proof.
  intros Hn. unfold Reserve. rewrite (proj2 (Z.leb_gt n (init_vertex_num_ s))) by lia. by destruct (_ && _).
Qed.

Lemma Reserve_grow s n :
  inv s → init_vertex_num_ s < n < 2^32 →
  inv (Reserve n s) ∧ max_vertex_num_ (Reserve n s) = Z.max n (max_vertex_num_ s) ∧
  ∀ u, abs (Reserve n s) u = abs s u.
Proof.
  intros Hi Hn. pose proof (inv_range _ Hi). pose proof (inv_len _ Hi) as Hl. unfold Reserve.
  rewrite (proj2 (Z.ltb_lt (init_vertex_num_ s) n)), andb_true_r by lia.
  destruct (Z.leb_spec n (max_vertex_num_ s)); [split_and!; [done|lia|done]|].
  rewrite (proj2 (Z.leb_gt n (init_vertex_num_ s))) by lia.
  rewrite u32_id by (unfold is_u32; lia).
  set (s' := MkVT _ _ _ _).
  assert (Ha : array s' = array s ++ make_timestamp_array (n - max_vertex_num_ s) DELETED_TIMESTAMP).
  { unfold array, s', resize_inserted_vertices. cbn.
    destruct (inserted_vertices_ s) as [a|] eqn:Ea; cbn.
    - rewrite Z.min_r by lia. assert (array s = a) as Hsa by (unfold array; by rewrite Ea). rewrite Hsa in Hl.
      rewrite take_ge by lia. f_equal. unfold make_timestamp_array. f_equal. lia.
    - assert (array s = []) as Hsa by (unfold array; by rewrite Ea). rewrite Hsa in Hl. cbn in Hl.
      unfold make_timestamp_array. f_equal. lia. }
  split_and!; [|cbn; lia|].
  - split; rewrite ?Ha; cbn.
    + lia.
    + rewrite length_app. unfold make_timestamp_array. rewrite length_replicate. lia.
    + apply Forall_app. split; [apply Hi|]. apply Forall_replicate. unfold DELETED_TIMESTAMP, U32_MAX. lia.
    + apply Hi.
  - intros u. unfold abs at 1, load. rewrite Ha. cbn. fold (array s).
    destruct (decide (0 ≤ u < max_vertex_num_ s)) as [Hu|Hu].
    + unfold abs, load. rewrite (proj2 (Z.leb_le 0 u)), (proj2 (Z.ltb_lt u n)), (proj2 (Z.ltb_lt u (max_vertex_num_ s))) by lia.
      cbn [andb]. destruct (Z.ltb_spec u (init_vertex_num_ s)); [done|].
      rewrite (proj2 (Z.leb_le 0 _)) by lia. by rewrite lookup_app_l by lia.
    + assert (abs s u = None) as ->.
      { unfold abs. replace ((0 <=? u) && (u <? max_vertex_num_ s)) with false; [done|].
        symmetry. apply andb_false_iff. rewrite Z.leb_gt, Z.ltb_ge. lia. }
      destruct ((0 <=? u) && (u <? n)) eqn:E; [|done]. bool_to_prop.
      rewrite (proj2 (Z.ltb_ge u _)), (proj2 (Z.leb_le 0 _)) by lia.
      rewrite lookup_app_r by lia. unfold make_timestamp_array.
      rewrite lookup_replicate_2 by lia. cbn. by rewrite Z.eqb_refl.
Qed.

(** ** Counting and visiting *)

(** The vertices below [n] that are valid at [ts], in order. *)
Definition valid_below s ts n : list Z := filter (λ v, IsVertexValid v ts s = true) (seqZ 0 n).
Definition kept_below s n : list Z := filter (λ v, v ∉ default ∅ (removed_vertices_ s)) (seqZ 0 n).
Definition slots_below s ts n : list Z := filter (λ i, slot_valid s ts i = true) (seqZ 0 n).

Lemma valid_compacted s ts n :
  inv s → 0 ≤ n ≤ init_vertex_num_ s → valid_below s ts n = kept_below s n.
Proof.
  intros Hi Hn. apply filter_ext_in. intros v Hv. apply elem_of_seqZ in Hv. pose proof (inv_range _ Hi).
  unfold IsVertexValid. rewrite (proj2 (Z.leb_gt (max_vertex_num_ s) v)), (proj2 (Z.leb_gt (init_vertex_num_ s) v)) by lia.
  destruct (removed_vertices_ s); cbn; [by rewrite bool_decide_eq_true|].
  split; [intros _ []%not_elem_of_empty|done].
Qed.

Lemma filter_fmap_shift k (P : Z → Prop) `{!∀ x, Decision (P x)} (l : list Z) :
  filter P ((λ i, i + k) <$> l) = (λ i, i + k) <$> filter (λ i, P (i + k)) l.
Proof.
  induction l as [|x l IH]; [done|]. rewrite fmap_cons, !filter_cons, IH. by destruct (decide (P (x + k))).
Qed.

(** The valid vertices are the compacted ones that are left and the valid slots. *)
Lemma valid_split s ts n :
  inv s → init_vertex_num_ s ≤ n ≤ max_vertex_num_ s →
  valid_below s ts n = kept_below s (init_vertex_num_ s) ++
    ((λ i, i + init_vertex_num_ s) <$> slots_below s ts (n - init_vertex_num_ s)).
Proof.
  intros Hi Hn. pose proof (inv_range _ Hi).
  rewrite <- (valid_compacted s ts) by (done || lia). unfold valid_below.
  replace n with (init_vertex_num_ s + (n - init_vertex_num_ s)) at 1 by lia.
  rewrite seqZ_app, filter_app by lia. f_equal. rewrite Z.add_0_l.
  replace (seqZ (init_vertex_num_ s) (n - init_vertex_num_ s))
    with ((λ i, i + init_vertex_num_ s) <$> seqZ 0 (n - init_vertex_num_ s)).
  2:{ pose proof (fmap_add_seqZ (init_vertex_num_ s) 0 (n - init_vertex_num_ s)) as Hsh.
      rewrite Z.add_0_r in Hsh. rewrite <- Hsh. apply list_fmap_ext. intros. lia. }
  rewrite filter_fmap_shift. f_equal. apply filter_ext_in. intros i Hin. apply elem_of_seqZ in Hin.
  unfold IsVertexValid.
  rewrite (proj2 (Z.leb_gt (max_vertex_num_ s) _)), (proj2 (Z.leb_le (init_vertex_num_ s) _)) by lia.
  by replace (i + init_vertex_num_ s - init_vertex_num_ s) with i by lia.
Qed.

Lemma foreach_vertex_valid s vnum ts :
  inv s →
  foreach_vertex vnum ts s =
    valid_below s ts (Z.max (init_vertex_num_ s) (Z.min vnum (max_vertex_num_ s))).
Proof.
  intros Hi. pose proof (inv_range _ Hi). unfold foreach_vertex.
  destruct (Z.leb_spec (Z.min vnum (max_vertex_num_ s)) (init_vertex_num_ s)).
  - rewrite Z.max_l, app_nil_r, valid_compacted by (done || lia). done.
  - rewrite Z.max_r, valid_split by (done || lia). done.
Qed.

Lemma kept_length s n :
  inv s → 0 ≤ n →
  Z.of_nat (length (kept_below s n)) =
  n - Z.of_nat (length (filter (λ v, v < n) (elements (default ∅ (removed_vertices_ s))))).
Proof.
  intros Hi Hn. set (r := default ∅ (removed_vertices_ s)).
  pose proof (filter_split_length (λ v, v ∈ r) (seqZ 0 n)) as Hsp. rewrite length_seqZ in Hsp.
  assert (Hperm : filter (λ v, v ∈ r) (seqZ 0 n) ≡ₚ filter (λ v, v < n) (elements r)).
  { apply NoDup_Permutation.
    - apply NoDup_filter, NoDup_seqZ.
    - apply NoDup_filter, NoDup_elements.
    - intros v. rewrite !list_elem_of_filter, elem_of_seqZ, elem_of_elements. split; [intuition lia|].
      intros [? Hv]. pose proof (inv_removed _ Hi v Hv). intuition lia. }
  apply Permutation_length in Hperm. unfold kept_below. fold r. lia.
Qed.

Lemma foldl_count_down limit n (l : list Z) :
  0 ≤ n < 2^64 → Z.of_nat (length (filter (λ v, v < limit) l)) ≤ n →
  foldl (λ n v, if v <? limit then u64 (n - 1) else n) n l
    = n - Z.of_nat (length (filter (λ v, v < limit) l)).
Proof.
  revert n. induction l as [|v l IH]; intros n Hn Hc; cbn [foldl]; [cbn; lia|].
  rewrite filter_cons in *. destruct (Z.ltb_spec v limit), (decide (v < limit)); try lia; cbn in Hc |- *.
  - rewrite u64_id by (unfold is_u64; lia). rewrite IH by lia. lia.
  - by apply IH.
Qed.

Lemma foldl_count_up ts n (l : list Z) :
  foldl (λ n x, if entry_valid ts x then n + 1 else n) n l
    = n + Z.of_nat (length (filter (λ x, entry_valid ts x = true) l)).
Proof.
  revert n. induction l as [|x l IH]; intros n; cbn [foldl]; [cbn; lia|].
  rewrite IH, filter_cons. destruct (entry_valid ts x), (decide _); try done; cbn; lia.
Qed.

Lemma slots_length s ts k :
  (k ≤ length (array s))%nat →
  length (slots_below s ts (Z.of_nat k)) = length (filter (λ x, entry_valid ts x = true) (take k (array s))).
Proof.
  induction k as [|k IH]; intros Hk; [done|].
  destruct (lookup_lt_is_Some_2 (array s) k) as [x Hx]; [lia|].
  unfold slots_below in *. replace (Z.of_nat (S k)) with (Z.of_nat k + 1) by lia.
  rewrite seqZ_app, (take_S_r _ _ _ Hx), !filter_app, !length_app, IH by lia. f_equal.
  change (seqZ (0 + Z.of_nat k) 1) with [Z.of_nat 0 + (0 + Z.of_nat k)].
  rewrite !filter_cons. unfold slot_valid, load. rewrite (proj2 (Z.leb_le 0 _)) by lia.
  replace (Z.to_nat (Z.of_nat 0 + (0 + Z.of_nat k))) with k by lia. rewrite Hx. cbn.
  by destruct (decide (entry_valid ts x = true)).
Qed.

Lemma ValidVertexNum_count s ts limit :
  inv s → 0 ≤ limit →
  ValidVertexNum ts limit s = Z.of_nat (length (valid_below s ts (Z.min limit (max_vertex_num_ s)))).
Proof.
  intros Hi Hl. pose proof (inv_range _ Hi) as Hr. pose proof (inv_len _ Hi) as Hlen.
  unfold ValidVertexNum. set (n := Z.min limit (max_vertex_num_ s)).
  set (m := Z.min (init_vertex_num_ s) n).
  assert (Hsame : ∀ l : list Z, (∀ v, v ∈ l → v ∈ default ∅ (removed_vertices_ s)) →
    filter (λ v, v < n) l = filter (λ v, v < m) l).
  { intros l Hv. apply filter_ext_in. intros v Hin. pose proof (inv_removed _ Hi v (Hv v Hin)). lia. }
  pose proof (kept_length s m Hi ltac:(lia)) as Hk.
  set (el := elements (default ∅ (removed_vertices_ s))) in *.
  assert (Hel : filter (λ v, v < n) el = filter (λ v, v < m) el).
  { apply Hsame. intros v. unfold el. by rewrite elem_of_elements. }
  rewrite foldl_count_down by (rewrite ?Hel; lia). rewrite Hel, <- Hk.
  destruct (Z.leb_spec n (init_vertex_num_ s)).
  - replace m with n by lia. by rewrite valid_compacted by (done || lia).
  - rewrite foldl_count_up, valid_split by (done || lia). rewrite length_app, length_fmap.
    replace (n - init_vertex_num_ s) with (Z.of_nat (Z.to_nat (n - init_vertex_num_ s))) at 2 by lia.
    rewrite slots_length by lia. replace m with (init_vertex_num_ s) by lia. lia.
Qed.

(** ** Dump and load *)

Lemma reads_u32s (l : list Z) :
  Forall (λ x, 0 ≤ x ≤ U32_MAX) l → reads (rep get_u32 (length l)) (put_all put_u32 l) l.
Proof.
  intros Hl. eapply reads_congr; [apply (reads_rep get_u32 put_u32 id)|apply list_fmap_id].
  intros x Hx. apply (reads_uint 4). rewrite Forall_forall in Hl. specialize (Hl x Hx).
  unfold U32_MAX in Hl. cbn -[Z.pow]. lia.
Qed.

Lemma removed_bound s : inv s → Z.of_nat (length (sorted_elements (default ∅ (removed_vertices_ s)))) ≤ init_vertex_num_ s.
Proof.
  intros Hi. pose proof (inv_range _ Hi). unfold sorted_elements.
  rewrite (Permutation_length (merge_sort_Permutation Z.le _)).
  pose proof (kept_length s (init_vertex_num_ s) Hi ltac:(lia)) as Hk.
  rewrite (filter_ext_in (λ v, v < init_vertex_num_ s) (λ _, True)) in Hk.
  - rewrite filter_all_in in Hk by done. lia.
  - intros v Hv. apply elem_of_elements, (inv_removed _ Hi) in Hv. split; [done|lia].
Qed.

Lemma array_set_inserted a s : array (set_inserted (Some a) s) = a.
Proof. done. Qed.

Lemma dump_load s :
  inv s → (dump_ts s).2 = None ∧
  load_ts (dump_ts s).1 fresh = Ok (MkVT (init_vertex_num_ s) (Some (array s)) (max_vertex_num_ s)
    (match sorted_elements (default ∅ (removed_vertices_ s)) with
     | [] => None | rs => Some (∅ ∪ list_to_set rs) end)).
Proof.
  intros Hi. pose proof (inv_range _ Hi). pose proof (inv_len _ Hi) as Hlen.
  set (rs := sorted_elements (default ∅ (removed_vertices_ s))).
  assert (Hrs : reads (get_list32 get_u32) (put_list32 put_u32 rs) rs).
  { unfold get_list32, put_list32. pose proof (removed_bound s Hi). fold rs in H0.
    eapply reads_bind; [apply (reads_uint 4); cbn -[Z.pow]; lia|]. rewrite Nat2Z.id. apply reads_u32s.
    apply Forall_forall. intros v Hv. unfold rs, sorted_elements in Hv.
    rewrite (merge_sort_Permutation Z.le) in Hv. apply elem_of_elements, (inv_removed _ Hi) in Hv.
    unfold U32_MAX. lia. }
  assert (Hread : reads (i ← get_u32; m ← get_u32; rs ← get_list32 get_u32; n ← get_u32;
       a ← rep get_u32 (Z.to_nat n); mret (i, m, rs, n, a)) (dump_ts s)
     (init_vertex_num_ s, max_vertex_num_ s, rs, max_vertex_num_ s - init_vertex_num_ s, array s)).
  { unfold dump_ts. rewrite !put_seq_assoc. fold rs.
    eapply reads_bind; [apply (reads_uint 4); cbn -[Z.pow]; lia|].
    eapply reads_bind; [apply (reads_uint 4); cbn -[Z.pow]; lia|].
    eapply reads_bind; [exact Hrs|].
    eapply reads_bind; [apply (reads_uint 4); cbn -[Z.pow]; lia|].
    eapply reads_congr; [eapply reads_last|reflexivity].
    replace (Z.to_nat (max_vertex_num_ s - init_vertex_num_ s)) with (length (array s)) by lia.
    apply reads_u32s, Hi. }
  destruct Hread as [Hn Hread]. split; [done|]. specialize (Hread []). rewrite app_nil_r in Hread.
  unfold load_ts. rewrite Hread. unfold Init. cbn [init_vertex_num_ max_vertex_num_]. rewrite !Z.eqb_refl. cbn [andb].
  cbn [inserted_vertices_ removed_vertices_ fresh default].
  assert (Hd : drop (length (array s)) (make_timestamp_array (max_vertex_num_ s - init_vertex_num_ s) DELETED_TIMESTAMP) = []).
  { apply drop_ge. unfold make_timestamp_array. rewrite length_replicate. lia. }
  destruct rs; unfold resize_inserted_vertices; cbn [inserted_vertices_ set_removed];
    rewrite array_set_inserted, Hd, app_nil_r; done.
Qed.

Lemma loaded_same s :
  inv s →
  let s' := MkVT (init_vertex_num_ s) (Some (array s)) (max_vertex_num_ s)
    (match sorted_elements (default ∅ (removed_vertices_ s)) with
     | [] => None | rs => Some (∅ ∪ list_to_set rs) end) in
  inv s' ∧ ∀ u, abs s' u = abs s u.
Proof.
  intros Hi s'.
  assert (Hr : ∀ v, v ∈ default ∅ (removed_vertices_ s') ↔ v ∈ default ∅ (removed_vertices_ s)).
  { intros v. rewrite <- (elem_of_elements (default ∅ (removed_vertices_ s))).
    rewrite <- (merge_sort_Permutation Z.le (elements (default ∅ (removed_vertices_ s)))).
    fold (sorted_elements (default ∅ (removed_vertices_ s))). cbn.
    destruct (sorted_elements _) as [|x l]; cbn; [by rewrite elem_of_empty, elem_of_nil|].
    rewrite (left_id ∅ (∪)). change ({[x]} ∪ list_to_set l) with (list_to_set (C:=gset Z) (x :: l)).
    by rewrite elem_of_list_to_set. }
  split.
  - split; try apply Hi. intros v Hv. apply Hi. by apply Hr.
  - intros u. unfold abs, load. cbn [init_vertex_num_ max_vertex_num_ s' array inserted_vertices_ default].
    by rewrite (bool_decide_ext _ _ (Hr u)).
Qed.
End spec.

(** ** The table against its abstract specification *)

(** What the table promises: a capacity and the timestamp each vertex exists
    from. *)
Record vspec := MkSpec { cap : Z; live : Z → option Z }.

Definition spec_equiv (a b : vspec) : Prop := cap a = cap b ∧ ∀ v, live a v = live b v.

(** An insert with the outcome of its weak exchange, a removal, growth, compaction and
    a round through the file. *)
Inductive vop := OInsert (spurious : bool) (v ts : Z) | ORemove (v : Z) | OReserve (n : Z) | OCompact | OReload.

(** The preconditions the callers keep: a vertex in range, a timestamp that is
    not the mark of deletion, a capacity that does not shrink. *)
Definition vop_ok (a : vspec) (o : vop) : Prop :=
  match o with
  | OInsert _ v ts => 0 ≤ v < cap a ∧ 0 ≤ ts < U32_MAX
  | ORemove v => 0 ≤ v
  | OReserve n => cap a < n < 2^32
  | OCompact | OReload => True
  end.

Definition upd (f : Z → option Z) (v : Z) (x : option Z) : Z → option Z :=
  λ u, if decide (u = v) then x else f u.

(** An insert takes a dead vertex and refuses a live one, except that a batch
    insert (timestamp 0) of a live vertex may be accepted as a no-op, and that an
    insert whose exchange fails spuriously may throw and change nothing; a removal
    takes a live vertex and returns its timestamp, and refuses a dead one. *)
Inductive spec_step (a : vspec) : vop → vspec → res Z → Prop :=
  | spec_insert b v ts : live a v = None →
      spec_step a (OInsert b v ts) (MkSpec (cap a) (upd (live a) v (Some ts))) (Ok ts)
  | spec_insert_spurious v ts : spec_step a (OInsert true v ts) a (Throw InternalError)
  | spec_insert_live b v ts x : live a v = Some x → spec_step a (OInsert b v ts) a (Throw InternalError)
  | spec_insert_again b v x : live a v = Some x → spec_step a (OInsert b v 0) a (Ok 0)
  | spec_remove v x : live a v = Some x →
      spec_step a (ORemove v) (MkSpec (cap a) (upd (live a) v None)) (Ok x)
  | spec_remove_dead v : live a v = None → spec_step a (ORemove v) a (Throw InvalidArgument)
  | spec_reserve n : spec_step a (OReserve n) (MkSpec n (live a)) (Ok 0)
  | spec_compact : spec_step a OCompact (MkSpec (cap a) (λ v, (λ _, 0) <$> live a v)) (Ok 0)
  | spec_reload : spec_step a OReload a (Ok 0).

Section refinement.
Import VertexTimestamp.
Implicit Types (s : t) (a : vspec).

(** The operations of the source; a reload goes through the file. *)
Definition vstep (o : vop) s : t * res Z :=
  match o with
  | OInsert spurious v ts => let r := InsertVertex spurious v ts s in
      (r.1, match r.2 with Ok _ => Ok ts | Throw e => Throw e end)
  | ORemove v => RemoveVertex v s
  | OReserve n => (Reserve n s, Ok 0)
  | OCompact => (Compact s, Ok 0)
  | OReload => match load_ts (dump_ts s).1 fresh with
      | Ok s' => (s', Ok 0) | Throw e => (s, Throw e) end
  end.

(** The assertions of the source: the vertex of an insert is in range and its timestamp
    is not the mark; a vertex of the compacted prefix is not removed twice. *)
Definition assertion (o : vop) s : bool :=
  match o with
  | OInsert _ v ts => (v <? max_vertex_num_ s) && negb (ts =? DELETED_TIMESTAMP)
  | ORemove v => negb ((v <? init_vertex_num_ s) && bool_decide (v ∈ default ∅ (removed_vertices_ s)))
  | _ => true
  end.
Fixpoint asserted (os : list vop) s : bool :=
  match os with [] => true | o :: os => assertion o s && asserted os (vstep o s).1 end.

Definition refines s a : Prop := inv s ∧ max_vertex_num_ s = cap a ∧ ∀ v, abs s v = live a v.

Lemma abs_bound s v x : abs s v = Some x → 0 ≤ v < max_vertex_num_ s.
Proof. unfold abs. destruct ((0 <=? v) && _) eqn:E; [|done]. bool_to_prop. intros _. lia. Qed.

Lemma insert_refines s a v ts :
  refines s a → 0 ≤ v < cap a → 0 ≤ ts < U32_MAX →
  ∃ a', (∀ b, spec_step a (OInsert b v ts) a' (vstep (OInsert false v ts) s).2) ∧ refines (vstep (OInsert false v ts) s).1 a'.
Proof.
  intros (Hi & Hm & Ha) Hv Hts. cbn [vstep fst snd]. destruct (InsertVertex_spec s v ts Hi) as (Hi' & Hm' & Hc); [split; lia|done|].
  rewrite Ha in Hc. destruct (live a v) as [x|] eqn:Ev; destruct Hc as [Hr Hu]; rewrite Hr.
  - exists a. split; [|split_and!; [done|by rewrite Hm'|intros u; by rewrite Hu]].
    intros b. cbn [snd]. destruct ((v <? _) && (ts =? 0)) eqn:E; [|by econstructor].
    apply andb_true_iff in E as [_ E%Z.eqb_eq]. subst ts. by econstructor.
  - eexists. split; [intros b; by apply spec_insert|]. split_and!; [done|by rewrite Hm'|].
    intros u. rewrite Hu. cbn. unfold upd. by destruct (decide (u = v)).
Qed.

Lemma vstep_refines s a o :
  refines s a → vop_ok a o → assertion o s = true →
  ∃ a', spec_step a o a' (vstep o s).2 ∧ refines (vstep o s).1 a'.
Proof.
  intros (Hi & Hm & Ha) Hok Has. pose proof (inv_range _ Hi). destruct o as [b v ts|v|n| |]; cbn [vop_ok] in Hok; cbn [assertion] in Has.
  - destruct Hok as [Hv Hts]. destruct (insert_refines s a v ts) as (a' & Hs & Hr); [by split_and!|done|done|].
    destruct b; [|by exists a']. pose proof (InsertVertex_spurious s v ts Hi ltac:(split; lia)) as Hsp.
    destruct ((v <? init_vertex_num_ s) && (ts =? 0)).
    + exists a'. cbn [vstep fst snd] in *. by rewrite Hsp.
    + destruct Hsp as (H1 & H2 & H3 & H4). exists a. cbn [vstep fst snd]. rewrite H3.
      split; [constructor|]. split_and!; [done|congruence|]. intros u. by rewrite H4.
  - cbn [vstep]. destruct (RemoveVertex_spec s v Hi Hok) as (Hi' & Hm' & _ & Hc).
    rewrite Ha in Hc. destruct (live a v) as [x|] eqn:Ev; destruct Hc as [Hr Hu]; rewrite Hr.
    + eexists. split; [by apply spec_remove|]. split_and!; [done|by rewrite Hm'|].
      intros u. rewrite Hu. cbn. unfold upd. by destruct (decide (u = v)).
    + exists a. split; [|split_and!; [done|by rewrite Hm'|intros u; by rewrite Hu]].
      destruct (Z.ltb_spec v (init_vertex_num_ s)) as [Hlt|]; [|by constructor]. exfalso.
      rewrite <- Ha, abs_compacted in Ev by (done || lia). by destruct (bool_decide _).
  - cbn [vstep fst snd] in *. destruct (Reserve_grow s n Hi ltac:(lia)) as (Hi' & Hm' & Hu).
    eexists. split; [apply spec_reserve|]. split_and!; [done|cbn; lia|]. intros u. by rewrite Hu.
  - cbn [vstep fst snd] in *. destruct (Compact_spec s Hi) as (Hi' & Hm' & Hu).
    eexists. split; [apply spec_compact|]. split_and!; [done|cbn; lia|]. intros u. by rewrite Hu, Ha.
  - cbn [vstep fst snd] in *. destruct (dump_load s Hi) as [_ ->]. destruct (loaded_same s Hi) as [Hi' Hu].
    exists a. split; [constructor|]. split_and!; [done|done|]. intros u. cbn [fst]. by rewrite Hu.
Qed.

Fixpoint vrun (os : list vop) s : t * list (res Z) :=
  match os with
  | [] => (s, [])
  | o :: os => let r := vstep o s in let q := vrun os r.1 in (q.1, r.2 :: q.2)
  end.

Inductive spec_run : vspec → list vop → vspec → list (res Z) → Prop :=
  | run_nil a b : spec_equiv a b → spec_run a [] b []
  | run_cons a b c o os r rs : spec_step a o b r → spec_run b os c rs → spec_run a (o :: os) c (r :: rs).

(** Every operation of the run meets its precondition, whatever the choices
    of the specification before it. *)
Fixpoint run_ok a (os : list vop) : Prop :=
  match os with
  | [] => True
  | o :: os => vop_ok a o ∧ ∀ b r, spec_step a o b r → run_ok b os
  end.

Lemma vrun_refines s a os :
  refines s a → run_ok a os → asserted os s = true → ∃ b, spec_run a os b (vrun os s).2 ∧ refines (vrun os s).1 b.
Proof.
  revert s a. induction os as [|o os IH]; intros s a Hr Hok Has; cbn.
  - exists a. split; [by constructor|done].
  - destruct Hok as [Ho Hn]. apply andb_true_iff in Has as [Has Has'].
    destruct (vstep_refines s a o Hr Ho Has) as (b & Hs & Hb). destruct (IH _ _ Hb (Hn _ _ Hs) Has') as (c & Hc & Hr'). exists c. split; [by econstructor|done].
Qed.

Lemma inv_Init n m : 0 ≤ n → 0 ≤ m → Z.max n m < 2^32 →
  refines (Init n m fresh) (MkSpec (Z.max n m) (λ v, if (0 <=? v) && (v <? n) then Some 0 else None)).
Proof.
  intros Hn Hm Hb. unfold Init. cbn [init_vertex_num_ max_vertex_num_ fresh].
  destruct ((0 =? n) && (0 =? m)) eqn:E.
  { apply andb_true_iff in E as [E1%Z.eqb_eq E2%Z.eqb_eq]. subst n m. split_and!; [|done|].
    - split; cbn; try lia; [constructor|intros v []%not_elem_of_empty].
    - intros v. unfold abs. cbn. destruct (Z.leb_spec 0 v), (Z.ltb_spec v 0); done || lia. }
  set (st := MkVT n _ _ _). assert (Harr : array st = replicate (Z.to_nat (Z.max n m - n)) DELETED_TIMESTAMP).
  { unfold array, st. cbn. destruct (Z.eqb_spec (Z.max n m - n) 0) as [->|]; done. }
  split_and!; [|done|].
  - split; rewrite ?Harr; cbn [st init_vertex_num_ max_vertex_num_ removed_vertices_ default]; try lia.
    + rewrite length_replicate. lia.
    + apply Forall_replicate. unfold DELETED_TIMESTAMP, U32_MAX. lia.
    + intros v []%not_elem_of_empty.
  - intros v. cbn [live]. unfold abs, load. rewrite Harr. cbn [st init_vertex_num_ max_vertex_num_ removed_vertices_ default].
    destruct (Z.leb_spec 0 v); [|done]. cbn [andb].
    destruct (Z.ltb_spec v (Z.max n m)), (Z.ltb_spec v n); try lia; try done.
    rewrite (proj2 (Z.leb_le 0 _)), lookup_replicate_2 by lia. cbn. by rewrite Z.eqb_refl.
Qed.
End refinement.

Section claims.
Import VertexTimestamp.
Implicit Types (s : t).

Definition valid_at (a : vspec) (ts v : Z) : bool :=
  match live a v with Some x => x <=? ts | None => false end.

Lemma refines_valid s a v ts : refines s a → 0 ≤ v → 0 ≤ ts → IsVertexValid v ts s = valid_at a ts v.
Proof. intros (Hi & _ & Ha) Hv Hts. rewrite IsVertexValid_abs by done. unfold valid_at. by rewrite Ha. Qed.

(** The number of valid vertices is the length of the filtered range. *)
Lemma refines_count s a ts : refines s a → 0 ≤ ts →
  ValidVertexNum ts (cap a) s = Z.of_nat (length (filter (λ v, valid_at a ts v = true) (seqZ 0 (cap a)))).
Proof.
  intros Hr Hts. pose proof Hr as (Hi & Hm & Ha). pose proof (inv_range _ Hi).
  rewrite ValidVertexNum_count by (done || lia). rewrite <- Hm, Z.min_id. do 2 f_equal.
  apply filter_ext_in. intros v Hv%elem_of_seqZ. by rewrite (refines_valid s a) by (done || lia).
Qed.

Lemma run_init n m os :
  0 ≤ n → 0 ≤ m → Z.max n m < 2^32 →
  let a := MkSpec (Z.max n m) (λ v, if (0 <=? v) && (v <? n) then Some 0 else None) in
  run_ok a os → asserted os (Init n m fresh) = true →
  ∃ b, spec_run a os b (vrun os (Init n m fresh)).2 ∧ refines (vrun os (Init n m fresh)).1 b.
Proof. intros Hn Hm Hb a Hok Has. apply vrun_refines; [by apply inv_Init|done..]. Qed.

(** C20: Any sequence of inserts, removals, reservations,
    compactions and reloads from disk, started from [Init], in which no assertion of
    the source fails (an insert is in range with a timestamp that is not the mark of
    deletion, a vertex of the compacted prefix is not removed twice) and reservations
    only grow the table, behaves as the
    abstract table: the results returned, and afterwards which vertices are
    valid at which timestamp and how many there are, are those of a map from
    vertices to the timestamp they exist from.  Each insert comes with the outcome of
    its weak exchange: one that fails spuriously may throw, and then changes no
    vertex.  The compacted prefix, the
    sparse set of removed vertices and their materialization never show, except that
    a batch insert of a vertex that exists may be accepted or refused. *)
Theorem vertex_table_refines n m os :
  0 ≤ n → 0 ≤ m → Z.max n m < 2^32 →
  let a := MkSpec (Z.max n m) (λ v, if (0 <=? v) && (v <? n) then Some 0 else None) in
  run_ok a os → asserted os (Init n m fresh) = true →
  let (s, rs) := vrun os (Init n m fresh) in
  ∃ b, spec_run a os b rs ∧ Capacity s = cap b ∧
    (∀ v ts, 0 ≤ v → 0 ≤ ts → IsVertexValid v ts s = valid_at b ts v) ∧
    (∀ v, 0 ≤ v → IsRemoved v s = (v <? cap b) && bool_decide (live b v = None)) ∧
    (∀ ts, 0 ≤ ts → ValidVertexNum ts (cap b) s =
       Z.of_nat (length (filter (λ v, valid_at b ts v = true) (seqZ 0 (cap b))))).
Proof.
  intros Hn Hm Hb a Hok Has. destruct (run_init n m os Hn Hm Hb Hok Has) as (b & Hs & Hr).
  destruct (vrun os _) as [s rs]. cbn in Hs, Hr. exists b. pose proof Hr as (Hi & Hc & Ha).
  split_and!; [done|done| | |].
  - intros v ts. by apply refines_valid.
  - intros v Hv. rewrite IsRemoved_abs, Ha by done. rewrite Hc.
    destruct (live b v); [by rewrite bool_decide_false, andb_false_r|by rewrite bool_decide_true, andb_true_r].
  - intros ts. by apply refines_count.
Qed.

(** An insert that fails spuriously and is repeated, and two removals that are refused. *)
Definition sample_run : list vop :=
  [ORemove 1; OInsert true 1 5; OInsert false 1 5; OReserve 6; OInsert false 4 7; OCompact; OReload; ORemove 5; ORemove 9].

Lemma vertex_table_refines_witness :
  asserted sample_run (Init 2 4 fresh) = true ∧
  ∃ b, spec_run (MkSpec 4 (λ v, if (0 <=? v) && (v <? 2) then Some 0 else None)) sample_run b
         [Ok 0; Throw InternalError; Ok 5; Ok 0; Ok 7; Ok 0; Ok 0; Throw InvalidArgument; Throw InvalidArgument].
Proof.
  split; [vm_compute; reflexivity|].
  pose proof (vertex_table_refines 2 4 sample_run) as H.
  cbv zeta in H. specialize (H ltac:(lia) ltac:(lia) ltac:(lia)).
  change (Z.max 2 4) with 4 in H.
  destruct H as (b & Hb & _); [|vm_compute; reflexivity|exists b; exact Hb].
  unfold sample_run. cbn [run_ok].
  repeat (split; [cbn; lia || done|let H := fresh in intros ? ? H; inversion H; subst; clear H; cbn [cap] in *]); done.
Defined.

(** Inserts and removals of other vertices never grow the compacted prefix
    and leave a dead vertex dead. *)
Definition other (v : Z) (cap : Z) (o : vop) : Prop :=
  match o with
  | OInsert _ u ts => u ≠ v ∧ 0 ≤ u < cap ∧ 0 ≤ ts < U32_MAX
  | ORemove u => u ≠ v ∧ 0 ≤ u
  | _ => False
  end.

Lemma InsertVertex_init spurious v ts s : init_vertex_num_ (InsertVertex spurious v ts s).1 ≤ init_vertex_num_ s.
Proof.
  unfold InsertVertex. destruct (Z.ltb_spec v (init_vertex_num_ s)).
  - destruct (ts =? 0); [done|]. destruct (load _ _); [|cbn; lia]. destruct (_ && _); cbn; lia.
  - destruct (load _ _); [|done]. by destruct (_ && _).
Qed.

Lemma other_step s v o :
  inv s → other v (max_vertex_num_ s) o →
  let s' := (vstep o s).1 in
  inv s' ∧ max_vertex_num_ s' = max_vertex_num_ s ∧ init_vertex_num_ s' ≤ init_vertex_num_ s ∧ abs s' v = abs s v.
Proof.
  intros Hi Ho. destruct o as [b u ts|u|n| |]; try done; cbn [vstep other fst] in *.
  - destruct Ho as (Hne & Hu & Hts). destruct (InsertVertex_spec s u ts Hi Hu Hts) as (Hi' & Hm & Hc).
    assert (Hf : let s' := (InsertVertex false u ts s).1 in
                 inv s' ∧ max_vertex_num_ s' = max_vertex_num_ s ∧ init_vertex_num_ s' ≤ init_vertex_num_ s ∧ abs s' v = abs s v).
    { split_and!; [done|done|apply InsertVertex_init|].
      destruct (abs s u); destruct Hc as [_ Hc]; rewrite Hc; [done|]. by destruct (decide (v = u)). }
    destruct b; [|done]. pose proof (InsertVertex_spurious s u ts Hi Hu) as Hsp.
    destruct ((u <? _) && _); [by rewrite Hsp|]. destruct Hsp as (H1 & H2 & _ & H4).
    split_and!; [done|done|apply InsertVertex_init|done].
  - destruct Ho as (Hne & Hu). destruct (RemoveVertex_spec s u Hi Hu) as (Hi' & Hm & Hn & Hc).
    split_and!; [done|done|lia|].
    destruct (abs s u); destruct Hc as [_ Hc]; rewrite Hc; [|done]. by destruct (decide (v = u)).
Qed.

Lemma other_run s v os :
  inv s → Forall (other v (max_vertex_num_ s)) os →
  let s' := (vrun os s).1 in
  inv s' ∧ max_vertex_num_ s' = max_vertex_num_ s ∧ init_vertex_num_ s' ≤ init_vertex_num_ s ∧ abs s' v = abs s v.
Proof.
  revert s. induction os as [|o os IH]; intros s Hi Hos; cbn [vrun fst]; [done|].
  apply Forall_cons in Hos as [Ho Hos]. destruct (other_step s v o Hi Ho) as (Hi' & Hm & Hn & Ha).
  rewrite <- Hm in Hos. destruct (IH _ Hi' Hos) as (Hi'' & Hm' & Hn' & Ha').
  split_and!; [done|congruence|lia|congruence].
Qed.

(** A removal returns the timestamp that undoes it.  After
    any inserts and removals of other vertices, even ones that materialize
    the compacted range, reverting with that timestamp succeeds, makes the
    vertex exist from the same timestamp as before its removal, and changes
    no other vertex. *)
Theorem revert_restores s v x os :
  inv s → abs s v = Some x → Forall (other v (max_vertex_num_ s)) os →
  let (s1, r1) := RemoveVertex v s in
  let s2 := (vrun os s1).1 in
  let (s3, r3) := RevertRemoveVertex v x s2 in
  r1 = Ok x ∧ r3 = Ok tt ∧ abs s1 v = None ∧ abs s2 v = None ∧ inv s3 ∧
  ∀ u, abs s3 u = if decide (u = v) then abs s v else abs s2 u.
Proof.
  intros Hi Hx Hos. pose proof (abs_bound s v x Hx) as Hv. pose proof (RemoveVertex_spec s v Hi ltac:(lia)) as Hrem.
  cbv zeta in Hrem. destruct (RemoveVertex v s) as [s1 r1]. cbn [fst snd] in Hrem.
  destruct Hrem as (Hi1 & Hm1 & Hn1 & Hc). rewrite Hx in Hc. destruct Hc as [-> Ha1].
  assert (Hd : abs s1 v = None) by (rewrite Ha1; by destruct (decide (v = v))).
  rewrite <- Hm1 in Hos. destruct (other_run s1 v os Hi1 Hos) as (Hi2 & Hm2 & Hn2 & Ha2).
  cbv zeta. set (s2 := (vrun os s1).1) in *.
  assert (Hxr : 0 ≤ x < U32_MAX ∧ (v < init_vertex_num_ s → x = 0)).
  { destruct (Z.lt_ge_cases v (init_vertex_num_ s)).
    - rewrite abs_compacted in Hx by (done || lia). case_bool_decide; [done|]. injection Hx as <-.
      unfold U32_MAX. lia.
    - destruct (abs_entry s v Hi ltac:(lia)) as (y & _ & Hy & E). rewrite Hx in E. unfold entry_abs in E.
      destruct (Z.eqb_spec y DELETED_TIMESTAMP); [done|]. injection E as ->. unfold DELETED_TIMESTAMP in *. lia. }
  pose proof (RevertRemoveVertex_spec s2 v x Hi2) as Hrev. cbv zeta in Hrev.
  destruct (RevertRemoveVertex v x s2) as [s3 r3]. cbn [fst snd] in Hrev.
  destruct Hrev as (Hi3 & -> & Ha3); [unfold in_range; lia|congruence|lia|intros; apply Hxr; lia|].
  rewrite Hx. split_and!; try done; congruence.
Qed.

Lemma revert_restores_witness :
  let s1 := (RemoveVertex 2 (Init 4 8 fresh)).1 in
  let s2 := (vrun [ORemove 1; OInsert false 1 9; OInsert false 6 9] s1).1 in
  IsVertexValid 2 0 s2 = false ∧ (RevertRemoveVertex 2 0 s2).2 = Ok tt ∧
  IsVertexValid 2 0 (RevertRemoveVertex 2 0 s2).1 = true ∧ init_vertex_num_ s2 = 1.
Proof.
  cbv zeta. assert (Hi : inv (Init 4 8 fresh)) by (apply inv_Init; lia).
  pose proof (revert_restores (Init 4 8 fresh) 2 0 [ORemove 1; OInsert false 1 9; OInsert false 6 9] Hi eq_refl) as H.
  destruct H as (_ & H & _); [repeat constructor; cbn; lia|]. split_and!; [reflexivity|exact H|reflexivity|reflexivity].
Defined.

(** A scan visits each valid vertex once, in increasing
    order, and only those: it is the range up to its limit filtered by
    [IsVertexValid], where a limit inside the compacted prefix is raised to
    the end of the prefix; the count of valid vertices is the length of the
    same list when the limit is past the prefix. *)
Theorem vertex_scan_exact s vnum ts :
  inv s → 0 ≤ vnum →
  let limit := Z.min vnum (max_vertex_num_ s) in
  foreach_vertex vnum ts s =
    filter (λ v, IsVertexValid v ts s = true) (seqZ 0 (Z.max (init_vertex_num_ s) limit)) ∧
  (init_vertex_num_ s ≤ vnum → ValidVertexNum ts vnum s = Z.of_nat (length (foreach_vertex vnum ts s))).
Proof.
  intros Hi Hn limit. pose proof (inv_range _ Hi). split; [by apply foreach_vertex_valid|]. intros Hv.
  rewrite ValidVertexNum_count, foreach_vertex_valid, Z.max_r by (done || lia). done.
Qed.

Lemma vertex_scan_exact_witness :
  let s := (vrun [ORemove 1; OInsert false 3 7] (Init 3 6 fresh)).1 in
  foreach_vertex 6 7 s = [0; 2; 3] ∧ ValidVertexNum 7 6 s = 3.
Proof.
  cbv zeta. set (s := (vrun _ _).1).
  assert (Hi : inv s).
  { apply (other_run (Init 3 6 fresh) 5); [apply inv_Init; lia|repeat constructor; cbn; lia]. }
  destruct (vertex_scan_exact s 6 7 Hi ltac:(lia)) as [H1 H2]. split.
  - rewrite H1. vm_compute. reflexivity.
  - rewrite H2 by (vm_compute; done). rewrite H1. vm_compute. reflexivity.
Defined.

(** The file [dump_ts] writes loads back, without an
    error and with nothing left over, into a table with the same capacity and
    the same compacted prefix in which every vertex exists from the same
    timestamp as before. *)
Theorem vertex_dump_load s :
  inv s →
  (dump_ts s).2 = None ∧
  ∃ s', load_ts (dump_ts s).1 fresh = Ok s' ∧ inv s' ∧ init_vertex_num_ s' = init_vertex_num_ s ∧
    max_vertex_num_ s' = max_vertex_num_ s ∧ array s' = array s ∧ ∀ u, abs s' u = abs s u.
Proof.
  intros Hi. destruct (dump_load s Hi) as [H1 H2]. split; [done|]. eexists. split; [exact H2|].
  destruct (loaded_same s Hi) as [Hi' Ha]. split_and!; done.
Qed.

Lemma vertex_dump_load_witness :
  let s := (vrun [ORemove 1; OInsert false 3 7] (Init 3 6 fresh)).1 in
  (dump_ts s).2 = None ∧ inv s ∧
  match load_ts (dump_ts s).1 fresh with Ok s' => IsVertexValid 1 9 s' = false ∧ IsVertexValid 3 7 s' = true | Throw _ => False end.
Proof.
  cbv zeta. set (s := (vrun _ _).1).
  assert (Hi : inv s).
  { apply (other_run (Init 3 6 fresh) 5); [apply inv_Init; lia|repeat constructor; cbn; lia]. }
  destruct (vertex_dump_load s Hi) as (H1 & s' & H2 & Hi' & _ & _ & _ & Ha). split_and!; [exact H1|exact Hi|].
  rewrite H2, !IsVertexValid_abs, !Ha by (done || lia). split; vm_compute; reflexivity.
Defined.
End claims.
