(* ===== verification/CsrView.v ===== *)
(** * CsrView

    include/neug/storages/csr/nbr.h and csr_view.h: adjacency-list entries, the
    iterator that skips the entries a reader must not see, and the two scans
    by edge data that use the sorted prefix of a list. *)

From stdpp Require Import list.
From S2P Require Import Prelude.

(** The types an edge can carry inline, with the order [operator<] gives them:
    a strict weak order, as [std::sort] and [std::lower_bound] require. *)
Class EdgeData (D : Type) := {
  data_ltb : D → D → bool;
  data_ltb_irrefl a : data_ltb a a = false;
  data_ltb_negtrans a b c : data_ltb a b = false → data_ltb b c = false → data_ltb a c = false
}.

#[export] Program Instance EdgeData_Z : EdgeData Z := {| data_ltb := Z.ltb |}.
Next Obligation. intros. apply Z.ltb_irrefl. Qed.
Next Obligation. intros a b c. rewrite !Z.ltb_ge. lia. Qed.

(** An edge without inline data. *)
#[export] Program Instance EdgeData_unit : EdgeData unit := {| data_ltb := λ _ _, false |}.
Next Obligation. done. Qed.
Next Obligation. done. Qed.

Record MutableNbr (D : Type) := MkNbr { neighbor : Z; timestamp : Z; data : D }.
Arguments MkNbr {D}. Arguments neighbor {D}. Arguments timestamp {D}. Arguments data {D}.

Definition INVALID_TIMESTAMP : Z := U32_MAX.

Definition set_timestamp {D} (ts : Z) (e : MutableNbr D) : MutableNbr D := MkNbr (neighbor e) ts (data e).
Definition live {D} (e : MutableNbr D) : bool := negb (timestamp e =? INVALID_TIMESTAMP).

Section iterator.
Context {D : Type}.
Implicit Types (l : list (MutableNbr D)).

(** [l] is the list between [start_ptr] and [end_ptr], a position in it the
    pointer [cur]. *)
Fixpoint NbrIterator_skip (ts : Z) l (todo cur : nat) : nat :=
  match todo with
  | O => cur
  | S todo =>
      match l !! cur with
      | Some e => if ts <? timestamp e then NbrIterator_skip ts l todo (S cur) else cur
      | None => cur
      end
  end.
Definition NbrIterator_init (ts : Z) l (ptr : nat) : nat := NbrIterator_skip ts l (length l - ptr) ptr.
Definition NbrIterator_next (ts : Z) l (cur : nat) : nat := NbrIterator_skip ts l (length l - S cur) (S cur).

(** [for (it = l.begin(); it != l.end(); ++it)], with the positions. *)
Fixpoint NbrList_from (fuel : nat) (ts : Z) l (cur : nat) : list (nat * MutableNbr D) :=
  match fuel with
  | O => []
  | S fuel =>
      if (cur =? length l)%nat then []
      else match l !! cur with
        | Some e => (cur, e) :: NbrList_from fuel ts l (NbrIterator_next ts l cur)
        | None => []
        end
  end.
Definition NbrList_iterate (ts : Z) l : list (nat * MutableNbr D) :=
  NbrList_from (S (length l)) ts l (NbrIterator_init ts l 0).

(** The entries of [l] a reader at [ts] sees, with their slots, from slot [k]. *)
Fixpoint visible_from (k : nat) (ts : Z) l : list (nat * MutableNbr D) :=
  match l with
  | [] => []
  | e :: l => if timestamp e <=? ts then (k, e) :: visible_from (S k) ts l else visible_from (S k) ts l
  end.

Lemma skip_spec ts l n cur :
  (cur + n = length l)%nat →
  let cur' := NbrIterator_skip ts l n cur in
  (cur ≤ cur' ≤ length l)%nat ∧
  visible_from cur ts (drop cur l) = visible_from cur' ts (drop cur' l) ∧
  (∀ e, l !! cur' = Some e → timestamp e ≤ ts).
Proof.
  revert cur. induction n as [|n IH]; intros cur Hn; cbn.
  - split_and!; [lia|lia|done|]. intros e He. apply lookup_lt_Some in He. lia.
  - destruct (lookup_lt_is_Some_2 l cur) as [e He]; [lia|]. rewrite He. destruct (Z.ltb_spec ts (timestamp e)).
    + destruct (IH (S cur)) as (Hb & Hv & Hs); [lia|]. split_and!; [lia|lia| |done]. rewrite <- Hv.
      rewrite (drop_S _ _ _ He). cbn. by rewrite (proj2 (Z.leb_gt _ _)) by lia.
    + split_and!; [lia|lia|done|]. intros e' He'. simplify_eq. lia.
Qed.

Lemma from_spec fuel ts l cur :
  (cur ≤ length l)%nat → (length l - cur < fuel)%nat → (∀ e, l !! cur = Some e → timestamp e ≤ ts) →
  NbrList_from fuel ts l cur = visible_from cur ts (drop cur l).
Proof.
  revert cur. induction fuel as [|fuel IH]; intros cur Hc Hf He; [lia|]. cbn [NbrList_from].
  destruct (Nat.eqb_spec cur (length l)) as [->|Hne]; [by rewrite drop_ge by lia|].
  destruct (lookup_lt_is_Some_2 l cur) as [e Hl]; [lia|]. rewrite Hl, (drop_S _ _ _ Hl). cbn [visible_from].
  rewrite (proj2 (Z.leb_le _ _)) by (by apply He). f_equal. unfold NbrIterator_next.
  destruct (skip_spec ts l (length l - S cur) (S cur)) as (Hb & -> & Hs); [lia|]. apply IH; [lia|lia|done].
Qed.

Lemma iterate_visible ts l : NbrList_iterate ts l = visible_from 0 ts l.
Proof.
  unfold NbrList_iterate, NbrIterator_init. rewrite Nat.sub_0_r.
  destruct (skip_spec ts l (length l) 0) as (Hb & Hv & Hs); [lia|].
  rewrite from_spec by (done || lia). by rewrite <- Hv.
Qed.

Lemma visible_from_elem k ts l i e :
  (i, e) ∈ visible_from k ts l ↔ (k ≤ i)%nat ∧ l !! (i - k)%nat = Some e ∧ timestamp e ≤ ts.
Proof.
  revert k. induction l as [|x l IH]; intros k; cbn.
  - split; [by intros ?%elem_of_nil|]. rewrite lookup_nil. by intros (_ & ? & _).
  - assert (Hx : (k ≤ i)%nat ∧ (x :: l) !! (i - k)%nat = Some e ∧ timestamp e ≤ ts ↔
      (i = k ∧ e = x ∧ timestamp x ≤ ts) ∨ (i, e) ∈ visible_from (S k) ts l).
    { rewrite IH. destruct (decide (i = k)) as [->|Hne].
      - rewrite Nat.sub_diag. cbn. split; [intros (_ & ? & ?); simplify_eq; auto|].
        intros [(_ & -> & ?)|(? & _)]; [auto|lia].
      - split.
        + intros (Hk & Hl & Ht). right. replace (i - k)%nat with (S (i - S k)) in Hl by lia. split_and!; [lia|done|done].
        + intros [(? & _)|(Hk & Hl & Ht)]; [lia|]. replace (i - k)%nat with (S (i - S k)) by lia. split_and!; [lia|done|done]. }
    rewrite Hx. destruct (Z.leb_spec (timestamp x) ts).
    + rewrite elem_of_cons. split; [intros [|]; simplify_eq; auto|intros [(-> & -> & _)|]; auto].
    + split; [auto|]. intros [(_ & _ & ?)|]; [lia|done].
Qed.
End iterator.

Section scans.
Context {D : Type} `{EdgeData D}.
Implicit Types (l : list (MutableNbr D)) (e : MutableNbr D).

(** [adjlists[v]] and [degrees[v]]: the list and the number of its entries
    that count; [ptr] is the entry before position [i].  The first loop of
    both scans, which differ in the test [p] on the data. *)
Fixpoint scan_tail (ts unsorted_since : Z) (p : D → bool) l (i : nat) : list (Z * D) * nat :=
  match i with
  | O => ([], O)
  | S j =>
      match l !! j with
      | None => ([], i)
      | Some e =>
          if ts <? timestamp e then scan_tail ts unsorted_since p l j
          else if timestamp e <? unsorted_since then ([], i)
          else let r := scan_tail ts unsorted_since p l j in
               ((if p (data e) then [(neighbor e, data e)] else []) ++ r.1, r.2)
      end
  end.
Fixpoint gt_head (threshold : D) l (i : nat) : list (Z * D) :=
  match i with
  | O => []
  | S j =>
      match l !! j with
      | None => []
      | Some e => if data_ltb threshold (data e) then (neighbor e, data e) :: gt_head threshold l j else []
      end
  end.
Definition foreach_nbr_gt (ts unsorted_since : Z) (threshold : D) (base : option (list (MutableNbr D))) (deg : Z)
    : list (Z * D) :=
  match base with
  | None => []
  | Some l =>
      if deg =? 0 then []
      else let r := scan_tail ts unsorted_since (data_ltb threshold) l (Z.to_nat deg) in r.1 ++ gt_head threshold l r.2
  end.

(** [std::lower_bound] by data on the [len] entries from [first]. *)
Fixpoint lower_bound (fuel : nat) (threshold : D) l (first len : nat) : nat :=
  match fuel, len with
  | S fuel, S _ =>
      let half := Nat.div2 len in
      match l !! (first + half)%nat with
      | None => first
      | Some e => if data_ltb (data e) threshold
                  then lower_bound fuel threshold l (S (first + half)) (len - half - 1)
                  else lower_bound fuel threshold l first half
      end
  | _, _ => first
  end.
Fixpoint emit_down l (i : nat) : list (Z * D) :=
  match i with
  | O => []
  | S j => match l !! j with None => [] | Some e => (neighbor e, data e) :: emit_down l j end
  end.
Definition foreach_nbr_lt (ts unsorted_since : Z) (threshold : D) (base : option (list (MutableNbr D))) (deg : Z)
    : list (Z * D) :=
  match base with
  | None => []
  | Some l =>
      if deg =? 0 then []
      else let r := scan_tail ts unsorted_since (λ d, data_ltb d threshold) l (Z.to_nat deg) in
           if (r.2 =? 0)%nat then r.1
           else r.1 ++ emit_down l (lower_bound r.2 threshold l 0 r.2)
  end.

(** ** What the scans compute *)

(** Reference: the entries a reader at [ts] sees that pass the test, the
    last one first. *)
Definition scan_ref (ts : Z) (p : D → bool) l : list (Z * D) :=
  (λ e, (neighbor e, data e)) <$> reverse (filter (λ e, (timestamp e <=? ts) && p (data e) = true) l).

Definition sorted_data l : Prop :=
  ∀ i j a b, (i < j)%nat → l !! i = Some a → l !! j = Some b → data_ltb (data b) (data a) = false.

(** A list of which the first [k] entries are sorted, old enough for every
    reader, and the rest newer than the sort. *)
Record sorted_prefix (ts unsorted_since : Z) (k : nat) l : Prop := {
  sp_len : (k ≤ length l)%nat;
  sp_sorted : sorted_data (take k l);
  sp_old : Forall (λ e, timestamp e < unsorted_since ∧ timestamp e ≤ ts) (take k l);
  sp_new : Forall (λ e, unsorted_since ≤ timestamp e) (drop k l)
}.

Lemma scan_ref_app ts p l1 l2 : scan_ref ts p (l1 ++ l2) = scan_ref ts p l2 ++ scan_ref ts p l1.
Proof. unfold scan_ref. by rewrite filter_app, reverse_app, fmap_app. Qed.

Lemma scan_ref_snoc ts p l e :
  scan_ref ts p (l ++ [e]) =
  (if (timestamp e <=? ts) && p (data e) then [(neighbor e, data e)] else []) ++ scan_ref ts p l.
Proof.
  rewrite scan_ref_app. f_equal. unfold scan_ref. rewrite filter_cons.
  destruct ((timestamp e <=? ts) && p (data e)); by destruct (decide _).
Qed.

Lemma scan_tail_spec ts u p k l i :
  sorted_prefix ts u k l → (k ≤ i ≤ length l)%nat →
  scan_tail ts u p l i = (scan_ref ts p (drop k (take i l)), k).
Proof.
  intros Hs. induction i as [|j IH]; intros Hi.
  - replace k with O by lia. by rewrite take_0.
  - destruct (lookup_lt_is_Some_2 l j) as [e He]; [lia|]. cbn [scan_tail]. rewrite He.
    destruct (decide (k = S j)) as [->|Hne].
    + assert (Ht : take (S j) l !! j = Some e) by (by rewrite lookup_take_lt by lia).
      pose proof (proj1 (Forall_lookup _ _) (sp_old _ _ _ _ Hs) _ _ Ht) as [Ho Hv]. cbn in *.
      rewrite (proj2 (Z.ltb_ge _ _)), (proj2 (Z.ltb_lt _ _)) by lia.
      by rewrite drop_ge by (rewrite length_take; lia).
    + assert (Hd : drop k l !! (j - k)%nat = Some e) by (rewrite lookup_drop; by replace (k + (j - k))%nat with j by lia).
      pose proof (proj1 (Forall_lookup _ _) (sp_new _ _ _ _ Hs) _ _ Hd) as Hn. cbn in *.
      rewrite (take_S_r _ _ _ He), drop_app_le, scan_ref_snoc by (rewrite length_take; lia).
      rewrite IH by lia. destruct (Z.ltb_spec ts (timestamp e)).
      * by rewrite (proj2 (Z.leb_gt _ _)) by lia.
      * rewrite (proj2 (Z.ltb_ge _ _)), (proj2 (Z.leb_le _ _)) by lia. done.
Qed.

(** The second loop of the [gt] scan, on a sorted list. *)
Lemma gt_head_spec ts thr l i :
  (i ≤ length l)%nat → sorted_data (take i l) → Forall (λ e, timestamp e ≤ ts) (take i l) →
  gt_head thr l i = scan_ref ts (data_ltb thr) (take i l).
Proof.
  induction i as [|j IH]; intros Hi Hs Hv; [done|].
  destruct (lookup_lt_is_Some_2 l j) as [e He]; [lia|]. cbn [gt_head]. rewrite He.
  rewrite (take_S_r _ _ _ He) in *. apply Forall_app in Hv as [Hv [Hve _]%Forall_cons].
  assert (Hs' : sorted_data (take j l)).
  { intros a b x y Hab Hx Hy. by apply (Hs a b); [|apply lookup_app_l_Some..]. }
  rewrite scan_ref_snoc, (proj2 (Z.leb_le _ _)) by done. cbn [andb].
  destruct (data_ltb thr (data e)) eqn:Et; [cbn; f_equal; apply IH; [lia|done|done]|].
  cbn. symmetry. unfold scan_ref. rewrite filter_none_in; [done|].
  intros x Hx Hp. apply andb_true_iff in Hp as [_ Hp]. apply list_elem_of_lookup in Hx as [a Ha].
  assert (a < j)%nat by (apply lookup_lt_Some in Ha; rewrite length_take in Ha; lia).
  assert (Hn : data_ltb (data e) (data x) = false).
  { apply (Hs a j); [done|by apply lookup_app_l_Some|].
    rewrite lookup_app_r by (rewrite length_take; lia). by rewrite length_take_le, Nat.sub_diag by lia. }
  by rewrite (data_ltb_negtrans _ _ _ Et Hn) in Hp.
Qed.

(** Entries below [k] are below the threshold, the others are not. *)
Definition split_at (thr : D) l (k n : nat) : Prop :=
  (k ≤ n)%nat ∧ (∀ i e, (i < k)%nat → l !! i = Some e → data_ltb (data e) thr = true) ∧
  (∀ i e, (k ≤ i < n)%nat → l !! i = Some e → data_ltb (data e) thr = false).

Lemma lower_bound_spec fuel thr l first len :
  sorted_data l → (len ≤ fuel)%nat → (first + len ≤ length l)%nat →
  (∀ i e, (i < first)%nat → l !! i = Some e → data_ltb (data e) thr = true) →
  (∀ i e, (first + len ≤ i)%nat → l !! i = Some e → data_ltb (data e) thr = false) →
  split_at thr l (lower_bound fuel thr l first len) (length l).
Proof.
  intros Hs. revert first len. induction fuel as [|fuel IH]; intros first len Hf Hl Hlo Hhi.
  { assert (len = O) by lia; subst. cbn [lower_bound]. split_and!; [lia|done|]. intros i e Hi. apply Hhi. lia. }
  cbn [lower_bound]. destruct len as [|m]; [split_and!; [lia|done|]; intros i e Hi; apply Hhi; lia|].
  set (half := Nat.div2 (S m)).
  assert (half < S m)%nat by (apply Nat.lt_div2; lia).
  destruct (lookup_lt_is_Some_2 l (first + half)) as [e He]; [lia|]. rewrite He.
  destruct (data_ltb (data e) thr) eqn:Et.
  - apply IH; [lia|lia| |intros i x Hi; apply Hhi; lia].
    intros i x Hi Hx. destruct (decide (i = first + half)%nat) as [->|]; [by simplify_eq|].
    destruct (data_ltb (data x) thr) eqn:Ex; [done|].
    pose proof (Hs i (first + half)%nat x e ltac:(lia) Hx He) as Hn.
    by rewrite (data_ltb_negtrans _ _ _ Hn Ex) in Et.
  - apply IH; [lia|lia|done|].
    intros i x Hi Hx. destruct (decide (i = first + half)%nat) as [->|]; [by simplify_eq|].
    pose proof (Hs (first + half)%nat i e x ltac:(lia) He Hx) as Hn. by apply (data_ltb_negtrans _ _ _ Hn).
Qed.

(** The probes of the search stay below [len]. *)
Lemma lower_bound_take fuel thr l first len n :
  (first + len ≤ n)%nat → lower_bound fuel thr (take n l) first len = lower_bound fuel thr l first len.
Proof.
  revert first len. induction fuel as [|fuel IH]; intros first len Hn; [done|]. cbn [lower_bound].
  destruct len as [|m]; [done|]. assert (Nat.div2 (S m) < S m)%nat by (apply Nat.lt_div2; lia).
  rewrite lookup_take_lt by lia. destruct (l !! _) as [e|]; [|done].
  destruct (data_ltb _ _); apply IH; lia.
Qed.

Lemma emit_down_spec l i :
  (i ≤ length l)%nat → emit_down l i = (λ e, (neighbor e, data e)) <$> reverse (take i l).
Proof.
  induction i as [|j IH]; intros Hi; [done|].
  destruct (lookup_lt_is_Some_2 l j) as [e He]; [lia|]. cbn [emit_down].
  rewrite He, (take_S_r _ _ _ He), reverse_snoc, IH by lia. done.
Qed.

Lemma filter_split_at thr l k :
  split_at thr l k (length l) → filter (λ e, data_ltb (data e) thr = true) l = take k l.
Proof.
  intros (Hk & Hlo & Hhi). rewrite <- (take_drop k l) at 1. rewrite filter_app.
  rewrite (filter_none_in _ (drop k l)), app_nil_r.
  - apply filter_all_in. intros e [i He]%list_elem_of_lookup. apply (Hlo i e).
    + apply lookup_lt_Some in He. rewrite length_take in He. lia.
    + by apply lookup_take_Some in He as [].
  - intros e [i Hi]%list_elem_of_lookup. rewrite lookup_drop in Hi. rewrite (Hhi (k + i)%nat e); [done| |done].
    apply lookup_lt_Some in Hi. lia.
Qed.

Lemma scan_ref_all_visible ts p l :
  Forall (λ e, timestamp e ≤ ts) l →
  scan_ref ts p l = (λ e, (neighbor e, data e)) <$> reverse (filter (λ e, p (data e) = true) l).
Proof.
  intros Hv. unfold scan_ref. do 2 f_equal. induction Hv as [|e l He _ IH]; [done|].
  rewrite !filter_cons, IH, (proj2 (Z.leb_le _ _)) by done. done.
Qed.

Lemma sorted_prefix_take ts u k l n :
  sorted_prefix ts u k l → (k ≤ n)%nat → sorted_prefix ts u k (take n l).
Proof.
  intros [Hl Hs Ho Hn] Hk. split.
  - rewrite length_take. lia.
  - by rewrite take_take, Nat.min_l by lia.
  - by rewrite take_take, Nat.min_l by lia.
  - rewrite <- (take_drop k l), take_app_ge by (rewrite length_take; lia).
    rewrite length_take_le by lia. rewrite drop_app_ge by (rewrite length_take; lia).
    rewrite length_take_le, Nat.sub_diag, drop_0 by lia. by apply Forall_take.
Qed.

Lemma scan_tail_take ts u p l n : ∀ i, (i ≤ n)%nat → scan_tail ts u p (take n l) i = scan_tail ts u p l i.
Proof.
  induction i as [|j IH]; intros Hi; [done|]. cbn [scan_tail]. rewrite lookup_take_lt, IH by lia. done.
Qed.
Lemma gt_head_take thr l n : ∀ i, (i ≤ n)%nat → gt_head thr (take n l) i = gt_head thr l i.
Proof.
  induction i as [|j IH]; intros Hi; [done|]. cbn [gt_head]. rewrite lookup_take_lt, IH by lia. done.
Qed.
Lemma emit_down_take l n : ∀ i, (i ≤ n)%nat → emit_down (take n l) i = emit_down l i.
Proof.
  induction i as [|j IH]; intros Hi; [done|]. cbn [emit_down]. rewrite lookup_take_lt, IH by lia. done.
Qed.

Lemma old_visible ts u k l :
  sorted_prefix ts u k l → Forall (λ e, timestamp e ≤ ts) (take k l).
Proof. intros [_ _ Ho _]. eapply Forall_impl; [exact Ho|]. by intros e [_ He]. Qed.

(** With a sorted prefix in the first [deg] entries, the scan above a
    threshold is the filter of those entries. *)
Lemma foreach_nbr_gt_ref ts u thr l k deg :
  0 ≤ deg ≤ Z.of_nat (length l) → sorted_prefix ts u k (take (Z.to_nat deg) l) →
  foreach_nbr_gt ts u thr (Some l) deg = scan_ref ts (data_ltb thr) (take (Z.to_nat deg) l).
Proof.
  intros Hd Hs. set (n := Z.to_nat deg) in *. pose proof (sp_len _ _ _ _ Hs) as Hk.
  rewrite length_take_le in Hk by lia. unfold foreach_nbr_gt. destruct (Z.eqb_spec deg 0) as [->|]; [done|].
  fold n. rewrite <- (scan_tail_take _ _ _ l n) by lia.
  rewrite (scan_tail_spec ts u _ k) by (try rewrite length_take_le; done || lia). cbn [fst snd].
  rewrite <- (gt_head_take _ l n), (gt_head_spec ts) by (try rewrite length_take_le; lia || apply Hs || by apply old_visible in Hs).
  rewrite <- scan_ref_app. rewrite (take_ge (take n l) n) by (rewrite length_take; lia). by rewrite take_drop.
Qed.

Lemma foreach_nbr_lt_ref ts u thr l k deg :
  0 ≤ deg ≤ Z.of_nat (length l) → sorted_prefix ts u k (take (Z.to_nat deg) l) →
  foreach_nbr_lt ts u thr (Some l) deg = scan_ref ts (λ d, data_ltb d thr) (take (Z.to_nat deg) l).
Proof.
  intros Hd Hs. set (n := Z.to_nat deg) in *. pose proof (sp_len _ _ _ _ Hs) as Hk.
  rewrite length_take_le in Hk by lia. unfold foreach_nbr_lt. destruct (Z.eqb_spec deg 0) as [->|]; [done|].
  fold n. rewrite <- (scan_tail_take _ _ _ l n) by lia.
  rewrite (scan_tail_spec ts u _ k) by (try rewrite length_take_le; done || lia). cbn [fst snd].
  rewrite (take_ge (take n l) n) by (rewrite length_take; lia).
  set (m := take n l) in *. rewrite <- (take_drop k m) at 3. rewrite scan_ref_app.
  destruct (Nat.eqb_spec k 0) as [->|Hk0]; [by rewrite take_0, app_nil_r|]. f_equal.
  assert (Hm : (k ≤ length m)%nat) by apply Hs.
  assert (Hsp : split_at thr (take k m) (lower_bound k thr (take k m) 0 k) (length (take k m))).
  { apply lower_bound_spec; [apply Hs|lia|rewrite length_take; lia|lia|].
    intros i e Hi He. apply lookup_lt_Some in He. rewrite length_take in He. lia. }
  assert (Hlb : lower_bound k thr (take k m) 0 k = lower_bound k thr l 0 k).
  { unfold m. rewrite take_take, Nat.min_l by lia. apply lower_bound_take. lia. }
  rewrite Hlb in Hsp. pose proof Hsp as (Hb & _). rewrite length_take_le in Hb by lia.
  rewrite scan_ref_all_visible by (by apply old_visible in Hs).
  rewrite (filter_split_at _ _ _ Hsp), <- emit_down_spec by (rewrite length_take; lia).
  unfold m. rewrite take_take, Nat.min_l by lia. symmetry. apply emit_down_take. lia.
Qed.
End scans.
