(* ===== verification/MutableCsr.v ===== *)
(** * MutableCsr

    src/storages/csr/mutable_csr.cc and its header: the adjacency lists of a
    vertex label, with the number of edges in them, the in-place removals and
    compaction, and the part of each list that is sorted by edge data. *)

From stdpp Require Import gmap.
From S2P Require Import Prelude CsrView.

(** ** Single-precision arithmetic of the reservation

    [std::ceil(new_degree * DEFAULT_RESERVE_RATIO)] is computed in [float]:
    the degree and the product are rounded to 24 significant bits, to nearest
    and to even.  A positive value is [m * 2^e]. *)
Definition f32_round (m e : Z) : Z * Z :=
  let k := Z.log2 m - 23 in
  if k <=? 0 then (m, e)
  else
    let q := m / 2^k in
    let r := m `mod` 2^k in
    let half := 2^(k - 1) in
    ((if half <? r then q + 1 else if r =? half then q + q `mod` 2 else q), e + k).

(** The float nearest to 1.2 is [10066330 * 2^-23]. *)
Definition DEFAULT_RESERVE_RATIO : Z * Z := (10066330, -23).

Definition reserve_float (new_degree : Z) : Z :=
  if new_degree <=? 0 then 0
  else
    let (m1, e1) := f32_round new_degree 0 in
    let (m2, e2) := f32_round (m1 * DEFAULT_RESERVE_RATIO.1) (e1 + DEFAULT_RESERVE_RATIO.2) in
    if 0 <=? e2 then m2 * 2^e2 else - ((- m2) / 2^(- e2)).

(** [int new_cap]: degrees and capacities are 32-bit integers.  [None]: the sum
    [new_degree] or the converted float does not fit, which is undefined. *)
Definition reserve_capacity (new_degree : Z) : option Z :=
  if new_degree <? 2^31 then
    let new_cap := reserve_float new_degree in
    if new_cap <? 2^31 then Some new_cap else None
  else None.

Module MutableCsr.

(** One entry of the parallel arrays [adj_list_buffer_], [degree_list_] and
    [cap_list_]; a buffer is [None] when its pointer is null, and its list
    holds the whole allocation, used or not. *)
Record row (D : Type) := MkRow { buffer : option (list (MutableNbr D)); size : Z; cap : Z }.
Arguments MkRow {D}. Arguments buffer {D}. Arguments size {D}. Arguments cap {D}.

Record csr (D : Type) := MkCsr { rows : list (row D); unsorted_since_ : Z; edge_num_ : Z }.
Arguments MkCsr {D}. Arguments rows {D}. Arguments unsorted_since_ {D}. Arguments edge_num_ {D}.

Section operations.
Context {D : Type} `{EdgeData D}.
(** The contents of memory nothing was written to, and [std::sort] with the
    comparison of the data. *)
Context (junk : MutableNbr D) (std_sort : list (MutableNbr D) → list (MutableNbr D)).
Implicit Types (c : csr D) (r : row D) (l : list (MutableNbr D)).

Definition vertex_capacity c : Z := Z.of_nat (length (rows c)).
Definition edge_num c : Z := edge_num_ c.
Definition row_at c (v : Z) : option (row D) := if 0 <=? v then rows c !! Z.to_nat v else None.
Definition set_row (v : Z) r c : csr D := MkCsr (<[Z.to_nat v := r]> (rows c)) (unsorted_since_ c) (edge_num_ c).
Definition set_unsorted (u : Z) c : csr D := MkCsr (rows c) u (edge_num_ c).
Definition add_edges (n : Z) c : csr D := MkCsr (rows c) (unsorted_since_ c) (u64 (edge_num_ c + n)).
Definition contents r : list (MutableNbr D) := default [] (buffer r).
Definition entries r : list (MutableNbr D) := take (Z.to_nat (size r)) (contents r).

(** [edge_num_.fetch_sub(1)] for every live entry of a list. *)
Definition uncount l (n : Z) : Z := foldl (λ n e, if live e then u64 (n - 1) else n) n l.

(** ** One edge *)

Definition grow r : row D :=
  if size r =? cap r then
    let cap' := Z.max (i32 (cap r + Z.shiftr (cap r) 1)) 8 in
    MkRow (Some (take (Z.to_nat (size r)) (contents r) ++ replicate (Z.to_nat (cap' - size r)) junk)) (size r) cap'
  else r.

Definition put_edge (src dst : Z) (d : D) (ts : Z) c : csr D * res Z :=
  match row_at c src with
  | None => (c, Throw InvalidArgument)
  | Some r =>
      let r := grow r in
      let sz := size r in
      match buffer r, contents r !! Z.to_nat sz with
      | Some l, Some _ =>
          let c := set_row src (MkRow (Some (<[Z.to_nat sz := MkNbr dst ts d]> l)) (sz + 1) (cap r)) c in
          let c := add_edges 1 c in
          (if ts <? unsorted_since_ c then set_unsorted 0 c else c, Ok sz)
      | _, _ => (c, Throw OutOfBounds)
      end
  end.

(** The entry at a slot, after the bounds checks of [delete_edge] and
    [revert_delete_edge]. *)
Definition slot_at c (src offset : Z) : res (row D * list (MutableNbr D) * MutableNbr D) :=
  match row_at c src with
  | None => Throw InvalidArgument
  | Some r =>
      if size r <=? offset then Throw InvalidArgument
      else match buffer r with
        | None => Throw InvalidArgument
        | Some l =>
            if offset <? 0 then Throw OutOfBounds
            else match l !! Z.to_nat offset with
              | Some e => Ok (r, l, e)
              | None => Throw OutOfBounds
              end
        end
  end.
Definition store_slot (src offset : Z) r l (e : MutableNbr D) c : csr D :=
  set_row src (MkRow (Some (<[Z.to_nat offset := e]> l)) (size r) (cap r)) c.

(** An edge deleted already, or newer than [ts], is only logged. *)
Definition delete_edge (src offset ts : Z) c : csr D * res unit :=
  match slot_at c src offset with
  | Throw e => (c, Throw e)
  | Ok (r, l, e) =>
      if timestamp e <=? ts then
        let c := store_slot src offset r l (set_timestamp INVALID_TIMESTAMP e) c in
        (set_unsorted 0 (add_edges (-1) c), Ok tt)
      else (c, Ok tt)
  end.

Definition revert_delete_edge (src nbr offset ts : Z) c : csr D * res unit :=
  match slot_at c src offset with
  | Throw e => (c, Throw e)
  | Ok (r, l, e) =>
      if negb (neighbor e =? nbr) then (c, Throw InvalidArgument)
      else if timestamp e =? INVALID_TIMESTAMP then
        (add_edges 1 (store_slot src offset r l (set_timestamp ts e) c), Ok tt)
      else (c, Throw InvalidArgument)
  end.

(** ** Squeezing a list in place

    The loop of [compact] and [batch_delete_vertices]: [read] runs over [n]
    entries, the ones to keep are moved down to [write], and changed there by
    [touch]. *)
Fixpoint squeeze (keep : MutableNbr D → bool) (touch : MutableNbr D → MutableNbr D)
    (n : nat) l (read write removed : nat) : list (MutableNbr D) * nat :=
  match n with
  | O => (l, removed)
  | S n =>
      match l !! read with
      | None => (l, removed)
      | Some e =>
          if keep e then
            let l := if (removed =? 0)%nat then l else <[write := e]> l in
            squeeze keep touch n (alter touch write l) (S read) (S write) removed
          else squeeze keep touch n l (S read) write (S removed)
      end
  end.

Definition compact_row r : row D :=
  match buffer r with
  | None => r
  | Some l =>
      let (l', removed) := squeeze live (set_timestamp 0) (Z.to_nat (size r)) l 0 0 0 in
      MkRow (Some l') (size r - Z.of_nat removed) (cap r)
  end.
(** The rows [compact] counts: those with a buffer. *)
Definition compacted_size r : Z := match buffer r with None => 0 | Some _ => size r end.

Definition compact c : csr D * res unit :=
  let rs := compact_row <$> rows c in
  let c' := MkCsr rs (unsorted_since_ c) (edge_num_ c) in
  let total := u64 (zsum compacted_size rs) in
  (c', if total =? edge_num_ c then Ok tt else Throw StorageError).

(** ** Batches *)

(** One pass over the rows, with the counter of edges. *)
Fixpoint sweep (f : nat → row D → Z → row D * Z) (k : nat) (rs : list (row D)) (n : Z) : list (row D) * Z :=
  match rs with
  | [] => ([], n)
  | r :: rs => let (r, n) := f k r n in
               let (rs, n) := sweep f (S k) rs n in (r :: rs, n)
  end.

Definition drop_targets (dst_set : gset Z) (k : nat) r (n : Z) : row D * Z :=
  if size r =? 0 then (r, n)
  else match buffer r with
    | None => (r, n)
    | Some l =>
        let keep e := bool_decide (neighbor e ∉ dst_set) in
        let (l', removed) := squeeze keep id (Z.to_nat (size r)) l 0 0 0 in
        (MkRow (Some l') (size r - Z.of_nat removed) (cap r),
         uncount (filter (λ e, keep e = false) (take (Z.to_nat (size r)) l)) n)
    end.
Definition clear_source c (src : Z) : csr D :=
  match row_at c src with
  | None => c
  | Some r => let c := set_row src (MkRow (buffer r) 0 (cap r)) c in
              MkCsr (rows c) (unsorted_since_ c) (uncount (entries r) (edge_num_ c))
  end.
Definition batch_delete_vertices (src_set dst_set : gset Z) c : csr D :=
  let c := foldl clear_source c (elements src_set) in
  let (rs, n) := sweep (drop_targets dst_set) 0 (rows c) (edge_num_ c) in
  MkCsr rs 0 n.

(** Marking the entries that are [hit], and the entries that were. *)
Fixpoint mark (hit : nat → MutableNbr D → bool) (i : nat) l : list (MutableNbr D) :=
  match l with
  | [] => []
  | e :: l => (if hit i e then set_timestamp INVALID_TIMESTAMP e else e) :: mark hit (S i) l
  end.
Fixpoint hits (hit : nat → MutableNbr D → bool) (i : nat) l : list (MutableNbr D) :=
  match l with
  | [] => []
  | e :: l => if hit i e then e :: hits hit (S i) l else hits hit (S i) l
  end.
Definition kill (hit : nat → nat → MutableNbr D → bool) (k : nat) r (n : Z) : row D * Z :=
  match buffer r with
  | None => (r, n)
  | Some l =>
      let used := take (Z.to_nat (size r)) l in
      (MkRow (Some (mark (hit k) 0 used ++ drop (Z.to_nat (size r)) l)) (size r) (cap r),
       uncount (hits (hit k) 0 used) n)
  end.

(** [src_dst_map]: the targets to delete of each source in range. *)
Definition batch_delete_edges (src_list dst_list : list Z) c : csr D :=
  let pairs := filter (λ p, p.1 < vertex_capacity c) (zip src_list dst_list) in
  let hit (src i : nat) (e : MutableNbr D) := bool_decide ((Z.of_nat src, neighbor e) ∈ pairs) in
  let (rs, n) := sweep (kill hit) 0 (rows c) (edge_num_ c) in MkCsr rs 0 n.

Definition offset_in_range c (p : Z * Z) : bool :=
  match row_at c p.1 with Some r => p.2 <? size r | None => false end.
Definition batch_delete_edges_offsets (edges : list (Z * Z)) c : csr D * res unit :=
  let es := filter (λ p, offset_in_range c p = true) edges in
  if forallb (λ p, 0 <=? p.2) es then
    let hit (src i : nat) (e : MutableNbr D) := bool_decide ((Z.of_nat src, Z.of_nat i) ∈ es) in
    let (rs, n) := sweep (kill hit) 0 (rows c) (edge_num_ c) in (MkCsr rs 0 n, Ok tt)
  else (c, Throw OutOfBounds).

(** [batch_put_edges]: every list is moved to a part of [nbr_list_] of the
    reserved size, then the edges are appended.  [null_base] tells whether
    [GetData] of an empty container is null; a capacity that does not fit in an
    [int] is undefined. *)
Definition reserve_row (null_base : bool) (extra : Z) r : row D :=
  let cap' := default 0 (reserve_capacity (extra + size r)) in
  MkRow (if null_base then None
         else Some (entries r ++ replicate (Z.to_nat (cap' - size r)) junk)) (size r) cap'.
Definition append_edge (ts : Z) (st : list (row D) * Z * res unit) (e : Z * Z * D) : list (row D) * Z * res unit :=
  let '(src, dst, d) := e in
  match st with
  | (rs, added, Throw x) => (rs, added, Throw x)
  | (rs, added, Ok _) =>
      match (if 0 <=? src then rs !! Z.to_nat src else None) with
      | None => (rs, added, Ok tt)
      | Some r =>
          match buffer r, contents r !! Z.to_nat (size r) with
          | Some l, Some _ =>
              (<[Z.to_nat src := MkRow (Some (<[Z.to_nat (size r) := MkNbr dst ts d]> l)) (size r + 1) (cap r)]> rs,
               added + 1, Ok tt)
          | _, _ => (rs, added, Throw OutOfBounds)
          end
      end
  end.
Definition batch_put_edges (null_base : bool) (edges : list (Z * Z * D)) (ts : Z) c : csr D * res unit :=
  if vertex_capacity c =? 0 then (c, Ok tt)
  else
    let degree (i : nat) := Z.of_nat (length (filter (λ e, e.1.1 = Z.of_nat i) edges)) in
    if negb (forallb (λ n, bool_decide (is_Some (reserve_capacity n))) (imap (λ i r, degree i + size r) (rows c)))
    then (c, Throw OutOfBounds) else
    let total := zsum cap (imap (λ i r, reserve_row false (degree i) r) (rows c)) in
    let rs := imap (λ i r, reserve_row (null_base && (total =? 0)) (degree i) r) (rows c) in
    let '(rs, added, x) := foldl (append_edge ts) (rs, 0, Ok tt) edges in
    let c := MkCsr rs (unsorted_since_ c) (u64 (edge_num_ c + added)) in
    (if ts <? unsorted_since_ c then set_unsorted 0 c else c, x).

(** ** Sorting, resizing, detaching *)

Definition sort_row r : row D :=
  match buffer r with
  | None => r
  | Some l => MkRow (Some (std_sort (take (Z.to_nat (size r)) l) ++ drop (Z.to_nat (size r)) l)) (size r) (cap r)
  end.
Definition batch_sort_by_edge_data (ts : Z) c : csr D := MkCsr (sort_row <$> rows c) ts (edge_num_ c).

Definition empty_row : row D := MkRow None 0 0.
Definition resize (vnum : Z) c : csr D :=
  let old := vertex_capacity c in
  MkCsr (if old <? vnum then rows c ++ replicate (Z.to_nat (vnum - old)) empty_row
         else take (Z.to_nat vnum) (rows c)) (unsorted_since_ c) (edge_num_ c).

Definition DetachVertex (vid : Z) c : csr D * res unit :=
  match row_at c vid with
  | None => (c, Throw InvalidArgument)
  | Some r =>
      if cap r =? 0 then (c, Ok tt)
      else (set_row vid (MkRow (Some (entries r ++ replicate (Z.to_nat (cap r - size r)) junk)) (size r) (cap r)) c, Ok tt)
  end.

Definition batch_export c : list (Z * Z * D) :=
  concat (imap (λ src r, (λ e, (Z.of_nat src, neighbor e, data e)) <$> filter (λ e, live e = true) (entries r)) (rows c)).

(** [EdgeTable::Compact]: a table with a sort key is sorted again. *)
Definition EdgeTable_Compact (sort_key : bool) c : csr D * res unit :=
  let (c, x) := compact c in
  match x with
  | Throw e => (c, Throw e)
  | Ok _ => (if sort_key then batch_sort_by_edge_data 1 c else c, Ok tt)
  end.

(** ** Views *)

Definition get_edges c (ts v : Z) : list (MutableNbr D) :=
  match row_at c v with
  | Some r => match buffer r with None => [] | Some l => take (Z.to_nat (size r)) l end
  | None => []
  end.
Definition view_nbr_gt c (ts v : Z) (threshold : D) : list (Z * D) :=
  match row_at c v with
  | Some r => foreach_nbr_gt ts (unsorted_since_ c) threshold (buffer r) (size r)
  | None => []
  end.
Definition view_nbr_lt c (ts v : Z) (threshold : D) : list (Z * D) :=
  match row_at c v with
  | Some r => foreach_nbr_lt ts (unsorted_since_ c) threshold (buffer r) (size r)
  | None => []
  end.

(** [EdgeTable::UpdateEdgeProperty] on inline data: the slot is found by
    [position_iter_at_raw_slot] and written by [EdgeDataAccessor::set_data]. *)
Definition UpdateEdgeProperty (src offset : Z) (d : D) (ts : Z) c : csr D * res unit :=
  match row_at c src with
  | None => (c, Throw OutOfBounds)
  | Some r =>
      let l := get_edges c ts src in
      if (0 <=? offset) && (offset <? Z.of_nat (length l)) then
        match l !! Z.to_nat offset with
        | Some e =>
            if timestamp e <=? ts then
              (store_slot src offset r (contents r) (MkNbr (neighbor e) ts d) c, Ok tt)
            else (c, Throw InvalidArgument)
        | None => (c, Throw OutOfBounds)
        end
      else (c, Throw InvalidArgument)
  end.

Definition empty_csr : csr D := MkCsr [] 0 0.
End operations.

Arguments empty_csr {D}.
End MutableCsr.
