(* ===== verification/MutableCsrSpec.v ===== *)
(** * What the operations of MutableCsr do

    Every list of a [MutableCsr] is the used part of its buffer; the operations
    are described on these lists, and the counter of edges is the number of
    live entries in them. *)

From stdpp Require Import gmap.
From S2P Require Import Prelude CsrView MutableCsr.
Import MutableCsr.

(** ** The reservation is enough *)

Lemma f32_round_bounds m e :
  0 < m → let (m', e') := f32_round m e in
  ∃ k, 0 ≤ k ∧ e' = e + k ∧ 0 < m' ∧ (2^24 - 1) * m ≤ 2^24 * (m' * 2^k) ≤ (2^24 + 1) * m.
Proof.
  intros Hm. unfold f32_round. destruct (Z.leb_spec (Z.log2 m - 23) 0) as [|Hk].
  { exists 0. rewrite Z.pow_0_r. lia. }
  set (k := Z.log2 m - 23) in *. exists k. split; [lia|]. split; [done|].
  assert (Hlo : 2^23 * 2^k ≤ m).
  { rewrite <- Z.pow_add_r by lia. replace (23 + k) with (Z.log2 m) by lia. by apply Z.log2_spec. }
  assert (H2k : 2^k = 2 * 2^(k - 1)).
  { replace k with (Z.succ (k - 1)) at 1 by lia. by rewrite Z.pow_succ_r by lia. }
  assert (0 < 2^(k - 1)) by (apply Z.pow_pos_nonneg; lia).
  pose proof (Z.div_mod m (2^k) ltac:(lia)) as Hdm. pose proof (Z.mod_pos_bound m (2^k) ltac:(lia)) as Hr.
  set (q := m / 2^k) in *. set (r := m `mod` 2^k) in *. set (h := 2^(k - 1)) in *.
  assert (2^23 ≤ q) by (apply Z.div_le_lower_bound; lia).
  pose proof (Z.mod_pos_bound q 2 ltac:(lia)).
  destruct (Z.ltb_spec h r); [nia|]. destruct (Z.eqb_spec r h); nia.
Qed.

Lemma reserve_float_bounds n :
  0 < n →
  (2^24 - 1)^2 * 10066330 * n ≤ 2^71 * reserve_float n ∧
  2^71 * (reserve_float n - 1) ≤ (2^24 + 1)^2 * 10066330 * n.
Proof.
  intros Hn. unfold reserve_float. rewrite (proj2 (Z.leb_gt n 0)) by lia.
  pose proof (f32_round_bounds n 0 ltac:(lia)) as H1. destruct (f32_round n 0) as [m1 e1].
  destruct H1 as (k1 & Hk1 & -> & Hm1 & H1). cbn [DEFAULT_RESERVE_RATIO fst snd].
  pose proof (f32_round_bounds (m1 * 10066330) (0 + k1 + -23) ltac:(lia)) as H2.
  destruct (f32_round (m1 * 10066330) _) as [m2 e2]. destruct H2 as (k2 & Hk2 & -> & Hm2 & H2).
  assert (0 < 2^k1) by (apply Z.pow_pos_nonneg; lia). assert (0 < 2^k2) by (apply Z.pow_pos_nonneg; lia).
  assert (Hlo : (2^24 - 1)^2 * 10066330 * n ≤ 2^48 * (m2 * 2^k2 * 2^k1)) by nia.
  assert (Hhi : 2^48 * (m2 * 2^k2 * 2^k1) ≤ (2^24 + 1)^2 * 10066330 * n) by nia.
  set (e2 := 0 + k1 + -23 + k2). destruct (Z.leb_spec 0 e2).
  - assert (E : 2^23 * 2^e2 = 2^k2 * 2^k1).
    { rewrite <- !Z.pow_add_r by lia. f_equal. unfold e2. lia. }
    split; nia.
  - assert (E : 2^23 = 2^(- e2) * (2^k2 * 2^k1)).
    { rewrite <- !Z.pow_add_r by lia. f_equal. unfold e2. lia. }
    set (p := 2^(- e2)) in *. assert (0 < p) by (apply Z.pow_pos_nonneg; lia).
    pose proof (Z.div_mod (- m2) p ltac:(lia)). pose proof (Z.mod_pos_bound (- m2) p ltac:(lia)).
    set (q := (- m2) / p) in *. assert (m2 ≤ p * (- q)) by lia. assert (p * (- q - 1) ≤ m2) by lia.
    split; nia.
Qed.

Lemma reserve_float_range n :
  0 < n → 2833419664541802404250 * n ≤ 2361183241434822606848 * reserve_float n ∧ 2361183241434822606848 * (reserve_float n - 1) ≤ 2833420340081773353370 * n.
Proof. exact (reserve_float_bounds n). Qed.

(** Lists of up to [max_reservable] edges get a capacity; from 1790000000 on the
    conversion to an [int] overflows. *)
Definition max_reservable : Z := 1780000000.

Lemma reserve_capacity_spec n :
  0 ≤ n ≤ max_reservable →
  ∃ v, reserve_capacity n = Some v ∧ n ≤ v ∧ 1199999 * n ≤ 1000000 * v ≤ 1200001 * n + 1000000.
Proof.
  unfold max_reservable, reserve_capacity. intros Hn. rewrite (proj2 (Z.ltb_lt n _)) by lia.
  destruct (decide (n = 0)) as [->|]; [by exists 0|].
  destruct (reserve_float_range n ltac:(lia)) as [H1 H2]. set (v := reserve_float n) in *.
  rewrite (proj2 (Z.ltb_lt v _)) by lia. exists v. split; [done|lia].
Qed.

Lemma reserve_capacity_overflow n : 1790000000 ≤ n → reserve_capacity n = None.
Proof.
  intros Hn. unfold reserve_capacity. destruct (reserve_float_range n ltac:(lia)) as [H1 H2].
  case_bool; [|done]. rewrite (proj2 (Z.ltb_ge _ _)) by lia. done.
Qed.

Section spec.
Context {D : Type} `{EdgeData D} (junk : MutableNbr D).
Implicit Types (c : csr D) (r : row D) (l : list (MutableNbr D)) (e : MutableNbr D).

Definition live_count l : Z := Z.of_nat (length (filter (λ e, live e = true) l)).
Definition total c : Z := zsum (λ r, live_count (entries r)) (rows c).

(** A buffer has the recorded capacity, which bounds the degree. *)
Definition row_ok r : Prop := Z.of_nat (length (contents r)) = cap r ∧ 0 ≤ size r ≤ cap r.
Definition csr_ok c : Prop := Forall row_ok (rows c) ∧ edge_num_ c = u64 (total c).

(** The lists of the graph. *)
Definition lists c : list (list (MutableNbr D)) := entries <$> rows c.

Lemma live_count_app l k : live_count (l ++ k) = live_count l + live_count k.
Proof. unfold live_count. rewrite filter_app, length_app. lia. Qed.
Lemma live_count_cons e l : live_count (e :: l) = (if live e then 1 else 0) + live_count l.
Proof. unfold live_count. rewrite filter_cons. destruct (live e), (decide _); try done; cbn [length]; lia. Qed.
Lemma live_count_nil : live_count [] = 0.
Proof. done. Qed.
Lemma live_count_nonneg l : 0 ≤ live_count l.
Proof. unfold live_count. lia. Qed.

Lemma uncount_spec l n : uncount l (u64 n) = u64 (n - live_count l).
Proof.
  unfold uncount. revert n. induction l as [|e l IH]; intros n; cbn [foldl]; [by rewrite live_count_nil, Z.sub_0_r|].
  rewrite live_count_cons. destruct (live e).
  - rewrite u64_sub_l, IH. f_equal. lia.
  - rewrite IH. f_equal.
Qed.

Lemma length_entries r : row_ok r → Z.of_nat (length (entries r)) = size r.
Proof. intros [Hl Hs]. unfold entries. rewrite length_take_le by lia. lia. Qed.

Lemma row_at_Some c v r : row_at c v = Some r → 0 ≤ v ∧ rows c !! Z.to_nat v = Some r.
Proof. unfold row_at. destruct (Z.leb_spec 0 v); [done|discriminate]. Qed.

Lemma row_at_ok c v r : Forall row_ok (rows c) → row_at c v = Some r → row_ok r.
Proof. intros Hf [_ Hr]%row_at_Some. by eapply Forall_lookup_1. Qed.

Lemma lists_row c v r : row_at c v = Some r → lists c !! Z.to_nat v = Some (entries r).
Proof. intros [_ Hr]%row_at_Some. unfold lists. by rewrite list_lookup_fmap, Hr. Qed.

(** Replacing one row. *)
Lemma set_row_spec c v r r' :
  row_at c v = Some r → Forall row_ok (rows c) → row_ok r' →
  Forall row_ok (rows (set_row v r' c)) ∧
  total (set_row v r' c) = total c - live_count (entries r) + live_count (entries r') ∧
  lists (set_row v r' c) = <[Z.to_nat v := entries r']> (lists c).
Proof.
  intros [Hv Hr]%row_at_Some Hf Hr'. split_and!.
  - cbn. by apply Forall_insert.
  - destruct (pool_split _ _ _ Hr) as (rest & Hz & Hz' & _). unfold total. cbn [set_row rows].
    rewrite Hz', (Hz (λ r, live_count (entries r))). lia.
  - unfold lists. cbn [set_row rows]. by rewrite list_fmap_insert.
Qed.

Lemma csr_ok_row c v r r' n u :
  csr_ok c → row_at c v = Some r → row_ok r' →
  n = u64 (edge_num_ c + (live_count (entries r') - live_count (entries r))) →
  csr_ok (MkCsr (rows (set_row v r' c)) u n) ∧
  lists (MkCsr (rows (set_row v r' c)) u n) = <[Z.to_nat v := entries r']> (lists c).
Proof.
  intros [Hf Hn] Hr Hr' ->. destruct (set_row_spec c v r r' Hr Hf Hr') as (Hf' & Ht & Hl).
  split; [|exact Hl]. split; [exact Hf'|]. cbn [edge_num_]. rewrite Hn, u64_add_l. f_equal.
  change (total (MkCsr (rows (set_row v r' c)) u (u64 (total c + (live_count (entries r') - live_count (entries r))))))
    with (total (set_row v r' c)). lia.
Qed.

(** ** One edge *)

Lemma entries_buffer l n k : entries (MkRow (Some l) n k) = take (Z.to_nat n) l.
Proof. done. Qed.

Lemma grow_spec r :
  row_ok r → size r < 2^30 →
  row_ok (grow junk r) ∧ entries (grow junk r) = entries r ∧ size (grow junk r) = size r ∧
  (Z.to_nat (size r) < length (contents (grow junk r)))%nat ∧ is_Some (buffer (grow junk r)).
Proof.
  intros [Hl Hs] Hb. unfold grow. destruct (Z.eqb_spec (size r) (cap r)) as [E|E].
  - set (cap' := Z.max (i32 (cap r + Z.shiftr (cap r) 1)) 8).
    assert (Hcap : size r < cap').
    { unfold cap', i32. rewrite Z.shiftr_div_pow2 by lia. change (2^1) with 2. dlia. }
    assert (Hlen : length (take (Z.to_nat (size r)) (contents r)) = Z.to_nat (size r)) by (rewrite length_take; lia).
    set (l' := take (Z.to_nat (size r)) (contents r) ++ replicate (Z.to_nat (cap' - size r)) junk).
    assert (Hl' : Z.of_nat (length l') = cap') by (unfold l'; rewrite length_app, length_replicate; lia).
    change (contents (MkRow (Some l') (size r) cap')) with l'.
    split_and!; [split; [exact Hl'|cbn; lia]| |done|lia|by exists l'].
    unfold entries. cbn [size]. change (contents (MkRow (Some l') (size r) cap')) with l'.
    unfold l'. by rewrite take_app_le, take_take, Nat.min_id by lia.
  - split_and!; try done; try lia. unfold contents in *. destruct (buffer r); [eauto|]. cbn in *. lia.
Qed.

Lemma put_edge_spec c src r dst d ts :
  csr_ok c → row_at c src = Some r → size r < 2^30 → ts ≠ INVALID_TIMESTAMP →
  let x := put_edge junk src dst d ts c in
  x.2 = Ok (size r) ∧ csr_ok x.1 ∧
  lists x.1 = <[Z.to_nat src := entries r ++ [MkNbr dst ts d]]> (lists c) ∧
  unsorted_since_ x.1 = (if ts <? unsorted_since_ c then 0 else unsorted_since_ c).
Proof.
  intros Hok Hr Hb Hts. pose proof (row_at_ok c src r (proj1 Hok) Hr) as Hro.
  destruct (grow_spec r Hro Hb) as ([Hl Hs] & He & Hsz & Hlt & [l Hbuf]).
  unfold put_edge. rewrite Hr. set (g := grow junk r) in *.
  destruct (lookup_lt_is_Some_2 (contents g) (Z.to_nat (size r))) as [old Hold]; [done|].
  rewrite Hsz, Hbuf, Hold.
  assert (Hc : contents g = l) by (unfold contents; by rewrite Hbuf).
  set (r' := MkRow (Some (<[Z.to_nat (size r) := MkNbr dst ts d]> l)) (size r + 1) (cap g)).
  assert (Hent : entries r' = entries r ++ [MkNbr dst ts d]).
  { rewrite <- He. unfold r', entries. cbn [size contents buffer]. rewrite Hc, Hsz.
    replace (Z.to_nat (size r + 1)) with (S (Z.to_nat (size r))) by lia.
    unfold contents. cbn [buffer default]. unfold id. rewrite Hc in Hlt.
    rewrite (take_S_r _ _ (MkNbr dst ts d)) by (by apply list_lookup_insert_eq).
    by rewrite take_insert_ge by lia. }
  assert (Hro' : row_ok r').
  { split; unfold r', contents; cbn [buffer size cap default]; unfold id; rewrite ?length_insert; rewrite Hc in *; lia. }
  assert (Hlive : live (MkNbr dst ts d) = true).
  { unfold live. cbn. by rewrite (proj2 (Z.eqb_neq _ _)). }
  pose proof (csr_ok_row c src r r' (u64 (edge_num_ c + 1)) (unsorted_since_ c) Hok Hr Hro') as [Ho Hls].
  { rewrite Hent, live_count_app, live_count_cons, Hlive, live_count_nil. f_equal. lia. }
  rewrite Hent in Hls.
  cbn [fst snd unsorted_since_ add_edges set_row].
  destruct (ts <? unsorted_since_ c); (split_and!; [done|exact Ho|exact Hls|done]).
Qed.

(** A slot in range: the entry there, and what a store does. *)
Lemma slot_at_spec c src r offset :
  csr_ok c → row_at c src = Some r → 0 ≤ offset < size r →
  ∃ l e, slot_at c src offset = Ok (r, l, e) ∧ buffer r = Some l ∧ entries r !! Z.to_nat offset = Some e ∧
    ∀ e' n u, n = u64 (edge_num_ c + ((if live e' then 1 else 0) - (if live e then 1 else 0))) →
      csr_ok (MkCsr (rows (store_slot src offset r l e' c)) u n) ∧
      lists (MkCsr (rows (store_slot src offset r l e' c)) u n) =
        <[Z.to_nat src := <[Z.to_nat offset := e']> (entries r)]> (lists c).
Proof.
  intros Hok Hr Ho. pose proof (row_at_ok c src r (proj1 Hok) Hr) as [Hl Hs].
  destruct (buffer r) as [l|] eqn:Hb; [|unfold contents in Hl; rewrite Hb in Hl; cbn in Hl; lia].
  assert (Hc : contents r = l) by (unfold contents; by rewrite Hb). rewrite Hc in Hl.
  destruct (lookup_lt_is_Some_2 l (Z.to_nat offset)) as [e He]; [lia|]. exists l, e.
  assert (He' : entries r !! Z.to_nat offset = Some e).
  { unfold entries. by rewrite Hc, lookup_take_lt by lia. }
  split_and!; [|done|done|].
  - unfold slot_at. rewrite Hr, (proj2 (Z.leb_gt _ _)), Hb, (proj2 (Z.ltb_ge _ _)), He by lia. done.
  - intros e' n u Hn. unfold store_slot.
    set (r' := MkRow (Some (<[Z.to_nat offset := e']> l)) (size r) (cap r)).
    assert (Hent : entries r' = <[Z.to_nat offset := e']> (entries r)).
    { unfold entries. rewrite Hc. apply take_insert_lt. lia. }
    rewrite <- Hent. apply (csr_ok_row c src r); [done|done| |].
    + split; cbn; unfold id; rewrite ?length_insert; lia.
    + rewrite Hn, Hent. do 2 f_equal.
      rewrite (insert_take_drop _ _ _) by (eapply lookup_lt_Some; exact He').
      rewrite <- (take_drop_middle _ _ _ He') at 3. rewrite !live_count_app, !live_count_cons. lia.
Qed.

Lemma live_set_timestamp ts e : live (set_timestamp ts e) = negb (ts =? INVALID_TIMESTAMP).
Proof. done. Qed.

Lemma delete_edge_spec c src r offset ts :
  csr_ok c → row_at c src = Some r → 0 ≤ offset < size r → 0 ≤ ts < INVALID_TIMESTAMP →
  let x := delete_edge src offset ts c in
  x.2 = Ok tt ∧ csr_ok x.1 ∧
  ∃ e, entries r !! Z.to_nat offset = Some e ∧
    (if timestamp e <=? ts
     then lists x.1 = <[Z.to_nat src := <[Z.to_nat offset := set_timestamp INVALID_TIMESTAMP e]> (entries r)]> (lists c) ∧
          unsorted_since_ x.1 = 0
     else x.1 = c).
Proof.
  intros Hok Hr Ho Hts. destruct (slot_at_spec c src r offset Hok Hr Ho) as (l & e & Hs & _ & He & Hst).
  unfold delete_edge. rewrite Hs. destruct (Z.leb_spec (timestamp e) ts) as [Hle|Hgt]; cbn [fst snd].
  - destruct (Hst (set_timestamp INVALID_TIMESTAMP e) (u64 (edge_num_ c + -1)) 0) as [Ho1 Hl1].
    { rewrite live_set_timestamp, Z.eqb_refl. unfold live. rewrite (proj2 (Z.eqb_neq _ _)) by lia. done. }
    split_and!; [done|exact Ho1|]. exists e. rewrite (proj2 (Z.leb_le _ _)) by done. split_and!; [done|exact Hl1|done].
  - split_and!; [done|done|]. exists e. by rewrite (proj2 (Z.leb_gt _ _)).
Qed.

Lemma slot_at_beyond c src offset :
  csr_ok c → 0 ≤ offset → (∀ r, row_at c src = Some r → size r ≤ offset) →
  slot_at c src offset = Throw InvalidArgument.
Proof.
  intros Hok Ho Hr. unfold slot_at. destruct (row_at c src) as [r|]; [|done].
  by rewrite (proj2 (Z.leb_le _ _)) by (by apply Hr).
Qed.

Lemma update_edge_spec c src r offset d ts :
  csr_ok c → row_at c src = Some r → 0 ≤ ts < INVALID_TIMESTAMP →
  let x := UpdateEdgeProperty src offset d ts c in
  csr_ok x.1 ∧ unsorted_since_ x.1 = unsorted_since_ c ∧
  match (if 0 <=? offset then entries r !! Z.to_nat offset else None) with
  | Some e =>
      if timestamp e <=? ts
      then x.2 = Ok tt ∧ lists x.1 = <[Z.to_nat src := <[Z.to_nat offset := MkNbr (neighbor e) ts d]> (entries r)]> (lists c)
      else x.2 = Throw InvalidArgument ∧ x.1 = c
  | None => x.2 = Throw InvalidArgument ∧ x.1 = c
  end.
Proof.
  intros Hok Hr Hts. unfold UpdateEdgeProperty. rewrite Hr.
  pose proof (length_entries r (row_at_ok c src r (proj1 Hok) Hr)) as Hlen.
  assert (Hg : get_edges c ts src = entries r).
  { unfold get_edges, entries, contents. rewrite Hr. destruct (buffer r); cbn; by rewrite ?take_nil. }
  rewrite Hg. destruct (Z.leb_spec 0 offset) as [H0|H0]; cbn [andb]; [|done].
  destruct (Z.ltb_spec offset (Z.of_nat (length (entries r)))) as [Hlt|Hge]; [|by rewrite lookup_ge_None_2 by lia].
  destruct (slot_at_spec c src r offset Hok Hr ltac:(lia)) as (l & e & _ & Hb & He & Hst). rewrite He.
  destruct (Z.leb_spec (timestamp e) ts) as [Hle|]; [|done].
  assert (Hc : contents r = l) by (unfold contents; by rewrite Hb). rewrite Hc.
  destruct (Hst (MkNbr (neighbor e) ts d) (edge_num_ c) (unsorted_since_ c)) as [H1 H2].
  { destruct Hok as [_ ->]. unfold live. cbn [timestamp]. rewrite !(proj2 (Z.eqb_neq _ _)) by lia.
    rewrite u64_add_l. f_equal. lia. }
  split_and!; [exact H1|done|done|exact H2].
Qed.

Lemma revert_delete_edge_spec c src r offset nbr ts :
  csr_ok c → row_at c src = Some r → 0 ≤ offset < size r → ts ≠ INVALID_TIMESTAMP →
  let x := revert_delete_edge src nbr offset ts c in
  csr_ok x.1 ∧
  ∃ e, entries r !! Z.to_nat offset = Some e ∧
    (if (neighbor e =? nbr) && (timestamp e =? INVALID_TIMESTAMP)
     then x.2 = Ok tt ∧ lists x.1 = <[Z.to_nat src := <[Z.to_nat offset := set_timestamp ts e]> (entries r)]> (lists c)
     else x.2 = Throw InvalidArgument ∧ x.1 = c) ∧ unsorted_since_ x.1 = unsorted_since_ c.
Proof.
  intros Hok Hr Ho Hts. destruct (slot_at_spec c src r offset Hok Hr Ho) as (l & e & Hs & _ & He & Hst).
  unfold revert_delete_edge. rewrite Hs.
  destruct (Z.eqb_spec (neighbor e) nbr) as [En|En]; cbn [negb].
  2:{ split; [done|]. exists e. rewrite (proj2 (Z.eqb_neq (neighbor e) nbr)) by done. by split_and!. }
  destruct (Z.eqb_spec (timestamp e) INVALID_TIMESTAMP) as [Et|Et]; cbn [fst snd].
  - destruct (Hst (set_timestamp ts e) (u64 (edge_num_ c + 1)) (unsorted_since_ c)) as [Ho1 Hl1].
    { rewrite live_set_timestamp. unfold live. rewrite Et, Z.eqb_refl, (proj2 (Z.eqb_neq ts _)) by done. done. }
    split; [exact Ho1|]. exists e. rewrite (proj2 (Z.eqb_eq (neighbor e) nbr)), (proj2 (Z.eqb_eq (timestamp e) _)) by done.
    cbn [andb]. split; [done|]. split; [split; [done|exact Hl1]|done].
  - split; [done|]. exists e. rewrite (proj2 (Z.eqb_neq (timestamp e) _)), andb_false_r by done. by split_and!.
Qed.

(** ** Squeezing *)

Lemma squeeze_spec keep (touch : MutableNbr D → MutableNbr D) n l read write removed :
  read = (write + removed)%nat → (read + n ≤ length l)%nat →
  let kept := touch <$> filter (λ e, keep e = true) (take n (drop read l)) in
  let x := squeeze keep touch n l read write removed in
  length x.1 = length l ∧ (x.2 + length kept = removed + n)%nat ∧
  take (write + length kept) x.1 = take write l ++ kept.
Proof.
  revert l read write removed. induction n as [|n IH]; intros l read write removed Hrw Hlen kept x.
  { assert (kept = []) as -> by done. cbn [length]. rewrite app_nil_r, !Nat.add_0_r. by split_and!. }
  destruct (lookup_lt_is_Some_2 l read) as [e He]; [lia|].
  subst kept x. cbn [squeeze]. rewrite He, (drop_S _ _ _ He). cbn [take]. rewrite filter_cons.
  destruct (keep e) eqn:Ek.
  - rewrite decide_True by done. cbn [fmap list_fmap length].
    set (l1 := alter touch write (if (removed =? 0)%nat then l else <[write := e]> l)).
    assert (Hl1 : length l1 = length l) by (unfold l1; rewrite length_alter; by destruct (_ =? _)%nat; rewrite ?length_insert).
    assert (Hw : l1 !! write = Some (touch e)).
    { unfold l1. rewrite list_lookup_alter_eq. destruct (Nat.eqb_spec removed 0) as [->|].
      - rewrite Nat.add_0_r in Hrw. subst read. by rewrite He.
      - by rewrite list_lookup_insert_eq by lia. }
    assert (Htk : take write l1 = take write l).
    { unfold l1. rewrite take_alter_ge by lia. destruct (_ =? _)%nat; [done|]. by rewrite take_insert_ge by lia. }
    assert (Hdr : drop (S read) l1 = drop (S read) l).
    { unfold l1. rewrite drop_alter_lt by lia. destruct (_ =? _)%nat; [done|]. by rewrite drop_insert_lt by lia. }
    destruct (IH l1 (S read) (S write) removed) as (H1 & H2 & H3); [lia|lia|].
    rewrite Hdr in H2, H3. split_and!; [congruence|cbn in *; lia|].
    rewrite (take_S_r _ _ _ Hw), Htk, <- app_assoc in H3. cbn [app] in H3.
    rewrite <- H3. f_equal. cbn. lia.
  - rewrite decide_False by congruence.
    destruct (IH l (S read) write (S removed)) as (H1 & H2 & H3); [lia|lia|].
    split_and!; [done|cbn in *; lia|done].
Qed.

Lemma squeeze_row r l keep (touch : MutableNbr D → MutableNbr D) :
  row_ok r → buffer r = Some l →
  let x := squeeze keep touch (Z.to_nat (size r)) l 0 0 0 in
  let r' := MkRow (Some x.1) (size r - Z.of_nat x.2) (cap r) in
  row_ok r' ∧ entries r' = touch <$> filter (λ e, keep e = true) (entries r).
Proof.
  intros [Hl Hs] Hb x r'. assert (Hc : contents r = l) by (unfold contents; by rewrite Hb). rewrite Hc in Hl.
  pose proof (squeeze_spec keep touch (Z.to_nat (size r)) l 0 0 0 ltac:(lia) ltac:(lia)) as (H1 & H2 & H3).
  rewrite drop_0 in H2, H3. rewrite take_0 in H3. fold x in H1, H2, H3. rewrite !Nat.add_0_l in *. cbn [app] in H3.
  assert (He : entries r = take (Z.to_nat (size r)) l) by (unfold entries; by rewrite Hc). rewrite He.
  set (kept := touch <$> filter (λ e, keep e = true) (take (Z.to_nat (size r)) l)) in *.
  split.
  - split; cbn; unfold id; lia.
  - unfold entries. cbn [size r']. change (contents r') with (x.1). rewrite <- H3. f_equal. lia.
Qed.

Lemma null_row r : row_ok r → buffer r = None → size r = 0 ∧ entries r = [].
Proof.
  intros [Hl Hs] Hb. unfold entries, contents in *. rewrite Hb in *. cbn in *. split; [lia|].
  by rewrite take_nil.
Qed.

(** ** Compaction *)

Definition compacted l : list (MutableNbr D) := set_timestamp 0 <$> filter (λ e, live e = true) l.

Lemma live_count_all l : Forall (λ e, live e = true) l → live_count l = Z.of_nat (length l).
Proof. intros Hf. unfold live_count. rewrite filter_all_in; [done|]. by rewrite Forall_forall in Hf. Qed.

Lemma live_compacted l : Forall (λ e, live e = true) (compacted l).
Proof. unfold compacted. apply Forall_fmap, Forall_true. done. Qed.

Lemma length_compacted l : Z.of_nat (length (compacted l)) = live_count l.
Proof. unfold compacted. by rewrite length_fmap. Qed.

Lemma live_count_compacted l : live_count (compacted l) = live_count l.
Proof. rewrite live_count_all by apply live_compacted. apply length_compacted. Qed.

Lemma compact_row_spec r :
  row_ok r → row_ok (compact_row r) ∧ entries (compact_row r) = compacted (entries r) ∧
             compacted_size (compact_row r) = live_count (entries r).
Proof.
  intros Hr. unfold compact_row. destruct (buffer r) as [l|] eqn:Hb.
  - pose proof (squeeze_row r l live (set_timestamp 0) Hr Hb) as [Hr' He].
    destruct (squeeze _ _ _ _ _ _ _) as [l' rm]. cbn [fst snd] in *. split_and!; [done|done|].
    rewrite <- length_compacted. change (compacted (entries r)) with (set_timestamp 0 <$> filter (λ e, live e = true) (entries r)).
    rewrite <- He, length_entries by done. done.
  - destruct (null_row r Hr Hb) as [Hs He]. rewrite He. split_and!; [done|done|]. unfold compacted_size. by rewrite Hb.
Qed.

Lemma zsum_fmap_eq {A B} (f : B → Z) (g : A → Z) (h : A → B) (ls : list A) :
  (∀ x, x ∈ ls → f (h x) = g x) → zsum f (h <$> ls) = zsum g ls.
Proof.
  induction ls as [|x ls IH]; intros Hf; [done|]. cbn. rewrite Hf by (by left). f_equal. apply IH. intros. apply Hf. by right.
Qed.

(** Compaction removes the dead entries of every list, makes the others
    visible to everyone, and its check of the counter passes. *)
Lemma compact_spec c :
  csr_ok c →
  let x := compact c in
  x.2 = Ok tt ∧ csr_ok x.1 ∧ lists x.1 = compacted <$> lists c ∧
  edge_num_ x.1 = edge_num_ c ∧ unsorted_since_ x.1 = unsorted_since_ c.
Proof.
  intros [Hf Hn] x. rewrite Forall_forall in Hf.
  assert (Hsz : zsum compacted_size (compact_row <$> rows c) = total c).
  { apply zsum_fmap_eq. intros r Hr. by apply compact_row_spec, Hf. }
  assert (Hls : lists x.1 = compacted <$> lists c).
  { unfold lists, x, compact. cbn [fst rows]. rewrite <- !list_fmap_compose. apply list_fmap_ext.
    intros i r Hr. apply compact_row_spec, Hf, list_elem_of_lookup. eauto. }
  assert (Htot : total x.1 = total c).
  { unfold total, x, compact. cbn [fst rows]. apply zsum_fmap_eq. intros r Hr.
    destruct (compact_row_spec r (Hf r Hr)) as (_ & -> & _). apply live_count_compacted. }
  split_and!; [|split|exact Hls|done|done].
  - unfold x, compact. cbn [snd]. rewrite Hsz, Hn, Z.eqb_refl. done.
  - unfold x, compact. cbn [fst rows]. apply Forall_fmap, Forall_forall. intros r Hr. by apply compact_row_spec, Hf.
  - rewrite Htot. exact Hn.
Qed.

(** ** Passes over the rows *)

(** A step on a row, with what it does to the list. *)
Definition row_step (f : nat → row D → Z → row D * Z) (g : nat → list (MutableNbr D) → list (MutableNbr D)) : Prop :=
  ∀ k r m, row_ok r →
    let x := f k r (u64 m) in
    row_ok x.1 ∧ entries x.1 = g k (entries r) ∧
    x.2 = u64 (m - live_count (entries r) + live_count (g k (entries r))).

Lemma sweep_spec f g k rs m :
  row_step f g → Forall row_ok rs →
  let x := sweep f k rs (u64 m) in
  Forall row_ok x.1 ∧ entries <$> x.1 = imap (λ i, g (k + i)%nat) (entries <$> rs) ∧
  x.2 = u64 (m - zsum (λ r, live_count (entries r)) rs + zsum (λ r, live_count (entries r)) x.1).
Proof.
  intros Hstep. revert k m. induction rs as [|r rs IH]; intros k m Hf; cbn [sweep].
  { split_and!; [constructor|done|cbn; f_equal; lia]. }
  apply Forall_cons in Hf as [Hr Hf]. pose proof (Hstep k r m Hr) as (H1 & H2 & H3).
  destruct (f k r (u64 m)) as [r' n']. cbn [fst snd] in *. subst n'.
  specialize (IH (S k) (m - live_count (entries r) + live_count (g k (entries r))) Hf).
  destruct (sweep f (S k) rs _) as [rs' n']. cbn [fst snd] in *. destruct IH as (I1 & I2 & I3).
  split_and!; [by constructor| |].
  - rewrite fmap_cons, fmap_cons, imap_cons, Nat.add_0_r, H2, I2. f_equal. apply imap_ext. intros i l _. cbn.
    f_equal. lia.
  - rewrite I3, !zsum_cons, H2. f_equal. lia.
Qed.

Lemma sweep_csr f g c :
  row_step f g → csr_ok c →
  let x := sweep f 0 (rows c) (edge_num_ c) in
  csr_ok (MkCsr x.1 0 x.2) ∧ lists (MkCsr x.1 0 x.2) = imap g (lists c).
Proof.
  intros Hs [Hf Hn]. rewrite Hn. pose proof (sweep_spec f g 0 (rows c) (total c) Hs Hf) as (H1 & H2 & H3).
  cbv zeta. split; [split; [exact H1|]|exact H2].
  cbn [edge_num_]. rewrite H3. unfold total. cbn [rows]. f_equal. lia.
Qed.

Lemma live_count_filter_split (keep : MutableNbr D → bool) l :
  live_count (filter (λ e, keep e = true) l) + live_count (filter (λ e, keep e = false) l) = live_count l.
Proof.
  induction l as [|e l IH]; [done|]. rewrite !filter_cons, live_count_cons.
  destruct (keep e); repeat (destruct (decide _); try done); rewrite live_count_cons; lia.
Qed.

Lemma drop_targets_step (dst_set : gset Z) :
  row_step (drop_targets dst_set) (λ _, filter (λ e, bool_decide (neighbor e ∉ dst_set) = true)).
Proof.
  intros k r m Hr. unfold drop_targets. destruct (Z.eqb_spec (size r) 0) as [E|E].
  { assert (He : entries r = []) by (unfold entries; by rewrite E). rewrite He. split_and!; [done|done|].
    cbn. f_equal. lia. }
  destruct (buffer r) as [l|] eqn:Hb; [|destruct (null_row r Hr Hb); lia].
  set (keep := λ e, bool_decide (neighbor e ∉ dst_set)).
  pose proof (squeeze_row r l keep id Hr Hb) as [Hr' He]. rewrite list_fmap_id in He.
  assert (Hent : entries r = take (Z.to_nat (size r)) l) by (unfold entries, contents; by rewrite Hb).
  rewrite <- Hent. destruct (squeeze _ _ _ _ _ _ _) as [l' rm]. cbn [fst snd] in *.
  split_and!; [done|done|]. rewrite uncount_spec. f_equal.
  pose proof (live_count_filter_split keep (entries r)). unfold keep in *. lia.
Qed.

Lemma mark_spec hit i l :
  length (mark hit i l) = length l ∧ live_count (mark hit i l) = live_count l - live_count (hits hit i l).
Proof.
  revert i. induction l as [|e l IH]; intros i; cbn [mark hits]; [done|]. destruct (IH (S i)) as [H1 H2].
  split; [cbn; lia|]. rewrite !live_count_cons, H2. destruct (hit i e); rewrite ?live_count_cons.
  - rewrite live_set_timestamp, Z.eqb_refl. cbn. lia.
  - lia.
Qed.

Lemma kill_step hit : row_step (kill hit) (λ k, mark (hit k) 0).
Proof.
  intros k r m Hr. unfold kill. destruct (buffer r) as [l|] eqn:Hb.
  - assert (Hc : contents r = l) by (unfold contents; by rewrite Hb).
    assert (Hent : entries r = take (Z.to_nat (size r)) l) by (unfold entries; by rewrite Hc). rewrite <- Hent.
    destruct (mark_spec (hit k) 0 (entries r)) as [H1 H2]. cbn [fst snd].
    assert (Hlen : length (entries r) = Z.to_nat (size r)) by (pose proof (length_entries r Hr); lia).
    destruct Hr as [Hl Hs]. rewrite Hc in Hl. split_and!.
    + split; cbn; unfold id; rewrite ?length_app, ?length_drop, ?H1, ?Hlen; lia.
    + unfold entries at 1. cbn [size]. rewrite <- Hlen, <- H1.
      change (contents (MkRow (Some ?a) _ _)) with a. apply take_app_length.
    + rewrite uncount_spec, H2. f_equal. lia.
  - destruct (null_row r Hr Hb) as [Hs He]. cbn [fst snd]. rewrite He. split_and!; [done|done|]. cbn. f_equal. lia.
Qed.

(** ** Deleting vertices *)

Lemma clear_source_spec c src :
  csr_ok c → csr_ok (clear_source c src) ∧
  lists (clear_source c src) = imap (λ i l, if decide (Z.of_nat i = src) then [] else l) (lists c) ∧
  unsorted_since_ (clear_source c src) = unsorted_since_ c.
Proof.
  intros Hok. unfold clear_source. destruct (row_at c src) as [r|] eqn:Hr.
  - pose proof (row_at_ok c src r (proj1 Hok) Hr) as [Hl Hs].
    set (r' := MkRow (buffer r) 0 (cap r)).
    assert (He : entries r' = []) by done.
    assert (Hr' : row_ok r') by (split; [exact Hl|cbn; lia]).
    destruct (csr_ok_row c src r r' (uncount (entries r) (edge_num_ c)) (unsorted_since_ c) Hok Hr Hr') as [H1 H2].
    { rewrite He, live_count_nil, (proj2 Hok), uncount_spec, u64_add_l. by f_equal. }
    split_and!; [exact H1| |done]. rewrite He in H2. etrans; [exact H2|].
    apply row_at_Some in Hr as [Hv Hr]. apply list_eq. intros i. rewrite list_lookup_imap.
    destruct (decide (i = Z.to_nat src)) as [->|Hne].
    + assert (Hlt : (Z.to_nat src < length (lists c))%nat).
      { unfold lists. rewrite length_fmap. by apply lookup_lt_Some in Hr. }
      rewrite list_lookup_insert_eq by done. destruct (lookup_lt_is_Some_2 _ _ Hlt) as [l ->]. cbn.
      by rewrite decide_True by lia.
    + rewrite list_lookup_insert_ne by done. destruct (lists c !! i); [|done]. cbn. by rewrite decide_False by lia.
  - split_and!; [done| |done]. apply list_eq. intros i. rewrite list_lookup_imap.
    destruct (lists c !! i) as [l|] eqn:Hl; [|done]. cbn. rewrite decide_False; [done|]. intros <-.
    unfold row_at in Hr. rewrite (proj2 (Z.leb_le _ _)), Nat2Z.id in Hr by lia.
    unfold lists in Hl. rewrite list_lookup_fmap, Hr in Hl. done.
Qed.

Lemma clear_sources_spec c (srcs : list Z) :
  csr_ok c → csr_ok (foldl clear_source c srcs) ∧
  lists (foldl clear_source c srcs) = imap (λ i l, if decide (Z.of_nat i ∈ srcs) then [] else l) (lists c).
Proof.
  revert c. induction srcs as [|src srcs IH]; intros c Hok; cbn [foldl].
  - split; [done|]. apply list_eq. intros i. rewrite list_lookup_imap. destruct (lists c !! i); [|done]. cbn.
    rewrite decide_False; [done|]. by intros ?%elem_of_nil.
  - destruct (clear_source_spec c src Hok) as (H1 & H2 & _). destruct (IH _ H1) as [H3 H4]. split; [done|].
    rewrite H4, H2. apply list_eq. intros i. rewrite !list_lookup_imap. destruct (lists c !! i) as [l|]; [|done]. cbn.
    f_equal. destruct (decide (Z.of_nat i = src)), (decide (Z.of_nat i ∈ srcs)), (decide (Z.of_nat i ∈ src :: srcs));
      set_solver.
Qed.

Definition without_vertices (src_set dst_set : gset Z) (i : nat) l : list (MutableNbr D) :=
  if decide (Z.of_nat i ∈ src_set) then [] else filter (λ e, neighbor e ∉ dst_set) l.

Lemma batch_delete_vertices_spec c src_set dst_set :
  csr_ok c →
  let c' := batch_delete_vertices src_set dst_set c in
  csr_ok c' ∧ lists c' = imap (without_vertices src_set dst_set) (lists c) ∧ unsorted_since_ c' = 0.
Proof.
  intros Hok. unfold batch_delete_vertices.
  destruct (clear_sources_spec c (elements src_set) Hok) as [H1 H2].
  set (c1 := foldl clear_source c _) in *.
  destruct (sweep_csr _ _ c1 (drop_targets_step dst_set) H1) as [H3 H4].
  destruct (sweep _ _ _ _) as [rs n]. cbn [fst snd] in *. split_and!; [done| |done].
  rewrite H4, H2. apply list_eq. intros i. rewrite !list_lookup_imap. destruct (lists c !! i) as [l|]; [|done].
  cbn. unfold without_vertices. f_equal.
  assert (Hf : ∀ l, filter (λ e, bool_decide (neighbor e ∉ dst_set) = true) l = filter (λ e, neighbor e ∉ dst_set) l).
  { intros l'. apply filter_ext_in. intros e _. by rewrite bool_decide_eq_true. }
  rewrite Hf. destruct (decide (Z.of_nat i ∈ elements src_set)), (decide (Z.of_nat i ∈ src_set));
    rewrite ?elem_of_elements in *; done.
Qed.

(** ** Deleting edges *)

Definition named_edge (pairs : list (Z * Z)) (k i : nat) e : bool :=
  bool_decide ((Z.of_nat k, neighbor e) ∈ pairs).
Definition named_slot (pairs : list (Z * Z)) (k i : nat) e : bool :=
  bool_decide ((Z.of_nat k, Z.of_nat i) ∈ pairs).

Lemma mark_ext h h' i l :
  (∀ j e, l !! j = Some e → h (i + j)%nat e = h' (i + j)%nat e) → mark h i l = mark h' i l.
Proof.
  revert i. induction l as [|e l IH]; intros i Hh; [done|]. cbn [mark].
  pose proof (Hh O e eq_refl) as H0. rewrite Nat.add_0_r in H0. rewrite H0. f_equal. apply IH.
  intros j e' Hj. specialize (Hh (S j) e' Hj). by replace (S i + j)%nat with (i + S j)%nat by lia.
Qed.

Lemma length_lists c : Z.of_nat (length (lists c)) = vertex_capacity c.
Proof. unfold lists, vertex_capacity. by rewrite length_fmap. Qed.

Lemma batch_delete_edges_spec c srcs dsts :
  csr_ok c →
  let c' := batch_delete_edges srcs dsts c in
  csr_ok c' ∧ lists c' = imap (λ k, mark (named_edge (zip srcs dsts) k) 0) (lists c) ∧ unsorted_since_ c' = 0.
Proof.
  intros Hok. unfold batch_delete_edges. destruct (sweep_csr _ _ c (kill_step (λ src i e,
    bool_decide ((Z.of_nat src, neighbor e) ∈ filter (λ p, p.1 < vertex_capacity c) (zip srcs dsts)))) Hok) as [H1 H2].
  destruct (sweep _ _ _ _) as [rs n]. cbn [fst snd] in *. split_and!; [done| |done].
  rewrite H2. apply imap_ext. intros k l Hk. apply mark_ext. intros j e _. unfold named_edge.
  apply bool_decide_ext. rewrite list_elem_of_filter. cbn. apply lookup_lt_Some in Hk. pose proof (length_lists c). split; [tauto|].
  split; [lia|done].
Qed.

Lemma batch_delete_edges_offsets_spec c edges :
  csr_ok c → Forall (λ p, 0 ≤ p.2) edges →
  let x := batch_delete_edges_offsets edges c in
  x.2 = Ok tt ∧ csr_ok x.1 ∧ lists x.1 = imap (λ k, mark (named_slot edges k) 0) (lists c) ∧ unsorted_since_ x.1 = 0.
Proof.
  intros Hok Hpos. unfold batch_delete_edges_offsets.
  set (es := filter (λ p, offset_in_range c p = true) edges).
  assert (Hall : forallb (λ p, 0 <=? p.2) es = true).
  { apply forallb_forall. intros p Hp. apply list_elem_of_In, list_elem_of_filter in Hp as [_ Hp].
    rewrite Forall_forall in Hpos. by apply Z.leb_le, Hpos. }
  rewrite Hall.
  destruct (sweep_csr _ _ c (kill_step (λ src i e, bool_decide ((Z.of_nat src, Z.of_nat i) ∈ es))) Hok) as [H1 H2].
  destruct (sweep _ _ _ _) as [rs n]. cbn [fst snd] in *. split_and!; [done|done| |done].
  rewrite H2. apply imap_ext. intros k l Hk. apply mark_ext. intros j e Hj. unfold named_slot.
  apply bool_decide_ext. unfold es. rewrite list_elem_of_filter. split; [tauto|]. intros Hin. split; [|done].
  unfold lists in Hk. rewrite list_lookup_fmap in Hk. destruct (rows c !! k) as [r|] eqn:Hr; [|done]. cbn in Hk.
  injection Hk as <-. assert (Hro : row_ok r) by (destruct Hok as [Hf _]; by eapply Forall_lookup_1).
  unfold offset_in_range, row_at. cbn [fst snd]. rewrite (proj2 (Z.leb_le _ _)), Nat2Z.id, Hr by lia.
  apply Z.ltb_lt. rewrite <- (length_entries r Hro). apply lookup_lt_Some in Hj. lia.
Qed.

(** ** Adding a batch *)

Definition degree_in (edges : list (Z * Z * D)) (i : nat) : Z :=
  Z.of_nat (length (filter (λ p, p.1.1 = Z.of_nat i) edges)).
Definition new_entries (ts : Z) (edges : list (Z * Z * D)) (i : nat) : list (MutableNbr D) :=
  (λ p, MkNbr p.1.2 ts p.2) <$> filter (λ p, p.1.1 = Z.of_nat i) edges.

Lemma zsum_lists (rs : list (row D)) : zsum (λ r, live_count (entries r)) rs = zsum live_count (entries <$> rs).
Proof. induction rs as [|r rs IH]; [done|]. rewrite fmap_cons, !zsum_cons. by rewrite IH. Qed.

Lemma append_step ts rs added src dst d :
  Forall row_ok rs → ts ≠ INVALID_TIMESTAMP →
  (∀ r, rs !! Z.to_nat src = Some r → 0 ≤ src → size r < cap r) →
  ∃ rs' a, append_edge ts (rs, added, Ok tt) (src, dst, d) = (rs', added + a, Ok tt) ∧ Forall row_ok rs' ∧
    zsum live_count (entries <$> rs') = zsum live_count (entries <$> rs) + a ∧
    entries <$> rs' = imap (λ i l, l ++ new_entries ts [(src, dst, d)] i) (entries <$> rs) ∧
    (∀ i r', rs' !! i = Some r' → ∃ r, rs !! i = Some r ∧ cap r' = cap r ∧ size r' = size r + degree_in [(src, dst, d)] i).
Proof.
  intros Hf Hts Hroom. cbn [append_edge].
  assert (Hother : ∀ i, Z.of_nat i ≠ src → new_entries ts [(src, dst, d)] i = [] ∧ degree_in [(src, dst, d)] i = 0).
  { intros i Hi. unfold new_entries, degree_in. rewrite filter_cons_False by (cbn; congruence). done. }
  assert (Hno : (∀ i, (i < length rs)%nat → Z.of_nat i ≠ src) →
    ∃ rs' a, (rs, added, Ok tt) = (rs', added + a, Ok tt) ∧ Forall row_ok rs' ∧
    zsum live_count (entries <$> rs') = zsum live_count (entries <$> rs) + a ∧
    entries <$> rs' = imap (λ i l, l ++ new_entries ts [(src, dst, d)] i) (entries <$> rs) ∧
    (∀ i r', rs' !! i = Some r' → ∃ r, rs !! i = Some r ∧ cap r' = cap r ∧ size r' = size r + degree_in [(src, dst, d)] i)).
  { intros Hn. exists rs, 0. split_and!; [by rewrite Z.add_0_r|done|lia| |].
    - apply list_eq. intros i. rewrite list_lookup_imap. destruct ((entries <$> rs) !! i) eqn:E; [|done]. cbn [fmap option_fmap option_map].
      apply lookup_lt_Some in E. rewrite length_fmap in E. destruct (Hother i (Hn i E)) as [-> _]. by rewrite app_nil_r.
    - intros i r' Hr. exists r'. split_and!; [done|done|]. destruct (Hother i) as [_ ->]; [|lia].
      apply Hn. by apply lookup_lt_Some in Hr. }
  destruct (Z.leb_spec 0 src) as [Hpos|Hneg]; [|apply Hno; intros; lia].
  destruct (rs !! Z.to_nat src) as [r|] eqn:Hr.
  2:{ apply Hno. intros i Hi <-. rewrite Nat2Z.id in Hr. apply lookup_ge_None in Hr. lia. }
  assert (Hro : row_ok r) by (by eapply Forall_lookup_1). pose proof Hro as [Hl Hs].
  specialize (Hroom r eq_refl Hpos).
  destruct (buffer r) as [l|] eqn:Hb; [|destruct (null_row r Hro Hb); unfold contents in Hl; rewrite Hb in Hl; cbn in Hl; lia].
  assert (Hc : contents r = l) by (unfold contents; by rewrite Hb). rewrite Hc in *.
  destruct (lookup_lt_is_Some_2 l (Z.to_nat (size r))) as [old ->]; [lia|].
  set (r' := MkRow (Some (<[Z.to_nat (size r) := MkNbr dst ts d]> l)) (size r + 1) (cap r)).
  assert (Hent : entries r' = entries r ++ [MkNbr dst ts d]).
  { unfold entries. rewrite Hc. cbn [size r']. change (contents r') with (<[Z.to_nat (size r) := MkNbr dst ts d]> l).
    replace (Z.to_nat (size r + 1)) with (S (Z.to_nat (size r))) by lia.
    rewrite (take_S_r _ _ (MkNbr dst ts d)) by (apply list_lookup_insert_eq; lia). by rewrite take_insert_ge by lia. }
  assert (Hro' : row_ok r').
  { split; cbn; unfold id; rewrite ?length_insert; lia. }
  assert (Hhit : new_entries ts [(src, dst, d)] (Z.to_nat src) = [MkNbr dst ts d] ∧ degree_in [(src, dst, d)] (Z.to_nat src) = 1).
  { unfold new_entries, degree_in. rewrite filter_cons_True by (cbn; lia). done. }
  exists (<[Z.to_nat src := r']> rs), 1. split_and!; [done|by apply Forall_insert| | |].
  - rewrite <- !zsum_lists. destruct (pool_split _ _ _ Hr) as (rest & Hz & Hz' & _).
    rewrite Hz', (Hz (λ r, live_count (entries r))), Hent, live_count_app, live_count_cons, live_count_nil.
    unfold live. cbn [timestamp]. rewrite (proj2 (Z.eqb_neq _ _)) by done. cbn. lia.
  - apply list_eq. intros i. rewrite list_lookup_imap, !list_lookup_fmap. destruct (decide (i = Z.to_nat src)) as [->|Hne].
    + rewrite list_lookup_insert_eq by (by apply lookup_lt_Some in Hr). rewrite Hr. cbn [fmap option_fmap option_map]. destruct Hhit as [-> _]. by rewrite Hent.
    + rewrite list_lookup_insert_ne by done. destruct (rs !! i); [|done]. cbn [fmap option_fmap option_map].
      destruct (Hother i) as [-> _]; [lia|]. by rewrite app_nil_r.
  - intros i x Hx. destruct (decide (i = Z.to_nat src)) as [->|Hne].
    + rewrite list_lookup_insert_eq in Hx by (by apply lookup_lt_Some in Hr). injection Hx as <-. exists r.
      destruct Hhit as [_ ->]. done.
    + rewrite list_lookup_insert_ne in Hx by done. exists x. destruct (Hother i) as [_ ->]; [lia|]. split_and!; [done|done|lia].
Qed.

Lemma degree_in_cons p edges i : degree_in (p :: edges) i = degree_in [p] i + degree_in edges i.
Proof. unfold degree_in. rewrite !filter_cons. destruct (decide _); cbn [length filter list_filter]; cbn; lia. Qed.
Lemma new_entries_cons ts p edges i : new_entries ts (p :: edges) i = new_entries ts [p] i ++ new_entries ts edges i.
Proof. unfold new_entries. rewrite !filter_cons. by destruct (decide _). Qed.

Lemma append_all ts edges rs added :
  Forall row_ok rs → ts ≠ INVALID_TIMESTAMP →
  (∀ i r, rs !! i = Some r → size r + degree_in edges i ≤ cap r) →
  ∃ rs' a, foldl (append_edge ts) (rs, added, Ok tt) edges = (rs', added + a, Ok tt) ∧ Forall row_ok rs' ∧
    zsum live_count (entries <$> rs') = zsum live_count (entries <$> rs) + a ∧
    entries <$> rs' = imap (λ i l, l ++ new_entries ts edges i) (entries <$> rs).
Proof.
  revert rs added. induction edges as [|[[src dst] d] edges IH]; intros rs added Hf Hts Hroom; cbn [foldl].
  - exists rs, 0. split_and!; [by rewrite Z.add_0_r|done|lia|]. apply list_eq. intros i. rewrite list_lookup_imap.
    destruct ((entries <$> rs) !! i); [|done]. cbn. by rewrite app_nil_r.
  - assert (Hd : ∀ i, 0 ≤ degree_in edges i) by (intros; unfold degree_in; lia).
    destruct (append_step ts rs added src dst d Hf Hts) as (rs1 & a1 & -> & Hf1 & Hz1 & Hl1 & Hroom1).
    { intros r Hr Hpos. specialize (Hroom _ _ Hr). rewrite degree_in_cons in Hroom. specialize (Hd (Z.to_nat src)).
      assert (degree_in [(src, dst, d)] (Z.to_nat src) = 1); [|lia].
      unfold degree_in. by rewrite filter_cons_True by (cbn; lia). }
    destruct (IH rs1 (added + a1) Hf1 Hts) as (rs2 & a2 & -> & Hf2 & Hz2 & Hl2).
    { intros i r' Hr'. destruct (Hroom1 i r' Hr') as (r & Hr & -> & ->). specialize (Hroom _ _ Hr).
      rewrite degree_in_cons in Hroom. lia. }
    exists rs2, (a1 + a2). split_and!; [do 2 f_equal; lia|done|lia|].
    rewrite Hl2, Hl1. apply list_eq. intros i. rewrite !list_lookup_imap. destruct ((entries <$> rs) !! i); [|done].
    cbn [option_fmap fmap option_map]. by rewrite (new_entries_cons ts (src, dst, d) edges), app_assoc.
Qed.

Lemma reserve_row_spec null_base extra r :
  row_ok r → 0 ≤ extra → extra + size r ≤ max_reservable →
  (null_base = true → default 0 (reserve_capacity (extra + size r)) = 0) →
  let r' := reserve_row junk null_base extra r in
  row_ok r' ∧ entries r' = entries r ∧ size r' + extra ≤ cap r'.
Proof.
  intros Hr Hx Hmax Hn. pose proof (length_entries r Hr) as He. destruct Hr as [Hl Hs].
  destruct (reserve_capacity_spec (extra + size r) ltac:(lia)) as (cap' & Hcap & Hc). unfold reserve_row.
  rewrite Hcap in *. cbn [default] in *. unfold id in *. destruct null_base.
  - specialize (Hn eq_refl). assert (Hz : size r = 0) by lia.
    split_and!; [split; cbn; lia|unfold entries; cbn [size]; by rewrite Hz|cbn; lia].
  - set (l' := entries r ++ replicate (Z.to_nat (cap' - size r)) junk).
    assert (Hl' : Z.of_nat (length l') = cap') by (unfold l'; rewrite length_app, length_replicate; lia).
    split_and!; [split; [exact Hl'|cbn; lia]| |cbn; lia].
    unfold entries at 1. cbn [size]. change (contents (MkRow (Some l') (size r) cap')) with l'. unfold l'.
    rewrite <- He, Nat2Z.id. apply take_app_length.
Qed.

(** Every list with the new edges of its vertex can be reserved. *)
Definition reservable c (edges : list (Z * Z * D)) : Prop :=
  ∀ i l, lists c !! i = Some l → degree_in edges i + Z.of_nat (length l) ≤ max_reservable.

Lemma batch_put_edges_spec c null_base edges ts :
  csr_ok c → ts ≠ INVALID_TIMESTAMP → reservable c edges →
  let x := batch_put_edges junk null_base edges ts c in
  x.2 = Ok tt ∧ csr_ok x.1 ∧ lists x.1 = imap (λ i l, l ++ new_entries ts edges i) (lists c) ∧
  (lists c ≠ [] → unsorted_since_ x.1 = if ts <? unsorted_since_ c then 0 else unsorted_since_ c) ∧
  (lists c = [] → unsorted_since_ x.1 = unsorted_since_ c).
Proof.
  intros Hok Hts Hres x. pose proof Hok as [Hf Hn].
  assert (Hmax : ∀ i r, rows c !! i = Some r → 0 ≤ degree_in edges i + size r ≤ max_reservable).
  { intros i r Hr. assert (Hro : row_ok r) by (by eapply Forall_lookup_1). pose proof (length_entries r Hro) as Hle.
    specialize (Hres i (entries r)). unfold lists in Hres. rewrite list_lookup_fmap, Hr in Hres.
    specialize (Hres eq_refl). destruct Hro as [_ Hs]. unfold degree_in in *. lia. }
  destruct (Z.eqb_spec (vertex_capacity c) 0) as [E|E].
  { assert (Hnil : lists c = []) by (apply length_zero_iff_nil; pose proof (length_lists c); lia).
    unfold x, batch_put_edges. rewrite E. cbn [Z.eqb fst snd]. rewrite Hnil. by split_and!. }
  set (tot := zsum cap (imap (λ i r, reserve_row junk false (degree_in edges i) r) (rows c))) in *.
  set (nb := null_base && (tot =? 0)) in *.
  set (rs := imap (λ i r, reserve_row junk nb (degree_in edges i) r) (rows c)) in *.
  assert (Hdeg : ∀ i, 0 ≤ degree_in edges i) by (intros; unfold degree_in; lia).
  assert (Hnb : ∀ i r, rows c !! i = Some r → nb = true → default 0 (reserve_capacity (degree_in edges i + size r)) = 0).
  { intros i r Hr [_ Htot%Z.eqb_eq]%andb_true_iff.
    assert (Hcap : ∀ y, y ∈ imap (λ i r, reserve_row junk false (degree_in edges i) r) (rows c) → 0 ≤ cap y).
    { intros y [j Hj]%list_elem_of_lookup. rewrite list_lookup_imap in Hj. destruct (rows c !! j) as [q|] eqn:Hq; [|done].
      cbn in Hj. injection Hj as <-. assert (row_ok q) as [_ Hs] by (by eapply Forall_lookup_1).
      destruct (reserve_capacity_spec _ (Hmax j q Hq)) as (v & Hv & Hvb). specialize (Hmax j q Hq). cbn. rewrite Hv. cbn. lia. }
    assert (Hin : reserve_row junk false (degree_in edges i) r ∈ imap (λ i r, reserve_row junk false (degree_in edges i) r) (rows c)).
    { apply list_elem_of_lookup. exists i. by rewrite list_lookup_imap, Hr. }
    pose proof (zsum_elem_le cap _ _ Hcap Hin) as Hle. pose proof (Hcap _ Hin) as H0. fold tot in Hle. cbn in Hle, H0. lia. }
  assert (Hrow : ∀ i r', rs !! i = Some r' → ∃ r, rows c !! i = Some r ∧ row_ok r' ∧ entries r' = entries r ∧
    size r' + degree_in edges i ≤ cap r').
  { intros i r' Hr'. unfold rs in Hr'. rewrite list_lookup_imap in Hr'. destruct (rows c !! i) as [r|] eqn:Hr; [|done].
    cbn in Hr'. injection Hr' as <-. exists r. split; [done|].
    apply reserve_row_spec; [by eapply Forall_lookup_1|apply Hdeg|by apply (Hmax i r)|by apply Hnb]. }
  assert (Hls : entries <$> rs = lists c).
  { apply list_eq. intros i. unfold lists. rewrite !list_lookup_fmap. destruct (rs !! i) as [r'|] eqn:Hr'.
    - destruct (Hrow i r' Hr') as (r & -> & _ & He & _). cbn. by rewrite He.
    - unfold rs in Hr'. rewrite list_lookup_imap in Hr'. by destruct (rows c !! i). }
  destruct (append_all ts edges rs 0) as (rs' & a & Hfold & Hf' & Hz & Hl).
  { apply Forall_lookup. intros i r' Hr'. by destruct (Hrow i r' Hr') as (r & _ & ? & _). }
  { done. }
  { intros i r' Hr'. by destruct (Hrow i r' Hr') as (r & _ & _ & _ & ?). }
  rewrite Hls in Hl, Hz. assert (Hne : lists c ≠ []).
  { intros Hnil. pose proof (length_lists c) as Hlen. rewrite Hnil in Hlen. cbn in Hlen. lia. }
  set (cc := MkCsr rs' (unsorted_since_ c) (u64 (edge_num_ c + a))).
  assert (Hx : x = (if ts <? unsorted_since_ c then set_unsorted 0 cc else cc, Ok tt)).
  { assert (Hfit : forallb (λ n, bool_decide (is_Some (reserve_capacity n)))
      (imap (λ i r, degree_in edges i + size r) (rows c)) = true).
    { apply forallb_forall. intros n Hin%list_elem_of_In. apply list_elem_of_lookup in Hin as [i Hi].
      rewrite list_lookup_imap in Hi. destruct (rows c !! i) as [r|] eqn:Hr; [|done]. cbn in Hi. injection Hi as <-.
      destruct (reserve_capacity_spec _ (Hmax i r Hr)) as (v & -> & _). apply bool_decide_eq_true. by eexists. }
    unfold x, batch_put_edges. rewrite (proj2 (Z.eqb_neq _ _)) by done. cbv zeta.
    unfold degree_in in Hfit. rewrite Hfit. cbn [negb]. unfold rs, nb, tot, degree_in in Hfold. rewrite Hfold. done. }
  assert (Hcc : csr_ok cc).
  { split; [exact Hf'|]. cbn [edge_num_ cc]. rewrite Hn, u64_add_l. unfold total. cbn [rows cc].
    rewrite !zsum_lists, Hz. done. }
  rewrite Hx. cbn [fst snd].
  destruct (ts <? unsorted_since_ c); (split_and!; [done|exact Hcc|exact Hl|done|done]).
Qed.

(** ** Resizing and detaching *)

Lemma resize_grow c n :
  csr_ok c → vertex_capacity c ≤ n →
  csr_ok (resize n c) ∧ lists (resize n c) = lists c ++ replicate (Z.to_nat (n - vertex_capacity c)) [] ∧
  unsorted_since_ (resize n c) = unsorted_since_ c.
Proof.
  intros [Hf Hn] Hle. unfold resize. destruct (Z.ltb_spec (vertex_capacity c) n) as [Hlt|Hge].
  - set (k := Z.to_nat (n - vertex_capacity c)). split_and!; [|unfold lists; cbn [rows]; by rewrite fmap_app, fmap_replicate|done].
    split; cbn [rows edge_num_].
    + apply Forall_app. split; [done|]. apply Forall_replicate. split; cbn; lia.
    + rewrite Hn. f_equal. unfold total. cbn [rows]. rewrite zsum_app.
      rewrite (zsum_zero _ (replicate _ _)); [lia|]. intros r [-> _]%elem_of_replicate. done.
  - assert (n = vertex_capacity c) as -> by lia. rewrite Z.sub_diag. cbn [replicate Z.to_nat]. rewrite app_nil_r.
    replace (take (Z.to_nat (vertex_capacity c)) (rows c)) with (rows c); [by destruct c|].
    symmetry. apply take_ge. unfold vertex_capacity. lia.
Qed.

Lemma detach_spec c v r :
  csr_ok c → row_at c v = Some r →
  let x := DetachVertex junk v c in
  x.2 = Ok tt ∧ csr_ok x.1 ∧ lists x.1 = lists c ∧ unsorted_since_ x.1 = unsorted_since_ c.
Proof.
  intros Hok Hr. pose proof (row_at_ok c v r (proj1 Hok) Hr) as Hro. unfold DetachVertex. rewrite Hr.
  destruct (Z.eqb_spec (cap r) 0); [by split_and!|]. pose proof (length_entries r Hro) as He. destruct Hro as [Hl Hs].
  set (l' := entries r ++ replicate (Z.to_nat (cap r - size r)) junk). set (r' := MkRow (Some l') (size r) (cap r)).
  assert (Hr' : row_ok r').
  { split; [|done]. change (contents r') with l'. unfold l'. rewrite length_app, length_replicate. cbn. lia. }
  assert (Hent : entries r' = entries r).
  { unfold entries at 1. cbn [size r']. change (contents r') with l'. unfold l'. rewrite <- He, Nat2Z.id. apply take_app_length. }
  destruct (csr_ok_row c v r r' (edge_num_ c) (unsorted_since_ c) Hok Hr Hr') as [H1 H2].
  { rewrite Hent, Z.sub_diag, Z.add_0_r. destruct Hok as [_ ->]. symmetry. apply u64_id, u64_range. }
  cbn [fst snd]. split_and!; [done|exact H1| |done]. etrans; [exact H2|]. rewrite Hent.
  apply list_insert_id. by apply lists_row.
Qed.
End spec.
