(* ===== verification/MutableCsrProperties.v ===== *)
(** * Properties of MutableCsr

    Sequences of operations on a table against their description on plain
    lists, the counter of edges, the scans by edge data, and an update that
    the scans do not survive. *)

From stdpp Require Import gmap sorting.
From S2P Require Import Prelude CsrView MutableCsr MutableCsrSpec.
Import MutableCsr.

(** The operations of a table, as the layers above call them. *)
Inductive csr_op (D : Type) :=
  | CPut (src dst : Z) (d : D) (ts : Z)
  | CDelete (src offset ts : Z)
  | CRevert (src nbr offset ts : Z)
  | CUpdate (src offset : Z) (d : D) (ts : Z)
  | CBatchPut (null_base : bool) (edges : list (Z * Z * D)) (ts : Z)
  | CDeleteVertices (src_set dst_set : gset Z)
  | CDeleteEdges (src_list dst_list : list Z)
  | CDeleteSlots (edges : list (Z * Z))
  | CCompact
  | CResize (vnum : Z)
  | CDetach (vid : Z).
Arguments CPut {D}. Arguments CDelete {D}. Arguments CRevert {D}. Arguments CUpdate {D}. Arguments CBatchPut {D}.
Arguments CDeleteVertices {D}. Arguments CDeleteEdges {D}. Arguments CDeleteSlots {D}.
Arguments CCompact {D}. Arguments CResize {D}. Arguments CDetach {D}.

(** The abstract table: a list of edges per vertex, and the timestamp from
    which entries are not sorted. *)
Record graph (D : Type) := MkGraph { adj : list (list (MutableNbr D)); unsorted : Z }.
Arguments MkGraph {D}. Arguments adj {D}. Arguments unsorted {D}.

Section runs.
Context {D : Type} `{EdgeData D} (junk : MutableNbr D).
(** [std::sort]: a permutation of its argument in which no entry is smaller
    than an earlier one. *)
Context (std_sort : list (MutableNbr D) → list (MutableNbr D)).
Hypothesis sort_perm : ∀ l, std_sort l ≡ₚ l.
Hypothesis sort_sorted : ∀ l, sorted_data (std_sort l).
Context (sort_key : bool).
Implicit Types (c : csr D) (g : graph D) (l : list (MutableNbr D)).

Definition no_result (x : csr D * res unit) : csr D * res Z :=
  (x.1, match x.2 with Ok _ => Ok 0 | Throw e => Throw e end).
Definition csr_step (o : csr_op D) c : csr D * res Z :=
  match o with
  | CPut src dst d ts => put_edge junk src dst d ts c
  | CDelete src offset ts => no_result (delete_edge src offset ts c)
  | CRevert src nbr offset ts => no_result (revert_delete_edge src nbr offset ts c)
  | CUpdate src offset d ts => no_result (UpdateEdgeProperty src offset d ts c)
  | CBatchPut null_base edges ts => no_result (batch_put_edges junk null_base edges ts c)
  | CDeleteVertices srcs dsts => (batch_delete_vertices srcs dsts c, Ok 0)
  | CDeleteEdges srcs dsts => (batch_delete_edges srcs dsts c, Ok 0)
  | CDeleteSlots es => no_result (batch_delete_edges_offsets es c)
  | CCompact => no_result (EdgeTable_Compact std_sort sort_key c)
  | CResize n => (resize n c, Ok 0)
  | CDetach v => no_result (DetachVertex junk v c)
  end.

(** ** The description *)

Definition after_put (ts u : Z) : Z := if ts <? u then 0 else u.

Definition graph_step (o : csr_op D) g : graph D * res Z :=
  match o with
  | CPut src dst d ts =>
      match adj g !! Z.to_nat src with
      | Some l => (MkGraph (<[Z.to_nat src := l ++ [MkNbr dst ts d]]> (adj g)) (after_put ts (unsorted g)),
                   Ok (Z.of_nat (length l)))
      | None => (g, Throw InvalidArgument)
      end
  | CDelete src offset ts =>
      match adj g !! Z.to_nat src ≫= (λ l, (l,.) <$> l !! Z.to_nat offset) with
      | Some (l, e) =>
          (if timestamp e <=? ts
           then MkGraph (<[Z.to_nat src := <[Z.to_nat offset := set_timestamp INVALID_TIMESTAMP e]> l]> (adj g)) 0
           else g, Ok 0)
      | None => (g, Throw InvalidArgument)
      end
  | CRevert src nbr offset ts =>
      match adj g !! Z.to_nat src ≫= (λ l, (l,.) <$> l !! Z.to_nat offset) with
      | Some (l, e) =>
          if (neighbor e =? nbr) && (timestamp e =? INVALID_TIMESTAMP)
          then (MkGraph (<[Z.to_nat src := <[Z.to_nat offset := set_timestamp ts e]> l]> (adj g)) (unsorted g), Ok 0)
          else (g, Throw InvalidArgument)
      | None => (g, Throw InvalidArgument)
      end
  | CUpdate src offset d ts =>
      match adj g !! Z.to_nat src ≫= (λ l, if 0 <=? offset then (l,.) <$> l !! Z.to_nat offset else None) with
      | Some (l, e) =>
          if timestamp e <=? ts
          then (MkGraph (<[Z.to_nat src := <[Z.to_nat offset := MkNbr (neighbor e) ts d]> l]> (adj g)) (unsorted g), Ok 0)
          else (g, Throw InvalidArgument)
      | None => (g, Throw InvalidArgument)
      end
  | CBatchPut _ edges ts =>
      (MkGraph (imap (λ i l, l ++ new_entries ts edges i) (adj g))
         (if decide (adj g = []) then unsorted g else after_put ts (unsorted g)), Ok 0)
  | CDeleteVertices srcs dsts => (MkGraph (imap (without_vertices srcs dsts) (adj g)) 0, Ok 0)
  | CDeleteEdges srcs dsts => (MkGraph (imap (λ k, mark (named_edge (zip srcs dsts) k) 0) (adj g)) 0, Ok 0)
  | CDeleteSlots es => (MkGraph (imap (λ k, mark (named_slot es k) 0) (adj g)) 0, Ok 0)
  | CCompact =>
      (MkGraph ((λ l, (if sort_key then std_sort else id) (compacted l)) <$> adj g)
         (if sort_key then 1 else unsorted g), Ok 0)
  | CResize n => (MkGraph (adj g ++ replicate (Z.to_nat n - length (adj g)) []) (unsorted g), Ok 0)
  | CDetach v =>
      (g, match adj g !! Z.to_nat v with Some _ => Ok 0 | None => Throw InvalidArgument end)
  end.

(** The runs described: vertex numbers and slots are not negative (a vertex or slot
    above the range is an error of the operation), the vertex of an update is in
    range, a list has below 2^30 entries before an insert and at most
    [max_reservable] after a batch, timestamps are not the mark of deletion, and a
    resize does not shrink the table. *)
Definition ts_ok (ts : Z) : Prop := 0 ≤ ts < INVALID_TIMESTAMP.
Definition in_range g (src : Z) : Prop := 0 ≤ src < Z.of_nat (length (adj g)).
Definition op_ok g (o : csr_op D) : Prop :=
  match o with
  | CPut src dst d ts => 0 ≤ src ∧ ts_ok ts ∧
      Z.of_nat (length (default [] (adj g !! Z.to_nat src))) < 2^30
  | CDelete src offset ts | CRevert src _ offset ts => 0 ≤ src ∧ ts_ok ts ∧ 0 ≤ offset
  | CUpdate src _ _ ts => in_range g src ∧ ts_ok ts
  | CBatchPut _ edges ts => ts_ok ts ∧
      ∀ i l, adj g !! i = Some l → degree_in edges i + Z.of_nat (length l) ≤ max_reservable
  | CDeleteSlots es => Forall (λ p, 0 ≤ p.2) es
  | CResize n => Z.of_nat (length (adj g)) ≤ n
  | CDetach v => 0 ≤ v
  | _ => True
  end.

Fixpoint csr_run (os : list (csr_op D)) c : csr D * list (res Z) :=
  match os with
  | [] => (c, [])
  | o :: os => let x := csr_step o c in let y := csr_run os x.1 in (y.1, x.2 :: y.2)
  end.
Fixpoint graph_run (os : list (csr_op D)) g : graph D * list (res Z) :=
  match os with
  | [] => (g, [])
  | o :: os => let x := graph_step o g in let y := graph_run os x.1 in (y.1, x.2 :: y.2)
  end.
Fixpoint ops_ok g (os : list (csr_op D)) : Prop :=
  match os with
  | [] => True
  | o :: os => op_ok g o ∧ ops_ok (graph_step o g).1 os
  end.

Definition graph_of c : graph D := MkGraph (lists c) (unsorted_since_ c).

(** ** One step *)

Lemma graph_of_eq c g : lists c = adj g → unsorted_since_ c = unsorted g → graph_of c = g.
Proof. destruct g. unfold graph_of. cbn. by intros -> ->. Qed.

Lemma in_range_row c src :
  csr_ok c → in_range (graph_of c) src →
  ∃ r, row_at c src = Some r ∧ adj (graph_of c) !! Z.to_nat src = Some (entries r) ∧
       Z.of_nat (length (entries r)) = size r.
Proof.
  intros Hok [Hlo Hhi]. cbn in Hhi. unfold lists in Hhi. rewrite length_fmap in Hhi.
  destruct (lookup_lt_is_Some_2 (rows c) (Z.to_nat src)) as [r Hr]; [lia|].
  assert (Hra : row_at c src = Some r) by (unfold row_at; by rewrite (proj2 (Z.leb_le _ _))).
  exists r. split_and!; [done|by apply lists_row|]. apply length_entries. by apply (row_at_ok c src r (proj1 Hok)).
Qed.

Lemma row_or_not c src :
  csr_ok c → 0 ≤ src →
  (∃ r, row_at c src = Some r ∧ adj (graph_of c) !! Z.to_nat src = Some (entries r) ∧
        Z.of_nat (length (entries r)) = size r) ∨
  row_at c src = None ∧ adj (graph_of c) !! Z.to_nat src = None.
Proof.
  intros Hok Hs. destruct (decide (src < Z.of_nat (length (adj (graph_of c))))) as [Hlt|Hge].
  - left. by apply in_range_row.
  - right. cbn in *. unfold row_at. rewrite (proj2 (Z.leb_le _ _)) by done. unfold lists in *.
    rewrite list_lookup_fmap. rewrite length_fmap in Hge. by rewrite lookup_ge_None_2 by lia.
Qed.

Lemma sort_row_spec c :
  csr_ok c →
  csr_ok (batch_sort_by_edge_data std_sort 1 c) ∧
  lists (batch_sort_by_edge_data std_sort 1 c) = std_sort <$> lists c.
Proof.
  intros [Hf Hn].
  assert (Hrow : ∀ r, row_ok r → row_ok (sort_row std_sort r) ∧ entries (sort_row std_sort r) = std_sort (entries r)).
  { intros r Hr. unfold sort_row. destruct (buffer r) as [l|] eqn:Hb.
    - assert (Hc : contents r = l) by (unfold contents; by rewrite Hb).
      assert (He : entries r = take (Z.to_nat (size r)) l) by (unfold entries; by rewrite Hc). rewrite <- He.
      pose proof (Permutation_length (sort_perm (entries r))) as Hp. pose proof (length_entries r Hr) as Hle.
      destruct Hr as [Hl Hs]. rewrite Hc in Hl. set (l' := std_sort (entries r) ++ drop (Z.to_nat (size r)) l).
      split.
      + split; [|done]. change (contents (MkRow (Some l') (size r) (cap r))) with l'. unfold l'.
        rewrite length_app, length_drop, Hp. cbn. lia.
      + unfold entries at 1. cbn [size]. change (contents (MkRow (Some l') (size r) (cap r))) with l'. unfold l'.
        rewrite <- Hle, Nat2Z.id, <- Hp. apply take_app_length.
    - split; [done|]. destruct (null_row r Hr Hb) as [_ ->].
      symmetry. apply Permutation_nil_r. apply sort_perm. }
  rewrite Forall_forall in Hf. split; [split|].
  - cbn. apply Forall_fmap, Forall_forall. intros r Hr. by apply Hrow, Hf.
  - cbn [batch_sort_by_edge_data edge_num_]. rewrite Hn. f_equal. unfold total. cbn [batch_sort_by_edge_data rows]. symmetry. apply zsum_fmap_eq. intros r Hr.
    destruct (Hrow r (Hf r Hr)) as [_ ->]. unfold live_count. by rewrite sort_perm.
  - unfold lists. cbn. rewrite <- !list_fmap_compose. apply list_fmap_ext. intros i r Hr.
    apply Hrow, Hf, list_elem_of_lookup. eauto.
Qed.

Lemma step_refines c o :
  csr_ok c → op_ok (graph_of c) o →
  csr_ok (csr_step o c).1 ∧ graph_of (csr_step o c).1 = (graph_step o (graph_of c)).1 ∧
  (csr_step o c).2 = (graph_step o (graph_of c)).2.
Proof.
  intros Hok Ho. destruct o as [src dst d ts|src off ts|src nbr off ts|src off d ts|nb edges ts|sset dset|srcs dsts|es| |n|v];
    cbn [op_ok csr_step graph_step no_result fst snd] in *.
  - destruct Ho as (Hr & Hts & Hb). destruct (row_or_not c src Hok Hr) as [(r & Hra & Hl & Hsz)|[Hra Hl]];
      rewrite Hl in *; [|unfold put_edge; by rewrite Hra].
    cbn [default] in Hb. unfold id in Hb. unfold ts_ok, INVALID_TIMESTAMP in Hts.
    destruct (put_edge_spec junk c src r dst d ts Hok Hra) as (H1 & H2 & H3 & H4); [lia|unfold INVALID_TIMESTAMP; lia|].
    split_and!; [done|by apply graph_of_eq|]. rewrite H1. cbn. by rewrite Hsz.
  - destruct Ho as (Hr & Hts & Hb).
    assert (Hout : (∀ r, row_at c src = Some r → size r ≤ off) → delete_edge src off ts c = (c, Throw InvalidArgument)).
    { intros Hsz. unfold delete_edge. by rewrite slot_at_beyond. }
    destruct (row_or_not c src Hok Hr) as [(r & Hra & Hl & Hsz)|[Hra Hl]]; rewrite Hl;
      [|by rewrite Hout by (rewrite Hra; intros ? [=])].
    destruct (decide (off < size r)) as [Hlt|Hge].
    2:{ rewrite Hout by (intros r'; rewrite Hra; intros [= <-]; lia). cbn. by rewrite lookup_ge_None_2 by lia. }
    destruct (delete_edge_spec c src r off ts Hok Hra) as (H1 & H2 & e & He & Hc); [lia|done|].
    cbn [mbind option_bind]. rewrite He. cbn [fmap option_fmap option_map].
    rewrite H1. split; [done|]. destruct (timestamp e <=? ts).
    + destruct Hc. split; [by apply graph_of_eq|done].
    + by rewrite Hc.
  - destruct Ho as (Hr & Hts & Hb).
    assert (Hout : (∀ r, row_at c src = Some r → size r ≤ off) → revert_delete_edge src nbr off ts c = (c, Throw InvalidArgument)).
    { intros Hsz. unfold revert_delete_edge. by rewrite slot_at_beyond. }
    destruct (row_or_not c src Hok Hr) as [(r & Hra & Hl & Hsz)|[Hra Hl]]; rewrite Hl;
      [|by rewrite Hout by (rewrite Hra; intros ? [=])].
    destruct (decide (off < size r)) as [Hlt|Hge].
    2:{ rewrite Hout by (intros r'; rewrite Hra; intros [= <-]; lia). cbn. by rewrite lookup_ge_None_2 by lia. }
    unfold ts_ok in Hts.
    destruct (revert_delete_edge_spec c src r off nbr ts Hok Hra) as (H2 & e & He & Hc & Hu); [lia|lia|].
    cbn [mbind option_bind]. rewrite He. cbn [fmap option_fmap option_map]. split; [done|].
    destruct (_ && _); destruct Hc as [Hx Hc]; rewrite Hx.
    + split; [by apply graph_of_eq|done].
    + by rewrite Hc.
  - destruct Ho as [Hr Hts]. destruct (in_range_row c src Hok Hr) as (r & Hra & Hl & Hsz). rewrite Hl.
    destruct (update_edge_spec c src r off d ts Hok Hra Hts) as (H1 & H2 & H3). split; [done|].
    cbn [mbind option_bind]. destruct (0 <=? off); cbn [fmap option_fmap option_map]; [|by destruct H3 as [-> ->]].
    destruct (entries r !! Z.to_nat off) as [e|]; cbn [fmap option_fmap option_map]; [|by destruct H3 as [-> ->]].
    destruct (timestamp e <=? ts); destruct H3 as [-> Hx]; [|by rewrite Hx].
    split; [|done]. by apply graph_of_eq.
  - destruct Ho as [Hts Hres]. unfold ts_ok in Hts.
    destruct (batch_put_edges_spec junk c nb edges ts Hok) as (H1 & H2 & H3 & H4 & H5); [lia|exact Hres|].
    rewrite H1. split_and!; [done| |done]. apply graph_of_eq; [done|]. cbn [unsorted graph_of adj].
    destruct (decide (lists c = [])); [auto|by apply H4].
  - destruct (batch_delete_vertices_spec c sset dset Hok) as (H1 & H2 & H3). split_and!; [done|by apply graph_of_eq|done].
  - destruct (batch_delete_edges_spec c srcs dsts Hok) as (H1 & H2 & H3). split_and!; [done|by apply graph_of_eq|done].
  - destruct (batch_delete_edges_offsets_spec c es Hok Ho) as (H1 & H2 & H3 & H4). rewrite H1.
    split_and!; [done|by apply graph_of_eq|done].
  - destruct (compact_spec c Hok) as (H1 & H2 & H3 & H4 & H5). unfold EdgeTable_Compact.
    destruct (compact c) as [c' x]. cbn [fst snd] in *. subst x. cbn [fst snd]. destruct sort_key; cbn [fst snd].
    + destruct (sort_row_spec c' H2) as [H6 H7]. split_and!; [done| |done]. apply graph_of_eq; [|done].
      rewrite H7, H3, <- list_fmap_compose. done.
    + split_and!; [done| |done]. apply graph_of_eq; [|done]. rewrite H3. done.
  - cbn in Ho. rewrite length_lists in Ho. destruct (resize_grow c n Hok Ho) as (H1 & H2 & H3).
    split_and!; [done| |done]. apply graph_of_eq; [|done]. rewrite H2. cbn [adj graph_of]. do 2 f_equal.
    pose proof (length_lists c). lia.
  - destruct (row_or_not c v Hok Ho) as [(r & Hra & Hl & _)|[Hra Hl]]; rewrite Hl; [|unfold DetachVertex; by rewrite Hra].
    destruct (detach_spec junk c v r Hok Hra) as (H1 & H2 & H3 & H4).
    rewrite H1. split_and!; [done|by apply graph_of_eq|done].
Qed.

Lemma run_refines c os :
  csr_ok c → ops_ok (graph_of c) os →
  csr_ok (csr_run os c).1 ∧ graph_of (csr_run os c).1 = (graph_run os (graph_of c)).1 ∧
  (csr_run os c).2 = (graph_run os (graph_of c)).2.
Proof.
  revert c. induction os as [|o os IH]; intros c Hok Hos; cbn [csr_run graph_run fst snd]; [done|].
  destruct Hos as [Ho Hos]. destruct (step_refines c o Hok Ho) as (H1 & H2 & H3). rewrite <- H2 in Hos |- *.
  destruct (IH _ H1 Hos) as (H4 & H5 & H6). split_and!; [done|done|congruence].
Qed.

Lemma empty_ok : csr_ok (@empty_csr D).
Proof. split; [constructor|done]. Qed.

(** ** The sorted part of the lists *)

Record graph_inv g : Prop := {
  gi_unsorted : unsorted g = 0 ∨ (unsorted g = 1 ∧ sort_key = true);
  gi_ts : Forall (Forall (λ e, 0 ≤ timestamp e)) (adj g);
  gi_sorted : unsorted g = 1 →
    Forall (λ l, Forall (λ e, live e = true) l ∧ ∃ k, sorted_prefix 0 1 k l) (adj g)
}.

Lemma sorted_prefix_zero ts u l : Forall (λ e, u ≤ timestamp e) l → sorted_prefix ts u 0 l.
Proof.
  intros Hl. split; [lia| |rewrite take_0; constructor|done].
  rewrite take_0. intros i j a b _ Ha. by rewrite lookup_nil in Ha.
Qed.

Lemma sorted_prefix_app k l es :
  sorted_prefix 0 1 k l → Forall (λ e, 1 ≤ timestamp e) es → sorted_prefix 0 1 k (l ++ es).
Proof.
  intros [Hl Hs Ho Hn] He. split.
  - rewrite length_app. lia.
  - by rewrite take_app_le.
  - by rewrite take_app_le.
  - rewrite drop_app_le by done. by apply Forall_app.
Qed.

Lemma mark_ts hit i l : Forall (λ e, 0 ≤ timestamp e) l → Forall (λ e, 0 ≤ timestamp e) (mark hit i l).
Proof.
  intros Hl. revert i. induction Hl as [|e l He _ IH]; intros i; cbn [mark]; constructor; [|done].
  by destruct (hit i e).
Qed.

Lemma unsorted_zero adj : Forall (Forall (λ e : MutableNbr D, 0 ≤ timestamp e)) adj → graph_inv (MkGraph adj 0).
Proof. intros Hf. split; cbn; [by left|done|lia]. Qed.

Lemma Forall_imap_all {A} (P : A → Prop) (f : nat → A → A) (ls : list A) :
  Forall P ls → (∀ i x, P x → P (f i x)) → Forall P (imap f ls).
Proof.
  intros Hf Hp. rewrite Forall_lookup in *. intros i x Hi. rewrite list_lookup_imap in Hi.
  destruct (ls !! i) as [y|] eqn:Hy; [|done]. cbn in Hi. injection Hi as <-. eauto.
Qed.

Lemma compacted_ts l : Forall (λ e, timestamp e = 0) (compacted l).
Proof. apply Forall_fmap, Forall_true. done. Qed.

Lemma compact_inv l :
  Forall (λ e, live e = true) (std_sort (compacted l)) ∧ (∃ k, sorted_prefix 0 1 k (std_sort (compacted l))) ∧
  Forall (λ e, 0 ≤ timestamp e) (std_sort (compacted l)).
Proof.
  assert (H0 : Forall (λ e, timestamp e = 0) (std_sort (compacted l))) by (rewrite sort_perm; apply compacted_ts).
  split_and!.
  - rewrite sort_perm. apply live_compacted.
  - exists (length (std_sort (compacted l))). split.
    + done.
    + rewrite take_ge by done. apply sort_sorted.
    + rewrite take_ge by done. eapply Forall_impl; [exact H0|]. intros e He. cbn in *. lia.
    + rewrite drop_ge by done. constructor.
  - eapply Forall_impl; [exact H0|]. intros e He. cbn in *. lia.
Qed.

(** An update of edge data keeps the sorted part only where nothing is sorted. *)
Definition keeps_order (o : csr_op D) : Prop :=
  match o with CUpdate _ _ _ _ => sort_key = false | _ => True end.

Lemma graph_step_inv g o : graph_inv g → op_ok g o → keeps_order o → graph_inv (graph_step o g).1.
Proof.
  intros [Hu Hts Hso] Ho Hko.
  assert (Hput : ∀ adj' ts, ts_ok ts → Forall (Forall (λ e, 0 ≤ timestamp e)) adj' →
    (1 ≤ ts → unsorted g = 1 → Forall (λ l, Forall (λ e, live e = true) l ∧ ∃ k, sorted_prefix 0 1 k l) adj') →
    graph_inv (MkGraph adj' (after_put ts (unsorted g)))).
  { intros adj' ts Hok Hf Hs. unfold after_put. destruct (Z.ltb_spec ts (unsorted g)); [by apply unsorted_zero|].
    split; cbn [adj unsorted]; [done|done|]. intros E. apply Hs; [lia|done]. }
  destruct o as [src dst d ts|src off ts|src nbr off ts|src off d ts|nb edges ts|sset dset|srcs dsts|es| |n|v]; cbn [op_ok graph_step] in *.
  - destruct Ho as (Hr & Hok & _). destruct (adj g !! Z.to_nat src) as [l|] eqn:Hl; [|by split].
    assert (Hlive : live (MkNbr dst ts d) = true) by (unfold live, ts_ok in *; cbn; rewrite (proj2 (Z.eqb_neq _ _)); done || lia).
    apply Hput; [done| |].
    + apply Forall_insert; [done|]. apply Forall_app. split; [by eapply Forall_lookup_1 in Hts|].
      repeat constructor. unfold ts_ok in Hok. cbn. lia.
    + intros H1 E. specialize (Hso E). apply Forall_insert; [done|].
      destruct (proj1 (Forall_lookup _ _) Hso _ _ Hl) as [Hlv [k Hk]]. split.
      * apply Forall_app. split; [done|]. by repeat constructor.
      * exists k. apply sorted_prefix_app; [done|]. repeat constructor. done.
  - destruct (_ ≫= _) as [[l e]|] eqn:Hb; [|by split]. cbn [fst]. destruct (timestamp e <=? ts); [|by split].
    apply bind_Some in Hb as (l' & Hl & He). apply fmap_Some in He as (e' & He & E). injection E as -> ->.
    apply unsorted_zero, Forall_insert; [done|]. apply Forall_insert; [by eapply Forall_lookup_1 in Hts|]. done.
  - destruct (_ ≫= _) as [[l e]|] eqn:Hb; [|by split].
    apply bind_Some in Hb as (l' & Hl & He). apply fmap_Some in He as (e' & He & E). injection E as -> ->.
    destruct (_ && _) eqn:Hc; [|by split]. apply andb_true_iff in Hc as [_ Hc]. cbn [fst].
    destruct Hu as [Hu|[Hu _]].
    + rewrite Hu. apply unsorted_zero, Forall_insert; [done|]. apply Forall_insert; [by eapply Forall_lookup_1 in Hts|].
      unfold ts_ok in Ho. cbn. lia.
    + destruct (proj1 (Forall_lookup _ _) (Hso Hu) _ _ Hl) as [Hlv _].
      pose proof (proj1 (Forall_lookup _ _) Hlv _ _ He) as Hx. cbn in Hx. unfold live in Hx. by rewrite Hc in Hx.
  - cbn [keeps_order] in Hko. destruct Ho as [_ Hok].
    destruct Hu as [Hu|[_ ?]]; [|congruence]. destruct (_ ≫= _) as [[l e]|] eqn:Hb; [|by split; [left|..]].
    apply bind_Some in Hb as (l' & Hl & He). destruct (0 <=? off); [|done].
    apply fmap_Some in He as (e' & He & E). injection E as -> ->.
    destruct (timestamp e' <=? ts); cbn [fst]; [|by split; [left|..]].
    rewrite Hu. apply unsorted_zero, Forall_insert; [done|]. apply Forall_insert; [by eapply Forall_lookup_1 in Hts|].
    unfold ts_ok in Hok. cbn. lia.
  - destruct Ho as [Ho _]. cbn [fst]. destruct (decide (adj g = [])) as [E|E].
    { rewrite E. cbn. split; cbn [adj unsorted]; [done|constructor|constructor]. }
    apply Hput; [done| |].
    + apply Forall_imap_all; [done|]. intros i l Hl. apply Forall_app. split; [done|].
      apply Forall_fmap, Forall_true. unfold ts_ok in Ho. cbn. lia.
    + intros H1 E1. apply Forall_imap_all; [by apply Hso|]. intros i l [Hlv [k Hk]]. split.
      * apply Forall_app. split; [done|]. apply Forall_fmap, Forall_true. intros x. unfold live, ts_ok in *. cbn.
        rewrite (proj2 (Z.eqb_neq _ _)); [done|lia].
      * exists k. apply sorted_prefix_app; [done|]. apply Forall_fmap, Forall_true. done.
  - apply unsorted_zero, Forall_imap_all; [done|]. intros i l Hl. unfold without_vertices.
    destruct (decide _); [constructor|]. rewrite Forall_forall in *. intros e [_ He]%list_elem_of_filter. by apply Hl.
  - apply unsorted_zero, Forall_imap_all; [done|]. intros i l Hl. by apply mark_ts.
  - apply unsorted_zero, Forall_imap_all; [done|]. intros i l Hl. by apply mark_ts.
  - cbn [fst]. destruct sort_key eqn:Hk.
    + split; cbn [adj unsorted]; [by right| |intros _]; apply Forall_fmap, Forall_true; intros l;
        destruct (compact_inv l) as (? & ? & ?); done.
    + destruct Hu as [Hu|[_ ?]]; [|done]. rewrite Hu. apply unsorted_zero, Forall_fmap, Forall_true. intros l.
      eapply Forall_impl; [apply compacted_ts|]. intros e He. cbn in *. lia.
  - cbn [fst]. split; cbn [adj unsorted]; [done| |intros E]; apply Forall_app; (split; [by auto|]); apply Forall_replicate.
    + constructor.
    + split; [constructor|]. exists O. apply sorted_prefix_zero. constructor.
  - by split.
Qed.

Lemma graph_run_inv g os : graph_inv g → ops_ok g os → Forall keeps_order os → graph_inv (graph_run os g).1.
Proof.
  revert g. induction os as [|o os IH]; intros g Hg Hos Hko; [done|]. cbn [graph_run fst]. destruct Hos as [Ho Hos].
  apply Forall_cons in Hko as [Hk1 Hk2]. apply IH; [by apply graph_step_inv|done|done].
Qed.

Lemma list_prefix g l ts :
  graph_inv g → 0 ≤ ts → l ∈ adj g → ∃ k, sorted_prefix ts (unsorted g) k l.
Proof.
  intros [Hu Hts Hso] H0 Hin. destruct Hu as [Hu|[Hu _]].
  - exists O. rewrite Hu. apply sorted_prefix_zero. rewrite Forall_forall in Hts. apply (Hts l Hin).
  - specialize (Hso Hu). rewrite Forall_forall in Hso. destruct (Hso l Hin) as [_ [k [H1 H2 H3 H4]]].
    exists k. rewrite Hu. split; [done|done| |done]. eapply Forall_impl; [exact H3|]. intros e He. cbn in *. lia.
Qed.

(** The scans of a table, on its list. *)
Lemma scans_ref c ts v thr :
  csr_ok c → graph_inv (graph_of c) → 0 ≤ ts → 0 ≤ v →
  view_nbr_gt c ts v thr = scan_ref ts (data_ltb thr) (default [] (lists c !! Z.to_nat v)) ∧
  view_nbr_lt c ts v thr = scan_ref ts (λ d, data_ltb d thr) (default [] (lists c !! Z.to_nat v)).
Proof.
  intros Hok Hg Hts Hv. unfold view_nbr_gt, view_nbr_lt. destruct (row_at c v) as [r|] eqn:Hr.
  - rewrite (lists_row c v r Hr). cbn [default]. unfold id.
    pose proof (row_at_ok c v r (proj1 Hok) Hr) as Hro.
    destruct (list_prefix (graph_of c) (entries r) ts Hg Hts) as [k Hk].
    { apply list_elem_of_lookup. exists (Z.to_nat v). by apply lists_row. }
    cbn [graph_of unsorted] in Hk. destruct (buffer r) as [l|] eqn:Hb.
    + assert (Hc : contents r = l) by (unfold contents; by rewrite Hb). destruct Hro as [Hl Hs]. rewrite Hc in Hl.
      assert (He : entries r = take (Z.to_nat (size r)) l) by (unfold entries; by rewrite Hc). rewrite He in *.
      split; [eapply foreach_nbr_gt_ref|eapply foreach_nbr_lt_ref]; try eassumption; lia.
    + destruct (null_row r Hro Hb) as [_ ->]. done.
  - unfold row_at in Hr. rewrite (proj2 (Z.leb_le _ _)) in Hr by done. unfold lists. by rewrite list_lookup_fmap, Hr.
Qed.

Lemma empty_graph_inv : graph_inv (graph_of (@empty_csr D)).
Proof. split; [by left|constructor|by constructor]. Qed.
End runs.

(** ** The claims *)

Section claims.
Context {D : Type} `{EdgeData D} (junk : MutableNbr D) (std_sort : list (MutableNbr D) → list (MutableNbr D)).
Context (sort_key : bool).
Implicit Types (c : csr D) (os : list (csr_op D)).

(** [std::sort], by its documentation. *)
Definition sorts : Prop := (∀ l, std_sort l ≡ₚ l) ∧ (∀ l, sorted_data (std_sort l)).

Abbreviation run os := (csr_run junk std_sort sort_key os empty_csr).
Abbreviation allowed os := (ops_ok std_sort sort_key (graph_of empty_csr) os).

Lemma run_ok os : sorts → allowed os →
  csr_ok (run os).1 ∧ (Forall (keeps_order sort_key) os → graph_inv sort_key (graph_of (run os).1)) ∧
  graph_of (run os).1 = (graph_run std_sort sort_key os (graph_of empty_csr)).1 ∧
  (run os).2 = (graph_run std_sort sort_key os (graph_of empty_csr)).2.
Proof.
  intros [Hp Hs] Hos. destruct (run_refines junk std_sort Hp sort_key empty_csr os empty_ok Hos) as (H1 & H2 & H3).
  split_and!; [done| |done|done]. intros Hko. rewrite H2. by apply graph_run_inv; [..|apply empty_graph_inv| |].
Qed.

Lemma get_edges_lists c ts v : 0 ≤ v → get_edges c ts v = default [] (lists c !! Z.to_nat v).
Proof.
  intros Hv. unfold get_edges. destruct (row_at c v) as [r|] eqn:Hr.
  - rewrite (lists_row c v r Hr). cbn [default]. unfold id, entries, contents. destruct (buffer r); cbn; by rewrite ?take_nil.
  - unfold row_at in Hr. rewrite (proj2 (Z.leb_le _ _)) in Hr by done. unfold lists. by rewrite list_lookup_fmap, Hr.
Qed.

(** C18: The mutable table of lists against plain lists.  Take a run
    of inserts, deletions, reverts, data updates, batch inserts and deletions,
    compactions (sorting if the table has a sort key), resizes and detachments on a
    new table, in which no resize shrinks the table, a list has fewer than 2^30
    entries before a single insert and at most [max_reservable] after a batch,
    updated vertices exist, and timestamps are valid ([allowed]).  Then every
    operation returns what its description on plain lists of edges returns, the
    error for a vertex or slot out of range included, the table has as many lists,
    and a reader is handed exactly those lists: growth of buffers, relocation of all
    lists by a batch and the moves of compaction never lose, reorder or duplicate an
    edge. *)
Theorem csr_refines_lists os :
  sorts → allowed os →
  let g := graph_run std_sort sort_key os (graph_of empty_csr) in
  (run os).2 = g.2 ∧ vertex_capacity (run os).1 = Z.of_nat (length (adj g.1)) ∧
  ∀ ts v, 0 ≤ v → get_edges (run os).1 ts v = default [] (adj g.1 !! Z.to_nat v).
Proof.
  intros Hs Hos. destruct (run_ok os Hs Hos) as (_ & _ & H2 & H3). cbv zeta. rewrite <- H2. split_and!; [done| |].
  - symmetry. apply length_lists.
  - intros ts v Hv. by apply get_edges_lists.
Qed.

Lemma length_batch_export c : Z.of_nat (length (batch_export c)) = total c.
Proof.
  unfold batch_export, total. generalize (rows c). intros rs.
  assert (Hgen : ∀ k, Z.of_nat (length (concat (imap (λ src r, (λ e, (Z.of_nat (k + src), neighbor e, data e)) <$>
    filter (λ e, live e = true) (entries r)) rs))) = zsum (λ r, live_count (entries r)) rs).
  { induction rs as [|r rs IH]; intros k; [done|].
    rewrite imap_cons. cbn [concat]. rewrite length_app, length_fmap, zsum_cons, Nat2Z.inj_add. f_equal.
    rewrite <- (IH (S k)). do 3 f_equal. apply imap_ext. intros i x _. cbn. apply list_fmap_ext. intros j e _.
    do 2 f_equal. lia. }
  apply (Hgen O).
Qed.

(** The counter of edges is, after any sequence of
    operations, the number of edges an export lists, so that the check at the
    end of a compaction never raises its storage error. *)
Theorem edge_count_exact os :
  sorts → allowed os → Z.of_nat (length (batch_export (run os).1)) < 2^64 →
  edge_num (run os).1 = Z.of_nat (length (batch_export (run os).1)) ∧
  (EdgeTable_Compact std_sort sort_key (run os).1).2 = Ok tt ∧
  edge_num (EdgeTable_Compact std_sort sort_key (run os).1).1 = edge_num (run os).1.
Proof.
  intros Hs Hos Hb. destruct (run_ok os Hs Hos) as (Hok & _). rewrite length_batch_export in *. split_and!.
  - unfold edge_num. rewrite (proj2 Hok). apply u64_id. split; [|done]. rewrite <- length_batch_export. lia.
  - unfold EdgeTable_Compact. destruct (compact_spec _ Hok) as (H1 & _). destruct (compact _) as [c' x].
    cbn in H1. by subst x.
  - unfold EdgeTable_Compact, edge_num. destruct (compact_spec _ Hok) as (H1 & _ & _ & H4 & _).
    destruct (compact _) as [c' x]. cbn [fst snd] in *. subst x. by destruct sort_key.
Qed.

(** C37: The scan for edges above a threshold, which stops early in the
    sorted part of a list, visits exactly the edges a reader sees whose data is above
    it, the last slot first: after every allowed run of operations as in the
    refinement of the table to lists, for readers and vertices with valid numbers,
    provided that a table with a sort key has no update of edge data in the run
    ([keeps_order]).  The proviso is needed: [update_hides_edge] is an update of
    sorted data after which the scan misses an edge. *)
Theorem nbr_gt_exact os ts v (threshold : D) :
  sorts → allowed os → Forall (keeps_order sort_key) os → 0 ≤ ts → 0 ≤ v →
  view_nbr_gt (run os).1 ts v threshold =
  (λ e, (neighbor e, data e)) <$>
    reverse (filter (λ e, (timestamp e <=? ts) && data_ltb threshold (data e) = true) (get_edges (run os).1 ts v)).
Proof.
  intros Hs Hos Hko Hts Hv. destruct (run_ok os Hs Hos) as (Hok & Hg & _).
  destruct (scans_ref sort_key _ ts v threshold Hok (Hg Hko) Hts Hv) as [-> _]. by rewrite get_edges_lists.
Qed.

(** The scan for edges below a threshold, which finds the end
    of the matching part of the sorted prefix by binary search, visits
    exactly the edges a reader sees whose data is below it. *)
Theorem nbr_lt_exact os ts v (threshold : D) :
  sorts → allowed os → Forall (keeps_order sort_key) os → 0 ≤ ts → 0 ≤ v →
  view_nbr_lt (run os).1 ts v threshold =
  (λ e, (neighbor e, data e)) <$>
    reverse (filter (λ e, (timestamp e <=? ts) && data_ltb (data e) threshold = true) (get_edges (run os).1 ts v)).
Proof.
  intros Hs Hos Hko Hts Hv. destruct (run_ok os Hs Hos) as (Hok & Hg & _).
  destruct (scans_ref sort_key _ ts v threshold Hok (Hg Hko) Hts Hv) as [_ ->]. by rewrite get_edges_lists.
Qed.

(** Deleting a live edge and reverting with its old
    timestamp leaves every list and the counter of edges as they were. *)
Theorem delete_revert os src offset ts e :
  sorts → allowed os → 0 ≤ src → 0 ≤ offset → 0 ≤ ts < INVALID_TIMESTAMP →
  get_edges (run os).1 ts src !! Z.to_nat offset = Some e → timestamp e ≤ ts →
  let (c1, r1) := delete_edge src offset ts (run os).1 in
  let (c2, r2) := revert_delete_edge src (neighbor e) offset (timestamp e) c1 in
  r1 = Ok tt ∧ r2 = Ok tt ∧ lists c2 = lists (run os).1 ∧ edge_num c2 = edge_num (run os).1 ∧
  get_edges c1 ts src !! Z.to_nat offset = Some (set_timestamp INVALID_TIMESTAMP e).
Proof.
  intros Hs Hos Hsrc Hoff Hts He Hle. destruct (run_ok os Hs Hos) as (Hok & _). set (c := (run os).1) in *.
  rewrite get_edges_lists in He by done. destruct (lists c !! Z.to_nat src) as [l|] eqn:Hl; [|cbn in He; by rewrite lookup_nil in He].
  cbn in He. unfold lists in Hl. rewrite list_lookup_fmap in Hl. destruct (rows c !! Z.to_nat src) as [r|] eqn:Hr; [|done].
  injection Hl as <-. assert (Hra : row_at c src = Some r) by (unfold row_at; by rewrite (proj2 (Z.leb_le _ _))).
  pose proof (length_entries r (row_at_ok c src r (proj1 Hok) Hra)) as Hlen. pose proof (lookup_lt_Some _ _ _ He) as Hlt.
  destruct (delete_edge_spec c src r offset ts Hok Hra ltac:(lia) Hts) as (H1 & H2 & e' & He' & Hc).
  rewrite He in He'. injection He' as <-. rewrite (proj2 (Z.leb_le _ _)) in Hc by done. destruct Hc as [Hls _].
  destruct (delete_edge src offset ts c) as [c1 r1]. cbn [fst snd] in *.
  assert (Hl1 : lists c1 !! Z.to_nat src = Some (<[Z.to_nat offset := set_timestamp INVALID_TIMESTAMP e]> (entries r))).
  { rewrite Hls. apply list_lookup_insert_eq. unfold lists. rewrite length_fmap. by apply lookup_lt_Some in Hr. }
  unfold lists in Hl1. rewrite list_lookup_fmap in Hl1. destruct (rows c1 !! Z.to_nat src) as [r'|] eqn:Hr'; [|done].
  injection Hl1 as Hl1. assert (Hra' : row_at c1 src = Some r') by (unfold row_at; by rewrite (proj2 (Z.leb_le _ _))).
  pose proof (length_entries r' (row_at_ok c1 src r' (proj1 H2) Hra')) as Hlen'. rewrite Hl1, length_insert in Hlen'.
  assert (Htse : timestamp e ≠ INVALID_TIMESTAMP) by lia.
  destruct (revert_delete_edge_spec c1 src r' offset (neighbor e) (timestamp e) H2 Hra' ltac:(lia) Htse)
    as (H3 & e' & He' & Hc & _).
  rewrite Hl1, list_lookup_insert_eq in He' by done. injection He' as <-.
  cbn [set_timestamp neighbor timestamp] in Hc. rewrite !Z.eqb_refl in Hc. cbn [andb] in Hc.
  destruct (revert_delete_edge _ _ _ _ c1) as [c2 r2]. cbn [fst snd] in *. destruct Hc as [Hr2 Hls2].
  assert (Hfin : lists c2 = lists c).
  { rewrite Hls2, Hls, Hl1, !list_insert_insert_eq.
    replace (set_timestamp (timestamp e) (set_timestamp INVALID_TIMESTAMP e)) with e by (by destruct e).
    rewrite (list_insert_id (entries r) _ e He). apply list_insert_id. unfold lists. by rewrite list_lookup_fmap, Hr. }
  split_and!; [done|done|done| |].
  - unfold edge_num. destruct H3 as [_ ->]. destruct Hok as [_ ->]. f_equal. unfold total. rewrite !zsum_lists.
    fold (lists c2) (lists c). by rewrite Hfin.
  - rewrite get_edges_lists by done. rewrite Hls, list_lookup_insert_eq.
    + cbn. by apply list_lookup_insert_eq.
    + unfold lists. rewrite length_fmap. by apply lookup_lt_Some in Hr.
Qed.
End claims.

(** ** Examples of the claims *)

Definition data_le (a b : MutableNbr Z) : Prop := data a ≤ data b.
#[export] Instance data_le_dec : RelDecision data_le := λ a b, Z_le_dec (data a) (data b).
#[export] Instance data_le_trans : Transitive data_le.
Proof. intros a b c. unfold data_le. lia. Qed.
#[export] Instance data_le_total : Total data_le.
Proof. intros a b. unfold data_le. lia. Qed.

(** A sort to run the examples with. *)
Definition sort_Z : list (MutableNbr Z) → list (MutableNbr Z) := merge_sort data_le.

Lemma strongly_sorted_lookup {A} (R : A → A → Prop) (l : list A) i j a b :
  StronglySorted R l → (i < j)%nat → l !! i = Some a → l !! j = Some b → R a b.
Proof.
  intros Hs. revert i j. induction Hs as [|x l _ IH Hx]; intros i j Hij Hi Hj; [done|].
  destruct j as [|j]; [lia|]. cbn in Hj. destruct i as [|i]; [|by apply (IH i j); [lia|..]].
  injection Hi as <-. by eapply Forall_lookup_1 in Hx.
Qed.

Lemma sorts_Z : sorts sort_Z.
Proof.
  split; intros l.
  - apply merge_sort_Permutation.
  - intros i j a b Hij Ha Hb. apply Z.ltb_ge.
    apply (strongly_sorted_lookup data_le (sort_Z l) i j); [apply (StronglySorted_merge_sort data_le)|done..].
Qed.

Definition junk_Z : MutableNbr Z := MkNbr 0 0 0.

(** The runs described are decidable. *)
Definition op_runnable {D} (g : graph D) (o : csr_op D) : bool :=
  match o with
  | CPut src dst d ts => bool_decide (0 ≤ src) && bool_decide (0 ≤ ts < INVALID_TIMESTAMP) &&
      bool_decide (Z.of_nat (length (default [] (adj g !! Z.to_nat src))) < 2^30)
  | CDelete src offset ts | CRevert src _ offset ts =>
      bool_decide (0 ≤ src) && bool_decide (0 ≤ ts < INVALID_TIMESTAMP) && bool_decide (0 ≤ offset)
  | CUpdate src _ _ ts =>
      bool_decide (0 ≤ src < Z.of_nat (length (adj g))) && bool_decide (0 ≤ ts < INVALID_TIMESTAMP)
  | CBatchPut _ edges ts => bool_decide (0 ≤ ts < INVALID_TIMESTAMP) &&
      forallb (λ l, bool_decide (Z.of_nat (length edges) + Z.of_nat (length l) ≤ max_reservable)) (adj g)
  | CDeleteSlots es => forallb (λ p, bool_decide (0 ≤ p.2)) es
  | CResize n => bool_decide (Z.of_nat (length (adj g)) ≤ n)
  | CDetach v => bool_decide (0 ≤ v)
  | _ => true
  end.
Fixpoint runnable {D} (std_sort : list (MutableNbr D) → list (MutableNbr D)) (sort_key : bool) (g : graph D)
    (os : list (csr_op D)) : bool :=
  match os with
  | [] => true
  | o :: os => op_runnable g o && runnable std_sort sort_key (graph_step std_sort sort_key o g).1 os
  end.

Lemma op_runnable_ok {D} (g : graph D) (o : csr_op D) : op_runnable g o = true → op_ok g o.
Proof.
  unfold op_ok, ts_ok, in_range. destruct o; cbn; rewrite ?andb_true_iff, ?bool_decide_eq_true; try tauto.
  - intros [? Hf]. split; [done|]. intros i l Hl.
    assert (Hin : l ∈ adj g) by (apply list_elem_of_lookup; eauto).
    pose proof (proj1 (forallb_forall _ _) Hf _ (proj1 (list_elem_of_In _ _) Hin)) as Hl'. apply bool_decide_eq_true in Hl'. unfold degree_in.
    pose proof (length_filter (λ p, p.1.1 = Z.of_nat i) edges). lia.
  - intros Hf. apply Forall_forall. intros p Hp. pose proof (proj1 (forallb_forall _ _) Hf _ (proj1 (list_elem_of_In _ _) Hp)) as Hl'.
    by apply bool_decide_eq_true in Hl'.
Qed.

Lemma runnable_ok {D} std_sort sort_key (g : graph D) os :
  runnable std_sort sort_key g os = true → ops_ok std_sort sort_key g os.
Proof.
  revert g. induction os as [|o os IH]; intros g; [done|]. cbn [runnable ops_ok].
  intros [H1 H2]%andb_true_iff. split; [by apply op_runnable_ok|by apply IH].
Qed.

(** Two edges sorted by a compaction, two newer ones, one of them deleted, and
    a batch of older ones for another vertex. *)
Definition sample_ops : list (csr_op Z) :=
  [CResize 3; CBatchPut false [(0, 1, 50); (0, 2, 10)] 0; CCompact; CPut 0 2 30 4; CDelete 0 2 5; CPut 0 1 20 6;
   CResize 4; CDetach 0].
(** The same without the deletion: the sorted prefix stays in use. *)
Definition sorted_ops : list (csr_op Z) :=
  [CResize 3; CBatchPut false [(0, 1, 50); (0, 2, 10)] 0; CCompact; CPut 0 2 30 4; CPut 0 1 20 6].

Lemma sample_allowed : ops_ok sort_Z true (graph_of empty_csr) sample_ops.
Proof. apply runnable_ok. vm_compute. reflexivity. Qed.
Lemma sorted_allowed : ops_ok sort_Z true (graph_of empty_csr) sorted_ops.
Proof. apply runnable_ok. vm_compute. reflexivity. Qed.
Lemma sorted_keeps : Forall (keeps_order true) sorted_ops.
Proof. repeat constructor. Qed.
(** And an update of edge data, an insert for a vertex that does not exist and the
    deletion of a slot that does not. *)
Definition varied_ops : list (csr_op Z) := sample_ops ++ [CUpdate 0 1 60 9; CPut 7 0 0 3; CDelete 0 40 9].
Lemma varied_allowed : ops_ok sort_Z true (graph_of empty_csr) varied_ops.
Proof. apply runnable_ok. vm_compute. reflexivity. Qed.

Lemma csr_refines_lists_witness :
  sorts sort_Z ∧ ops_ok sort_Z true (graph_of empty_csr) varied_ops ∧
  (csr_run junk_Z sort_Z true varied_ops empty_csr).2 =
    [Ok 0; Ok 0; Ok 0; Ok 2; Ok 0; Ok 3; Ok 0; Ok 0; Ok 0; Throw InvalidArgument; Throw InvalidArgument].
Proof.
  destruct (csr_refines_lists junk_Z sort_Z true varied_ops sorts_Z varied_allowed) as [H _].
  split; [exact sorts_Z|]. split; [exact varied_allowed|]. rewrite H. vm_compute. reflexivity.
Defined.

Lemma edge_count_exact_witness :
  edge_num (csr_run junk_Z sort_Z true sample_ops empty_csr).1 = 3 ∧
  (EdgeTable_Compact sort_Z true (csr_run junk_Z sort_Z true sample_ops empty_csr).1).2 = Ok tt.
Proof.
  destruct (edge_count_exact junk_Z sort_Z true sample_ops sorts_Z sample_allowed) as (H1 & H2 & _).
  { vm_compute. reflexivity. }
  split; [rewrite H1; vm_compute; reflexivity|exact H2].
Defined.

Lemma nbr_gt_exact_witness :
  view_nbr_gt (csr_run junk_Z sort_Z true sorted_ops empty_csr).1 5 0 15 = [(2, 30); (1, 50)] ∧
  unsorted_since_ (csr_run junk_Z sort_Z true sorted_ops empty_csr).1 = 1.
Proof.
  split; [|vm_compute; reflexivity].
  rewrite (nbr_gt_exact junk_Z sort_Z true sorted_ops 5 0 15 sorts_Z sorted_allowed sorted_keeps ltac:(lia) ltac:(lia)).
  vm_compute. reflexivity.
Defined.

Lemma nbr_lt_exact_witness :
  view_nbr_lt (csr_run junk_Z sort_Z true sorted_ops empty_csr).1 7 0 40 = [(1, 20); (2, 30); (2, 10)].
Proof.
  rewrite (nbr_lt_exact junk_Z sort_Z true sorted_ops 7 0 40 sorts_Z sorted_allowed sorted_keeps ltac:(lia) ltac:(lia)).
  vm_compute. reflexivity.
Defined.

Lemma delete_revert_witness :
  let c := (csr_run junk_Z sort_Z true sample_ops empty_csr).1 in
  let c1 := (delete_edge 0 1 9 c).1 in
  edge_num c = 3 ∧ edge_num c1 = 2 ∧ lists (revert_delete_edge 0 1 1 0 c1).1 = lists c.
Proof.
  cbv zeta. pose proof (delete_revert junk_Z sort_Z true sample_ops 0 1 9 (MkNbr 1 0 50) sorts_Z sample_allowed
    ltac:(lia) ltac:(lia) ltac:(unfold INVALID_TIMESTAMP, U32_MAX; lia)) as H.
  assert (He : get_edges (csr_run junk_Z sort_Z true sample_ops empty_csr).1 9 0 !! Z.to_nat 1 = Some (MkNbr 1 0 50))
    by (vm_compute; reflexivity).
  specialize (H He ltac:(cbn; lia)). cbn [neighbor timestamp] in H.
  split; [vm_compute; reflexivity|]. split; [vm_compute; reflexivity|].
  destruct (delete_edge 0 1 9 (csr_run junk_Z sort_Z true sample_ops empty_csr).1) as [c1 r1]. cbn [fst].
  destruct (revert_delete_edge 0 1 1 0 c1) as [c2 r2]. exact (proj1 (proj2 (proj2 H))).
Defined.

(** Iterating over a neighbor list yields, in order,
    each entry whose timestamp is not after the reader's, once, together with
    the slot it is stored in. *)
Theorem view_iterates_visible {D} (ts : Z) (l : list (MutableNbr D)) :
  snd <$> NbrList_iterate ts l = filter (λ e, timestamp e ≤ ts) l ∧
  ∀ i e, (i, e) ∈ NbrList_iterate ts l ↔ l !! i = Some e ∧ timestamp e ≤ ts.
Proof.
  rewrite iterate_visible. split.
  - generalize O. induction l as [|e l IH]; intros k; [done|]. cbn [visible_from]. rewrite filter_cons.
    destruct (Z.leb_spec (timestamp e) ts), (decide (timestamp e ≤ ts)); try lia; [rewrite fmap_cons; f_equal|]; apply IH.
  - intros i e. rewrite visible_from_elem, Nat.sub_0_r. split; [tauto|]. intros []. split_and!; [lia|done|done].
Qed.

(** C39: The capacity a batch reserves for a list, computed in single
    precision and converted to a 32-bit integer.  For a list of up to 1780000000
    edges the conversion is defined and the capacity is at least the number of edges,
    between 1.199999 times and 1.200001 times that number plus one; from 1790000000
    edges on the conversion overflows, which is undefined. *)
Theorem reservation_bounds (n : Z) :
  0 ≤ n →
  (n ≤ max_reservable →
   ∃ v, reserve_capacity n = Some v ∧ n ≤ v ∧ 1199999 * n ≤ 1000000 * v ≤ 1200001 * n + 1000000) ∧
  (1790000000 ≤ n → reserve_capacity n = None).
Proof. intros Hn. split; intros; [by apply reserve_capacity_spec|by apply reserve_capacity_overflow]. Qed.

Lemma reservation_bounds_witness :
  (2^25 + 1 ≤ max_reservable →
   ∃ v, reserve_capacity (2^25 + 1) = Some v ∧ 2^25 + 1 ≤ v ∧
     1199999 * (2^25 + 1) ≤ 1000000 * v ≤ 1200001 * (2^25 + 1) + 1000000) ∧
  (1790000000 ≤ 2^25 + 1 → reserve_capacity (2^25 + 1) = None).
Proof. apply (reservation_bounds (2^25 + 1)). lia. Defined.

(** What compaction leaves of a vertex with two edges, sorted. *)
Definition two_edges (n1 d1 n2 d2 : Z) : csr Z :=
  MkCsr [MkRow (Some [MkNbr n1 0 d1; MkNbr n2 0 d2]) 2 2] 1 2.

(** Updating the data of an edge in place does not reset
    the mark of the sorted part.  If the first of two sorted edges is updated
    to a value above a threshold the second does not exceed, a reader sees the
    updated edge, but the scan for edges above the threshold no longer reports
    it. *)
Theorem update_hides_edge (n1 d1 n2 d2 d' threshold ts : Z) :
  d1 ≤ d2 ≤ threshold → threshold < d' → 1 ≤ ts →
  let (c, r) := UpdateEdgeProperty 0 0 d' ts (two_edges n1 d1 n2 d2) in
  r = Ok tt ∧
  filter (λ e, (timestamp e <=? ts) && (threshold <? data e) = true) (get_edges c ts 0) = [MkNbr n1 ts d'] ∧
  view_nbr_gt c ts 0 threshold = [].
Proof.
  intros Hd Ht Hts.
  assert (Hu : UpdateEdgeProperty 0 0 d' ts (two_edges n1 d1 n2 d2) =
    (MkCsr [MkRow (Some [MkNbr n1 ts d'; MkNbr n2 0 d2]) 2 2] 1 2, Ok tt)) by (by destruct ts; [lia| |lia]).
  assert (Hv : ∀ l u, view_nbr_gt (MkCsr [MkRow (Some l) 2 2] u 2) ts 0 threshold =
    let r := scan_tail ts u (data_ltb threshold) l 2 in r.1 ++ gt_head threshold l r.2) by done.
  rewrite Hu, Hv. split; [done|]. change (get_edges _ ts 0) with [MkNbr n1 ts d'; MkNbr n2 0 d2].
  rewrite !filter_cons. cbn [timestamp data scan_tail lookup list_lookup].
  rewrite (proj2 (Z.leb_le ts ts)), (proj2 (Z.ltb_lt threshold d')), (proj2 (Z.ltb_ge threshold d2)),
    (proj2 (Z.ltb_ge ts 0)), andb_false_r by lia.
  split; [done|]. cbn [Z.ltb Z.compare fst snd gt_head lookup list_lookup data data_ltb EdgeData_Z app].
  by rewrite (proj2 (Z.ltb_ge threshold d2)) by lia.
Qed.

Lemma update_hides_edge_witness :
  let c := (csr_run junk_Z sort_Z true [CResize 1; CBatchPut false [(0, 8, 20); (0, 7, 10)] 0; CCompact] empty_csr).1 in
  lists c = lists (two_edges 7 10 8 20) ∧ unsorted_since_ c = 1 ∧
  view_nbr_gt (UpdateEdgeProperty 0 0 99 3 (two_edges 7 10 8 20)).1 3 0 50 = [].
Proof.
  cbv zeta. split; [vm_compute; reflexivity|]. split; [vm_compute; reflexivity|].
  pose proof (update_hides_edge 7 10 8 20 99 50 3 ltac:(lia) ltac:(lia) ltac:(lia)) as H.
  destruct (UpdateEdgeProperty 0 0 99 3 (two_edges 7 10 8 20)) as [c r]. exact (proj2 (proj2 H)).
Defined.
