(* ===== verification/SingleMutableCsr.v ===== *)
(** * SingleMutableCsr

    src/storages/csr/mutable_csr.cc, class [SingleMutableCsr]: at most one edge
    per source vertex, in an array of slots. *)

From stdpp Require Import gmap.
From S2P Require Import Prelude CsrView MutableCsrSpec.

Module SingleMutableCsr.

(** [nbr_list_] is [None] when the container is closed. *)
Record csr (D : Type) := MkSingle { nbr_list_ : option (list (MutableNbr D)); edge_num_ : Z }.
Arguments MkSingle {D}. Arguments nbr_list_ {D}. Arguments edge_num_ {D}.

Section operations.
Context {D : Type} (junk : MutableNbr D).
Implicit Types (c : csr D) (e : MutableNbr D).

Definition slots c : list (MutableNbr D) := default [] (nbr_list_ c).
Definition vertex_capacity c : Z := Z.of_nat (length (slots c)).
Definition edge_num c : Z := edge_num_ c.
Definition slot c (v : Z) : option (MutableNbr D) := if 0 <=? v then slots c !! Z.to_nat v else None.
Definition write (v : Z) e (n : Z) c : csr D :=
  MkSingle ((λ l, <[Z.to_nat v := e]> l) <$> nbr_list_ c) (u64 (edge_num_ c + n)).

(** The slot must be free: [CHECK_EQ] ends the process otherwise. *)
Definition put_edge (src dst : Z) (d : D) (ts : Z) c : csr D * res Z :=
  match slot c src with
  | None => (c, Throw InvalidArgument)
  | Some e => if timestamp e =? INVALID_TIMESTAMP then (write src (MkNbr dst ts d) 1 c, Ok 0)
              else (c, Throw CheckFailed)
  end.

Definition compact c : csr D :=
  MkSingle ((λ l : list (MutableNbr D), (λ e, if timestamp e =? INVALID_TIMESTAMP then e else set_timestamp 0 e) <$> l)
              <$> nbr_list_ c) (edge_num_ c).

Definition resize (vnum : Z) c : csr D * res unit :=
  match nbr_list_ c with
  | None => (c, Throw OutOfBounds)
  | Some l =>
      (MkSingle (Some (take (Z.to_nat vnum) l ++
          replicate (Z.to_nat vnum - length l) (set_timestamp INVALID_TIMESTAMP junk))) (edge_num_ c), Ok tt)
  end.

(** Marks the slot of [v] as free if it holds an edge that is [hit]. *)
Definition free (hit : MutableNbr D → bool) c (v : Z) : csr D :=
  match slot c v with
  | None => c
  | Some e =>
      if hit e then write v (set_timestamp INVALID_TIMESTAMP e) (if live e then -1 else 0) c else c
  end.

Definition batch_delete_vertices (src_set dst_set : gset Z) c : csr D :=
  let c := foldl (free (λ _, true)) c (elements src_set) in
  foldl (free (λ e, bool_decide (neighbor e ∈ dst_set))) c (seqZ 0 (vertex_capacity c)).
Definition batch_delete_edges (src_list dst_list : list Z) c : csr D :=
  foldl (λ c p, free (λ e, neighbor e =? p.2) c p.1) c (zip src_list dst_list).
Definition batch_delete_edges_offsets (edges : list (Z * Z)) c : csr D :=
  foldl (λ c p, free (λ _, true) c p.1) c edges.

Definition delete_edge (src offset ts : Z) c : csr D * res unit :=
  match nbr_list_ c with
  | None => (c, Ok tt)
  | Some _ =>
      match slot c src with
      | None => (c, Throw InvalidArgument)
      | Some e => if timestamp e <=? ts
                  then (write src (set_timestamp INVALID_TIMESTAMP e) (-1) c, Ok tt) else (c, Ok tt)
      end
  end.

Definition revert_delete_edge (src nbr offset ts : Z) c : csr D * res unit :=
  match nbr_list_ c with
  | None => (c, Ok tt)
  | Some _ =>
      match slot c src with
      | None => (c, Throw InvalidArgument)
      | Some e =>
          if negb (offset =? 0) then (c, Throw InvalidArgument)
          else if negb (neighbor e =? nbr) then (c, Throw InvalidArgument)
          else if timestamp e =? INVALID_TIMESTAMP then (write src (set_timestamp ts e) 1 c, Ok tt)
          else (c, Throw InvalidArgument)
      end
  end.

Definition put_slot (ts : Z) c (p : Z * Z * D) : csr D :=
  match slot c p.1.1 with
  | None => c
  | Some _ => write p.1.1 (MkNbr p.1.2 ts p.2) 1 c
  end.
Definition batch_put_edges (edges : list (Z * Z * D)) (ts : Z) c : csr D := foldl (put_slot ts) c edges.

Definition batch_export c : list (Z * Z * D) :=
  concat (imap (λ v e, if timestamp e =? INVALID_TIMESTAMP then [] else [(Z.of_nat v, neighbor e, data e)]) (slots c)).

Definition Open (l : list (MutableNbr D)) (n : Z) : csr D := MkSingle (Some l) n.
Definition Close c : csr D := MkSingle None (edge_num_ c).
End operations.
End SingleMutableCsr.
Import SingleMutableCsr.

Section spec.
Context {D : Type} (junk : MutableNbr D).
Implicit Types (c : csr D) (e : MutableNbr D) (l : list (MutableNbr D)).

Definition counted c : Prop := edge_num_ c = u64 (live_count (slots c)).

(** The edge of a vertex. *)
Definition edge_of c (v : Z) : option (MutableNbr D) :=
  match slot c v with Some e => if live e then Some e else None | None => None end.

Lemma slots_write v e n c : slots (write v e n c) = <[Z.to_nat v := e]> (slots c).
Proof. unfold slots, write. by destruct (nbr_list_ c). Qed.

Lemma slot_Some c v e : slot c v = Some e → 0 ≤ v ∧ slots c !! Z.to_nat v = Some e.
Proof. unfold slot. destruct (Z.leb_spec 0 v); [done|discriminate]. Qed.

Lemma slot_write v e n c u old :
  slot c v = Some old → slot (write v e n c) u = if decide (u = v) then Some e else slot c u.
Proof.
  intros [Hv Ho]%slot_Some. unfold slot. rewrite slots_write. destruct (decide (u = v)) as [->|Hne].
  - rewrite (proj2 (Z.leb_le _ _)) by done. apply list_lookup_insert_eq. by apply lookup_lt_Some in Ho.
  - destruct (Z.leb_spec 0 u); [|done]. rewrite list_lookup_insert_ne by lia. done.
Qed.

Lemma capacity_write v e n c : vertex_capacity (write v e n c) = vertex_capacity c.
Proof. unfold vertex_capacity. by rewrite slots_write, length_insert. Qed.

Lemma live_count_insert l i e old :
  l !! i = Some old →
  live_count (<[i := e]> l) = live_count l + ((if live e then 1 else 0) - (if live old then 1 else 0)).
Proof.
  intros Ho. rewrite insert_take_drop by (by apply lookup_lt_Some in Ho).
  rewrite <- (take_drop_middle _ _ _ Ho) at 3. rewrite !live_count_app, !live_count_cons. lia.
Qed.

Lemma counted_write v e n c old :
  counted c → slot c v = Some old → n = (if live e then 1 else 0) - (if live old then 1 else 0) →
  counted (write v e n c).
Proof.
  intros Hc [_ Ho]%slot_Some ->. unfold counted. rewrite slots_write, (live_count_insert _ _ _ _ Ho).
  cbn [write edge_num_]. rewrite Hc. apply u64_add_l.
Qed.

Lemma live_dead e : live (set_timestamp INVALID_TIMESTAMP e) = false.
Proof. done. Qed.

Lemma free_spec hit c v :
  counted c → counted (free hit c v) ∧ vertex_capacity (free hit c v) = vertex_capacity c ∧
  ∀ u, slot (free hit c v) u =
    if decide (u = v) then (λ e, if hit e then set_timestamp INVALID_TIMESTAMP e else e) <$> slot c u else slot c u.
Proof.
  intros Hc. unfold free. destruct (slot c v) as [e|] eqn:Hs.
  - destruct (hit e) eqn:Hh.
    + split_and!; [apply (counted_write _ _ _ _ e); [done|done|]; rewrite live_dead; by destruct (live e)|apply capacity_write|].
      intros u. rewrite (slot_write _ _ _ _ _ e) by done. destruct (decide (u = v)) as [->|]; [|done].
      rewrite Hs. cbn. by rewrite Hh.
    + split_and!; [done|done|]. intros u. destruct (decide (u = v)) as [->|]; [|done]. rewrite Hs. cbn. by rewrite Hh.
  - split_and!; [done|done|]. intros u. destruct (decide (u = v)) as [->|]; [|done]. by rewrite Hs.
Qed.

(** A pass of deletions, over any list of vertices. *)
Lemma free_all_spec (hit : Z → MutableNbr D → bool) (vs : list Z) c :
  (∀ v e, hit v (set_timestamp INVALID_TIMESTAMP e) = hit v e) →
  counted c →
  let c' := foldl (λ c v, free (hit v) c v) c vs in
  counted c' ∧ vertex_capacity c' = vertex_capacity c ∧
  ∀ u, slot c' u = (λ e, if bool_decide (u ∈ vs) && hit u e then set_timestamp INVALID_TIMESTAMP e else e) <$> slot c u.
Proof.
  intros Hst. revert c. induction vs as [|v vs IH]; intros c Hc; cbn [foldl].
  - split_and!; [done|done|]. intros u. rewrite bool_decide_false by apply not_elem_of_nil. cbn. by destruct (slot c u).
  - destruct (free_spec (hit v) c v Hc) as (H1 & H2 & H3). destruct (IH _ H1) as (H4 & H5 & H6).
    split_and!; [done|congruence|]. intros u. rewrite H6, H3. destruct (decide (u = v)) as [->|Hne].
    + destruct (slot c v) as [e|]; [|done]. cbn. f_equal. rewrite (bool_decide_true (v ∈ v :: vs)) by (by left). cbn.
      destruct (hit v e) eqn:Hh; [rewrite Hst, Hh|rewrite Hh, andb_false_r; done]. by destruct (bool_decide _).
    + destruct (slot c u) as [e|]; [|done]. cbn. f_equal.
      by rewrite (bool_decide_ext (u ∈ v :: vs) (u ∈ vs)) by set_solver.
Qed.

Lemma edge_of_freed c c' (del : Z → MutableNbr D → bool) :
  (∀ u, slot c' u = (λ e, if del u e then set_timestamp INVALID_TIMESTAMP e else e) <$> slot c u) →
  ∀ u, edge_of c' u = match edge_of c u with Some e => if del u e then None else Some e | None => None end.
Proof.
  intros Hs u. unfold edge_of. rewrite Hs. destruct (slot c u) as [e|]; [|done]. cbn.
  destruct (del u e) eqn:Hd; [by destruct (live e); rewrite ?Hd|by destruct (live e); rewrite ?Hd].
Qed.

Lemma single_delete_vertices_spec sset dset c :
  counted c →
  let c' := batch_delete_vertices sset dset c in
  counted c' ∧ vertex_capacity c' = vertex_capacity c ∧
  ∀ v, edge_of c' v = match edge_of c v with
    | Some e => if decide (v ∈ sset ∨ neighbor e ∈ dset) then None else Some e
    | None => None
    end.
Proof.
  intros Hc. unfold batch_delete_vertices.
  destruct (free_all_spec (λ _ _, true) (elements sset) c (λ _ _, eq_refl) Hc) as (H1 & H2 & H3).
  set (c1 := foldl _ c (elements sset)) in *.
  destruct (free_all_spec (λ _ e, bool_decide (neighbor e ∈ dset)) (seqZ 0 (vertex_capacity c1)) c1 (λ _ _, eq_refl) H1)
    as (H4 & H5 & H6).
  cbv zeta. fold c1. split_and!; [done|etrans; [exact H5|exact H2]|]. intros v.
  erewrite (edge_of_freed c1 _ (λ u e, bool_decide (u ∈ seqZ 0 (vertex_capacity c1)) && bool_decide (neighbor e ∈ dset))) by exact H6.
  erewrite (edge_of_freed c c1 (λ u e, bool_decide (u ∈ elements sset) && true)) by exact H3.
  destruct (edge_of c v) as [e|] eqn:He; [|done]. rewrite andb_true_r.
  assert (Hin : v ∈ seqZ 0 (vertex_capacity c1)).
  { unfold edge_of in He. destruct (slot c v) as [x|] eqn:Hx; [|done]. apply slot_Some in Hx as [Hv Hl].
    apply elem_of_seqZ. rewrite H2. unfold vertex_capacity. apply lookup_lt_Some in Hl. lia. }
  rewrite (bool_decide_true _ Hin). cbn [andb].
  destruct (decide (v ∈ sset)) as [Hs|Hs].
  - rewrite bool_decide_true by (by apply elem_of_elements). by rewrite decide_True by auto.
  - rewrite bool_decide_false by (by rewrite elem_of_elements). case_bool_decide; [by rewrite decide_True by auto|].
    by rewrite decide_False by tauto.
Qed.

Lemma edge_of_None_slot c v e : edge_of c v = None → slot c v = Some e → live e = false.
Proof. unfold edge_of. intros Hn Hs. rewrite Hs in Hn. by destruct (live e). Qed.

Lemma batch_put_counted ts edges c :
  counted c → ts ≠ INVALID_TIMESTAMP → NoDup ((λ p : Z * Z * D, p.1.1) <$> edges) →
  (∀ p, p ∈ edges → edge_of c p.1.1 = None) → counted (batch_put_edges edges ts c).
Proof.
  unfold batch_put_edges. revert c. induction edges as [|p edges IH]; intros c Hc Hts Hnd Hf; [done|]. cbn [foldl].
  rewrite fmap_cons, NoDup_cons in Hnd. destruct Hnd as [Hni Hnd]. unfold put_slot at 2.
  destruct (slot c p.1.1) as [old|] eqn:Hs; [|by apply IH; [..|intros; apply Hf; by right]].
  apply IH; [|done|done|].
  - apply (counted_write _ _ _ _ old); [done|done|].
    rewrite (edge_of_None_slot c _ old (Hf p ltac:(by left)) Hs). unfold live. cbn [timestamp].
    by rewrite (proj2 (Z.eqb_neq _ _)).
  - intros q Hq. unfold edge_of. rewrite (slot_write _ _ _ _ _ old) by done. rewrite decide_False.
    + apply (Hf q). by right.
    + intros E. apply Hni. rewrite <- E. apply list_elem_of_fmap. eauto.
Qed.

Lemma length_export c : Z.of_nat (length (batch_export c)) = live_count (slots c).
Proof.
  unfold batch_export. generalize (slots c). intros l.
  assert (Hgen : ∀ k, Z.of_nat (length (concat (imap (λ v e, if timestamp e =? INVALID_TIMESTAMP then []
    else [(Z.of_nat (k + v), neighbor e, data e)]) l))) = live_count l).
  { induction l as [|e l IH]; intros k; [done|]. rewrite imap_cons, live_count_cons. cbn [concat].
    rewrite length_app, Nat2Z.inj_add. f_equal; [unfold live; by destruct (_ =? _)|].
    rewrite <- (IH (S k)). do 3 f_equal. apply imap_ext. intros i x _. cbn. destruct (_ =? _); [done|].
    do 3 f_equal. lia. }
  apply (Hgen O).
Qed.
End spec.

(** ** Sequences of operations *)

Inductive single_op (D : Type) :=
  | SPut (src dst : Z) (d : D) (ts : Z)
  | SDelete (src offset ts : Z)
  | SRevert (src nbr offset ts : Z)
  | SBatchPut (edges : list (Z * Z * D)) (ts : Z)
  | SDeleteVertices (src_set dst_set : gset Z)
  | SDeleteEdges (src_list dst_list : list Z)
  | SDeleteSlots (edges : list (Z * Z))
  | SCompact
  | SResize (vnum : Z).
Arguments SPut {D}. Arguments SDelete {D}. Arguments SRevert {D}. Arguments SBatchPut {D}.
Arguments SDeleteVertices {D}. Arguments SDeleteEdges {D}. Arguments SDeleteSlots {D}.
Arguments SCompact {D}. Arguments SResize {D}.

Section runs.
Context {D : Type} (junk : MutableNbr D).
Implicit Types (c : csr D).

Definition single_step (o : single_op D) c : csr D :=
  match o with
  | SPut src dst d ts => (put_edge src dst d ts c).1
  | SDelete src offset ts => (delete_edge src offset ts c).1
  | SRevert src nbr offset ts => (revert_delete_edge src nbr offset ts c).1
  | SBatchPut edges ts => batch_put_edges edges ts c
  | SDeleteVertices srcs dsts => batch_delete_vertices srcs dsts c
  | SDeleteEdges srcs dsts => batch_delete_edges srcs dsts c
  | SDeleteSlots es => batch_delete_edges_offsets es c
  | SCompact => compact c
  | SResize n => (resize junk n c).1
  end.

(** A batch writes free slots, and each of them once. *)
Definition single_ok c (o : single_op D) : Prop :=
  match o with
  | SPut _ _ _ ts | SDelete _ _ ts | SRevert _ _ _ ts => 0 ≤ ts < INVALID_TIMESTAMP
  | SBatchPut edges ts => 0 ≤ ts < INVALID_TIMESTAMP ∧ NoDup ((λ p : Z * Z * D, p.1.1) <$> edges) ∧
      Forall (λ p, edge_of c p.1.1 = None) edges
  | SResize n => vertex_capacity c ≤ n
  | _ => True
  end.

Fixpoint single_run (os : list (single_op D)) c : csr D :=
  match os with [] => c | o :: os => single_run os (single_step o c) end.
Fixpoint singles_ok c (os : list (single_op D)) : Prop :=
  match os with [] => True | o :: os => single_ok c o ∧ singles_ok (single_step o c) os end.

Lemma live_mkNbr dst ts (d : D) : 0 ≤ ts < INVALID_TIMESTAMP → live (MkNbr dst ts d) = true.
Proof. intros Hts. unfold live. cbn. by rewrite (proj2 (Z.eqb_neq _ _)) by lia. Qed.

Lemma fold_free_counted {A} (f : A → Z) (hit : A → MutableNbr D → bool) (l : list A) c :
  counted c → counted (foldl (λ c p, free (hit p) c (f p)) c l).
Proof. revert c. induction l as [|p l IH]; intros c Hc; [done|]. cbn [foldl]. by apply IH, free_spec. Qed.

Lemma single_step_counted c o : counted c → single_ok c o → counted (single_step o c).
Proof.
  intros Hc Ho. destruct o as [src dst d ts|src off ts|src nbr off ts|edges ts|sset dset|srcs dsts|es| |n];
    cbn [single_step single_ok] in *.
  - unfold put_edge. destruct (slot c src) as [e|] eqn:Hs; [|done]. destruct (timestamp e =? _) eqn:Ht; [|done]. cbn [fst].
    apply (counted_write _ _ _ _ e); [done|done|]. rewrite live_mkNbr by done. unfold live. by rewrite Ht.
  - unfold delete_edge. destruct (nbr_list_ c); [|done]. destruct (slot c src) as [e|] eqn:Hs; [|done].
    destruct (Z.leb_spec (timestamp e) ts); [|done]. cbn [fst]. apply (counted_write _ _ _ _ e); [done|done|].
    rewrite live_dead. unfold live. by rewrite (proj2 (Z.eqb_neq _ _)) by lia.
  - unfold revert_delete_edge. destruct (nbr_list_ c); [|done]. destruct (slot c src) as [e|] eqn:Hs; [|done].
    destruct (negb _); [done|]. destruct (negb _); [done|]. destruct (timestamp e =? _) eqn:Ht; [|done]. cbn [fst].
    apply (counted_write _ _ _ _ e); [done|done|]. unfold set_timestamp. rewrite live_mkNbr by done. unfold live. by rewrite Ht.
  - destruct Ho as (Hts & Hnd & Hf). apply batch_put_counted; [done|lia|done|]. by apply Forall_forall.
  - by apply single_delete_vertices_spec.
  - by apply (fold_free_counted fst).
  - by apply (fold_free_counted fst (λ _ _, true)).
  - unfold counted, compact, slots in *. cbn [nbr_list_ edge_num_]. rewrite Hc. destruct (nbr_list_ c) as [l|]; [|done].
    cbn. unfold id. f_equal. clear Hc. induction l as [|e l IH]; [done|]. rewrite fmap_cons, !live_count_cons, IH. f_equal.
    destruct (timestamp e =? INVALID_TIMESTAMP) eqn:Ht; [done|]. unfold live. cbn. by rewrite Ht.
  - unfold resize. destruct (nbr_list_ c) as [l|] eqn:El; [|done]. unfold counted, slots, vertex_capacity in *.
    unfold slots in Ho. rewrite El in *. cbn [fst nbr_list_ edge_num_ default] in *. unfold id in *.
    rewrite Hc, take_ge, live_count_app by lia. f_equal.
    assert (Hz : ∀ k, live_count (replicate k (set_timestamp INVALID_TIMESTAMP junk)) = 0).
    { induction k as [|k IH]; [done|]. cbn [replicate]. rewrite live_count_cons, IH, live_dead. done. }
    rewrite Hz. lia.
Qed.

Lemma single_run_counted os c : counted c → singles_ok c os → counted (single_run os c).
Proof.
  revert c. induction os as [|o os IH]; intros c Hc Hos; [done|]. cbn. destruct Hos as [Ho Hos].
  apply IH; [by apply single_step_counted|done].
Qed.

(** The counter of a single-edge table is, after any
    sequence of operations in which batches write free slots, the number of
    edges an export lists. *)
Theorem single_count_exact os :
  let c := single_run os (Open [] 0) in
  singles_ok (Open [] 0) os → Z.of_nat (length (batch_export c)) < 2^64 →
  edge_num c = Z.of_nat (length (batch_export c)).
Proof.
  intros c Hos Hb. assert (Hc : counted c) by (apply single_run_counted; done).
  rewrite length_export in *. unfold edge_num. rewrite Hc. apply u64_id. split; [|done]. unfold live_count. lia.
Qed.

(** Deleting vertices from a single-edge table
    removes exactly the edges out of a deleted source or into a deleted
    target and keeps the counter exact. *)
Theorem single_delete_vertices os src_set dst_set :
  let c := single_run os (Open [] 0) in
  let c' := batch_delete_vertices src_set dst_set c in
  singles_ok (Open [] 0) os →
  (∀ v, edge_of c' v = match edge_of c v with
    | Some e => if decide (v ∈ src_set ∨ neighbor e ∈ dst_set) then None else Some e
    | None => None
    end) ∧ edge_num c' = u64 (Z.of_nat (length (batch_export c'))).
Proof.
  intros c c' Hos. assert (Hc : counted c) by (apply single_run_counted; done).
  destruct (single_delete_vertices_spec src_set dst_set c Hc) as (H1 & _ & H3). split; [exact H3|].
  rewrite length_export. exact H1.
Qed.
End runs.

Definition single_ops : list (single_op Z) :=
  [SResize 4; SBatchPut [(0, 7, 70); (2, 9, 90)] 0; SPut 1 7 71 3; SDelete 2 0 4; SRevert 2 9 0 0; SResize 6; SCompact].

Lemma single_ops_ok : singles_ok (MkNbr 0 0 0) (Open [] 0) single_ops.
Proof.
  vm_compute. repeat split; try discriminate; repeat constructor; rewrite ?list_elem_of_In; cbn; intuition discriminate.
Qed.

Lemma single_count_exact_witness :
  edge_num (single_run (MkNbr 0 0 0) single_ops (Open [] 0)) = 3.
Proof.
  rewrite (single_count_exact (MkNbr 0 0 0) single_ops single_ops_ok); vm_compute; reflexivity.
Defined.

Lemma single_delete_vertices_witness :
  edge_of (batch_delete_vertices {[2]} {[7]} (single_run (MkNbr 0 0 0) single_ops (Open [] 0))) 1 = None.
Proof.
  destruct (single_delete_vertices (MkNbr 0 0 0) single_ops {[2]} {[7]} single_ops_ok) as [H _]. rewrite H.
  vm_compute. reflexivity.
Defined.

(** A batch with two edges of the same source
    keeps the second one and counts both. *)
Theorem single_overwrite_miscounts (n0 d0 d1 d2 t1 t2 ts : Z) :
  0 ≤ ts < INVALID_TIMESTAMP →
  let c := batch_put_edges [(0, t1, d1); (0, t2, d2)] ts (Open [MkNbr n0 INVALID_TIMESTAMP d0] 0) in
  edge_num c = 2 ∧ batch_export c = [(0, t2, d2)].
Proof.
  intros Hts c. split; [done|].
  change (batch_export c) with ((if ts =? INVALID_TIMESTAMP then [] else [(0, t2, d2)]) ++ []).
  by rewrite (proj2 (Z.eqb_neq ts INVALID_TIMESTAMP)) by lia.
Qed.

Lemma single_overwrite_miscounts_witness :
  edge_num (batch_put_edges [(0, 5, 50); (0, 6, 60)] 0 (Open [MkNbr 0 INVALID_TIMESTAMP 0] 0)) = 2.
Proof.
  apply (single_overwrite_miscounts 0 0 50 60 5 6 0). unfold INVALID_TIMESTAMP, U32_MAX. lia.
Defined.
