(* ===== verification/ImmutableCsr.v ===== *)
(** * Immutable adjacency tables

    src/storages/csr/immutable_csr.cc: [ImmutableCsr], whose lists lie one
    behind the other in one buffer and are moved inside it by every batch, and
    [SingleImmutableCsr] with one slot per vertex.  An entry has no timestamp; a
    deleted one has the largest vertex id as its neighbour.  [EmptyCsr]
    (include/neug/storages/csr/mutable_csr.h) stores nothing. *)

From stdpp Require Import gmap.
From S2P Require Import Prelude.

Definition VID_MAX : Z := U32_MAX.

Record ImmutableNbr (D : Type) := MkImmutableNbr { nbr_id : Z; nbr_data : D }.
Arguments MkImmutableNbr {D}. Arguments nbr_id {D}. Arguments nbr_data {D}.

Definition exists_edge {D} (e : ImmutableNbr D) : bool := negb (nbr_id e =? VID_MAX).
Definition erase {D} (e : ImmutableNbr D) : ImmutableNbr D := MkImmutableNbr VID_MAX (nbr_data e).

(** [edge_num_.fetch_sub(1)] for every entry that was an edge. *)
Definition uncount_edges {D} (l : list (ImmutableNbr D)) (n : Z) : Z :=
  foldl (λ n e, if exists_edge e then u64 (n - 1) else n) n l.

Module ImmutableCsr.

(** One entry of [adj_list_buffer_] and [degree_list_buffer_]: a pointer into
    the buffer of entries, as a position in it, or null, and a degree. *)
Record row := MkRow { adj : option nat; degree : nat }.
Record csr (D : Type) := MkCsr {
  rows : list row; nbr_list : list (ImmutableNbr D); unsorted_since_ : Z; edge_num_ : Z }.
Arguments MkCsr {D}. Arguments rows {D}. Arguments nbr_list {D}.
Arguments unsorted_since_ {D}. Arguments edge_num_ {D}.

Section operations.
Context {D : Type}.
(** Memory nothing was written to, and [std::sort] by the data. *)
Context (junk : ImmutableNbr D) (std_sort : list (ImmutableNbr D) → list (ImmutableNbr D)).
Implicit Types (c : csr D) (r : row) (mem : list (ImmutableNbr D)).

Definition size c : Z := Z.of_nat (length (rows c)).
Definition edge_num c : Z := edge_num_ c.
Definition row_at c (v : Z) : option row := if 0 <=? v then rows c !! Z.to_nat v else None.

(** The entries between a pointer and the pointer plus the degree. *)
Definition segment mem r : list (ImmutableNbr D) :=
  match adj r with Some p => take (degree r) (drop p mem) | None => [] end.
Definition store_segment mem r (l : list (ImmutableNbr D)) : list (ImmutableNbr D) :=
  match adj r with Some p => take p mem ++ l ++ drop (p + length l) mem | None => mem end.

(** ** Files *)

Fixpoint open_rows (ptr : nat) (degrees : list nat) : list row :=
  match degrees with
  | [] => []
  | deg :: ds => MkRow (if (deg =? 0)%nat then None else Some ptr) deg :: open_rows (ptr + deg) ds
  end.
Definition Open (degrees : list nat) mem (unsorted edges : Z) : csr D :=
  MkCsr (open_rows 0 degrees) mem unsorted edges.
Definition Dump c : list nat * list (ImmutableNbr D) * Z * Z :=
  (degree <$> rows c, nbr_list c, unsorted_since_ c, edge_num_ c).

(** ** Moving lists down

    [n] entries from [read] on, those to keep stored at [write].  A pointer
    computed from null must not be written through.  [lazy]: nothing is
    stored as long as nothing was removed. *)
Fixpoint slide (keep : ImmutableNbr D → bool) (lazy : bool) (n : nat) mem (read : nat) (write : option nat)
    (removed : nat) : res (list (ImmutableNbr D) * option nat * nat) :=
  match n with
  | O => Ok (mem, write, removed)
  | S n =>
      match mem !! read with
      | None => Throw OutOfBounds
      | Some e =>
          if keep e then
            if lazy && (removed =? 0)%nat then slide keep lazy n mem (S read) (S <$> write) removed
            else match write with
              | None => Throw OutOfBounds
              | Some w => if (w <? length mem)%nat
                          then slide keep lazy n (<[w := e]> mem) (S read) (Some (S w)) removed
                          else Throw OutOfBounds
              end
          else slide keep lazy n mem (S read) write (S removed)
      end
  end.

(** The pointers after the buffer was resized. *)
Fixpoint relayout (ptr : nat) (degrees : list nat) : list row :=
  match degrees with
  | [] => []
  | deg :: ds => MkRow (Some ptr) deg :: relayout (ptr + deg) ds
  end.

Fixpoint compact_rows (rs : list row) mem (write : option nat) (removed : nat)
    : res (list nat * list (ImmutableNbr D) * nat) :=
  match rs with
  | [] => Ok ([], mem, removed)
  | r :: rs =>
      if (degree r =? 0)%nat then
        '(ds, mem, removed) ← compact_rows rs mem write removed; Ok (O :: ds, mem, removed)
      else
        p ← of_option OutOfBounds (adj r);
        '(mem, write, removed') ← slide exists_edge true (degree r) mem p write removed;
        '(ds, mem, removed'') ← compact_rows rs mem write removed';
        Ok ((degree r - (removed' - removed))%nat :: ds, mem, removed'')
  end.
Definition compact c : csr D * res unit :=
  match rows c with
  | [] => (c, Ok tt)
  | r :: _ =>
      match compact_rows (rows c) (nbr_list c) (adj r) 0 with
      | Throw e => (c, Throw e)
      | Ok (ds, mem, removed) =>
          (MkCsr (relayout 0 ds) (take (length mem - removed) mem) (unsorted_since_ c) (edge_num_ c), Ok tt)
      end
  end.

Fixpoint drop_rows (src_set dst_set : gset Z) (i : nat) (rs : list row) mem (removed : nat) (n : Z)
    : res (list nat * list (ImmutableNbr D) * nat * Z) :=
  match rs with
  | [] => Ok ([], mem, removed, n)
  | r :: rs =>
      if (degree r =? 0)%nat then
        '(ds, mem, removed, n) ← drop_rows src_set dst_set (S i) rs mem removed n; Ok (O :: ds, mem, removed, n)
      else if bool_decide (Z.of_nat i ∈ src_set) then
        p ← of_option OutOfBounds (adj r);
        '(ds, mem, removed, n) ←
          drop_rows src_set dst_set (S i) rs mem (removed + degree r) (uncount_edges (segment mem r) n);
        Ok (O :: ds, mem, removed, n)
      else
        p ← of_option OutOfBounds (adj r);
        let keep e := bool_decide (nbr_id e ∉ dst_set) in
        let n := uncount_edges (filter (λ e, keep e = false) (segment mem r)) n in
        '(mem, _, removed') ← slide keep false (degree r) mem p (if (p <? removed)%nat then None else Some (p - removed)%nat) removed;
        '(ds, mem, removed'', n) ← drop_rows src_set dst_set (S i) rs mem removed' n;
        Ok ((degree r - (removed' - removed))%nat :: ds, mem, removed'', n)
  end.
Definition batch_delete_vertices (src_set dst_set : gset Z) c : csr D * res unit :=
  match drop_rows src_set dst_set 0 (rows c) (nbr_list c) 0 (edge_num_ c) with
  | Throw e => (c, Throw e)
  | Ok (ds, mem, removed, n) => (MkCsr (relayout 0 ds) (take (length mem - removed) mem) 0 n, Ok tt)
  end.

(** ** Marking entries *)

(** The entries of a list that are [hit], by position, are erased. *)
Definition erase_hits (hit : nat → ImmutableNbr D → bool) (l : list (ImmutableNbr D)) : list (ImmutableNbr D) :=
  imap (λ i e, if hit i e then erase e else e) l.
Definition hit_entries (hit : nat → ImmutableNbr D → bool) (l : list (ImmutableNbr D)) : list (ImmutableNbr D) :=
  omap id (imap (λ i e, if hit i e then Some e else None) l).
Fixpoint erase_rows (hit : nat → nat → ImmutableNbr D → bool) (k : nat) (rs : list row) mem (n : Z)
    : list (ImmutableNbr D) * Z :=
  match rs with
  | [] => (mem, n)
  | r :: rs =>
      let l := segment mem r in
      erase_rows hit (S k) rs (store_segment mem r (erase_hits (hit k) l)) (uncount_edges (hit_entries (hit k) l) n)
  end.

Definition batch_delete_edges (src_list dst_list : list Z) c : csr D :=
  let pairs := filter (λ p, p.1 < size c) (zip src_list dst_list) in
  let hit (k i : nat) e := exists_edge e && bool_decide ((Z.of_nat k, nbr_id e) ∈ pairs) in
  let (mem, n) := erase_rows hit 0 (rows c) (nbr_list c) (edge_num_ c) in
  MkCsr (rows c) mem 0 n.

Definition offset_in_range c (p : Z * Z) : bool :=
  match row_at c p.1 with Some r => p.2 <? Z.of_nat (degree r) | None => false end.
Definition batch_delete_edges_offsets (edges : list (Z * Z)) c : csr D * res unit :=
  let es := filter (λ p, offset_in_range c p = true) edges in
  if forallb (λ p, 0 <=? p.2) es then
    let hit (k i : nat) (e : ImmutableNbr D) := bool_decide ((Z.of_nat k, Z.of_nat i) ∈ es) in
    let (mem, n) := erase_rows hit 0 (rows c) (nbr_list c) (edge_num_ c) in
    (MkCsr (rows c) mem 0 n, Ok tt)
  else (c, Throw OutOfBounds).

(** The entry at a slot, after the bounds checks, and its position. *)
Definition slot_at c (src offset : Z) : res (nat * ImmutableNbr D) :=
  match row_at c src with
  | None => Throw InvalidArgument
  | Some r =>
      if Z.of_nat (degree r) <=? offset then Throw InvalidArgument
      else if offset <? 0 then Throw OutOfBounds
      else match adj r with
        | None => Throw OutOfBounds
        | Some p => let q := (p + Z.to_nat offset)%nat in (q,.) <$> of_option OutOfBounds (nbr_list c !! q)
        end
  end.
Definition delete_edge (src offset ts : Z) c : csr D * res unit :=
  match slot_at c src offset with
  | Throw e => (c, Throw e)
  | Ok (q, e) =>
      if negb (exists_edge e) then (c, Ok tt)
      else (MkCsr (rows c) (<[q := erase e]> (nbr_list c)) 0 (u64 (edge_num_ c - 1)), Ok tt)
  end.
Definition revert_delete_edge (src nbr offset ts : Z) c : csr D * res unit :=
  match slot_at c src offset with
  | Throw e => (c, Throw e)
  | Ok (q, e) =>
      if exists_edge e then (c, Throw InvalidArgument)
      else (MkCsr (rows c) (<[q := MkImmutableNbr nbr (nbr_data e)]> (nbr_list c)) (unsorted_since_ c)
              (u64 (edge_num_ c + 1)), Ok tt)
  end.

(** ** Adding edges

    Degrees first, then every list is moved up to make room behind it, the
    last one first, then the edges go into the room. *)
Definition memmove (dst src n : nat) mem : res (list (ImmutableNbr D)) :=
  if (src + n <=? length mem)%nat && (dst + n <=? length mem)%nat
  then Ok (take dst mem ++ take n (drop src mem) ++ drop (dst + n) mem)
  else Throw OutOfBounds.

(** The rows from the last one: new and old degree. *)
Fixpoint shift_rows (degrees : list (nat * nat)) (new_edge_offset old_edge_offset : nat) mem
    : res (list row * list (ImmutableNbr D)) :=
  match degrees with
  | [] => Ok ([], mem)
  | (deg, old) :: ds =>
      if (new_edge_offset <? deg)%nat || (old_edge_offset <? old)%nat then Throw OutOfBounds
      else
        let new_edge_offset := (new_edge_offset - deg)%nat in
        let old_edge_offset := (old_edge_offset - old)%nat in
        mem ← memmove new_edge_offset old_edge_offset old mem;
        '(rs, mem) ← shift_rows ds new_edge_offset old_edge_offset mem;
        Ok (rs ++ [MkRow (Some new_edge_offset) deg], mem)
  end.

(** [cursors] is [old_degree_list], which counts up. *)
Fixpoint place_edges (rs : list row) (cursors : list nat) (edges : list (Z * Z * D)) mem (n : Z)
    : res (list (ImmutableNbr D) * Z) :=
  match edges with
  | [] => Ok (mem, n)
  | (src, dst, d) :: edges =>
      let v := Z.to_nat src in
      match rs !! v ≫= adj, cursors !! v with
      | Some p, Some k =>
          if (p + k <? length mem)%nat
          then place_edges rs (<[v := S k]> cursors) edges (<[(p + k)%nat := MkImmutableNbr dst d]> mem) (u64 (n + 1))
          else Throw OutOfBounds
      | _, _ => Throw OutOfBounds
      end
  end.

Definition edge_degree (edges : list (Z * Z * D)) (i : nat) : nat :=
  length (filter (λ e, e.1.1 = Z.of_nat i) edges).

Definition batch_put_edges (edges : list (Z * Z * D)) (ts : Z) c : csr D * res unit :=
  if negb (forallb (λ e, (0 <=? e.1.1) && (e.1.1 <? size c)) edges) then (c, Throw OutOfBounds)
  else
    let old := degree <$> rows c in
    let degs := imap (λ i k, (k + edge_degree edges i)%nat) old in
    let mem := nbr_list c ++ replicate (length edges) junk in
    match ('(rs, mem) ← shift_rows (reverse (zip degs old)) (length mem) (length (nbr_list c)) mem;
           '(mem, n) ← place_edges rs old edges mem (edge_num_ c);
           Ok (MkCsr rs mem (if ts <? unsorted_since_ c then 0 else unsorted_since_ c) n)) with
    | Ok c => (c, Ok tt)
    | Throw e => (c, Throw e)
    end.

(** ** Sorting and resizing *)

Definition sort_rows (rs : list row) mem : list (ImmutableNbr D) :=
  foldl (λ mem r, store_segment mem r (std_sort (segment mem r))) mem rs.
Definition batch_sort_by_edge_data (ts : Z) c : csr D :=
  MkCsr (rows c) (sort_rows (rows c) (nbr_list c)) ts (edge_num_ c).

Definition resize (vnum : Z) c : csr D :=
  MkCsr (if size c <? vnum then rows c ++ replicate (Z.to_nat (vnum - size c)) (MkRow None 0)
         else take (Z.to_nat vnum) (rows c)) (nbr_list c) (unsorted_since_ c) (edge_num_ c).

(** ** Reading *)

Definition capacity c : Z := 2^64 - 1.
Definition get_edges c (v : Z) : list (ImmutableNbr D) :=
  match row_at c v with Some r => segment (nbr_list c) r | None => [] end.
Definition batch_export c : res (list (Z * Z * D)) := Throw CheckFailed.
Definition DetachVertex (vid : Z) c : csr D * res unit := (c, Throw NotImplemented).
End operations.
End ImmutableCsr.

Module SingleImmutableCsr.

Record csr (D : Type) := MkSingleImmutable { nbr_list : list (ImmutableNbr D); edge_num_ : Z }.
Arguments MkSingleImmutable {D}. Arguments nbr_list {D}. Arguments edge_num_ {D}.

Section operations.
Context {D : Type} (junk : ImmutableNbr D).
Implicit Types (c : csr D) (e : ImmutableNbr D).

Definition size c : Z := Z.of_nat (length (nbr_list c)).
Definition capacity c : Z := size c.
Definition edge_num c : Z := edge_num_ c.
Definition slot c (v : Z) : option (ImmutableNbr D) := if 0 <=? v then nbr_list c !! Z.to_nat v else None.
Definition write (v : Z) e (n : Z) c : csr D :=
  MkSingleImmutable (<[Z.to_nat v := e]> (nbr_list c)) (u64 (edge_num_ c + n)).

Definition Open (l : list (ImmutableNbr D)) (n : Z) : csr D := MkSingleImmutable l n.
Definition Dump c : list (ImmutableNbr D) * Z := (nbr_list c, edge_num_ c).
Definition compact c : csr D := c.
Definition batch_sort_by_edge_data (ts : Z) c : csr D := c.

Definition resize (vnum : Z) c : csr D :=
  MkSingleImmutable (take (Z.to_nat vnum) (nbr_list c) ++
    replicate (Z.to_nat vnum - length (nbr_list c)) (erase junk)) (edge_num_ c).

(** Erases the edge of [v] if there is one and it is [hit]. *)
Definition free (hit : ImmutableNbr D → bool) c (v : Z) : csr D :=
  match slot c v with
  | Some e => if exists_edge e && hit e then write v (erase e) (-1) c else c
  | None => c
  end.
Definition batch_delete_vertices (src_set dst_set : gset Z) c : csr D :=
  let c := foldl (free (λ _, true)) c (elements src_set) in
  foldl (free (λ e, bool_decide (nbr_id e ∈ dst_set))) c (seqZ 0 (size c)).
Definition batch_delete_edges (src_list dst_list : list Z) c : csr D :=
  foldl (λ c p, free (λ e, nbr_id e =? p.2) c p.1) c (zip src_list dst_list).
Definition batch_delete_edges_offsets (edges : list (Z * Z)) c : csr D :=
  foldl (λ c p, free (λ _, true) c p.1) c edges.

Definition delete_edge (src offset ts : Z) c : csr D * res unit :=
  match slot c src with
  | None => (c, Throw InvalidArgument)
  | Some e =>
      if negb (offset =? 0) then (c, Throw InvalidArgument)
      else if exists_edge e then (write src (erase e) (-1) c, Ok tt) else (c, Ok tt)
  end.
Definition revert_delete_edge (src nbr offset ts : Z) c : csr D * res unit :=
  match slot c src with
  | None => (c, Throw InvalidArgument)
  | Some e =>
      if negb (offset =? 0) then (c, Throw InvalidArgument)
      else if exists_edge e then (c, Throw InvalidArgument)
      else (write src (MkImmutableNbr nbr (nbr_data e)) 1 c, Ok tt)
  end.

(** An edge whose source has one already is left out. *)
Definition put_slot c (p : Z * Z * D) : csr D :=
  match slot c p.1.1 with
  | Some e => if exists_edge e then c else write p.1.1 (MkImmutableNbr p.1.2 p.2) 1 c
  | None => c
  end.
Definition batch_put_edges (edges : list (Z * Z * D)) (ts : Z) c : csr D := foldl put_slot c edges.

Definition get_edges c (v : Z) : list (ImmutableNbr D) :=
  match slot c v with Some e => [e] | None => [] end.
Definition batch_export c : res (list (Z * Z * D)) := Throw CheckFailed.
Definition DetachVertex (vid : Z) c : csr D * res unit := (c, Throw NotImplemented).
End operations.
End SingleImmutableCsr.
