(* ===== verification/ImmutableCsrProperties.v ===== *)
(** * Properties of immutable adjacency tables

    The buffer of an [ImmutableCsr] is the concatenation of its lists, and every
    operation moves entries so that it stays so; a sequence of operations is
    described on plain lists.  A compaction that starts from a null pointer is
    the exception. *)

From stdpp Require Import gmap sorting.
From S2P Require Import Prelude ImmutableCsr.
Import ImmutableCsr.

Section layout.
Context {D : Type}.
Implicit Types (l pre gap post mem : list (ImmutableNbr D)) (ls : list (list (ImmutableNbr D))) (c : csr D).

(** The lists [ls] lie one behind the other from [off]; an empty one may have a
    null pointer. *)
Fixpoint laid (rs : list row) ls (off : nat) : Prop :=
  match rs, ls with
  | [], [] => True
  | r :: rs, l :: ls =>
      degree r = length l ∧ (adj r = Some off ∨ (adj r = None ∧ l = [])) ∧ laid rs ls (off + length l)
  | _, _ => False
  end.

Definition edge_count l : Z := Z.of_nat (length (filter (λ e, exists_edge e = true) l)).

Record represents c ls : Prop := {
  rep_laid : laid (rows c) ls 0;
  rep_mem : nbr_list c = concat ls;
  rep_count : edge_num_ c = u64 (edge_count (concat ls))
}.

Lemma laid_degrees rs ls off : laid rs ls off → degree <$> rs = length <$> ls.
Proof.
  revert ls off. induction rs as [|r rs IH]; intros [|l ls] off; [done..|]. cbn. intros (-> & _ & Hl). by rewrite (IH ls _ Hl).
Qed.
Lemma laid_length rs ls off : laid rs ls off → length rs = length ls.
Proof. intros Hd%laid_degrees%(f_equal length). by rewrite !length_fmap in Hd. Qed.

Lemma laid_lookup rs ls off i r :
  laid rs ls off → rs !! i = Some r →
  ∃ l, ls !! i = Some l ∧ degree r = length l ∧
    (adj r = Some (off + length (concat (take i ls)))%nat ∨ (adj r = None ∧ l = [])).
Proof.
  revert ls off i. induction rs as [|r0 rs IH]; intros [|l ls] off i; [done..|]. intros (Hd & Ha & Hl) Hr.
  destruct i as [|i]; cbn in *.
  - simplify_eq. exists l. rewrite Nat.add_0_r. done.
  - destruct (IH ls _ i Hl Hr) as (l' & ? & ? & Ha'). exists l'. split_and!; [done|done|].
    rewrite length_app. destruct Ha' as [->|]; [left; f_equal; lia|by right].
Qed.

Lemma relayout_laid off ls : laid (relayout off (length <$> ls)) ls off.
Proof. revert off. induction ls as [|l ls IH]; intros off; [done|]. cbn. auto. Qed.
Lemma open_laid off ls : laid (open_rows off (length <$> ls)) ls off.
Proof.
  revert off. induction ls as [|l ls IH]; intros off; [done|]. cbn. split_and!; [done| |apply IH].
  destruct l; cbn; auto.
Qed.
Lemma laid_app rs ls rs' ls' off :
  laid rs ls off → laid rs' ls' (off + length (concat ls)) → laid (rs ++ rs') (ls ++ ls') off.
Proof.
  revert ls off. induction rs as [|r rs IH]; intros [|l ls] off; [|done..|]; cbn.
  - by rewrite Nat.add_0_r.
  - intros (? & ? & ?) Hl. rewrite length_app in Hl. split_and!; [done|done|]. apply IH; [done|].
    by rewrite <- Nat.add_assoc.
Qed.
Lemma laid_nulls n off : laid (replicate n (MkRow None 0)) (replicate n []) off.
Proof. revert off. induction n as [|n IH]; intros off; [done|]. cbn. rewrite Nat.add_0_r. auto. Qed.

(** A list changed in place leaves the pointers as they are. *)
Lemma laid_ext rs ls ls' off : laid rs ls off → length <$> ls = length <$> ls' → laid rs ls' off.
Proof.
  revert ls ls' off. induction rs as [|r rs IH]; intros [|l ls] [|l' ls'] off; try done. cbn.
  intros (Hd & Ha & Hl) [= Hlen Hls]. rewrite <- Hlen. split_and!; [done| |by eapply IH].
  destruct Ha as [|[? ->]]; [by left|right]. destruct l'; done.
Qed.

Lemma segment_mid r pre l post :
  adj r = Some (length pre) → degree r = length l → segment (pre ++ l ++ post) r = l.
Proof. intros Ha Hd. unfold segment. by rewrite Ha, Hd, drop_app_length, take_app_length. Qed.
Lemma store_segment_mid r pre l l' post :
  adj r = Some (length pre) → length l' = length l → store_segment (pre ++ l ++ post) r l' = pre ++ l' ++ post.
Proof.
  intros Ha Hl. unfold store_segment. rewrite Ha, take_app_length, Hl, <- drop_drop, drop_app_length, drop_app_length. done.
Qed.

(** ** Counting *)

Lemma edge_count_app l l' : edge_count (l ++ l') = edge_count l + edge_count l'.
Proof. unfold edge_count. rewrite filter_app, length_app. lia. Qed.
Lemma edge_count_cons e l : edge_count (e :: l) = (if exists_edge e then 1 else 0) + edge_count l.
Proof. unfold edge_count. rewrite filter_cons. destruct (exists_edge e), (decide _); try done; cbn [length]; lia. Qed.
Lemma uncount_edges_spec l n : uncount_edges l (u64 n) = u64 (n - edge_count l).
Proof.
  unfold uncount_edges. revert n. induction l as [|e l IH]; intros n; cbn [foldl]; [unfold edge_count; cbn; f_equal; lia|].
  rewrite edge_count_cons. destruct (exists_edge e); [rewrite u64_sub_l|]; rewrite IH; f_equal; lia.
Qed.
Lemma edge_count_filter (keep : ImmutableNbr D → bool) l :
  edge_count (filter (λ e, keep e = true) l) + edge_count (filter (λ e, keep e = false) l) = edge_count l.
Proof.
  induction l as [|e l IH]; [done|]. rewrite !filter_cons, edge_count_cons.
  destruct (keep e), (decide _), (decide _); try done; rewrite edge_count_cons; lia.
Qed.
Lemma edge_count_perm l l' : l ≡ₚ l' → edge_count l = edge_count l'.
Proof. intros Hp. unfold edge_count. by rewrite Hp. Qed.

(** ** Moving down *)

Lemma slide_spec keep lazy l pre gap post :
  ∃ gap', length gap' = (length gap + length (filter (λ e, keep e = false) l))%nat ∧
  slide keep lazy (length l) (pre ++ gap ++ l ++ post) (length pre + length gap) (Some (length pre)) (length gap) =
  Ok (pre ++ filter (λ e, keep e = true) l ++ gap' ++ post,
      Some (length pre + length (filter (λ e, keep e = true) l))%nat, length gap').
Proof.
  revert pre gap. induction l as [|e l IH]; intros pre gap; cbn [length slide].
  { exists gap. cbn. by rewrite !Nat.add_0_r. }
  assert (Hrd : (pre ++ gap ++ (e :: l) ++ post) !! (length pre + length gap)%nat = Some e).
  { rewrite app_assoc, lookup_app_r by (rewrite length_app; lia). by rewrite length_app, Nat.sub_diag. }
  rewrite Hrd, !filter_cons. destruct (keep e) eqn:Ek, (decide _), (decide _); try done.
  - destruct (lazy && (length gap =? 0)%nat) eqn:Elz.
    + apply andb_true_iff in Elz as [_ Hg%Nat.eqb_eq]. destruct gap as [|]; [|done]. cbn [app length fmap option_fmap option_map] in *.
      destruct (IH (pre ++ [e]) []) as (gap' & Hl & E). exists gap'. split; [done|].
      rewrite length_app in E. cbn in E. rewrite <- !app_assoc in E. cbn in E. rewrite Nat.add_0_r in *.
      replace (S (length pre)) with (length pre + 1)%nat by lia. rewrite E. cbn. do 3 f_equal. f_equal. lia.
    + rewrite (proj2 (Nat.ltb_lt _ _)) by (rewrite !length_app; cbn; lia).
      assert (∃ gap0, length gap0 = length gap ∧
        <[length pre := e]> (pre ++ gap ++ (e :: l) ++ post) = (pre ++ [e]) ++ gap0 ++ l ++ post) as (gap0 & Hg0 & ->).
      { destruct gap as [|g gap]; cbn [app].
        - exists []. split; [done|]. rewrite insert_app_r_alt, Nat.sub_diag by lia. cbn. by rewrite <- app_assoc.
        - exists (gap ++ [e]). split; [rewrite length_app; cbn; lia|].
          rewrite insert_app_r_alt, Nat.sub_diag by lia. cbn. by rewrite <- !app_assoc. }
      destruct (IH (pre ++ [e]) gap0) as (gap' & Hl & E). exists gap'. split; [lia|].
      rewrite length_app, Hg0 in E. cbn in E. replace (S (length pre + length gap)) with (length pre + 1 + length gap)%nat by lia.
      replace (S (length pre)) with (length pre + 1)%nat by lia. rewrite E, <- app_assoc. cbn. do 3 f_equal. f_equal. lia.
  - destruct (IH pre (gap ++ [e])) as (gap' & Hl & E). exists gap'. rewrite length_app in *. cbn in *. split; [lia|].
    rewrite <- app_assoc in E. replace (S (length pre + length gap)) with (length pre + (length gap + 1))%nat by lia.
    replace (S (length gap)) with (length gap + 1)%nat by lia. exact E.
Qed.

(** Nothing to remove: nothing is written, whatever the write pointer is. *)
Lemma slide_none keep l pre post w :
  Forall (λ e, keep e = true) l →
  ∃ w', slide keep true (length l) (pre ++ l ++ post) (length pre) w 0 = Ok (pre ++ l ++ post, w', O).
Proof.
  revert pre w. induction l as [|e l IH]; intros pre w Hk; cbn [length slide]; [eauto|].
  apply Forall_cons in Hk as [He Hk]. cbn [app]. rewrite lookup_app_r, Nat.sub_diag by lia. cbn. rewrite He.
  destruct (IH (pre ++ [e]) (S <$> w) Hk) as [w' E]. exists w'. rewrite length_app in E. cbn in E.
  rewrite <- !app_assoc in E. cbn in E. by replace (S (length pre)) with (length pre + 1)%nat by lia.
Qed.

Definition kept (keep : ImmutableNbr D → bool) l : list (ImmutableNbr D) := filter (λ e, keep e = true) l.

Lemma imm_kept_length (keep : ImmutableNbr D → bool) l :
  (length (kept keep l) + length (filter (λ e, keep e = false) l))%nat = length l.
Proof.
  unfold kept. induction l as [|e l IH]; [done|]. rewrite !filter_cons.
  destruct (keep e), (decide _), (decide _); try done; cbn; lia.
Qed.

Lemma compact_rows_spec rs ls pre gap :
  laid rs ls (length pre + length gap) →
  ∃ gap', compact_rows rs (pre ++ gap ++ concat ls) (Some (length pre)) (length gap) =
    Ok (length <$> (kept exists_edge <$> ls), pre ++ concat (kept exists_edge <$> ls) ++ gap', length gap').
Proof.
  revert ls pre gap. induction rs as [|r rs IH]; intros [|l ls] pre gap; [|done..|]; cbn [laid compact_rows].
  { intros _. exists gap. cbn. by rewrite app_nil_r. }
  intros (Hd & Ha & Hl). destruct (Nat.eqb_spec (degree r) 0) as [E0|E0].
  { destruct l; [|cbn in Hd; lia]. cbn in *. rewrite Nat.add_0_r in Hl. destruct (IH ls pre gap Hl) as [gap' ->]. by exists gap'. }
  destruct Ha as [Ha|[_ ->]]; [|done]. rewrite Ha, Hd. cbn [of_option mbind res_bind].
  destruct (slide_spec exists_edge true l pre gap (concat ls)) as (gap1 & Hg1 & E). cbn [concat]. rewrite E.
  cbn [mbind res_bind].
  pose proof (imm_kept_length exists_edge l) as Hk. unfold kept in *.
  set (fl := filter (λ e, exists_edge e = true) l) in *. set (dl := filter (λ e, exists_edge e = false) l) in *.
  destruct (IH ls (pre ++ fl) gap1) as [gap' E'].
  { rewrite length_app, Hg1. replace (length pre + length fl + (length gap + length dl))%nat
      with (length pre + length gap + length l)%nat by lia. done. }
  rewrite length_app, <- !app_assoc in E'. rewrite E'. exists gap'. cbn. fold fl. rewrite <- !app_assoc.
  do 3 f_equal. f_equal. lia.
Qed.

Lemma compact_rows_none rs ls pre w :
  laid rs ls (length pre) → Forall (Forall (λ e, exists_edge e = true)) ls →
  compact_rows rs (pre ++ concat ls) w 0 = Ok (length <$> ls, pre ++ concat ls, O).
Proof.
  revert ls pre w. induction rs as [|r rs IH]; intros [|l ls] pre w; [|done..|]; cbn [laid compact_rows]; [done|].
  intros (Hd & Ha & Hl) [Hk Hks]%Forall_cons. destruct (Nat.eqb_spec (degree r) 0) as [E0|E0].
  { destruct l; [|cbn in Hd; lia]. cbn in *. rewrite Nat.add_0_r in Hl. by rewrite (IH ls pre w Hl). }
  destruct Ha as [Ha|[_ ->]]; [|done]. rewrite Ha, Hd. cbn [of_option mbind res_bind concat].
  destruct (slide_none exists_edge l pre (concat ls) w Hk) as [w' ->]. cbn [mbind res_bind]. rewrite app_assoc.
  rewrite <- length_app in Hl. rewrite (IH ls (pre ++ l) w' Hl Hks). cbn. by rewrite Nat.sub_0_r.
Qed.

(** The lists without the vertices of two sets. *)
Definition without (srcs dsts : gset Z) (k : nat) l : list (ImmutableNbr D) :=
  if bool_decide (Z.of_nat k ∈ srcs) then [] else kept (λ e, bool_decide (nbr_id e ∉ dsts)) l.

Lemma drop_rows_spec srcs dsts rs ls k pre gap n :
  laid rs ls (length pre + length gap) →
  ∃ gap', drop_rows srcs dsts k rs (pre ++ gap ++ concat ls) (length gap) (u64 n) =
    Ok (length <$> imap (λ i, without srcs dsts (k + i)) ls,
        pre ++ concat (imap (λ i, without srcs dsts (k + i)) ls) ++ gap', length gap',
        u64 (n - edge_count (concat ls) + edge_count (concat (imap (λ i, without srcs dsts (k + i)) ls)))).
Proof.
  revert ls k pre gap n. induction rs as [|r rs IH]; intros [|l ls] k pre gap n; [|done..|]; cbn [laid drop_rows].
  { intros _. exists gap. cbn. rewrite app_nil_r. unfold edge_count. cbn. do 3 f_equal. lia. }
  intros (Hd & Ha & Hl). cbn [imap concat]. rewrite Nat.add_0_r.
  assert (Himap : imap ((λ i, without srcs dsts (k + i)) ∘ S) ls = imap (λ i, without srcs dsts (S k + i)) ls).
  { apply imap_ext. intros i x _. cbn. by rewrite Nat.add_succ_r. }
  rewrite !Himap. destruct (Nat.eqb_spec (degree r) 0) as [E0|E0].
  { destruct l; [|cbn in Hd; lia]. cbn in Hl. rewrite Nat.add_0_r in Hl.
    destruct (IH ls (S k) pre gap n Hl) as [gap' E]. exists gap'. cbn [app] in *. rewrite E.
    assert (without srcs dsts k [] = []) as -> by (unfold without; by destruct (bool_decide _)). done. }
  destruct Ha as [Ha|[_ ->]]; [|done]. rewrite Ha, Hd. cbn [of_option mbind res_bind].
  assert (Hseg : segment (pre ++ gap ++ l ++ concat ls) r = l).
  { rewrite app_assoc. apply segment_mid; [by rewrite length_app|done]. }
  rewrite Hseg. case_bool_decide as Hs.
  - assert (without srcs dsts k l = []) as -> by (unfold without; by rewrite bool_decide_true).
    rewrite uncount_edges_spec. destruct (IH ls (S k) pre (gap ++ l) (n - edge_count l)) as [gap' E].
    { by rewrite length_app, Nat.add_assoc. }
    rewrite length_app, <- app_assoc in E. rewrite E. exists gap'. cbn. rewrite edge_count_app. do 3 f_equal. lia.
  - set (keep := λ e, bool_decide (nbr_id e ∉ dsts)).
    assert (without srcs dsts k l = kept keep l) as -> by (unfold without; by rewrite bool_decide_false).
    rewrite (proj2 (Nat.ltb_ge _ _)) by lia. replace (length pre + length gap - length gap)%nat with (length pre) by lia.
    destruct (slide_spec keep false l pre gap (concat ls)) as (gap1 & Hg1 & ->). cbn [mbind res_bind].
    pose proof (imm_kept_length keep l) as Hk. pose proof (edge_count_filter keep l) as Hc. unfold kept in *.
    set (fl := filter (λ e, keep e = true) l) in *. set (dl := filter (λ e, keep e = false) l) in *.
    rewrite uncount_edges_spec. destruct (IH ls (S k) (pre ++ fl) gap1 (n - edge_count dl)) as [gap' E'].
    { rewrite length_app, Hg1. replace (length pre + length fl + (length gap + length dl))%nat
        with (length pre + length gap + length l)%nat by lia. done. }
    rewrite <- !app_assoc in E'.
    change (filter (λ e, bool_decide (nbr_id e ∉ dsts) = false) l) with dl. rewrite E'.
    exists gap'. cbn. rewrite !edge_count_app, <- !app_assoc.
    replace (length l - (length gap1 - length gap))%nat with (length fl) by lia. do 3 f_equal. lia.
Qed.

(** ** Marking and sorting *)

Lemma hit_entries_count hit l :
  edge_count (erase_hits hit l) = edge_count l - edge_count (hit_entries hit l).
Proof.
  unfold erase_hits, hit_entries. revert hit. induction l as [|e l IH]; intros hit; [done|]. cbn [imap omap list_omap].
  rewrite !edge_count_cons. unfold compose. rewrite (IH (λ i, hit (S i))). cbn. destruct (hit O e); cbn.
  - rewrite edge_count_cons. unfold exists_edge at 1. cbn. unfold VID_MAX. rewrite Z.eqb_refl. cbn. lia.
  - lia.
Qed.

(** Rows handled one after the other, each inside its segment. *)
Definition erased (hit : nat → nat → ImmutableNbr D → bool) (k : nat) ls : list (list (ImmutableNbr D)) :=
  imap (λ i, erase_hits (hit (k + i)%nat)) ls.
Lemma length_erase_hits hit l : length (erase_hits hit l) = length l.
Proof. apply length_imap. Qed.

Lemma erased_cons hit k l ls : erased hit k (l :: ls) = erase_hits (hit k) l :: erased hit (S k) ls.
Proof. unfold erased. cbn. rewrite Nat.add_0_r. f_equal. apply imap_ext. intros i x _. cbn. by rewrite Nat.add_succ_r. Qed.

Lemma erase_rows_spec hit rs ls k pre n :
  laid rs ls (length pre) →
  erase_rows hit k rs (pre ++ concat ls) (u64 n) =
  (pre ++ concat (erased hit k ls), u64 (n - edge_count (concat ls) + edge_count (concat (erased hit k ls)))).
Proof.
  revert ls k pre n. induction rs as [|r rs IH]; intros [|l ls] k pre n; [|done..|]; cbn [laid erase_rows].
  { intros _. cbn. do 2 f_equal. lia. }
  intros (Hd & Ha & Hl). cbn [concat]. rewrite erased_cons. cbn [concat].
  assert (segment (pre ++ l ++ concat ls) r = l ∧
    store_segment (pre ++ l ++ concat ls) r (erase_hits (hit k) l) = (pre ++ erase_hits (hit k) l) ++ concat ls) as [-> ->].
  { destruct Ha as [Ha|[Ha ->]].
    - rewrite <- app_assoc. split; [by apply segment_mid|apply store_segment_mid; [done|apply length_erase_hits]].
    - unfold segment, store_segment. rewrite Ha. cbn. by rewrite app_nil_r. }
  rewrite uncount_edges_spec, IH by (by rewrite length_app, length_erase_hits).
  rewrite <- app_assoc, !edge_count_app, hit_entries_count. do 2 f_equal. lia.
Qed.

Lemma sort_rows_spec (std_sort : list (ImmutableNbr D) → list (ImmutableNbr D)) rs ls pre :
  (∀ l, std_sort l ≡ₚ l) → laid rs ls (length pre) →
  sort_rows std_sort rs (pre ++ concat ls) = pre ++ concat (std_sort <$> ls).
Proof.
  intros Hs. unfold sort_rows. revert ls pre. induction rs as [|r rs IH]; intros [|l ls] pre; [|done..|]; cbn [laid foldl]; [done|].
  intros (Hd & Ha & Hl). cbn [concat fmap list_fmap].
  assert (Hlen : length (std_sort l) = length l) by (by rewrite Hs).
  assert (store_segment (pre ++ l ++ concat ls) r (std_sort (segment (pre ++ l ++ concat ls) r)) =
    (pre ++ std_sort l) ++ concat ls) as ->.
  { destruct Ha as [Ha|[Ha ->]].
    - rewrite segment_mid, <- app_assoc by done. by apply store_segment_mid.
    - unfold segment, store_segment. rewrite Ha. cbn in Hlen. apply nil_length_inv in Hlen as ->. by rewrite app_nil_r. }
  rewrite IH by (by rewrite length_app, Hlen). by rewrite <- app_assoc.
Qed.

(** ** Adding edges *)

Lemma relayout_app off ds ds' : relayout off (ds ++ ds') = relayout off ds ++ relayout (off + sum_list ds) ds'.
Proof.
  revert off. induction ds as [|d ds IH]; intros off; cbn; [by rewrite Nat.add_0_r|]. by rewrite IH, Nat.add_assoc.
Qed.
Lemma relayout_lookup off ls i l :
  ls !! i = Some l →
  relayout off (length <$> ls) !! i = Some (MkRow (Some (off + length (concat (take i ls)))%nat) (length l)).
Proof.
  revert off i. induction ls as [|l0 ls IH]; intros off [|i]; try done; cbn.
  - intros [= ->]. by rewrite Nat.add_0_r.
  - intros Hl. rewrite (IH _ _ Hl), length_app. by rewrite Nat.add_assoc.
Qed.

Lemma concat_insert ls i l k x :
  ls !! i = Some l → (k < length l)%nat →
  <[(length (concat (take i ls)) + k)%nat := x]> (concat ls) = concat (<[i := <[k := x]> l]> ls).
Proof.
  intros Hl Hk. assert (Hi : (i < length ls)%nat) by (by eapply lookup_lt_Some).
  rewrite <- (take_drop_middle _ _ _ Hl) at 2. rewrite (insert_take_drop _ _ _ Hi), !concat_app. cbn [concat].
  rewrite insert_app_r, insert_app_l by done. done.
Qed.

(** Room of the given size behind every list. *)
Lemma shift_rows_spec (dl : list (list (ImmutableNbr D) * nat)) gap post :
  length gap = sum_list dl.*2 →
  ∃ segs, Forall2 (λ p s, ∃ g, s = p.1 ++ g ∧ length g = p.2) dl segs ∧
    shift_rows (reverse ((λ p, (length p.1 + p.2, length p.1)%nat) <$> dl))
      (length (concat dl.*1) + length gap) (length (concat dl.*1)) (concat dl.*1 ++ gap ++ post) =
    Ok (relayout 0 (length <$> segs), concat segs ++ post).
Proof.
  revert gap post. induction dl as [|[l x] dl IH] using rev_ind; intros gap post Hg.
  { destruct gap; [|done]. exists []. cbn. split; [constructor|done]. }
  rewrite !fmap_app, ?reverse_app, ?concat_app, ?sum_list_with_app in *. cbn [fmap list_fmap] in *.
  rewrite reverse_singleton. cbn [app shift_rows fst snd concat sum_list sum_list_with] in *.
  set (A := concat dl.*1). set (X := sum_list dl.*2) in *. unfold id in Hg.
  rewrite app_nil_r, !length_app.
  rewrite (proj2 (Nat.ltb_ge _ _)), (proj2 (Nat.ltb_ge _ _)) by lia. cbn [orb].
  replace (length A + length l + length gap - (length l + x))%nat with (length A + X)%nat by lia.
  replace (length A + length l - length l)%nat with (length A) by lia.
  unfold memmove. rewrite !length_app, (proj2 (Nat.leb_le _ _)), (proj2 (Nat.leb_le _ _)) by lia. cbn [andb mbind res_bind].
  rewrite <- !app_assoc, drop_app_length, take_app_length, take_app_add.
  rewrite <- Nat.add_assoc, <- drop_drop, drop_app_length, (Nat.add_comm X), <- drop_drop, drop_app_length, drop_app_le by lia.
  set (g := drop X gap). assert (length g = x) by (unfold g; rewrite length_drop; lia).
  set (gap' := take X (l ++ gap ++ post)). assert (Hg' : length gap' = X).
  { unfold gap'. rewrite length_take, !length_app. lia. }
  destruct (IH gap' ((l ++ g) ++ post) Hg') as (segs & Hf & E).
  exists (segs ++ [l ++ g]). split.
  { apply Forall2_app; [done|]. constructor; [by exists g|constructor]. }
  fold A in E. rewrite <- !app_assoc in *. rewrite Hg' in E. rewrite E. cbn. rewrite fmap_app, relayout_app, concat_app. cbn.
  rewrite app_nil_r, <- !app_assoc, length_app. do 3 f_equal. f_equal. f_equal; [|lia]. f_equal.
  clear -Hf. unfold A, X. induction Hf as [|[l' x'] s dl segs (g & -> & Hl) Hf IH]; [done|]. cbn in *.
  rewrite !length_app. lia.
Qed.

Lemma imap_same {A} (f : nat → A → A) (l : list A) : (∀ i x, l !! i = Some x → f i x = x) → imap f l = l.
Proof.
  intros Hf. apply list_eq. intros i. rewrite list_lookup_imap. destruct (l !! i) as [x|] eqn:E; [|done]. cbn. by rewrite (Hf i x E).
Qed.

Definition new_nbrs (edges : list (Z * Z * D)) (i : nat) : list (ImmutableNbr D) :=
  (λ e, MkImmutableNbr e.1.2 e.2) <$> filter (λ e, e.1.1 = Z.of_nat i) edges.

Lemma length_new_nbrs edges i : length (new_nbrs edges i) = edge_degree edges i.
Proof. unfold new_nbrs. by rewrite length_fmap. Qed.

Lemma new_nbrs_hit src dst d edges :
  0 ≤ src → new_nbrs ((src, dst, d) :: edges) (Z.to_nat src) = MkImmutableNbr dst d :: new_nbrs edges (Z.to_nat src).
Proof. intros Hs. unfold new_nbrs. by rewrite filter_cons_True by (cbn; lia). Qed.
Lemma new_nbrs_miss src dst d edges i :
  0 ≤ src → i ≠ Z.to_nat src → new_nbrs ((src, dst, d) :: edges) i = new_nbrs edges i.
Proof. intros Hs Hi. unfold new_nbrs. by rewrite filter_cons_False by (cbn; lia). Qed.

(** The edges of a list of segments with [k] entries in use each. *)
Lemma place_edges_spec edges ks ss n :
  length ks = length ss →
  Forall (λ e, 0 ≤ e.1.1 < Z.of_nat (length ss)) edges →
  (∀ i k s, ks !! i = Some k → ss !! i = Some s → (k + edge_degree edges i)%nat = length s) →
  place_edges (relayout 0 (length <$> ss)) ks edges (concat ss) (u64 n) =
  Ok (concat (imap (λ i s, take (default O (ks !! i)) s ++ new_nbrs edges i) ss), u64 (n + Z.of_nat (length edges))).
Proof.
  revert ks ss n. induction edges as [|[[src dst] d] edges IH]; intros ks ss n Hlen Hr Hk; cbn [place_edges].
  { cbn [length]. rewrite Z.add_0_r. do 3 f_equal. symmetry. apply imap_same. intros i s Hs. cbn.
    rewrite app_nil_r. destruct (lookup_lt_is_Some_2 ks i) as [k Hki]; [rewrite Hlen; by eapply lookup_lt_Some|].
    rewrite Hki. cbn. pose proof (Hk i k s Hki Hs) as Hz. cbn in Hz. by rewrite take_ge by lia. }
  apply Forall_cons in Hr as [[Hv0 Hv] Hr]. cbn in Hv0, Hv. set (v := Z.to_nat src).
  destruct (lookup_lt_is_Some_2 ss v) as [s Hs]; [lia|]. destruct (lookup_lt_is_Some_2 ks v) as [k Hkv]; [lia|].
  rewrite (relayout_lookup 0 ss v s Hs), Hkv. cbn [mbind option_bind adj Nat.add].
  assert (Hdv : edge_degree ((src, dst, d) :: edges) v = S (edge_degree edges v)).
  { unfold edge_degree. rewrite filter_cons_True by (cbn; lia). done. }
  pose proof (Hk v k s Hkv Hs) as Hkd. rewrite Hdv in Hkd.
  set (x := MkImmutableNbr dst d). rewrite (concat_insert ss v s k x) by (done || lia).
  assert (Hlt : (length (concat (take v ss)) + k < length (concat ss))%nat).
  { rewrite <- (take_drop_middle _ _ _ Hs) at 2. rewrite concat_app. cbn. rewrite !length_app. lia. }
  rewrite (proj2 (Nat.ltb_lt _ _) Hlt).
  set (ss' := <[v := <[k := x]> s]> ss).
  assert (Hss' : length <$> ss' = length <$> ss).
  { unfold ss'. rewrite list_fmap_insert, length_insert. apply list_insert_id. by rewrite list_lookup_fmap, Hs. }
  rewrite <- Hss', u64_add_l, IH; [| | |].
  - rewrite <- Z.add_assoc. f_equal. f_equal; [|f_equal; cbn [length]; lia]. f_equal.
    apply list_eq. intros i. rewrite !list_lookup_imap. unfold ss'.
    destruct (decide (i = v)) as [->|Hne].
    + rewrite !list_lookup_insert_eq by (by eapply lookup_lt_Some). rewrite Hs, Hkv. cbn [fmap option_fmap option_map default].
      f_equal. unfold v. rewrite new_nbrs_hit by done. fold v x. cbn. unfold id.
      rewrite (take_S_r _ _ x) by (apply list_lookup_insert_eq; lia). rewrite take_insert_ge by lia. by rewrite <- app_assoc.
    + rewrite !list_lookup_insert_ne by done. destruct (ss !! i); [|done]. cbn [fmap option_fmap option_map].
      by rewrite new_nbrs_miss.
  - unfold ss'. rewrite !length_insert. lia.
  - unfold ss'. by rewrite length_insert.
  - intros i k' s' Hk' Hs'. unfold ss' in Hs'. destruct (decide (i = v)) as [->|Hne].
    + rewrite list_lookup_insert_eq in Hk' by (by eapply lookup_lt_Some).
      rewrite list_lookup_insert_eq in Hs' by (by eapply lookup_lt_Some). simplify_eq. rewrite length_insert. lia.
    + rewrite list_lookup_insert_ne in Hk' by done. rewrite list_lookup_insert_ne in Hs' by done.
       rewrite <- (Hk i k' s' Hk' Hs'). unfold edge_degree.
      rewrite filter_cons_False by (cbn; lia). done.
Qed.

Definition with_edges (edges : list (Z * Z * D)) ls : list (list (ImmutableNbr D)) :=
  imap (λ i l, l ++ new_nbrs edges i) ls.

Lemma with_edges_perm edges ls :
  Forall (λ e, 0 ≤ e.1.1 < Z.of_nat (length ls)) edges →
  concat (with_edges edges ls) ≡ₚ concat ls ++ ((λ e, MkImmutableNbr e.1.2 e.2) <$> edges).
Proof.
  revert ls. induction edges as [|[[src dst] d] edges IH]; intros ls Hr.
  { unfold with_edges. rewrite imap_same by (intros; apply app_nil_r). by rewrite app_nil_r. }
  apply Forall_cons in Hr as [[Hv0 Hv] Hr]. cbn in *. set (v := Z.to_nat src). set (x := MkImmutableNbr dst d).
  destruct (lookup_lt_is_Some_2 ls v) as [l Hl]; [lia|].
  assert (with_edges ((src, dst, d) :: edges) ls = with_edges edges (<[v := l ++ [x]]> ls)) as ->.
  { unfold with_edges. apply list_eq. intros i. rewrite !list_lookup_imap. destruct (decide (i = v)) as [->|Hne].
    - rewrite list_lookup_insert_eq by (by eapply lookup_lt_Some). rewrite Hl. cbn [fmap option_fmap option_map].
      unfold v. rewrite new_nbrs_hit by done. by rewrite <- app_assoc.
    - rewrite list_lookup_insert_ne by done. destruct (ls !! i); [|done]. cbn [fmap option_fmap option_map].
      by rewrite new_nbrs_miss. }
  rewrite IH by (by rewrite ?length_insert). rewrite (insert_take_drop _ _ _) by (by eapply lookup_lt_Some).
  rewrite <- (take_drop_middle _ _ _ Hl) at 3. rewrite !concat_app. cbn [concat].
  rewrite <- !app_assoc. do 2 f_equiv. rewrite <- Permutation_middle. by rewrite app_assoc.
Qed.

Lemma edge_count_new edges :
  Forall (λ e : Z * Z * D, e.1.2 ≠ VID_MAX) edges →
  edge_count ((λ e, MkImmutableNbr e.1.2 e.2) <$> edges) = Z.of_nat (length edges).
Proof.
  induction 1 as [|e edges He Hd IH]; [done|]. cbn [fmap list_fmap length]. rewrite edge_count_cons. unfold list_fmap in IH.
  change (edge_count ((λ e, MkImmutableNbr e.1.2 e.2) <$> edges) = Z.of_nat (length edges)) in IH. rewrite IH.
  unfold exists_edge. cbn. rewrite (proj2 (Z.eqb_neq _ _)) by done. cbn. lia.
Qed.

Lemma with_edges_degrees edges ls k :
  length (concat (imap (λ i l, l ++ new_nbrs edges (k + i)) ls)) =
  (length (concat ls) + sum_list (imap (λ i _, edge_degree edges (k + i)) ls))%nat.
Proof.
  revert k. induction ls as [|l ls IH]; intros k; [done|]. cbn [imap concat]. rewrite !length_app, length_new_nbrs, Nat.add_0_r.
  rewrite (imap_ext _ (λ i l, l ++ new_nbrs edges (S k + i))) by (intros; cbn; by rewrite Nat.add_succ_r).
  rewrite (imap_ext ((λ i _, edge_degree edges (k + i)) ∘ S) (λ i _, edge_degree edges (S k + i)))
    by (intros; cbn; by rewrite Nat.add_succ_r).
  rewrite IH. cbn [sum_list sum_list_with]. unfold id. lia.
Qed.

(** ** Operations on represented tables *)

Lemma batch_put_spec junk c ls edges ts :
  represents c ls → Forall (λ e, 0 ≤ e.1.1 < Z.of_nat (length ls)) edges → Forall (λ e, e.1.2 ≠ VID_MAX) edges →
  ∃ c', batch_put_edges junk edges ts c = (c', Ok tt) ∧ represents c' (with_edges edges ls) ∧
    unsorted_since_ c' = (if ts <? unsorted_since_ c then 0 else unsorted_since_ c).
Proof.
  intros [Hl Hm Hn] Hr Hd. unfold batch_put_edges, size. rewrite (laid_length _ _ _ Hl).
  assert (forallb (λ e, (0 <=? e.1.1) && (e.1.1 <? Z.of_nat (length ls))) edges = true) as ->.
  { apply Is_true_true, forallb_True, (Forall_impl _ _ _ Hr). intros e He.
    rewrite (proj2 (Z.leb_le _ _)), (proj2 (Z.ltb_lt _ _)) by lia. done. }
  cbn [negb]. rewrite Hm, (laid_degrees _ _ _ Hl). set (dl := imap (λ i l, (l, edge_degree edges i)) ls).
  assert (Hd1 : dl.*1 = ls). { unfold dl. rewrite fmap_imap. by apply imap_same. }
  assert (Hz : zip (imap (λ i k, (k + edge_degree edges i)%nat) (length <$> ls)) (length <$> ls) =
    (λ p, (length p.1 + p.2, length p.1)%nat) <$> dl).
  { apply list_eq. intros i. unfold dl. rewrite list_lookup_fmap, lookup_zip_with, !list_lookup_imap, list_lookup_fmap.
    by destruct (ls !! i). }
  assert (Hsum : length (replicate (length edges) junk) = sum_list dl.*2).
  { pose proof (with_edges_degrees edges ls 0) as Hlen. cbn [Nat.add] in Hlen. fold (with_edges edges ls) in Hlen.
    rewrite (with_edges_perm edges ls Hr), length_app, length_fmap in Hlen. rewrite length_replicate. unfold dl. rewrite fmap_imap.
    change (imap (λ i _, edge_degree edges i) ls) with (imap (λ n, snd ∘ (λ l, (l, edge_degree edges n))) ls) in Hlen. lia. }
  destruct (shift_rows_spec dl _ [] Hsum) as (segs & Hf & E). rewrite Hd1, !app_nil_r in E.
  rewrite Hz, length_app, E. cbn [mbind res_bind].
  assert (Hlen : length segs = length ls) by (rewrite <- (Forall2_length _ _ _ Hf); apply length_imap).
  assert (Hseg : ∀ i s, segs !! i = Some s → ∃ l g, ls !! i = Some l ∧ s = l ++ g ∧ length g = edge_degree edges i).
  { intros i s Hs. destruct (Forall2_lookup_r _ _ _ _ _ Hf Hs) as ([l x] & Hp & g & -> & Hg). unfold dl in Hp.
    rewrite list_lookup_imap in Hp. destruct (ls !! i) as [l'|]; [|done]. cbn in Hp. simplify_eq. cbn. eauto. }
  rewrite Hn, (place_edges_spec edges (length <$> ls) segs).
  2:{ by rewrite length_fmap. }
  2:{ by rewrite Hlen. }
  2:{ intros i k s Hk Hs. destruct (Hseg i s Hs) as (l & g & Hli & -> & Hg). rewrite list_lookup_fmap, Hli in Hk.
      cbn in Hk. simplify_eq. rewrite length_app. lia. }
  cbn [mbind res_bind]. eexists. split; [done|]. split; [|done].
  assert (imap (λ i s, take (default O ((length <$> ls) !! i)) s ++ new_nbrs edges i) segs = with_edges edges ls) as ->.
  { apply list_eq. intros i. unfold with_edges. rewrite !list_lookup_imap. destruct (segs !! i) as [s|] eqn:Es.
    - destruct (Hseg i s Es) as (l & g & Hli & -> & Hg). rewrite list_lookup_fmap, Hli. cbn. unfold id. by rewrite take_app_length.
    - apply lookup_ge_None in Es. rewrite Hlen in Es. by rewrite (lookup_ge_None_2 ls i Es). }
  split; cbn [rows nbr_list edge_num_]; [|done|].
  - apply (laid_ext _ segs); [apply relayout_laid|]. apply list_eq. intros i. unfold with_edges.
    rewrite !list_lookup_fmap, list_lookup_imap. destruct (segs !! i) as [s|] eqn:Es.
    + destruct (Hseg i s Es) as (l & g & Hli & -> & Hg). rewrite Hli. cbn. by rewrite !length_app, length_new_nbrs, Hg.
    + apply lookup_ge_None in Es. rewrite Hlen in Es. by rewrite (lookup_ge_None_2 ls i Es).
  - rewrite (edge_count_perm _ _ (with_edges_perm edges ls Hr)), edge_count_app, edge_count_new by done. done.
Qed.

Lemma edge_count_insert ls i l k e x :
  ls !! i = Some l → l !! k = Some e →
  edge_count (concat (<[i := <[k := x]> l]> ls)) =
  edge_count (concat ls) - (if exists_edge e then 1 else 0) + (if exists_edge x then 1 else 0).
Proof.
  intros Hl He. rewrite (insert_take_drop ls) by (by eapply lookup_lt_Some).
  rewrite (insert_take_drop l) by (by eapply lookup_lt_Some).
  rewrite <- (take_drop_middle _ _ _ Hl) at 3. rewrite <- (take_drop_middle _ _ _ He) at 3.
  rewrite !concat_app. cbn [concat]. rewrite !edge_count_app, !edge_count_cons. lia.
Qed.

(** The entry at a slot, for positions that are not negative. *)
Definition entry_at ls (src offset : Z) : option (ImmutableNbr D) := ls !! Z.to_nat src ≫= (.!! Z.to_nat offset).
Definition set_entry (src offset : Z) (x : ImmutableNbr D) ls : list (list (ImmutableNbr D)) :=
  alter (<[Z.to_nat offset := x]>) (Z.to_nat src) ls.

Lemma imm_slot_at_spec c ls src offset :
  represents c ls → 0 ≤ src → 0 ≤ offset →
  match entry_at ls src offset with
  | None => slot_at c src offset = Throw InvalidArgument
  | Some e => ∃ q, slot_at c src offset = Ok (q, e) ∧
      ∀ x u n, n = u64 (edge_count (concat ls) - (if exists_edge e then 1 else 0) + (if exists_edge x then 1 else 0)) →
        represents (MkCsr (rows c) (<[q := x]> (nbr_list c)) u n) (set_entry src offset x ls)
  end.
Proof.
  intros [Hl Hm Hn] Hs Ho. unfold entry_at, slot_at, row_at. rewrite (proj2 (Z.leb_le _ _)) by done.
  destruct (rows c !! Z.to_nat src) as [r|] eqn:Er.
  2:{ apply lookup_ge_None in Er. rewrite (laid_length _ _ _ Hl) in Er. by rewrite (lookup_ge_None_2 _ _ Er). }
  destruct (laid_lookup _ _ _ _ _ Hl Er) as (l & Hli & Hd & Ha). rewrite Hli, Hd. cbn [mbind option_bind].
  destruct (Z.leb_spec (Z.of_nat (length l)) offset) as [Hge|Hlt]; [by rewrite lookup_ge_None_2 by lia|].
  destruct (lookup_lt_is_Some_2 l (Z.to_nat offset)) as [e He]; [lia|]. rewrite He, (proj2 (Z.ltb_ge _ _)) by lia.
  destruct Ha as [->|[_ ->]]; [|done]. set (p := length (concat (take (Z.to_nat src) ls))).
  assert (Hq : concat ls !! (p + Z.to_nat offset)%nat = Some e).
  { rewrite <- (take_drop_middle _ _ _ Hli), concat_app, lookup_app_r by (unfold p; lia).
    cbn [concat]. replace (_ - _)%nat with (Z.to_nat offset) by (unfold p; lia). by apply lookup_app_l_Some. }
  cbn [Nat.add]. rewrite Hm, Hq. cbn. eexists. split; [done|]. intros x u n ->. unfold set_entry.
  assert (alter (<[Z.to_nat offset:=x]>) (Z.to_nat src) ls = <[Z.to_nat src := <[Z.to_nat offset := x]> l]> ls) as ->.
  { apply list_eq. intros i. destruct (decide (i = Z.to_nat src)) as [->|].
    - rewrite list_lookup_alter_eq, list_lookup_insert_eq, Hli by (by eapply lookup_lt_Some). done.
    - by rewrite list_lookup_alter_ne, list_lookup_insert_ne. }
  split; cbn [rows nbr_list edge_num_].
  - apply (laid_ext _ ls); [done|]. rewrite list_fmap_insert, length_insert. symmetry. apply list_insert_id.
    by rewrite list_lookup_fmap, Hli.
  - apply concat_insert; [done|lia].
  - by rewrite (edge_count_insert _ _ _ _ e).
Qed.

Lemma erase_rows_represents hit c ls :
  represents c ls →
  let x := erase_rows hit 0 (rows c) (nbr_list c) (edge_num_ c) in
  represents (MkCsr (rows c) x.1 0 x.2) (erased hit 0 ls).
Proof.
  intros [Hl Hm Hn] x. pose proof (erase_rows_spec hit (rows c) ls 0 [] (edge_count (concat ls)) Hl) as E.
  cbn [app] in E. unfold x. rewrite Hm, Hn, E. split; cbn [rows nbr_list edge_num_ fst snd].
  - apply (laid_ext _ ls); [done|]. unfold erased. rewrite fmap_imap. apply list_eq. intros i.
    rewrite list_lookup_fmap, list_lookup_imap. destruct (ls !! i); [|done]. cbn. by rewrite length_erase_hits.
  - done.
  - f_equal. lia.
Qed.
End layout.

(** ** Sequences of operations *)

Inductive imm_op (D : Type) :=
  | IPut (edges : list (Z * Z * D)) (ts : Z)
  | IDelete (src offset ts : Z)
  | IRevert (src nbr offset ts : Z)
  | IDeleteVertices (src_set dst_set : gset Z)
  | IDeleteEdges (src_list dst_list : list Z)
  | IDeleteSlots (edges : list (Z * Z))
  | ICompact
  | ISort (ts : Z)
  | IResize (vnum : Z)
  | IReopen.
Arguments IPut {D}. Arguments IDelete {D}. Arguments IRevert {D}. Arguments IDeleteVertices {D}.
Arguments IDeleteEdges {D}. Arguments IDeleteSlots {D}. Arguments ICompact {D}. Arguments ISort {D}.
Arguments IResize {D}. Arguments IReopen {D}.

Section runs.
Context {D : Type} (junk : ImmutableNbr D) (std_sort : list (ImmutableNbr D) → list (ImmutableNbr D)).
Implicit Types (c : csr D) (ls : list (list (ImmutableNbr D))) (g : list (list (ImmutableNbr D)) * Z) (o : imm_op D).

Definition reopened c : csr D := let '(ds, mem, u, n) := Dump c in Open ds mem u n.

Definition imm_step o c : csr D * res unit :=
  match o with
  | IPut edges ts => batch_put_edges junk edges ts c
  | IDelete src offset ts => delete_edge src offset ts c
  | IRevert src nbr offset ts => revert_delete_edge src nbr offset ts c
  | IDeleteVertices srcs dsts => batch_delete_vertices srcs dsts c
  | IDeleteEdges srcs dsts => (batch_delete_edges srcs dsts c, Ok tt)
  | IDeleteSlots es => batch_delete_edges_offsets es c
  | ICompact => compact c
  | ISort ts => (batch_sort_by_edge_data std_sort ts c, Ok tt)
  | IResize n => (resize n c, Ok tt)
  | IReopen => (reopened c, Ok tt)
  end.

(** On plain lists, where the source defines what happens: positions and
    vertices that are not negative, new edges between vertices of the table,
    lists whose length fits the [int] of the degree array, tables that only grow, and a
    compaction that either finds nothing to remove or has edges at the first vertex. *)
Definition named_pair (pairs : list (Z * Z)) (k i : nat) (e : ImmutableNbr D) : bool :=
  exists_edge e && bool_decide ((Z.of_nat k, nbr_id e) ∈ pairs).
Definition named_offset (es : list (Z * Z)) (k i : nat) (e : ImmutableNbr D) : bool :=
  bool_decide ((Z.of_nat k, Z.of_nat i) ∈ es).
Definition solid ls : bool := forallb (forallb exists_edge) ls.
Definition degrees_fit ls : bool := forallb (λ l, Z.of_nat (length l) <? 2^31) ls.
(** Not so in [null_compaction]. *)
Definition compactable ls : Prop := solid ls = true ∨ default [] (head ls) ≠ [].

Definition lists_step o g : option (list (list (ImmutableNbr D)) * Z * res unit) :=
  let '(ls, u) := g in
  match o with
  | IPut edges ts =>
      guard (forallb (λ e, (0 <=? e.1.1) && (e.1.1 <? Z.of_nat (length ls)) && negb (e.1.2 =? VID_MAX)) edges = true ∧
             degrees_fit (with_edges edges ls) = true);;
      Some (with_edges edges ls, if ts <? u then 0 else u, Ok tt)
  | IDelete src offset ts =>
      guard (0 ≤ src ∧ 0 ≤ offset);;
      Some (match entry_at ls src offset with
            | None => (ls, u, Throw InvalidArgument)
            | Some e => if exists_edge e then (set_entry src offset (erase e) ls, 0, Ok tt) else (ls, u, Ok tt)
            end)
  | IRevert src nbr offset ts =>
      guard (0 ≤ src ∧ 0 ≤ offset ∧ nbr ≠ VID_MAX);;
      Some (match entry_at ls src offset with
            | None => (ls, u, Throw InvalidArgument)
            | Some e => if exists_edge e then (ls, u, Throw InvalidArgument)
                        else (set_entry src offset (MkImmutableNbr nbr (nbr_data e)) ls, u, Ok tt)
            end)
  | IDeleteVertices srcs dsts => Some (imap (without srcs dsts) ls, 0, Ok tt)
  | IDeleteEdges srcs dsts => Some (erased (named_pair (zip srcs dsts)) 0 ls, 0, Ok tt)
  | IDeleteSlots es => guard (Forall (λ p, 0 ≤ p.2) es);; Some (erased (named_offset es) 0 ls, 0, Ok tt)
  | ICompact => guard (compactable ls);; Some (kept exists_edge <$> ls, u, Ok tt)
  | ISort ts => Some (std_sort <$> ls, ts, Ok tt)
  | IResize n => guard (Z.of_nat (length ls) ≤ n);; Some (ls ++ replicate (Z.to_nat n - length ls) [], u, Ok tt)
  | IReopen => Some (ls, u, Ok tt)
  end.

Fixpoint imm_run (os : list (imm_op D)) c : csr D * list (res unit) :=
  match os with
  | [] => (c, [])
  | o :: os => let x := imm_step o c in let y := imm_run os x.1 in (y.1, x.2 :: y.2)
  end.
Fixpoint lists_run (os : list (imm_op D)) g : option (list (list (ImmutableNbr D)) * Z * list (res unit)) :=
  match os with
  | [] => Some (g, [])
  | o :: os =>
      '(g, r) ← lists_step o g;
      '(g, rs) ← lists_run os g;
      Some (g, r :: rs)
  end.

Lemma erased_ext hit hit' ls :
  (∀ k i l e, ls !! k = Some l → l !! i = Some e → hit k i e = hit' k i e) → erased hit 0 ls = erased hit' 0 ls.
Proof.
  intros Hx. unfold erased. apply imap_ext. intros k l Hl. cbn. apply imap_ext. intros i e He. by rewrite (Hx k i l e).
Qed.

Lemma kept_all ls : solid ls = true → kept exists_edge <$> ls = ls.
Proof.
  intros Hs. rewrite <- (list_fmap_id ls) at 2. apply list_fmap_ext. intros i l Hl. cbn. unfold kept.
  apply filter_all_in. intros e He. unfold solid in Hs. rewrite forallb_forall in Hs.
  specialize (Hs l (proj1 (list_elem_of_In _ _) (list_elem_of_lookup_2 _ _ _ Hl))). rewrite forallb_forall in Hs.
  by apply Hs, list_elem_of_In.
Qed.

Lemma edge_count_kept ls : edge_count (concat (kept exists_edge <$> ls)) = edge_count (concat ls).
Proof.
  induction ls as [|l ls IH]; [done|]. rewrite fmap_cons. cbn [concat]. rewrite !edge_count_app, IH.
  unfold kept, edge_count. rewrite list_filter_filter. f_equal. f_equal. f_equal. apply list_filter_iff. intros e. tauto.
Qed.

Lemma imm_compact_spec c ls :
  represents c ls → solid ls = true ∨ default [] (head ls) ≠ [] →
  ∃ c', compact c = (c', Ok tt) ∧ represents c' (kept exists_edge <$> ls) ∧ unsorted_since_ c' = unsorted_since_ c.
Proof.
  intros [Hl Hm Hn] Hh. unfold compact. destruct (rows c) as [|r rs] eqn:Er.
  { destruct ls; [|done]. exists c. split_and!; [done| |done]. split; rewrite ?Er; done. }
  assert (∃ gap, compact_rows (r :: rs) (nbr_list c) (adj r) 0 =
    Ok (length <$> (kept exists_edge <$> ls), concat (kept exists_edge <$> ls) ++ gap, length gap)) as [gap ->].
  { rewrite Hm. destruct Hh as [Hs|Hh].
    - exists []. rewrite kept_all, app_nil_r by done. apply (compact_rows_none _ ls []); [done|].
      apply Forall_forall. intros l Hli%list_elem_of_In. apply Forall_forall. intros e He%list_elem_of_In.
      unfold solid in Hs. rewrite forallb_forall in Hs. specialize (Hs l Hli). rewrite forallb_forall in Hs. auto.
    - destruct ls as [|l ls]; [done|]. cbn in Hh. unfold id in Hh.
      assert (adj r = Some O) as -> by (destruct Hl as (_ & [|[_ ->]] & _); done).
      destruct (compact_rows_spec (r :: rs) (l :: ls) [] [] Hl) as [gap E]. exists gap. exact E. }
  eexists. split; [done|]. split; [|done]. split; cbn [rows nbr_list edge_num_].
  - apply relayout_laid.
  - rewrite length_app, Nat.add_sub. apply take_app_length.
  - by rewrite Hn, edge_count_kept.
Qed.

Lemma imm_batch_delete_vertices_spec srcs dsts c ls :
  represents c ls →
  ∃ c', batch_delete_vertices srcs dsts c = (c', Ok tt) ∧ represents c' (imap (without srcs dsts) ls) ∧ unsorted_since_ c' = 0.
Proof.
  intros [Hl Hm Hn]. unfold batch_delete_vertices.
  destruct (drop_rows_spec srcs dsts (rows c) ls 0 [] [] (edge_count (concat ls)) Hl) as [gap E].
  cbn [app length] in E. rewrite Hm, Hn, E. eexists. split; [done|]. split; [|done]. split; cbn [rows nbr_list edge_num_].
  - apply relayout_laid.
  - rewrite length_app, Nat.add_sub. apply take_app_length.
  - by rewrite Z.sub_diag.
Qed.

Hypothesis sort_perm : ∀ l, std_sort l ≡ₚ l.

Lemma sort_spec ts c ls :
  represents c ls → represents (batch_sort_by_edge_data std_sort ts c) (std_sort <$> ls).
Proof.
  intros [Hl Hm Hn]. unfold batch_sort_by_edge_data. split; cbn [rows nbr_list edge_num_].
  - apply (laid_ext _ ls); [done|]. rewrite <- list_fmap_compose. apply list_fmap_ext. intros i l _. cbn. by rewrite sort_perm.
  - rewrite Hm. by apply (sort_rows_spec std_sort _ _ []).
  - rewrite Hn. f_equal. apply edge_count_perm. clear -sort_perm. induction ls as [|l ls IH]; [done|]. cbn. by rewrite sort_perm, <- IH.
Qed.

Lemma resize_spec n c ls :
  represents c ls → Z.of_nat (length ls) ≤ n →
  represents (resize n c) (ls ++ replicate (Z.to_nat n - length ls) []).
Proof.
  intros [Hl Hm Hn] Hle. pose proof (laid_length _ _ _ Hl) as Hlen.
  assert (Hc : concat (ls ++ replicate (Z.to_nat n - length ls) []) = concat ls).
  { rewrite concat_app. induction (Z.to_nat n - length ls)%nat as [|k IH]; cbn; [apply app_nil_r|done]. }
  split; rewrite ?Hc; [|done|done]. unfold resize, size. cbn [rows]. rewrite Hlen.
  destruct (Z.ltb_spec (Z.of_nat (length ls)) n) as [Hlt|Hge].
  - replace (Z.to_nat (n - Z.of_nat (length ls))) with (Z.to_nat n - length ls)%nat by lia. apply laid_app; [done|apply laid_nulls].
  - replace (Z.to_nat n) with (length ls) by lia. rewrite Nat.sub_diag, app_nil_r, <- Hlen, firstn_all. done.
Qed.

Lemma imm_reopen_spec c ls : represents c ls → represents (reopened c) ls.
Proof.
  intros [Hl Hm Hn]. split; [|done|done]. unfold reopened, Dump. cbn. rewrite (laid_degrees _ _ _ Hl). apply open_laid.
Qed.

Lemma delete_spec c ls src offset ts g' r :
  represents c ls → lists_step (IDelete src offset ts) (ls, unsorted_since_ c) = Some (g', r) →
  ∃ c', delete_edge src offset ts c = (c', r) ∧ represents c' g'.1 ∧ unsorted_since_ c' = g'.2.
Proof.
  intros Hr Hs. cbn in Hs. case_guard as Hpos; [|done]. simplify_option_eq. pose proof (imm_slot_at_spec c ls src offset Hr (proj1 Hpos) (proj2 Hpos)) as Ha.
  unfold delete_edge. destruct (entry_at ls src offset) as [e|]; [|by rewrite Ha; simplify_eq; eauto].
  destruct Ha as (q & -> & Hst). destruct (exists_edge e) eqn:Ee; simplify_eq; cbn [negb]; [|by eauto].
  eexists. split_and!; [done| |done]. apply Hst. rewrite ?Ee, (rep_count _ _ Hr), u64_sub_l. unfold exists_edge. cbn.
  rewrite Z.eqb_refl. f_equal. cbn. lia.
Qed.

Lemma revert_spec c ls src nbr offset ts g' r :
  represents c ls → lists_step (IRevert src nbr offset ts) (ls, unsorted_since_ c) = Some (g', r) →
  ∃ c', revert_delete_edge src nbr offset ts c = (c', r) ∧ represents c' g'.1 ∧ unsorted_since_ c' = g'.2.
Proof.
  intros Hr Hs. cbn in Hs. case_guard as Hpos; [|done]. simplify_option_eq. destruct Hpos as (Hp1 & Hp2 & Hnbr).
  pose proof (imm_slot_at_spec c ls src offset Hr Hp1 Hp2) as Ha.
  unfold revert_delete_edge. destruct (entry_at ls src offset) as [e|]; [|by rewrite Ha; simplify_eq; eauto].
  destruct Ha as (q & -> & Hst). destruct (exists_edge e) eqn:Ee; simplify_eq; [by eauto|].
  eexists. split_and!; [done| |done]. apply Hst. rewrite ?Ee, (rep_count _ _ Hr), u64_add_l. unfold exists_edge. cbn.
  rewrite (proj2 (Z.eqb_neq _ _)) by done. cbn. f_equal. lia.
Qed.

Lemma delete_edges_spec c ls srcs dsts :
  represents c ls → represents (batch_delete_edges srcs dsts c) (erased (named_pair (zip srcs dsts)) 0 ls).
Proof.
  intros Hr. unfold batch_delete_edges. set (pairs := filter _ _). set (hit := λ _ _ _, _).
  pose proof (erase_rows_represents hit c ls Hr) as Hx. cbv zeta in Hx.
  destruct (erase_rows hit 0 (rows c) (nbr_list c) (edge_num_ c)) as [mem n]. cbn [fst snd] in Hx.
  rewrite (erased_ext _ hit); [done|]. intros k i l e Hk _. unfold hit, named_pair. f_equal. apply bool_decide_ext.
  unfold pairs. rewrite list_elem_of_filter. cbn. unfold size. rewrite (laid_length _ _ _ (rep_laid _ _ Hr)).
  apply lookup_lt_Some in Hk. split; [|tauto]. intros ?. split; [lia|done].
Qed.

Lemma delete_slots_spec c ls es :
  represents c ls → Forall (λ p, 0 ≤ p.2) es →
  ∃ c', batch_delete_edges_offsets es c = (c', Ok tt) ∧ represents c' (erased (named_offset es) 0 ls) ∧ unsorted_since_ c' = 0.
Proof.
  intros Hr Hes. unfold batch_delete_edges_offsets. set (fs := filter _ _).
  assert (forallb (λ p, 0 <=? p.2) fs = true) as ->.
  { apply Is_true_true, forallb_True, Forall_forall. intros p [_ Hp]%list_elem_of_filter.
    rewrite Forall_forall in Hes. apply Is_true_true, Z.leb_le. auto. }
  set (hit := λ _ _ _, _). pose proof (erase_rows_represents hit c ls Hr) as Hx. cbv zeta in Hx.
  destruct (erase_rows hit 0 (rows c) (nbr_list c) (edge_num_ c)) as [mem n]. cbn [fst snd] in Hx.
  eexists. split_and!; [done| |done]. rewrite (erased_ext _ hit); [done|]. intros k i l e Hk Hi. unfold hit, named_offset.
  apply bool_decide_ext. unfold fs. rewrite list_elem_of_filter. split; [|tauto]. intros ?. split; [|done].
  unfold offset_in_range, row_at. cbn. rewrite (proj2 (Z.leb_le _ _)), Nat2Z.id by lia.
  destruct (lookup_lt_is_Some_2 (rows c) k) as [r Hrow].
  { rewrite (laid_length _ _ _ (rep_laid _ _ Hr)). by eapply lookup_lt_Some. }
  destruct (laid_lookup _ _ _ _ _ (rep_laid _ _ Hr) Hrow) as (l' & Hl' & Hd & _). rewrite Hrow, Hd. simplify_eq.
  apply Z.ltb_lt. apply lookup_lt_Some in Hi. lia.
Qed.

Lemma put_allowed edges ls :
  forallb (λ e : Z * Z * D, (0 <=? e.1.1) && (e.1.1 <? Z.of_nat (length ls)) && negb (e.1.2 =? VID_MAX)) edges = true →
  Forall (λ e, 0 ≤ e.1.1 < Z.of_nat (length ls)) edges ∧ Forall (λ e, e.1.2 ≠ VID_MAX) edges.
Proof.
  intros H%Is_true_true%forallb_True. rewrite <- Forall_and. apply (Forall_impl _ _ _ H). intros e He%Is_true_true.
  apply andb_true_iff in He as [[H1%Z.leb_le H2%Z.ltb_lt]%andb_true_iff H3%negb_true_iff%Z.eqb_neq]. done.
Qed.

Lemma imm_step_refines o c ls g' r :
  represents c ls → lists_step o (ls, unsorted_since_ c) = Some (g', r) →
  ∃ c', imm_step o c = (c', r) ∧ represents c' g'.1 ∧ unsorted_since_ c' = g'.2.
Proof.
  intros Hr. destruct o as [edges ts|src offset ts|src nbr offset ts|srcs dsts|srcs dsts|es| |ts|n|]; cbn [imm_step]; intros Hs.
  2: by apply delete_spec in Hs. 2: by apply revert_spec in Hs.
  all: cbn in Hs; try (case_guard as Hg; [|done]); simplify_option_eq; cbn [fst snd].
  - destruct (put_allowed _ _ (proj1 Hg)). by apply (batch_put_spec junk).
  - by apply imm_batch_delete_vertices_spec.
  - eexists. split_and!; [done|by apply delete_edges_spec|]. unfold batch_delete_edges. by destruct (erase_rows _ _ _ _ _).
  - by apply delete_slots_spec.
  - by apply imm_compact_spec.
  - eexists. split_and!; [done|by apply sort_spec|done].
  - eexists. split_and!; [done|by apply resize_spec|done].
  - eexists. split_and!; [done|by apply imm_reopen_spec|done].
Qed.

Lemma imm_run_refines os c ls g' rs :
  represents c ls → lists_run os (ls, unsorted_since_ c) = Some (g', rs) →
  ∃ c', imm_run os c = (c', rs) ∧ represents c' g'.1 ∧ unsorted_since_ c' = g'.2.
Proof.
  revert c ls rs. induction os as [|o os IH]; intros c ls rs Hr Hs; cbn [lists_run imm_run] in *; [simplify_eq; eauto|].
  destruct (lists_step o (ls, unsorted_since_ c)) as [[[ls1 u1] r]|] eqn:Eo; [|done]. cbn in Hs.
  destruct (lists_run os (ls1, u1)) as [[g2 rs2]|] eqn:Er; [|done]. cbn in Hs. simplify_eq.
  destruct (imm_step_refines o c ls (ls1, u1) r Hr Eo) as (c1 & E1 & Hr1 & Hu1). cbn in Hr1, Hu1. subst u1.
  destruct (IH c1 ls1 rs2 Hr1 Er) as (c' & E' & Hc'). exists c'. rewrite E1. cbn. rewrite E'. done.
Qed.

Lemma represents_edges c ls v : represents c ls → 0 ≤ v → get_edges c v = default [] (ls !! Z.to_nat v).
Proof.
  intros [Hl Hm Hn] Hv. unfold get_edges, row_at. rewrite (proj2 (Z.leb_le _ _)) by done.
  destruct (rows c !! Z.to_nat v) as [r|] eqn:Er.
  - destruct (laid_lookup _ _ _ _ _ Hl Er) as (l & Hli & Hd & Ha). rewrite Hli, Hm. cbn. unfold id.
    destruct Ha as [Ha|[Ha ->]]; [|by unfold segment; rewrite Ha].
    rewrite <- (take_drop_middle _ _ _ Hli), concat_app. cbn [concat]. by apply segment_mid.
  - apply lookup_ge_None in Er. rewrite (laid_length _ _ _ Hl) in Er. by rewrite (lookup_ge_None_2 _ _ Er).
Qed.
End runs.

(** C19: An immutable adjacency table, from an empty one on, through any
    sequence of operations, reopening from its files included, on which [lists_run] is
    defined.  It is defined where the source defines what happens: offsets and
    vertices are not negative, new edges start at vertices of the table and do not end at
    the mark of a deleted entry, a list's length fits an [int], the table is not shrunk, and
    a compaction either finds no deleted entry or the list of vertex 0 is not empty
    (otherwise the code writes through the null pointer of that list:
    [null_compaction]).  Then every operation gives the result the plain lists give, errors
    included, and afterwards the table holds exactly these lists: the buffer
    is never read or written outside, lists moved up by insertions or down by
    deletions and compaction keep their entries in order, and the counter is
    the number of edges. *)
Theorem immutable_refines_lists {D} (junk : ImmutableNbr D) (std_sort : list (ImmutableNbr D) → list (ImmutableNbr D)) os ls u rs :
  (∀ l, std_sort l ≡ₚ l) → lists_run std_sort os ([], 0) = Some (ls, u, rs) →
  let x := imm_run junk std_sort os (Open [] [] 0 0) in
  x.2 = rs ∧ size x.1 = Z.of_nat (length ls) ∧ edge_num x.1 = u64 (edge_count (concat ls)) ∧
  ∀ v, 0 ≤ v → get_edges x.1 v = default [] (ls !! Z.to_nat v).
Proof.
  intros Hp Hs x. assert (H0 : represents (Open [] [] 0 0) ([] : list (list (ImmutableNbr D)))) by (by split).
  destruct (imm_run_refines junk std_sort Hp os _ [] (ls, u) rs H0 Hs) as (c & E & Hr & _). unfold x. rewrite E. cbn [fst snd] in *.
  split_and!; [done|unfold size; by rewrite (laid_length _ _ _ (rep_laid _ _ Hr))|apply Hr|].
  intros v Hv. by apply represents_edges.
Qed.

Definition sample_nbr : ImmutableNbr Z := MkImmutableNbr 0 0.
Definition imm_ops : list (imm_op Z) :=
  [IResize 3; IPut [(1, 2, 10); (0, 1, 20); (1, 0, 30); (2, 2, 40)] 0; IPut [(0, 2, 50); (1, 1, 60)] 0;
   IDelete 1 0 5; IDelete 9 0 5; IReopen; IRevert 1 2 0 5; IDeleteEdges [1; 7] [0; 7]; ICompact;
   IDeleteVertices {[2]} {[1]}; IResize 4; IReopen; IPut [(3, 0, 70)] 0; IDeleteSlots [(3, 0)]; ISort 1].

Lemma immutable_refines_lists_witness :
  let x := imm_run sample_nbr id imm_ops (Open [] [] 0 0) in
  size x.1 = 4 ∧ edge_num x.1 = 2 ∧ get_edges x.1 0 = [MkImmutableNbr 2 50] ∧ get_edges x.1 1 = [MkImmutableNbr 2 10] ∧
  get_edges x.1 3 = [MkImmutableNbr VID_MAX 70].
Proof.
  destruct (immutable_refines_lists sample_nbr id imm_ops
    [[MkImmutableNbr 2 50]; [MkImmutableNbr 2 10]; []; [MkImmutableNbr VID_MAX 70]] 1
    [Ok tt; Ok tt; Ok tt; Ok tt; Throw InvalidArgument; Ok tt; Ok tt; Ok tt; Ok tt; Ok tt; Ok tt; Ok tt; Ok tt; Ok tt; Ok tt])
    as (_ & Hs & Hn & He).
  - done.
  - vm_compute. reflexivity.
  - cbv zeta in *. rewrite Hs, Hn, !He by lia. vm_compute. split_and!; reflexivity.
Defined.

(** [compact] starts to write at the list of vertex 0, and a list that is
    empty when the table is opened has a null pointer: after the deletion of an
    edge of vertex 1 the next entry is written through null. *)
Theorem null_compaction {D} (d1 d2 : D) (a b u n ts : Z) :
  a ≠ VID_MAX → b ≠ VID_MAX →
  let c := Open [O; 2%nat] [MkImmutableNbr a d1; MkImmutableNbr b d2] u n in
  (compact (delete_edge 1 0 ts c).1).2 = Throw OutOfBounds.
Proof.
  intros Ha Hb c. unfold delete_edge. assert (slot_at c 1 0 = Ok (O, MkImmutableNbr a d1)) as -> by done.
  assert (Ea : exists_edge (MkImmutableNbr a d1) = true) by (by apply negb_true_iff, Z.eqb_neq).
  assert (Eb : exists_edge (MkImmutableNbr b d2) = true) by (by apply negb_true_iff, Z.eqb_neq).
  rewrite Ea. unfold c, compact. cbn -[exists_edge]. rewrite Eb.
  by assert (exists_edge (erase (MkImmutableNbr a d1)) = false) as ->.
Qed.

Lemma null_compaction_witness :
  (compact (delete_edge 1 0 5 (Open [O; 2%nat] [MkImmutableNbr 7 1; MkImmutableNbr 8 2] 0 2)).1).2 = Throw OutOfBounds.
Proof. apply (null_compaction 1 2 7 8 0 2 5); done. Defined.

(** ** One slot per vertex *)

Module Single.
Import SingleImmutableCsr.
Section single.
Context {D : Type} (junk : ImmutableNbr D).
Implicit Types (c : SingleImmutableCsr.csr D) (e : ImmutableNbr D).

Definition counted c : Prop := SingleImmutableCsr.edge_num_ c = u64 (edge_count (SingleImmutableCsr.nbr_list c)).

Lemma imm_counted_write v e x n c :
  counted c → slot c v = Some e → n = (if exists_edge x then 1 else 0) - (if exists_edge e then 1 else 0) → counted (write v x n c).
Proof.
  unfold counted, slot. intros Hc Hs ->. destruct (0 <=? v); [|done]. cbn. rewrite Hc, u64_add_l. f_equal.
  pose proof (edge_count_insert [SingleImmutableCsr.nbr_list c] 0 _ _ _ x eq_refl Hs) as Hi. cbn in Hi.
  rewrite !app_nil_r in Hi. lia.
Qed.

Lemma erase_gone e : exists_edge (erase e) = false.
Proof. done. Qed.

Lemma free_counted hit c v : counted c → counted (free hit c v).
Proof.
  intros Hc. unfold free. destruct (slot c v) as [e|] eqn:Es; [|done].
  destruct (exists_edge e) eqn:Ee, (hit e); try done. by apply (imm_counted_write _ e); rewrite ?Ee, ?erase_gone.
Qed.
Lemma foldl_counted {A} (f : csr D → A → csr D) (l : list A) c :
  (∀ c a, a ∈ l → counted c → counted (f c a)) → counted c → counted (foldl f c l).
Proof.
  revert c. induction l as [|a l IH]; intros c Hf Hc; [done|]. cbn. apply IH; [|apply Hf; [left|done]].
  intros c' b Hb. apply Hf. by right.
Qed.

Inductive single_op :=
  | SPut (edges : list (Z * Z * D)) (ts : Z)
  | SDelete (src offset ts : Z)
  | SRevert (src nbr offset ts : Z)
  | SDeleteVertices (src_set dst_set : gset Z)
  | SDeleteEdges (src_list dst_list : list Z)
  | SDeleteSlots (edges : list (Z * Z))
  | SCompact
  | SSort (ts : Z)
  | SResize (vnum : Z).

Definition single_step (o : single_op) c : csr D :=
  match o with
  | SPut edges ts => batch_put_edges edges ts c
  | SDelete src offset ts => (delete_edge src offset ts c).1
  | SRevert src nbr offset ts => (revert_delete_edge src nbr offset ts c).1
  | SDeleteVertices srcs dsts => batch_delete_vertices srcs dsts c
  | SDeleteEdges srcs dsts => batch_delete_edges srcs dsts c
  | SDeleteSlots es => batch_delete_edges_offsets es c
  | SCompact => compact c
  | SSort ts => batch_sort_by_edge_data ts c
  | SResize n => resize junk n c
  end.
(** Neighbours are vertices, tables only grow. *)
Definition single_ok (o : single_op) c : bool :=
  match o with
  | SPut edges _ => forallb (λ p, negb (p.1.2 =? VID_MAX)) edges
  | SRevert _ nbr _ _ => negb (nbr =? VID_MAX)
  | SResize n => size c <=? n
  | _ => true
  end.
Fixpoint single_run (os : list single_op) c : option (csr D) :=
  match os with
  | [] => Some c
  | o :: os => if single_ok o c then single_run os (single_step o c) else None
  end.

Lemma put_counted edges ts c : forallb (λ p, negb (p.1.2 =? VID_MAX)) edges = true → counted c → counted (batch_put_edges edges ts c).
Proof.
  intros He%Is_true_true%forallb_True. rewrite Forall_forall in He. apply foldl_counted. intros c' p Hp Hc. unfold put_slot.
  destruct (slot c' p.1.1) as [e|] eqn:Es; [|done]. destruct (exists_edge e) eqn:Ee; [done|]. apply (imm_counted_write _ e); [done..|].
  specialize (He p Hp). apply Is_true_true in He. unfold exists_edge at 1. cbn [nbr_id]. by rewrite He, Ee.
Qed.

Lemma edge_count_erased k : edge_count (replicate k (erase junk)) = 0.
Proof. induction k as [|k IH]; [done|]. cbn [replicate]. by rewrite edge_count_cons, erase_gone, IH. Qed.

Lemma imm_single_counted o c : counted c → single_ok o c = true → counted (single_step o c).
Proof.
  intros Hc Ho. destruct o; cbn [single_step single_ok] in *; try done.
  - by apply put_counted.
  - unfold delete_edge. destruct (slot c src) as [e|] eqn:Es; [|done]. destruct (negb _); [done|].
    destruct (exists_edge e) eqn:Ee; [|done]. by apply (imm_counted_write _ e); rewrite ?Ee, ?erase_gone.
  - unfold revert_delete_edge. destruct (slot c src) as [e|] eqn:Es; [|done]. destruct (negb (offset =? 0)); [done|].
    destruct (exists_edge e) eqn:Ee; [done|]. apply (imm_counted_write _ e); [done..|]. unfold exists_edge at 1. cbn [nbr_id]. by rewrite Ho, Ee.
  - unfold batch_delete_vertices. by apply foldl_counted; [intros; apply free_counted|apply foldl_counted; [intros; apply free_counted|]].
  - by apply foldl_counted; [intros; apply free_counted|].
  - by apply foldl_counted; [intros; apply free_counted|].
  - unfold counted, resize in *. cbn. rewrite edge_count_app, edge_count_erased, Z.add_0_r, Hc. apply Z.leb_le in Ho. unfold size in Ho.
    by rewrite take_ge by lia.
Qed.
End single.
End Single.

(** On a table with one slot per vertex the counter is the number of slots that
    hold an edge, after any sequence of operations; a second edge of a vertex is
    left out of a batch and not counted. *)
Theorem single_immutable_count {D} (junk : ImmutableNbr D) os c :
  Single.single_run junk os (SingleImmutableCsr.Open [] 0) = Some c →
  SingleImmutableCsr.edge_num c = u64 (edge_count (SingleImmutableCsr.nbr_list c)).
Proof.
  assert (H0 : Single.counted (SingleImmutableCsr.Open ([] : list (ImmutableNbr D)) 0)) by done.
  revert H0. generalize (SingleImmutableCsr.Open ([] : list (ImmutableNbr D)) 0) as c0.
  induction os as [|o os IH]; intros c0 H0 Hr; cbn in Hr; [by simplify_eq|].
  destruct (Single.single_ok o c0) eqn:Eo; [|done]. apply (IH (Single.single_step junk o c0)); [|done].
  by apply Single.imm_single_counted.
Qed.
