(* ===== verification/StringColumn.v ===== *)
(** * Buffers and string columns

    src/storages/container/mmap_container.cc ([Resize]) and the string
    specialisation of TypedColumn (include/neug/utils/property/column.h,
    src/utils/property/column.cc): rows are items, an offset and a length, into
    a byte buffer to which values are only ever appended.  A buffer is its
    payload; items are kept as records instead of their eight bytes. *)

From S2P Require Import Prelude Values.

Abbreviation len l := (Z.of_nat (length l)).

(** Anonymous mappings are zero-filled; the old payload is copied. *)
Definition Resize {A} (zero : A) (size : Z) (data : list A) : list A :=
  if size =? len data then data
  else if size =? 0 then []
  else take (Z.to_nat (Z.min (len data) size)) data ++ replicate (Z.to_nat (size - len data)) zero.

(** ** Truncation at a character boundary *)

Definition char_length (ch : Z) : Z :=
  if Z.land ch 0x80 =? 0 then 1
  else if Z.land ch 0xE0 =? 0xC0 then 2
  else if Z.land ch 0xF0 =? 0xE0 then 3
  else if Z.land ch 0xF8 =? 0xF0 then 4
  else 0.

(** The loop; the pointer is [byte_count] past the start of the string. *)
Fixpoint truncate_loop (fuel : nat) (str : list Z) (limit byte_count : Z) : option Z :=
  match fuel with
  | O => None
  | S fuel =>
      let ch := default 0 (str !! Z.to_nat byte_count) in
      if negb (ch =? 0) && (byte_count <? limit) then
        if limit <? byte_count + char_length ch then Some byte_count
        else truncate_loop fuel str limit (byte_count + char_length ch)
      else Some byte_count
  end.

Definition truncate_utf8 (str : list Z) (limit : Z) : res (list Z) :=
  if len str <=? limit then Ok str
  else match truncate_loop (S (length str)) str limit 0 with
    | Some byte_count => Ok (take (Z.to_nat byte_count) str)
    | None => Throw Diverges
    end.

(** ** The column *)

Module StringColumn.

Definition STRING_DEFAULT_MAX_LENGTH : Z := 256.

Record string_item := MkItem { offset : Z; length_ : Z }.
Definition zero_item : string_item := MkItem 0 0.

Record column := MkColumn {
  items_buffer_ : list string_item;
  data_buffer_ : list Z;
  size_ : Z;
  pos_ : Z;
  width_ : Z
}.
Implicit Types (c : column) (val : list Z).

(** The width comes from the type's maximal length, cut to 16 bits. *)
Definition CreateColumn_width (info : option ExtraTypeInfo) : Z :=
  match info with
  | Some (StringTypeInfo max_length) => max_length `mod` 2^16
  | _ => STRING_DEFAULT_MAX_LENGTH
  end.

Definition OpenEmpty (width : Z) : column := MkColumn [] [] 0 0 width.

Definition size c : Z := size_ c.

(** Both accesses are asserted to be in range. *)
Definition get_string_item c (idx : Z) : string_item :=
  default zero_item (items_buffer_ c !! Z.to_nat idx).
Definition set_string_item (idx : Z) (off length : Z) c : column :=
  MkColumn (<[Z.to_nat idx := MkItem (off `mod` 2^48) (length `mod` 2^16)]> (items_buffer_ c))
    (data_buffer_ c) (size_ c) (pos_ c) (width_ c).

Definition get_view c (idx : Z) : list Z :=
  let item := get_string_item c idx in
  take (Z.to_nat (length_ item)) (drop (Z.to_nat (offset item)) (data_buffer_ c)).

(** memcpy of [val] to [off]. *)
Definition memcpy (off : Z) val (data : list Z) : list Z :=
  take (Z.to_nat off) data ++ val ++ drop (Z.to_nat off + length val) data.

Definition string_avg_size c : Z :=
  if size_ c =? 0 then 0
  else
    let lengths := (λ i, length_ (get_string_item c i)) <$> seqZ 0 (size_ c) in
    let total_length := zsum (λ l, if 0 <? l then l else 0) lengths in
    let non_zero_count := zsum (λ l, if 0 <? l then 1 else 0) lengths in
    if 0 <? non_zero_count then (total_length + non_zero_count - 1) `div` non_zero_count else 0.

Definition resize_data (n : Z) c : column :=
  MkColumn (items_buffer_ c) (Resize 0 n (data_buffer_ c)) (size_ c) (pos_ c) (width_ c).
Definition resize_items (n : Z) c : column :=
  MkColumn (Resize zero_item n (items_buffer_ c)) (data_buffer_ c) (size_ c) (pos_ c) (width_ c).
Definition set_size (n : Z) c : column :=
  MkColumn (items_buffer_ c) (data_buffer_ c) n (pos_ c) (width_ c).

Definition resize (n : Z) c : column :=
  let c' :=
    if len (items_buffer_ c) =? 0
    then resize_data (Z.max (n * width_ c) (pos_ c)) (resize_items n c)
    else
      let avg_size := if 0 <? string_avg_size c then string_avg_size c else width_ c in
      resize_data (Z.max (n * avg_size) (pos_ c)) (resize_items n c) in
  set_size n c'.

(** The overload with a number of bytes to come. *)
Definition resize_bytes (n data_size : Z) c : column :=
  let c' := if len (items_buffer_ c) <? n then resize_items n c else c in
  let data_bytes := pos_ c' + data_size in
  let c' := if len (data_buffer_ c') <? data_bytes then resize_data data_bytes c' else c' in
  set_size (Z.max (size_ c') n) c'.

Definition set_value (idx : Z) val c : column * res unit :=
  match (if width_ c <=? len val then truncate_utf8 val (width_ c) else Ok val) with
  | Throw e => (c, Throw e)
  | Ok copied_val =>
      if size_ c <=? idx then (c, Throw RuntimeFailure)
      else if pos_ c + len copied_val <=? len (data_buffer_ c) then
        let off := pos_ c in
        let c := set_string_item idx off (len copied_val) c in
        (MkColumn (items_buffer_ c) (memcpy off copied_val (data_buffer_ c)) (size_ c)
           (off + len copied_val) (width_ c), Ok tt)
      else (c, Throw StorageError)
  end.

(** The string of a value of type varchar. *)
Definition GetString (v : Value) : option (list Z) :=
  let 'MkValue _ _ p := v in match p with V_string s => Some s | _ => None end.

Definition set_any (idx : Z) (value : Value) (insert_safe : bool) c : column * res unit :=
  if size_ c <=? idx then (c, Throw RuntimeFailure)
  else if IsNull value then set_value idx [] c
  else match GetString value with
    | None => (c, Throw OutOfBounds)
    | Some dst_value =>
        if len (data_buffer_ c) <? pos_ c + len dst_value then
          if insert_safe then
            let new_avg_width := (pos_ c + idx) `div` (idx + 1) in
            let new_len := Z.max (size_ c * new_avg_width) (pos_ c + len dst_value) in
            set_value idx dst_value (resize_data new_len c)
          else (c, Throw StorageError)
        else set_value idx dst_value c
    end.

Definition get_any c (idx : Z) : Value := Value_STRING (get_view c idx).

(** The rows after the first new one share its item. *)
Definition copy_items (from to : Z) c : column :=
  let item := get_string_item c from in
  foldl (λ c i, set_string_item i (offset item) (length_ item) c) c (seqZ (from + 1) (to - (from + 1))).

Definition resize_default (n : Z) (default_value : Value) c : column * res unit :=
  if bool_decide (id_ (type_ default_value) ≠ kVarchar) then (c, Throw RuntimeFailure)
  else
    let old_size := size_ c in
    let c := set_size n c in
    match GetString default_value with
    | None => (c, Throw OutOfBounds)
    | Some s =>
        match truncate_utf8 s (width_ c) with
        | Throw e => (c, Throw e)
        | Ok default_str =>
            let new_items := if old_size <? n then n - old_size else 0 in
            let c := resize_items n c in
            let needed := pos_ c + new_items * width_ c in
            let c := resize_data (Z.max needed (n * string_avg_size c)) c in
            if len default_str =? 0 then (c, Ok tt)
            else if old_size <? size_ c then
              match set_value old_size default_str c with
              | (c, Ok _) => (copy_items old_size (size_ c) c, Ok tt)
              | (c, Throw e) => (c, Throw e)
              end
            else (c, Ok tt)
        end
    end.

Definition available_space c : Z := len (data_buffer_ c) - pos_ c.

Definition copy_item (dst src : Z) c : column :=
  let item := get_string_item c src in set_string_item dst (offset item) (length_ item) c.
Definition shrink_items (n : Z) c : column := set_size n (resize_items n c).

End StringColumn.
