(* ===== verification/StringColumnProperties.v ===== *)
(** * String columns as lists of strings

    Truncation stops at character boundaries and ends on well-formed text; the
    append-only column behaves as the list of its rows. *)

From S2P Require Import Prelude Values StringColumn.

(** ** Truncation *)

Section truncation.
Implicit Types (s c : list Z) (cs : list (list Z)).

Lemma char_length_range ch : 0 ≤ char_length ch ≤ 4.
Proof. unfold char_length. repeat case_bool; lia. Qed.

Lemma truncate_loop_le fuel s n b k : b ≤ n → truncate_loop fuel s n b = Some k → b ≤ k ≤ n.
Proof.
  revert b. induction fuel as [|fuel IH]; intros b Hb; cbn -[char_length]; [done|].
  pose proof (char_length_range (default 0 (s !! Z.to_nat b))) as Hr.
  repeat case_bool; bool_to_prop; intros E; simplify_eq; try lia. apply IH in E; lia.
Qed.

Lemma truncate_len s n t : 0 ≤ n → truncate_utf8 s n = Ok t → len t ≤ n ∧ t `prefix_of` s.
Proof.
  intros Hn. unfold truncate_utf8. case_bool; bool_to_prop; [intros [= <-]; eauto|].
  destruct (truncate_loop _ _ _ _) as [k|] eqn:E; [|done]. intros [= <-].
  apply truncate_loop_le in E; [|lia]. split; [rewrite length_take; lia|apply prefix_take].
Qed.

Lemma truncate_short s n : len s ≤ n → truncate_utf8 s n = Ok s.
Proof. intros H. unfold truncate_utf8. by rewrite (proj2 (Z.leb_le _ _) H). Qed.

(** A byte that is neither a character nor the start of one stops progress:
    with no step, however long the loop runs. *)
Lemma truncate_stuck s n b fuel :
  char_length (default 0 (s !! Z.to_nat b)) = 0 → default 0 (s !! Z.to_nat b) ≠ 0 → b < n →
  truncate_loop fuel s n b = None.
Proof.
  intros Hc Hz Hb. induction fuel as [|fuel IH]; cbn -[char_length]; [done|].
  rewrite Hc, (proj2 (Z.eqb_neq _ _) Hz), (proj2 (Z.ltb_lt _ _) Hb). cbn [negb andb].
  rewrite (proj2 (Z.ltb_ge _ _)) by lia. by rewrite Z.add_0_r.
Qed.

(** A character: as many bytes as its first byte announces. *)
Definition utf8_char c : Prop :=
  match c with [] => False | b :: _ => b ≠ 0 ∧ char_length b = len c end.

(** The characters that fit into [n] bytes. *)
Fixpoint fit (n : Z) cs : list (list Z) :=
  match cs with
  | [] => []
  | c :: cs => if len c <=? n then c :: fit (n - len c) cs else []
  end.

Lemma fit_all n cs : len (concat cs) ≤ n → fit n cs = cs.
Proof.
  revert n. induction cs as [|c cs IH]; intros n; cbn; [done|]. rewrite length_app. intros H.
  rewrite (proj2 (Z.leb_le _ _)) by lia. f_equal. apply IH. lia.
Qed.

Lemma truncate_loop_chars fuel pre cs n :
  Forall utf8_char cs → len pre ≤ n → n < len (pre ++ concat cs) →
  n - len pre < Z.of_nat fuel →
  truncate_loop fuel (pre ++ concat cs) n (len pre) =
    Some (len pre + len (concat (fit (n - len pre) cs))).
Proof.
  revert pre cs. induction fuel as [|fuel IH]; intros pre cs Hcs Hp Hn Hf; [lia|].
  cbn -[char_length Z.of_nat length]. rewrite Nat2Z.id, lookup_app_r, Nat.sub_diag by lia.
  destruct cs as [|c cs]; [cbn in Hn; rewrite app_nil_r in Hn; lia|].
  apply Forall_cons in Hcs as [Hc Hcs]. destruct c as [|b c]; [done|]. destruct Hc as [Hb Hl].
  cbn -[char_length Z.of_nat length]. rewrite Hl, (proj2 (Z.eqb_neq _ _) Hb). cbn [negb andb].
  destruct (Z.ltb_spec (len pre) n) as [Hlt|Hge].
  - destruct (Z.ltb_spec n (len pre + len (b :: c))), (Z.leb_spec (len (b :: c)) (n - len pre)); try lia.
    + cbn. f_equal. lia.
    + replace (pre ++ b :: c ++ concat cs) with ((pre ++ b :: c) ++ concat cs) by by rewrite <- app_assoc.
      replace (len pre + len (b :: c)) with (len (pre ++ b :: c)) by (rewrite length_app; lia).
      rewrite IH; try done.
      * f_equal. cbn [concat]. rewrite !length_app.
        replace (n - Z.of_nat (length pre + length (b :: c))) with (n - len pre - len (b :: c)) by lia. lia.
      * rewrite length_app. lia.
      * cbn [concat] in Hn. by rewrite <- app_assoc.
      * rewrite length_app. cbn [length]. lia.
  - rewrite (proj2 (Z.leb_gt _ _)) by (cbn [length]; lia). cbn. f_equal. lia.
Qed.

Lemma concat_fit_prefix n cs : concat (fit n cs) `prefix_of` concat cs.
Proof.
  revert n. induction cs as [|c cs IH]; intros n; cbn; [done|]. case_bool; cbn.
  - by apply prefix_app.
  - apply prefix_nil.
Qed.

Lemma truncate_chars cs n :
  0 ≤ n → Forall utf8_char cs → truncate_utf8 (concat cs) n = Ok (concat (fit n cs)).
Proof.
  intros Hn Hcs. unfold truncate_utf8. destruct (Z.leb_spec (len (concat cs)) n) as [Hle|Hgt].
  - by rewrite fit_all.
  - rewrite (truncate_loop_chars _ [] cs) by (try done; cbn [length app]; lia).
    cbn [length]. rewrite Z.sub_0_r. f_equal. destruct (concat_fit_prefix n cs) as [k ->].
    replace (Z.to_nat _) with (length (concat (fit n cs))) by lia. by rewrite take_app_length.
Qed.

(** Text by the definition of UTF-8: a character is a byte below 0x80, or a lead byte of
    its range and one to three continuation bytes. *)
Definition continuation (b : Z) : bool := (0x80 <=? b) && (b <=? 0xBF).
Definition utf8_bytes (b : Z) : nat :=
  if (1 <=? b) && (b <=? 0x7F) then 1
  else if (0xC0 <=? b) && (b <=? 0xDF) then 2
  else if (0xE0 <=? b) && (b <=? 0xEF) then 3
  else if (0xF0 <=? b) && (b <=? 0xF7) then 4 else 0.
Definition first_char s : option (list Z * list Z) :=
  match s with
  | [] => None
  | b :: t =>
      let n := utf8_bytes b in
      if negb (n =? 0)%nat && (n <=? length s)%nat && forallb continuation (take (pred n) t)
      then Some (take n s, drop n s) else None
  end.
Fixpoint characters (fuel : nat) s : option (list (list Z)) :=
  match fuel, s with
  | _, [] => Some []
  | O, _ => None
  | S fuel, _ => '(c, s) ← first_char s; cs ← characters fuel s; Some (c :: cs)
  end.
(** The longest run of whole characters within [w] bytes; bytes that fit are kept as
    they are. *)
Definition text_cut (w : Z) s : option (list Z) :=
  if len s <=? w then Some s else (λ cs, concat (fit w cs)) <$> characters (length s) s.

Lemma lead_byte b : utf8_bytes b ≠ 0%nat → b ≠ 0 ∧ char_length b = Z.of_nat (utf8_bytes b).
Proof.
  intros Hb. assert (Hr : 1 ≤ b < 256) by (unfold utf8_bytes in Hb; repeat case_bool; bool_to_prop; lia). split; [lia|].
  assert (Hall : forallb (λ b, (utf8_bytes b =? 0)%nat || (char_length b =? Z.of_nat (utf8_bytes b))) (seqZ 0 256) = true)
    by (vm_compute; reflexivity).
  rewrite forallb_forall in Hall. specialize (Hall b). rewrite <- list_elem_of_In, elem_of_seqZ in Hall. specialize (Hall ltac:(lia)).
  apply orb_true_iff in Hall as [Hz%Nat.eqb_eq|Hz%Z.eqb_eq]; [by rewrite Hz in Hb|done].
Qed.

Lemma characters_text fuel s cs : characters fuel s = Some cs → concat cs = s ∧ Forall utf8_char cs.
Proof.
  revert s cs. induction fuel as [|fuel IH]; intros s cs; [destruct s; [|done]; by intros [= <-]|].
  destruct s as [|b s]; [by intros [= <-]|]. cbn [characters]. unfold first_char.
  destruct (negb _ && _ && _) eqn:E; [|done]. cbn [mbind option_bind].
  destruct (characters fuel (drop (utf8_bytes b) (b :: s))) as [cs'|] eqn:Ec; [|done]. intros [= <-].
  destruct (IH _ _ Ec) as [Hc Hf]. cbn [concat]. rewrite Hc. split; [apply take_drop|]. constructor; [|done].
  apply andb_true_iff in E as [E _]. apply andb_true_iff in E as [E1 E2]. apply negb_true_iff, Nat.eqb_neq in E1.
  apply Nat.leb_le in E2. destruct (lead_byte b E1) as [Hz Hl]. destruct (utf8_bytes b) as [|n] eqn:En; [done|].
  cbn [take utf8_char]. split; [done|]. rewrite Hl. cbn [length] in *. rewrite length_take. lia.
Qed.

Lemma text_cut_truncate w s t : 0 ≤ w → text_cut w s = Some t → truncate_utf8 s w = Ok t.
Proof.
  intros Hw. unfold text_cut. destruct (Z.leb_spec (len s) w); [intros [= <-]; by apply truncate_short|].
  destruct (characters (length s) s) as [cs|] eqn:E; [|done]. intros [= <-].
  destruct (characters_text _ _ _ E) as [<- Hcs]. by apply truncate_chars.
Qed.

Lemma truncate_loop_skip fuel pre cs s n :
  Forall utf8_char cs → len pre + len (concat cs) < n → n < len (pre ++ concat cs ++ s) →
  (∀ k, truncate_loop k (pre ++ concat cs ++ s) n (len pre + len (concat cs)) = None) →
  truncate_loop fuel (pre ++ concat cs ++ s) n (len pre) = None.
Proof.
  intros Hcs. revert fuel pre. induction Hcs as [|c cs Hc Hcs IH]; intros fuel pre Hlt Hn Hk.
  { specialize (Hk fuel). cbn in Hk |- *. by rewrite Z.add_0_r in Hk. }
  destruct fuel as [|fuel]; [done|]. destruct c as [|b c]; [done|]. destruct Hc as [Hb Hl].
  cbn [concat] in *. rewrite !length_app in Hlt. rewrite <- !app_assoc in *.
  cbn -[char_length Z.of_nat length app]. rewrite Nat2Z.id, lookup_app_r, Nat.sub_diag by lia.
  cbn -[char_length Z.of_nat length]. rewrite Hl, (proj2 (Z.eqb_neq _ _) Hb), (proj2 (Z.ltb_lt _ _)) by lia.
  cbn [negb andb]. rewrite (proj2 (Z.ltb_ge _ _)) by lia.
  replace (len pre + len (b :: c)) with (len (pre ++ b :: c)) in * by (rewrite length_app; lia).
  change (pre ++ b :: c ++ concat cs ++ s) with (pre ++ (b :: c) ++ concat cs ++ s) in *.
  rewrite (app_assoc pre) in *. apply IH; [rewrite length_app; lia|done|].
  intros k. specialize (Hk k). rewrite !length_app in Hk |- *. rewrite <- Hk. f_equal. lia.
Qed.

(** Cutting a string to a number of bytes ends on
    text that consists of characters, and keeps exactly the characters that fit,
    also when it has embedded multi-byte characters at the cut; on a string that
    is too long and has, after characters within the limit, a byte that starts
    no character (a continuation byte, or one from 0xF8 on), the loop makes no
    progress there and never ends. *)
Theorem truncate_ends_on_text cs n :
  Forall utf8_char cs → 0 ≤ n →
  truncate_utf8 (concat cs) n = Ok (concat (fit n cs)) ∧
  ∀ b s, char_length b = 0 → b ≠ 0 → len (concat cs) < n → n < len (concat cs ++ b :: s) →
    truncate_utf8 (concat cs ++ b :: s) n = Throw Diverges ∧
    ∀ fuel, truncate_loop fuel (concat cs ++ b :: s) n 0 = None.
Proof.
  intros Hcs Hn. split; [by apply truncate_chars|]. intros b s Hb Hz Hlt Hlen.
  assert (Hd : ∀ fuel, truncate_loop fuel (concat cs ++ b :: s) n 0 = None).
  { intros fuel. apply (truncate_loop_skip fuel [] cs (b :: s) n Hcs); [cbn; lia|done|]. intros k.
    cbn [app length]. change (Z.of_nat 0) with 0. rewrite Z.add_0_l.
    apply truncate_stuck; rewrite ?Nat2Z.id, ?lookup_app_r, ?Nat.sub_diag by lia; done. }
  split; [|done]. unfold truncate_utf8. rewrite (proj2 (Z.leb_gt _ _)) by lia. by rewrite Hd.
Qed.

(** Three characters of one, two and three bytes; four bytes hold two of them,
    and a lone continuation byte behind the first stops the loop. *)
Lemma truncate_ends_on_text_witness :
  truncate_utf8 [104; 0xC3; 0xA9; 0xE2; 0x82; 0xAC] 4 = Ok [104; 0xC3; 0xA9] ∧
  truncate_utf8 [104; 0x82; 105; 106] 3 = Throw Diverges.
Proof.
  split.
  - apply (truncate_ends_on_text [[104]; [0xC3; 0xA9]; [0xE2; 0x82; 0xAC]] 4); [|lia].
    repeat constructor; done.
  - apply (truncate_ends_on_text [[104]] 3); [repeat constructor; done|lia|done|done|cbn; lia|cbn; lia].
Defined.
End truncation.

(** ** Buffers *)

(** The list function, which the columns' operation of this name hides. *)
Abbreviation list_resize := list.resize (only parsing).

Lemma Resize_spec {A} (z : A) n l : 0 ≤ n → Resize z n l = list_resize (Z.to_nat n) z l.
Proof.
  intros Hn. unfold Resize. rewrite resize_spec.
  destruct (Z.eqb_spec n (len l)) as [->|]; [by rewrite Nat2Z.id, firstn_all, Nat.sub_diag, app_nil_r|].
  destruct (Z.eqb_spec n 0) as [->|]; [done|].
  replace (Z.to_nat (n - len l)) with (Z.to_nat n - length l)%nat by lia. f_equal.
  destruct (Z.le_gt_cases (len l) n).
  - rewrite !take_ge by lia. done.
  - f_equal. lia.
Qed.

Lemma Resize_length {A} (z : A) n l : 0 ≤ n → len (Resize z n l) = n.
Proof. intros. rewrite Resize_spec, length_resize by done. lia. Qed.

Lemma take_Resize {A} (z : A) n l p :
  Z.of_nat p ≤ n → (p ≤ length l)%nat → take p (Resize z n l) = take p l.
Proof.
  intros Hn Hl. rewrite Resize_spec, resize_spec by lia.
  rewrite take_app_le by (rewrite length_take; lia). rewrite take_take. f_equal. lia.
Qed.

Lemma memcpy_length off val data :
  0 ≤ off → off + len val ≤ len data → length (StringColumn.memcpy off val data) = length data.
Proof. intros. unfold StringColumn.memcpy. rewrite !length_app, length_take, length_drop. lia. Qed.

Section column.
Import StringColumn.
Implicit Types (c : column) (d : list Z) (it : string_item) (rs : list (list Z)).

Definition view d it : list Z := take (Z.to_nat (length_ it)) (drop (Z.to_nat (offset it)) d).
Definition rows c : list (list Z) := view (data_buffer_ c) <$> items_buffer_ c.

Definition wf_item (p : Z) it : Prop := 0 ≤ offset it ∧ 0 ≤ length_ it < 2^16 ∧ offset it + length_ it ≤ p.

(** Items point into the written part of the buffer. *)
Record swf c : Prop := {
  swf_size : size_ c = len (items_buffer_ c);
  swf_pos : 0 ≤ pos_ c ≤ len (data_buffer_ c);
  swf_width : 0 ≤ width_ c < 2^16;
  swf_items : Forall (wf_item (pos_ c)) (items_buffer_ c)
}.

Lemma view_stable d d' p it :
  wf_item p it → take (Z.to_nat p) d = take (Z.to_nat p) d' → view d it = view d' it.
Proof.
  intros (Ho & Hl & Hp) E. unfold view. rewrite !take_drop_commute. f_equal.
  apply (f_equal (take (Z.to_nat (offset it) + Z.to_nat (length_ it)))) in E.
  rewrite !take_take in E. by rewrite Nat.min_l in E by lia.
Qed.

Lemma rows_stable d d' p its :
  Forall (wf_item p) its → take (Z.to_nat p) d = take (Z.to_nat p) d' → view d <$> its = view d' <$> its.
Proof.
  intros Hf E. apply list_fmap_ext. intros i it Hi. eapply view_stable; [|done]. by eapply Forall_lookup_1.
Qed.

Lemma wf_item_mono p q it : p ≤ q → wf_item p it → wf_item q it.
Proof. unfold wf_item. lia. Qed.

Lemma zero_item_wf p : 0 ≤ p → wf_item p zero_item.
Proof. unfold wf_item. cbn. lia. Qed.

Lemma rows_length c : length (rows c) = length (items_buffer_ c).
Proof. apply length_fmap. Qed.

Lemma get_view_rows c idx : get_view c idx = default [] (rows c !! Z.to_nat idx).
Proof.
  unfold get_view, get_string_item, rows. rewrite list_lookup_fmap.
  by destruct (items_buffer_ c !! Z.to_nat idx).
Qed.

Lemma cut_truncate w s : (if w <=? len s then truncate_utf8 s w else Ok s) = truncate_utf8 s w.
Proof. case_bool; [done|]. bool_to_prop. by rewrite truncate_short by lia. Qed.

Lemma view_memcpy p t d :
  0 ≤ p → p + len t ≤ len d → view (memcpy p t d) (MkItem p (len t)) = t.
Proof.
  intros Hp Hl. unfold view, memcpy. cbn [offset length_].
  rewrite drop_app_length' by (rewrite length_take; lia).
  by rewrite Nat2Z.id, take_app_length.
Qed.

Lemma take_memcpy p t d : 0 ≤ p ≤ len d → take (Z.to_nat p) (memcpy p t d) = take (Z.to_nat p) d.
Proof.
  intros Hp. unfold memcpy. rewrite take_app_le by (rewrite length_take; lia). by rewrite take_idemp.
Qed.

(** Appending a value sets its row and leaves the others alone. *)
Lemma set_value_spec c idx val t :
  swf c → 0 ≤ idx < size_ c → truncate_utf8 val (width_ c) = Ok t →
  pos_ c + len t ≤ len (data_buffer_ c) → pos_ c + len t < 2^48 →
  ∃ c', set_value idx val c = (c', Ok tt) ∧ swf c' ∧ rows c' = <[Z.to_nat idx := t]> (rows c) ∧
        size_ c' = size_ c ∧ width_ c' = width_ c ∧ pos_ c' = pos_ c + len t.
Proof.
  intros Hw Hidx Ht Hroom Hbig. pose proof (swf_width _ Hw). pose proof (swf_pos _ Hw).
  destruct (truncate_len _ _ _ (proj1 (swf_width _ Hw)) Ht) as [Hlen _].
  unfold set_value. rewrite cut_truncate, Ht, (proj2 (Z.leb_gt _ _)), (proj2 (Z.leb_le _ _)) by lia.
  eexists; split; [done|]. cbn [size_ width_ pos_ set_string_item items_buffer_ data_buffer_].
  rewrite !Z.mod_small by lia. split_and!; try done.
  - split; cbn [size_ width_ pos_ items_buffer_ data_buffer_].
    + rewrite length_insert. apply Hw.
    + rewrite memcpy_length by lia. lia.
    + done.
    + apply Forall_insert; [|unfold wf_item; cbn; lia].
      eapply Forall_impl; [apply Hw|]. intros it. apply wf_item_mono. lia.
  - unfold rows. cbn [items_buffer_ data_buffer_]. rewrite list_fmap_insert.
    rewrite view_memcpy by lia. f_equal. eapply rows_stable; [apply Hw|]. by rewrite take_memcpy by lia.
Qed.

Lemma resize_data_spec n c :
  swf c → pos_ c ≤ n → swf (resize_data n c) ∧ rows (resize_data n c) = rows c.
Proof.
  intros Hw Hn. pose proof (swf_pos _ Hw). split.
  - split; cbn; try apply Hw. rewrite Resize_length by lia. lia.
  - unfold rows. cbn. eapply rows_stable; [apply Hw|]. rewrite take_Resize; [done|lia|lia].
Qed.

Lemma resize_items_spec n c :
  swf c → 0 ≤ n →
  swf (set_size n (resize_items n c)) ∧
  rows (set_size n (resize_items n c)) = list_resize (Z.to_nat n) [] (rows c).
Proof.
  intros Hw Hn. split.
  - split; cbn; try apply Hw; [by rewrite Resize_length|].
    rewrite Resize_spec by done. apply Forall_resize; [apply zero_item_wf, Hw|apply Hw].
  - unfold rows. cbn. rewrite Resize_spec, !resize_spec, fmap_app, fmap_take, fmap_replicate by done.
    by rewrite length_fmap.
Qed.

Lemma set_string_item_spec i off l c :
  swf c → wf_item (pos_ c) (MkItem off l) → off < 2^48 →
  swf (set_string_item i off l c) ∧
  rows (set_string_item i off l c) = <[Z.to_nat i := view (data_buffer_ c) (MkItem off l)]> (rows c).
Proof.
  intros Hw Hi Hoff. destruct (Hi) as (? & ? & ?). cbn in *.
  assert (Hm : MkItem (off `mod` 2^48) (l `mod` 2^16) = MkItem off l) by (by rewrite !Z.mod_small by lia).
  split.
  - split; cbn; try apply Hw.
    + rewrite length_insert. apply Hw.
    + rewrite Hm. by apply Forall_insert; [apply Hw|].
  - unfold rows. cbn. by rewrite Hm, list_fmap_insert.
Qed.

Lemma get_item_wf c i : swf c → wf_item (pos_ c) (get_string_item c i).
Proof.
  intros Hw. unfold get_string_item. destruct (_ !! _) eqn:E; cbn.
  - eapply Forall_lookup_1; [apply Hw|done].
  - apply zero_item_wf, Hw.
Qed.

(** ** The operations on lists of strings *)

Inductive op :=
  | OpSetAny (idx : Z) (v : Value)
  | OpResize (n : Z)
  | OpResizeBytes (n data_size : Z)
  | OpResizeDefault (n : Z) (v : Value)
  | OpCopyItem (dst src : Z)
  | OpShrinkItems (n : Z).

Definition exec (o : op) c : column * res unit :=
  match o with
  | OpSetAny idx v => set_any idx v true c
  | OpResize n => (resize n c, Ok tt)
  | OpResizeBytes n b => (resize_bytes n b c, Ok tt)
  | OpResizeDefault n v => resize_default n v c
  | OpCopyItem dst src => (copy_item dst src c, Ok tt)
  | OpShrinkItems n => (shrink_items n c, Ok tt)
  end.

Definition value_string (v : Value) : option (list Z) := if IsNull v then Some [] else GetString v.
Definition kept (w : Z) (v : option (list Z)) : option (list Z) := v ≫= text_cut w.

(** What an operation does to the rows of a column of width [w]; [None] when
    the call is not allowed or does not return. *)
Definition spec_op (w : Z) (o : op) rs : option (list (list Z)) :=
  match o with
  | OpSetAny idx v =>
      t ← kept w (value_string v);
      if (0 <=? idx) && (idx <? len rs) then Some (<[Z.to_nat idx := t]> rs) else None
  | OpResize n => if 0 <=? n then Some (list_resize (Z.to_nat n) [] rs) else None
  | OpResizeBytes n b =>
      if (0 <=? n) && (0 <=? b) then Some (list_resize (Z.to_nat (Z.max n (len rs))) [] rs) else None
  | OpResizeDefault n v =>
      t ← kept w (GetString v);
      if bool_decide (id_ (type_ v) = kVarchar) && (0 <=? n)
      then Some (list_resize (Z.to_nat n) t rs) else None
  | OpCopyItem dst src =>
      r ← rs !! Z.to_nat src;
      if (0 <=? dst) && (dst <? len rs) then Some (<[Z.to_nat dst := r]> rs) else None
  | OpShrinkItems n => if (0 <=? n) && (n <=? len rs) then Some (take (Z.to_nat n) rs) else None
  end.

(** The bytes an operation may append. *)
Definition op_bytes (o : op) : Z :=
  match o with OpSetAny _ v | OpResizeDefault _ v => len (default [] (GetString v)) | _ => 0 end.

Lemma kept_len w v t : 0 ≤ w → kept w v = Some t → len t ≤ w ∧ len t ≤ len (default [] v) ∧ ∃ s, v = Some s ∧ truncate_utf8 s w = Ok t.
Proof.
  intros Hw. unfold kept. destruct v as [s|]; cbn; [|done]. intros E%text_cut_truncate; [|done]. destruct (truncate_len _ _ _ Hw E) as [? Hp]. apply prefix_length in Hp. split_and!; [lia|lia|eauto].
Qed.

(** What every operation guarantees of the column it leaves. *)
Definition leaves c (n : Z) rs (r : column * res unit) : Prop :=
  ∃ c', r = (c', Ok tt) ∧ swf c' ∧ rows c' = rs ∧ width_ c' = width_ c ∧ pos_ c' ≤ pos_ c + n.

Lemma set_any_step c idx v rs' :
  swf c → pos_ c + op_bytes (OpSetAny idx v) < 2^48 → spec_op (width_ c) (OpSetAny idx v) (rows c) = Some rs' →
  leaves c (op_bytes (OpSetAny idx v)) rs' (set_any idx v true c).
Proof.
  intros Hw Hbig Hs. cbn in *. pose proof (swf_pos _ Hw). pose proof (swf_size _ Hw).
  destruct (kept _ _) as [t|] eqn:Ek; [|done]. cbn in Hs.
  destruct (kept_len _ _ _ (proj1 (swf_width _ Hw)) Ek) as (Hl & Hl' & s & Hv & Ht).
  case_bool; [|done]. injection Hs as <-. bool_to_prop. rewrite rows_length in *.
  unfold value_string in *. unfold set_any. rewrite (proj2 (Z.leb_gt _ _)) by lia.
  assert (Hgo : ∀ c1, swf c1 → rows c1 = rows c → width_ c1 = width_ c → pos_ c1 = pos_ c →
    size_ c1 = size_ c → pos_ c1 + len t ≤ len (data_buffer_ c1) →
    leaves c (len (default [] (GetString v))) (<[Z.to_nat idx := t]> (rows c)) (set_value idx s c1)).
  { intros c1 Hw1 Hr1 Hwd Hp Hsz Hroom.
    assert (len t ≤ len (default [] (GetString v))).
    { destruct (IsNull v); [|lia]. injection Hv as <-. rewrite truncate_short in Ht by (apply Hw). injection Ht as <-. cbn. lia. }
    destruct (set_value_spec c1 idx s t) as (c' & -> & ? & ? & ? & ? & ?); try done; try lia; [by rewrite Hwd|].
    exists c'. split_and!; try done; [by rewrite <- Hr1|congruence|lia]. }
  destruct (IsNull v) eqn:En.
  - injection Hv as <-. rewrite truncate_short in Ht by (apply Hw). injection Ht as <-.
    apply Hgo; try done. cbn. lia.
  - rewrite Hv in *. cbn in *. case_bool; bool_to_prop; [|apply Hgo; try done; lia].
    destruct (resize_data_spec (Z.max (size_ c * ((pos_ c + idx) / (idx + 1))) (pos_ c + len s)) c Hw) as [Hw1 Hr1]; [lia|].
    apply Hgo; try done. cbn. rewrite Resize_length; lia.
Qed.

Lemma resize_step c n : swf c → 0 ≤ n → leaves c 0 (list_resize (Z.to_nat n) [] (rows c)) (resize n c, Ok tt).
Proof.
  intros Hw Hn. eexists; split; [done|]. unfold resize.
  destruct (resize_items_spec n c Hw Hn) as [Hw1 Hr1].
  assert (Hgo : ∀ m, pos_ c ≤ m → swf (resize_data m (set_size n (resize_items n c))) ∧
    rows (resize_data m (set_size n (resize_items n c))) = list_resize (Z.to_nat n) [] (rows c)).
  { intros m Hm. destruct (resize_data_spec m _ Hw1 Hm) as [? ->]. by rewrite Hr1. }
  case_bool; (split_and!; [apply Hgo; lia|apply Hgo; lia|done|cbn; lia]).
Qed.

Lemma resize_bytes_step c n b :
  swf c → 0 ≤ n → 0 ≤ b →
  leaves c 0 (list_resize (Z.to_nat (Z.max n (len (rows c)))) [] (rows c)) (resize_bytes n b c, Ok tt).
Proof.
  intros Hw Hn Hb. eexists; split; [done|]. unfold resize_bytes. pose proof (swf_pos _ Hw).
  pose proof (swf_size _ Hw) as Hsz. rewrite rows_length.
  set (c1 := if len (items_buffer_ c) <? n then resize_items n c else c).
  assert (Hc1 : pos_ c1 = pos_ c ∧ size_ c1 = size_ c ∧ width_ c1 = width_ c ∧ data_buffer_ c1 = data_buffer_ c)
    by (unfold c1; by case_bool).
  destruct Hc1 as (Hp1 & Hs1 & Hwd1 & Hd1).
  assert (Hw1 : swf (set_size (Z.max (size_ c) n) c1) ∧
    rows (set_size (Z.max (size_ c) n) c1) = list_resize (Z.to_nat (Z.max n (len (items_buffer_ c)))) [] (rows c)).
  { unfold c1. case_bool; bool_to_prop.
    - rewrite !Z.max_r, !Z.max_l by lia. by apply resize_items_spec.
    - rewrite Z.max_l, Z.max_r by lia. rewrite Nat2Z.id, resize_all_alt by (by rewrite rows_length).
      split; [|done]. destruct Hw. by split. }
  destruct Hw1 as [Hw1 Hr1]. case_bool; bool_to_prop; cbn [size_ pos_ resize_data set_size width_].
  - destruct (resize_data_spec (pos_ c1 + b) _ Hw1) as [Hw2 Hr2]; [cbn; lia|].
    rewrite Hs1. split_and!; [apply Hw2|by rewrite <- Hr1, <- Hr2|done|lia].
  - rewrite Hs1. split_and!; [apply Hw1|apply Hr1|done|lia].
Qed.

(** Sharing one item gives the rows in between its string. *)
Lemma copy_items_spec c from to :
  swf c → 0 ≤ from < to → to ≤ size_ c → pos_ c < 2^48 →
  swf (copy_items from to c) ∧ width_ (copy_items from to c) = width_ c ∧ pos_ (copy_items from to c) = pos_ c ∧
  rows (copy_items from to c) =
    foldl (λ l i, <[Z.to_nat i := get_view c from]> l) (rows c) (seqZ (from + 1) (to - (from + 1))).
Proof.
  intros Hw Hr Ht Hp. unfold copy_items. generalize (seqZ (from + 1) (to - (from + 1))). intros l.
  pose proof (get_item_wf c from Hw) as Hi. unfold get_view. fold (view (data_buffer_ c) (get_string_item c from)).
  revert Hi. generalize (get_string_item c from) as it. intros it Hi. clear Hr Ht.
  revert c Hw Hp Hi. induction l as [|i l IH]; intros c Hw Hp Hi; cbn [foldl]; [done|].
  destruct (set_string_item_spec i (offset it) (length_ it) c Hw) as [Hw1 Hr1]; [by destruct it|destruct Hi; lia|].
  destruct (IH _ Hw1) as (? & ? & ? & E); [done..|]. split_and!; try done.
  rewrite E, Hr1. by destruct it.
Qed.

Lemma fill_resize (x : list Z) rs n :
  0 ≤ len rs < n →
  foldl (λ l i, <[Z.to_nat i := x]> l) (<[length rs := x]> (list_resize (Z.to_nat n) [] rs))
    (seqZ (len rs + 1) (n - (len rs + 1))) = list_resize (Z.to_nat n) x rs.
Proof.
  intros Hn. apply list_eq. intros j.
  destruct (decide (j < Z.to_nat n)%nat) as [Hj|Hj].
  2:{ rewrite !lookup_ge_None_2; [done|rewrite length_resize; lia|].
      rewrite foldl_insert_length, length_insert, length_resize. lia. }
  destruct (decide (j < length rs)%nat).
  - rewrite foldl_insert_ne by (intros r Hr; apply elem_of_seqZ in Hr; lia).
    rewrite list_lookup_insert_ne, !lookup_resize by lia. done.
  - rewrite lookup_resize_new by lia. destruct (decide (j = length rs)) as [->|].
    + rewrite foldl_insert_ne by (intros r Hr; apply elem_of_seqZ in Hr; lia).
      apply list_lookup_insert_eq. rewrite length_resize. lia.
    + replace j with (Z.to_nat (Z.of_nat j)) by lia. apply (foldl_insert_in Z.to_nat).
      * apply elem_of_seqZ. lia.
      * rewrite length_insert, length_resize. lia.
Qed.

Lemma resize_default_step c n v rs' :
  swf c → pos_ c + op_bytes (OpResizeDefault n v) < 2^48 →
  spec_op (width_ c) (OpResizeDefault n v) (rows c) = Some rs' →
  leaves c (op_bytes (OpResizeDefault n v)) rs' (resize_default n v c).
Proof.
  intros Hw Hbig Hs. cbn in *. pose proof (swf_pos _ Hw). pose proof (swf_size _ Hw) as Hsz. pose proof (swf_width _ Hw).
  destruct (kept _ _) as [t|] eqn:Ek; [|done]. cbn in Hs.
  destruct (kept_len _ _ _ (proj1 (swf_width _ Hw)) Ek) as (Hl & Hl' & s & Hv & Ht).
  case_bool; [|done]. injection Hs as <-. bool_to_prop. unfold resize_default.
  rewrite bool_decide_false by (by intros []). rewrite Hv in *. cbn [set_size width_]. rewrite Ht.
  destruct (resize_items_spec n c Hw) as [Hw1 Hr1]; [done|].
  change (resize_items n (set_size n c)) with (set_size n (resize_items n c)). cbn in Hl', Hbig.
  set (c1 := set_size n (resize_items n c)) in *. set (m := Z.max _ _).
  assert (Hm : pos_ c ≤ m) by (unfold m; cbn; case_bool; bool_to_prop; nia).
  destruct (resize_data_spec m c1 Hw1 Hm) as [Hw2 Hr2]. rewrite Hr1 in Hr2.
  assert (Hrl : length (rows c) = length (items_buffer_ c)) by apply rows_length.
  destruct (Z.eqb_spec (len t) 0) as [Ht0|Ht0].
  { exists (resize_data m c1). split_and!; try done; [|cbn; lia]. by destruct t. }
  change (size_ (resize_data m c1)) with n.
  destruct (Z.ltb_spec (size_ c) n) as [Hlt|Hge].
  2:{ exists (resize_data m c1). split_and!; try done; [|cbn; lia]. rewrite Hr2, !resize_le by lia. done. }
  destruct (set_value_spec (resize_data m c1) (size_ c) t t) as (c3 & E3 & Hw3 & Hr3 & Hs3 & Hwd3 & Hp3); try done.
  { cbn. lia. } { by apply truncate_short. }
  { unfold m. cbn. rewrite Resize_length by nia. nia. } { cbn. lia. }
  rewrite E3. destruct (copy_items_spec c3 (size_ c) (size_ c3)) as (Hw4 & Hwd4 & Hp4 & Hr4); try done; try lia.
  { rewrite Hs3. cbn. lia. } { rewrite Hp3. cbn. lia. }
  exists (copy_items (size_ c) (size_ c3) c3). split_and!; [done|done| |by rewrite Hwd4, Hwd3|rewrite Hp4, Hp3; cbn; lia].
  rewrite Hr4, get_view_rows, Hr3, Hr2, Hsz, <- Hrl, Nat2Z.id, list_lookup_insert_eq by (rewrite length_resize; lia).
  rewrite Hs3. cbn [from_option size_ resize_data set_size c1]. apply fill_resize. lia.
Qed.

(** One operation, on the column and on the list. *)
Lemma column_step c o rs' :
  swf c → pos_ c + op_bytes o < 2^48 → spec_op (width_ c) o (rows c) = Some rs' →
  leaves c (op_bytes o) rs' (exec o c).
Proof.
  intros Hw Hbig Hs. pose proof (swf_pos _ Hw). destruct o as [idx v|n|n b|n v|dst src|n]; cbn [exec].
  - by apply set_any_step.
  - cbn in Hs. case_bool; simplify_eq. bool_to_prop. by apply resize_step.
  - cbn in Hs. case_bool; simplify_eq. bool_to_prop. by apply resize_bytes_step.
  - by apply resize_default_step.
  - cbn in Hs. destruct (rows c !! Z.to_nat src) as [r|] eqn:E; [|done]. cbn in Hs.
    case_bool; simplify_eq. bool_to_prop. eexists; split; [done|]. unfold copy_item.
    pose proof (get_item_wf c src Hw) as Hi. cbn in Hbig.
    destruct (set_string_item_spec dst (offset (get_string_item c src)) (length_ (get_string_item c src)) c Hw)
      as [? ->]; [by destruct (get_string_item c src)|destruct Hi; lia|].
    split_and!; try done; [|cbn; lia]. f_equal.
    transitivity (get_view c src); [by unfold get_view; destruct (get_string_item c src)|].
    by rewrite get_view_rows, E.
  - cbn in Hs. case_bool; simplify_eq. bool_to_prop. eexists; split; [done|].
    destruct (resize_items_spec n c Hw) as [? Hr]; [done|]. split_and!; try done; [|cbn; lia].
    unfold shrink_items. rewrite Hr. apply resize_le. lia.
Qed.

Definition exec_all (os : list op) c : column * res unit :=
  foldl (λ p o, match p with (c, Ok _) => exec o c | p => p end) (c, Ok tt) os.
Definition spec_all (w : Z) (os : list op) rs : option (list (list Z)) :=
  foldl (λ r o, r ≫= spec_op w o) (Some rs) os.

Lemma spec_all_none w os : foldl (λ r o, r ≫= spec_op w o) None os = None.
Proof. by induction os. Qed.

Lemma exec_all_leaves os c rs' :
  swf c → pos_ c + zsum op_bytes os < 2^48 → spec_all (width_ c) os (rows c) = Some rs' →
  leaves c (zsum op_bytes os) rs' (exec_all os c).
Proof.
  revert c. induction os as [|o os IH]; intros c Hw Hbig Hs.
  { injection Hs as <-. exists c. split_and!; try done. cbn. lia. }
  rewrite zsum_cons in *. assert (Hnn : 0 ≤ zsum op_bytes os).
  { apply zsum_nonneg. intros [] _; cbn; lia. }
  unfold spec_all in Hs. cbn [foldl] in Hs. cbn [mbind option_bind] in Hs.
  destruct (spec_op (width_ c) o (rows c)) as [rs1|] eqn:E; [|by rewrite spec_all_none in Hs].
  destruct (column_step c o rs1 Hw) as (c1 & E1 & Hw1 & Hr1 & Hwd1 & Hp1); [lia|done|].
  destruct (IH c1 Hw1) as (c' & E' & ? & ? & ? & ?); [lia|by rewrite Hr1, Hwd1|].
  exists c'. split_and!; try done; [|congruence|lia]. unfold exec_all in *. cbn [foldl]. by rewrite E1.
Qed.

Lemma OpenEmpty_wf w : 0 ≤ w < 2^16 → swf (OpenEmpty w).
Proof. intros. by split. Qed.

(** C22: A string column behaves as the list of its
    rows: from an empty column, a sequence of assignments that may grow the
    buffer, of the three kinds of resizing, of row copies and of shrinking that
    is allowed on lists of strings succeeds, and every row then reads as the list says: the
    strings assigned, cut to the longest run of whole characters within the column's
    width, the default or the empty string in new rows, unchanged everywhere else.  The
    cut of the lists decodes UTF-8 and counts characters, apart from the column's own
    loop.  Allowed are indices of existing rows, sizes that are not negative, and strings
    that fit the column's width or are UTF-8 text without a NUL: a longer string that is
    not text is excluded, the source's loop need not end on it
    ([truncate_ends_on_text]).  The
    offsets are 48 bits wide: the strings assigned have to stay below that. *)
Theorem string_column_refines w os rs :
  0 ≤ w < 2^16 → zsum op_bytes os < 2^48 → spec_all w os [] = Some rs →
  ∃ c, exec_all os (OpenEmpty w) = (c, Ok tt) ∧ size c = len rs ∧
       ∀ idx, 0 ≤ idx < len rs → Some (get_view c idx) = rs !! Z.to_nat idx.
Proof.
  intros Hw Hb Hs. destruct (exec_all_leaves os (OpenEmpty w) rs) as (c & E & Hc & <- & _); try done.
  exists c. split_and!; [done|rewrite rows_length; apply Hc|]. intros idx Hi. rewrite get_view_rows.
  destruct (rows c !! Z.to_nat idx) eqn:El; [done|]. apply lookup_ge_None_1 in El. lia.
Qed.

(** A column of width 5 that is given two rows, an assignment cut before a character of
    two bytes, a default for new rows and a row copy. *)
Lemma string_column_refines_witness :
  ∃ c, exec_all [OpResize 2; OpSetAny 1 (Value_STRING [104; 101; 108; 108; 0xC3; 0xA9]);
                 OpResizeDefault 4 (Value_STRING [122]); OpCopyItem 0 1; OpSetAny 1 (Value_STRING [])]
         (OpenEmpty 5) = (c, Ok tt) ∧
       get_view c 0 = [104; 101; 108; 108] ∧ get_view c 1 = [] ∧ get_view c 3 = [122].
Proof.
  destruct (string_column_refines 5
    [OpResize 2; OpSetAny 1 (Value_STRING [104; 101; 108; 108; 0xC3; 0xA9]);
     OpResizeDefault 4 (Value_STRING [122]); OpCopyItem 0 1; OpSetAny 1 (Value_STRING [])]
    [[104; 101; 108; 108]; []; [122]; [122]]) as (c & E & _ & H); [lia|by vm_compute|by vm_compute|].
  exists c. split_and!; [done|..].
  - specialize (H 0 ltac:(cbn; lia)). by injection H.
  - specialize (H 1 ltac:(cbn; lia)). by injection H.
  - specialize (H 3 ltac:(cbn; lia)). by injection H.
Defined.

End column.
