(* ===== verification/StringColumnDump.v ===== *)
(** * Checkpoints of string columns

    [TypedColumn<std::string_view>::Dump] rewrites a modified column without
    the bytes that no row uses, and [Open] maps the files back.  The files are
    modelled by their payload behind the header; the checksums in the headers
    and the path for unmodified columns, which keeps the old files, are not. *)

From S2P Require Import Prelude Values StringColumn StringColumnProperties.

Module StringDump.
Import StringColumn.

(** The local variables of the loop and what it has written. *)
Record dump_state := MkDump {
  cur_item : string_item;
  out_offset : Z;
  count_no_empty : Z;
  pre_item : string_item;
  item_out : list string_item;
  data_out : list Z
}.

Definition dump_item (raw_data : list Z) (st : dump_state) (item : string_item) : dump_state :=
  if (offset item =? offset (pre_item st)) && (length_ item =? length_ (pre_item st)) then
    MkDump (cur_item st) (out_offset st) (count_no_empty st) (pre_item st)
      (item_out st ++ [cur_item st]) (data_out st)
  else
    let cur := MkItem (out_offset st `mod` 2^48) (length_ item) in
    MkDump cur (out_offset st + length_ item)
      (if 0 <? length_ item then count_no_empty st + 1 else count_no_empty st) item
      (item_out st ++ [cur])
      (data_out st ++ take (Z.to_nat (length_ item)) (drop (Z.to_nat (offset item)) raw_data)).

Definition dump_loop (c : column) : dump_state :=
  foldl (dump_item (data_buffer_ c)) (MkDump zero_item 0 0 zero_item [] [])
    (take (Z.to_nat (size_ c)) (items_buffer_ c)).

(** The size the data file is cut or extended to, header aside. *)
Definition truncated_size (size width : Z) (st : dump_state) : Z :=
  let avg_size := if 0 <? count_no_empty st then out_offset st `div` count_no_empty st else width in
  let count := Z.max (size + (size + 3) `div` 4) 4096 in
  avg_size * count.

(** The two files and the two entries of the descriptor. *)
Record files := MkFiles { items_file : list string_item; data_file : list Z; desc_pos : Z; desc_width : Z }.

Definition Dump (c : column) : files :=
  let st := dump_loop c in
  MkFiles (item_out st) (Resize 0 (truncated_size (size_ c) (width_ c) st) (data_out st))
    (out_offset st) (width_ c).

Definition Open (f : files) : column :=
  MkColumn (items_file f) (data_file f) (len (items_file f)) (desc_pos f) (desc_width f).

End StringDump.

Section dump.
Import StringColumn StringDump.
Implicit Types (c : column) (d : list Z) (it : string_item) (st : dump_state).

(** What the loop has reached after the items [its]. *)
Record dumped d (its : list string_item) st : Prop := {
  du_rows : view (data_out st) <$> item_out st = view d <$> its;
  du_cur : view (data_out st) (cur_item st) = view d (pre_item st);
  du_cur_wf : wf_item (out_offset st) (cur_item st);
  du_items : Forall (wf_item (out_offset st)) (item_out st);
  du_end : len (data_out st) = out_offset st;
  du_bound : 0 ≤ count_no_empty st ≤ len its ∧ count_no_empty st ≤ out_offset st ≤ 65535 * len its;
  du_empty : count_no_empty st = 0 → out_offset st = 0
}.

Lemma view_app d d' p it : wf_item p it → p ≤ len d → view (d ++ d') it = view d it.
Proof.
  intros Hi Hp. symmetry. apply (view_stable _ _ p it Hi). destruct Hi. by rewrite take_app_le by lia.
Qed.

Lemma view_length d p it : wf_item p it → p ≤ len d → len (view d it) = length_ it.
Proof. intros (? & ? & ?) ?. unfold view. rewrite length_take, length_drop. lia. Qed.

Lemma view_last d v p : p = len d → view (d ++ v) (MkItem p (len v)) = v.
Proof. intros ->. unfold view. cbn. by rewrite !Nat2Z.id, drop_app_length, firstn_all. Qed.

Lemma dump_item_spec d p its st it :
  dumped d its st → wf_item p it → p ≤ len d → len its < 2^32 → dumped d (its ++ [it]) (dump_item d st it).
Proof.
  intros [Hr Hc Hcw Hi He Hb Hz] Hit Hp Hlen. unfold dump_item. fold (view d it). case_bool; bool_to_prop.
  - assert (it = pre_item st) as -> by (destruct it, (pre_item st); cbn in *; congruence).
    split; cbn [data_out item_out cur_item pre_item out_offset count_no_empty]; try done.
    + rewrite !fmap_app, Hr. cbn. by rewrite Hc.
    + apply Forall_app. by rewrite Forall_singleton.
    + rewrite length_app. cbn. lia.
  - destruct Hit as (? & ? & ?). pose proof (view_length d p it ltac:(done) Hp) as Hl.
    rewrite Z.mod_small by lia. rewrite <- Hl.
    assert (Hv : view (data_out st ++ view d it) (MkItem (out_offset st) (len (view d it))) = view d it).
    { apply view_last. by rewrite He. }
    split; cbn [data_out item_out cur_item pre_item out_offset count_no_empty].
    + rewrite !fmap_app. cbn. rewrite Hv. f_equal. rewrite <- Hr. apply list_fmap_ext. intros i x Hx.
      eapply view_app; [by eapply Forall_lookup_1|lia].
    + done.
    + unfold wf_item. cbn. lia.
    + apply Forall_app. split; [|apply Forall_singleton; unfold wf_item; cbn; lia].
      eapply Forall_impl; [done|]. intros x. apply wf_item_mono. lia.
    + rewrite length_app. lia.
    + rewrite length_app. cbn. case_bool; bool_to_prop; lia.
    + case_bool; bool_to_prop; lia.
Qed.

Lemma dump_loop_spec c : swf c → size_ c ≤ 2^32 → dumped (data_buffer_ c) (items_buffer_ c) (dump_loop c).
Proof.
  intros Hw Hs. unfold dump_loop. rewrite take_ge by (rewrite (swf_size _ Hw); lia).
  pose proof (swf_items _ Hw) as Hi. rewrite (swf_size _ Hw) in Hs. revert Hi Hs.
  induction (items_buffer_ c) as [|it its IH] using rev_ind; intros Hi Hs.
  { split; cbn; try done; try lia. }
  rewrite length_app in Hs. cbn in Hs. apply Forall_app in Hi as [Hi Hit]. rewrite Forall_singleton in Hit.
  rewrite foldl_snoc. eapply dump_item_spec; [apply IH; [done|lia]|done|apply Hw|lia].
Qed.

(** The file keeps all bytes if the strings are not too short on average. *)
Definition long_or_few c : Prop :=
  size_ c ≤ 2048 ∨ Forall (λ it, length_ it = 0 ∨ 4 ≤ length_ it) (items_buffer_ c).

Lemma dump_loop_long its d :
  Forall (λ it, length_ it = 0 ∨ 4 ≤ length_ it) its →
  let st := foldl (dump_item d) (MkDump zero_item 0 0 zero_item [] []) its in
  4 * count_no_empty st ≤ out_offset st.
Proof.
  induction its as [|it its IH] using rev_ind; intros Hi; cbn; [done|].
  apply Forall_app in Hi as [Hi Hit]. rewrite Forall_singleton in Hit. specialize (IH Hi). cbn in IH.
  rewrite foldl_snoc. set (st := foldl _ _ _) in *. clearbody st. unfold dump_item.
  case_bool; cbn; [done|]. case_bool; bool_to_prop; lia.
Qed.

Lemma dump_fits c :
  swf c → size_ c ≤ 2^32 → long_or_few c →
  out_offset (dump_loop c) ≤ truncated_size (size_ c) (width_ c) (dump_loop c).
Proof.
  intros Hw Hs Hl. pose proof (dump_loop_spec c Hw Hs) as Hd. pose proof (swf_size _ Hw) as Hsz.
  pose proof (swf_width _ Hw) as Hwd.
  unfold truncated_size. destruct (du_bound _ _ _ Hd) as [Hc Ho]. rewrite <- Hsz in *.
  case_bool; bool_to_prop.
  2:{ rewrite (du_empty _ _ _ Hd) by lia. nia. }
  set (st := dump_loop c) in *. set (f := out_offset st `div` count_no_empty st).
  assert (Hf : f * count_no_empty st ≤ out_offset st < (f + 1) * count_no_empty st) by (unfold f; dlia).
  assert (Hf1 : 1 ≤ f) by nia.
  destruct Hl as [Hl|Hl]; [nia|].
  assert (H4 : 4 * count_no_empty st ≤ out_offset st).
  { unfold st, dump_loop. rewrite take_ge by lia. by apply dump_loop_long. }
  assert (Hf4 : 4 ≤ f) by nia. assert (Hq : size_ c ≤ 4 * ((size_ c + 3) / 4)) by dlia.
  transitivity (f * (size_ c + (size_ c + 3) / 4)); [|nia].
  transitivity ((f + 1) * size_ c); nia.
Qed.

(** C28: A string column that is dumped and opened again
    has the same rows, whatever the garbage, the shared and the overwritten
    strings in its buffer, and is again a column whose rows lie in the written
    part of the buffer, when it has at most 2048 rows or its non-empty strings
    have at least four bytes. *)
Theorem string_dump_roundtrip c :
  swf c → size_ c ≤ 2^32 → long_or_few c →
  let c' := Open (Dump c) in
  swf c' ∧ size c' = size c ∧ width_ c' = width_ c ∧ ∀ idx, get_view c' idx = get_view c idx.
Proof.
  intros Hw Hs Hl. pose proof (dump_loop_spec c Hw Hs) as Hd. pose proof (dump_fits c Hw Hs Hl) as Hf.
  pose proof (du_end _ _ _ Hd) as He. destruct (du_bound _ _ _ Hd) as [Hc Ho].
  assert (Hrows : rows (Open (Dump c)) = rows c).
  { unfold rows. cbn. rewrite <- (du_rows _ _ _ Hd). eapply rows_stable; [apply Hd|].
    apply take_Resize; lia. }
  assert (Hlen : length (item_out (dump_loop c)) = length (items_buffer_ c)).
  { by rewrite <- (length_fmap (view (data_out (dump_loop c)))), (du_rows _ _ _ Hd), length_fmap. }
  cbn. split_and!; [|unfold size; cbn; by rewrite Hlen, <- (swf_size _ Hw)|done|].
  - split; cbn; [done| |apply Hw|apply Hd]. rewrite Resize_length by lia. lia.
  - intros idx. by rewrite !get_view_rows, Hrows.
Qed.

(** Three rows, two of them sharing a string, over an overwritten one. *)
Definition sample_column : column :=
  fst (exec_all [OpResize 3; OpSetAny 0 (Value_STRING [97; 98]); OpSetAny 0 (Value_STRING [99]);
                 OpSetAny 1 (Value_STRING [100; 101; 102]); OpCopyItem 2 1] (OpenEmpty 4)).

Lemma string_dump_roundtrip_witness :
  let c' := Open (Dump sample_column) in
  get_view c' 0 = [99] ∧ get_view c' 1 = [100; 101; 102] ∧ get_view c' 2 = [100; 101; 102] ∧ pos_ c' = 4.
Proof.
  destruct (string_dump_roundtrip sample_column) as (_ & _ & _ & H).
  - split; [by vm_compute|by vm_compute|by vm_compute|].
    repeat (apply Forall_cons; split; [vm_compute; repeat split; discriminate|]). apply Forall_nil_2.
  - by vm_compute.
  - left. by vm_compute.
  - cbn zeta. rewrite !H. by vm_compute.
Defined.

(** The 2800 rows of a column of two-letter codes, the first of one letter. *)
Definition short_codes : list op :=
  OpResize 2800 :: ((λ i, OpSetAny i (Value_STRING (if i =? 0 then [85] else [85; 83]))) <$> seqZ 0 2800).

(** The data file of a dump is cut to the average
    string length, rounded down, times a number of rows, and that can be less
    than what was written: after 2800 assignments of the strings of one and two
    bytes the dump has 5599 bytes of strings, the descriptor says so, the
    file keeps 4096, and the string of the last row is not in it. *)
Theorem short_strings_cut :
  let '(c, r) := exec_all short_codes (OpenEmpty 2) in
  let f := Dump c in
  r = Ok tt ∧ desc_pos f = 5599 ∧ len (data_file f) = 4096 ∧
  get_view c 2799 = [85; 83] ∧ get_view (Open f) 2799 = [] ∧
  items_file f !! 2799%nat = Some (MkItem 5597 2).
Proof. vm_compute. repeat split. Qed.

End dump.
