(* ===== verification/LFIndexer.v ===== *)
(** * The primary-key indexer

    LFIndexer (include/neug/utils/id_indexer.h): a column of keys in insertion
    order, and an open-addressing table of indices into it, probed linearly
    from the slot the hash policy gives (third_party/flat_hash_map).  The key
    column is an interface with two implementations, fixed-width and string
    columns.  [INDEX_T] is the 32-bit [vid_t]. *)

From S2P Require Import Prelude StringColumn.

(** ** prime_number_hash_policy *)

Module HashPolicy.

Definition prime_list : list Z :=
  [ 2; 3; 5; 7; 11; 13; 17; 23; 29; 37; 47; 59; 73; 97; 127; 151; 197; 251; 313; 397; 499; 631;
    797; 1009; 1259; 1597; 2011; 2539; 3203; 4027; 5087; 6421; 8089; 10193; 12853; 16193; 20399;
    25717; 32401; 40823; 51437; 64811; 81649; 102877; 129607; 163307; 205759; 259229; 326617;
    411527; 518509; 653267; 823117; 1037059; 1306601; 1646237; 2074129; 2613229; 3292489;
    4148279; 5226491; 6584983; 8296553; 10453007; 13169977; 16593127; 20906033; 26339969;
    33186281; 41812097; 52679969; 66372617; 83624237; 105359939; 132745199; 167248483;
    210719881; 265490441; 334496971; 421439783; 530980861; 668993977; 842879579; 1061961721;
    1337987929; 1685759167; 2123923447; 2675975881; 3371518343; 4247846927; 5351951779;
    6743036717; 8495693897; 10703903591; 13486073473; 16991387857; 21407807219; 26972146961;
    33982775741; 42815614441; 53944293929; 67965551447; 85631228929; 107888587883; 135931102921;
    171262457903; 215777175787; 271862205833; 342524915839; 431554351609; 543724411781;
    685049831731; 863108703229; 1087448823553; 1370099663459; 1726217406467; 2174897647073;
    2740199326961; 3452434812973; 4349795294267; 5480398654009; 6904869625999; 8699590588571;
    10960797308051; 13809739252051; 17399181177241; 21921594616111; 27619478504183;
    34798362354533; 43843189232363; 55238957008387; 69596724709081; 87686378464759;
    110477914016779; 139193449418173; 175372756929481; 220955828033581; 278386898836457;
    350745513859007; 441911656067171; 556773797672909; 701491027718027; 883823312134381;
    1113547595345903; 1402982055436147; 1767646624268779; 2227095190691797; 2805964110872297;
    3535293248537579; 4454190381383713; 5611928221744609; 7070586497075177; 8908380762767489;
    11223856443489329; 14141172994150357; 17816761525534927; 22447712886978529;
    28282345988300791; 35633523051069991; 44895425773957261; 56564691976601587;
    71267046102139967; 89790851547914507; 113129383953203213; 142534092204280003;
    179581703095829107; 226258767906406483; 285068184408560057; 359163406191658253;
    452517535812813007; 570136368817120201; 718326812383316683; 905035071625626043;
    1140272737634240411; 1436653624766633509; 1810070143251252131; 2280545475268481167;
    2873307249533267101; 3620140286502504283; 4561090950536962147; 5746614499066534157;
    7240280573005008577; 9122181901073924329; 11493228998133068689; 14480561146010017169;
    18446744073709551557 ].

(** [std::lower_bound] over all but the last prime; the size is updated to
    the prime, the mod function is given by its position. *)
Definition next_size_over (size : Z) : Z * nat :=
  match list_find (λ p, size ≤ p) (removelast prime_list) with
  | Some (i, p) => (p, S i)
  | None => (List.last prime_list 0, length prime_list)
  end.

(** Function 0 is [mod0], function [S i] the remainder by prime [i]. *)
Definition index_for_hash (mod_function : nat) (hash : Z) : Z :=
  match mod_function with O => 0 | S i => hash `mod` (prime_list !!! i) end.

End HashPolicy.

(** ** The column of keys *)

Class KeyColumn (K C : Type) := {
  #[global] key_eq_dec :: EqDecision K;
  GHash : K → Z;
  key_size : K → Z;
  kc_size : C → Z;
  kc_resize : Z → C → C;
  kc_set_value : Z → K → C → C * res unit;
  kc_get_view : C → Z → K;
  kc_reserve_string_data : Z → Z → C → C
}.

Module LFIndexer.

Definition sentinel : Z := U32_MAX.

Record t (C : Type) := MkLF {
  indices_ : list Z;
  num_elements_ : Z;
  num_slots_minus_one_ : Z;
  keys_ : C;
  hash_policy_ : nat
}.
Arguments MkLF {C}. Arguments indices_ {C}. Arguments num_elements_ {C}.
Arguments num_slots_minus_one_ {C}. Arguments keys_ {C}. Arguments hash_policy_ {C}.

Section operations.
Context {K C : Type} `{!KeyColumn K C}.
Implicit Types (x : t C) (oid : K).

(** [Open] with an empty descriptor. *)
Definition OpenEmpty (keys : C) : t C := MkLF [] 0 0 keys 0.

Definition capacity x : Z := kc_size (keys_ x).
Definition size x : Z := num_elements_ x.
Definition slots x : Z := num_slots_minus_one_ x + 1.

Definition set_keys (c : C) x : t C :=
  MkLF (indices_ x) (num_elements_ x) (num_slots_minus_one_ x) c (hash_policy_ x).
Definition set_num (n : Z) x : t C :=
  MkLF (indices_ x) n (num_slots_minus_one_ x) (keys_ x) (hash_policy_ x).
Definition set_indices (l : list Z) x : t C :=
  MkLF l (num_elements_ x) (num_slots_minus_one_ x) (keys_ x) (hash_policy_ x).

(** The exchange loop, without other threads.  After as many steps as there
    are slots every slot was seen occupied and the loop does not end. *)
Fixpoint insert_loop (fuel : nat) (l : list Z) (n index ind : Z) : res (list Z) :=
  match fuel with
  | O => Throw Diverges
  | S fuel =>
      match l !! Z.to_nat index with
      | None => Throw OutOfBounds
      | Some cur =>
          if cur =? sentinel then Ok (<[Z.to_nat index := ind]> l)
          else insert_loop fuel l n ((index + 1) `mod` n) ind
      end
  end.

Definition home (pol : nat) oid : Z := HashPolicy.index_for_hash pol (GHash oid).

Definition insert_index (ind hash : Z) x : t C * res unit :=
  let index := HashPolicy.index_for_hash (hash_policy_ x) hash in
  match insert_loop (Z.to_nat (slots x)) (indices_ x) (slots x) index ind with
  | Ok l => (set_indices l x, Ok tt)
  | Throw e => (x, Throw e)
  end.

Fixpoint lookup_loop (fuel : nat) (keys : C) (l : list Z) (n index : Z) oid : res (option Z) :=
  match fuel with
  | O => Throw Diverges
  | S fuel =>
      match l !! Z.to_nat index with
      | None => Throw OutOfBounds
      | Some ind =>
          if ind =? sentinel then Ok None
          else if decide (kc_get_view keys ind = oid) then Ok (Some ind)
          else lookup_loop fuel keys l n ((index + 1) `mod` n) oid
      end
  end.

Definition get_index_typed oid x : res (option Z) :=
  if len (indices_ x) =? 0 then Ok None
  else lookup_loop (Z.to_nat (slots x)) (keys_ x) (indices_ x) (slots x) (home (hash_policy_ x) oid) oid.

(** Which of the elements are found in the old table. *)
Fixpoint oid_set (idxs : list Z) x : res (list bool) :=
  match idxs with
  | [] => Ok []
  | idx :: idxs =>
      r ← get_index_typed (kc_get_view (keys_ x) idx) x;
      rest ← oid_set idxs x;
      Ok (bool_decide (is_Some r) :: rest)
  end.

Fixpoint reinsert (idxs : list (Z * bool)) x : t C * res unit :=
  match idxs with
  | [] => (x, Ok tt)
  | (idx, found) :: idxs =>
      if found then
        match insert_index idx (GHash (kc_get_view (keys_ x) idx)) x with
        | (x, Ok _) => reinsert idxs x
        | (x, Throw e) => (x, Throw e)
        end
      else reinsert idxs x
  end.

Definition rehash_typed (new_indices_size : Z) x : t C * res unit :=
  let idxs := seqZ 0 (num_elements_ x) in
  match oid_set idxs x with
  | Throw e => (x, Throw e)
  | Ok found =>
      let '(new_indices_size, new_prime_index) := HashPolicy.next_size_over new_indices_size in
      reinsert (zip idxs found)
        (MkLF (replicate (Z.to_nat new_indices_size) sentinel) (num_elements_ x) (new_indices_size - 1)
           (keys_ x) new_prime_index)
  end.

(** [size / max_load_factor] with a factor of one half. *)
Definition rehash (n : Z) x : t C * res unit :=
  let n := Z.max n 4 in
  let x := set_keys (kc_resize n (keys_ x)) x in
  let n := 2 * n in
  if n =? len (indices_ x) then (x, Ok tt) else rehash_typed n x.

Definition reserve (n : Z) x : t C * res unit := rehash (Z.max n (num_elements_ x)) x.

(** The second half of [insert_absent_typed]: take the next index, store the
    key and publish the index. *)
Definition append_key oid (insert_safe : bool) x : t C * res Z :=
  let ind := u32 (num_elements_ x) in
  let x := set_num (num_elements_ x + 1) x in
  if negb insert_safe && (capacity x <=? ind) then (x, Throw InternalError)
  else match kc_set_value ind oid (keys_ x) with
    | (keys, Throw e) => (set_keys keys x, Throw e)
    | (keys, Ok _) =>
        match insert_index ind (GHash oid) (set_keys keys x) with
        | (x, Ok _) => (x, Ok ind)
        | (x, Throw e) => (x, Throw e)
        end
    end.

Definition insert_absent_typed oid (insert_safe : bool) x : t C * res Z :=
  let '(x, r) :=
    if insert_safe then
      let '(x, r) := if capacity x <=? num_elements_ x
                     then reserve (capacity x + Z.shiftr (capacity x) 2) x else (x, Ok tt) in
      match r with
      | Ok _ => (set_keys (kc_reserve_string_data (capacity x) (key_size oid) (keys_ x)) x, Ok tt)
      | Throw e => (x, Throw e)
      end
    else (x, Ok tt) in
  match r with
  | Throw e => (x, Throw e)
  | Ok _ => append_key oid insert_safe x
  end.

(** The growth loop shared with the vertex table. *)
Fixpoint grow_capacity (fuel : nat) (new_size cap : Z) : Z :=
  match fuel with
  | O => cap
  | S fuel => if cap <=? new_size
              then grow_capacity fuel new_size (if cap <? 4096 then 4096 else cap + cap `div` 4)
              else cap
  end.
Definition grown (new_size cap : Z) : Z := grow_capacity (Z.to_nat new_size + 2) new_size cap.

Definition reserve_insert_capacity (key_count : Z) x : t C * res unit :=
  let new_size := size x + key_count in
  if capacity x <? new_size then reserve (grown new_size (capacity x)) x else (x, Ok tt).

Fixpoint get_or_insert_loop (oids : list K) x : t C * res (list (Z * bool)) :=
  match oids with
  | [] => (x, Ok [])
  | oid :: oids =>
      match get_index_typed oid x with
      | Throw e => (x, Throw e)
      | Ok (Some ret) =>
          let '(x, r) := get_or_insert_loop oids x in (x, (λ l, (ret, false) :: l) <$> r)
      | Ok None =>
          match insert_absent_typed oid false x with
          | (x, Throw e) => (x, Throw e)
          | (x, Ok ret) => let '(x, r) := get_or_insert_loop oids x in (x, (λ l, (ret, true) :: l) <$> r)
          end
      end
  end.

(** [results] and [inserted], row by row. *)
Definition get_or_insert_typed_column (oids : list K) x : t C * res (list (Z * bool)) :=
  match reserve_insert_capacity (len oids) x with
  | (x, Throw e) => (x, Throw e)
  | (x, Ok _) =>
      let total_bytes := zsum key_size oids in
      get_or_insert_loop oids (set_keys (kc_reserve_string_data (capacity x) total_bytes (keys_ x)) x)
  end.

Definition get_index_typed_column (oids : list K) x : res (list Z) :=
  foldr (λ oid r, i ← get_index_typed oid x; l ← r; Ok (default sentinel i :: l)) (Ok []) oids.

Definition get_key (index : Z) x : K := kc_get_view (keys_ x) index.

End operations.
End LFIndexer.
