(* ===== verification/LFIndexerTable.v ===== *)
(** * Linear probing

    The table of the indexer as a hash table: every element sits at the end of
    a run of occupied slots that starts at its home slot, so a search that
    meets a free slot has seen everything with that home. *)

From S2P Require Import Prelude StringColumn LFIndexer.

(** ** Hash policy *)

Section policy.
Import HashPolicy.

Lemma list_find_le (n : Z) l i p : list_find (λ p, n ≤ p) l = Some (i, p) → l !! i = Some p ∧ n ≤ p.
Proof. intros H. apply list_find_Some in H. naive_solver. Qed.

(** The slot a hash is sent to lies in a table of the chosen size. *)
Lemma next_size_over_spec n p i h :
  0 ≤ n ≤ 2^63 → next_size_over n = (p, i) → n ≤ p ∧ 0 < p ∧ 0 ≤ index_for_hash i h < p.
Proof.
  intros Hn. unfold next_size_over. destruct (list_find _ _) as [[j q]|] eqn:E.
  - intros [= <- <-]. apply list_find_le in E as [Hl Hq].
    assert (Hall : Forall (λ p, 0 < p) prime_list) by (vm_compute; repeat constructor).
    assert (Hl' : prime_list !! j = Some q).
    { replace prime_list with (removelast prime_list ++ [List.last prime_list 0]) by reflexivity.
      apply lookup_app_l_Some, Hl. }
    pose proof (proj1 (Forall_lookup _ _) Hall _ _ Hl') as Hpos. cbn in Hpos.
    split_and!; [done|done|..]; unfold index_for_hash; rewrite (list_lookup_total_correct _ _ _ Hl');
      apply Z.mod_pos_bound; done.
  - apply list_find_None in E. exfalso.
    apply (Forall_lookup_1 _ _ 184%nat 14480561146010017169) in E; [cbn in E; lia|by vm_compute].
Qed.
End policy.

Import LFIndexer.

(** ** Occupied and free slots *)

Lemma occupied_insert (l : list Z) s x :
  l !! s = Some sentinel → x ≠ sentinel →
  length (filter (λ y, y ≠ sentinel) (<[s := x]> l)) = S (length (filter (λ y, y ≠ sentinel) l)).
Proof.
  intros Hs Hx. pose proof (lookup_lt_Some _ _ _ Hs). rewrite insert_take_drop by done.
  rewrite <- (take_drop_middle l s sentinel Hs) at 3.
  rewrite !filter_app, !length_app, !filter_cons, decide_True, decide_False by naive_solver.
  cbn. lia.
Qed.

Lemma free_slot (l : list Z) :
  (length (filter (λ y, y ≠ sentinel) l) < length l)%nat → ∃ s, l !! s = Some sentinel.
Proof.
  intros H. destruct (decide (Exists (λ y, y = sentinel) l)) as [He|He].
  - apply Exists_exists in He as (x & Hx & ->). by apply list_elem_of_lookup in Hx.
  - rewrite filter_all_in in H; [lia|]. intros x Hx ->. apply He, Exists_exists. eauto.
Qed.

(** The slot [j] steps after [h] in a table of [n] slots. *)
Definition slot (n h j : Z) : nat := Z.to_nat ((h + j) `mod` n).

Lemma slot_next n h j : 0 < n → ((h + j) `mod` n + 1) `mod` n = (h + (j + 1)) `mod` n.
Proof. intros. rewrite Zplus_mod_idemp_l. f_equal. lia. Qed.

Lemma slot_lookup (l : list Z) h j : 0 < len l → ∃ y, l !! slot (len l) h j = Some y.
Proof.
  intros H. apply lookup_lt_is_Some_2. unfold slot. pose proof (Z.mod_pos_bound (h + j) (len l) H). lia.
Qed.

(** The first free slot from [h] on. *)
Lemma first_free (l : list Z) h :
  (∃ s, l !! s = Some sentinel) → 0 ≤ h →
  ∃ d, 0 ≤ d < len l ∧ l !! slot (len l) h d = Some sentinel ∧
       ∀ j, 0 ≤ j < d → l !! slot (len l) h j ≠ Some sentinel.
Proof.
  intros [s Hs] Hh. pose proof (lookup_lt_Some _ _ _ Hs) as Hlt.
  set (d0 := (Z.of_nat s - h) `mod` len l).
  assert (Hd0 : 0 ≤ d0 < len l) by (apply Z.mod_pos_bound; lia).
  assert (H0 : l !! slot (len l) h d0 = Some sentinel).
  { unfold slot, d0. rewrite Zplus_mod_idemp_r. replace (h + (Z.of_nat s - h)) with (Z.of_nat s) by lia.
    rewrite Z.mod_small by lia. by rewrite Nat2Z.id. }
  clearbody d0. clear Hs.
  assert (Hleast : ∀ k : nat, Z.of_nat k ≤ d0 + 1 →
    (∃ d, 0 ≤ d < Z.of_nat k ∧ l !! slot (len l) h d = Some sentinel ∧
          ∀ j, 0 ≤ j < d → l !! slot (len l) h j ≠ Some sentinel) ∨
    ∀ j, 0 ≤ j < Z.of_nat k → l !! slot (len l) h j ≠ Some sentinel).
  { induction k as [|k IH]; intros Hk; [right; lia|].
    destruct IH as [(d & Hd & Hf & Hm)|Hn]; [lia|left; exists d; split_and!; [lia|lia|done|done]|].
    destruct (decide (l !! slot (len l) h (Z.of_nat k) = Some sentinel)) as [E|E].
    - left. exists (Z.of_nat k). split_and!; [lia|lia|done|done].
    - right. intros j Hj. destruct (decide (j = Z.of_nat k)) as [->|]; [done|]. apply Hn. lia. }
  destruct (Hleast (Z.to_nat (d0 + 1))) as [(d & Hd & Hf & Hm)|Hn]; [lia| |].
  - exists d. split_and!; [lia|lia|done|done].
  - destruct (Hn d0); [lia|done].
Qed.

(** ** The table *)

Record table (l : list Z) (home : Z → Z) (n : Z) : Prop := {
  tb_entries : ∀ s x, l !! s = Some x → x ≠ sentinel → 0 ≤ x < n;
  tb_placed : ∀ i, 0 ≤ i < n → ∃ d, 0 ≤ d < len l ∧ l !! slot (len l) (home i) d = Some i ∧
                ∀ j, 0 ≤ j < d → l !! slot (len l) (home i) j ≠ Some sentinel;
  tb_count : len (filter (λ y, y ≠ sentinel) l) = n
}.

Lemma table_ext l home home' n :
  (∀ i, 0 ≤ i < n → home i = home' i) → table l home n → table l home' n.
Proof.
  intros He [Hen Hpl Hc]. split; [done| |done]. intros i Hi. rewrite <- He by done. by apply Hpl.
Qed.

Lemma table_empty k home : table (replicate k sentinel) home 0.
Proof.
  split.
  - intros s x Hs Hx. apply lookup_replicate in Hs as [-> _]. done.
  - lia.
  - rewrite filter_none_in; [done|]. intros x Hx. apply elem_of_replicate in Hx as [-> _]. naive_solver.
Qed.

Lemma insert_loop_spec l h d ind j fuel :
  0 < len l → 0 ≤ j ≤ d → d - j < Z.of_nat fuel →
  l !! slot (len l) h d = Some sentinel → (∀ k, 0 ≤ k < d → l !! slot (len l) h k ≠ Some sentinel) →
  insert_loop fuel l (len l) ((h + j) `mod` len l) ind = Ok (<[slot (len l) h d := ind]> l).
Proof.
  intros Hl. revert j. induction fuel as [|fuel IH]; intros j Hj Hf Hd Hm; [lia|].
  cbn [insert_loop]. fold (slot (len l) h j). destruct (slot_lookup l h j Hl) as [y Hy]. rewrite Hy.
  destruct (Z.eqb_spec y sentinel) as [->|Hne].
  - assert (j = d) as ->; [|done]. destruct (decide (j = d)); [done|]. destruct (Hm j); [lia|done].
  - assert (j ≠ d) by (intros ->; congruence). rewrite slot_next by done. apply IH; try done; lia.
Qed.

Lemma table_insert l home n :
  table l home n → 0 ≤ n < len l → n < sentinel → 0 ≤ home n < len l →
  ∃ l', insert_loop (length l) l (len l) (home n) n = Ok l' ∧ length l' = length l ∧ table l' home (n + 1).
Proof.
  intros [Hen Hpl Hc] Hn Hs Hh. destruct (free_slot l) as [s0 Hs0]; [lia|].
  destruct (first_free l (home n)) as (d & Hd & Hf & Hm); [eauto|lia|].
  exists (<[slot (len l) (home n) d := n]> l). rewrite length_insert. split_and!; [|done|].
  - rewrite <- (insert_loop_spec l (home n) d n 0 (length l)); try done; try lia.
    f_equal. rewrite Z.add_0_r, Z.mod_small by lia. done.
  - split; rewrite ?length_insert.
    + intros s x Hx Hne. destruct (decide (s = slot (len l) (home n) d)) as [->|].
      * rewrite list_lookup_insert_eq in Hx by (by eapply lookup_lt_Some). injection Hx as <-. lia.
      * rewrite list_lookup_insert_ne in Hx by done. pose proof (Hen _ _ Hx Hne). lia.
    + intros i Hi. destruct (decide (i = n)) as [->|].
      * exists d. split; [lia|]. rewrite list_lookup_insert_eq by (by eapply lookup_lt_Some). split; [done|].
        intros j Hj. specialize (Hm j Hj).
        destruct (decide (slot (len l) (home n) j = slot (len l) (home n) d)) as [E|]; [by rewrite E in Hm|].
        by rewrite list_lookup_insert_ne.
      * destruct (Hpl i) as (e & He & Hi1 & Hi2); [lia|]. exists e. split; [done|]. split.
        -- rewrite list_lookup_insert_ne; [done|]. intros E. rewrite E in Hf. assert (i = sentinel) by congruence. lia.
        -- intros j Hj. specialize (Hi2 j Hj).
           destruct (decide (slot (len l) (home i) j = slot (len l) (home n) d)) as [->|].
           ++ rewrite list_lookup_insert_eq by (by eapply lookup_lt_Some). intros [= ->]. lia.
           ++ by rewrite list_lookup_insert_ne.
    + rewrite occupied_insert; [lia|done|lia].
Qed.

Section search.
Context {K C : Type} `{!KeyColumn K C}.
Implicit Types (oid : K).

(** A search ends and is right: what it finds has the key, and when it finds
    nothing no element has. *)
Lemma lookup_loop_spec (keys : C) l pol n oid :
  table l (λ i, home pol (kc_get_view keys i)) n → n < len l → n ≤ sentinel → 0 ≤ home pol oid < len l →
  ∃ r, lookup_loop (length l) keys l (len l) (home pol oid) oid = Ok r ∧
    match r with
    | Some i => 0 ≤ i < n ∧ kc_get_view keys i = oid
    | None => ∀ i, 0 ≤ i < n → kc_get_view keys i ≠ oid
    end.
Proof.
  intros [Hen Hpl Hc] Hn Hns Hh. set (h := home pol oid) in *.
  destruct (free_slot l) as [s0 Hs0]; [lia|]. destruct (first_free l h) as (d & Hd & Hf & Hm); [eauto|lia|].
  assert (Hgo : ∀ fuel j, 0 ≤ j ≤ d → d - j < Z.of_nat fuel →
    (∀ k y, 0 ≤ k < j → l !! slot (len l) h k = Some y → kc_get_view keys y ≠ oid) →
    ∃ r, lookup_loop fuel keys l (len l) ((h + j) `mod` len l) oid = Ok r ∧
      match r with
      | Some i => 0 ≤ i < n ∧ kc_get_view keys i = oid
      | None => ∀ i, 0 ≤ i < n → kc_get_view keys i ≠ oid
      end).
  { induction fuel as [|fuel IH]; intros j Hj Hfu Hmiss; [lia|]. cbn [lookup_loop]. fold (slot (len l) h j).
    destruct (slot_lookup l h j) as [y Hy]; [lia|]. rewrite Hy. destruct (Z.eqb_spec y sentinel) as [->|Hne].
    - exists None. split; [done|]. intros i Hi Hk. destruct (Hpl i Hi) as (e & He & Hi1 & Hi2).
      rewrite Hk in Hi1, Hi2. fold h in Hi1, Hi2.
      destruct (Z.lt_trichotomy e j) as [Hlt|[->|Hgt]].
      + apply (Hmiss e i); [lia|done|done].
      + rewrite Hy in Hi1. injection Hi1 as <-. lia.
      + apply (Hi2 j); [lia|done].
    - destruct (decide (kc_get_view keys y = oid)) as [Hk|Hk].
      + exists (Some y). split; [done|]. split; [by eapply Hen|done].
      + assert (j ≠ d) by (intros ->; congruence). rewrite slot_next by lia. apply IH; [lia|lia|].
        intros k y' Hk' Hy'. destruct (decide (k = j)) as [->|]; [congruence|]. apply (Hmiss k y'); [lia|done]. }
  destruct (Hgo (length l) 0) as (r & E & Hr); [lia|lia|lia|].
  exists r. split; [|done]. rewrite <- E. f_equal. rewrite Z.add_0_r, Z.mod_small; done.
Qed.

(** Nothing is found that no element has, wherever the elements are. *)
Lemma lookup_miss (keys : C) l hm n h oid :
  table l hm n → n < len l → 0 ≤ h < len l → (∀ i, 0 ≤ i < n → kc_get_view keys i ≠ oid) →
  lookup_loop (length l) keys l (len l) h oid = Ok None.
Proof.
  intros [Hen Hpl Hc] Hn Hh Hmiss.
  destruct (free_slot l) as [s0 Hs0]; [lia|]. destruct (first_free l h) as (d & Hd & Hf & Hm); [eauto|lia|].
  assert (Hgo : ∀ fuel j, 0 ≤ j ≤ d → d - j < Z.of_nat fuel →
    lookup_loop fuel keys l (len l) ((h + j) `mod` len l) oid = Ok None).
  { induction fuel as [|fuel IH]; intros j Hj Hfu; [lia|]. cbn [lookup_loop]. fold (slot (len l) h j).
    destruct (slot_lookup l h j) as [y Hy]; [lia|]. rewrite Hy. destruct (Z.eqb_spec y sentinel) as [->|Hne]; [done|].
    destruct (decide (kc_get_view keys y = oid)) as [Hk|Hk]; [by destruct (Hmiss y (Hen _ _ Hy Hne))|].
    assert (j ≠ d) by (intros ->; congruence). rewrite slot_next by lia. apply IH; lia. }
  rewrite <- (Hgo (length l) 0) by lia. f_equal. rewrite Z.add_0_r, Z.mod_small; done.
Qed.
End search.
