(* ===== verification/LFIndexerProperties.v ===== *)
(** * The indexer as a list of distinct keys

    The laws a key column gives to the indexer, the indexer's invariant, and
    its operations as operations on the list of keys in insertion order. *)

From S2P Require Import Prelude StringColumn LFIndexer LFIndexerTable.
Import LFIndexer.

(** ** What the indexer needs of its key column *)

Section laws.
Context {K C : Type} `{!KeyColumn K C}.

(** [c'] has the first [n] keys of [c]. *)
Definition same_keys (n : Z) (c c' : C) : Prop := ∀ i, 0 ≤ i < n → kc_get_view c' i = kc_get_view c i.
End laws.

(** [kc_keeps]: the column stores the key as it is; [kc_room]: so many more
    bytes fit into its buffer; [kc_budget]: so many could be added at all. *)
Class KeyColumnLaws (K C : Type) `{!KeyColumn K C} := {
  kc_wf : C → Prop;
  kc_keeps : C → K → Prop;
  kc_room : C → Z → Prop;
  kc_budget : C → Z → Prop;
  key_size_nonneg : ∀ k : K, 0 ≤ key_size k;
  kc_room_mono : ∀ c a b, kc_room c a → 0 ≤ b ≤ a → kc_room c b;
  kc_budget_mono : ∀ c a b, kc_budget c a → b ≤ a → kc_budget c b;
  kc_size_nonneg : ∀ c, kc_wf c → 0 ≤ kc_size c;
  kc_resize_ok : ∀ c n, kc_wf c → 0 ≤ n →
    kc_wf (kc_resize n c) ∧ kc_size (kc_resize n c) = n ∧
    same_keys (Z.min n (kc_size c)) c (kc_resize n c) ∧
    (∀ k, kc_keeps c k → kc_keeps (kc_resize n c) k) ∧ (∀ b, kc_budget c b → kc_budget (kc_resize n c) b);
  kc_reserve_ok : ∀ c b, kc_wf c → 0 ≤ b → kc_budget c b →
    let c' := kc_reserve_string_data (kc_size c) b c in
    kc_wf c' ∧ kc_size c' = kc_size c ∧ same_keys (kc_size c) c c' ∧
    (∀ k, kc_keeps c k → kc_keeps c' k) ∧ (∀ b', kc_budget c b' → kc_budget c' b') ∧ kc_room c' b;
  kc_set_ok : ∀ c i k b, kc_wf c → 0 ≤ i < kc_size c → kc_keeps c k → 0 ≤ b → kc_room c (key_size k + b) →
    ∃ c', kc_set_value i k c = (c', Ok tt) ∧ kc_wf c' ∧ kc_size c' = kc_size c ∧
      kc_get_view c' i = k ∧ (∀ j, 0 ≤ j < kc_size c → j ≠ i → kc_get_view c' j = kc_get_view c j) ∧
      (∀ k, kc_keeps c k → kc_keeps c' k) ∧ kc_room c' b ∧
      (∀ b', kc_budget c (key_size k + b') → kc_budget c' b')
}.

Section indexer.
Context {K C : Type} `{!KeyColumn K C} `{!KeyColumnLaws K C}.
Implicit Types (x : t C) (oid : K) (ks : list K).

Definition contents x : list K := kc_get_view (keys_ x) <$> seqZ 0 (num_elements_ x).

Definition MAX_CAPACITY : Z := 2^31.

(** A table with [k] of the keys of [x] in it. *)
Record building x (k : Z) : Prop := {
  bd_len : len (indices_ x) = slots x;
  bd_slots : 0 < slots x;
  bd_policy : ∀ h, 0 ≤ HashPolicy.index_for_hash (hash_policy_ x) h < slots x;
  bd_table : table (indices_ x) (λ i, home (hash_policy_ x) (kc_get_view (keys_ x) i)) k
}.

(** Enough for a search. *)
Definition searchable x : Prop :=
  0 ≤ num_elements_ x ≤ sentinel ∧
  ((indices_ x = [] ∧ num_elements_ x = 0) ∨ (building x (num_elements_ x) ∧ num_elements_ x < slots x)).

(** At least twice as many slots as keys fit into the column. *)
Record lf_inv x : Prop := {
  li_keys : kc_wf (keys_ x);
  li_num : 0 ≤ num_elements_ x ≤ capacity x;
  li_cap : capacity x ≤ MAX_CAPACITY;
  li_table : (indices_ x = [] ∧ capacity x = 0) ∨
             (building x (num_elements_ x) ∧ 2 * capacity x ≤ slots x)
}.

Lemma lf_inv_searchable x : lf_inv x → searchable x.
Proof.
  intros [Hk Hn Hc Ht]. unfold searchable, MAX_CAPACITY, sentinel, U32_MAX in *. split; [lia|].
  destruct Ht as [[? ?]|[Hb ?]]; [left; split; [done|lia]|right]. pose proof (bd_slots _ _ Hb). split; [done|lia].
Qed.

Lemma building_keys x c k : building x k → same_keys k (keys_ x) c → building (set_keys c x) k.
Proof.
  intros [Hl Hs Hp Ht] Hc. split; try done. eapply table_ext; [|done]. intros i Hi. cbn. by rewrite Hc.
Qed.

Lemma searchable_keys x c : searchable x → same_keys (num_elements_ x) (keys_ x) c → searchable (set_keys c x).
Proof.
  intros [Hn Ht] Hc. split; [done|]. destruct Ht as [?|[? ?]]; [by left|right]. split; [by apply building_keys|done].
Qed.

(** From [x] to [x']: the column still accepts the keys and bytes it did. *)
Definition accepts x x' (b : Z) : Prop :=
  (∀ k, kc_keeps (keys_ x) k → kc_keeps (keys_ x') k) ∧
  ∀ b', kc_budget (keys_ x) (b + b') → kc_budget (keys_ x') b'.

Lemma accepts_refl x : accepts x x 0.
Proof. split; [done|]. intros b'. by rewrite Z.add_0_l. Qed.

Lemma accepts_trans x y z a b : accepts x y a → accepts y z b → accepts x z (a + b).
Proof. intros [H1 H2] [H3 H4]. split; [eauto|]. intros b' Hb. apply H4, H2. by rewrite Z.add_assoc. Qed.

Lemma accepts_mono x y a b : a ≤ b → accepts x y a → accepts x y b.
Proof. intros Hab [H1 H2]. split; [done|]. intros b' Hb. apply H2. eapply kc_budget_mono; [done|lia]. Qed.

Lemma contents_length x : 0 ≤ num_elements_ x → len (contents x) = num_elements_ x.
Proof. intros. unfold contents. rewrite length_fmap, length_seqZ. lia. Qed.

Lemma contents_lookup x i :
  0 ≤ i < num_elements_ x → contents x !! Z.to_nat i = Some (kc_get_view (keys_ x) i).
Proof.
  intros Hi. unfold contents. rewrite list_lookup_fmap, lookup_seqZ_lt by lia. cbn. f_equal. f_equal. lia.
Qed.

Lemma elem_of_contents x oid : oid ∈ contents x ↔ ∃ i, 0 ≤ i < num_elements_ x ∧ kc_get_view (keys_ x) i = oid.
Proof. unfold contents. rewrite list_elem_of_fmap. setoid_rewrite elem_of_seqZ. naive_solver lia. Qed.

Lemma contents_same x x' :
  num_elements_ x' = num_elements_ x → same_keys (num_elements_ x) (keys_ x) (keys_ x') →
  contents x' = contents x.
Proof.
  intros Hn Hs. unfold contents. rewrite Hn. apply list_fmap_ext. intros i y Hy.
  apply lookup_seqZ in Hy. apply Hs. lia.
Qed.

(** ** Searching *)

Lemma get_index_spec x oid :
  searchable x → ∃ r, get_index_typed oid x = Ok r ∧
    match r with
    | Some i => 0 ≤ i < num_elements_ x ∧ contents x !! Z.to_nat i = Some oid
    | None => oid ∉ contents x
    end.
Proof.
  intros [Hn Ht]. unfold get_index_typed. destruct Ht as [[Hi Hz]|[[Hl Hs Hp Ht] Hlt]].
  - exists None. rewrite Hi. split; [done|]. rewrite elem_of_contents. intros (i & ? & _). lia.
  - rewrite (proj2 (Z.eqb_neq _ _)) by lia.
    destruct (lookup_loop_spec (keys_ x) (indices_ x) (hash_policy_ x) (num_elements_ x) oid) as (r & E & Hr);
      [done|lia|lia|rewrite Hl; apply Hp|].
    exists r. split; [by rewrite <- Hl, Nat2Z.id|]. destruct r as [i|].
    + destruct Hr as [Hr <-]. split; [done|]. by apply contents_lookup.
    + rewrite elem_of_contents. naive_solver.
Qed.

(** ** Rehashing *)

Lemma insert_index_spec x k :
  building x k → 0 ≤ k < slots x → k < sentinel →
  ∃ l, insert_index k (GHash (kc_get_view (keys_ x) k)) x = (set_indices l x, Ok tt) ∧
       building (set_indices l x) (k + 1).
Proof.
  intros [Hl Hs Hp Ht] Hk Hks. destruct (table_insert _ _ _ Ht) as (l & E & El & Ht'); [lia|done|rewrite Hl; apply Hp|].
  exists l. unfold insert_index, home in *. rewrite Hl, <- (Nat2Z.id (length _)), Hl in E. rewrite E. split; [done|].
  split; try done. cbn. by rewrite El.
Qed.

Lemma reinsert_spec x k n :
  building x k → 0 ≤ k → k + Z.of_nat n ≤ slots x → k + Z.of_nat n ≤ sentinel →
  ∃ l, reinsert (zip (seqZ k (Z.of_nat n)) (replicate n true)) x = (set_indices l x, Ok tt) ∧
       building (set_indices l x) (k + Z.of_nat n).
Proof.
  revert x k. induction n as [|n IH]; intros x k Hb Hk Hn Hs.
  - exists (indices_ x). rewrite Z.add_0_r. by destruct x.
  - rewrite seqZ_cons by lia. cbn [zip zip_with replicate reinsert].
    destruct (insert_index_spec x k) as (l & E & Hb'); [done|lia|lia|]. rewrite E.
    replace (Z.pred (Z.of_nat (S n))) with (Z.of_nat n) by lia.
    destruct (IH (set_indices l x) (Z.succ k)) as (l' & E' & Hb''); [done|lia|change (slots (set_indices l x)) with (slots x); lia|lia|].
    exists l'. rewrite E'. split; [done|]. replace (k + Z.of_nat (S n)) with (Z.succ k + Z.of_nat n) by lia. done.
Qed.

Lemma oid_set_all x idxs :
  searchable x → (∀ i, i ∈ idxs → 0 ≤ i < num_elements_ x) → oid_set idxs x = Ok (replicate (length idxs) true).
Proof.
  intros Hx. induction idxs as [|i idxs IH]; intros Hi; [done|]. cbn [oid_set].
  destruct (get_index_spec x (kc_get_view (keys_ x) i) Hx) as (r & -> & Hr). cbn [mbind res_bind].
  rewrite IH by (intros; apply Hi; by right). cbn. destruct r as [j|]; [done|].
  destruct Hr. apply elem_of_contents. exists i. split; [|done]. apply Hi. by left.
Qed.

Lemma rehash_typed_spec x n :
  searchable x → num_elements_ x ≤ n ≤ 2^33 →
  ∃ x', rehash_typed n x = (x', Ok tt) ∧ building x' (num_elements_ x) ∧ n ≤ slots x' ∧
        keys_ x' = keys_ x ∧ num_elements_ x' = num_elements_ x.
Proof.
  intros Hs Hn. unfold rehash_typed. pose proof (proj1 Hs) as Hnum.
  rewrite oid_set_all by (try done; intros i Hi; apply elem_of_seqZ in Hi; lia).
  destruct (HashPolicy.next_size_over n) as [p i] eqn:Ep.
  assert (Hp : ∀ h, n ≤ p ∧ 0 < p ∧ 0 ≤ HashPolicy.index_for_hash i h < p)
    by (intros h; eapply next_size_over_spec; [lia|done]).
  destruct (Hp 0) as (Hnp & Hp0 & _). set (x1 := MkLF _ _ _ _ _).
  assert (Hsl : slots x1 = p) by (unfold slots; cbn; lia).
  assert (Hb : building x1 0).
  { split; rewrite ?Hsl; [cbn; rewrite length_replicate; lia|done|intros h; apply Hp|apply table_empty]. }
  rewrite length_seqZ.
  destruct (reinsert_spec x1 0 (Z.to_nat (num_elements_ x)) Hb) as (l & E & Hb'); [lia|lia|lia|].
  rewrite Z2Nat.id in E, Hb' by lia. exists (set_indices l x1). split_and!; [done|done|change (n ≤ slots x1); lia|done|done].
Qed.

Lemma rehash_spec x n :
  lf_inv x → num_elements_ x ≤ n ≤ MAX_CAPACITY →
  ∃ x', rehash n x = (x', Ok tt) ∧ lf_inv x' ∧ contents x' = contents x ∧
        num_elements_ x' = num_elements_ x ∧ capacity x' = Z.max n 4 ∧ accepts x x' 0.
Proof.
  intros Hx Hn. destruct (Hx) as [Hk Hnum Hc Ht]. unfold rehash, MAX_CAPACITY in *.
  destruct (kc_resize_ok (keys_ x) (Z.max n 4) Hk) as (Hk1 & Hsz1 & Hsame & Hkeep & Hbud); [lia|].
  assert (Hsame' : same_keys (num_elements_ x) (keys_ x) (kc_resize (Z.max n 4) (keys_ x))).
  { intros i Hi. apply Hsame. unfold capacity in *. lia. }
  set (x1 := set_keys (kc_resize (Z.max n 4) (keys_ x)) x) in *.
  assert (Hsea : searchable x1) by (apply searchable_keys; [by apply lf_inv_searchable|done]).
  assert (Hacc : ∀ x', keys_ x' = keys_ x1 → accepts x x' 0).
  { intros x' E. split; rewrite E; [done|]. intros b'. rewrite Z.add_0_l. apply Hbud. }
  assert (Hcap1 : capacity x1 = Z.max n 4) by done.
  destruct (Z.eqb_spec (2 * Z.max n 4) (len (indices_ x1))) as [E|E].
  - exists x1. split_and!; [done| |by apply contents_same|done|done|by apply Hacc].
    split; [done|change (num_elements_ x1) with (num_elements_ x); lia|unfold MAX_CAPACITY; lia|].
    right. destruct Hsea as [_ [[Hi _]|[Hb _]]]; [rewrite Hi in E; cbn in E; lia|].
    split; [done|]. rewrite <- (bd_len _ _ Hb). lia.
  - destruct (rehash_typed_spec x1 (2 * Z.max n 4) Hsea) as (x' & Ex & Hb & Hsl & Ek & En).
    { change (num_elements_ x1) with (num_elements_ x). lia. }
    change (num_elements_ x1) with (num_elements_ x) in *.
    assert (Hcap : capacity x' = Z.max n 4) by (unfold capacity; by rewrite Ek).
    exists x'. split_and!; try done; [|by apply contents_same; rewrite ?Ek|by apply Hacc].
    split; [by rewrite Ek|lia|unfold MAX_CAPACITY; lia|]. right. rewrite En. split; [done|]. lia.
Qed.

Lemma lf_reserve_spec x n :
  lf_inv x → n ≤ MAX_CAPACITY →
  ∃ x', reserve n x = (x', Ok tt) ∧ lf_inv x' ∧ contents x' = contents x ∧ num_elements_ x' = num_elements_ x ∧
        n ≤ capacity x' ∧ capacity x' ≤ Z.max (Z.max n (num_elements_ x)) 4 ∧ accepts x x' 0.
Proof.
  intros Hx Hn. destruct (Hx) as [_ Hnum Hc _]. unfold reserve, MAX_CAPACITY in *.
  destruct (rehash_spec x (Z.max n (num_elements_ x)) Hx) as (x' & E & ? & ? & ? & ? & ?); [unfold MAX_CAPACITY; lia|].
  exists x'. split_and!; try done; lia.
Qed.

(** ** Inserting *)

(** What an insertion leaves: one more key, and room for [b] more bytes. *)
Definition appended x oid (b : Z) (r : t C * res Z) : Prop :=
  ∃ x', r = (x', Ok (num_elements_ x)) ∧ lf_inv x' ∧ contents x' = contents x ++ [oid] ∧
        num_elements_ x' = num_elements_ x + 1 ∧ capacity x' = capacity x ∧ accepts x x' (key_size oid) ∧
        kc_room (keys_ x') b.

Lemma append_key_spec x oid safe b :
  lf_inv x → num_elements_ x < capacity x → kc_keeps (keys_ x) oid → 0 ≤ b →
  kc_room (keys_ x) (key_size oid + b) → appended x oid b (append_key oid safe x).
Proof.
  intros [Hk Hn Hc Ht] Hlt Hkeep Hb Hroom. unfold append_key, MAX_CAPACITY in *.
  rewrite u32_id by (unfold is_u32; lia). change (capacity (set_num _ x)) with (capacity x).
  rewrite (proj2 (Z.leb_gt _ _)), andb_false_r by lia.
  destruct (kc_set_ok (keys_ x) (num_elements_ x) oid b) as
    (c & E & Hc' & Hsz & Hat & Hoth & Hkeep' & Hroom' & Hbud); [done|unfold capacity in *; lia|done|done|done|].
  cbn [set_num keys_]. rewrite E.
  assert (Hsame : same_keys (num_elements_ x) (keys_ x) c)
    by (intros i Hi; apply Hoth; unfold capacity in *; lia).
  destruct Ht as [[_ Hz]|[Hbd Hload]]; [lia|].
  set (x1 := set_keys c (set_num (num_elements_ x + 1) x)).
  assert (Hbd1 : building x1 (num_elements_ x)).
  { destruct (building_keys x c _ Hbd Hsame) as [? ? ? ?]. by split. }
  pose proof (bd_slots _ _ Hbd). change (slots x1) with (slots x) in *.
  destruct (insert_index_spec x1 (num_elements_ x) Hbd1) as (l & El & Hbd2).
  { change (slots x1) with (slots x). lia. } { unfold sentinel, U32_MAX. lia. }
  change (kc_get_view (keys_ x1)) with (kc_get_view c) in El. rewrite Hat in El.
  unfold insert_index in *. change (set_num (num_elements_ x + 1) x) with (set_num (num_elements_ x + 1) x).
  fold x1. rewrite El. exists (set_indices l x1).
  assert (Hcap : capacity (set_indices l x1) = capacity x) by done.
  split_and!; try done.
  - split; [done|change (0 ≤ num_elements_ x + 1 ≤ capacity (set_indices l x1)); lia|rewrite Hcap; unfold MAX_CAPACITY; lia|].
    right. split; [done|]. rewrite Hcap. done.
  - unfold contents. cbn [set_indices x1 set_keys set_num num_elements_ keys_].
    rewrite seqZ_app, fmap_app by lia. f_equal; [|rewrite Z.add_0_l, seqZ_cons, seqZ_nil by lia; cbn; by rewrite Hat].
    apply list_fmap_ext. intros i y Hy. apply lookup_seqZ in Hy. apply Hsame. lia.
Qed.

(** [index_of] is the position of a key. *)
Definition index_of oid ks : option Z := (λ p, Z.of_nat p.1) <$> list_find (λ k, k = oid) ks.

Lemma index_of_Some oid ks i :
  NoDup ks → (index_of oid ks = Some i ↔ 0 ≤ i ∧ ks !! Z.to_nat i = Some oid).
Proof.
  intros Hnd. unfold index_of. split.
  - destruct (list_find _ ks) as [[j k]|] eqn:E; [|done]. cbn. intros [= <-].
    apply list_find_Some in E as (E & -> & _). split; [lia|]. by rewrite Nat2Z.id.
  - intros [Hi Hk]. destruct (list_find (λ k, k = oid) ks) as [[j k]|] eqn:E.
    + apply list_find_Some in E as (E & -> & _). cbn. f_equal.
      pose proof (NoDup_lookup _ _ _ _ Hnd E Hk). lia.
    + apply list_find_None in E. apply (Forall_lookup_1 _ _ _ _ E) in Hk. by destruct Hk.
Qed.

Lemma index_of_None oid ks : index_of oid ks = None ↔ oid ∉ ks.
Proof.
  unfold index_of. rewrite fmap_None, list_find_None, Forall_forall. naive_solver.
Qed.

Lemma get_index_of x oid : lf_inv x → NoDup (contents x) → get_index_typed oid x = Ok (index_of oid (contents x)).
Proof.
  intros Hx Hnd. destruct (get_index_spec x oid (lf_inv_searchable x Hx)) as (r & -> & Hr). f_equal. symmetry.
  destruct r as [i|].
  - apply index_of_Some; [done|]. naive_solver lia.
  - by apply index_of_None.
Qed.

Lemma reserve_string_spec x b :
  lf_inv x → 0 ≤ b → kc_budget (keys_ x) b →
  let x' := set_keys (kc_reserve_string_data (capacity x) b (keys_ x)) x in
  lf_inv x' ∧ contents x' = contents x ∧ capacity x' = capacity x ∧ accepts x x' 0 ∧ kc_room (keys_ x') b.
Proof.
  intros [Hk Hn Hc Ht] Hb Hbud.
  destruct (kc_reserve_ok (keys_ x) b Hk Hb Hbud) as (Hk' & Hsz & Hsame & Hkeep & Hbud' & Hroom).
  unfold capacity. set (c := kc_reserve_string_data _ _ _) in *. cbn zeta.
  assert (Hsame' : same_keys (num_elements_ x) (keys_ x) c) by (intros i Hi; apply Hsame; unfold capacity in *; lia).
  split_and!; [|by apply contents_same|done|split; [done|]; intros b'; rewrite Z.add_0_l; apply Hbud'|done].
  assert (Hcap : capacity (set_keys c x) = capacity x) by done.
  split; [done|by rewrite Hcap|by rewrite Hcap|]. rewrite Hcap. destruct Ht as [?|[? ?]]; [by left|right].
  split; [by apply building_keys|done].
Qed.

(** The insertion that may grow the column. *)
Lemma insert_safe_spec x oid :
  lf_inv x → num_elements_ x < 2^30 → kc_keeps (keys_ x) oid → kc_budget (keys_ x) (key_size oid) →
  ∃ x', insert_absent_typed oid true x = (x', Ok (num_elements_ x)) ∧ lf_inv x' ∧
        contents x' = contents x ++ [oid] ∧ accepts x x' (key_size oid).
Proof.
  intros Hx Hn Hkeep Hbud. unfold insert_absent_typed. pose proof (key_size_nonneg oid).
  assert (Hres : ∃ x1, (if capacity x <=? num_elements_ x
      then reserve (capacity x + Z.shiftr (capacity x) 2) x else (x, Ok tt)) = (x1, Ok tt) ∧
      lf_inv x1 ∧ contents x1 = contents x ∧ num_elements_ x1 = num_elements_ x ∧
      num_elements_ x < capacity x1 ∧ accepts x x1 0).
  { destruct (Hx) as [_ Hnum Hc _]. case_bool; bool_to_prop.
    - rewrite Z.shiftr_div_pow2 by lia. change (2^2) with 4.
      unfold reserve. destruct (rehash_spec x (Z.max (capacity x + capacity x `div` 4) (num_elements_ x)) Hx)
        as (x1 & E & ? & ? & ? & Hcap & ?); [unfold MAX_CAPACITY; dlia|].
      exists x1. split_and!; try done. rewrite Hcap. dlia.
    - exists x. split_and!; done. }
  destruct Hres as (x1 & -> & Hx1 & Hc1 & Hn1 & Hlt & Ha1). destruct (Ha1) as [Hk1 Hb1].
  destruct (reserve_string_spec x1 (key_size oid) Hx1) as (Hx2 & Hc2 & Hcap2 & Ha2 & Hroom); [done|by apply Hb1|].
  set (x2 := set_keys _ x1) in *. change (num_elements_ x1) with (num_elements_ x2) in Hn1.
  destruct (append_key_spec x2 oid true 0 Hx2) as (x' & E & Hx' & Hc' & _ & _ & Ha' & _); try lia.
  { apply Ha2, Hk1, Hkeep. } { by rewrite Z.add_0_r. }
  rewrite E, Hn1. exists x'. split_and!; [done|done|by rewrite Hc', Hc2, Hc1|].
  pose proof (accepts_trans _ _ _ _ _ Ha1 (accepts_trans _ _ _ _ _ Ha2 Ha')) as Ha. by rewrite !Z.add_0_l in Ha.
Qed.

(** Without room in the column the index is taken all the same. *)
(** Where the keys leave room in the column its capacity stays. *)
Lemma insert_room x oid (safe : bool) :
  lf_inv x → num_elements_ x < capacity x → kc_keeps (keys_ x) oid →
  (if safe then kc_budget (keys_ x) (key_size oid) else kc_room (keys_ x) (key_size oid)) →
  ∃ x', insert_absent_typed oid safe x = (x', Ok (num_elements_ x)) ∧ lf_inv x' ∧
        contents x' = contents x ++ [oid] ∧ num_elements_ x' = num_elements_ x + 1 ∧
        capacity x' = capacity x ∧ accepts x x' (key_size oid).
Proof.
  intros Hx Hlt Hkeep Hroom. unfold insert_absent_typed. pose proof (key_size_nonneg oid). destruct safe.
  - rewrite (proj2 (Z.leb_gt _ _)) by lia.
    destruct (reserve_string_spec x (key_size oid)) as (Hx1 & Hc1 & Hcap1 & Ha1 & Hr1); [done..|].
    set (x1 := set_keys _ x) in *.
    destruct (append_key_spec x1 oid true 0) as (x2 & E & Hx2 & Hc2 & Hn2 & Hcap2 & Ha2 & _);
      [done|by rewrite Hcap1|by apply Ha1|done|by rewrite Z.add_0_r|].
    exists x2. rewrite Hcap2, Hcap1, Hc2, Hc1. split_and!; try done.
    by apply (accepts_trans x x1 x2 0 (key_size oid)).
  - destruct (append_key_spec x oid false 0) as (x2 & E & Hx2 & Hc2 & Hn2 & Hcap2 & Ha2 & _);
      [done..|by rewrite Z.add_0_r|]. exists x2. by split_and!.
Qed.

Lemma insert_full x oid :
  lf_inv x → num_elements_ x = capacity x →
  insert_absent_typed oid false x = (set_num (num_elements_ x + 1) x, Throw InternalError).
Proof.
  intros [_ Hn Hc _] E. unfold insert_absent_typed, append_key, MAX_CAPACITY in *.
  rewrite u32_id by (unfold is_u32; lia). change (capacity (set_num _ x)) with (capacity x).
  by rewrite (proj2 (Z.leb_le _ _)) by lia.
Qed.

(** ** Batches *)

Fixpoint spec_get_or_insert ks (oids : list K) : list K * list (Z * bool) :=
  match oids with
  | [] => (ks, [])
  | oid :: oids =>
      match index_of oid ks with
      | Some i => let '(ks', r) := spec_get_or_insert ks oids in (ks', (i, false) :: r)
      | None => let '(ks', r) := spec_get_or_insert (ks ++ [oid]) oids in (ks', (len ks, true) :: r)
      end
  end.

Lemma NoDup_snoc_absent ks oid : NoDup ks → oid ∉ ks → NoDup (ks ++ [oid]).
Proof.
  intros Hnd Hni. apply NoDup_app. split_and!; [done| |apply NoDup_singleton].
  intros k Hk. by rewrite list_elem_of_singleton; intros ->.
Qed.

Lemma get_or_insert_loop_spec oids x :
  lf_inv x → NoDup (contents x) → num_elements_ x + len oids ≤ capacity x →
  Forall (kc_keeps (keys_ x)) oids → kc_room (keys_ x) (zsum key_size oids) →
  ∃ x', get_or_insert_loop oids x = (x', Ok (spec_get_or_insert (contents x) oids).2) ∧ lf_inv x' ∧
        contents x' = (spec_get_or_insert (contents x) oids).1 ∧ NoDup (contents x') ∧
        capacity x' = capacity x ∧ accepts x x' (zsum key_size oids).
Proof.
  revert x. induction oids as [|oid oids IH]; intros x Hx Hnd Hcap Hkeep Hroom.
  { by exists x. }
  apply Forall_cons in Hkeep as [Hk Hks]. rewrite zsum_cons in Hroom. cbn [length] in Hcap.
  assert (Hz : 0 ≤ zsum key_size oids) by (apply zsum_nonneg; intros; apply key_size_nonneg).
  pose proof (li_num _ Hx). cbn [get_or_insert_loop spec_get_or_insert]. rewrite get_index_of by done.
  destruct (index_of oid (contents x)) as [i|] eqn:Ei.
  - destruct (IH x) as (x' & E & ? & ? & ? & ? & Ha); [done|done|lia|done| |].
    { eapply kc_room_mono; [done|]. pose proof (key_size_nonneg oid). lia. }
    rewrite E. destruct (spec_get_or_insert (contents x) oids). exists x'. split_and!; try done.
    eapply accepts_mono; [|done]. rewrite zsum_cons. pose proof (key_size_nonneg oid). lia.
  - apply index_of_None in Ei. unfold insert_absent_typed.
    destruct (append_key_spec x oid false (zsum key_size oids) Hx) as (x1 & E & Hx1 & Hc1 & Hn1 & Hcap1 & Ha1 & Hr1);
      [lia|done|done|done|]. rewrite E.
    destruct (IH x1) as (x' & E' & Hx' & Hc' & Hnd' & Hcap' & Ha'); [done| |lia| |done|].
    { rewrite Hc1. by apply NoDup_snoc_absent. } { eapply Forall_impl; [done|]. apply Ha1. }
    rewrite E'. rewrite Hc1 in Hc'. rewrite Hc1. rewrite contents_length by lia.
    destruct (spec_get_or_insert (contents x ++ [oid]) oids). exists x'. split_and!; try done; [by rewrite Hcap'|].
    rewrite zsum_cons. by eapply accepts_trans.
Qed.

(** The batch, once there is room for it. *)
Lemma get_or_insert_reserved oids x :
  lf_inv x → NoDup (contents x) → num_elements_ x + len oids ≤ capacity x →
  Forall (kc_keeps (keys_ x)) oids → kc_budget (keys_ x) (zsum key_size oids) →
  ∃ x', get_or_insert_loop oids (set_keys (kc_reserve_string_data (capacity x) (zsum key_size oids) (keys_ x)) x) =
          (x', Ok (spec_get_or_insert (contents x) oids).2) ∧ lf_inv x' ∧
        contents x' = (spec_get_or_insert (contents x) oids).1 ∧ NoDup (contents x') ∧
        capacity x' = capacity x ∧ accepts x x' (zsum key_size oids).
Proof.
  intros Hx Hnd Hn Hkeep Hbud.
  destruct (reserve_string_spec x (zsum key_size oids) Hx) as (Hx2 & Hc2 & Hcap2 & Ha2 & Hroom); [|done|].
  { apply zsum_nonneg. intros. apply key_size_nonneg. }
  set (x2 := set_keys _ x) in *.
  destruct (get_or_insert_loop_spec oids x2) as (x' & E & ? & ? & ? & ? & Ha3); try done.
  { by rewrite Hc2. } { rewrite Hcap2. done. } { eapply Forall_impl; [done|]. intros k Hk. by apply Ha2. }
  rewrite Hc2 in *. exists x'. split_and!; try done; [congruence|].
  pose proof (accepts_trans _ _ _ _ _ Ha2 Ha3) as Ha. by rewrite Z.add_0_l in Ha.
Qed.

Lemma get_or_insert_room oids x :
  lf_inv x → NoDup (contents x) → num_elements_ x + len oids ≤ capacity x →
  Forall (kc_keeps (keys_ x)) oids → kc_budget (keys_ x) (zsum key_size oids) →
  ∃ x', get_or_insert_typed_column oids x = (x', Ok (spec_get_or_insert (contents x) oids).2) ∧ lf_inv x' ∧
        contents x' = (spec_get_or_insert (contents x) oids).1 ∧ NoDup (contents x') ∧
        capacity x' = capacity x ∧ accepts x x' (zsum key_size oids).
Proof.
  intros. unfold get_or_insert_typed_column, reserve_insert_capacity, size. rewrite (proj2 (Z.ltb_ge _ _)) by lia.
  by apply get_or_insert_reserved.
Qed.

Lemma grow_capacity_spec fuel n cap :
  0 ≤ cap → n - cap < Z.of_nat fuel →
  n < grow_capacity fuel n cap ≤ Z.max cap (Z.max 4096 (n + n `div` 4)).
Proof.
  revert cap. induction fuel as [|fuel IH]; intros cap Hc Hf; cbn [grow_capacity]; [lia|].
  destruct (Z.leb_spec cap n); [|lia].
  destruct (Z.ltb_spec cap 4096).
  - destruct (IH 4096); lia.
  - assert (1024 ≤ cap `div` 4 ≤ n `div` 4) by (split; [dlia|apply Z.div_le_mono; lia]).
    destruct (IH (cap + cap `div` 4)); lia.
Qed.

Lemma grown_spec n cap : 0 ≤ cap → n < grown n cap ≤ Z.max cap (Z.max 4096 (n + n `div` 4)).
Proof. intros. apply grow_capacity_spec; lia. Qed.

Lemma reserve_insert_spec x k :
  lf_inv x → 0 ≤ k → num_elements_ x + k ≤ 2^30 →
  ∃ x', reserve_insert_capacity k x = (x', Ok tt) ∧ lf_inv x' ∧ contents x' = contents x ∧
        num_elements_ x' + k ≤ capacity x' ∧ accepts x x' 0.
Proof.
  intros Hx Hk Hn. unfold reserve_insert_capacity, size. destruct (Hx) as [Hkeys Hnum Hc _]. unfold MAX_CAPACITY in *.
  case_bool; bool_to_prop; [|exists x; split_and!; try done; lia].
  assert (Hg : num_elements_ x + k < grown (num_elements_ x + k) (capacity x) ≤ 2^31).
  { destruct (grown_spec (num_elements_ x + k) (capacity x)); [lia|]. dlia. }
  destruct (lf_reserve_spec x (grown (num_elements_ x + k) (capacity x)) Hx) as (x' & E & ? & ? & Hn' & ? & _ & ?); [apply Hg|].
  exists x'. split_and!; try done. lia.
Qed.

Lemma get_or_insert_spec oids x :
  lf_inv x → NoDup (contents x) → num_elements_ x + len oids ≤ 2^30 →
  Forall (kc_keeps (keys_ x)) oids → kc_budget (keys_ x) (zsum key_size oids) →
  ∃ x', get_or_insert_typed_column oids x = (x', Ok (spec_get_or_insert (contents x) oids).2) ∧ lf_inv x' ∧
        contents x' = (spec_get_or_insert (contents x) oids).1 ∧ NoDup (contents x') ∧
        accepts x x' (zsum key_size oids).
Proof.
  intros Hx Hnd Hn Hkeep Hbud. unfold get_or_insert_typed_column.
  destruct (reserve_insert_spec x (len oids) Hx) as (x1 & -> & Hx1 & Hc1 & Hn1 & Ha1); [lia|done|].
  destruct (Ha1) as [Hk1 Hb1].
  destruct (get_or_insert_reserved oids x1) as (x' & E & ? & ? & ? & _ & Ha2); [done|by rewrite Hc1|done| |by apply Hb1|].
  { eapply Forall_impl; [done|]. intros k Hk. by apply Hk1. }
  rewrite Hc1 in *. exists x'. split_and!; try done.
  pose proof (accepts_trans _ _ _ _ _ Ha1 Ha2) as Ha. by rewrite Z.add_0_l in Ha.
Qed.

(** ** Any sequence of operations *)

Inductive op :=
  | OpInsert (oid : K)
  | OpLookup (oid : K)
  | OpReserve (n : Z)
  | OpGetOrInsert (oids : list K)
  | OpGetKey (index : Z).

Inductive ret :=
  | RIndex (i : Z)
  | RFound (i : option Z)
  | RDone
  | RBatch (l : list (Z * bool))
  | RKey (oid : K).

Definition exec (o : op) x : t C * res ret :=
  match o with
  | OpInsert oid => let '(x, r) := insert_absent_typed oid true x in (x, RIndex <$> r)
  | OpLookup oid => (x, RFound <$> get_index_typed oid x)
  | OpReserve n => let '(x, r) := reserve n x in (x, (λ _, RDone) <$> r)
  | OpGetOrInsert oids => let '(x, r) := get_or_insert_typed_column oids x in (x, RBatch <$> r)
  | OpGetKey i => (x, Ok (RKey (get_key i x)))
  end.

(** On lists of keys; [None] for calls the indexer's users do not make and for
    more than 2^30 keys. *)
Definition spec_op (o : op) ks : option (list K * ret) :=
  match o with
  | OpInsert oid =>
      if bool_decide (oid ∉ ks) && (len ks <? 2^30) then Some (ks ++ [oid], RIndex (len ks)) else None
  | OpLookup oid => Some (ks, RFound (index_of oid ks))
  | OpReserve n => if n <=? MAX_CAPACITY then Some (ks, RDone) else None
  | OpGetOrInsert oids =>
      if len ks + len oids <=? 2^30
      then let '(ks, r) := spec_get_or_insert ks oids in Some (ks, RBatch r) else None
  | OpGetKey i => if 0 <=? i then (λ k, (ks, RKey k)) <$> ks !! Z.to_nat i else None
  end.

Definition op_keys (o : op) : list K :=
  match o with OpInsert oid => [oid] | OpGetOrInsert oids => oids | _ => [] end.

Fixpoint exec_all (os : list op) x : t C * res (list ret) :=
  match os with
  | [] => (x, Ok [])
  | o :: os =>
      match exec o x with
      | (x, Throw e) => (x, Throw e)
      | (x, Ok r) => let '(x, rs) := exec_all os x in (x, cons r <$> rs)
      end
  end.

Fixpoint spec_all (os : list op) ks : option (list K * list ret) :=
  match os with
  | [] => Some (ks, [])
  | o :: os => '(ks, r) ← spec_op o ks; '(ks, rs) ← spec_all os ks; Some (ks, r :: rs)
  end.

Lemma indexer_step o x ks r :
  lf_inv x → NoDup (contents x) → spec_op o (contents x) = Some (ks, r) →
  Forall (kc_keeps (keys_ x)) (op_keys o) → kc_budget (keys_ x) (zsum key_size (op_keys o)) →
  ∃ x', exec o x = (x', Ok r) ∧ lf_inv x' ∧ contents x' = ks ∧ NoDup ks ∧
        accepts x x' (zsum key_size (op_keys o)).
Proof.
  intros Hx Hnd Hs Hk Hb. pose proof (li_num _ Hx). destruct o as [oid|oid|n|oids|i]; cbn [spec_op op_keys exec] in *.
  - case_bool; simplify_eq. bool_to_prop. rewrite contents_length in * by lia.
    rewrite Forall_singleton in Hk. rewrite zsum_cons in *. change (zsum key_size []) with 0 in *. rewrite Z.add_0_r in *.
    destruct (insert_safe_spec x oid) as (x' & -> & ? & ? & ?); [done..|]. exists x'. split_and!; try done.
    by apply NoDup_snoc_absent.
  - simplify_eq. exists x. rewrite get_index_of by done. split_and!; done.
  - case_bool; simplify_eq. bool_to_prop. destruct (lf_reserve_spec x n) as (x' & -> & ? & ? & ? & ? & ? & ?); [done..|].
    by exists x'.
  - destruct (Z.leb_spec (len (contents x) + len oids) (2^30)); [|done]. rewrite contents_length in * by lia.
    destruct (get_or_insert_spec oids x) as (x' & -> & ? & Hc & ? & ?); try done.
    destruct (spec_get_or_insert (contents x) oids) as [ks' l]. simplify_eq/=. by exists x'.
  - case_bool; [|done]. bool_to_prop. destruct (contents x !! Z.to_nat i) as [k|] eqn:E; [|done]. simplify_eq/=.
    pose proof (lookup_lt_Some _ _ _ E). pose proof (contents_length x).
    rewrite contents_lookup in E by lia. injection E as <-. exists x. split_and!; done.
Qed.

Lemma exec_all_refines os x ks rs :
  lf_inv x → NoDup (contents x) → spec_all os (contents x) = Some (ks, rs) →
  Forall (kc_keeps (keys_ x)) (os ≫= op_keys) → kc_budget (keys_ x) (zsum key_size (os ≫= op_keys)) →
  ∃ x', exec_all os x = (x', Ok rs) ∧ lf_inv x' ∧ contents x' = ks ∧ NoDup ks.
Proof.
  revert x rs. induction os as [|o os IH]; intros x rs Hx Hnd Hs Hk Hb; cbn [spec_all exec_all] in *.
  { simplify_eq. by exists x. }
  apply bind_Some in Hs as ([ks1 r] & Hs1 & Hs). apply bind_Some in Hs as ([ks2 rs2] & Hs2 & Hs). simplify_eq.
  change ((o :: os) ≫= op_keys) with (op_keys o ++ (os ≫= op_keys)) in *.
  apply Forall_app in Hk as [Hk1 Hk2]. rewrite zsum_app in Hb.
  assert (Hz : 0 ≤ zsum key_size (os ≫= op_keys)) by (apply zsum_nonneg; intros; apply key_size_nonneg).
  destruct (indexer_step o x ks1 r) as (x1 & -> & Hx1 & Hc1 & Hnd1 & [Ha1 Ha2]); try done.
  { eapply kc_budget_mono; [done|lia]. }
  destruct (IH x1 rs2) as (x' & -> & ? & ? & ?); [done|by rewrite Hc1|by rewrite Hc1| |by apply Ha2|by exists x'].
  eapply Forall_impl; [done|]. apply Ha1.
Qed.

Lemma OpenEmpty_inv (c : C) : kc_wf c → kc_size c = 0 → lf_inv (OpenEmpty c).
Proof.
  intros Hc Hz. split; [done|unfold capacity; cbn; lia|unfold capacity; cbn; rewrite Hz; unfold MAX_CAPACITY; lia|].
  left. unfold capacity. cbn. by rewrite Hz.
Qed.

(** C21: The primary-key indexer is the list of its keys, for keys its column
    stores unchanged.  Take an empty key column that obeys the column laws, and a
    sequence of insertions of absent keys, searches,
    reservations, batches that look up or insert each row, and reads of a key
    by an index that was given out, where every key inserted is one the column stores
    as it is (a string within the column's width: a longer one is filed and lost, see
    [long_key_lost]), the bytes of the keys fit the column, and the table stays within 2^30
    keys.  The sequence ends, without an endless probe, and returns what the list
    says, through every growth and rehash of the table: an inserted key gets
    the next index, a search (for any key) finds exactly the keys that are there,
    duplicates inside a batch are inserted once. *)
Theorem indexer_refines (c : C) os ks rs :
  kc_wf c → kc_size c = 0 → Forall (kc_keeps c) (os ≫= op_keys) →
  kc_budget c (zsum key_size (os ≫= op_keys)) → spec_all os [] = Some (ks, rs) →
  ∃ x, exec_all os (OpenEmpty c) = (x, Ok rs) ∧ size x = len ks ∧ NoDup ks ∧
       ∀ i oid, get_index_typed oid x = Ok (Some i) ↔ 0 ≤ i ∧ ks !! Z.to_nat i = Some oid.
Proof.
  intros Hc Hz Hk Hb Hs. pose proof (OpenEmpty_inv c Hc Hz) as Hx.
  destruct (exec_all_refines os (OpenEmpty c) ks rs Hx) as (x & E & Hx' & <- & Hnd); try done; [apply NoDup_nil_2|].
  pose proof (li_num _ Hx'). exists x. split_and!; [done|by rewrite contents_length by lia|done|].
  intros i oid. rewrite get_index_of, <- index_of_Some by done. split; [by intros [=]|by intros ->].
Qed.

End indexer.
