(* ===== verification/KeyColumns.v ===== *)
(** * Key columns

    The fixed-width TypedColumn (include/neug/utils/property/column.h), and
    fixed-width and string columns as columns of keys of the indexer.
    [std::hash] is an argument; [GHash<int64_t>] is the indexer's own. *)

From S2P Require Import Prelude Values StringColumn StringColumnProperties.
From S2P Require Import LFIndexer LFIndexerTable LFIndexerProperties.

(** ** TypedColumn<T> for fixed-width T *)

Module TypedColumn.

Record column (T : Type) := MkColumn { buffer_ : list T; size_ : Z }.
Arguments MkColumn {T}. Arguments buffer_ {T}. Arguments size_ {T}.

Section operations.
Context {T : Type} (zero : T) (type_id : DataTypeId) (GetValue : Value → option T) (CreateValue : T → Value).
Implicit Types (c : column T).

Definition OpenEmpty : column T := MkColumn [] 0.

Definition resize (n : Z) c : column T := MkColumn (Resize zero n (buffer_ c)) n.

Definition set_value (index : Z) (val : T) c : column T * res unit :=
  if index <? size_ c then (MkColumn (<[Z.to_nat index := val]> (buffer_ c)) (size_ c), Ok tt)
  else (c, Throw RuntimeFailure).

Definition resize_default (n : Z) (default_value : Value) c : column T * res unit :=
  if bool_decide (id_ (type_ default_value) ≠ type_id) then (c, Throw RuntimeFailure)
  else
    let old_size := size_ c in
    let c := MkColumn (Resize zero n (buffer_ c)) n in
    match GetValue default_value with
    | None => (c, Throw OutOfBounds)
    | Some v =>
        foldl (λ p i, match p with (c, Ok _) => set_value i v c | p => p end) (c, Ok tt)
          (seqZ old_size (n - old_size))
    end.

Definition set_any (index : Z) (value : Value) (insert_safe : bool) c : column T * res unit :=
  if IsNull value then set_value index zero c
  else match GetValue value with
    | None => (c, Throw OutOfBounds)
    | Some v => set_value index v c
    end.

Definition get_view c (index : Z) : T := default zero (buffer_ c !! Z.to_nat index).
Definition get_any c (index : Z) : Value := CreateValue (get_view c index).

End operations.
End TypedColumn.

(** ** Hashes *)

Definition GHash_int64 (val : Z) : Z :=
  let x := u64 val in
  let x := u64 (Z.lxor x (Z.shiftr x 30) * 0xbf58476d1ce4e5b9) in
  let x := u64 (Z.lxor x (Z.shiftr x 27) * 0x94d049bb133111eb) in
  Z.lxor x (Z.shiftr x 31).

(** ** The two kinds of key columns *)

Section columns.
Context (hash_int : Z → Z) (hash_string : list Z → Z).

Definition fixed_keys : KeyColumn Z (TypedColumn.column Z) := {|
  GHash := hash_int;
  key_size := λ _, 0;
  kc_size := TypedColumn.size_;
  kc_resize := TypedColumn.resize 0;
  kc_set_value := TypedColumn.set_value;
  kc_get_view := TypedColumn.get_view 0;
  kc_reserve_string_data := λ _ _ c, c
|}.

Definition string_keys : KeyColumn (list Z) StringColumn.column := {|
  GHash := hash_string;
  key_size := λ k, len k;
  kc_size := StringColumn.size;
  kc_resize := StringColumn.resize;
  kc_set_value := StringColumn.set_value;
  kc_get_view := StringColumn.get_view;
  kc_reserve_string_data := StringColumn.resize_bytes
|}.

Definition fixed_wf (c : TypedColumn.column Z) : Prop := TypedColumn.size_ c = len (TypedColumn.buffer_ c).

Lemma fixed_resize_view n c i :
  fixed_wf c → 0 ≤ n → 0 ≤ i < Z.min n (TypedColumn.size_ c) →
  TypedColumn.get_view 0 (TypedColumn.resize 0 n c) i = TypedColumn.get_view 0 c i.
Proof.
  intros Hw Hn Hi. unfold TypedColumn.get_view, TypedColumn.resize. cbn. unfold fixed_wf in Hw.
  rewrite Resize_spec, lookup_resize by lia. done.
Qed.

Lemma fixed_set i k c :
  fixed_wf c → 0 ≤ i < TypedColumn.size_ c →
  ∃ c', TypedColumn.set_value i k c = (c', Ok tt) ∧ fixed_wf c' ∧ TypedColumn.size_ c' = TypedColumn.size_ c ∧
    TypedColumn.get_view 0 c' i = k ∧
    ∀ j, 0 ≤ j < TypedColumn.size_ c → j ≠ i → TypedColumn.get_view 0 c' j = TypedColumn.get_view 0 c j.
Proof.
  intros Hw Hi. unfold TypedColumn.set_value, fixed_wf in *. rewrite (proj2 (Z.ltb_lt _ _)) by lia.
  eexists; split; [done|]. cbn. rewrite length_insert. split_and!; [done|done|..].
  - unfold TypedColumn.get_view. cbn. by rewrite list_lookup_insert_eq by lia.
  - intros j Hj Hne. unfold TypedColumn.get_view. cbn. by rewrite list_lookup_insert_ne by lia.
Qed.

Section laws.
Import StringColumn.
Implicit Types (c : column).

Lemma string_view_same n m c c' : rows c' = list_resize n m (rows c) → swf c → swf c' →
  ∀ i, 0 ≤ i < Z.min (Z.of_nat n) (size_ c) → get_view c' i = get_view c i.
Proof.
  intros E Hw Hw' i Hi. rewrite !get_view_rows, E. pose proof (swf_size _ Hw). pose proof (rows_length c).
  by rewrite lookup_resize by lia.
Qed.

Lemma resize_bytes_room n b c :
  swf c → 0 ≤ b → pos_ (resize_bytes n b c) = pos_ c ∧ pos_ c + b ≤ len (data_buffer_ (resize_bytes n b c)).
Proof.
  intros Hw Hb. unfold resize_bytes. pose proof (swf_pos _ Hw).
  set (c1 := if len (items_buffer_ c) <? n then _ else _).
  assert (pos_ c1 = pos_ c ∧ data_buffer_ c1 = data_buffer_ c) as [Hp Hd] by (unfold c1; by case_bool).
  rewrite Hd. case_bool; bool_to_prop; cbn; rewrite ?Hd, ?Resize_length by lia; lia.
Qed.
End laws.

#[local] Existing Instances fixed_keys string_keys.

Definition fixed_laws : KeyColumnLaws Z (TypedColumn.column Z).
Proof.
  refine {| kc_wf := fixed_wf; kc_keeps := λ _ _, True; kc_room := λ _ _, True; kc_budget := λ _ _, True |}; try done.
  - intros c Hw. cbn. unfold fixed_wf in Hw. lia.
  - intros c n Hw Hn. cbn. split_and!; try done.
    + unfold fixed_wf, TypedColumn.resize. cbn. by rewrite Resize_length.
    + intros i Hi. by apply fixed_resize_view.
  - intros c i k b Hw Hi _ _ _. destruct (fixed_set i k c Hw Hi) as (c' & ? & ? & ? & ? & ?). exists c'. by split_and!.
Defined.

#[local] Arguments StringColumn.resize : simpl never.
#[local] Arguments StringColumn.resize_bytes : simpl never.
#[local] Arguments StringColumn.set_value : simpl never.
#[local] Arguments StringColumn.get_view : simpl never.

(** Strings that are longer than the column is wide are not kept. *)
Definition string_laws : KeyColumnLaws (list Z) StringColumn.column.
Proof.
  refine {| kc_wf := swf; kc_keeps := λ c k, len k ≤ StringColumn.width_ c;
    kc_room := λ c b, StringColumn.pos_ c + b ≤ len (StringColumn.data_buffer_ c) ∧ StringColumn.pos_ c + b < 2^48;
    kc_budget := λ c b, StringColumn.pos_ c + b < 2^48 |}.
  - intros k. cbn. lia.
  - intros c a b. lia.
  - intros c a b. lia.
  - intros c Hw. cbn. unfold StringColumn.size. rewrite (swf_size _ Hw). lia.
  - intros c n Hw Hn. destruct (resize_step c n Hw Hn) as (c' & [= <-] & Hw' & Hr & Hwd & Hp). cbn.
    rewrite Hwd. split_and!; [done|done| |done|lia].
    intros i Hi. eapply string_view_same; [done..|]. cbn in Hi. unfold StringColumn.size in Hi. lia.
  - intros c b Hw Hb Hbud. cbn in *.
    assert (Hs : 0 ≤ StringColumn.size c) by (unfold StringColumn.size; rewrite (swf_size _ Hw); lia).
    destruct (resize_bytes_step c (StringColumn.size c) b Hw Hs Hb) as (c' & [= <-] & Hw' & Hr & Hwd & Hp).
    destruct (resize_bytes_room (StringColumn.size c) b c Hw Hb) as [Hp' Hroom]. rewrite Hwd, Hp'.
    assert (Hsz : StringColumn.size (StringColumn.resize_bytes (StringColumn.size c) b c) = StringColumn.size c).
    { transitivity (len (rows (StringColumn.resize_bytes (StringColumn.size c) b c))).
      { rewrite rows_length. apply (swf_size _ Hw'). }
      rewrite Hr, length_resize, rows_length. unfold StringColumn.size. rewrite (swf_size _ Hw). lia. }
    split_and!; try done. intros i Hi. eapply string_view_same; [done..|]. cbn in Hi. unfold StringColumn.size in *. lia.
  - intros c i k b Hw Hi Hk Hb [Hroom Hbig]. cbn in *. unfold StringColumn.size in Hi.
    destruct (set_value_spec c i k k) as (c' & E & Hw' & Hr & Hsz & Hwd & Hp); [done|done|by apply truncate_short|lia|lia|].
    assert (Hd : length (StringColumn.data_buffer_ c') = length (StringColumn.data_buffer_ c)).
    { unfold StringColumn.set_value in E. rewrite cut_truncate, truncate_short in E by done.
      pose proof (swf_pos _ Hw). rewrite (proj2 (Z.leb_gt _ _)), (proj2 (Z.leb_le _ _)) in E by lia.
      injection E as <-. cbn. apply memcpy_length; lia. }
    exists c'. pose proof (swf_size _ Hw). pose proof (rows_length c).
    split_and!; [done|done|done| | |by rewrite Hwd|lia|lia|lia].
    + by rewrite get_view_rows, Hr, list_lookup_insert_eq by lia.
    + intros j Hj Hne. unfold StringColumn.size in Hj. by rewrite !get_view_rows, Hr, list_lookup_insert_ne by lia.
Defined.

(** ** Keys longer than the column is wide *)

Section long_keys.
Import LFIndexer.
#[local] Existing Instances string_laws.
Context (k t : list Z).
Implicit Types (x : LFIndexer.t StringColumn.column).

(** [n] times the key [k], stored as [t] at the slots [k] is sent to. *)
Record only_long x (n : Z) : Prop := {
  ol_keys : swf (keys_ x);
  ol_num : num_elements_ x = n ∧ 0 ≤ n ≤ capacity x ∧ capacity x ≤ MAX_CAPACITY;
  ol_cut : truncate_utf8 k (StringColumn.width_ (keys_ x)) = Ok t;
  ol_len : len (indices_ x) = slots x;
  ol_load : 0 < slots x ∧ 2 * capacity x ≤ slots x;
  ol_policy : ∀ h, 0 ≤ HashPolicy.index_for_hash (hash_policy_ x) h < slots x;
  ol_table : table (indices_ x) (λ _, home (hash_policy_ x) k) n;
  ol_views : ∀ i, 0 ≤ i < n → StringColumn.get_view (keys_ x) i = t
}.

Lemma append_long x n :
  only_long x n → n < capacity x → kc_room (keys_ x) (len k) →
  ∃ x', append_key k true x = (x', Ok n) ∧ only_long x' (n + 1) ∧ capacity x' = capacity x ∧
        StringColumn.pos_ (keys_ x') ≤ StringColumn.pos_ (keys_ x) + len k.
Proof.
  intros [Hk (Hn & Hr & Hc) Hcut Hlen Hload Hpol Htab Hv] Hlt [Hroom Hbig]. unfold append_key, MAX_CAPACITY in *.
  rewrite Hn, u32_id by (unfold is_u32; lia). cbn [negb andb].
  assert (Ht : len t ≤ len k).
  { destruct (truncate_len _ _ _ (proj1 (swf_width _ Hk)) Hcut) as [_ Hp]. by apply prefix_length in Hp; lia. }
  assert (Hcs : capacity x = StringColumn.size_ (keys_ x)) by done.
  destruct (set_value_spec (keys_ x) n k t) as (c & E & Hw' & Hrows & Hsz & Hwd & Hp); [done|lia|done|lia|lia|].
  change (kc_set_value n k (keys_ (set_num (n + 1) x))) with (StringColumn.set_value n k (keys_ x)). rewrite E.
  destruct (table_insert _ _ _ Htab) as (l & El & Ell & Htab'); [lia|unfold sentinel, U32_MAX; lia|rewrite Hlen; apply Hpol|].
  rewrite Hlen, <- (Nat2Z.id (length _)), Hlen in El. unfold insert_index. cbn [set_keys set_num hash_policy_ indices_].
  change (slots (set_keys c (set_num (n + 1) x))) with (slots x). unfold home in El. rewrite El.
  assert (Hcap : capacity (set_indices l (set_keys c (set_num (n + 1) x))) = capacity x) by done.
  eexists. split_and!; [done| |done|cbn; lia]. pose proof (swf_size _ Hk). pose proof (rows_length (keys_ x)).
  split; rewrite ?Hcap; try done.
  - split_and!; try done; unfold MAX_CAPACITY; lia.
  - cbn. by rewrite Hwd.
  - cbn [set_indices indices_]. by rewrite Ell, Hlen.
  - intros i Hi. cbn [set_indices set_keys keys_]. rewrite get_view_rows, Hrows.
    destruct (decide (i = n)) as [->|]; [by rewrite list_lookup_insert_eq by lia|].
    rewrite list_lookup_insert_ne by lia. rewrite <- get_view_rows. apply Hv. lia.
Qed.

Lemma insert_long x n :
  only_long x n → n < capacity x → StringColumn.pos_ (keys_ x) + len k < 2^48 →
  ∃ x', insert_absent_typed k true x = (x', Ok n) ∧ only_long x' (n + 1) ∧ capacity x' = capacity x ∧
        StringColumn.pos_ (keys_ x') ≤ StringColumn.pos_ (keys_ x) + len k.
Proof.
  intros Hx Hlt Hbig. destruct (Hx) as [Hk (Hn & Hr & Hc) Hcut Hlen Hload Hpol Htab Hv].
  unfold insert_absent_typed. rewrite (proj2 (Z.leb_gt _ _)) by lia.
  assert (Hcs : capacity x = StringColumn.size_ (keys_ x)) by done.
  destruct (@kc_reserve_ok _ _ string_keys string_laws (keys_ x) (len k) Hk) as (Hk' & Hsz & Hsame & Hkeep & Hbud & Hroom); [lia|done|].
  change (kc_size (keys_ x)) with (capacity x) in *. change (key_size k) with (len k).
  set (c := kc_reserve_string_data (capacity x) (len k) (keys_ x)) in *.
  assert (Hcap : capacity (set_keys c x) = capacity x) by done.
  assert (Hwd : StringColumn.width_ c = StringColumn.width_ (keys_ x) ∧ StringColumn.pos_ c = StringColumn.pos_ (keys_ x)).
  { destruct (resize_bytes_step (keys_ x) (capacity x) (len k)) as (c' & [= <-] & _ & _ & ? & _); [done|lia|lia|].
    split; [done|]. apply (resize_bytes_room (capacity x) (len k) (keys_ x)); [done|lia]. }
  destruct Hwd as [Hwd Hpos].
  destruct (append_long (set_keys c x) n) as (x' & E' & Hx' & Hc' & Hp'); [|by rewrite Hcap|done|].
  - split; rewrite ?Hcap; try done; [cbn [set_keys keys_]; by rewrite Hwd|]. intros i Hi. cbn [set_keys keys_]. rewrite <- (Hv i Hi). apply Hsame. lia.
  - exists x'. cbn [set_keys keys_] in Hp'. split_and!; [done|done|congruence|lia].
Qed.

Lemma open_long w x :
  0 ≤ w < 2^16 → truncate_utf8 k w = Ok t →
  ∃ x, rehash 0 (LFIndexer.OpenEmpty (StringColumn.OpenEmpty w)) = (x, Ok tt) ∧ only_long x 0 ∧
       capacity x = 4 ∧ StringColumn.pos_ (keys_ x) = 0.
Proof.
  intros Hw Hcut. set (x0 := LFIndexer.OpenEmpty _).
  destruct (rehash_spec x0 0) as (x1 & E & Hx1 & Hc1 & Hn1 & Hcap & _).
  { by apply OpenEmpty_inv; [apply OpenEmpty_wf|]. } { done. }
  destruct (Hx1) as [Hk1 _ _ Ht]. destruct Ht as [[_ Hz]|[[Hl Hs Hp Ht] Hload]]; [lia|].
  assert (Hkeys : keys_ x1 = StringColumn.resize 4 (StringColumn.OpenEmpty w)).
  { unfold rehash, rehash_typed in E. cbn in E. by injection E as <-. }
  exists x1. split_and!; [done| |done|by rewrite Hkeys].
  split; try done; [|by rewrite Hkeys| |lia].
  - rewrite Hcap. split_and!; done.
  - eapply table_ext; [|by rewrite Hn1 in Ht]. lia.
Qed.
End long_keys.

(** A primary key longer than its column is wide is stored
    cut but filed under the hash of the whole: inserting it succeeds, a search
    for it does not find it, and inserting it again succeeds too, under a
    second index with the same stored key. *)
Theorem long_key_lost w k t :
  0 ≤ w < 2^16 → w < len k < 2^40 → truncate_utf8 k w = Ok t →
  let x0 := LFIndexer.OpenEmpty (StringColumn.OpenEmpty w) in
  ∃ x1 x2, LFIndexer.insert_absent_typed k true x0 = (x1, Ok 0) ∧
    LFIndexer.get_index_typed k x1 = Ok None ∧
    LFIndexer.insert_absent_typed k true x1 = (x2, Ok 1) ∧
    LFIndexer.get_key 0 x2 = t ∧ LFIndexer.get_key 1 x2 = t.
Proof.
  intros Hw Hk Hcut. cbn zeta. destruct (open_long k t w (LFIndexer.OpenEmpty (StringColumn.OpenEmpty w)))
    as (x & E & Hx & Hcap & Hpos); [done|done|].
  destruct (insert_long k t x 0 Hx) as (x1 & E1 & Hx1 & Hc1 & Hp1); [lia|lia|].
  destruct (insert_long k t x1 1 Hx1) as (x2 & E2 & Hx2 & Hc2 & _); [lia|lia|].
  exists x1, x2. split_and!; [|..|done|apply Hx2; lia|apply Hx2; lia].
  - rewrite <- E1. unfold LFIndexer.insert_absent_typed. cbn [Z.leb Z.compare].
    rewrite (proj2 (Z.leb_le (LFIndexer.capacity _) _)) by done.
    rewrite (proj2 (Z.leb_gt (LFIndexer.capacity x) _)) by (destruct (ol_num _ _ _ _ Hx); lia).
    change (LFIndexer.reserve _ _) with (LFIndexer.rehash 0 (LFIndexer.OpenEmpty (StringColumn.OpenEmpty w))).
    by rewrite E.
  - destruct Hx1 as [Hkk (Hn & Hr & Hc) Hcut1 Hlen Hload Hpol Htab Hv]. unfold LFIndexer.get_index_typed.
    rewrite (proj2 (Z.eqb_neq _ _)) by lia. rewrite <- Hlen, Nat2Z.id.
    eapply lookup_miss; [done|lia|rewrite Hlen; apply Hpol|]. intros i Hi. cbn. rewrite Hv by done. intros ->.
    destruct (truncate_len _ _ _ (proj1 Hw) Hcut). lia.
Qed.
End columns.

(** The bytes of a string, added up: a hash for examples. *)
Definition sum_bytes (k : list Z) : Z := zsum id k.

Lemma long_key_lost_witness :
  let kc := string_keys sum_bytes in
  ∃ x1 x2 : LFIndexer.t StringColumn.column,
    LFIndexer.insert_absent_typed [97; 98; 99] true (LFIndexer.OpenEmpty (StringColumn.OpenEmpty 2)) = (x1, Ok 0) ∧
    LFIndexer.get_index_typed [97; 98; 99] x1 = Ok None ∧
    LFIndexer.insert_absent_typed [97; 98; 99] true x1 = (x2, Ok 1) ∧
    LFIndexer.get_key 0 x2 = [97; 98] ∧ LFIndexer.get_key 1 x2 = [97; 98].
Proof. apply (long_key_lost sum_bytes 2 [97; 98; 99] [97; 98]); [lia|cbn; lia|by vm_compute]. Defined.

(** An insertion that fails for lack of bytes leaves its
    index behind with an empty key, and a later growth can put that index in
    front of a real one: in a table with the keys "a" and "bbbb", a third
    key does not fit and its insertion throws; the empty string is then inserted
    under index 3 and found there; after the table grows it is found under
    index 2, which was never given out. *)
Theorem failed_insert_shadows :
  let kc := string_keys sum_bytes in
  let '(x, r0) := LFIndexer.reserve 4 (LFIndexer.OpenEmpty (StringColumn.OpenEmpty 4)) in
  let '(x, r1) := LFIndexer.insert_absent_typed [97] false x in
  let '(x, r2) := LFIndexer.reserve 8 x in
  let '(x, r3) := LFIndexer.insert_absent_typed [98; 98; 98; 98] false x in
  let '(x, r4) := LFIndexer.insert_absent_typed [99; 99; 99; 99] false x in
  let '(x, r5) := LFIndexer.insert_absent_typed [] false x in
  let '(y, r6) := LFIndexer.reserve 16 x in
  (r0, r1, r2, r3, r4, r5, r6) = (Ok tt, Ok 0, Ok tt, Ok 1, Throw StorageError, Ok 3, Ok tt) ∧
  LFIndexer.get_index_typed [] x = Ok (Some 3) ∧ LFIndexer.get_index_typed [] y = Ok (Some 2).
Proof. vm_compute. repeat split. Qed.

(** A run over 64-bit keys with a batch that has a duplicate, a known and a
    new key, and a growth of the table in between. *)
Lemma indexer_refines_witness :
  let kc := fixed_keys GHash_int64 in
  ∃ x, exec_all [OpInsert 7; OpInsert 5; OpLookup 5; OpReserve 9; OpGetOrInsert [9; 7; 9]; OpLookup 1; OpGetKey 2]
         (LFIndexer.OpenEmpty TypedColumn.OpenEmpty) =
       (x, Ok [RIndex 0; RIndex 1; RFound (Some 1); RDone; RBatch [(2, true); (0, false); (2, false)];
               RFound None; RKey 9]).
Proof.
  destruct (@indexer_refines _ _ (fixed_keys GHash_int64) (fixed_laws GHash_int64) TypedColumn.OpenEmpty
    [OpInsert 7; OpInsert 5; OpLookup 5; OpReserve 9; OpGetOrInsert [9; 7; 9]; OpLookup 1; OpGetKey 2]
    [7; 5; 9] [RIndex 0; RIndex 1; RFound (Some 1); RDone; RBatch [(2, true); (0, false); (2, false)];
               RFound None; RKey 9]) as (x & E & _); [done|done| |done|by vm_compute|by exists x].
  by apply Forall_forall.
Defined.
