(* ===== verification/Tables.v ===== *)
(** * Property tables

    Table (src/utils/property/table.cc): columns by position, and a map from
    column names to positions that every change of the header maintains.  The
    columns are used through their virtual functions, an interface here. *)

From stdpp Require Import gmap.
From S2P Require Import Prelude Values StringColumn.

(** ** ColumnBase *)

Class ColumnBase (C : Type) := {
  CreateColumn : DataType → res C;
  col_type : C → DataTypeId;
  col_size : C → Z;
  col_resize : Z → C → C;
  col_resize_default : Z → Value → C → C * res unit;
  col_set_any : Z → Value → bool → C → C * res unit;
  col_get_any : C → Z → Value
}.

Definition name := list Z.

Module Table.

Record table (C : Type) := MkTable {
  col_id_map_ : gmap name Z;
  col_names_ : list name;
  columns_ : list C
}.
Arguments MkTable {C}. Arguments col_id_map_ {C}. Arguments col_names_ {C}. Arguments columns_ {C}.

Section operations.
Context {C : Type} `{!ColumnBase C}.
Implicit Types (t : table C).

(** [unordered_map::insert] keeps an entry that is already there. *)
Definition emplace_name (n : name) (id : Z) (m : gmap name Z) : gmap name Z :=
  if decide (is_Some (m !! n)) then m else <[n := id]> m.

Definition add_header (t : table C) (n : name) : table C :=
  MkTable (emplace_name n (len (col_names_ t)) (col_id_map_ t)) (col_names_ t ++ [n]) (columns_ t).

Fixpoint resize_each (n : Z) (cols : list C) (defaults : list Value) : list C * res unit :=
  match cols, defaults with
  | c :: cols, v :: defaults =>
      match col_resize_default n v c with
      | (c, Ok _) => let '(cols, r) := resize_each n cols defaults in (c :: cols, r)
      | (c, Throw e) => (c :: cols, Throw e)
      end
  | cols, _ => (cols, Ok tt)
  end.

(** Names and new columns, one by one. *)
Fixpoint add_loop (names : list name) (types : list DataType) t : table C * res (list C) :=
  match names with
  | [] => (t, Ok [])
  | n :: names =>
      let t := add_header t n in
      match types with
      | [] => (t, Throw OutOfBounds)
      | ty :: types =>
          match CreateColumn ty with
          | Throw e => (t, Throw e)
          | Ok c => let '(t, r) := add_loop names types t in (t, cons c <$> r)
          end
      end
  end.

(** The constructor; the columns are cut to the number of names in the map. *)
Definition New (col_names : list name) (property_types : list DataType) : res (table C) :=
  let '(t, r) := add_loop col_names property_types (MkTable ∅ [] []) in
  cols ← r;
  Ok (MkTable (col_id_map_ t) (col_names_ t) (take (size (col_id_map_ t)) cols)).

(** A new column goes to the position its name has, which has to be behind the
    old columns.  A table is not used after an exception, which leaves columns
    half made. *)
Definition add_columns (col_names : list name) (col_types : list DataType) (defaults : list Value)
    (capacity : Z) t : table C * res unit :=
  if negb (length defaults =? length col_names)%nat then (t, Throw RuntimeFailure)
  else if negb (length (columns_ t) =? length (col_names_ t))%nat && negb (length col_names =? 0)%nat
  then (t, Throw OutOfBounds)
  else
    match add_loop col_names col_types t with
    | (t, Throw e) => (t, Throw e)
    | (t, Ok fresh) =>
        let '(fresh, r) := resize_each capacity fresh defaults in
        (MkTable (col_id_map_ t) (col_names_ t) (columns_ t ++ fresh), r)
    end.

Definition rename_column (old_name new_name : name) t : table C :=
  match col_id_map_ t !! old_name with
  | None => t
  | Some col_id =>
      MkTable (emplace_name new_name col_id (delete old_name (col_id_map_ t)))
        (<[Z.to_nat col_id := new_name]> (col_names_ t)) (columns_ t)
  end.

Definition delete_column (col_name : name) t : table C :=
  match col_id_map_ t !! col_name with
  | None => t
  | Some col_id =>
      MkTable ((λ id, if col_id <? id then id - 1 else id) <$> delete col_name (col_id_map_ t))
        (delete (Z.to_nat col_id) (col_names_ t)) (delete (Z.to_nat col_id) (columns_ t))
  end.

(** The new names, one by one; the [CHECK] finds a name given twice. *)
Definition reset_header (col_name : list name) t : table C * res unit :=
  if (length (col_names_ t) <? length col_name)%nat then (t, Throw OutOfBounds)
  else
    let names := col_name ++ drop (length col_name) (col_names_ t) in
    let new_col_id_map := col_id_map_ (foldl add_header (MkTable ∅ [] [] : table C) col_name) in
    if negb (length col_name =? size new_col_id_map)%nat
    then (MkTable (col_id_map_ t) names (columns_ t), Throw CheckFailed)
    else (MkTable new_col_id_map names (columns_ t), Ok tt).

Definition get_column_id_by_name (n : name) t : Z := default (-1) (col_id_map_ t !! n).

(** The index is unsigned. *)
Definition get_column_by_id (index : Z) t : option C :=
  if len (columns_ t) <=? u64 index then None else columns_ t !! Z.to_nat (u64 index).

Definition get_column (n : name) t : option C :=
  col_id ← col_id_map_ t !! n;
  if col_id <? len (columns_ t) then columns_ t !! Z.to_nat col_id else None.

Definition col_num t : Z := len (columns_ t).
Definition size t : Z := match columns_ t with [] => 0 | c :: _ => col_size c end.

(** As many types as names in the map. *)
Definition column_types t : list DataTypeId :=
  col_type <$> take (base.size (col_id_map_ t)) (columns_ t).

Definition get_row (row_id : Z) t : list Value := (λ c, col_get_any c row_id) <$> columns_ t.

Fixpoint set_each (index : Z) (cols : list C) (values : list Value) (insert_safe : bool) : list C * res unit :=
  match cols, values with
  | c :: cols, v :: values =>
      match col_set_any index v insert_safe c with
      | (c, Ok _) => let '(cols, r) := set_each index cols values insert_safe in (c :: cols, r)
      | (c, Throw e) => (c :: cols, Throw e)
      end
  | cols, _ => (cols, Ok tt)
  end.

Definition set_columns (cols : list C) t : table C := MkTable (col_id_map_ t) (col_names_ t) cols.

Definition insert (index : Z) (values : list Value) (insert_safe : bool) t : table C * res unit :=
  if negb (length values =? length (columns_ t))%nat then (t, Throw CheckFailed)
  else let '(cols, r) := set_each index (columns_ t) values insert_safe in (set_columns cols t, r).

Definition resize (row_num : Z) t : table C := set_columns (col_resize row_num <$> columns_ t) t.

Definition resize_default (row_num : Z) (defaults : list Value) t : table C * res unit :=
  if negb (length defaults =? length (columns_ t))%nat then (t, Throw RuntimeFailure)
  else let '(cols, r) := resize_each row_num (columns_ t) defaults in (set_columns cols t, r).

Definition close t : table C := set_columns [] t.

Definition SetColumn (idx : Z) (col : C) t : table C * res unit :=
  if (idx <? 0) || (len (columns_ t) <=? idx) then (t, Throw InvalidArgument)
  else (set_columns (<[Z.to_nat idx := col]> (columns_ t)) t, Ok tt).

End operations.
End Table.

(** ** The header *)

Section header.
Import Table.
Context {C : Type} `{!ColumnBase C}.
Implicit Types (t : table C).

(** The map is the inverse of the list of names. *)
Definition hnames (m : gmap name Z) (ns : list name) : Prop :=
  NoDup ns ∧ ∀ n (i : Z), m !! n = Some i ↔ 0 ≤ i ∧ ns !! Z.to_nat i = Some n.

Definition hdr t : Prop :=
  hnames (col_id_map_ t) (col_names_ t) ∧ length (columns_ t) = length (col_names_ t).

Lemma hnames_empty : hnames ∅ [].
Proof. split; [apply NoDup_nil_2|]. intros n i. rewrite lookup_empty, lookup_nil. naive_solver. Qed.

Lemma hnames_absent m ns n : hnames m ns → n ∉ ns → m !! n = None.
Proof.
  intros [_ Hm] Hn. destruct (m !! n) as [i|] eqn:E; [|done]. apply Hm in E as [_ E].
  by destruct Hn; eapply list_elem_of_lookup_2.
Qed.

Lemma emplace_name_fresh (n : name) (i : Z) (m : gmap name Z) : m !! n = None → emplace_name n i m = <[n := i]> m.
Proof. intros E. unfold emplace_name. rewrite decide_False; [done|]. rewrite E. by intros []. Qed.

Lemma hnames_add m ns n : hnames m ns → n ∉ ns → hnames (emplace_name n (len ns) m) (ns ++ [n]).
Proof.
  intros Hh Hn. rewrite emplace_name_fresh by (by eapply hnames_absent). destruct Hh as [Hnd Hm]. split.
  - apply NoDup_app. split_and!; [done| |apply NoDup_singleton]. intros k Hk. rewrite list_elem_of_singleton. by intros ->.
  - intros k i. destruct (decide (k = n)) as [->|Hne].
    + rewrite lookup_insert_eq. split; [intros [= <-]; split; [lia|]; by rewrite Nat2Z.id, lookup_app_r, Nat.sub_diag by lia|].
      intros [Hi E]. f_equal. apply lookup_app_Some in E as [E|[Hle E]].
      * by destruct Hn; eapply list_elem_of_lookup_2.
      * apply list_lookup_singleton_Some in E as [E _]. lia.
    + rewrite lookup_insert_ne, Hm by done. rewrite lookup_app_Some. split; [naive_solver|].
      intros [Hi [E|[_ E]]]; [done|]. apply list_lookup_singleton_Some in E as [_ <-]. done.
Qed.

Lemma add_headers_spec t ns :
  hnames (col_id_map_ t) (col_names_ t) → NoDup (col_names_ t ++ ns) →
  let t' := foldl add_header t ns in
  hnames (col_id_map_ t') (col_names_ t') ∧ col_names_ t' = col_names_ t ++ ns ∧ columns_ t' = columns_ t.
Proof.
  revert t. induction ns as [|n ns IH]; intros t Hh Hnd; cbn; [by rewrite app_nil_r|].
  rewrite cons_middle, (assoc_L (++)) in Hnd |- *. destruct (IH (add_header t n)) as (H1 & H2 & H3).
  - apply hnames_add; [done|]. apply NoDup_app in Hnd as (Hnd & _ & _). apply NoDup_app in Hnd as (_ & Hd & _).
    intros Hin. apply (Hd n Hin). by apply list_elem_of_singleton.
  - done.
  - done.
Qed.

Lemma hnames_rename m ns (old new : name) (i : Z) :
  hnames m ns → m !! old = Some i → new ∉ ns →
  hnames (emplace_name new i (delete old m)) (<[Z.to_nat i := new]> ns).
Proof.
  intros Hh E Hn. pose proof (hnames_absent _ _ _ Hh Hn) as Hnew. destruct Hh as [Hnd Hm].
  rewrite emplace_name_fresh by (by rewrite lookup_delete_None; right).
  pose proof E as [Hi Hl]%Hm. pose proof (lookup_lt_Some _ _ _ Hl) as Hlt. split.
  - apply NoDup_alt. intros a b k Ha Hb. rewrite !list_lookup_insert in Ha, Hb by done.
    do 2 case_decide; destruct_and?; simplify_eq; try congruence;
      [by destruct Hn; eapply list_elem_of_lookup_2..|by eapply NoDup_lookup].
  - intros k j. destruct (decide (k = new)) as [->|Hne].
    + rewrite lookup_insert_eq. split.
      * intros [= <-]. split; [done|]. by rewrite list_lookup_insert_eq by done.
      * intros [Hj Ej]. destruct (decide (Z.to_nat j = Z.to_nat i)); [f_equal; lia|].
        rewrite list_lookup_insert_ne in Ej by done. by destruct Hn; eapply list_elem_of_lookup_2.
    + rewrite lookup_insert_ne, lookup_delete_Some, Hm by done. split.
      * intros [Hko [Hj Ej]]. split; [done|]. rewrite list_lookup_insert_ne; [done|]. intros Eij.
        rewrite <- Eij in Ej. congruence.
      * intros [Hj Ej]. destruct (decide (Z.to_nat i = Z.to_nat j)) as [Eij|].
        -- rewrite <- Eij, list_lookup_insert_eq in Ej by done. congruence.
        -- rewrite list_lookup_insert_ne in Ej by done. split; [|done]. intros ->.
           pose proof (NoDup_lookup _ _ _ _ Hnd Hl Ej). lia.
Qed.

Lemma hnames_delete m ns n (i : Z) :
  hnames m ns → m !! n = Some i →
  hnames ((λ id, if i <? id then id - 1 else id) <$> delete n m) (delete (Z.to_nat i) ns).
Proof.
  intros [Hnd Hm] E. pose proof E as [Hi Hl]%Hm. pose proof (lookup_lt_Some _ _ _ Hl) as Hlt. split.
  - rewrite delete_take_drop. apply NoDup_app.
    rewrite <- (take_drop_middle ns (Z.to_nat i) n Hl) in Hnd. apply NoDup_app in Hnd as (H1 & H2 & H3).
    split_and!; [done|intros k Hk; specialize (H2 k Hk); set_solver|by eapply NoDup_cons_1_2].
  - intros k j. rewrite lookup_fmap, fmap_Some. setoid_rewrite lookup_delete_Some. setoid_rewrite Hm. split.
    + intros (j' & [Hne [Hj' Ej']] & ->). assert (j' ≠ i) by (intros ->; congruence).
      destruct (Z.ltb_spec i j').
      * split; [lia|]. rewrite list_lookup_delete_ge by lia. by replace (S (Z.to_nat (j' - 1))) with (Z.to_nat j') by lia.
      * split; [done|]. by rewrite list_lookup_delete_lt by lia.
    + intros [Hj Ej]. destruct (decide (Z.to_nat j < Z.to_nat i)%nat) as [Hlo|Hhi].
      * rewrite list_lookup_delete_lt in Ej by done. exists j. split_and!; [|done|done|].
        -- intros <-. pose proof (NoDup_lookup _ _ _ _ Hnd Hl Ej). lia.
        -- by rewrite (proj2 (Z.ltb_ge _ _)) by lia.
      * rewrite list_lookup_delete_ge in Ej by lia. exists (j + 1).
        replace (Z.to_nat (j + 1)) with (S (Z.to_nat j)) by lia. split_and!; [|lia|done|].
        -- intros <-. pose proof (NoDup_lookup _ _ _ _ Hnd Hl Ej). lia.
        -- rewrite (proj2 (Z.ltb_lt _ _)) by lia. lia.
Qed.

(** ** The table as an association list *)

Definition assoc t : list (name * C) := zip (col_names_ t) (columns_ t).
Definition assoc_get (n : name) (l : list (name * C)) : option C :=
  (λ p, p.2.2) <$> list_find (λ p, p.1 = n) l.

Lemma assoc_get_Some n l c :
  NoDup l.*1 → (assoc_get n l = Some c ↔ ∃ i : nat, l !! i = Some (n, c)).
Proof.
  intros Hnd. unfold assoc_get. split.
  - destruct (list_find _ l) as [[i [n' c']]|] eqn:E; [|done]. cbn. intros [= <-].
    apply list_find_Some in E as (E & Hn & _). cbn in Hn. subst n'. by exists i.
  - intros [i Hi]. destruct (list_find (λ p, p.1 = n) l) as [[j [n' c']]|] eqn:E.
    + apply list_find_Some in E as (E & Hn & _). cbn in *. subst n'.
      assert (i = j) as ->; [|congruence]. eapply (NoDup_lookup _ i j n Hnd); by rewrite list_lookup_fmap, ?Hi, ?E.
    + apply list_find_None in E. apply (Forall_lookup_1 _ _ _ _ E) in Hi. by destruct Hi.
Qed.

Lemma assoc_names t : hdr t → (assoc t).*1 = col_names_ t.
Proof. intros [_ Hl]. unfold assoc. apply fst_zip. lia. Qed.

Lemma get_column_assoc t n : hdr t → get_column n t = assoc_get n (assoc t).
Proof.
  intros Hh. pose proof (assoc_names t Hh) as Hns. destruct (Hh) as [[Hnd Hm] Hl].
  apply option_eq. intros c. rewrite assoc_get_Some by (by rewrite Hns). unfold get_column, assoc.
  rewrite bind_Some. setoid_rewrite lookup_zip_with_Some. split.
  - intros (i & Ei & E). apply Hm in Ei as [Hi Ei]. case_bool; [|done]. exists (Z.to_nat i), n, c. done.
  - intros (i & n' & c' & [= <- <-] & E1 & E2). exists (Z.of_nat i). split; [apply Hm; split; [lia|by rewrite Nat2Z.id]|].
    rewrite (proj2 (Z.ltb_lt _ _)); [by rewrite Nat2Z.id|]. apply lookup_lt_Some in E2. lia.
Qed.

(** Changes of the header, on tables and on association lists. *)
Inductive op :=
  | OpAdd (names : list name) (types : list DataType) (defaults : list Value) (capacity : Z)
  | OpRename (old_name new_name : name)
  | OpDelete (col_name : name).

Definition exec (o : op) t : table C * res unit :=
  match o with
  | OpAdd ns tys vs cap => add_columns ns tys vs cap t
  | OpRename o n => (rename_column o n t, Ok tt)
  | OpDelete n => (delete_column n t, Ok tt)
  end.

(** All columns of given types. *)
Definition create_all (types : list DataType) : res (list C) :=
  foldr (λ ty r, c ← CreateColumn ty; l ← r; Ok (c :: l)) (Ok []) types.

(** [None] where a name would be taken twice or a new column is not made. *)
Definition spec_op (o : op) (l : list (name * C)) : option (list (name * C)) :=
  match o with
  | OpAdd ns tys vs cap =>
      if bool_decide (NoDup (l.*1 ++ ns)) && (length vs =? length ns)%nat && (length tys =? length ns)%nat then
        match create_all tys with
        | Ok fresh => match resize_each cap fresh vs with
                      | (fresh, Ok _) => Some (l ++ zip ns fresh)
                      | _ => None
                      end
        | Throw _ => None
        end
      else None
  | OpRename o n =>
      if bool_decide (o ∈ l.*1) then
        if bool_decide (n ∈ l.*1) then None
        else Some ((λ p, if decide (p.1 = o) then (n, p.2) else p) <$> l)
      else Some l
  | OpDelete n => Some (filter (λ p, p.1 ≠ n) l)
  end.

Lemma create_all_length tys cs : create_all tys = Ok cs → length cs = length tys.
Proof.
  revert cs. induction tys as [|ty tys IH]; intros cs; cbn; [by intros [= <-]|].
  destruct (CreateColumn ty); [|done]. cbn. fold (create_all tys). destruct (create_all tys) as [l|]; [|done].
  cbn. intros [= <-]. cbn. by rewrite IH.
Qed.

Lemma add_loop_ok ns tys t cs :
  length tys = length ns → create_all tys = Ok cs → add_loop ns tys t = (foldl add_header t ns, Ok cs).
Proof.
  revert tys t cs. induction ns as [|n ns IH]; intros [|ty tys] t cs Hl E; try done; cbn in E; [by simplify_eq|].
  cbn. destruct (CreateColumn ty) as [c|]; [|done]. cbn in E. fold (create_all tys) in E.
  destruct (create_all tys) as [l|] eqn:El; [|done]. cbn in E. simplify_eq.
  by rewrite (IH tys _ l) by (cbn in Hl; lia || done).
Qed.

Lemma resize_each_length n cs vs : length (resize_each n cs vs).1 = length cs.
Proof.
  revert vs. induction cs as [|c cs IH]; intros [|v vs]; cbn; try done.
  destruct (col_resize_default n v c) as [c' [|]]; [|done].
  specialize (IH vs). destruct (resize_each n cs vs). cbn in *. by rewrite IH.
Qed.

Lemma names_lookup t n : hnames (col_id_map_ t) (col_names_ t) → (n ∈ col_names_ t ↔ is_Some (col_id_map_ t !! n)).
Proof.
  intros [Hnd Hm]. rewrite list_elem_of_lookup. split.
  - intros [i Hi]. exists (Z.of_nat i). apply Hm. split; [lia|]. by rewrite Nat2Z.id.
  - intros [i Hi]. apply Hm in Hi as [_ ?]. eauto.
Qed.

Lemma zip_delete {A B} (l : list A) (k : list B) i :
  length l = length k → zip (delete i l) (delete i k) = delete i (zip l k).
Proof.
  revert k i. induction l as [|x l IH]; intros [|y k] [|i] Hl; try done. cbn in *. f_equal. apply IH. lia.
Qed.

Lemma filter_delete (l : list (name * C)) i n c :
  NoDup l.*1 → l !! i = Some (n, c) → filter (λ p, p.1 ≠ n) l = delete i l.
Proof.
  intros Hnd Hi. rewrite delete_take_drop. rewrite <- (take_drop_middle l i (n, c) Hi) in Hnd |- * at 1.
  rewrite fmap_app, fmap_cons in Hnd. apply NoDup_app in Hnd as (_ & H1 & H2). apply NoDup_cons in H2 as [H2 _]. cbn in *.
  rewrite filter_app, filter_cons, decide_False by naive_solver.
  rewrite !filter_all_in; [done| |].
  - intros p Hp <-. apply H2. by apply list_elem_of_fmap_2.
  - intros p Hp <-. apply (H1 p.1); [by apply list_elem_of_fmap_2|by left].
Qed.

Lemma header_add_step t ns tys vs cap l' :
  hdr t → spec_op (OpAdd ns tys vs cap) (assoc t) = Some l' →
  ∃ t', add_columns ns tys vs cap t = (t', Ok tt) ∧ hdr t' ∧ assoc t' = l'.
Proof.
  intros Hh Hs. cbn [spec_op] in Hs. rewrite assoc_names in Hs by done. case_bool; [|done]. bool_to_prop.
  destruct (Hh) as [Hn Hl]. destruct (add_headers_spec t ns) as (Hh1 & Hh2 & Hh3); [done|done|].
  unfold add_columns. rewrite !(proj2 (Nat.eqb_eq _ _)) by done. cbn [negb andb].
  destruct (create_all tys) as [fresh|] eqn:Ec; [|done]. rewrite (add_loop_ok ns tys t fresh) by done.
  apply create_all_length in Ec.
  pose proof (resize_each_length cap fresh vs) as Er. destruct (resize_each cap fresh vs) as [fresh' r].
  destruct r as [[]|]; [|done]. cbn in Er. simplify_eq. eexists. split_and!; [done|split; [done|]|].
  - cbn. rewrite Hh2, Hh3, !length_app. lia.
  - unfold assoc. cbn. rewrite Hh2, Hh3. by apply zip_with_app.
Qed.

Lemma rename_step t o n l' :
  hdr t → spec_op (OpRename o n) (assoc t) = Some l' →
  hdr (rename_column o n t) ∧ assoc (rename_column o n t) = l'.
Proof.
  intros Hh Hs. cbn [spec_op] in Hs. rewrite assoc_names in Hs by done. destruct (Hh) as [Hn Hl].
  pose proof (names_lookup t o Hn) as Ho. unfold rename_column. case_bool; bool_to_prop.
  - apply Ho in Heqb as [i Ei]. rewrite Ei. case_bool; [done|]. bool_to_prop. simplify_eq. split.
    + split; [by apply hnames_rename|cbn; by rewrite length_insert].
    + destruct Hn as [Hnd Hm]. apply Hm in Ei as [Hi Ei]. pose proof (lookup_lt_Some _ _ _ Ei).
      unfold assoc. cbn. apply list_eq. intros j. rewrite list_lookup_fmap, !lookup_zip_with, list_lookup_insert.
      case_decide as Ed.
      * destruct Ed as [<- _]. rewrite Ei. cbn. destruct (columns_ t !! Z.to_nat i); cbn; [|done].
        by rewrite decide_True.
      * destruct (col_names_ t !! j) as [m|] eqn:Em; cbn; [|done]. destruct (columns_ t !! j); cbn; [|done].
        rewrite decide_False; [done|]. cbn. intros ->. destruct Ed. split; [|done]. by eapply NoDup_lookup.
  - destruct (col_id_map_ t !! o); [naive_solver|]. by simplify_eq.
Qed.

Lemma delete_step t n :
  hdr t → hdr (delete_column n t) ∧ assoc (delete_column n t) = filter (λ p, p.1 ≠ n) (assoc t).
Proof.
  intros Hh. pose proof (assoc_names t Hh) as Hns. destruct (Hh) as [Hn Hl]. unfold delete_column.
  destruct (col_id_map_ t !! n) as [i|] eqn:Ei.
  - split; [split; [by apply hnames_delete|]|].
    + destruct Hn as [_ Hm]. apply Hm in Ei as [_ Ei]. apply lookup_lt_Some in Ei. cbn.
      rewrite !length_delete by (apply lookup_lt_is_Some_2; lia). lia.
    + destruct (Hn) as [Hnd Hm]. apply Hm in Ei as [_ Ei]. pose proof (lookup_lt_Some _ _ _ Ei).
      destruct (lookup_lt_is_Some_2 (columns_ t) (Z.to_nat i)) as [c Ec]; [lia|].
      unfold assoc at 1. cbn. rewrite zip_delete by lia. symmetry. apply (filter_delete _ _ n c).
      * by rewrite Hns.
      * apply lookup_zip_with_Some. by exists n, c.
  - split; [done|]. symmetry. apply filter_all_in. intros p Hp <-.
    assert (Hin : p.1 ∈ (assoc t).*1) by (by apply list_elem_of_fmap_2). rewrite Hns in Hin.
    apply names_lookup in Hin; [|done]. rewrite Ei in Hin. by destruct Hin.
Qed.

Fixpoint exec_all (os : list op) t : table C * res unit :=
  match os with
  | [] => (t, Ok tt)
  | o :: os => match exec o t with (t, Ok _) => exec_all os t | (t, Throw e) => (t, Throw e) end
  end.
Fixpoint spec_all (os : list op) (l : list (name * C)) : option (list (name * C)) :=
  match os with [] => Some l | o :: os => spec_op o l ≫= spec_all os end.

Lemma exec_all_assoc os t l :
  hdr t → spec_all os (assoc t) = Some l → ∃ t', exec_all os t = (t', Ok tt) ∧ hdr t' ∧ assoc t' = l.
Proof.
  revert t. induction os as [|o os IH]; intros t Hh Hs; cbn in *; [simplify_eq; by exists t|].
  apply bind_Some in Hs as (l1 & Hs1 & Hs). destruct o as [ns tys vs cap|o n|n]; cbn [exec].
  - destruct (header_add_step t ns tys vs cap l1) as (t1 & -> & ? & <-); [done..|]. by apply IH.
  - destruct (rename_step t o n l1) as [? <-]; [done..|]. by apply IH.
  - cbn in Hs1. simplify_eq. destruct (delete_step t n) as [? E]; [done|]. apply IH; [done|]. by rewrite E.
Qed.

(** A name that is in use keeps its column: one renamed to it loses its old name and
    is found by none, and a new column of that name is not found either. *)
Lemma taken_name t o n i :
  is_Some (col_id_map_ t !! n) → n ≠ o → col_id_map_ t !! o = Some i →
  get_column n (rename_column o n t) = get_column n t ∧ get_column o (rename_column o n t) = None ∧
  col_id_map_ (add_header t n) = col_id_map_ t.
Proof.
  intros Hn Hne Ho. unfold rename_column, get_column, add_header, emplace_name. rewrite Ho. cbn.
  rewrite decide_True by (by rewrite lookup_delete_ne). rewrite decide_True by done.
  by rewrite lookup_delete_ne, lookup_delete_eq.
Qed.

(** C23: The header of a table stays consistent through a
    sequence of added, renamed and deleted columns in which no name is taken twice (a new
    column has a new name, a column is renamed to a name that is not in use), the types and
    defaults of added columns match their names, and their columns can be made.
    Starting without
    columns, the name map and the positions then always describe the same
    columns, so a column is found by name exactly when its association list
    has it, and it is that one, also after deletions that shift positions.  The excluded
    case is described too: after the sequence, renaming a column to the name of another one
    leaves that name with its column and the renamed column under no name. *)
Theorem table_header_refines os l :
  spec_all os [] = Some l → len l < 2^63 →
  ∃ t, exec_all os (MkTable ∅ [] []) = (t, Ok tt) ∧ col_num t = len l ∧ col_names_ t = l.*1 ∧
       (∀ n, get_column n t = assoc_get n l ∧
             get_column_by_id (get_column_id_by_name n t) t = get_column n t) ∧
       ∀ o n, o ∈ l.*1 → n ∈ l.*1 → n ≠ o →
         get_column n (rename_column o n t) = get_column n t ∧ get_column o (rename_column o n t) = None.
Proof.
  intros Hs Hlen. destruct (exec_all_assoc os (MkTable ∅ [] []) l) as (t & E & Hh & <-); [|done|].
  { split; [apply hnames_empty|done]. }
  exists t. pose proof (assoc_names t Hh) as Hns. split_and!; [done| |done| |].
  - unfold col_num. rewrite (proj2 Hh), <- Hns. by rewrite length_fmap.
  - assert (Hlt : len (columns_ t) < 2^63) by (rewrite (proj2 Hh), <- Hns, length_fmap; done).
    intros n. split; [by apply get_column_assoc|]. unfold get_column_by_id, get_column_id_by_name, get_column.
    destruct (col_id_map_ t !! n) as [i|] eqn:Ei; cbn.
    + apply Hh in Ei as [Hi Ei]. apply lookup_lt_Some in Ei. pose proof (proj2 Hh).
      rewrite u64_id by (unfold is_u64; lia). rewrite Z.leb_antisym. by destruct (i <? len (columns_ t)).
    + change (u64 (-1)) with (2^64 - 1). by rewrite (proj2 (Z.leb_le _ _)) by lia.
  - intros o n Ho Hn Hne. rewrite Hns in Ho, Hn. apply names_lookup in Hn; [|apply Hh].
    apply names_lookup in Ho as [i Ho]; [|apply Hh]. by destruct (taken_name t o n i Hn Hne Ho) as (? & ? & _).
Qed.
End header.
