(* ===== verification/PropertyColumns.v ===== *)
(** * Columns of properties

    CreateColumn (src/utils/property/column.cc) and the columns it makes behind
    ColumnBase: fixed-width, string and empty columns.  Columns of arrays,
    lists and structs are a parameter with the same interface.  The bulk write
    is set_properties_from_context_column (src/storages/loader/loader_utils.cc). *)

From S2P Require Import Prelude Values StringColumn StringColumnProperties KeyColumns Tables.

Module PropertyColumn.

(** [T()] of the fixed-width types. *)
Definition zero_of (id : DataTypeId) : option Val :=
  match id with
  | kBoolean => Some (V_boolean false)
  | kInt32 => Some (V_integer 0) | kInt64 => Some (V_bigint 0)
  | kUInt32 => Some (V_uinteger 0) | kUInt64 => Some (V_ubigint 0)
  | kFloat => Some (V_float 0) | kDouble => Some (V_double 0)
  | kDate => Some (V_date 0) | kTimestampMs => Some (V_timestamp_ms 0)
  | kInterval => Some (V_interval 0 0 0)
  | _ => None
  end.

(** The member of the union that the type of a column reads.  The source reads it
    without a look at the value's own type; what another member gives is undefined,
    [None] here, which the writes below answer with [OutOfBounds]. *)
Definition GetValue (id : DataTypeId) (v : Value) : option Val :=
  let 'MkValue _ _ p := v in
  match id, p with
  | kBoolean, V_boolean _ | kInt32, V_integer _ | kInt64, V_bigint _ | kUInt32, V_uinteger _
  | kUInt64, V_ubigint _ | kFloat, V_float _ | kDouble, V_double _ | kDate, V_date _
  | kTimestampMs, V_timestamp_ms _ | kInterval, V_interval _ _ _ => Some p
  | _, _ => None
  end.

Section columns.
Context {O : Type} `{!ColumnBase O}.

Inductive column :=
  | Fixed (id : DataTypeId) (zero : Val) (c : TypedColumn.column Val)
  | Strings (c : StringColumn.column)
  | Empty
  | Nested (c : O).
Implicit Types (c : column).

Definition CreateColumn (ty : DataType) : res column :=
  match id_ ty with
  | kVarchar => Ok (Strings (StringColumn.OpenEmpty (StringColumn.CreateColumn_width (type_info_ ty))))
  | kArray | kList | kStruct => Nested <$> Tables.CreateColumn ty
  | kEmpty => Ok Empty
  | id => match zero_of id with
          | Some z => Ok (Fixed id z TypedColumn.OpenEmpty)
          | None => Throw NotSupported
          end
  end.

Definition type c : DataTypeId :=
  match c with Fixed id _ _ => id | Strings _ => kVarchar | Empty => kEmpty | Nested o => col_type o end.
Definition size c : Z :=
  match c with
  | Fixed _ _ f => TypedColumn.size_ f | Strings s => StringColumn.size s | Empty => 0 | Nested o => col_size o
  end.
Definition resize (n : Z) c : column :=
  match c with
  | Fixed id z f => Fixed id z (TypedColumn.resize z n f)
  | Strings s => Strings (StringColumn.resize n s)
  | Empty => Empty
  | Nested o => Nested (col_resize n o)
  end.

Definition lift {A} (f : A → column) (p : A * res unit) : column * res unit := (f p.1, p.2).

Definition resize_default (n : Z) (v : Value) c : column * res unit :=
  match c with
  | Fixed id z f => lift (Fixed id z) (TypedColumn.resize_default z id (GetValue id) n v f)
  | Strings s => lift Strings (StringColumn.resize_default n v s)
  | Empty => (Empty, Ok tt)
  | Nested o => lift Nested (col_resize_default n v o)
  end.
Definition set_any (index : Z) (v : Value) (insert_safe : bool) c : column * res unit :=
  match c with
  | Fixed id z f => lift (Fixed id z) (TypedColumn.set_any z (GetValue id) index v insert_safe f)
  | Strings s => lift Strings (StringColumn.set_any index v insert_safe s)
  | Empty => (Empty, Ok tt)
  | Nested o => lift Nested (col_set_any index v insert_safe o)
  end.
Definition get_any c (index : Z) : Value :=
  match c with
  | Fixed id z f => TypedColumn.get_any z (scalar id) f index
  | Strings s => StringColumn.get_any s index
  | Empty => MkValue (MkDataType kEmpty None) true V_none
  | Nested o => col_get_any o index
  end.

(** ** Bulk writes *)

(** A column of a chunk: a [ValueColumn], given by its data, which are written
    without a look at their validity, or another kind, whose nulls are skipped. *)
Record context_column := MkContext { is_value_column : bool; elems : list Value }.

(** One row of a string column. *)
Definition write_string (vid : Z) (s : list Z) (c : StringColumn.column) : StringColumn.column * res unit :=
  let c := if u64 (StringColumn.available_space c) <=? len s
           then StringColumn.resize (StringColumn.size c) c else c in
  StringColumn.set_value vid s c.

Definition write_row (vid : Z) (v : Value) c : column * res unit :=
  match c with
  | Fixed id z f =>
      match GetValue id v with
      | Some x => lift (Fixed id z) (TypedColumn.set_value vid x f)
      | None => (c, Throw OutOfBounds)
      end
  | Strings s =>
      match StringColumn.GetString v with
      | Some x => lift Strings (write_string vid x s)
      | None => (c, Throw OutOfBounds)
      end
  | Nested o => lift Nested (col_set_any vid v true o)
  | Empty => (c, Ok tt)
  end.

(** The types the switch has a case for. *)
Definition bulk_type c : bool :=
  match type c with
  | kVarchar | kArray | kList => true
  | id => bool_decide (is_Some (zero_of id))
  end.

(** The chunk's rows go to the vertices of [vids]; the largest id marks a row
    that is left out.  Arrays and lists skip nulls for either kind of column. *)
Definition skips_null (ctx : context_column) c : bool :=
  match c with Nested _ => true | _ => negb (is_value_column ctx) end.

Definition set_properties_from_context_column (ctx : context_column) (vids : list Z) c : column * res unit :=
  if negb (bulk_type c) then (c, Throw NotSupported)
  else
  foldl (λ p r, match p with
                | (c, Ok _) =>
                    if (U32_MAX <=? r.1) || (skips_null ctx c && IsNull r.2) then (c, Ok tt)
                    else write_row r.1 r.2 c
                | p => p
                end) (c, Ok tt) (zip vids (elems ctx)).

End columns.

Arguments column O : clear implicits.

Definition column_base {O} `{!ColumnBase O} : ColumnBase (column O) := {|
  Tables.CreateColumn := CreateColumn;
  col_type := type;
  col_size := size;
  col_resize := resize;
  col_resize_default := resize_default;
  col_set_any := set_any;
  col_get_any := get_any
|}.

End PropertyColumn.

(** Writing a string in bulk can fail for lack of
    space where an ordinary assignment grows the buffer: the bulk write
    resizes the buffer to the average length times the rows, which does not
    count the bytes of overwritten strings. After two assignments to one row
    of a two-row column the other row cannot be written in bulk. *)
Theorem bulk_write_starved :
  let '(c, r) := StringColumnProperties.exec_all [OpResize 2; OpSetAny 0 (Value_STRING [97; 98; 99; 100]);
                           OpSetAny 0 (Value_STRING [101; 102; 103; 104])] (StringColumn.OpenEmpty 4) in
  r = Ok tt ∧
  (PropertyColumn.write_string 1 [120; 121; 122] c).2 = Throw StorageError ∧
  (StringColumn.set_any 1 (Value_STRING [120; 121; 122]) true c).2 = Ok tt.
Proof. vm_compute. repeat split. Qed.

(** Columns without nested ones. *)
Definition no_nested : ColumnBase Empty_set := {|
  CreateColumn := λ _, Throw NotSupported;
  col_type := λ o : Empty_set, match o with end;
  col_size := λ o : Empty_set, match o with end;
  col_resize := λ _ o, o;
  col_resize_default := λ _ _ o, (o, Ok tt);
  col_set_any := λ _ _ _ o, (o, Ok tt);
  col_get_any := λ o : Empty_set, match o with end
|}.

(** Two columns are added, one is renamed and the first one deleted. *)
Lemma table_header_refines_witness :
  let cb := @PropertyColumn.column_base _ no_nested in
  ∃ t : Table.table (PropertyColumn.column Empty_set),
    Tables.exec_all [OpAdd [[97]; [98]] [MkDataType kInt64 None; MkDataType kVarchar None]
                       [scalar kInt64 (V_bigint 7); Value_STRING [120]] 2;
                     OpRename [98] [99]; OpDelete [97]] (Table.MkTable ∅ [] []) = (t, Ok tt) ∧
    Table.col_names_ t = [[99]] ∧
    (λ c, col_get_any c 1) <$> Table.get_column [99] t = Some (Value_STRING [120]) ∧
    Table.get_column [97] t = None.
Proof.
  intros cb.
  destruct (table_header_refines (C := PropertyColumn.column Empty_set)
    [OpAdd [[97]; [98]] [MkDataType kInt64 None; MkDataType kVarchar None]
       [scalar kInt64 (V_bigint 7); Value_STRING [120]] 2; OpRename [98] [99]; OpDelete [97]]
    [([99], PropertyColumn.Strings
        (fst (StringColumn.resize_default 2 (Value_STRING [120]) (StringColumn.OpenEmpty 256))))])
    as (t & E & _ & Hn & Hg & _); [by vm_compute|by vm_compute|].
  exists t. split_and!; [done|done|..].
  - rewrite (proj1 (Hg [99])). by vm_compute.
  - rewrite (proj1 (Hg [97])). by vm_compute.
Defined.
