(* ===== verification/TableRows.v ===== *)
(** * Rows of property tables

    What a column promises the tables: it is a list of values that writes and
    resizing change in the expected places.  From these laws the rows of a
    whole table follow, and the columns of properties satisfy them. *)

From S2P Require Import Prelude Values StringColumn StringColumnProperties KeyColumns Tables PropertyColumns.

(** [col_keeps]: the column reads the value back as it was written;
    [col_room]: so many more bytes fit into its buffers; [col_budget]: so many
    could be added at all. *)
Class ColumnLaws (C : Type) `{!ColumnBase C} := {
  col_wf : C → Prop;
  col_rows : C → list Value;
  col_keeps : C → Value → Prop;
  col_cost : Value → Z;
  col_room : C → Z → Prop;
  col_budget : C → Z → Prop;
  col_cost_nonneg : ∀ v, 0 ≤ col_cost v;
  col_budget_mono : ∀ c a b, col_budget c a → 0 ≤ b ≤ a → col_budget c b;
  col_room_mono : ∀ c a b, col_room c a → 0 ≤ b ≤ a → col_room c b;
  col_size_rows : ∀ c, col_wf c → col_size c = len (col_rows c);
  col_get_rows : ∀ c (i : nat) v, col_wf c → col_rows c !! i = Some v → col_get_any c (Z.of_nat i) = v;
  col_set_ok : ∀ c i v safe,
    col_wf c → 0 ≤ i < len (col_rows c) → col_keeps c v →
    (if (safe : bool) then col_budget c (col_cost v) else col_room c (col_cost v)) →
    ∃ c', col_set_any i v safe c = (c', Ok tt) ∧ col_wf c' ∧ col_rows c' = <[Z.to_nat i := v]> (col_rows c) ∧
      (∀ u, col_keeps c u → col_keeps c' u) ∧ ∀ b, 0 ≤ b → col_budget c (col_cost v + b) → col_budget c' b;
  col_resize_ok : ∀ c n v,
    col_wf c → 0 ≤ n → col_keeps c v → col_budget c (col_cost v) →
    ∃ c', col_resize_default n v c = (c', Ok tt) ∧ col_wf c' ∧ col_rows c' = list_resize (Z.to_nat n) v (col_rows c) ∧
      (∀ u, col_keeps c u → col_keeps c' u) ∧ ∀ b, 0 ≤ b → col_budget c (col_cost v + b) → col_budget c' b
}.

Section rows.
Import Table.
Context {C : Type} `{!ColumnBase C} `{!ColumnLaws C}.
Implicit Types (c : C) (cs : list C) (t : table C) (vs : list Value) (col : list Value).

Definition holds (n : Z) c : Prop := col_wf c ∧ len (col_rows c) = n.

(** From [c] to [c']: it still keeps the values it did, and at most [b] bytes
    of its budget are used up. *)
Definition evolves (b : Z) c c' : Prop :=
  (∀ u, col_keeps c u → col_keeps c' u) ∧ ∀ b', 0 ≤ b' → col_budget c (b + b') → col_budget c' b'.

Lemma evolves_refl b c : 0 ≤ b → evolves b c c.
Proof. intros Hb. split; [done|]. intros b' Hb' H. eapply col_budget_mono; [done|lia]. Qed.

Lemma evolves_trans a b c c' c'' : 0 ≤ b → evolves a c c' → evolves b c' c'' → evolves (a + b) c c''.
Proof. intros Hb [H1 H2] [H3 H4]. split; [eauto|]. intros b' Hb' H. apply H4, H2; [lia..|]. by rewrite Z.add_assoc. Qed.

Lemma evolves_mono a b c c' : 0 ≤ a ≤ b → evolves a c c' → evolves b c c'.
Proof. intros Hab [H1 H2]. split; [done|]. intros b' Hb' H. apply H2; [lia|]. eapply col_budget_mono; [done|lia]. Qed.

Definition row_cost vs : Z := zsum col_cost vs.

Lemma row_cost_nonneg vs : 0 ≤ row_cost vs.
Proof. apply zsum_nonneg. intros; apply col_cost_nonneg. Qed.

Lemma Forall2_evolves_refl b cs : 0 ≤ b → Forall2 (evolves b) cs cs.
Proof. intros Hb. apply Forall2_same_length_lookup_2; [done|]. intros i x y Hx Hy. simplify_eq. by apply evolves_refl. Qed.

Lemma Forall2_evolves_mono a b cs cs' : 0 ≤ a ≤ b → Forall2 (evolves a) cs cs' → Forall2 (evolves b) cs cs'.
Proof. intros Hab H. eapply Forall2_impl; [done|]. intros. by eapply evolves_mono. Qed.

Definition ready (safe : bool) c v : Prop :=
  col_keeps c v ∧ if safe then col_budget c (col_cost v) else col_room c (col_cost v).

Lemma set_each_ok n i cs vs safe :
  Forall (holds n) cs → 0 ≤ i < n → Forall2 (ready safe) cs vs →
  ∃ cs', set_each i cs vs safe = (cs', Ok tt) ∧ Forall (holds n) cs' ∧
    col_rows <$> cs' = zip_with (λ col v, <[Z.to_nat i := v]> col) (col_rows <$> cs) vs ∧
    Forall2 (evolves (row_cost vs)) cs cs'.
Proof.
  intros Hcs Hi Hr. induction Hr as [|c v cs vs [Hk Hb] Hr IH]; cbn [set_each].
  { by exists []. }
  apply Forall_cons in Hcs as [[Hw Hl] Hcs]. destruct (col_set_ok c i v safe) as (c' & E & Hw' & Hrow & Hkeep & Hbud); [done|lia|done..|].
  rewrite E. destruct (IH Hcs) as (cs' & E' & Hcs' & Hrows & Hev). rewrite E'.
  exists (c' :: cs'). pose proof (col_cost_nonneg v). pose proof (row_cost_nonneg vs).
  change (row_cost (v :: vs)) with (col_cost v + row_cost vs). split_and!; [done| | |].
  - constructor; [|done]. split; [done|]. by rewrite Hrow, length_insert.
  - cbn. by rewrite Hrow, Hrows.
  - constructor; [|eapply Forall2_evolves_mono; [|done]; lia].
    apply (evolves_mono (col_cost v)); [lia|]. by split.
Qed.

Lemma resize_each_ok n m cs vs :
  Forall (holds n) cs → 0 ≤ n ≤ m → Forall2 (ready true) cs vs →
  ∃ cs', resize_each m cs vs = (cs', Ok tt) ∧ Forall (holds m) cs' ∧
    col_rows <$> cs' = zip_with (λ col v, list_resize (Z.to_nat m) v col) (col_rows <$> cs) vs ∧
    Forall2 (evolves (row_cost vs)) cs cs'.
Proof.
  intros Hcs Hi Hr. induction Hr as [|c v cs vs [Hk Hb] Hr IH]; cbn [resize_each].
  { by exists []. }
  apply Forall_cons in Hcs as [[Hw Hl] Hcs]. destruct (col_resize_ok c m v) as (c' & E & Hw' & Hrow & Hkeep & Hbud); [done|lia|done..|].
  rewrite E. destruct (IH Hcs) as (cs' & E' & Hcs' & Hrows & Hev). rewrite E'.
  exists (c' :: cs'). pose proof (col_cost_nonneg v). pose proof (row_cost_nonneg vs).
  change (row_cost (v :: vs)) with (col_cost v + row_cost vs). split_and!; [done| | |].
  - constructor; [|done]. split; [done|]. rewrite Hrow, length_resize. lia.
  - cbn. by rewrite Hrow, Hrows.
  - constructor; [|eapply Forall2_evolves_mono; [|done]; lia].
    apply (evolves_mono (col_cost v)); [lia|]. by split.
Qed.

(** ** Tables *)

Definition rows_of t : list (list Value) := col_rows <$> columns_ t.

Lemma table_insert_ok n i vs safe t :
  Forall (holds n) (columns_ t) → 0 ≤ i < n → Forall2 (ready safe) (columns_ t) vs →
  ∃ t', Table.insert i vs safe t = (t', Ok tt) ∧ Forall (holds n) (columns_ t') ∧
    rows_of t' = zip_with (λ col v, <[Z.to_nat i := v]> col) (rows_of t) vs ∧
    Forall2 (evolves (row_cost vs)) (columns_ t) (columns_ t').
Proof.
  intros Hc Hi Hr. destruct (set_each_ok n i _ _ safe Hc Hi Hr) as (cs' & E & Hcs' & Hrows & Hev).
  exists (set_columns cs' t). unfold Table.insert. rewrite (Forall2_length _ _ _ Hr), Nat.eqb_refl. cbn [negb].
  rewrite E. by split_and!.
Qed.

Lemma table_resize_ok n m vs t :
  Forall (holds n) (columns_ t) → 0 ≤ n ≤ m → Forall2 (ready true) (columns_ t) vs →
  ∃ t', Table.resize_default m vs t = (t', Ok tt) ∧ Forall (holds m) (columns_ t') ∧
    rows_of t' = zip_with (λ col v, list_resize (Z.to_nat m) v col) (rows_of t) vs ∧
    Forall2 (evolves (row_cost vs)) (columns_ t) (columns_ t').
Proof.
  intros Hc Hi Hr. destruct (resize_each_ok n m _ _ Hc Hi Hr) as (cs' & E & Hcs' & Hrows & Hev).
  exists (set_columns cs' t). unfold Table.resize_default. rewrite (Forall2_length _ _ _ Hr), Nat.eqb_refl. cbn [negb].
  rewrite E. by split_and!.
Qed.

Lemma get_row_ok n (i : nat) t :
  Forall (holds n) (columns_ t) → Z.of_nat i < n →
  Some <$> get_row (Z.of_nat i) t = (λ col, col !! i) <$> rows_of t.
Proof.
  intros Hc Hi. unfold get_row, rows_of. rewrite <- !list_fmap_compose. apply list_fmap_ext. intros j c Hj. cbn.
  destruct (Forall_lookup_1 _ _ _ _ Hc Hj) as [Hw Hl].
  destruct (lookup_lt_is_Some_2 (col_rows c) i) as [v Hv]; [lia|]. by rewrite Hv, (col_get_rows c i v).
Qed.
End rows.

(** ** The columns of properties *)

Section property_columns.
Import PropertyColumn.
Context {O : Type} `{!ColumnBase O} `{!ColumnLaws O}.
Implicit Types (c : column O).

#[local] Existing Instance column_base.

Definition pc_rows c : list Value :=
  match c with
  | Fixed id _ f => scalar id <$> TypedColumn.buffer_ f
  | Strings s => Value_STRING <$> StringColumnProperties.rows s
  | Empty => []
  | Nested o => col_rows o
  end.
Definition pc_wf c : Prop :=
  match c with
  | Fixed _ _ f => TypedColumn.size_ f = len (TypedColumn.buffer_ f)
  | Strings s => swf s
  | Empty => False
  | Nested o => col_wf o
  end.
Definition pc_keeps c (v : Value) : Prop :=
  match c with
  | Fixed id _ _ => ∃ p, v = scalar id p ∧ GetValue id v = Some p
  | Strings s => ∃ x, v = Value_STRING x ∧ len x ≤ StringColumn.width_ s
  | Empty => False
  | Nested o => col_keeps o v
  end.
Definition pc_cost (v : Value) : Z := len (default [] (StringColumn.GetString v)) + col_cost v.
Definition pc_budget c (b : Z) : Prop :=
  match c with Strings s => StringColumn.pos_ s + b < 2^48 | Nested o => col_budget o b | _ => True end.
Definition pc_room c (b : Z) : Prop :=
  match c with
  | Strings s => StringColumn.pos_ s + b ≤ len (StringColumn.data_buffer_ s) ∧ StringColumn.pos_ s + b < 2^48
  | Nested o => col_room o b
  | _ => True
  end.

Lemma fill_rows {A} (z x : A) (l : list A) (n : Z) :
  0 ≤ n → foldl (λ l i, <[Z.to_nat i := x]> l) (list_resize (Z.to_nat n) z l) (seqZ (len l) (n - len l)) =
  list_resize (Z.to_nat n) x l.
Proof.
  intros Hn. apply list_eq. intros j.
  destruct (decide (j < Z.to_nat n)%nat) as [Hj|Hj].
  2:{ rewrite !lookup_ge_None_2; [done|rewrite length_resize; lia|]. rewrite foldl_insert_length, length_resize. lia. }
  destruct (decide (j < length l)%nat) as [Hl|Hl].
  - rewrite foldl_insert_ne by (intros r Hr%elem_of_seqZ; lia). by rewrite !lookup_resize by lia.
  - rewrite lookup_resize_new by lia. replace j with (Z.to_nat (Z.of_nat j)) by lia.
    apply (foldl_insert_in Z.to_nat); [apply elem_of_seqZ; lia|rewrite length_resize; lia].
Qed.

Lemma fixed_fill (v : Val) (f : TypedColumn.column Val) l :
  (∀ i, i ∈ l → 0 ≤ i < TypedColumn.size_ f) →
  foldl (λ p i, match p with (c, Ok _) => TypedColumn.set_value i v c | p => p end) (f, Ok tt) l =
  (TypedColumn.MkColumn (foldl (λ b i, <[Z.to_nat i := v]> b) (TypedColumn.buffer_ f) l) (TypedColumn.size_ f), Ok tt).
Proof.
  revert f. induction l as [|i l IH]; intros f Hl; cbn [foldl]; [by destruct f|].
  unfold TypedColumn.set_value at 2. rewrite (proj2 (Z.ltb_lt _ _)) by (apply Hl; by left).
  apply (IH (TypedColumn.MkColumn _ _)). intros j Hj. apply Hl. by right.
Qed.

Lemma fixed_resize_ok id z f n p :
  pc_wf (Fixed id z f) → 0 ≤ n → GetValue id (scalar id p) = Some p →
  TypedColumn.resize_default z id (GetValue id) n (scalar id p) f =
    (TypedColumn.MkColumn (list_resize (Z.to_nat n) p (TypedColumn.buffer_ f)) n, Ok tt).
Proof.
  intros Hw Hn E. cbn in Hw. unfold TypedColumn.resize_default. cbn [scalar type_ id_].
  rewrite bool_decide_false by naive_solver. rewrite E. cbv zeta.
  rewrite fixed_fill by (intros i Hi%elem_of_seqZ; cbn in *; lia). cbn [TypedColumn.buffer_ TypedColumn.size_].
  rewrite Resize_spec, Hw, fill_rows by done. done.
Qed.

Lemma string_leaves (c : StringColumn.column) b rs v s r :
  StringColumnProperties.leaves c b rs r → 0 ≤ b → v = Value_STRING s → b = len s →
  ∃ c', lift (@Strings O) r = (c', Ok tt) ∧ pc_wf c' ∧ pc_rows c' = Value_STRING <$> rs ∧
    (∀ u, pc_keeps (Strings c) u → pc_keeps c' u) ∧ ∀ b, 0 ≤ b → pc_budget (Strings c) (pc_cost v + b) → pc_budget c' b.
Proof.
  intros (c' & -> & Hw & Hr & Hwd & Hp) Hb -> ->. exists (Strings c'). cbn. rewrite Hr, Hwd. split_and!; try done.
  intros b Hb' H. unfold pc_cost in H. cbn in H. pose proof (col_cost_nonneg (Value_STRING s)). lia.
Qed.

Lemma pc_cost_nonneg v : 0 ≤ pc_cost v.
Proof. unfold pc_cost. pose proof (col_cost_nonneg v). lia. Qed.

Lemma pc_budget_mono c a b : pc_budget c a → 0 ≤ b ≤ a → pc_budget c b.
Proof. destruct c; cbn; [done|lia|done|]. apply col_budget_mono. Qed.

Lemma pc_room_mono c a b : pc_room c a → 0 ≤ b ≤ a → pc_room c b.
Proof. destruct c; cbn; [done|lia|done|]. apply col_room_mono. Qed.

Lemma short_kept w s : len s ≤ w → kept w (value_string (Value_STRING s)) = Some s.
Proof. intros Hs. unfold kept, text_cut. cbn. by rewrite (proj2 (Z.leb_le _ _) Hs). Qed.

Lemma nested_leaves (o o' : O) (v : Value) (rs : list Value) :
  col_wf o' → col_rows o' = rs → (∀ u, col_keeps o u → col_keeps o' u) →
  (∀ b, 0 ≤ b → col_budget o (col_cost v + b) → col_budget o' b) →
  ∃ c' : column O, (Nested o', Ok tt) = (c', Ok tt) ∧ pc_wf c' ∧ pc_rows c' = rs ∧
    (∀ u, pc_keeps (Nested o) u → pc_keeps c' u) ∧ ∀ b, 0 ≤ b → pc_budget (Nested o) (pc_cost v + b) → pc_budget c' b.
Proof.
  intros Hw Hr Hk Hb. exists (Nested o'). cbn. split_and!; try done. intros b Hb' H. apply Hb; [done|].
  pose proof (col_cost_nonneg v). eapply col_budget_mono; [done|]. unfold pc_cost. lia.
Qed.

(** Room without growth: nothing but the write. *)
Lemma string_set_room s i x :
  swf s → 0 ≤ i < len (StringColumnProperties.rows s) → len x ≤ StringColumn.width_ s →
  StringColumn.pos_ s + len x ≤ len (StringColumn.data_buffer_ s) → StringColumn.pos_ s + len x < 2^48 →
  leaves s (len x) (<[Z.to_nat i := x]> (StringColumnProperties.rows s)) (StringColumn.set_any i (Value_STRING x) false s).
Proof.
  intros Hw Hi Hx Hroom Hbig. rewrite rows_length in Hi. pose proof (swf_size _ Hw).
  destruct (set_value_spec s i x x) as (c' & E & Hw' & Hr & _ & Hwd & Hp); [done|lia|by apply truncate_short|done|done|].
  unfold StringColumn.set_any. rewrite (proj2 (Z.leb_gt _ _)) by lia. cbn [IsNull Value_STRING scalar StringColumn.GetString].
  rewrite (proj2 (Z.ltb_ge _ _)) by lia. exists c'. split_and!; [done..|lia].
Qed.

Lemma pc_set_ok c i v safe :
  pc_wf c → 0 ≤ i < len (pc_rows c) → pc_keeps c v →
  (if (safe : bool) then pc_budget c (pc_cost v) else pc_room c (pc_cost v)) →
  ∃ c', set_any i v safe c = (c', Ok tt) ∧ pc_wf c' ∧ pc_rows c' = <[Z.to_nat i := v]> (pc_rows c) ∧
    (∀ u, pc_keeps c u → pc_keeps c' u) ∧ ∀ b, 0 ≤ b → pc_budget c (pc_cost v + b) → pc_budget c' b.
Proof.
  intros Hw Hi Hk Hb. pose proof (col_cost_nonneg v). destruct c as [id z f|s| |o]; try done; cbn [set_any pc_rows] in *.
  - destruct Hk as (p & -> & E). unfold TypedColumn.set_any. cbn [IsNull scalar]. cbn [scalar] in E. rewrite E.
    unfold TypedColumn.set_value. rewrite length_fmap in Hi. cbn in Hw. rewrite (proj2 (Z.ltb_lt _ _)) by lia.
    eexists. split; [done|]. cbn. rewrite length_insert, list_fmap_insert. done.
  - destruct Hk as (x & -> & Hx). rewrite length_fmap in Hi. unfold pc_cost in Hb. cbn in Hb. rewrite <- list_fmap_insert.
    eapply string_leaves; [|by apply Nat2Z.is_nonneg|done|done]. destruct safe.
    + apply (StringColumnProperties.set_any_step s i (Value_STRING x)); [done|cbn; lia|]. cbn [StringColumnProperties.spec_op]. rewrite short_kept by done. cbn [mbind option_bind].
      by rewrite (proj2 (Z.leb_le _ _)), (proj2 (Z.ltb_lt _ _)) by lia.
    + apply string_set_room; try done; lia.
  - destruct (col_set_ok o i v safe) as (o' & E & Hw' & Hr & Hk' & Hb'); [done..| |].
    { destruct safe; [eapply col_budget_mono|eapply col_room_mono]; try done; unfold pc_cost; lia. }
    rewrite E. by apply nested_leaves.
Qed.

Lemma pc_resize_ok c n v :
  pc_wf c → 0 ≤ n → pc_keeps c v → pc_budget c (pc_cost v) →
  ∃ c', resize_default n v c = (c', Ok tt) ∧ pc_wf c' ∧ pc_rows c' = list_resize (Z.to_nat n) v (pc_rows c) ∧
    (∀ u, pc_keeps c u → pc_keeps c' u) ∧ ∀ b, 0 ≤ b → pc_budget c (pc_cost v + b) → pc_budget c' b.
Proof.
  intros Hw Hn Hk Hb. pose proof (col_cost_nonneg v). destruct c as [id z f|s| |o]; try done; cbn [resize_default pc_rows].
  - destruct Hk as (p & -> & E). rewrite fixed_resize_ok by done. eexists. split; [done|]. cbn.
    rewrite length_resize, !resize_spec, fmap_app, fmap_take, fmap_replicate, length_fmap. split_and!; [lia|done..].
  - destruct Hk as (x & -> & Hx). unfold pc_cost in Hb. cbn in Hb.
    assert (Ef : list_resize (Z.to_nat n) (Value_STRING x) (Value_STRING <$> StringColumnProperties.rows s) =
                 Value_STRING <$> list_resize (Z.to_nat n) x (StringColumnProperties.rows s)).
    { by rewrite !resize_spec, fmap_app, fmap_take, fmap_replicate, length_fmap. }
    rewrite Ef. eapply string_leaves; [|by apply Nat2Z.is_nonneg|done|done].
    apply (StringColumnProperties.resize_default_step s n (Value_STRING x)); [done|cbn; lia|]. cbn [StringColumnProperties.spec_op]. change (StringColumn.GetString (Value_STRING x)) with (value_string (Value_STRING x)). rewrite short_kept by done. cbn [mbind option_bind].
    by rewrite bool_decide_true, (proj2 (Z.leb_le _ _)) by (done || lia).
  - destruct (col_resize_ok o n v) as (o' & E & Hw' & Hr & Hk' & Hb'); [done..| |].
    { eapply col_budget_mono; [done|]. unfold pc_cost; lia. }
    rewrite E. by apply nested_leaves.
Qed.

#[global] Instance property_column_laws : ColumnLaws (column O).
Proof.
  refine {| col_wf := pc_wf; col_rows := pc_rows; col_keeps := pc_keeps; col_cost := pc_cost; col_room := pc_room;
    col_budget := pc_budget; col_cost_nonneg := pc_cost_nonneg; col_budget_mono := pc_budget_mono;
    col_room_mono := pc_room_mono; col_set_ok := pc_set_ok; col_resize_ok := pc_resize_ok |}.
  - intros [id z f|s| |o] Hw; try done; cbn in *.
    + by rewrite length_fmap.
    + rewrite length_fmap, rows_length. apply Hw.
    + by apply col_size_rows.
  - intros [id z f|s| |o] i v Hw; try done; cbn in *.
    + intros Hv. apply list_lookup_fmap_Some in Hv as (p & -> & Hp). unfold TypedColumn.get_any, TypedColumn.get_view.
      by rewrite Nat2Z.id, Hp.
    + intros Hv. apply list_lookup_fmap_Some in Hv as (p & -> & Hp). unfold StringColumn.get_any.
      by rewrite get_view_rows, Nat2Z.id, Hp.
    + by apply col_get_rows.
Defined.
End property_columns.

(** No nested columns. *)
Section no_nested.
#[local] Existing Instance no_nested.
Definition no_nested_laws : ColumnLaws Empty_set.
Proof.
  by refine {| col_wf := λ _, True; col_rows := λ _, []; col_keeps := λ _ _, False; col_cost := λ _, 0;
    col_room := λ _ _, True; col_budget := λ _ _, True |}; try done; intros [].
Defined.
End no_nested.
