(* ===== verification/CheckpointManifest.v ===== *)
(** * Checkpoint manifests

    CheckpointManifest (src/storages/graph/checkpoint_manifest.cc): descriptors
    of dumped modules and scalars by name, and the reuse of a clean module of an
    earlier checkpoint together with every module it refers to.  ModuleBroker
    (src/storages/module/module_broker.cc): the modules themselves by name,
    while a checkpoint is written or opened.  What a module writes and how it is
    read back are parameters. *)

From stdpp Require Import gmap fin_sets.
From S2P Require Import Prelude Values StringColumn Tables.

Module CheckpointManifest.

(** [refs] in the order of the roles. *)
Record ModuleDescriptor (P : Type) := MkDescriptor {
  payload : P;
  module_type : name;
  required : bool;
  refs : list (name * name);
  referenced_module_ : bool
}.
Arguments MkDescriptor {P}. Arguments payload {P}. Arguments module_type {P}. Arguments required {P}. Arguments refs {P}.
Arguments referenced_module_ {P}.

Record manifest (P : Type) := MkManifest {
  modules_ : gmap name (ModuleDescriptor P);
  scalars_ : gmap name name
}.
Arguments MkManifest {P}. Arguments modules_ {P}. Arguments scalars_ {P}.

Section operations.
Context {P : Type}.
Implicit Types (m prev : manifest P) (key : name).

Definition empty : manifest P := MkManifest ∅ ∅.
Definition FindModule key m : option (ModuleDescriptor P) := modules_ m !! key.
Definition SetModule key (desc : ModuleDescriptor P) m : manifest P := MkManifest (<[key := desc]> (modules_ m)) (scalars_ m).
Definition HasModule key m : bool := bool_decide (is_Some (modules_ m !! key)).
Definition GetScalar key m : option name := scalars_ m !! key.
Definition SetScalar key (value : name) m : manifest P := MkManifest (modules_ m) (<[key := value]> (scalars_ m)).
Definition CopyScalarFrom prev key m : manifest P :=
  match GetScalar key prev with Some value => SetScalar key value m | None => m end.

(** The set of visited keys is passed on with the manifest. *)
Fixpoint ReuseModuleClosureFromImpl (fuel : nat) prev key (s : gset name * manifest P) : gset name * manifest P :=
  match fuel with
  | O => s
  | S fuel =>
      let '(visited, m) := s in
      if decide (key ∈ visited) then s
      else
        let visited := {[key]} ∪ visited in
        match FindModule key prev with
        | None => (visited, m)
        | Some desc =>
            let m := if HasModule key m then m else SetModule key desc m in
            foldl (λ s r, ReuseModuleClosureFromImpl fuel prev r.2 s) (visited, m) (refs desc)
        end
  end.

Definition ReuseModuleClosureFrom prev key m : manifest P :=
  (ReuseModuleClosureFromImpl (base.size (modules_ prev) + 1) prev key (∅, m)).2.

End operations.
End CheckpointManifest.

(** ** Modules by name *)

Module ModuleBroker.
Import CheckpointManifest.
Section operations.
Context {M : Type}.

(** [dump n x m] is [Module::Dump] of [x] under the name [n]: it writes the entry of [n]
    and, for a composite column, entries of its children.  [load m desc] is
    [ModuleFactory::Create] of the type and [Module::Open], which finds the
    children in [m]; [None] when no class is registered for the type. *)
Context {P : Type} (dump : name → M → manifest P → manifest P) (load : manifest P → ModuleDescriptor P → option (res M)).
Implicit Types (b : gmap name M).

Definition SetModule (n : name) (x : M) b : gmap name M := <[n := x]> b.
Definition Contains (n : name) b : bool := bool_decide (is_Some (b !! n)).
Definition TakeModule (n : name) b : gmap name M * option M := (delete n b, b !! n).

(** The overload that requires a module; its cast to the owner's class is not
    modelled. *)
Definition TakeModuleAs (n : name) b : gmap name M * res M :=
  (delete n b, of_option InvalidArgument (b !! n)).

Definition Dump b (m : manifest P) : manifest P := map_fold dump m b.

(** Entries that belong to another one and entries without a class are left
    to their owners; an optional entry of an unknown class is skipped. *)
Definition opens (desc : ModuleDescriptor P) : bool :=
  negb (referenced_module_ desc) && negb (bool_decide (module_type desc = [])).

Definition open_entry (m : manifest P) (n : name) (desc : ModuleDescriptor P) b : res (gmap name M) :=
  if negb (opens desc) then Ok b
  else match load m desc with
    | None => if required desc then Throw InvalidArgument else Ok b
    | Some (Throw e) => Throw e
    | Some (Ok x) => Ok (<[n := x]> b)
    end.

(** In the order of the hash map; the first entry that fails ends the loop. *)
Definition Open (m : manifest P) : res (gmap name M) :=
  map_fold (λ n desc r, b ← r; open_entry m n desc b) (Ok ∅) (modules_ m).
End operations.
End ModuleBroker.

(** ** The closure of references *)

Section closure.
Import CheckpointManifest.
Context {P : Type} (prev : manifest P).
Implicit Types (m : manifest P) (key : name) (V : gset name).

Definition refers (a b : name) : Prop := ∃ d, FindModule a prev = Some d ∧ b ∈ (refs d).*2.
Definition reach : name → name → Prop := rtc refers.

(** From [(V, m)] to [(V', m')], starting at the keys [ks]. *)
Record visited_all (ks : list name) V V' m m' : Prop := {
  va_mono : V ⊆ V';
  va_keys : ∀ k, k ∈ ks → k ∈ V';
  va_reach : ∀ k, k ∈ V' → k ∉ V → ∃ k0, k0 ∈ ks ∧ reach k0 k;
  va_closed : ∀ k r, k ∈ V' → k ∉ V → refers k r → r ∈ V';
  va_modules : ∀ k, FindModule k m' = match FindModule k m with
    | Some d => Some d | None => if decide (k ∈ V' ∧ k ∉ V) then FindModule k prev else None end;
  va_scalars : scalars_ m' = scalars_ m
}.

Lemma visited_nil V m : visited_all [] V V m m.
Proof.
  split; try done; try (by intros k ?%elem_of_nil). intros k. rewrite decide_False by naive_solver. by case_match.
Qed.

Lemma visited_app ks1 ks2 V V1 V2 m m1 m2 :
  visited_all ks1 V V1 m m1 → visited_all ks2 V1 V2 m1 m2 → visited_all (ks1 ++ ks2) V V2 m m2.
Proof.
  intros [M1 K1 R1 C1 D1 S1] [M2 K2 R2 C2 D2 S2]. split.
  - set_solver.
  - intros k [?|?]%elem_of_app; eauto.
  - intros k Hk Hn. destruct (decide (k ∈ V1)) as [H|H].
    + destruct (R1 k H Hn) as (k0 & ? & ?). exists k0. set_solver.
    + destruct (R2 k Hk H) as (k0 & ? & ?). exists k0. set_solver.
  - intros k r Hk Hn Hr. destruct (decide (k ∈ V1)) as [H|H]; [apply M2; eauto|eauto].
  - intros k. rewrite D2, D1. destruct (FindModule k m); [done|].
    destruct (decide (k ∈ V1 ∧ k ∉ V)) as [[H1 H2]|H].
    + rewrite (decide_True (P := k ∈ V2 ∧ k ∉ V)) by set_solver.
      rewrite decide_False by naive_solver. by destruct (FindModule k prev).
    + destruct (decide (k ∈ V2 ∧ k ∉ V1)) as [[H1 H2]|H'].
      * rewrite decide_True by set_solver. done.
      * rewrite decide_False; [done|]. intros [? ?]. destruct (decide (k ∈ V1)); naive_solver.
  - congruence.
Qed.

Definition unvisited V : nat := base.size (dom (modules_ prev) ∖ V).

Lemma unvisited_mono V V' : V ⊆ V' → (unvisited V' ≤ unvisited V)%nat.
Proof. intros H. unfold unvisited. apply subseteq_size. set_solver. Qed.

Lemma unvisited_less V k d : k ∉ V → FindModule k prev = Some d → (unvisited ({[k]} ∪ V) < unvisited V)%nat.
Proof.
  intros Hk Hd. unfold unvisited. apply subset_size. unfold FindModule in Hd. apply elem_of_dom_2 in Hd. split; [set_solver|]. intros H. specialize (H k). set_solver.
Qed.

Lemma reuse_list_spec fuel (l : list (name * name)) V m :
  (∀ key V m, (unvisited V < fuel)%nat → let s := ReuseModuleClosureFromImpl fuel prev key (V, m) in visited_all [key] V s.1 m s.2) →
  (unvisited V < fuel)%nat →
  let s := foldl (λ s r, ReuseModuleClosureFromImpl fuel prev r.2 s) (V, m) l in visited_all l.*2 V s.1 m s.2.
Proof.
  intros IH. revert V m. induction l as [|[ro r] l IHl]; intros V m HV; cbn [foldl]; [apply visited_nil|].
  specialize (IH r V m HV). cbn [snd]. destruct (ReuseModuleClosureFromImpl fuel prev r (V, m)) as [V1 m1]. cbn [fst snd] in IH.
  change (((ro, r) :: l).*2) with ([r] ++ l.*2). apply (visited_app [r] l.*2 V V1 _ m m1); [done|]. apply IHl. pose proof (unvisited_mono V V1 (va_mono _ _ _ _ _ IH)). lia.
Qed.

(** The walk from a key that was not visited. *)
Lemma visit_key key d V V' m m' :
  key ∉ V → FindModule key prev = Some d →
  visited_all (refs d).*2 ({[key]} ∪ V) V' (if HasModule key m then m else SetModule key d m) m' →
  visited_all [key] V V' m m'.
Proof.
  intros Hk Hd [M K R C D S]. split.
  - set_solver.
  - intros k ->%list_elem_of_singleton. set_solver.
  - intros k Hk' Hn. destruct (decide (k = key)) as [->|Hne]; [exists key; split; [set_solver|apply rtc_refl]|].
    destruct (R k) as (k0 & Hk0 & Hr); [done|set_solver|]. exists key. split; [set_solver|].
    eapply rtc_l; [|done]. by exists d.
  - intros k r Hk' Hn Hr. destruct (decide (k = key)) as [->|Hne]; [|apply (C k r); [done|set_solver|done]].
    destruct Hr as (d' & Hd' & Hin). rewrite Hd in Hd'. simplify_eq. by apply K.
  - intros k. rewrite D. unfold HasModule, FindModule, SetModule in *. destruct (decide (k = key)) as [->|Hne].
    + rewrite (decide_True (P := key ∈ V' ∧ key ∉ V)) by set_solver. case_bool_decide as H.
      * destruct H as [d' ->]. done.
      * cbn. rewrite lookup_insert_eq, <- Hd. destruct (modules_ m !! key) eqn:E; [|done]. destruct H. by eexists.
    + replace (modules_ (if bool_decide _ then m else _) !! k) with (modules_ m !! k).
      2:{ case_bool_decide; [done|]. cbn. by rewrite lookup_insert_ne. }
      destruct (modules_ m !! k); [done|]. apply decide_ext. set_solver.
  - rewrite S. by destruct (HasModule key m).
Qed.

Lemma reuse_spec fuel key V m :
  (unvisited V < fuel)%nat →
  let s := ReuseModuleClosureFromImpl fuel prev key (V, m) in visited_all [key] V s.1 m s.2.
Proof.
  revert key V m. induction fuel as [|fuel IH]; intros key V m HV; [lia|]. cbn [ReuseModuleClosureFromImpl].
  destruct (decide (key ∈ V)) as [Hk|Hk].
  { cbn. split; try done; try naive_solver; [by intros k ->%list_elem_of_singleton|].
    intros k. rewrite decide_False by naive_solver. by case_match. }
  destruct (FindModule key prev) as [d|] eqn:Hd.
  - eapply visit_key; [done|done|]. apply reuse_list_spec; [apply IH|]. pose proof (unvisited_less V key d Hk Hd). lia.
  - cbn. split; try done.
    + set_solver.
    + set_solver.
    + intros k Hk' Hn. assert (k = key) as -> by set_solver. exists key. split; [set_solver|apply rtc_refl].
    + intros k r Hk' Hn (d & E & _). assert (k = key) as -> by set_solver. congruence.
    + intros k. destruct (FindModule k m); [done|]. case_decide as H; [|done]. assert (k = key) as -> by set_solver. done.
Qed.

Lemma reuse_visited key V m m' : visited_all [key] ∅ V m m' → ∀ k, k ∈ V ↔ reach key k.
Proof.
  intros [_ K R C _ _] k. split.
  - intros Hk. destruct (R k Hk) as (k0 & ->%list_elem_of_singleton & ?); [set_solver|done].
  - assert (Hkey : key ∈ V) by (apply K; set_solver). intros Hr. clear K R. revert Hkey.
    induction Hr as [|k1 k2 k3 Hs Hr IH]; [done|]. intros H1. apply IH. by apply (C k1 k2 H1); [apply not_elem_of_empty|].
Qed.

(** C27: Reusing a module of an earlier checkpoint copies exactly
    what it needs: the walk over references ends, also when they are cyclic or
    dangling, and after it the manifest has the earlier descriptor of every
    module that is reachable from the key and that it had no entry for, all its
    own entries as they were, and nothing else. *)
Theorem reuse_closure_exact key m fuel :
  (base.size (modules_ prev) < fuel)%nat →
  let m' := (ReuseModuleClosureFromImpl fuel prev key (∅, m)).2 in
  m' = ReuseModuleClosureFrom prev key m ∧ scalars_ m' = scalars_ m ∧
  ∀ k, (∀ d, FindModule k m = Some d → FindModule k m' = Some d) ∧
       (FindModule k m = None → (reach key k → FindModule k m' = FindModule k prev) ∧
                                (¬ reach key k → FindModule k m' = None)).
Proof.
  intros Hf m'. assert (Hu : unvisited ∅ = base.size (modules_ prev)).
  { unfold unvisited. rewrite difference_empty_L. apply size_dom. }
  pose proof (reuse_spec fuel key ∅ m) as H1. pose proof (reuse_spec (base.size (modules_ prev) + 1) key ∅ m) as H2.
  rewrite Hu in H1, H2. specialize (H1 Hf). specialize (H2 ltac:(lia)). cbn zeta in H1, H2.
  fold (ReuseModuleClosureFrom prev key m) in H2. fold m' in H1.
  pose proof (reuse_visited _ _ _ _ H1) as V1. pose proof (reuse_visited _ _ _ _ H2) as V2.
  set (W1 := (ReuseModuleClosureFromImpl fuel prev key (∅, m)).1) in *.
  set (W2 := (ReuseModuleClosureFromImpl (base.size (modules_ prev) + 1) prev key (∅, m)).1) in *.
  split_and!.
  - assert (Hmod : modules_ m' = modules_ (ReuseModuleClosureFrom prev key m)).
    { apply map_eq. intros k. change (FindModule k m' = FindModule k (ReuseModuleClosureFrom prev key m)).
      rewrite (va_modules _ _ _ _ _ H1), (va_modules _ _ _ _ _ H2). destruct (FindModule k m); [done|].
      apply decide_ext. rewrite V1, V2. done. }
    pose proof (va_scalars _ _ _ _ _ H1) as S1. pose proof (va_scalars _ _ _ _ _ H2) as S2.
    destruct m', (ReuseModuleClosureFrom prev key m). cbn in *. congruence.
  - apply (va_scalars _ _ _ _ _ H1).
  - intros k. rewrite (va_modules _ _ _ _ _ H1). split; [intros d ->; done|]. intros ->. rewrite <- V1. split.
    + intros Hk. rewrite decide_True by set_solver. done.
    + intros Hk. rewrite decide_False by set_solver. done.
Qed.
End closure.

(** A cycle, a dangling reference, an entry that is already there and one that
    is not reachable. *)
Definition example_prev : CheckpointManifest.manifest Z :=
  let d p r := CheckpointManifest.MkDescriptor p [120] true r false in
  CheckpointManifest.MkManifest
    (<[[97] := d 1 [([1], [98]); ([2], [122])]]> (<[[98] := d 2 [([1], [97]); ([2], [99])]]>
      (<[[99] := d 3 []]> (<[[100] := d 4 []]> ∅)))) ∅.

Lemma reuse_closure_exact_witness :
  let own := CheckpointManifest.MkDescriptor 9 [120] true [] false in
  let m' := CheckpointManifest.ReuseModuleClosureFrom example_prev [97] (CheckpointManifest.MkManifest {[ [99] := own ]} ∅) in
  CheckpointManifest.payload <$> CheckpointManifest.FindModule [98] m' = Some 2 ∧
  CheckpointManifest.FindModule [99] m' = Some own ∧ CheckpointManifest.FindModule [100] m' = None.
Proof.
  intros own m'.
  destruct (reuse_closure_exact example_prev [97] (CheckpointManifest.MkManifest {[ [99] := own ]} ∅) 5) as (E & _ & H); [by vm_compute|].
  fold m' in E. rewrite E in H. split_and!.
  - rewrite (proj1 (proj2 (H [98]) eq_refl)); [by vm_compute|]. apply rtc_once. eexists. split; [by vm_compute|]. by left.
  - by apply (proj1 (H [99])).
  - by vm_compute.
Defined.
