(* ===== verification/ModuleKeys.v ===== *)
(** * Tables in a checkpoint

    How a vertex table and an edge table take themselves apart into named
    modules and are put together again (the key builders, DisassembleTo,
    OpenFrom and ReuseCheckpointModules of src/storages/graph/vertex_table.cc and
    edge_table.cc).  Names are byte strings; [std::to_string] of an index is its
    decimal notation. *)

From stdpp Require Import gmap strings pretty.
From S2P Require Import Prelude Values StringColumn Tables CheckpointManifest.

Definition bytes (s : string) : name := (λ a, Z.of_N (Ascii.N_of_ascii a)) <$> String.list_ascii_of_string s.
Definition to_string (n : nat) : name := bytes (pretty (N.of_nat n)).

Module VertexKeys.
Definition KeyKeys (label : name) : name := bytes "vertex_" ++ label ++ bytes "_keys".
Definition KeyIndices (label : name) : name := bytes "vertex_" ++ label ++ bytes "_indices".
Definition KeyIndexer (label : name) : name := bytes "vertex_" ++ label ++ bytes "_indexer".
Definition KeyVertexTimestamp (label : name) : name := bytes "vertex_" ++ label ++ bytes "_v_ts".
Definition KeyProperty (label : name) (index : nat) : name := bytes "vertex_" ++ label ++ bytes "_prop_" ++ to_string index.
End VertexKeys.

Module EdgeKeys.
Definition EdgeKeyBase (src edge dst suffix : name) : name :=
  bytes "edge_" ++ src ++ bytes "_" ++ edge ++ bytes "_" ++ dst ++ bytes "_" ++ suffix.
Definition KeyOutCsr (src edge dst : name) : name := EdgeKeyBase src edge dst (bytes "out_csr").
Definition KeyInCsr (src edge dst : name) : name := EdgeKeyBase src edge dst (bytes "in_csr").
Definition KeyProperty (src edge dst : name) (index : nat) : name :=
  EdgeKeyBase src edge dst (bytes "prop_" ++ to_string index).
Definition ScalarKey (src edge dst field : name) : name :=
  bytes "edge_" ++ src ++ bytes "_" ++ edge ++ bytes "_" ++ dst ++ bytes "/" ++ field.
End EdgeKeys.

Module Snapshot.
Import CheckpointManifest.

(** The leaf modules of a vertex table; the indexer is a descriptor with its
    counters and two columns. *)
Record vertex_parts (M P : Type) := MkVertexParts {
  v_indexer : ModuleDescriptor P;
  v_keys : M;
  v_indices : M;
  v_columns : list M;
  v_timestamp : M
}.
Arguments MkVertexParts {M P}. Arguments v_indexer {M P}. Arguments v_keys {M P}. Arguments v_indices {M P}.
Arguments v_columns {M P}. Arguments v_timestamp {M P}.

(** Those of an edge table; [e_table] is there when the edges are not bundled.
    Scalars are kept as text. *)
Record edge_parts (M : Type) := MkEdgeParts {
  e_out : M;
  e_in : M;
  e_table : option (list M * name);
  e_capacity : name
}.
Arguments MkEdgeParts {M}. Arguments e_out {M}. Arguments e_in {M}. Arguments e_table {M}. Arguments e_capacity {M}.

Section orchestration.
Context {M P : Type} (dump : name → M → manifest P → manifest P).

(** The broker and the manifest. *)
Definition state : Type := gmap name M * manifest P.
Implicit Types (s : state).

Definition with_broker {A} (m : st (gmap name M) A) : st state A := on fst (λ b s, (b, s.2)) m.
Definition with_meta (f : manifest P → manifest P) : st state unit := λ s, ((s.1, f s.2), Ok tt).
Definition set_module (n : name) (x : M) : st state unit := with_broker (update (ModuleBroker.SetModule n x)).
Definition take (n : name) : st state M := with_broker (ModuleBroker.TakeModuleAs n).

(** Columns dump themselves under numbered names. *)
Definition dump_columns (key : nat → name) (cols : list M) : st state unit :=
  for_each (imap (λ i c, (key i, c)) cols) (λ p, with_meta (dump p.1 p.2)).

Fixpoint take_columns (keys : list name) : st state (list M) :=
  match keys with
  | [] => mret []
  | n :: keys => c ← take n; cs ← take_columns keys; mret (c :: cs)
  end.

Definition DisassembleVertex (label : name) (t : vertex_parts M P) : st state unit :=
  with_meta (SetModule (VertexKeys.KeyIndexer label) (v_indexer t)) ;;
  set_module (VertexKeys.KeyKeys label) (v_keys t) ;;
  set_module (VertexKeys.KeyIndices label) (v_indices t) ;;
  dump_columns (VertexKeys.KeyProperty label) (v_columns t) ;;
  set_module (VertexKeys.KeyVertexTimestamp label) (v_timestamp t).

(** [None] stands for a table that is initialised empty. *)
Definition OpenVertex (label : name) (property_types : nat) : st state (option (vertex_parts M P)) :=
  s ← get_state;
  if negb (ModuleBroker.Contains (VertexKeys.KeyKeys label) s.1) then mret None
  else match FindModule (VertexKeys.KeyIndexer label) s.2 with
    | None => throw CheckFailed
    | Some indexer_desc =>
        keys ← take (VertexKeys.KeyKeys label);
        indices ← take (VertexKeys.KeyIndices label);
        cols ← take_columns (VertexKeys.KeyProperty label <$> seq 0 property_types);
        v_ts ← take (VertexKeys.KeyVertexTimestamp label);
        mret (Some (MkVertexParts indexer_desc keys indices cols v_ts))
    end.

Definition ReuseVertex (label : name) (property_types : nat) (prev m : manifest P) : manifest P :=
  if negb (HasModule (VertexKeys.KeyKeys label) prev) then m
  else
    foldl (λ m key, ReuseModuleClosureFrom prev key m) m
      ([VertexKeys.KeyKeys label; VertexKeys.KeyIndices label; VertexKeys.KeyIndexer label;
        VertexKeys.KeyVertexTimestamp label] ++ (VertexKeys.KeyProperty label <$> seq 0 property_types)).

(** A triplet of labels. *)
Definition triplet : Type := name * name * name.

Definition DisassembleEdge (e : triplet) (t : edge_parts M) : st state unit :=
  let '(src, edge, dst) := e in
  set_module (EdgeKeys.KeyOutCsr src edge dst) (e_out t) ;;
  set_module (EdgeKeys.KeyInCsr src edge dst) (e_in t) ;;
  match e_table t with
  | Some (cols, table_idx) =>
      dump_columns (EdgeKeys.KeyProperty src edge dst) cols ;;
      with_meta (SetScalar (EdgeKeys.ScalarKey src edge dst (bytes "table_idx")) table_idx)
  | None => mret tt
  end ;;
  with_meta (SetScalar (EdgeKeys.ScalarKey src edge dst (bytes "capacity")) (e_capacity t)).

(** [properties] is the number of properties of an edge that is not bundled. *)
Definition OpenEdge (e : triplet) (properties : option nat) : st state (option (edge_parts M)) :=
  let '(src, edge, dst) := e in
  s ← get_state;
  if negb (ModuleBroker.Contains (EdgeKeys.KeyOutCsr src edge dst) s.1) then mret None
  else
    in_csr ← take (EdgeKeys.KeyInCsr src edge dst);
    out_csr ← take (EdgeKeys.KeyOutCsr src edge dst);
    table ← match properties with
            | Some n =>
                cols ← take_columns (EdgeKeys.KeyProperty src edge dst <$> seq 0 n);
                mret (Some (cols, default (bytes "0") (GetScalar (EdgeKeys.ScalarKey src edge dst (bytes "table_idx")) s.2)))
            | None => mret None
            end;
    mret (Some (MkEdgeParts out_csr in_csr table
                  (default (bytes "0") (GetScalar (EdgeKeys.ScalarKey src edge dst (bytes "capacity")) s.2)))).

(** The tables of a graph into one broker, which then writes its modules: a
    table that was not changed is linked to the modules of the checkpoint
    before. *)
Definition checkpoint_vertex (prev : option (manifest P)) (t : name * (bool * vertex_parts M P)) : st state unit :=
  let '(label, (dirty, parts)) := t in
  if (dirty : bool) then DisassembleVertex label parts
  else match prev with
    | Some prev => with_meta (ReuseVertex label (length (v_columns parts)) prev)
    | None => mret tt
    end.

Definition DumpVertices (prev : option (manifest P)) (tables : list (name * (bool * vertex_parts M P))) : manifest P :=
  let s := (for_each tables (checkpoint_vertex prev) (∅, CheckpointManifest.empty)).1 in ModuleBroker.Dump dump s.1 s.2.

Definition DumpEdges (tables : list (triplet * edge_parts M)) : manifest P :=
  let s := (for_each tables (λ t, DisassembleEdge t.1 t.2) (∅, CheckpointManifest.empty)).1 in
  ModuleBroker.Dump dump s.1 s.2.

(** All labels of a schema, with their numbers of properties. *)
Fixpoint OpenVertices (labels : list (name * nat)) : st state (list (option (vertex_parts M P))) :=
  match labels with
  | [] => mret []
  | (l, n) :: labels => t ← OpenVertex l n; ts ← OpenVertices labels; mret (t :: ts)
  end.

End orchestration.
End Snapshot.

(** ** Names *)

Lemma bytes_inj s s' : bytes s = bytes s' → s = s'.
Proof.
  intros H. rewrite <- (String.string_of_list_ascii_of_string s), <- (String.string_of_list_ascii_of_string s'). f_equal.
  revert H. unfold bytes. apply list_fmap_eq_inj. intros a b H.
  rewrite <- (Ascii.ascii_N_embedding a), <- (Ascii.ascii_N_embedding b). f_equal. lia.
Qed.

Definition underscore : Z := 95.
Definition digit (z : Z) : Prop := 48 ≤ z ≤ 57.

Lemma pretty_char_digit n : digit (Z.of_N (Ascii.N_of_ascii (pretty_N_char n))).
Proof. unfold pretty_N_char. by repeat case_match. Qed.

Lemma pretty_go_digits x s : Forall digit (bytes s) → Forall digit (bytes (pretty_N_go x s)).
Proof.
  revert s. induction (N.lt_wf_0 x) as [x _ IH]; intros s Hs.
  assert (x = 0 ∨ 0 < x)%N as [->|Hx] by lia; [by rewrite pretty_N_go_0|].
  rewrite pretty_N_go_step by done. apply IH; [by apply N.div_lt|].
  constructor; [|done]. apply pretty_char_digit.
Qed.

Lemma to_string_digits n : Forall digit (to_string n).
Proof.
  unfold to_string, pretty, pretty_N. case_decide; [by repeat constructor|]. apply pretty_go_digits. constructor.
Qed.

Lemma to_string_inj n m : to_string n = to_string m → n = m.
Proof. intros H. apply bytes_inj, (inj pretty) in H. lia. Qed.

(** The last underscore splits a name in one way. *)
Lemma last_segment_inj (x y d e : name) :
  underscore ∉ d → underscore ∉ e → x ++ underscore :: d = y ++ underscore :: e → x = y ∧ d = e.
Proof.
  revert y. induction x as [|c x IH]; intros [|c' y] Hd He H; cbn in H.
  - by injection H as ->.
  - injection H as <- ->. destruct Hd. set_solver.
  - injection H as -> <-. destruct He. set_solver.
  - injection H as -> H. by destruct (IH y Hd He H) as [-> ->].
Qed.

(** The five kinds of names of a vertex table. *)
Inductive vkey := KKeys | KIndices | KIndexer | KTimestamp | KProp (i : nat).

Definition vertex_key (k : vkey) (label : name) : name :=
  match k with
  | KKeys => VertexKeys.KeyKeys label
  | KIndices => VertexKeys.KeyIndices label
  | KIndexer => VertexKeys.KeyIndexer label
  | KTimestamp => VertexKeys.KeyVertexTimestamp label
  | KProp i => VertexKeys.KeyProperty label i
  end.

Definition middle (k : vkey) : name := match k with KTimestamp => bytes "_v" | KProp _ => bytes "_prop" | _ => [] end.
Definition segment (k : vkey) : name :=
  match k with
  | KKeys => bytes "keys" | KIndices => bytes "indices" | KIndexer => bytes "indexer" | KTimestamp => bytes "ts"
  | KProp i => to_string i
  end.

Lemma vertex_key_split k l : vertex_key k l = (bytes "vertex_" ++ l ++ middle k) ++ underscore :: segment k.
Proof.
  destruct k; cbn [vertex_key middle segment];
    unfold VertexKeys.KeyKeys, VertexKeys.KeyIndices, VertexKeys.KeyIndexer, VertexKeys.KeyVertexTimestamp, VertexKeys.KeyProperty;
    rewrite ?app_nil_r, <- ?app_assoc; done.
Qed.

Lemma segment_underscore k : underscore ∉ segment k.
Proof.
  destruct k as [| | | |i]; try (by apply (bool_decide_unpack _); vm_compute). cbn. intros H.
  pose proof (to_string_digits i) as Hd. rewrite Forall_forall in Hd. specialize (Hd _ H). unfold digit, underscore in Hd. lia.
Qed.

Lemma segment_inj k k' : segment k = segment k' → k = k'.
Proof.
  assert (Hd : ∀ i s, to_string i = s → Forall digit s) by (intros i s <-; apply to_string_digits).
  destruct k, k'; cbn [segment]; intros H; try done; try (by f_equal; apply to_string_inj);
    exfalso; first [apply Hd in H|symmetry in H; apply Hd in H]; inversion H as [|z t Hz]; vm_compute in Hz; naive_solver.
Qed.

Lemma vertex_key_inj k k' l l' : vertex_key k l = vertex_key k' l' → k = k' ∧ l = l'.
Proof.
  rewrite !vertex_key_split. intros H. apply last_segment_inj in H as [H Hs]; [|apply segment_underscore..].
  apply segment_inj in Hs as <-. split; [done|]. apply (inj (app _)) in H. by apply (inj (.++ middle k)) in H.
Qed.

(** ** Round trips *)

Section roundtrip.
Import CheckpointManifest Snapshot.
Context {M P : Type} (dump : name → M → manifest P → manifest P) (load : manifest P → ModuleDescriptor P → option (res M)).

(** Modules that write one entry, [own x], and what reading it back gives, be it the
    same module or not. *)
Context (own : M → ModuleDescriptor P) (reread : M → M).
Context (dump_leaf : ∀ n x m, dump n x m = CheckpointManifest.SetModule n (own x) m).
Implicit Types (s : state (M := M) (P := P)) (l : name) (t : vertex_parts M P).

Lemma find_set_eq n d (m : manifest P) : FindModule n (CheckpointManifest.SetModule n d m) = Some d.
Proof. apply lookup_insert_eq. Qed.
Lemma find_set_ne n k d (m : manifest P) : n ≠ k → FindModule k (CheckpointManifest.SetModule n d m) = FindModule k m.
Proof. apply lookup_insert_ne. Qed.

Lemma broker_dump_lookup (b : gmap name M) (m : manifest P) n :
  FindModule n (ModuleBroker.Dump dump b m) = match b !! n with Some x => Some (own x) | None => FindModule n m end.
Proof.
  unfold ModuleBroker.Dump.
  apply (map_fold_weak_ind (λ r b, ∀ n, FindModule n r = match b !! n with Some x => Some (own x) | None => FindModule n m end)).
  - intros k. by rewrite lookup_empty.
  - intros k x b' r _ IH k'. rewrite dump_leaf. unfold FindModule, CheckpointManifest.SetModule in *. cbn.
    destruct (decide (k' = k)) as [->|Hne]; [by rewrite !lookup_insert_eq|]. by rewrite !lookup_insert_ne by done.
Qed.

(** Every entry is that of a module, or one that no class opens. *)
Definition sound (m : manifest P) : Prop := ∀ k d, FindModule k m = Some d → module_type d = [] ∨ ∃ x, d = own x.

Lemma sound_set k d m : sound m → module_type d = [] ∨ (∃ x, d = own x) → sound (CheckpointManifest.SetModule k d m).
Proof.
  intros Hm Hd k' d'. destruct (decide (k = k')) as [->|Hne]; [rewrite find_set_eq; by intros [= <-]|].
  rewrite find_set_ne by done. apply Hm.
Qed.

Lemma sound_dump b m : sound m → sound (ModuleBroker.Dump dump b m).
Proof.
  intros Hm k d. rewrite broker_dump_lookup. destruct (b !! k); [intros [= <-]; eauto|apply Hm].
Qed.

Lemma dump_columns_run (key : nat → name) (cols : list M) s :
  (∀ i j, key i = key j → i = j) →
  ∃ m, dump_columns dump key cols s = ((s.1, m), Ok tt) ∧
    (∀ i c, cols !! i = Some c → FindModule (key i) m = Some (own c)) ∧
    (∀ n, (∀ i, n ≠ key i) → FindModule n m = FindModule n s.2) ∧ (sound s.2 → sound m).
Proof.
  revert key s. induction cols as [|c cols IH]; intros key s Hinj.
  { exists s.2. split_and!; [by destruct s|done|done|done]. }
  destruct (IH (λ i, key (S i)) (s.1, dump (key 0%nat) c s.2)) as (m & E & Hm & Hn & Hs).
  { intros i j H. apply Hinj in H. lia. }
  cbn [snd] in Hn, Hs. rewrite dump_leaf in Hn, Hs. exists m. split_and!.
  - exact E.
  - intros [|i] x; cbn; [|apply Hm]. intros [= <-]. rewrite Hn; [apply find_set_eq|]. intros i H. apply Hinj in H. lia.
  - intros n H. rewrite Hn by (intros; apply H). apply find_set_ne. intros E'. by apply (H 0%nat).
  - intros H. apply Hs. apply sound_set; eauto.
Qed.

(** The names of a table lead to its parts. *)
Record stored s l t : Prop := {
  so_keys : s.1 !! vertex_key KKeys l = Some (v_keys t);
  so_indices : s.1 !! vertex_key KIndices l = Some (v_indices t);
  so_ts : s.1 !! vertex_key KTimestamp l = Some (v_timestamp t);
  so_indexer : FindModule (vertex_key KIndexer l) s.2 = Some (v_indexer t);
  so_columns : ∀ i c, v_columns t !! i = Some c → FindModule (vertex_key (KProp i) l) s.2 = Some (own c)
}.

Definition in_manifest (k : vkey) : Prop := match k with KIndexer | KProp _ => True | _ => False end.

Ltac key_ne := intros HK; apply vertex_key_inj in HK as [? ?]; simplify_eq; naive_solver.

Lemma disassemble_stored l t s :
  ∃ s', DisassembleVertex dump l t s = (s', Ok tt) ∧ stored s' l t ∧
    (∀ k l', l' ≠ l → s'.1 !! vertex_key k l' = s.1 !! vertex_key k l' ∧
                      FindModule (vertex_key k l') s'.2 = FindModule (vertex_key k l') s.2) ∧
    (∀ k l', in_manifest k → s'.1 !! vertex_key k l' = s.1 !! vertex_key k l') ∧
    (module_type (v_indexer t) = [] → sound s.2 → sound s'.2).
Proof.
  set (m1 := CheckpointManifest.SetModule (vertex_key KIndexer l) (v_indexer t) s.2).
  set (b1 := <[vertex_key KIndices l := v_indices t]> (<[vertex_key KKeys l := v_keys t]> s.1)).
  destruct (dump_columns_run (VertexKeys.KeyProperty l) (v_columns t) (b1, m1)) as (m & E & Hm & Hn & Hsd).
  { intros i j H. apply (vertex_key_inj (KProp i) (KProp j)) in H as [[= ->] _]. done. }
  exists (<[vertex_key KTimestamp l := v_timestamp t]> b1, m). split_and!.
  - transitivity ((dump_columns dump (VertexKeys.KeyProperty l) (v_columns t) ;;
                   set_module (VertexKeys.KeyVertexTimestamp l) (v_timestamp t)) (b1, m1)); [done|].
    erewrite st_bind_ok; [|exact E]. done.
  - split; cbn [fst snd].
    + unfold b1. rewrite !lookup_insert_ne by key_ne. by rewrite lookup_insert_eq.
    + unfold b1. rewrite lookup_insert_ne by key_ne. by rewrite lookup_insert_eq.
    + by rewrite lookup_insert_eq.
    + rewrite Hn by (intros i; change (VertexKeys.KeyProperty l i) with (vertex_key (KProp i) l); key_ne).
      apply find_set_eq.
    + exact Hm.
  - intros k l' Hl. cbn [fst snd]. split.
    + unfold b1. by rewrite !lookup_insert_ne by key_ne.
    + rewrite Hn by (intros i; change (VertexKeys.KeyProperty l i) with (vertex_key (KProp i) l); key_ne).
      apply find_set_ne. key_ne.
  - intros k l' Hk. cbn [fst]. unfold b1. destruct k; try done; by rewrite !lookup_insert_ne by key_ne.
  - intros Ht Hs. apply Hsd. apply sound_set; [done|by left].
Qed.

Lemma stored_other s s' l t :
  (∀ k, s'.1 !! vertex_key k l = s.1 !! vertex_key k l ∧
                 FindModule (vertex_key k l) s'.2 = FindModule (vertex_key k l) s.2) → stored s l t → stored s' l t.
Proof.
  intros Hk [H1 H2 H3 H4 H5]. split; rewrite ?(proj1 (Hk _)), ?(proj2 (Hk _)); try done.
  intros i c Hc. rewrite (proj2 (Hk _)). eauto.
Qed.

(** The names of a table in a manifest. *)
Record listed (m : manifest P) l t : Prop := {
  li_keys : FindModule (vertex_key KKeys l) m = Some (own (v_keys t));
  li_indices : FindModule (vertex_key KIndices l) m = Some (own (v_indices t));
  li_ts : FindModule (vertex_key KTimestamp l) m = Some (own (v_timestamp t));
  li_indexer : FindModule (vertex_key KIndexer l) m = Some (v_indexer t);
  li_columns : ∀ i c, v_columns t !! i = Some c → FindModule (vertex_key (KProp i) l) m = Some (own c)
}.

Section reuse.
Context (prev : manifest P).

(** [m'] has what [m] has, and entries of the earlier manifest besides. *)
Definition extends (m m' : manifest P) : Prop :=
  ∀ k, match FindModule k m with
       | Some d => FindModule k m' = Some d
       | None => FindModule k m' = None ∨ FindModule k m' = FindModule k prev
       end.

Lemma reuse_one key m :
  extends m (ReuseModuleClosureFrom prev key m) ∧
  (FindModule key m = None → FindModule key (ReuseModuleClosureFrom prev key m) = FindModule key prev).
Proof.
  pose proof (reuse_spec prev (base.size (modules_ prev) + 1) key ∅ m) as H. unfold unvisited in H.
  rewrite difference_empty_L, size_dom in H. specialize (H ltac:(lia)). cbn zeta in H.
  fold (ReuseModuleClosureFrom prev key m) in H. split.
  - intros k. rewrite (va_modules _ _ _ _ _ _ H). destruct (FindModule k m); [done|]. case_decide; auto.
  - intros E. rewrite (va_modules _ _ _ _ _ _ H), E. apply decide_True. split; [|set_solver].
    apply (va_keys _ _ _ _ _ _ H). by left.
Qed.

Lemma sound_extends m m' : sound prev → sound m → extends m m' → sound m'.
Proof.
  intros Hp Hm He k d Hk. specialize (He k). destruct (FindModule k m) as [d'|] eqn:E.
  - rewrite Hk in He. injection He as ->. by apply (Hm k).
  - destruct He as [He|He]; [congruence|]. rewrite Hk in He. by apply (Hp k).
Qed.

Lemma extends_refl m : extends m m.
Proof. intros k. destruct (FindModule k m); auto. Qed.

Lemma extends_trans m1 m2 m3 : extends m1 m2 → extends m2 m3 → extends m1 m3.
Proof.
  intros H1 H2 k. specialize (H1 k). specialize (H2 k). destruct (FindModule k m1) as [d|] eqn:E1.
  - rewrite H1 in H2. done.
  - destruct (FindModule k m2) as [d|] eqn:E2; [|done]. destruct H1 as [H1|H1]; [done|]. right. by rewrite H2.
Qed.

Lemma reuse_all keys m :
  extends m (foldl (λ m key, ReuseModuleClosureFrom prev key m) m keys) ∧
  ∀ key, key ∈ keys → (FindModule key m = None ∨ FindModule key m = FindModule key prev) →
    FindModule key (foldl (λ m key, ReuseModuleClosureFrom prev key m) m keys) = FindModule key prev.
Proof.
  revert m. induction keys as [|key keys IH]; intros m; cbn [foldl]; [split; [apply extends_refl|by intros ? ?%elem_of_nil]|].
  destruct (reuse_one key m) as [H1 H2]. destruct (IH (ReuseModuleClosureFrom prev key m)) as [H3 H4].
  split; [by eapply extends_trans|]. intros k Hk Hm.
  assert (Hm1 : FindModule k (ReuseModuleClosureFrom prev key m) = None ∨ FindModule k (ReuseModuleClosureFrom prev key m) = FindModule k prev).
  { specialize (H1 k). destruct (FindModule k m) eqn:E; [|done]. rewrite H1. destruct Hm as [?|<-]; [done|by right]. }
  apply elem_of_cons in Hk as [->|Hk]; [|by apply H4].
  assert (Hp : FindModule key (ReuseModuleClosureFrom prev key m) = FindModule key prev).
  { specialize (H1 key). destruct (FindModule key m) eqn:E; [|by apply H2]. rewrite H1. by destruct Hm as [?|<-]. }
  specialize (H3 key). rewrite Hp in H3. destruct (FindModule key prev) eqn:Ep; [done|].
  destruct H3 as [->| ->]; done.
Qed.

Lemma reuse_listed l t m :
  listed prev l t →
  (∀ k, FindModule (vertex_key k l) m = None ∨ FindModule (vertex_key k l) m = FindModule (vertex_key k l) prev) →
  let m' := ReuseVertex l (length (v_columns t)) prev m in listed m' l t ∧ extends m m'.
Proof.
  intros Hl Hm. cbv zeta. unfold ReuseVertex.
  assert (Hh : HasModule (VertexKeys.KeyKeys l) prev = true) 
    by (apply bool_decide_true; eexists; exact (li_keys _ _ _ Hl)).
  rewrite Hh. cbn [negb]. set (keys := _ ++ _). destruct (reuse_all keys m) as [H1 H2]. split; [|done].
  assert (H : ∀ k d, vertex_key k l ∈ keys → FindModule (vertex_key k l) prev = Some d →
    FindModule (vertex_key k l) (foldl (λ m key, ReuseModuleClosureFrom prev key m) m keys) = Some d).
  { intros k d Hk <-. by apply H2. }
  assert (Hfix : ∀ k, k ∈ [KKeys; KIndices; KIndexer; KTimestamp] → vertex_key k l ∈ keys).
  { intros k Hk. apply elem_of_app. left. apply (list_elem_of_fmap_2 (λ k, vertex_key k l) [KKeys; KIndices; KIndexer; KTimestamp] k Hk). }
  split; try (apply H; [apply Hfix; set_solver|apply Hl]). intros i c Hc. apply H; [|by apply Hl].
  apply elem_of_app. right. apply (list_elem_of_fmap_2 (VertexKeys.KeyProperty l)). apply elem_of_seq.
  apply lookup_lt_Some in Hc. lia.
Qed.
End reuse.

(** ** Opening *)

Context (own_opens : ∀ x, ModuleBroker.opens (own x) = true) (load_own : ∀ m x, load m (own x) = Some (Ok (reread x))).

(** As [stored], with every module in the broker. *)
Record opened s l t : Prop := {
  op_keys : s.1 !! vertex_key KKeys l = Some (v_keys t);
  op_indices : s.1 !! vertex_key KIndices l = Some (v_indices t);
  op_ts : s.1 !! vertex_key KTimestamp l = Some (v_timestamp t);
  op_columns : ∀ i c, v_columns t !! i = Some c → s.1 !! vertex_key (KProp i) l = Some c;
  op_indexer : FindModule (vertex_key KIndexer l) s.2 = Some (v_indexer t)
}.

(** What is read back of a table. *)
Definition reread_parts t : vertex_parts M P :=
  MkVertexParts (v_indexer t) (reread (v_keys t)) (reread (v_indices t)) (reread <$> v_columns t) (reread (v_timestamp t)).

Lemma open_sound (m : manifest P) :
  sound m → ∃ b, ModuleBroker.Open load m = Ok b ∧ ∀ n x, FindModule n m = Some (own x) → b !! n = Some (reread x).
Proof.
  assert (Hall : ∀ ms, (∀ k d, ms !! k = Some d → module_type d = [] ∨ ∃ x, d = own x) →
    ∃ b, map_fold (λ n desc r, b ← r; ModuleBroker.open_entry load m n desc b) (Ok ∅) ms = Ok b ∧
         ∀ n x, ms !! n = Some (own x) → b !! n = Some (reread x)); [|exact (Hall (modules_ m))].
  intros ms. apply (map_fold_weak_ind (λ r ms, (∀ k d, ms !! k = Some d → module_type d = [] ∨ ∃ x, d = own x) →
    ∃ b, r = Ok b ∧ ∀ n x, ms !! n = Some (own x) → b !! n = Some (reread x))).
  - intros _. exists ∅. split; [done|]. intros n x. by rewrite lookup_empty.
  - intros k d ms' r Hk IH Hs. destruct IH as (b & -> & Hb).
    { intros k' d' Hk'. apply (Hs k'). rewrite lookup_insert_ne; [done|]. intros ->. congruence. }
    cbn [mbind res_bind]. destruct (Hs k d) as [Ht|[x ->]]; [by rewrite lookup_insert_eq|..].
    + exists b. unfold ModuleBroker.open_entry, ModuleBroker.opens. rewrite Ht, bool_decide_true, andb_false_r by done. split; [done|].
      intros n x. destruct (decide (k = n)) as [->|Hne]; [|rewrite lookup_insert_ne by done; apply Hb].
      rewrite lookup_insert_eq. intros [= ->]. pose proof (own_opens x) as Ho. unfold ModuleBroker.opens in Ho.
      by rewrite Ht, bool_decide_true, andb_false_r in Ho.
    + exists (<[k := reread x]> b). unfold ModuleBroker.open_entry. rewrite own_opens, load_own. split; [done|].
      intros n y. destruct (decide (k = n)) as [->|Hne]; [|rewrite !lookup_insert_ne by done; apply Hb].
      rewrite !lookup_insert_eq. intros [= E]. pose proof (load_own m x) as H1. rewrite E, load_own in H1. by injection H1 as ->.
Qed.

Lemma listed_opened b m l t :
  (∀ n x, FindModule n m = Some (own x) → b !! n = Some (reread x)) → listed m l t → opened (b, m) l (reread_parts t).
Proof.
  intros Hb [H1 H2 H3 H4 H5]. split; cbn [fst snd]; try (by apply Hb); [|done].
  intros i c. cbn [reread_parts v_columns]. rewrite list_lookup_fmap. destruct (v_columns t !! i) as [c0|] eqn:Hc; [|done].
  intros [= <-]. apply Hb. by apply H5.
Qed.

Lemma stored_listed s l t :
  (∀ k, in_manifest k → s.1 !! vertex_key k l = None) → stored s l t → listed (ModuleBroker.Dump dump s.1 s.2) l t.
Proof.
  intros Hs [H1 H2 H3 H4 H5]. split; rewrite ?broker_dump_lookup.
  - by rewrite H1.
  - by rewrite H2.
  - by rewrite H3.
  - by rewrite Hs.
  - intros i c Hc. rewrite broker_dump_lookup, Hs by done. by apply H5.
Qed.

Lemma take_run n x s : s.1 !! n = Some x → Snapshot.take n s = ((delete n s.1, s.2), Ok x).
Proof. intros H. unfold Snapshot.take, with_broker, on, ModuleBroker.TakeModuleAs. by rewrite H. Qed.

Lemma take_columns_run keys cols s :
  NoDup keys → Forall2 (λ n c, s.1 !! n = Some c) keys cols →
  ∃ b, take_columns keys s = ((b, s.2), Ok cols) ∧ ∀ n, n ∉ keys → b !! n = s.1 !! n.
Proof.
  intros Hnd Hk. revert Hnd s Hk. revert cols. induction keys as [|n keys IH]; intros cols Hnd s Hk; inversion Hk as [|? c ? cols' Hn Hk']; subst.
  { exists s.1. split; [by destruct s|done]. }
  apply NoDup_cons in Hnd as [Hni Hnd]. destruct (IH cols' Hnd (delete n s.1, s.2)) as (b & E & Hb).
  { apply Forall2_same_length_lookup_2; [by eapply Forall2_length|]. intros i k x Hki Hx. cbn.
    rewrite lookup_delete_ne; [by eapply (Forall2_lookup_lr _ _ _ _ _ _ Hk')|]. intros ->. apply Hni. by eapply list_elem_of_lookup_2. }
  exists b. split.
  - cbn [take_columns]. erewrite st_bind_ok; [|by apply take_run].
    erewrite st_bind_ok; [|exact E]. done.
  - intros k Hk2. rewrite not_elem_of_cons in Hk2. rewrite Hb by apply Hk2. cbn. by rewrite lookup_delete_ne by naive_solver.
Qed.

Lemma open_vertex_run s l t :
  opened s l t →
  ∃ b, OpenVertex l (length (v_columns t)) s = ((b, s.2), Ok (Some t)) ∧
    ∀ k l', l' ≠ l → b !! vertex_key k l' = s.1 !! vertex_key k l'.
Proof.
  intros [H1 H2 H3 H4 H5]. set (s1 := (delete (vertex_key KKeys l) s.1, s.2)).
  set (s2 := (delete (vertex_key KIndices l) s1.1, s.2)).
  destruct (take_columns_run (VertexKeys.KeyProperty l <$> seq 0 (length (v_columns t))) (v_columns t) s2) as (b & E & Hb).
  - apply NoDup_fmap_2_strong; [|apply NoDup_seq]. intros i j _ _ H. apply (vertex_key_inj (KProp i) (KProp j)) in H as [[= ->] _]. done.
  - apply Forall2_same_length_lookup_2; [by rewrite length_fmap, length_seq|]. intros i n c Hn Hc.
    apply list_lookup_fmap_Some in Hn as (j & -> & Hj). apply lookup_seq in Hj as [-> _]. cbn [s2 s1 fst].
    change (VertexKeys.KeyProperty l (0 + i)) with (vertex_key (KProp i) l). rewrite !lookup_delete_ne by key_ne. by apply H4.
  - assert (Hts : b !! vertex_key KTimestamp l = Some (v_timestamp t)).
    { rewrite Hb; [cbn [s2 s1 fst]; by rewrite !lookup_delete_ne by key_ne|].
      intros (j & HK & _)%list_elem_of_fmap. by apply (vertex_key_inj KTimestamp (KProp j)) in HK as [? _]. }
    exists (delete (vertex_key KTimestamp l) b). split.
    + unfold OpenVertex. erewrite st_bind_ok; [|done]. unfold ModuleBroker.Contains.
      change (VertexKeys.KeyKeys l) with (vertex_key KKeys l). change (VertexKeys.KeyIndexer l) with (vertex_key KIndexer l).
      rewrite H1, H5. rewrite bool_decide_true by (by eexists). cbn [negb].
      erewrite st_bind_ok; [|by apply (take_run (vertex_key KKeys l) (v_keys t))].
      erewrite st_bind_ok; [|apply (take_run (vertex_key KIndices l) (v_indices t)); cbn [fst]; by rewrite lookup_delete_ne by key_ne].
      erewrite st_bind_ok; [|exact E].
      erewrite st_bind_ok; [|by apply (take_run (vertex_key KTimestamp l) (v_timestamp t))]. by destruct t.
    + intros k l' Hl. rewrite lookup_delete_ne by key_ne. rewrite Hb; [cbn [s2 s1 fst]; by rewrite !lookup_delete_ne by key_ne|].
      intros (j & HK & _)%list_elem_of_fmap. by apply (vertex_key_inj k (KProp j)) in HK as [_ ?].
Qed.

Lemma open_vertices_run tables s :
  NoDup tables.*1 → Forall (λ x, opened s x.1 x.2) tables →
  (OpenVertices ((λ x, (x.1, length (v_columns x.2))) <$> tables) s).2 = Ok ((λ x, Some x.2) <$> tables).
Proof.
  revert s. induction tables as [|[l t] tables IH]; intros s Hnd Ho; [done|].
  apply NoDup_cons in Hnd as [Hl Hnd]. apply Forall_cons in Ho as [Ht Ho]. cbn [fmap list_fmap OpenVertices fst snd] in *.
  destruct (open_vertex_run s l t Ht) as (b & E & Hb). erewrite st_bind_ok; [|exact E].
  specialize (IH (b, s.2) Hnd). destruct (OpenVertices _ (b, s.2)) as [s' r] eqn:Er. cbn in IH. rewrite IH in Er.
  - erewrite st_bind_ok; [|exact Er]. done.
  - apply Forall_forall. intros [l' t'] Hin. rewrite Forall_forall in Ho. destruct (Ho _ Hin) as [H1 H2 H3 H4 H5]. cbn [fst snd] in *.
    assert (l' ≠ l) by (intros ->; apply Hl; by apply (list_elem_of_fmap_2 fst _ (l, t'))).
    split; cbn [fst snd]; rewrite ?Hb by done; try done. intros i c Hc. rewrite Hb by done. by apply H4.
Qed.

(** ** A whole checkpoint *)

Section checkpoint.
Context (prev : manifest P).
Implicit Types (x : name * (bool * vertex_parts M P)).

(** What the loop has done for a table, by the kind of its table. *)
Definition written s x : Prop :=
  let '(l, (dirty, t)) := x in
  if (dirty : bool) then stored s l t else listed s.2 l t ∧ ∀ k, s.1 !! vertex_key k l = None.

(** Nothing of this label is written yet. *)
Definition pending s l : Prop :=
  ∀ k, s.1 !! vertex_key k l = None ∧
    (FindModule (vertex_key k l) s.2 = None ∨ FindModule (vertex_key k l) s.2 = FindModule (vertex_key k l) prev).

Definition no_columns s : Prop := (∀ k l, in_manifest k → s.1 !! vertex_key k l = None) ∧ sound s.2.

Lemma written_reuse s m' y : written s y → extends prev s.2 m' → written (s.1, m') y.
Proof.
  assert (H : ∀ k d, FindModule k s.2 = Some d → extends prev s.2 m' → FindModule k m' = Some d).
  { intros k d Hk He. specialize (He k). by rewrite Hk in He. }
  intros Hw He. destruct y as [l [[] t]]; cbn in *.
  - destruct Hw as [H1 H2 H3 H4 H5]. split; try done; cbn [snd]; eauto.
  - destruct Hw as [[H1 H2 H3 H4 H5] Hn]. split; [|done]. split; eauto.
Qed.

Lemma written_other s s' y :
  (∀ k, s'.1 !! vertex_key k y.1 = s.1 !! vertex_key k y.1 ∧
        FindModule (vertex_key k y.1) s'.2 = FindModule (vertex_key k y.1) s.2) → written s y → written s' y.
Proof.
  intros Hk. destruct y as [l [[] t]]; cbn in *.
  - by apply stored_other.
  - intros [[H1 H2 H3 H4 H5] Hn]. split; [|intros k; rewrite (proj1 (Hk k)); apply Hn].
    split; rewrite ?(proj2 (Hk _)); try done. intros i c Hc. rewrite (proj2 (Hk _)). eauto.
Qed.

(** One round of the loop. *)
Lemma checkpoint_step x s :
  sound prev → module_type (v_indexer x.2.2) = [] →
  pending s x.1 → no_columns s → (x.2.1 = false → listed prev x.1 x.2.2) →
  ∃ s', checkpoint_vertex dump (Some prev) x s = (s', Ok tt) ∧ written s' x ∧ no_columns s' ∧
    (∀ y, y.1 ≠ x.1 → written s y → written s' y) ∧ (∀ l, l ≠ x.1 → pending s l → pending s' l).
Proof.
  intros Hsp Hti Hp [Hc Hsd] Hx. destruct x as [l [[] t]]; cbn [fst snd] in *.
  - destruct (disassemble_stored l t s) as (s' & E & Hs & Ho & Hm & Hsd'). exists s'. split_and!; [done|done| | |].
    + split; [intros k l' Hk; by rewrite Hm, Hc|by apply Hsd'].
    + intros y Hy. apply written_other. intros k. by apply Ho.
    + intros l' Hl Hp' k. destruct (Ho k l' Hl) as [-> ->]. apply Hp'.
  - destruct (reuse_listed prev l t s.2 (Hx eq_refl)) as [Hl He]; [intros k; apply Hp|].
    eexists. split_and!; [done| | | |].
    + split; [done|]. intros k. apply Hp.
    + split; [done|]. by apply (sound_extends prev s.2).
    + intros y _ Hw. by apply written_reuse.
    + intros l' _ Hp' k. split; [apply Hp'|]. cbn [snd]. specialize (He (vertex_key k l')). destruct (Hp' k) as [_ [E|E]].
      * by rewrite E in He.
      * destruct (FindModule (vertex_key k l') s.2); [right; by rewrite He|done].
Qed.

Lemma checkpoint_loop tables s done_ :
  sound prev → Forall (λ x, module_type (v_indexer x.2.2) = []) tables →
  NoDup (tables.*1 ++ done_.*1) → Forall (λ x, pending s x.1) tables → no_columns s → Forall (written s) done_ →
  Forall (λ x, x.2.1 = false → listed prev x.1 x.2.2) tables →
  ∃ s', for_each tables (checkpoint_vertex dump (Some prev)) s = (s', Ok tt) ∧ no_columns s' ∧ Forall (written s') (tables ++ done_).
Proof.
  intros Hsp. revert s done_. induction tables as [|x tables IH]; intros s done_ Hti Hnd Hp Hc Hd Hx; [by exists s|].
  apply Forall_cons in Hti as [Ht Hti].
  apply Forall_cons in Hp as [Hp Hps]. apply Forall_cons in Hx as [Hx Hxs]. cbn [fmap list_fmap app] in Hnd.
  apply NoDup_cons in Hnd as [Hni Hnd].
  destruct (checkpoint_step x s Hsp Ht Hp Hc Hx) as (s1 & E1 & Hw1 & Hc1 & Ho1 & Hp1).
  assert (Hne : ∀ y, y ∈ tables ++ done_ → y.1 ≠ x.1).
  { intros y Hy E. apply Hni. rewrite <- E, <- fmap_app. by apply list_elem_of_fmap_2. }
  destruct (IH s1 (x :: done_)) as (s' & E & Hc' & Hw').
  - done.
  - cbn [fmap list_fmap]. rewrite <- Permutation_middle. by apply NoDup_cons.
  - apply Forall_forall. intros y Hy. apply Hp1; [apply Hne; set_solver|]. rewrite Forall_forall in Hps. by apply Hps.
  - done.
  - constructor; [done|]. apply Forall_forall. intros y Hy. apply Ho1; [apply Hne; set_solver|]. rewrite Forall_forall in Hd. by apply Hd.
  - done.
  - exists s'. split_and!; [|done|].
    + cbn [for_each]. erewrite st_bind_ok; [exact E|exact E1].
    + by rewrite <- Permutation_middle in Hw'.
Qed.

(** C26: A checkpoint of the vertex tables of a graph opens to what was
    written for each of them.  The tables' modules write one entry each (composite
    columns, which also write entries of their children, are not covered) under a
    class the factory knows, and reading an entry back gives some module
    [reread x], equal to the one written or not (a string column may come back cut,
    [short_strings_cut]); the checkpoint before has only such entries and those
    of the indexers, and lists every table that was not changed.  Then the new
    manifest lists the parts of all tables, opening it does not fail,
    and gives each label what is read back of its own keys, index, timestamps and
    columns, for any label names.  Names of different labels or parts never coincide, although
    labels may contain the separator and look like the names of other parts. *)
Theorem vertex_checkpoint_opens tables :
  NoDup tables.*1 → Forall (λ x, x.2.1 = false → listed prev x.1 x.2.2) tables →
  sound prev → Forall (λ x, module_type (v_indexer x.2.2) = []) tables →
  let m := DumpVertices dump (Some prev) tables in
  Forall (λ x, listed m x.1 x.2.2) tables ∧
  ∃ b, ModuleBroker.Open load m = Ok b ∧
    (OpenVertices ((λ x, (x.1, length (v_columns x.2.2))) <$> tables) (b, m)).2 =
    Ok ((λ x, Some (reread_parts x.2.2)) <$> tables).
Proof.
  intros Hnd Hx Hsp Hti m. destruct (checkpoint_loop tables (∅, CheckpointManifest.empty) []) as (s & E & [Hc Hsd] & Hw).
  - done.
  - done.
  - by rewrite app_nil_r.
  - apply Forall_forall. intros x _ k. by split; [|left].
  - done.
  - by apply Forall_nil_2.
  - done.
  - rewrite app_nil_r in Hw. assert (Hm : m = ModuleBroker.Dump dump s.1 s.2) by (unfold m, DumpVertices; by rewrite E).
    assert (Hl : Forall (λ x, listed m x.1 x.2.2) tables).
    { eapply Forall_impl; [exact Hw|]. intros [l [[] t]] Hy; cbn in *; rewrite Hm.
      - apply stored_listed; [intros; by apply Hc|done].
      - destruct Hy as [[H1 H2 H3 H4 H5] Hn]. split; rewrite ?broker_dump_lookup, ?Hn; try done.
        intros i c Hcc. rewrite broker_dump_lookup, Hn. by apply H5. }
    split; [done|]. destruct (open_sound m) as (b & Eb & Hb); [rewrite Hm; by apply sound_dump|]. exists b. split; [done|].
    pose proof (open_vertices_run ((λ x, (x.1, reread_parts x.2.2)) <$> tables) (b, m)) as H.
    rewrite <- !list_fmap_compose in H. etrans; [|apply H].
    + f_equal. f_equal. apply list_fmap_ext. intros i x _. cbn. by rewrite length_fmap.
    + by rewrite (list_fmap_ext _ fst).
    + apply Forall_fmap. eapply Forall_impl; [exact Hl|]. intros x Hlx. by apply listed_opened.
Qed.
End checkpoint.

(** ** Edge tables *)

Lemma edge_keys_equal src e1 e2 dst suffix :
  EdgeKeys.EdgeKeyBase src (e1 ++ bytes "_" ++ e2) dst suffix = EdgeKeys.EdgeKeyBase src e1 (e2 ++ bytes "_" ++ dst) suffix.
Proof. unfold EdgeKeys.EdgeKeyBase. by rewrite <- !app_assoc. Qed.

Lemma scalar_keys_equal src e1 e2 dst field :
  EdgeKeys.ScalarKey src (e1 ++ bytes "_" ++ e2) dst field = EdgeKeys.ScalarKey src e1 (e2 ++ bytes "_" ++ dst) field.
Proof. unfold EdgeKeys.ScalarKey. by rewrite <- !app_assoc. Qed.

Lemma out_in_differ src e dst : EdgeKeys.KeyOutCsr src e dst ≠ EdgeKeys.KeyInCsr src e dst.
Proof. unfold EdgeKeys.KeyOutCsr, EdgeKeys.KeyInCsr, EdgeKeys.EdgeKeyBase. intros H. by simplify_list_eq. Qed.

Lemma dump_scalars (b : gmap name M) (m : manifest P) : scalars_ (ModuleBroker.Dump dump b m) = scalars_ m.
Proof.
  unfold ModuleBroker.Dump. apply (map_fold_weak_ind (λ r _, scalars_ r = scalars_ m)); [done|].
  intros n x b' r _ IH. by rewrite dump_leaf.
Qed.

(** A bundled table in the broker and its capacity in the manifest. *)
Lemma open_bundled s src e dst (q : edge_parts M) :
  s.1 !! EdgeKeys.KeyOutCsr src e dst = Some (e_out q) → s.1 !! EdgeKeys.KeyInCsr src e dst = Some (e_in q) → e_table q = None →
  GetScalar (EdgeKeys.ScalarKey src e dst (bytes "capacity")) s.2 = Some (e_capacity q) →
  OpenEdge (src, e, dst) None s =
    ((delete (EdgeKeys.KeyOutCsr src e dst) (delete (EdgeKeys.KeyInCsr src e dst) s.1), s.2), Ok (Some q)).
Proof.
  intros Ho Hi Ht Hc. pose proof (out_in_differ src e dst). unfold OpenEdge. erewrite st_bind_ok; [|done].
  unfold ModuleBroker.Contains. rewrite bool_decide_true by (by rewrite Ho; eexists). cbn [negb].
  erewrite st_bind_ok; [|by apply take_run]. erewrite st_bind_ok; [|apply take_run; cbn [fst]; by rewrite lookup_delete_ne by done].
  erewrite st_bind_ok; [|done]. rewrite Hc. destruct q. cbn in *. by subst.
Qed.

(** Two edge tables of one graph can have the same names in a
    checkpoint: when an edge label or a vertex label contains an
    underscore, the triplets (src, e1_e2, dst) and (src, e1, e2_dst) are
    different but get the same names, so the second table written replaces the
    first. Opening the checkpoint gives the first triplet the edges of the
    second, and finds nothing for the second, which is then initialised
    empty. *)
Theorem edge_checkpoint_collides src e1 e2 dst p q :
  e_table p = None → e_table q = None →
  let t1 := (src, e1 ++ bytes "_" ++ e2, dst) in
  let t2 := (src, e1, e2 ++ bytes "_" ++ dst) in
  let m := DumpEdges dump [(t1, p); (t2, q)] in
  ∃ b, ModuleBroker.Open load m = Ok b ∧
  let r := OpenEdge t1 None (b, m) in
  t1 ≠ t2 ∧ r.2 = Ok (Some (MkEdgeParts (reread (e_out q)) (reread (e_in q)) None (e_capacity q))) ∧
  (OpenEdge t2 None r.1).2 = Ok None.
Proof.
  intros Hp Hq t1 t2 m. set (ko := EdgeKeys.KeyOutCsr src e1 (e2 ++ bytes "_" ++ dst)).
  set (ki := EdgeKeys.KeyInCsr src e1 (e2 ++ bytes "_" ++ dst)). set (kc := EdgeKeys.ScalarKey src e1 (e2 ++ bytes "_" ++ dst) (bytes "capacity")).
  assert (Eo : EdgeKeys.KeyOutCsr src (e1 ++ bytes "_" ++ e2) dst = ko) by apply edge_keys_equal.
  assert (Ei : EdgeKeys.KeyInCsr src (e1 ++ bytes "_" ++ e2) dst = ki) by apply edge_keys_equal.
  assert (Ec : EdgeKeys.ScalarKey src (e1 ++ bytes "_" ++ e2) dst (bytes "capacity") = kc) by apply scalar_keys_equal.
  pose proof (out_in_differ src e1 (e2 ++ bytes "_" ++ dst)) as Hne. fold ko ki in Hne.
  assert (Hm : m = ModuleBroker.Dump dump (<[ki := e_in q]> (<[ko := e_out q]> (<[ki := e_in p]> (<[ko := e_out p]> ∅))))
                     (SetScalar kc (e_capacity q) (SetScalar kc (e_capacity p) CheckpointManifest.empty))).
  { unfold m, DumpEdges, t1, t2. cbn [for_each fst snd DisassembleEdge]. rewrite Hp, Hq, Eo, Ei, Ec. fold ko ki kc. done. }
  destruct (open_sound m) as (b & Eb & Hb). { rewrite Hm. apply sound_dump. intros k d. unfold FindModule. cbn. by rewrite lookup_empty. }
  exists b. split; [done|]. intros r. set (q' := MkEdgeParts (reread (e_out q)) (reread (e_in q)) None (e_capacity q)).
  assert (Hr : r = ((delete ko (delete ki b), m), Ok (Some q'))).
  { unfold r, t1. rewrite (open_bundled _ src _ dst q'), Eo, Ei; rewrite ?Eo, ?Ei, ?Ec; try done; cbn [fst snd].
    - apply Hb. rewrite Hm, broker_dump_lookup. by rewrite lookup_insert_ne, lookup_insert_eq by done.
    - apply Hb. rewrite Hm, broker_dump_lookup. by rewrite lookup_insert_eq.
    - unfold GetScalar. rewrite Hm, dump_scalars. cbn [SetScalar scalars_]. apply lookup_insert_eq. }
  split_and!.
  - intros H. injection H as H _. apply (f_equal length) in H. rewrite !length_app in H. cbn in H. lia.
  - by rewrite Hr.
  - rewrite Hr. cbn [fst]. unfold t2, OpenEdge. erewrite st_bind_ok; [|done]. unfold ModuleBroker.Contains. cbn [fst].
    fold ko. rewrite lookup_delete_eq. done.
Qed.
End roundtrip.

(** ** Modules that are numbers *)

Section example.
Import CheckpointManifest Snapshot.

(** Numbers of two digits: a larger one comes back cut. *)
Definition number_module (n : Z) : ModuleDescriptor Z := MkDescriptor n [120] true [] false.
Definition dump_number (n : name) (x : Z) (m : manifest Z) : manifest Z := CheckpointManifest.SetModule n (number_module x) m.
Definition load_number (_ : manifest Z) (d : ModuleDescriptor Z) : option (res Z) :=
  if bool_decide (module_type d = [120]) then Some (Ok (payload d mod 100)) else None.
Definition counters (n : Z) : ModuleDescriptor Z := MkDescriptor n [] true [] false.

(** The labels are names of each other's parts; "a" is linked to the checkpoint
    before. *)
Definition before : manifest Z :=
  DumpVertices dump_number (Some CheckpointManifest.empty)
    [(bytes "a", (true, MkVertexParts (counters 1) 2 3 [4; 105] 6))].
Definition two_tables : list (name * (bool * vertex_parts Z Z)) :=
  [(bytes "a_prop_0", (true, MkVertexParts (counters 11) 12 13 [14] 15));
   (bytes "a", (false, MkVertexParts (counters 1) 2 3 [4; 105] 6))].

Definition number_or_counters (d : ModuleDescriptor Z) : bool :=
  bool_decide (module_type d = []) ||
  (bool_decide (module_type d = [120]) && required d && bool_decide (refs d = []) && negb (referenced_module_ d)).

Lemma before_sound : sound number_module before.
Proof.
  assert (H : forallb (λ p, number_or_counters p.2) (map_to_list (modules_ before)) = true) by (vm_compute; reflexivity).
  intros k d Hd. unfold FindModule in Hd. apply elem_of_map_to_list in Hd. rewrite forallb_forall in H. specialize (H (k, d) (proj1 (list_elem_of_In _ _) Hd)).
  cbn [snd] in H. unfold number_or_counters in H. apply orb_true_iff in H as [H%bool_decide_eq_true|H]; [by left|right].
  exists (payload d). destruct d as [p ty req rs r]. cbn in *. rewrite !andb_true_iff, !bool_decide_eq_true, negb_true_iff in H.
  destruct H as [[[-> ->] ->] ->]. done.
Qed.

Lemma vertex_checkpoint_opens_witness :
  let m := DumpVertices dump_number (Some before) two_tables in
  ∃ b, ModuleBroker.Open load_number m = Ok b ∧
  (OpenVertices [(bytes "a_prop_0", 1%nat); (bytes "a", 2%nat)] (b, m)).2 =
    Ok [Some (MkVertexParts (counters 11) 12 13 [14] 15); Some (MkVertexParts (counters 1) 2 3 [4; 5] 6)].
Proof.
  destruct (vertex_checkpoint_opens dump_number load_number number_module (λ n, n mod 100) (λ _ _ _, eq_refl) (λ _, eq_refl)
    (λ _ _, eq_refl) before two_tables) as [_ (b & E & H)].
  - by apply (bool_decide_unpack _); vm_compute.
  - repeat constructor; try done. intros i c Hc. destruct i as [|[|i]]; cbn in Hc; simplify_eq; by vm_compute.
  - exact before_sound.
  - repeat constructor.
  - exists b. split; [exact E|exact H].
Defined.

Lemma edge_checkpoint_collides_witness :
  let m := DumpEdges dump_number
    [((bytes "a", bytes "b_c", bytes "d"), MkEdgeParts 1 2 None (bytes "7"));
     ((bytes "a", bytes "b", bytes "c_d"), MkEdgeParts 3 4 None (bytes "8"))] in
  ∃ b, ModuleBroker.Open load_number m = Ok b ∧
  (OpenEdge (bytes "a", bytes "b_c", bytes "d") None (b, m)).2 = Ok (Some (MkEdgeParts 3 4 None (bytes "8"))).
Proof.
  destruct (edge_checkpoint_collides dump_number load_number number_module (λ n, n mod 100) (λ _ _ _, eq_refl) (λ _, eq_refl)
    (λ _ _, eq_refl) (bytes "a") (bytes "b") (bytes "c") (bytes "d")
    (MkEdgeParts 1 2 None (bytes "7")) (MkEdgeParts 3 4 None (bytes "8"))) as (b & E & _ & H & _); [done..|].
  exists b. split; [exact E|exact H].
Defined.
End example.
