(* ===== verification/VertexTable.v ===== *)
(** * Vertex tables

    VertexTable (src/storages/graph/vertex_table.cc and its header): the
    primary-key indexer, the property table and the timestamps of one vertex
    label, and the operations that keep the three in step.  The view of a table
    that insert transactions write through is in graph_view.cc.  Keys, key
    columns and property columns are the interfaces of the parts below. *)

From S2P Require Import Prelude Values StringColumn VertexTimestamp LFIndexer Tables PropertyColumns.

(** ** Primary keys as values *)

Class PrimaryKey (K : Type) := {
  key_type : DataTypeId;
  GetKey : Value → option K;
  KeyValue : K → Value
}.

(** The methods of the indexer that take and return values. *)
Module KeyedIndexer.
Section operations.
Context {K KC : Type} `{!KeyColumn K KC} `{!PrimaryKey K}.
Implicit Types (x : LFIndexer.t KC) (oid : Value).

Definition supported_key_type (id : DataTypeId) : bool :=
  match id with kInt64 | kInt32 | kUInt64 | kUInt32 | kVarchar => true | _ => false end.

(** [GetValue] of another member than the type says is undefined. *)
Definition dispatch {A} oid (f : K → A) : res A :=
  if negb (supported_key_type key_type) then Throw NotSupported
  else f <$> of_option OutOfBounds (GetKey oid).

Definition insert oid (insert_safe : bool) x : LFIndexer.t KC * res Z :=
  if IsNull oid then (x, Throw StorageError)
  else if bool_decide (id_ (type_ oid) ≠ key_type) then (x, Throw StorageError)
  else match dispatch oid (λ k, LFIndexer.insert_absent_typed k insert_safe x) with
    | Ok p => p
    | Throw e => (x, Throw e)
    end.

Definition get_index oid x : res (option Z) :=
  if bool_decide (id_ (type_ oid) ≠ key_type) || IsNull oid then Ok None
  else r ← dispatch oid (λ k, LFIndexer.get_index_typed k x); r.

Definition get_key (index : Z) x : Value := KeyValue (LFIndexer.get_key index x).

(** A column of a chunk that holds keys. *)
Record key_column := MkKeyColumn {
  elem_type : DataTypeId;
  is_optional : bool;
  data : PropertyColumn.context_column
}.

(** [TypedKeyColumnAccessor]; the cast to a column of keys fails for every
    other class of column. *)
Definition accessor (col : key_column) : res (list K) :=
  if is_optional col then Throw NotSupported
  else if PropertyColumn.is_value_column (data col)
  then of_option StorageError (mapM GetKey (PropertyColumn.elems (data col)))
  else Throw StorageError.

Definition get_index_column (col : key_column) x : res (list Z) :=
  if bool_decide (elem_type col ≠ key_type) then Throw StorageError
  else if negb (supported_key_type key_type) then Throw NotSupported
  else keys ← accessor col; LFIndexer.get_index_typed_column keys x.

Definition get_or_insert (col : key_column) x : LFIndexer.t KC * res (list (Z * bool)) :=
  if bool_decide (elem_type col ≠ key_type) then (x, Throw StorageError)
  else if negb (supported_key_type key_type) then (x, Throw NotSupported)
  else match accessor col with
    | Throw e => (x, Throw e)
    | Ok keys => LFIndexer.get_or_insert_typed_column keys x
    end.

End operations.
End KeyedIndexer.

Definition MAX_TIMESTAMP : Z := 0xFFFFFFFE.

(** ** VertexTable *)

Module VertexTable.

(** What the table uses of its schema: one primary key, given by its name and
    its position among the columns of a chunk. *)
Record VertexSchema := MkSchema {
  property_names : list name;
  property_types : list DataType;
  default_property_values : list Value;
  primary_key : name * Z
}.

Record vtable (KC C : Type) := MkVTable {
  indexer_ : LFIndexer.t KC;
  table_ : Table.table C;
  v_ts_ : VertexTimestamp.t;
  vertex_schema_ : VertexSchema
}.
Arguments MkVTable {KC C}. Arguments indexer_ {KC C}. Arguments table_ {KC C}.
Arguments v_ts_ {KC C}. Arguments vertex_schema_ {KC C}.

Section operations.
Context {K KC C : Type} `{!KeyColumn K KC} `{!PrimaryKey K} `{!ColumnBase C}.
Abbreviation T := (vtable KC C).
Implicit Types (t : T).

Definition set_indexer x t : T := MkVTable x (table_ t) (v_ts_ t) (vertex_schema_ t).
Definition set_table b t : T := MkVTable (indexer_ t) b (v_ts_ t) (vertex_schema_ t).
Definition set_v_ts v t : T := MkVTable (indexer_ t) (table_ t) v (vertex_schema_ t).

Definition with_indexer {A} (m : st (LFIndexer.t KC) A) : st T A := on indexer_ set_indexer m.
Definition with_table {A} (m : st (Table.table C) A) : st T A := on table_ set_table m.
Definition with_v_ts {A} (m : st VertexTimestamp.t A) : st T A := on v_ts_ set_v_ts m.

(** [keys] is the empty column of the primary key's type. *)
Definition Init (keys : KC) (vertex_schema : VertexSchema) : res T :=
  table ← Table.New (property_names vertex_schema) (property_types vertex_schema);
  Ok (MkVTable (LFIndexer.OpenEmpty keys) table
        (VertexTimestamp.Init 0 4096 VertexTimestamp.fresh) vertex_schema).

(** ** Reads *)

Definition IsVertexValid (v ts : Z) t : bool := VertexTimestamp.IsVertexValid v ts (v_ts_ t).
Definition Size t : Z := LFIndexer.size (indexer_ t).
Definition Capacity t : Z := LFIndexer.capacity (indexer_ t).
Definition LidNum t : Z := Size t.

Definition get_index (oid : Value) (ts : Z) t : res (option Z) :=
  res ← KeyedIndexer.get_index oid (indexer_ t);
  Ok (match res with
      | Some lid => if negb (IsVertexValid lid ts t) then None else Some lid
      | None => None
      end).

Definition VertexNum (ts : Z) t : Z := VertexTimestamp.ValidVertexNum ts (Size t) (v_ts_ t).

Definition GetOid (lid ts : Z) t : res Value :=
  if Size t <=? lid then Throw InvalidArgument
  else if negb (IsVertexValid lid ts t) then Throw InvalidArgument
  else Ok (KeyedIndexer.get_key lid (indexer_ t)).

Definition IsValidLid (lid ts : Z) t : bool := (lid <? Size t) && IsVertexValid lid ts t.

(** ** Writes *)

(** [weak v] says that the weak exchange of the timestamp of vertex [v] fails
    spuriously; no call below exchanges the timestamp of a vertex twice. *)
Implicit Types (weak : Z → bool).

Definition insert_vertex_pk_internal weak (id : Value) (ts : Z) (insert_safe : bool) : st T Z :=
  t ← get_state;
  found ← lift_res (KeyedIndexer.get_index id (indexer_ t));
  vid ← match found with
        | Some vid => if IsVertexValid vid ts t then throw InvalidArgument else mret vid
        | None => with_indexer (KeyedIndexer.insert id insert_safe)
        end;
  with_v_ts (VertexTimestamp.InsertVertex (weak vid) vid ts) ;;
  mret vid.

(** [None] where the source returns false. *)
Definition AddVertex weak (id : Value) (props : list Value) (ts : Z) (insert_safe : bool) : st T (option Z) :=
  t ← get_state;
  if Capacity t <=? Size t then mret None
  else
    vid ← insert_vertex_pk_internal weak id ts insert_safe;
    with_table (Table.insert vid props insert_safe) ;;
    mret (Some vid).

(** A property is overwritten in place. *)
Definition set_in_column (index : Z) (f : C → C * res unit) (b : Table.table C) : Table.table C * res unit :=
  match Table.columns_ b !! Z.to_nat index with
  | None => (b, Throw OutOfBounds)
  | Some c => let '(c, r) := f c in (Table.set_columns (<[Z.to_nat index := c]> (Table.columns_ b)) b, r)
  end.

Definition UpdateProperty (vid prop_id : Z) (value : Value) (ts : Z) : st T bool :=
  t ← get_state;
  if Size t <=? vid then mret false
  else if negb (IsVertexValid vid ts t) then mret false
  else if (prop_id <? 0) || (i32 (Table.col_num (table_ t)) <=? prop_id) then mret false
  else with_table (set_in_column prop_id (col_set_any vid value true)) ;; mret true.

(** The table is resized when it is too small; one without columns has size 0. *)
Definition EnsureCapacity (capacity : Z) : st T Z :=
  t ← get_state;
  if capacity <=? Capacity t then mret (Capacity t)
  else
    let capacity := Z.max capacity 4096 in
    (if Capacity t <? capacity then with_indexer (LFIndexer.reserve capacity) else mret tt) ;;
    (if Table.size (table_ t) <? capacity
     then with_table (Table.resize_default capacity (default_property_values (vertex_schema_ t)))
     else mret tt) ;;
    with_v_ts (update (VertexTimestamp.Reserve capacity)) ;;
    t ← get_state; mret (Capacity t).

Definition remove (v : Z) : st T unit := with_v_ts (VertexTimestamp.RemoveVertex v) ;; mret tt.

Definition BatchDeleteVertices (vids : list Z) : st T unit :=
  for_each vids (λ v,
    t ← get_state;
    if (v <? Size t) && IsVertexValid v MAX_TIMESTAMP t then remove v else mret tt).

Definition DeleteVertex (lid ts : Z) : st T unit :=
  t ← get_state;
  if Size t <=? lid then mret tt
  else if IsVertexValid lid ts t then remove lid else mret tt.

Definition DeleteVertexById (id : Value) (ts : Z) : st T unit :=
  t ← get_state;
  found ← lift_res (get_index id ts t);
  match found with None => mret tt | Some vid => DeleteVertex vid ts end.

Definition RevertDeleteVertex (lid ts : Z) : st T unit :=
  t ← get_state;
  if VertexTimestamp.IsRemoved lid (v_ts_ t)
  then with_v_ts (VertexTimestamp.RevertRemoveVertex lid ts) else mret tt.

Definition DeleteProperties (properties : list name) : st T unit :=
  for_each properties (λ p, with_table (update (Table.delete_column p))).

Definition AddProperties (properties : list name) (types : list DataType) (default_values : list Value) : st T unit :=
  t ← get_state;
  with_table (Table.add_columns properties types default_values (Capacity t)).

Definition RenameProperties (old_names new_names : list name) : st T unit :=
  if negb (length old_names =? length new_names)%nat then throw CheckFailed
  else for_each (zip old_names new_names) (λ p, with_table (update (Table.rename_column p.1 p.2))).

Definition Compact : st T unit := with_v_ts (update VertexTimestamp.Compact).

(** ** Bulk inserts *)

(** One row of [insert_primary_keys]: the largest id marks a row whose vertex
    exists already. *)
Definition insert_row weak (p : Z * bool) : st T Z :=
  let '(vid, inserted) := p in
  if (inserted : bool) then with_v_ts (VertexTimestamp.InsertVertex (weak vid) vid 0) ;; mret vid
  else
    t ← get_state;
    if IsVertexValid vid MAX_TIMESTAMP t then mret U32_MAX
    else with_v_ts (VertexTimestamp.InsertVertex (weak vid) vid 0) ;; mret vid.

Fixpoint insert_rows weak (l : list (Z * bool)) : st T (list Z) :=
  match l with
  | [] => mret []
  | p :: l => vid ← insert_row weak p; vids ← insert_rows weak l; mret (vid :: vids)
  end.

Definition insert_primary_keys weak (pk_col : KeyedIndexer.key_column) : st T (list Z) :=
  l ← with_indexer (KeyedIndexer.get_or_insert pk_col); insert_rows weak l.

Context (set_properties : PropertyColumn.context_column → list Z → C → C * res unit).

(** Room for [rows] more vertices. *)
Definition reserve_rows (rows : Z) : st T unit :=
  t ← get_state;
  let new_size := Size t + rows in
  if Capacity t <? new_size then EnsureCapacity (LFIndexer.grown new_size (Capacity t)) ;; mret tt else mret tt.

(** One chunk; the vertices that are new. *)
Definition insert_chunk weak (columns : list KeyedIndexer.key_column) : st T (list Z) :=
  t ← get_state;
  if negb (length columns =? length (property_names (vertex_schema_ t)) + 1)%nat then throw CheckFailed
  else
    let ind := Z.to_nat (primary_key (vertex_schema_ t)).2 in
    pk_col ← lift_res (of_option OutOfBounds (columns !! ind));
    let prop_cols := delete ind columns in
    reserve_rows (match columns with [] => 0 | c :: _ => len (PropertyColumn.elems (KeyedIndexer.data c)) end) ;;
    vids ← insert_primary_keys weak pk_col;
    for_each (zip (seqZ 0 (len prop_cols)) prop_cols) (λ p,
      with_table (set_in_column p.1 (set_properties (KeyedIndexer.data p.2) vids))) ;;
    mret (filter (λ vid, vid ≠ U32_MAX) vids).

Fixpoint insert_chunks weak (chunks : list (list KeyedIndexer.key_column)) : st T (list Z) :=
  match chunks with
  | [] => mret []
  | c :: chunks => vids ← insert_chunk weak c; rest ← insert_chunks weak chunks; mret (vids ++ rest)
  end.

(** A supplier announces a number of rows, negative if unknown. *)
Definition insert_vertices weak (row_nums : Z) (chunks : list (list KeyedIndexer.key_column)) : st T (list Z) :=
  reserve_rows (Z.max row_nums 0) ;;
  new_vids ← insert_chunks weak chunks;
  t ← get_state;
  let vertex_count := Size t in
  let headroom := vertex_count `div` 4 + (if vertex_count `mod` 4 =? 0 then 0 else 1) in
  let target_capacity := if vertex_count <? 4096 then 4096 else vertex_count + headroom in
  (if Capacity t <? target_capacity then EnsureCapacity target_capacity ;; mret tt else mret tt) ;;
  mret new_vids.

End operations.

(** ** VertexSet *)

Module VertexSet.
Section iterator.
Context (v_ts : VertexTimestamp.t) (limit ts : Z).

(** The loop that both the constructor and the increment end with. *)
Fixpoint skip (fuel : nat) (v : Z) : Z :=
  match fuel with
  | O => v
  | S fuel => if (v <? limit) && negb (VertexTimestamp.IsVertexValid v ts v_ts) then skip fuel (v + 1) else v
  end.

Definition begin : Z := skip (Z.to_nat limit) 0.
Definition next (v : Z) : Z := skip (Z.to_nat limit) (v + 1).

(** The vertices from iterator [v] to [end()]. *)
Fixpoint collect (fuel : nat) (v : Z) : list Z :=
  match fuel with
  | O => []
  | S fuel => if v =? limit then [] else v :: collect fuel (next v)
  end.

Definition vertices : list Z := collect (Z.to_nat limit + 1) begin.
Definition valid (v : Z) : bool := (v <? limit) && VertexTimestamp.IsVertexValid v ts v_ts.
End iterator.
End VertexSet.

(** ** VertexTableView *)

Module VertexTableView.
Section view.
Context {K KC C : Type} `{!KeyColumn K KC} `{!PrimaryKey K} `{!ColumnBase C}.

(** The number of values is only asserted. *)
Definition insert (index : Z) (values : list Value) (b : Table.table C) : Table.table C * res unit :=
  if (length (Table.columns_ b) <? length values)%nat then (b, Throw OutOfBounds)
  else let '(cols, r) := Table.set_each index (Table.columns_ b) values false in (Table.set_columns cols b, r).

Definition AddVertex (weak : Z → bool) (id : Value) (props : list Value) (ts : Z) : st (vtable KC C) (option Z) :=
  t ← get_state;
  if Capacity t <=? Size t then mret None
  else
    ret ← insert_vertex_pk_internal weak id ts false;
    with_table (insert ret props) ;;
    mret (Some ret).
End view.
End VertexTableView.

End VertexTable.
