(* ===== verification/VertexTableProperties.v ===== *)
(** * Vertex tables as lists of rows

    The table refines a list of keys, each with the timestamp its vertex exists
    from (none once it is deleted), and a list of columns of property values.
    Keys, key columns and property columns are used through the laws of their
    interfaces. *)

From S2P Require Import Prelude Values StringColumn StringColumnProperties VertexTimestamp LFIndexer LFIndexerTable.
From S2P Require Import LFIndexerProperties KeyColumns Tables PropertyColumns TableRows VertexTable.

Lemma join_Some {A} (o : option (option A)) x : mjoin o = Some x ↔ o = Some (Some x).
Proof. destruct o as [[]|]; naive_solver. Qed.

(** ** Timestamps of the first vertices *)

Section timestamps.
Import VertexTimestamp.
Implicit Types (s : t) (born : list (option Z)).

(** The timestamps [s] gives the vertices of a list, and no others; as long as
    nothing was compacted it has an entry for each. *)
Record ts_rep s born (fresh : bool) : Prop := {
  tr_inv : inv s;
  tr_init : init_vertex_num_ s ≤ len born;
  tr_fresh : fresh = true → init_vertex_num_ s = 0;
  tr_abs : ∀ v, abs s v = if 0 <=? v then mjoin (born !! Z.to_nat v) else None
}.

Lemma ts_abs s born fr (v : nat) : ts_rep s born fr → abs s (Z.of_nat v) = mjoin (born !! v).
Proof. intros Hr. rewrite (tr_abs _ _ _ Hr), (proj2 (Z.leb_le _ _)), Nat2Z.id by lia. done. Qed.

Lemma ts_valid s born fr v ts :
  ts_rep s born fr → 0 ≤ v → 0 ≤ ts →
  IsVertexValid v ts s = match mjoin (born !! Z.to_nat v) with Some x => x <=? ts | None => false end.
Proof.
  intros Hr Hv Hts. rewrite IsVertexValid_abs by (done || apply Hr).
  by rewrite (tr_abs _ _ _ Hr), (proj2 (Z.leb_le 0 v)).
Qed.

(** A list that differs from [born] in one place, or is longer by one. *)
Lemma ts_update s s' born fr v (x : option Z) born' :
  ts_rep s born fr → 0 ≤ v → inv s' → init_vertex_num_ s' ≤ init_vertex_num_ s →
  (∀ u, abs s' u = if decide (u = v) then x else abs s u) →
  (born' = <[Z.to_nat v := x]> born ∧ v < len born ∨ born' = born ++ [x] ∧ v = len born) →
  ts_rep s' born' fr.
Proof.
  intros [Hi Hin Hf Ha] Hv Hi' Hle Hs Hb. split; [done| | |].
  - destruct Hb as [[-> _]|[-> _]]; rewrite ?length_insert, ?length_app; cbn; lia.
  - intros E. apply Hf in E. pose proof (inv_range _ Hi'). lia.
  - intros u. rewrite Hs, Ha. destruct (decide (u = v)) as [->|Hne].
    + rewrite (proj2 (Z.leb_le 0 v)) by done. destruct Hb as [[-> Hlt]|[-> ->]].
      * by rewrite list_lookup_insert_eq by lia.
      * rewrite Nat2Z.id, lookup_app_r, Nat.sub_diag by lia. done.
    + destruct (Z.leb_spec 0 u); [|done]. destruct Hb as [[-> Hlt]|[-> ->]].
      * by rewrite list_lookup_insert_ne by lia.
      * destruct (decide (u < len born)); [by rewrite lookup_app_l by lia|].
        rewrite !lookup_ge_None_2; [done|rewrite length_app; cbn; lia|lia].
Qed.

Lemma ts_insert s born fr v ts born' :
  ts_rep s born fr → 0 ≤ v < max_vertex_num_ s → 0 ≤ ts < U32_MAX → mjoin (born !! Z.to_nat v) = None →
  (born' = <[Z.to_nat v := Some ts]> born ∧ v < len born ∨ born' = born ++ [Some ts] ∧ v = len born) →
  ∃ s', InsertVertex false v ts s = (s', Ok tt) ∧ ts_rep s' born' fr ∧ max_vertex_num_ s' = max_vertex_num_ s.
Proof.
  intros Hr Hv Hts Hd Hb. destruct (InsertVertex_spec s v ts) as (Hi & Hm & Hc); [apply Hr|done|done|].
  rewrite (tr_abs _ _ _ Hr), (proj2 (Z.leb_le 0 v)), Hd in Hc by lia. destruct Hc as [Hok Ha].
  pose proof (InsertVertex_init false v ts s). destruct (InsertVertex false v ts s) as [s' r]. cbn in *. subst r.
  exists s'. split_and!; [done| |done]. by apply (ts_update s s' born fr v (Some ts)); try done; lia.
Qed.

Lemma ts_same s s' born fr :
  ts_rep s born fr → inv s' → init_vertex_num_ s' ≤ init_vertex_num_ s → (∀ u, abs s' u = abs s u) → ts_rep s' born fr.
Proof.
  intros [Hi Hin Hf Ha] Hi' Hle Hs. split; [done|lia| |intros u; by rewrite Hs].
  intros E. apply Hf in E. pose proof (inv_range _ Hi'). lia.
Qed.

(** A spurious failure, where the insert comes to the exchange. *)
Lemma ts_insert_spurious s born fr v ts :
  ts_rep s born fr → 0 ≤ v < max_vertex_num_ s → ts ≠ 0 ∨ init_vertex_num_ s ≤ v →
  ∃ s', InsertVertex true v ts s = (s', Throw InternalError) ∧ ts_rep s' born fr ∧ max_vertex_num_ s' = max_vertex_num_ s.
Proof.
  intros Hr Hv Hx. pose proof (InsertVertex_spurious s v ts (tr_inv _ _ _ Hr) Hv) as Hs.
  replace ((v <? init_vertex_num_ s) && (ts =? 0)) with false in Hs
    by (destruct (Z.ltb_spec v (init_vertex_num_ s)), (Z.eqb_spec ts 0); naive_solver lia).
  destruct Hs as (Hi & Hm & Hr2 & Ha). pose proof (InsertVertex_init true v ts s).
  destruct (InsertVertex true v ts s) as [s' r]. cbn in *. subst r. exists s'. split_and!; [done|by apply (ts_same s)|done].
Qed.

(** An insert of a vertex that does not exist, whatever its exchange does. *)
Lemma ts_try b s born fr v ts born' :
  ts_rep s born fr → 0 ≤ v < max_vertex_num_ s → 0 ≤ ts < U32_MAX → mjoin (born !! Z.to_nat v) = None →
  (born' = <[Z.to_nat v := Some ts]> born ∧ v < len born ∨ born' = born ++ [Some ts] ∧ v = len born) →
  ∃ s' r born1, InsertVertex b v ts s = (s', r) ∧ ts_rep s' born1 fr ∧ max_vertex_num_ s' = max_vertex_num_ s ∧
    (r = Ok tt ∧ born1 = born' ∨ b = true ∧ r = Throw InternalError ∧ born1 = born).
Proof.
  intros Hr Hv Hts Hd Hb. destruct (ts_insert s born fr v ts born' Hr Hv Hts Hd Hb) as (s1 & E & Hr1 & Hm).
  destruct b; [|exists s1, (Ok tt), born'; split_and!; [done..|by left]].
  destruct (decide (ts ≠ 0 ∨ init_vertex_num_ s ≤ v)) as [Hx|Hx].
  - destruct (ts_insert_spurious s born fr v ts Hr Hv Hx) as (s2 & E2 & Hr2 & Hm2).
    exists s2, (Throw InternalError), born. split_and!; [done..|by right].
  - pose proof (InsertVertex_spurious s v ts (tr_inv _ _ _ Hr) Hv) as Hs.
    rewrite (proj2 (Z.ltb_lt v _)), (proj2 (Z.eqb_eq ts 0)) in Hs by lia. cbn [andb] in Hs.
    exists s1, (Ok tt), born'. rewrite Hs. split_and!; [done..|by left].
Qed.

Lemma ts_pad s bs fr m : ts_rep s bs fr → ts_rep s (bs ++ replicate m None) fr.
Proof.
  intros [Hi Hn Hf Ha]. split; [done|rewrite length_app; lia|done|]. intros v. rewrite Ha. destruct (0 <=? v); [|done].
  destruct (decide (Z.to_nat v < length bs)%nat); [by rewrite lookup_app_l by lia|].
  rewrite lookup_app_r by lia. rewrite (lookup_ge_None_2 bs) by lia. destruct (replicate m None !! _) as [x|] eqn:E; [|done].
  by apply lookup_replicate in E as [-> _].
Qed.

Lemma ts_insert_live b s born fr v ts x :
  ts_rep s born fr → 0 ≤ v < max_vertex_num_ s → 0 ≤ ts < U32_MAX → mjoin (born !! Z.to_nat v) = Some x → ts < x →
  ∃ s', InsertVertex b v ts s = (s', Throw InternalError) ∧ ts_rep s' born fr ∧ max_vertex_num_ s' = max_vertex_num_ s.
Proof.
  intros Hr Hv Hts Hd Hx. destruct (InsertVertex_spec s v ts) as (Hi & Hm & Hc); [apply Hr|done|done|].
  pose proof (tr_abs _ _ _ Hr v) as Hav. rewrite (proj2 (Z.leb_le 0 v)), Hd in Hav by lia. rewrite Hav in Hc. destruct Hc as [Hok Ha].
  assert (Hge : init_vertex_num_ s ≤ v).
  { destruct (Z.le_gt_cases (init_vertex_num_ s) v); [done|]. unfold abs in Hav.
    rewrite (proj2 (Z.leb_le 0 v)), (proj2 (Z.ltb_lt v (max_vertex_num_ s))), (proj2 (Z.ltb_lt v (init_vertex_num_ s))) in Hav by lia.
    cbn in Hav. case_bool_decide; simplify_eq. lia. }
  destruct b; [by apply (ts_insert_spurious _ _ fr); auto|].
  rewrite (proj2 (Z.ltb_ge _ _)) in Hok by done. cbn [andb] in Hok.
  pose proof (InsertVertex_init false v ts s). destruct (InsertVertex false v ts s) as [s' r]. cbn in *. subst r.
  exists s'. split_and!; [done| |done]. eapply (ts_update s s' born fr v (Some x)); try done; [lia| |].
  - intros u. rewrite Ha. destruct (decide (u = v)) as [->|]; [done|done].
  - left. apply join_Some in Hd. pose proof (lookup_lt_Some _ _ _ Hd). rewrite list_insert_id by done. split; [done|lia].
Qed.

Lemma ts_remove s born fr v x :
  ts_rep s born fr → 0 ≤ v → mjoin (born !! Z.to_nat v) = Some x →
  ∃ s', RemoveVertex v s = (s', Ok x) ∧ ts_rep s' (<[Z.to_nat v := None]> born) fr ∧ max_vertex_num_ s' = max_vertex_num_ s.
Proof.
  intros Hr Hv Hd. destruct (RemoveVertex_spec s v) as (Hi & Hm & Hin & Hc); [apply Hr|done|].
  rewrite (tr_abs _ _ _ Hr), (proj2 (Z.leb_le 0 v)), Hd in Hc by lia. destruct Hc as [Hok Ha].
  destruct (RemoveVertex v s) as [s' r]. cbn in *. subst r. exists s'. split_and!; [done| |done].
  apply (ts_update s s' born fr v None); try done; [lia|]. left. split; [done|]. apply join_Some in Hd. apply lookup_lt_Some in Hd. lia.
Qed.

Lemma ts_revert s born fr v ts :
  ts_rep s born fr → 0 ≤ v < max_vertex_num_ s → v < len born → mjoin (born !! Z.to_nat v) = None → 0 ≤ ts < U32_MAX →
  ts = 0 ∨ fr = true →
  ∃ s', RevertRemoveVertex v ts s = (s', Ok tt) ∧ ts_rep s' (<[Z.to_nat v := Some ts]> born) fr ∧
        max_vertex_num_ s' = max_vertex_num_ s.
Proof.
  intros Hr Hv Hlt Hd Hts Hz. destruct (RevertRemoveVertex_spec s v ts) as (Hi & Hok & Ha); [apply Hr|done| |done| |].
  - by rewrite (tr_abs _ _ _ Hr), (proj2 (Z.leb_le 0 v)), Hd by lia.
  - destruct Hz as [->|E]; [done|]. rewrite (tr_fresh _ _ _ Hr E). lia.
  - destruct (RevertRemoveVertex_frame v ts s) as [Hin Hm]. destruct (RevertRemoveVertex v ts s) as [s' r]. cbn in *. subst r.
    exists s'. split_and!; [done| |done]. apply (ts_update s s' born fr v (Some ts)); try done; [lia|lia|]. by left.
Qed.

Definition compacted born : list (option Z) := (λ o : option Z, (λ _, 0) <$> o) <$> born.

Lemma ts_compact s born fr :
  ts_rep s born fr → ts_rep (Compact s) (compacted born) false ∧ max_vertex_num_ (Compact s) = max_vertex_num_ s.
Proof.
  intros [Hi Hin Hf Ha]. destruct (Compact_spec s Hi) as (Hi' & Hm & Ha'). split; [|done].
  split; [done| |done|].
  - unfold compacted. rewrite length_fmap. apply Compact_init; [done..|]. rewrite Ha, (proj2 (Z.leb_le _ _)), Nat2Z.id by lia.
    by rewrite lookup_ge_None_2.
  - intros v. unfold compacted. rewrite Ha', Ha, list_lookup_fmap. destruct (0 <=? v); [|done]. by destruct (born !! _) as [[]|].
Qed.

Lemma ts_reserve s born fr n :
  ts_rep s born fr → len born < n < 2^32 →
  ts_rep (Reserve n s) born fr ∧ max_vertex_num_ (Reserve n s) = Z.max n (max_vertex_num_ s).
Proof.
  intros [Hi Hin Hf Ha] Hn. destruct (Reserve_grow s n) as (Hi' & Hm & Ha'); [done|lia|].
  split; [|done]. split; [done| | |].
  - rewrite Reserve_init by lia. done.
  - rewrite Reserve_init by lia. done.
  - intros v. by rewrite Ha'.
Qed.

Lemma ts_removed s born fr v :
  ts_rep s born fr → 0 ≤ v < max_vertex_num_ s →
  IsRemoved v s = bool_decide (mjoin (born !! Z.to_nat v) = None).
Proof.
  intros Hr Hv. rewrite IsRemoved_abs by (lia || apply Hr).
  rewrite (tr_abs _ _ _ Hr), (proj2 (Z.leb_le 0 v)), (proj2 (Z.ltb_lt v _)) by lia. by case_match.
Qed.
End timestamps.

(** ** Tables *)

Class PrimaryKeyLaws (K : Type) `{!PrimaryKey K} := {
  key_supported : KeyedIndexer.supported_key_type key_type = true;
  key_value_type : ∀ k : K, id_ (type_ (KeyValue k)) = key_type;
  key_value_null : ∀ k : K, IsNull (KeyValue k) = false;
  key_value_get : ∀ k : K, GetKey (KeyValue k) = Some k
}.

Ltac st_step := unfold mbind, st_bind, mret, st_ret, get_state, lift_res, throw, update; cbn beta iota.

Section refinement.
Import VertexTable.
Context {K KC C : Type} `{!KeyColumn K KC} `{!KeyColumnLaws K KC} `{!PrimaryKey K} `{!PrimaryKeyLaws K}.
Context `{!ColumnBase C} `{!ColumnLaws C} (vs : VertexSchema).
Abbreviation T := (vtable KC C).
Implicit Types (t : T) (id : Value).

Record vstate := MkState {
  keys : list K;
  born : list (option Z);
  cols : list (list Value);
  vcap : Z;
  pristine : bool
}.
Implicit Types (a : vstate).

(** Values that can be keys of this table. *)
Definition well_typed id : bool := negb (bool_decide (id_ (type_ id) ≠ key_type) || IsNull id).
Definition key_of id : option K := if well_typed id then GetKey id else None.
Definition id_ok id : Prop := well_typed id = true → is_Some (GetKey id).
Definition id_cost id : Z := from_option key_size 0 (key_of id).

Record krep t a : Prop := {
  kr_inv : lf_inv (indexer_ t);
  kr_keys : contents (indexer_ t) = keys a;
  kr_nodup : NoDup (keys a);
  kr_ts : ts_rep (v_ts_ t) (born a) (pristine a);
  kr_len : length (born a) = length (keys a);
  kr_cap : Capacity t = vcap a;
  kr_max : vcap a ≤ VertexTimestamp.max_vertex_num_ (v_ts_ t)
}.

Record crep t a : Prop := {
  cr_holds : Forall (holds (vcap a)) (Table.columns_ (table_ t));
  cr_rows : rows_of (table_ t) = cols a;
  cr_schema : vertex_schema_ t = vs;
  cr_defaults : Forall2 col_keeps (Table.columns_ (table_ t)) (default_property_values vs);
  cr_few : len (cols a) < 2^31
}.

Lemma krep_num t a : krep t a → LFIndexer.num_elements_ (indexer_ t) = len (keys a).
Proof. intros Hr. rewrite <- (kr_keys _ _ Hr). symmetry. apply contents_length. apply (li_num _ (kr_inv _ _ Hr)). Qed.

Lemma krep_bound t a : krep t a → len (keys a) ≤ vcap a ≤ MAX_CAPACITY.
Proof.
  intros Hr. rewrite <- (krep_num t a Hr), <- (kr_cap _ _ Hr). pose proof (kr_inv _ _ Hr) as Hi.
  pose proof (li_num _ Hi). pose proof (li_cap _ Hi). unfold Capacity. lia.
Qed.

Lemma krep_table b t a : krep t a → krep (set_table b t) a.
Proof. by intros []. Qed.

(** *** The indexer, by values *)

Lemma get_index_key t a id :
  krep t a → id_ok id → KeyedIndexer.get_index id (indexer_ t) = Ok (key_of id ≫= λ k, index_of k (keys a)).
Proof.
  intros Hr Hid. unfold KeyedIndexer.get_index, key_of, id_ok, well_typed in *.
  destruct (_ || _); cbn [negb] in *; [done|]. destruct (Hid eq_refl) as [k Hk].
  unfold KeyedIndexer.dispatch. rewrite key_supported, Hk. cbn.
  rewrite get_index_of; [by rewrite (kr_keys _ _ Hr)|apply Hr|rewrite (kr_keys _ _ Hr); apply Hr].
Qed.

Lemma insert_key id k safe (x : LFIndexer.t KC) :
  key_of id = Some k → KeyedIndexer.insert id safe x = LFIndexer.insert_absent_typed k safe x.
Proof.
  intros Hk. unfold KeyedIndexer.insert, key_of, well_typed in *.
  destruct (IsNull id); [by rewrite orb_true_r in Hk|]. rewrite orb_false_r in Hk.
  destruct (bool_decide _); [done|]. cbn in Hk. unfold KeyedIndexer.dispatch. by rewrite key_supported, Hk.
Qed.

Lemma insert_bad_key id safe (x : LFIndexer.t KC) :
  id_ok id → key_of id = None → KeyedIndexer.insert id safe x = (x, Throw StorageError).
Proof.
  intros Hid Hk. unfold KeyedIndexer.insert, key_of, id_ok, well_typed in *.
  destruct (IsNull id); [done|]. rewrite orb_false_r in *. destruct (bool_decide _); [done|]. cbn in *.
  rewrite Hk in Hid. by destruct (Hid eq_refl).
Qed.

(** *** Inserting a key *)

Definition set_born (v : Z) (x : option Z) a : vstate :=
  MkState (keys a) (<[Z.to_nat v := x]> (born a)) (cols a) (vcap a) (pristine a).
Definition append_row (k : K) (x : option Z) a : vstate :=
  MkState (keys a ++ [k]) (born a ++ [x]) (cols a) (vcap a) (pristine a).

(** An insert whose exchange fails spuriously throws; a key that was new is then in
    the index, with a vertex that does not exist. *)
Definition spec_pk (weak : Z → bool) id (ts : Z) a : vstate * res Z :=
  match key_of id with
  | None => (a, Throw StorageError)
  | Some k =>
      match index_of k (keys a) with
      | Some v => match mjoin (born a !! Z.to_nat v) with
                  | Some x => (a, Throw (if x <=? ts then InvalidArgument else InternalError))
                  | None => if weak v then (a, Throw InternalError) else (set_born v (Some ts) a, Ok v)
                  end
      | None => if weak (len (keys a)) then (append_row k None a, Throw InternalError)
                else (append_row k (Some ts) a, Ok (len (keys a)))
      end
  end.

(** The lists tell whether the insert comes to the exchange: one at timestamp 0 of a
    deleted vertex does not if a compaction took the vertex's entry. *)
Definition exchange_known (weak : Z → bool) id (ts : Z) a : bool :=
  match key_of id ≫= λ k, index_of k (keys a) with
  | Some v => (0 <? ts) || pristine a || negb (weak v)
  | None => true
  end.

Definition key_ready (safe : bool) id t : Prop :=
  ∀ k, key_of id = Some k → kc_keeps (LFIndexer.keys_ (indexer_ t)) k ∧
    if safe then kc_budget (LFIndexer.keys_ (indexer_ t)) (key_size k)
    else kc_room (LFIndexer.keys_ (indexer_ t)) (key_size k).

Lemma krep_v_ts t a s b fr :
  krep t a → ts_rep s b fr → length b = length (keys a) →
  VertexTimestamp.max_vertex_num_ s = VertexTimestamp.max_vertex_num_ (v_ts_ t) →
  krep (set_v_ts s t) (MkState (keys a) b (cols a) (vcap a) fr).
Proof. intros [Hi Hk Hn Ht Hl Hc Hm] Hs Hb E. split; try done. cbn. by rewrite E. Qed.

Lemma krep_same t a s :
  krep t a → ts_rep s (born a) (pristine a) →
  VertexTimestamp.max_vertex_num_ s = VertexTimestamp.max_vertex_num_ (v_ts_ t) → krep (set_v_ts s t) a.
Proof. intros Hr Hs Hm. destruct a as [ks bs cs cp pr]. by apply (krep_v_ts t (MkState ks bs cs cp pr) s); [..|apply Hr|]. Qed.

(** The vertex of a key that is there already. *)
Lemma pk_found weak t a v ts (k : K) :
  krep t a → index_of k (keys a) = Some v → 0 ≤ ts < U32_MAX → (0 <? ts) || pristine a || negb (weak v) = true →
  ∃ s', (if IsVertexValid v ts t then (v_ts_ t, Throw InvalidArgument)
         else VertexTimestamp.InsertVertex (weak v) v ts (v_ts_ t)) =
    (s', match mjoin (born a !! Z.to_nat v) with
         | Some x => Throw (if x <=? ts then InvalidArgument else InternalError)
         | None => if weak v then Throw InternalError else Ok tt
         end) ∧
    krep (set_v_ts s' t) (match mjoin (born a !! Z.to_nat v) with
         | None => if weak v then a else set_born v (Some ts) a | Some _ => a end).
Proof.
  intros Hr Ev Hts Hw. apply index_of_Some in Ev as [Hv Hlook]; [|apply Hr]. pose proof (lookup_lt_Some _ _ _ Hlook) as Hlt.
  pose proof (krep_bound _ _ Hr). pose proof (kr_max _ _ Hr). pose proof (kr_len _ _ Hr). unfold IsVertexValid.
  rewrite (ts_valid _ (born a) (pristine a)) by (lia || apply Hr).
  destruct (mjoin (born a !! Z.to_nat v)) as [x|] eqn:Ex.
  - destruct (Z.leb_spec x ts).
    + exists (v_ts_ t). split; [done|]. apply krep_same; [done|apply Hr|done].
    + destruct (ts_insert_live (weak v) _ _ _ v ts x (kr_ts _ _ Hr)) as (s' & E & Hs' & Hm'); [lia|done|done|lia|].
      exists s'. split; [done|]. by apply krep_same.
  - destruct (weak v) eqn:Ew.
    + destruct (ts_insert_spurious (v_ts_ t) (born a) (pristine a) v ts) as (s' & E & Hs' & Hm'); [apply Hr|lia| |].
      { cbn in Hw. rewrite orb_false_r in Hw. apply orb_true_iff in Hw as [Hw|Hw]; bool_to_prop; [lia|].
        rewrite (tr_fresh _ _ _ (kr_ts _ _ Hr) Hw). lia. }
      exists s'. split; [done|]. by apply krep_same.
    + destruct (ts_insert _ _ _ v ts (<[Z.to_nat v := Some ts]> (born a)) (kr_ts _ _ Hr)) as (s' & E & Hs' & Hm');
        [lia|done|done|left; split; [done|lia]|].
      exists s'. split; [done|]. apply krep_v_ts; [done..|by rewrite length_insert|done].
Qed.

(** A new key, once it is in the index. *)
Lemma krep_append t a x s (k : K) (o : option Z) :
  krep t a → lf_inv x → contents x = contents (indexer_ t) ++ [k] → LFIndexer.capacity x = LFIndexer.capacity (indexer_ t) →
  k ∉ keys a → ts_rep s (born a ++ [o]) (pristine a) →
  VertexTimestamp.max_vertex_num_ s = VertexTimestamp.max_vertex_num_ (v_ts_ t) →
  krep (set_v_ts s (set_indexer x t)) (append_row k o a).
Proof.
  intros Hr Hx Hc Hcx Hk Hs Hm. pose proof (kr_len _ _ Hr). split; cbn; try done.
  - by rewrite Hc, (kr_keys _ _ Hr).
  - apply NoDup_snoc_absent; [apply Hr|done].
  - rewrite !length_app. cbn. lia.
  - unfold Capacity. cbn. rewrite Hcx. apply Hr.
  - rewrite Hm. apply Hr.
Qed.

Lemma pk_step weak t a id ts safe :
  krep t a → len (keys a) < vcap a → id_ok id → 0 ≤ ts < U32_MAX → key_ready safe id t → exchange_known weak id ts a = true →
  ∃ t', insert_vertex_pk_internal weak id ts safe t = (t', (spec_pk weak id ts a).2) ∧ krep t' (spec_pk weak id ts a).1 ∧
    table_ t' = table_ t ∧ vertex_schema_ t' = vertex_schema_ t ∧ accepts (indexer_ t) (indexer_ t') (id_cost id).
Proof.
  intros Hr Hroom Hid Hts Hrd Hw. unfold insert_vertex_pk_internal. st_step. rewrite (get_index_key t a) by done.
  unfold spec_pk, id_cost, exchange_known in *. destruct (key_of id) as [k|] eqn:Ek; cbn [mbind option_bind from_option] in *.
  2:{ exists t. unfold with_indexer, on. rewrite insert_bad_key by done. cbn. split_and!; try done; by destruct t. }
  pose proof (key_size_nonneg k). destruct (index_of k (keys a)) as [v|] eqn:Ev; cbn beta iota.
  - assert (Hacc : accepts (indexer_ t) (indexer_ t) (key_size k)) by (eapply accepts_mono; [|apply accepts_refl]; done).
    destruct (pk_found weak t a v ts k Hr Ev Hts Hw) as (s' & E & Hk').
    exists (set_v_ts s' t). unfold with_v_ts, on.
    destruct (IsVertexValid v ts t); [injection E as E1 E2|]; [|rewrite E];
      (split_and!; [|destruct (mjoin _) as [x|]; [exact Hk'|by destruct (weak v)]|done|done|done]).
    + rewrite <- E1. destruct (mjoin _) as [x|]; cbn [snd]; [injection E2 as <-; by destruct t|by destruct (weak v)].
    + cbn beta iota. destruct (mjoin _) as [x|]; [done|by destruct (weak v)].
  - apply index_of_None in Ev. unfold with_indexer, on. rewrite (insert_key id k) by done.
    destruct (Hrd k Ek) as [Hkeep Hb]. pose proof (krep_num _ _ Hr) as Hnum. pose proof (kr_cap _ _ Hr) as Hcap.
    destruct (insert_room (indexer_ t) k safe) as (x & E & Hx & Hc & Hn & Hcx & Hacc); [apply Hr| |done|done|].
    { rewrite Hnum. change (LFIndexer.capacity (indexer_ t)) with (Capacity t). by rewrite Hcap. }
    rewrite E, Hnum. cbn [fst snd]. unfold with_v_ts, on. cbn [set_indexer v_ts_].
    pose proof (kr_max _ _ Hr). pose proof (kr_len _ _ Hr) as Hlen. pose proof (tr_init _ _ _ (kr_ts _ _ Hr)).
    destruct (weak (len (keys a))).
    + destruct (ts_insert_spurious (v_ts_ t) (born a) (pristine a) (len (keys a)) ts) as (s' & E' & Hs' & Hm'); [apply Hr|lia|right; lia|].
      rewrite E'. cbn. eexists. split_and!; [done| |done|done|done]. apply (krep_append t a x s' k None); try done.
      apply (ts_pad _ _ _ 1 Hs').
    + destruct (ts_insert (v_ts_ t) _ _ (len (keys a)) ts (born a ++ [Some ts]) (kr_ts _ _ Hr)) as (s' & E' & Hs' & Hm');
        [lia|done| |right; split; [done|lia]|].
      { by rewrite lookup_ge_None_2 by lia. }
      rewrite E'. cbn. eexists. split_and!; [done| |done|done|done]. by apply (krep_append t a x s' k (Some ts)).
Qed.

(** *** Operations and their effect on the lists *)

Inductive vop :=
  | OpAdd (weak : Z → bool) (id : Value) (props : list Value) (ts : Z)
  | OpUpdate (vid prop_id : Z) (value : Value) (ts : Z)
  | OpDelete (lid ts : Z)
  | OpDeleteById (id : Value) (ts : Z)
  | OpBatchDelete (vids : list Z)
  | OpRevert (lid ts : Z)
  | OpCompact
  | OpEnsure (n : Z).

Inductive vret := RAdded (vid : option Z) | RUpdated (b : bool) | RCapacity (n : Z) | RDone.

Definition exec (o : vop) : st T vret :=
  match o with
  | OpAdd weak id props ts => r ← AddVertex weak id props ts true; mret (RAdded r)
  | OpUpdate vid p v ts => r ← UpdateProperty vid p v ts; mret (RUpdated r)
  | OpDelete lid ts => DeleteVertex lid ts ;; mret RDone
  | OpDeleteById id ts => DeleteVertexById id ts ;; mret RDone
  | OpBatchDelete vids => BatchDeleteVertices vids ;; mret RDone
  | OpRevert lid ts => RevertDeleteVertex lid ts ;; mret RDone
  | OpCompact => Compact ;; mret RDone
  | OpEnsure n => r ← EnsureCapacity n; mret (RCapacity r)
  end.

Definition valid_row a (ts v : Z) : bool :=
  match mjoin (born a !! Z.to_nat v) with Some x => x <=? ts | None => false end.
Definition set_cols (l : list (list Value)) a : vstate := MkState (keys a) (born a) l (vcap a) (pristine a).
Definition set_row (v : Z) (props : list Value) a : vstate :=
  set_cols (zip_with (λ col p, <[Z.to_nat v := p]> col) (cols a) props) a.
Definition delete_row (ts v : Z) a : vstate := if valid_row a ts v then set_born v None a else a.

Definition is_ts (ts : Z) : bool := (0 <=? ts) && (ts <? U32_MAX).

(** [None] where the call is not allowed: a timestamp that is the mark of
    deletion, a vertex that never existed to restore or one at a timestamp that
    compaction has forgotten, a capacity above 2^31; or where the lists do not tell
    whether a spurious failure shows. *)
Definition spec_op (o : vop) a : option (vstate * res vret) :=
  match o with
  | OpAdd weak id props ts =>
      if negb (is_ts ts) then None
      else if vcap a <=? len (keys a) then Some (a, Ok (RAdded None))
      else if negb (exchange_known weak id ts a) then None
      else match spec_pk weak id ts a with
        | (a', Ok v) => Some (set_row v props a', Ok (RAdded (Some v)))
        | (a', Throw e) => Some (a', Throw e)
        end
  | OpUpdate vid p v ts =>
      if negb ((0 <=? vid) && (0 <=? ts)) then None
      else if valid_row a ts vid && (0 <=? p) && (p <? len (cols a))
      then Some (set_cols (alter (λ col, <[Z.to_nat vid := v]> col) (Z.to_nat p) (cols a)) a, Ok (RUpdated true))
      else Some (a, Ok (RUpdated false))
  | OpDelete lid ts => if (0 <=? lid) && (0 <=? ts) then Some (delete_row ts lid a, Ok RDone) else None
  | OpDeleteById id ts =>
      if 0 <=? ts then
        Some (from_option (λ v, delete_row ts v a) a (key_of id ≫= λ k, index_of k (keys a)), Ok RDone)
      else None
  | OpBatchDelete vids =>
      if bool_decide (Forall (λ v, 0 ≤ v) vids)
      then Some (foldl (λ a v, delete_row MAX_TIMESTAMP v a) a vids, Ok RDone) else None
  | OpRevert lid ts =>
      if is_ts ts && (0 <=? lid) && (lid <? len (keys a)) && ((ts =? 0) || pristine a) then
        Some (match mjoin (born a !! Z.to_nat lid) with None => set_born lid (Some ts) a | Some _ => a end, Ok RDone)
      else None
  | OpCompact => Some (MkState (keys a) (compacted (born a)) (cols a) (vcap a) false, Ok RDone)
  | OpEnsure n =>
      if n <=? vcap a then Some (a, Ok (RCapacity (vcap a)))
      else if n <=? MAX_CAPACITY then
        let n := Z.max n 4096 in
        Some (MkState (keys a) (born a)
                (zip_with (λ col v, list_resize (Z.to_nat n) v col) (cols a) (default_property_values vs)) n (pristine a),
              Ok (RCapacity n))
      else None
  end.

(** What the columns have to take: keys and values they store as they are. *)
Definition keeps_op t (o : vop) : Prop :=
  match o with
  | OpAdd _ id props _ =>
      id_ok id ∧ (∀ k, key_of id = Some k → kc_keeps (LFIndexer.keys_ (indexer_ t)) k) ∧
      Forall2 col_keeps (Table.columns_ (table_ t)) props
  | OpUpdate _ p v _ => ∀ c, Table.columns_ (table_ t) !! Z.to_nat p = Some c → col_keeps c v
  | OpDeleteById id _ => id_ok id
  | _ => True
  end.

(** Bytes an operation may add to the key column and to each property column. *)
Definition key_cost (o : vop) : Z := match o with OpAdd _ id _ _ => id_cost id | _ => 0 end.
Definition value_cost (o : vop) : Z :=
  match o with
  | OpAdd _ _ props _ => row_cost props
  | OpUpdate _ _ v _ => col_cost v
  | OpEnsure _ => row_cost (default_property_values vs)
  | _ => 0
  end.

Definition affords t (kb vb : Z) : Prop :=
  kc_budget (LFIndexer.keys_ (indexer_ t)) kb ∧ Forall (λ c, col_budget c vb) (Table.columns_ (table_ t)).
Definition moves t t' (kb vb : Z) : Prop :=
  accepts (indexer_ t) (indexer_ t') kb ∧ Forall2 (evolves vb) (Table.columns_ (table_ t)) (Table.columns_ (table_ t')).
Definition rep t a : Prop := krep t a ∧ crep t a.

Lemma id_cost_nonneg id : 0 ≤ id_cost id.
Proof. unfold id_cost. destruct (key_of id); cbn; [apply key_size_nonneg|lia]. Qed.

Lemma value_cost_nonneg o : 0 ≤ value_cost o.
Proof. destruct o; cbn; try lia; try apply row_cost_nonneg. apply col_cost_nonneg. Qed.

Lemma moves_refl t kb vb : 0 ≤ kb → 0 ≤ vb → moves t t kb vb.
Proof.
  intros Hk Hv. split; [eapply accepts_mono; [|apply accepts_refl]; done|by apply Forall2_evolves_refl].
Qed.

Lemma keeps_evolve b cs cs' vals : Forall2 (evolves b) cs cs' → Forall2 (col_keeps (C := C)) cs vals → Forall2 col_keeps cs' vals.
Proof.
  intros Hc. revert vals. induction Hc as [|c c' cs cs' [H _] Hc IH]; intros vals Hp; inversion Hp; subst; constructor; eauto.
Qed.

Lemma moves_keeps t t' kb vb o : moves t t' kb vb → keeps_op t o → keeps_op t' o.
Proof.
  intros [[Hk _] Hc]. destruct o as [weak id props ts|vid p v ts| | | | | |]; cbn; try done.
  - intros (Hid & Hkk & Hp). split_and!; [done|eauto|by eapply keeps_evolve].
  - intros H c' Hc'. destruct (Forall2_lookup_r _ _ _ _ _ Hc Hc') as (c & Hl & [Hkc _]). eauto.
Qed.

Lemma moves_affords t t' kb vb kb' vb' : 0 ≤ vb' → moves t t' kb vb → affords t (kb + kb') (vb + vb') → affords t' kb' vb'.
Proof.
  intros Hv [[_ Hk] Hc] [Hkb Hvb]. split; [by apply Hk|]. apply Forall_lookup. intros i c' Hc'.
  destruct (Forall2_lookup_r _ _ _ _ _ Hc Hc') as (c & Hl & [_ He]). apply He; [done|]. by eapply (Forall_lookup_1 _ _ _ _ Hvb).
Qed.

Lemma all_ready cs vals : Forall2 (col_keeps (C := C)) cs vals → Forall (λ c, col_budget c (row_cost vals)) cs → Forall2 (ready true) cs vals.
Proof.
  intros Hk Hb. apply Forall2_same_length_lookup_2; [by eapply Forall2_length|]. intros i c v Hc Hv.
  split; [by eapply Forall2_lookup_lr|]. eapply col_budget_mono; [by eapply (Forall_lookup_1 _ _ _ _ Hb)|].
  split; [apply col_cost_nonneg|]. apply zsum_elem_le; [intros; apply col_cost_nonneg|by eapply list_elem_of_lookup_2].
Qed.

(** A change of the columns only. *)
Lemma crep_table b n t t' a rows' :
  crep t a → table_ t' = b → vertex_schema_ t' = vertex_schema_ t → Forall (holds (vcap rows')) (Table.columns_ b) →
  rows_of b = cols rows' → length (cols rows') = length (cols a) →
  Forall2 (evolves n) (Table.columns_ (table_ t)) (Table.columns_ b) → crep t' rows'.
Proof.
  intros [Hh Hr Hs Hd Hf] Hb Hsc Hh' Hr' Hl Hev. split; rewrite ?Hb, ?Hsc; try done; [by eapply keeps_evolve|by rewrite Hl].
Qed.

Lemma cols_length t a : crep t a → length (cols a) = length (Table.columns_ (table_ t)).
Proof. intros Hc. rewrite <- (cr_rows _ _ Hc). apply length_fmap. Qed.

Lemma spec_pk_frame weak id ts a : let a' := (spec_pk weak id ts a).1 in
  cols a' = cols a ∧ vcap a' = vcap a ∧ pristine a' = pristine a.
Proof. unfold spec_pk. by repeat case_match. Qed.

Lemma spec_pk_range weak id ts a v : NoDup (keys a) → (spec_pk weak id ts a).2 = Ok v → 0 ≤ v ≤ len (keys a).
Proof.
  intros Hnd. unfold spec_pk. destruct (key_of id) as [k|]; [|done]. destruct (index_of k (keys a)) as [w|] eqn:E.
  - apply index_of_Some in E as [Hw Hl]; [|done]. apply lookup_lt_Some in Hl. case_match; [done|].
    case_match; [done|]. intros [= <-]. lia.
  - case_match; [done|]. intros [= <-]. lia.
Qed.

Lemma is_ts_spec ts : is_ts ts = true → 0 ≤ ts < U32_MAX.
Proof. unfold is_ts. intros H. bool_to_prop. lia. Qed.

Definition step_ok (o : vop) t a' r : Prop :=
  ∃ t', exec o t = (t', r) ∧ rep t' a' ∧ moves t t' (key_cost o) (value_cost o).

Lemma crep_pk weak t t1 a id ts :
  crep t a → table_ t1 = table_ t → vertex_schema_ t1 = vertex_schema_ t → crep t1 (spec_pk weak id ts a).1.
Proof.
  intros [Hh Hr Hs Hd Hf] Ht Hsc. destruct (spec_pk_frame weak id ts a) as (E1 & E2 & _).
  split; rewrite ?E1, ?E2, ?Ht, ?Hsc; done.
Qed.

Lemma vertex_add_step weak t a id props ts a' r :
  rep t a → spec_op (OpAdd weak id props ts) a = Some (a', r) → keeps_op t (OpAdd weak id props ts) →
  affords t (id_cost id) (row_cost props) → step_ok (OpAdd weak id props ts) t a' r.
Proof.
  intros [Hk Hc] Hs (Hid & Hkeep & Hp) [Hkb Hvb]. cbn [spec_op] in Hs. unfold step_ok. cbn [exec key_cost value_cost].
  pose proof (id_cost_nonneg id). pose proof (row_cost_nonneg props).
  destruct (is_ts ts) eqn:Hts; [|done]. apply is_ts_spec in Hts. cbn [negb] in Hs.
  unfold AddVertex. st_step. unfold Size, LFIndexer.size. rewrite (kr_cap _ _ Hk), (krep_num _ _ Hk).
  destruct (Z.leb_spec (vcap a) (len (keys a))); simplify_eq/=.
  { exists t. split_and!; [done|done|by apply moves_refl]. }
  destruct (exchange_known weak id ts a) eqn:Hw; [|done]. cbn [negb] in *.
  destruct (pk_step weak t a id ts true) as (t1 & E & Hk1 & Ht1 & Hsc & Hacc); try done.
  { intros k Ek. split; [eauto|]. unfold id_cost in Hkb. by rewrite Ek in Hkb. }
  rewrite E. destruct (spec_pk_frame weak id ts a) as (Ec & Ecap & _).
  pose proof (spec_pk_range weak id ts a) as Hrange. pose proof (crep_pk weak t t1 a id ts Hc Ht1 Hsc) as Hc1.
  destruct (spec_pk weak id ts a) as [a1 [v|e]]; cbn [fst snd] in *; simplify_eq.
  - destruct (table_insert_ok (vcap a) v props true (table_ t)) as (b & Eb & Hb & Hrows & Hev); [apply Hc| |by apply all_ready|].
    { specialize (Hrange v (kr_nodup _ _ Hk) eq_refl). lia. }
    unfold with_table, on. rewrite Ht1, Eb. cbn. eexists. split_and!; [done| |].
    + split; [by destruct Hk1|]. eapply (crep_table b _ t1 _ a1); try done.
      * cbn. by rewrite Ecap.
      * cbn. rewrite Hrows, (cr_rows _ _ Hc), Ec. done.
      * cbn. rewrite length_zip_with, Ec, (cols_length t a Hc). apply Forall2_length in Hp. lia.
      * rewrite Ht1. exact Hev.
    + split; [done|]. exact Hev.
  - exists t1. split_and!; [done|done|]. split; [done|]. rewrite Ht1. by apply Forall2_evolves_refl.
Qed.

Lemma valid_row_spec t a v ts : krep t a → 0 ≤ v → 0 ≤ ts → IsVertexValid v ts t = valid_row a ts v.
Proof. intros Hk Hv Hts. unfold IsVertexValid, valid_row. eapply ts_valid; [apply Hk|done..]. Qed.

Lemma valid_row_lt t a v ts : krep t a → 0 ≤ v → valid_row a ts v = true → v < len (keys a).
Proof.
  intros Hk Hv. unfold valid_row. destruct (mjoin _) eqn:E; [|done]. apply join_Some, lookup_lt_Some in E.
  rewrite (kr_len _ _ Hk) in E. lia.
Qed.

Lemma rep_v_ts t a s b fr :
  rep t a → ts_rep s b fr → length b = length (keys a) →
  VertexTimestamp.max_vertex_num_ s = VertexTimestamp.max_vertex_num_ (v_ts_ t) →
  rep (set_v_ts s t) (MkState (keys a) b (cols a) (vcap a) fr) ∧ moves t (set_v_ts s t) 0 0.
Proof.
  intros [Hk Hc] Hs Hb Hm. split; [split; [by apply krep_v_ts|by destruct Hc]|].
  split; [apply accepts_refl|by apply Forall2_evolves_refl].
Qed.

Lemma delete_step_ok t a v ts :
  rep t a → 0 ≤ v → 0 ≤ ts →
  ∃ t', DeleteVertex v ts t = (t', Ok tt) ∧ rep t' (delete_row ts v a) ∧ moves t t' 0 0.
Proof.
  intros Hr Hv Hts. destruct (Hr) as [Hk Hc]. unfold DeleteVertex. st_step. unfold Size, LFIndexer.size. rewrite (krep_num _ _ Hk).
  rewrite (valid_row_spec t a) by done. unfold delete_row. destruct (valid_row a ts v) eqn:E.
  - pose proof (valid_row_lt t a v ts Hk Hv E). rewrite (proj2 (Z.leb_gt _ _)) by lia.
    unfold valid_row in E. destruct (mjoin _) as [x|] eqn:Ex; [|done].
    destruct (ts_remove (v_ts_ t) (born a) (pristine a) v x) as (s & Es & Hs & Hm); [apply Hk|done..|].
    unfold remove, with_v_ts, on. st_step. rewrite Es. eexists. split; [done|].
    apply rep_v_ts; [done..|by rewrite length_insert, (kr_len _ _ Hk)|done].
  - destruct (_ <=? _); (exists t; split_and!; [done|done|by apply moves_refl]).
Qed.

Lemma batch_step_ok vids t a :
  rep t a → Forall (λ v, 0 ≤ v) vids →
  ∃ t', BatchDeleteVertices vids t = (t', Ok tt) ∧ rep t' (foldl (λ a v, delete_row MAX_TIMESTAMP v a) a vids) ∧ moves t t' 0 0.
Proof.
  revert t a. induction vids as [|v vids IH]; intros t a Hr Hv.
  { exists t. split_and!; [done|done|by apply moves_refl]. }
  apply Forall_cons in Hv as [Hv Hvs]. destruct (delete_step_ok t a v MAX_TIMESTAMP Hr Hv) as (t1 & E & Hr1 & Hm1); [done|].
  destruct (IH t1 _ Hr1 Hvs) as (t2 & E2 & Hr2 & Hm2). exists t2. split_and!; [|done|].
  - unfold BatchDeleteVertices in *. cbn [for_each]. erewrite st_bind_ok; [exact E2|]. rewrite <- E.
    unfold DeleteVertex. st_step. rewrite Z.leb_antisym. destruct (v <? Size t), (IsVertexValid v MAX_TIMESTAMP t); done.
  - destruct Hm1 as [A1 E1'], Hm2 as [A2 E2']. split; [by apply (accepts_trans _ (indexer_ t1) _ 0 0)|].
    apply Forall2_same_length_lookup_2; [by rewrite (Forall2_length _ _ _ E1'); eapply Forall2_length|].
    intros i c c2 Hc Hc2. destruct (Forall2_lookup_l _ _ _ _ _ E1' Hc) as (c1 & Hc1 & He1).
    eapply (evolves_trans 0 0); [lia|done|]. by eapply Forall2_lookup_lr.
Qed.

Lemma by_id_step t a id ts :
  rep t a → id_ok id → 0 ≤ ts →
  ∃ t', DeleteVertexById id ts t = (t', Ok tt) ∧
    rep t' (from_option (λ v, delete_row ts v a) a (key_of id ≫= λ k, index_of k (keys a))) ∧ moves t t' 0 0.
Proof.
  intros Hr Hid Hts. pose proof (get_index_key t a id (proj1 Hr) Hid) as Eg.
  assert (Hv : ∀ v, (key_of id ≫= λ k, index_of k (keys a)) = Some v → 0 ≤ v).
  { intros v. destruct (key_of id) as [k|]; [|done]. cbn. intros Ev. apply index_of_Some in Ev as [? _]; [done|apply Hr]. }
  revert Eg Hv. generalize (key_of id ≫= λ k, index_of k (keys a)) as found. intros found Eg Hv.
  unfold DeleteVertexById, get_index. st_step. rewrite Eg. cbn [res_bind]. destruct found as [v|]; cbn [from_option].
  2:{ exists t. split_and!; [done|done|by apply moves_refl]. }
  specialize (Hv v eq_refl).
  rewrite (valid_row_spec t a) by (done || apply Hr). destruct (valid_row a ts v) eqn:E; cbn [negb].
  - by apply delete_step_ok.
  - unfold delete_row. rewrite E. exists t. split_and!; [done|done|by apply moves_refl].
Qed.

Lemma revert_step t a lid ts :
  rep t a → 0 ≤ lid < len (keys a) → 0 ≤ ts < U32_MAX → ts = 0 ∨ pristine a = true →
  ∃ t', RevertDeleteVertex lid ts t = (t', Ok tt) ∧
    rep t' (match mjoin (born a !! Z.to_nat lid) with None => set_born lid (Some ts) a | Some _ => a end) ∧ moves t t' 0 0.
Proof.
  intros Hr Hv Hts Hz. destruct (Hr) as [Hk Hc]. unfold RevertDeleteVertex. st_step.
  pose proof (kr_max _ _ Hk). pose proof (krep_bound _ _ Hk). pose proof (kr_len _ _ Hk).
  rewrite (ts_removed (v_ts_ t) (born a) (pristine a)) by (lia || apply Hk).
  destruct (mjoin _) as [x|] eqn:E; [rewrite bool_decide_false by done|rewrite bool_decide_true by done].
  { exists t. split_and!; [done|done|by apply moves_refl]. }
  destruct (ts_revert (v_ts_ t) (born a) (pristine a) lid ts) as (s & Es & Hs & Hm); [apply Hk|lia|lia|done..|].
  unfold with_v_ts, on. rewrite Es. eexists. split; [done|]. apply rep_v_ts; [done..|by rewrite length_insert|done].
Qed.

Lemma vertex_compact_step t a :
  rep t a → ∃ t', Compact t = (t', Ok tt) ∧ rep t' (MkState (keys a) (compacted (born a)) (cols a) (vcap a) false) ∧ moves t t' 0 0.
Proof.
  intros Hr. destruct (Hr) as [Hk Hc]. destruct (ts_compact (v_ts_ t) (born a) (pristine a)) as [Hs Hm]; [apply Hk|].
  eexists. split; [done|]. apply rep_v_ts; try done. unfold compacted. by rewrite length_fmap, (kr_len _ _ Hk).
Qed.

Lemma ensure_step t a n :
  rep t a → vcap a < n ≤ MAX_CAPACITY → Forall (λ c, col_budget c (row_cost (default_property_values vs))) (Table.columns_ (table_ t)) →
  let m := Z.max n 4096 in
  ∃ t', EnsureCapacity n t = (t', Ok m) ∧
    rep t' (MkState (keys a) (born a)
             (zip_with (λ col v, list_resize (Z.to_nat m) v col) (cols a) (default_property_values vs)) m (pristine a)) ∧
    moves t t' 0 (row_cost (default_property_values vs)).
Proof.
  intros [Hk Hc] Hn Hb m. unfold MAX_CAPACITY in Hn. pose proof (krep_bound _ _ Hk). pose proof (row_cost_nonneg (default_property_values vs)).
  pose proof (krep_num _ _ Hk) as Hnum. pose proof (kr_cap _ _ Hk) as Hcap. pose proof (kr_len _ _ Hk).
  unfold EnsureCapacity. st_step. rewrite Hcap. rewrite (proj2 (Z.leb_gt n _)), (proj2 (Z.ltb_lt (vcap a) _)) by lia. fold m.
  destruct (lf_reserve_spec (indexer_ t) m) as (x & E & Hx & Hcx & Hnx & Hlo & Hhi & Hacc); [apply Hk|unfold MAX_CAPACITY; lia|].
  unfold with_indexer, on. rewrite E. cbn beta iota.
  assert (Hxc : LFIndexer.capacity x = m) by lia.
  destruct (ts_reserve (v_ts_ t) (born a) (pristine a) m) as [Hs Hm]; [apply Hk|lia|].
  destruct (table_resize_ok (vcap a) m (default_property_values vs) (table_ t)) as (b & Eb & Hbh & Hrows & Hev);
    [apply Hc|lia|apply all_ready; [apply Hc|done]|].
  assert (Et : ∃ b', (if Table.size (table_ t) <? m
                then with_table (Table.resize_default m (default_property_values (vertex_schema_ t)))
                else λ s, (s, Ok tt)) (set_indexer x t) = (set_table b' (set_indexer x t), Ok tt) ∧
     Table.columns_ b' = Table.columns_ b).
  { rewrite (cr_schema _ _ Hc). destruct (Z.ltb_spec (Table.size (table_ t)) m).
    - exists b. split; [|done]. by apply on_run.
    - exists (table_ t). split; [by destruct t|]. unfold Table.size in *.
      pose proof (cr_holds _ _ Hc) as Hh. destruct (Table.columns_ (table_ t)) as [|c cs]; [lia|].
      apply Forall_cons in Hh as [[Hw Hl] _]. rewrite (col_size_rows c Hw) in *. lia. }
  destruct Et as (b' & Et & Ecols). rewrite Et. cbn. eexists. split_and!; [unfold Capacity; cbn; by rewrite Hxc| |].
  - split.
    + split; cbn; try done; [by rewrite Hcx, (kr_keys _ _ Hk)|apply Hk|lia].
    + eapply (crep_table b' _ t); try done; cbn; rewrite ?Ecols; try done.
      * transitivity (rows_of b); [unfold rows_of; by rewrite Ecols|]. by rewrite Hrows, (cr_rows _ _ Hc).
      * rewrite length_zip_with, (cols_length t a Hc). pose proof (Forall2_length _ _ _ (cr_defaults _ _ Hc)). lia.
  - split; cbn; [done|]. by rewrite Ecols.
Qed.

Lemma set_in_column_ok n p i v (b : Table.table C) c :
  Forall (holds n) (Table.columns_ b) → 0 ≤ i < n → Table.columns_ b !! Z.to_nat p = Some c → col_keeps c v → col_budget c (col_cost v) →
  ∃ b', set_in_column p (col_set_any i v true) b = (b', Ok tt) ∧ Forall (holds n) (Table.columns_ b') ∧
    rows_of b' = alter (λ col, <[Z.to_nat i := v]> col) (Z.to_nat p) (rows_of b) ∧
    Forall2 (evolves (col_cost v)) (Table.columns_ b) (Table.columns_ b').
Proof.
  intros Hh Hi Hc Hk Hb. destruct (Forall_lookup_1 _ _ _ _ Hh Hc) as [Hw Hl].
  destruct (col_set_ok c i v true) as (c' & E & Hw' & Hr & Hk' & Hb'); [done|lia|done..|].
  unfold set_in_column. rewrite Hc, E. eexists. split; [done|]. cbn. split_and!.
  - apply Forall_insert; [done|]. split; [done|]. by rewrite Hr, length_insert.
  - unfold rows_of. cbn. rewrite list_fmap_insert, Hr. apply list_eq. intros j.
    pose proof (lookup_lt_Some _ _ _ Hc). destruct (decide (j = Z.to_nat p)) as [->|Hne].
    + rewrite list_lookup_insert_eq by (rewrite length_fmap; lia). by rewrite list_lookup_alter_eq, list_lookup_fmap, Hc.
    + by rewrite list_lookup_insert_ne, list_lookup_alter_ne by done.
  - pose proof (col_cost_nonneg v). apply Forall2_same_length_lookup_2; [by rewrite length_insert|]. intros j x y Hx Hy.
    apply list_lookup_insert_Some in Hy as [(<- & <- & _)|[Hne Hy]]; simplify_eq; [by split|by apply evolves_refl].
Qed.

Lemma vertex_update_step t a vid p v ts a' r :
  rep t a → spec_op (OpUpdate vid p v ts) a = Some (a', r) → keeps_op t (OpUpdate vid p v ts) →
  Forall (λ c, col_budget c (col_cost v)) (Table.columns_ (table_ t)) → step_ok (OpUpdate vid p v ts) t a' r.
Proof.
  intros [Hk Hc] Hs Hkeep Hvb. cbn [spec_op keeps_op] in *. unfold step_ok. cbn [exec key_cost value_cost].
  destruct ((0 <=? vid) && (0 <=? ts)) eqn:Hg; [|done]. bool_to_prop. cbn [negb] in Hs. pose proof (col_cost_nonneg v).
  pose proof (cols_length t a Hc) as Hcl. pose proof (cr_few _ _ Hc) as Hfew.
  assert (Hi : i32 (Table.col_num (table_ t)) = len (cols a)).
  { unfold Table.col_num, i32. rewrite <- Hcl, Z.mod_small by lia. lia. }
  unfold UpdateProperty. st_step. unfold Size, LFIndexer.size. rewrite (krep_num _ _ Hk), (valid_row_spec t a), Hi by done.
  destruct (valid_row a ts vid) eqn:Ev; cbn [negb andb] in *.
  2:{ simplify_eq. exists t. split_and!; [by destruct (_ <=? vid)|done|by apply moves_refl]. }
  pose proof (valid_row_lt t a vid ts Hk H Ev) as Hlt. pose proof (krep_bound _ _ Hk).
  rewrite (proj2 (Z.leb_gt _ _)) by lia.
  destruct (Z.leb_spec 0 p), (Z.ltb_spec p (len (cols a))), (Z.ltb_spec p 0), (Z.leb_spec (len (cols a)) p); try lia; cbn [andb orb] in *; simplify_eq;
    try (exists t; split_and!; [done|done|by apply moves_refl]).
  destruct (lookup_lt_is_Some_2 (Table.columns_ (table_ t)) (Z.to_nat p)) as [c Hl]; [lia|].
  destruct (set_in_column_ok (vcap a) p vid v (table_ t) c) as (b & Eb & Hb & Hrows & Hev); [apply Hc|lia|done|eauto|by eapply (Forall_lookup_1 _ _ _ _ Hvb)|].
  unfold with_table, on. rewrite Eb. cbn. eexists. split_and!; [done| |split; [apply accepts_refl|done]].
  split; [by destruct Hk|]. eapply (crep_table b _ t _ a); try done.
  - cbn. by rewrite Hrows, (cr_rows _ _ Hc).
  - cbn. by rewrite length_alter.
Qed.

(** Every operation does to the table what it does to the lists. *)
Lemma vertex_step o t a a' r :
  rep t a → spec_op o a = Some (a', r) → keeps_op t o → affords t (key_cost o) (value_cost o) → step_ok o t a' r.
Proof.
  intros Hr Hs Hk Hb. destruct o as [weak id props ts|vid p v ts|lid ts|id ts|vids|lid ts| |n].
  - by apply (vertex_add_step weak t a).
  - apply (vertex_update_step t a); try done. apply Hb.
  - cbn in Hs. case_bool; simplify_eq. bool_to_prop. destruct (delete_step_ok t a lid ts Hr) as (t' & E & ? & ?); [done..|].
    exists t'. split; [|done]. cbn. by erewrite st_bind_ok.
  - cbn [spec_op] in Hs. case_bool; simplify_eq. bool_to_prop. destruct (by_id_step t a id ts Hr) as (t' & E & ? & ?); [done..|].
    exists t'. split; [|done]. cbn [exec]. by erewrite st_bind_ok.
  - cbn in Hs. case_bool; simplify_eq. bool_to_prop. destruct (batch_step_ok vids t a Hr) as (t' & E & ? & ?); [done..|].
    exists t'. split; [|done]. cbn. by erewrite st_bind_ok.
  - cbn in Hs. case_bool; simplify_eq. bool_to_prop.
    destruct (revert_step t a lid ts Hr) as (t' & E & ? & ?); [lia|by apply is_ts_spec| |].
    { destruct (ts =? 0) eqn:E0; bool_to_prop; [by left|by right]. }
    exists t'. split; [|done]. cbn. by erewrite st_bind_ok.
  - cbn in Hs. simplify_eq. destruct (vertex_compact_step t a Hr) as (t' & E & ? & ?).
    exists t'. split; [|done]. cbn. by erewrite st_bind_ok.
  - cbn [spec_op] in Hs. destruct (Z.leb_spec n (vcap a)); simplify_eq.
    + exists t. split_and!; [|done|apply moves_refl; [done|apply value_cost_nonneg]]. cbn [exec]. unfold EnsureCapacity. st_step.
      rewrite (kr_cap _ _ (proj1 Hr)). by rewrite (proj2 (Z.leb_le _ _)).
    + case_bool; simplify_eq. bool_to_prop. destruct (ensure_step t a n Hr) as (t' & E & ? & ?); [lia|apply Hb|].
      exists t'. split; [|done]. cbn [exec]. by erewrite st_bind_ok.
Qed.

(** *** Runs; an operation that throws does not end them *)

Fixpoint run (os : list vop) t : T * list (res vret) :=
  match os with [] => (t, []) | o :: os => let '(t, r) := exec o t in let '(t, rs) := run os t in (t, r :: rs) end.

Fixpoint spec_run (os : list vop) a : option (vstate * list (res vret)) :=
  match os with
  | [] => Some (a, [])
  | o :: os => '(a, r) ← spec_op o a; '(a, rs) ← spec_run os a; Some (a, r :: rs)
  end.

Lemma vertex_run os t a a' rs :
  rep t a → spec_run os a = Some (a', rs) → Forall (keeps_op t) os →
  affords t (zsum key_cost os) (zsum value_cost os) → ∃ t', run os t = (t', rs) ∧ rep t' a'.
Proof.
  revert t a rs. induction os as [|o os IH]; intros t a rs Hr Hs Hk Hb; cbn [spec_run run] in *.
  { simplify_eq. by exists t. }
  apply bind_Some in Hs as ([a1 r] & Hs1 & Hs). apply bind_Some in Hs as ([a2 rs'] & Hs2 & Hs). simplify_eq.
  apply Forall_cons in Hk as [Ho Hos]. rewrite !zsum_cons in Hb.
  assert (Hnk : 0 ≤ zsum key_cost os) by (apply zsum_nonneg; intros [] _; cbn; try lia; apply id_cost_nonneg).
  assert (Hnv : 0 ≤ zsum value_cost os) by (apply zsum_nonneg; intros; apply value_cost_nonneg).
  destruct (vertex_step o t a a1 r) as (t1 & E & Hr1 & Hm); [done..| |].
  { destruct Hb as [Hkb Hvb]. split; [eapply kc_budget_mono; [done|lia]|]. eapply Forall_impl; [done|]. intros c Hc.
    cbn in *. apply (col_budget_mono _ _ _ Hc). pose proof (value_cost_nonneg o). lia. }
  destruct (IH t1 a1 rs') as (t2 & E2 & Hr2); [done|done| |by eapply moves_affords|].
  { eapply Forall_impl; [done|]. intros. by eapply moves_keeps. }
  exists t2. by rewrite E, E2.
Qed.

(** *** What a table shows *)

Definition lookup_row a id (ts : Z) : option Z :=
  k ← key_of id; v ← index_of k (keys a); if valid_row a ts v then Some v else None.
Definition rows_at a (ts : Z) : list Z := filter (λ v, valid_row a ts v = true) (seqZ 0 (len (keys a))).

(** Every read of [t] at every timestamp is the read of the lists [a]. *)
Record shows t a : Prop := {
  sh_index : ∀ id ts, id_ok id → 0 ≤ ts → get_index id ts t = Ok (lookup_row a id ts);
  sh_oid : ∀ v ts, 0 ≤ v → 0 ≤ ts →
    GetOid v ts t = if valid_row a ts v then of_option InvalidArgument (KeyValue <$> keys a !! Z.to_nat v) else Throw InvalidArgument;
  sh_lid : ∀ v ts, 0 ≤ v → 0 ≤ ts → IsValidLid v ts t = valid_row a ts v;
  sh_scan : ∀ ts, 0 ≤ ts → VertexTimestamp.foreach_vertex (LidNum t) ts (v_ts_ t) = rows_at a ts;
  sh_set : ∀ ts, 0 ≤ ts → VertexSet.vertices (v_ts_ t) (LidNum t) ts = rows_at a ts;
  sh_num : ∀ ts, 0 ≤ ts → VertexNum ts t = len (rows_at a ts);
  sh_row : ∀ v : nat, Z.of_nat v < vcap a →
    Some <$> Table.get_row (Z.of_nat v) (table_ t) = (λ col, col !! v) <$> cols a;
  sh_size : Size t = len (keys a) ∧ Capacity t = vcap a
}.

Lemma rows_at_below t a ts : krep t a → 0 ≤ ts → valid_below (v_ts_ t) ts (len (keys a)) = rows_at a ts.
Proof.
  intros Hk Hts. unfold valid_below, rows_at. apply filter_ext_in. intros v Hv%elem_of_seqZ.
  change (VertexTimestamp.IsVertexValid v ts (v_ts_ t)) with (IsVertexValid v ts t). by rewrite (valid_row_spec t a) by (done || lia).
Qed.

Lemma rep_index t a id ts : krep t a → id_ok id → 0 ≤ ts → get_index id ts t = Ok (lookup_row a id ts).
Proof.
  intros Hk Hid Hts. unfold get_index, lookup_row. rewrite (get_index_key t a) by done.
  destruct (key_of id) as [k|]; cbn; [|done]. destruct (index_of k (keys a)) as [v|] eqn:E; cbn; [|done].
  apply index_of_Some in E as [Hv _]; [|apply Hk]. rewrite (valid_row_spec t a) by done. by destruct (valid_row a ts v).
Qed.

Lemma rep_oid t a v ts : krep t a → 0 ≤ v → 0 ≤ ts →
  GetOid v ts t = if valid_row a ts v then of_option InvalidArgument (KeyValue <$> keys a !! Z.to_nat v) else Throw InvalidArgument.
Proof.
  intros Hk Hv Hts. unfold GetOid, Size, LFIndexer.size. rewrite (krep_num _ _ Hk), (valid_row_spec t a) by done.
  destruct (valid_row a ts v) eqn:E; cbn [negb]; [|by destruct (_ <=? v)].
  pose proof (valid_row_lt t a v ts Hk Hv E). rewrite (proj2 (Z.leb_gt _ _)) by lia.
  rewrite <- (kr_keys _ _ Hk), contents_lookup; [done|]. rewrite (krep_num _ _ Hk). lia.
Qed.
End refinement.

(** ** The iterator over vertices *)

Section iterator.
Import VertexTable.VertexSet.
Context (s : VertexTimestamp.t) (limit ts : Z).

Abbreviation is_valid := (λ v, VertexTimestamp.IsVertexValid v ts s = true).

Lemma seqZ_cons v : v < limit → seqZ v (limit - v) = v :: seqZ (v + 1) (limit - (v + 1)).
Proof.
  intros Hv. replace (limit - v) with (1 + (limit - (v + 1))) by lia. by rewrite seqZ_app by lia.
Qed.

Lemma skip_filter fuel v :
  v ≤ limit → limit - v ≤ Z.of_nat fuel →
  let w := skip s limit ts fuel v in
  v ≤ w ≤ limit ∧ (w = limit ∨ is_valid w) ∧ filter is_valid (seqZ v (limit - v)) = filter is_valid (seqZ w (limit - w)).
Proof.
  revert v. induction fuel as [|fuel IH]; intros v Hv Hf; cbn [skip].
  { cbn. split_and!; [lia|lia|left; lia|done]. }
  destruct (Z.ltb_spec v limit); cbn [andb]; [|split_and!; [lia|lia|left; lia|done]].
  destruct (VertexTimestamp.IsVertexValid v ts s) eqn:E; cbn [negb]; [split_and!; [lia|lia|by right|done]|].
  destruct (IH (v + 1)) as (? & ? & Hfil); [lia|lia|]. split_and!; [lia|lia|done|].
  rewrite seqZ_cons, filter_cons, decide_False by (lia || congruence). exact Hfil.
Qed.

Lemma collect_filter fuel v :
  0 ≤ v ≤ limit → limit - v < Z.of_nat fuel → v = limit ∨ is_valid v →
  collect s limit ts fuel v = filter is_valid (seqZ v (limit - v)).
Proof.
  revert v. induction fuel as [|fuel IH]; intros v Hv Hf Hok; [lia|]. cbn [collect].
  destruct (Z.eqb_spec v limit) as [->|Hne]; [by rewrite Z.sub_diag|].
  destruct Hok as [->|Hok]; [done|]. rewrite seqZ_cons, filter_cons, decide_True by (done || lia). f_equal.
  destruct (skip_filter (Z.to_nat limit) (v + 1)) as (? & ? & ->); [lia|lia|]. apply IH; [unfold next; lia|unfold next; lia|done].
Qed.

Lemma vertices_filter : 0 ≤ limit → vertices s limit ts = filter is_valid (seqZ 0 limit).
Proof.
  intros Hl. unfold vertices, begin. destruct (skip_filter (Z.to_nat limit) 0) as (? & ? & E); [lia|lia|].
  rewrite Z.sub_0_r in E. rewrite E. apply collect_filter; [lia|lia|done].
Qed.
End iterator.

(** ** Guarantees *)

Section guarantees.
Import VertexTable.
Context {K KC C : Type} `{!KeyColumn K KC} `{!KeyColumnLaws K KC} `{!PrimaryKey K} `{!PrimaryKeyLaws K}.
Context `{!ColumnBase C} `{!ColumnLaws C} (vs : VertexSchema).
Abbreviation T := (vtable KC C).
Implicit Types (t : T).

Lemma rep_shows t a : rep vs t a → shows t a.
Proof.
  intros [Hk Hc]. pose proof (krep_num _ _ Hk) as Hnum. pose proof (kr_max _ _ Hk). pose proof (krep_bound _ _ Hk).
  pose proof (kr_ts _ _ Hk) as Ht. pose proof (tr_inv _ _ _ Ht) as Hi. pose proof (tr_init _ _ _ Ht). pose proof (kr_len _ _ Hk).
  split; unfold LidNum, VertexNum, IsValidLid, Size, LFIndexer.size; rewrite ?Hnum.
  - intros. by apply rep_index.
  - intros. by apply rep_oid.
  - intros v ts Hv Hts. rewrite (valid_row_spec t a) by done.
    destruct (valid_row a ts v) eqn:E; [|apply andb_false_r]. apply (valid_row_lt t a v ts Hk Hv) in E.
    by rewrite (proj2 (Z.ltb_lt _ _)).
  - intros ts Hts. rewrite foreach_vertex_valid, Z.min_l, Z.max_r by (done || lia). by apply rows_at_below.
  - intros ts Hts. rewrite vertices_filter by lia. by apply rows_at_below.
  - intros ts Hts. rewrite ValidVertexNum_count, Z.min_l by (done || lia). by rewrite (rows_at_below t a).
  - intros v Hv. rewrite (get_row_ok (vcap a)) by (done || apply Hc). by rewrite (cr_rows _ _ _ Hc).
  - split; [done|]. apply Hk.
Qed.

Definition fresh_column c (v : Value) : Prop := col_wf c ∧ col_rows c = [] ∧ col_keeps c v.
Definition empty_state (n : nat) : vstate (K := K) := MkState [] [] (replicate n []) 0 true.

Lemma Init_rep c t :
  Init c vs = Ok t → kc_wf c → kc_size c = 0 →
  Forall2 fresh_column (Table.columns_ (table_ t)) (default_property_values vs) →
  len (Table.columns_ (table_ t)) < 2^31 →
  rep vs t (empty_state (length (Table.columns_ (table_ t)))).
Proof.
  unfold Init. intros Hi Hc Hz Hf Hl. apply res_bind_ok in Hi as (b & _ & [= <-]). cbn [table_] in *. split.
  - destruct (inv_Init 0 4096) as (Hi & Hm & Ha); [lia..|]. split; cbn [indexer_ v_ts_ keys born pristine vcap empty_state].
    + by apply OpenEmpty_inv.
    + done.
    + apply NoDup_nil_2.
    + split; [done|done|done|]. intros v. rewrite Ha. cbn. destruct (Z.leb_spec 0 v), (Z.ltb_spec v 0); done || lia.
    + done.
    + done.
    + rewrite Hm. done.
  - split; try done; cbn [table_ vcap cols empty_state].
    + apply Forall_lookup. intros i x Hx. destruct (Forall2_lookup_l _ _ _ _ _ Hf Hx) as (v & _ & Hw & Hr & _).
      split; [done|]. by rewrite Hr.
    + unfold rows_of. rewrite <- (length_fmap col_rows). symmetry. apply replicate_as_Forall. split; [done|].
      apply Forall_fmap, Forall_lookup. intros i x Hx. by destruct (Forall2_lookup_l _ _ _ _ _ Hf Hx) as (v & _ & _ & Hr & _).
    + eapply Forall2_impl; [done|]. intros x v (_ & _ & Hk). done.
    + by rewrite length_replicate.
Qed.

(** C24: A vertex table is a list of keys with the time each vertex
    exists from, and columns of values.  Take an initialised table and a
    sequence of additions (of new and of deleted keys, refused for live keys,
    bad keys and a full table), property updates, deletions by id, by key and in
    batches, restored deletions, compactions and growth, under these conditions: keys and
    values are stored unchanged by their columns (no string longer than its
    column's width and no null value; over-long keys are not described,
    [long_key_lost]); the bytes written fit the columns; ids and timestamps are in range and a
    timestamp is not the mark of deletion; only a vertex that existed is restored, after a
    compaction only at timestamp 0; the capacity stays within 2^31; and a
    deleted key is not added again at timestamp 0 after a compaction with a spurious failure.
    An addition comes with the outcome of its weak exchange.  Then the
    sequence, including the calls that throw (an exchange that fails
    spuriously throws and leaves a new key in the index, without a vertex), returns what the
    same sequence on the lists returns.  After it
    every read agrees with the lists at every timestamp: the vertex of a
    key, the key of a vertex, scans by function and by iterator, the count, and
    the properties of every row, the default where none was written. *)
Theorem vertex_rows_refine c t os a rs :
  Init c vs = Ok t → kc_wf c → kc_size c = 0 →
  Forall2 fresh_column (Table.columns_ (table_ t)) (default_property_values vs) → len (Table.columns_ (table_ t)) < 2^31 →
  Forall (keeps_op t) os → affords t (zsum key_cost os) (zsum (value_cost vs) os) →
  spec_run vs os (empty_state (length (Table.columns_ (table_ t)))) = Some (a, rs) →
  ∃ t', run os t = (t', rs) ∧ shows t' a.
Proof.
  intros Hi Hc Hz Hf Hl Hk Hb Hs. pose proof (Init_rep c t Hi Hc Hz Hf Hl) as Hr.
  destruct (vertex_run vs os t _ a rs Hr Hs Hk Hb) as (t' & E & Hr'). exists t'. split; [done|by apply rep_shows].
Qed.
End guarantees.

(** ** 64-bit keys with an integer and a string property *)

Definition int64_key : PrimaryKey Z := {|
  key_type := kInt64;
  GetKey := λ v, let 'MkValue _ _ p := v in match p with V_bigint z => Some z | _ => None end;
  KeyValue := λ z, scalar kInt64 (V_bigint z)
|}.

Lemma int64_key_laws : @PrimaryKeyLaws Z int64_key.
Proof. by split. Qed.

Section example.
Import VertexTable.
#[local] Existing Instances int64_key int64_key_laws no_nested no_nested_laws PropertyColumn.column_base.
#[local] Instance example_keys : KeyColumn Z (TypedColumn.column Z) := fixed_keys GHash_int64.
#[local] Instance example_laws : KeyColumnLaws Z (TypedColumn.column Z) := fixed_laws GHash_int64.

Definition example_schema : VertexSchema :=
  MkSchema [[97]; [98]] [MkDataType kInt32 None; MkDataType kVarchar None]
    [scalar kInt32 (V_integer 0); Value_STRING [45]] ([105], 0).
Definition example_table : vtable (TypedColumn.column Z) (PropertyColumn.column Empty_set) :=
  match Init TypedColumn.OpenEmpty example_schema with
  | Ok t => t
  | Throw _ => MkVTable (LFIndexer.OpenEmpty TypedColumn.OpenEmpty) (Table.MkTable ∅ [] []) VertexTimestamp.fresh example_schema
  end.
Definition key7 : Value := scalar kInt64 (V_bigint 7).
Definition sample_row (n : Z) (s : list Z) : list Value := [scalar kInt32 (V_integer n); Value_STRING s].

(** No exchange fails spuriously, or every one does. *)
Definition steady (_ : Z) : bool := false.
Definition flaky (_ : Z) : bool := true.

(** A vertex is added after a spurious failure, found to exist, deleted, added again at a later time and
    updated. *)
Definition example_ops : list vop :=
  [OpAdd steady key7 (sample_row 1 [120]) 3; OpEnsure 10; OpAdd flaky key7 (sample_row 1 [120]) 3;
   OpAdd steady key7 (sample_row 1 [120]) 3; OpAdd steady key7 (sample_row 2 [121]) 4; OpDeleteById key7 5;
   OpAdd steady key7 (sample_row 2 [121]) 6; OpUpdate 0 1 (Value_STRING [122; 122]) 6; OpUpdate 0 1 (Value_STRING [122; 122]) 5;
   OpAdd steady (Value_STRING [55]) (sample_row 0 []) 7; OpCompact].
Definition example_returns : list (res vret) :=
  [Ok (RAdded None); Ok (RCapacity 4096); Throw InternalError; Ok (RAdded (Some 0)); Throw InvalidArgument; Ok RDone;
   Ok (RAdded (Some 0)); Ok (RUpdated true); Ok (RUpdated false); Throw StorageError; Ok RDone].

Definition example_state : vstate (K := Z) :=
  default (empty_state 2) (fst <$> spec_run example_schema example_ops (empty_state 2)).

Lemma vertex_rows_refine_witness :
  ∃ t, run example_ops example_table = (t, example_returns) ∧ get_index key7 0 t = Ok (Some 0) ∧
       Table.get_row 0 (table_ t) = sample_row 2 [122; 122] ∧ Table.get_row 1 (table_ t) = sample_row 0 [45].
Proof.
  destruct (vertex_rows_refine example_schema TypedColumn.OpenEmpty example_table example_ops example_state example_returns)
    as (t & E & Hs).
  - by vm_compute.
  - done.
  - done.
  - repeat constructor; try done; cbn; try (by eexists).
  - done.
  - unfold example_ops. repeat (apply Forall_cons_2; [cbn [keeps_op]|]); [..|by apply Forall_nil_2];
      first [ exact I
            | split; [intros H; by vm_compute in H|split; [intros k _; exact I|repeat constructor; by eexists]]
            | split; [intros H; by eexists|split; [intros k _; exact I|repeat constructor; by eexists]]
            | intros c Hc; vm_compute in Hc; simplify_eq; by eexists
            | intros _; by eexists ].
  - split; [done|]. repeat constructor; by vm_compute.
  - by vm_compute.
  - assert (Hcap : 1 < vcap example_state) by (by vm_compute). exists t. split_and!; [exact E| |..].
    + rewrite (sh_index _ _ Hs key7 0); [by vm_compute|intros _; by eexists|apply Z.le_refl].
    + apply (inj (fmap Some)). transitivity ((λ col : list Value, col !! 0%nat) <$> cols example_state);
        [exact (sh_row _ _ Hs 0%nat (Z.lt_trans _ _ _ Z.lt_0_1 Hcap))|by vm_compute].
    + apply (inj (fmap Some)). transitivity ((λ col : list Value, col !! 1%nat) <$> cols example_state);
        [exact (sh_row _ _ Hs 1%nat Hcap)|by vm_compute].
Defined.
End example.
