(* ===== verification/VertexTableInserts.v ===== *)
(** * Bulk inserts and inserts through a view

    The two ways to fill a vertex table beside AddVertex: chunks of rows, whose
    keys are indexed together before their timestamps are set, and the view
    insert transactions write through, which never grows a column. *)

From S2P Require Import Prelude Values StringColumn StringColumnProperties VertexTimestamp LFIndexer LFIndexerTable.
From S2P Require Import LFIndexerProperties KeyColumns Tables PropertyColumns TableRows VertexTable VertexTableProperties.

Section inserts.
Import VertexTable.
Context {K KC C : Type} `{!KeyColumn K KC} `{!KeyColumnLaws K KC} `{!PrimaryKey K} `{!PrimaryKeyLaws K}.
Context `{!ColumnBase C} `{!ColumnLaws C}.
Abbreviation T := (vtable KC C).
Implicit Types (t : T) (ks oids : list K) (bs : list (option Z)).










(** ** The second pass of the table *)














(** ** The view *)

Lemma view_insert_ok n i vals (b : Table.table C) :
  Forall (holds n) (Table.columns_ b) → 0 ≤ i < n → Forall2 (ready false) (Table.columns_ b) vals →
  ∃ b', VertexTableView.insert i vals b = (b', Ok tt) ∧ Forall (holds n) (Table.columns_ b') ∧
    rows_of b' = zip_with (λ col v, <[Z.to_nat i := v]> col) (rows_of b) vals ∧
    Forall2 (evolves (row_cost vals)) (Table.columns_ b) (Table.columns_ b').
Proof.
  intros Hh Hi Hr. destruct (set_each_ok n i _ _ false Hh Hi Hr) as (cs & E & Hcs & Hrows & Hev).
  exists (Table.set_columns cs b). unfold VertexTableView.insert.
  rewrite (Forall2_length _ _ _ Hr), Nat.ltb_irrefl, E. by split_and!.
Qed.

(** An insert transaction adds a vertex through a view that may not
    grow any column. As long as the buffers of the key and property columns
    have room for the values, the view behaves on every branch as the growing insert does
    on the lists: a full table answers false, a bad key, a live vertex and one
    that exists only later throw and change no row, a spurious failure of the exchange
    throws with the key in the index, and a new or deleted key
    gets its row with the given properties. *)
Theorem view_add_exact vs weak t a id props ts a' r :
  rep vs t a → spec_op vs (OpAdd weak id props ts) a = Some (a', r) → id_ok id → key_ready false id t →
  Forall2 (ready false) (Table.columns_ (table_ t)) props →
  ∃ t', VertexTableView.AddVertex weak id props ts t = (t', match r with
          | Ok (RAdded v) => Ok v | Ok _ => Throw InternalError | Throw e => Throw e end) ∧ shows t' a'.
Proof.
  intros [Hk Hc] Hs Hid Hrd Hp. cbn [spec_op] in Hs. destruct (is_ts ts) eqn:Hts; [|done]. apply is_ts_spec in Hts. cbn [negb] in Hs.
  unfold VertexTableView.AddVertex. st_step. unfold Size, LFIndexer.size. rewrite (kr_cap _ _ Hk), (krep_num _ _ Hk).
  destruct (Z.leb_spec (vcap a) (len (keys a))); simplify_eq/=; [exists t; split; [done|by apply (rep_shows vs)]|].
  destruct (exchange_known weak id ts a) eqn:Hw; [|done]. cbn [negb] in *.
  destruct (pk_step weak t a id ts false) as (t1 & E & Hk1 & Ht1 & Hsc & _); try done.
  rewrite E. destruct (spec_pk_frame weak id ts a) as (Ec & Ecap & _).
  pose proof (spec_pk_range weak id ts a) as Hrange. pose proof (crep_pk vs weak t t1 a id ts Hc Ht1 Hsc) as Hc1.
  destruct (spec_pk weak id ts a) as [a1 [v|e]]; cbn [fst snd] in *; simplify_eq.
  - destruct (view_insert_ok (vcap a) v props (table_ t)) as (b & Eb & Hb & Hrows & Hev); [apply Hc| |done|].
    { specialize (Hrange v (kr_nodup _ _ Hk) eq_refl). lia. }
    unfold with_table, on. rewrite Ht1, Eb. eexists. split; [done|]. apply (rep_shows vs).
    split; [by destruct Hk1|]. eapply (crep_table vs b _ t1 _ a1); try done.
    + cbn. by rewrite Ecap.
    + cbn. rewrite Hrows, (cr_rows _ _ _ Hc), Ec. done.
    + cbn. rewrite length_zip_with, Ec, (cols_length vs t a Hc). apply Forall2_length in Hp. lia.
    + rewrite Ht1. exact Hev.
  - exists t1. split; [done|]. by apply (rep_shows vs).
Qed.
End inserts.

(** ** 64-bit keys with an integer property *)

Section example.
Import VertexTable.
#[local] Existing Instances int64_key int64_key_laws no_nested no_nested_laws PropertyColumn.column_base example_keys example_laws.

Definition count_schema : VertexSchema := MkSchema [[97]] [MkDataType kInt32 None] [scalar kInt32 (V_integer 0)] ([105], 0).
Definition count_table : vtable (TypedColumn.column Z) (PropertyColumn.column Empty_set) :=
  match Init TypedColumn.OpenEmpty count_schema with Ok t => t | Throw _ => example_table end.
Definition count_ops : list vop :=
  [OpEnsure 10; OpAdd steady key7 [scalar kInt32 (V_integer 1)] 3; OpAdd steady (scalar kInt64 (V_bigint 8)) [scalar kInt32 (V_integer 2)] 4; OpDelete 0 5].
Definition count_state : vstate (K := Z) := default (empty_state 1) (fst <$> spec_run count_schema count_ops (empty_state 1)).
Definition filled_table : vtable (TypedColumn.column Z) (PropertyColumn.column Empty_set) := (run count_ops count_table).1.

Lemma filled_rep : rep count_schema filled_table count_state.
Proof.
  destruct (vertex_run count_schema count_ops count_table (empty_state 1) count_state
    [Ok (RCapacity 4096); Ok (RAdded (Some 0)); Ok (RAdded (Some 1)); Ok RDone]) as (t & E & Hr).
  - by apply (Init_rep count_schema TypedColumn.OpenEmpty); [vm_compute|..|repeat constructor; by eexists|].
  - by vm_compute.
  - unfold count_ops. repeat (apply Forall_cons_2; [cbn [keeps_op]|]); [..|by apply Forall_nil_2];
      first [ exact I | split; [intros H; by eexists|split; [intros k _; exact I|repeat constructor; by eexists]] ].
  - split; [done|]. repeat constructor.
  - unfold filled_table. by rewrite E.
Qed.

Lemma filled_columns : ∃ c, Table.columns_ (table_ filled_table) = [PropertyColumn.Fixed kInt32 (V_integer 0) c].
Proof.
  assert (H : match Table.columns_ (table_ filled_table) with
              | [PropertyColumn.Fixed kInt32 (V_integer 0) _] => true | _ => false end = true) by (by vm_compute).
  destruct (Table.columns_ (table_ filled_table)) as [|[[] [] c| | |] [|]]; try done; destruct z; try done. by exists c.
Qed.




Lemma view_add_exact_witness :
  ∃ t', VertexTableView.AddVertex steady key7 [scalar kInt32 (V_integer 5)] 6 filled_table = (t', Ok (Some 0)) ∧
    get_index key7 6 t' = Ok (Some 0) ∧ Table.get_row 0 (table_ t') = [scalar kInt32 (V_integer 5)].
Proof.
  set (o := spec_op count_schema (OpAdd steady key7 [scalar kInt32 (V_integer 5)] 6) count_state).
  destruct (view_add_exact count_schema steady filled_table count_state key7 [scalar kInt32 (V_integer 5)] 6
    (from_option fst count_state o) (Ok (RAdded (Some 0)))) as (t' & E & Hs).
  - exact filled_rep.
  - by vm_compute.
  - intros _. by eexists.
  - intros k _. split; exact I.
  - destruct filled_columns as [c ->]. repeat constructor. by eexists.
  - assert (Hcap : 0 < vcap (from_option fst count_state o)) by (by vm_compute). exists t'. split_and!; [exact E| |].
    + rewrite (sh_index _ _ Hs key7 6); [by vm_compute|intros _; by eexists|lia].
    + apply (inj (fmap Some)). transitivity ((λ col : list Value, col !! 0%nat) <$> cols (from_option fst count_state o));
        [exact (sh_row _ _ Hs 0%nat Hcap)|by vm_compute].
Defined.
End example.
