(* ===== verification/CsrBase.v ===== *)
(** * Adjacency tables behind their interface

    CsrBase (include/neug/storages/csr/csr_base.h): the five kinds of adjacency
    table behind one set of virtual functions, with the data of an edge as the
    payload of a value; EmptyCsr, which stores nothing; the generic view with its
    lists of entries; and the search for the entry of the other direction
    (src/storages/csr/csr_view_utils.cc). *)

From stdpp Require Import gmap.
From S2P Require Import Prelude Values StringColumn PropertyColumns RedoRecords CsrView MutableCsr SingleMutableCsr ImmutableCsr.

(** What the environment decides: memory nothing was written to, the padding of
    an entry, whether an empty container has a null pointer, and [std::sort]. *)
Class Memory := {
  junk_nbr : MutableNbr Val;
  junk_inbr : ImmutableNbr Val;
  padding : Z;
  null_base : bool;
  sort_nbrs : list (MutableNbr Val) → list (MutableNbr Val);
  sort_inbrs : list (ImmutableNbr Val) → list (ImmutableNbr Val)
}.

Module Csr.

Inductive table :=
  | Mutable (m : MutableCsr.csr Val)
  | SingleMutable (m : SingleMutableCsr.csr Val)
  | Immutable (m : ImmutableCsr.csr Val)
  | SingleImmutable (m : SingleImmutableCsr.csr Val)
  | Empty.

(** A table with the type of its edge data, the parameter of the template. *)
Record csr := MkCsr { edata : DataTypeId; body : table }.

Inductive CsrType := TImmutable | TMutable | TSingleMutable | TSingleImmutable | TEmpty.
#[global] Instance CsrType_eq_dec : EqDecision CsrType.
Proof. solve_decision. Defined.
Definition is_empty (c : csr) : bool := match body c with Empty => true | _ => false end.
Definition csr_type (c : csr) : CsrType :=
  match body c with
  | Mutable _ => TMutable | SingleMutable _ => TSingleMutable
  | Immutable _ => TImmutable | SingleImmutable _ => TSingleImmutable | Empty => TEmpty
  end.

(** [GetValue<EDATA_T>]; a value of another type is read through the wrong
    member of its union. *)
Definition GetEData (id : DataTypeId) (v : Value) : option Val :=
  match id with kEmpty => Some V_none | _ => PropertyColumn.GetValue id v end.

(** [create_csr]: the types a table can carry inline. *)
Definition inline_type (id : DataTypeId) : bool :=
  match id with kEmpty => true | _ => bool_decide (is_Some (PropertyColumn.zero_of id)) end.
Definition create_csr_impl (is_mutable : bool) (strategy : EdgeStrategy) : table :=
  match strategy, is_mutable with
  | kSingle, true => SingleMutable (SingleMutableCsr.Open [] 0)
  | kSingle, false => SingleImmutable (SingleImmutableCsr.Open [] 0)
  | kMultiple, true => Mutable MutableCsr.empty_csr
  | kMultiple, false => Immutable (ImmutableCsr.Open [] [] 0 0)
  | _, _ => Empty
  end.
Definition create_csr (is_mutable : bool) (strategy : EdgeStrategy) (id : DataTypeId) : res csr :=
  if inline_type id then Ok (MkCsr id (create_csr_impl is_mutable strategy)) else Throw NotSupported.

Section operations.
Context `{!Memory}.
Implicit Types (c : csr).

Definition put_back {T A} (f : T → table) (c : csr) (x : T * res A) : csr * res A := (MkCsr (edata c) (f x.1), x.2).
Definition quiet {T} (x : T) : T * res unit := (x, Ok tt).

Definition size c : Z :=
  match body c with
  | Mutable m => MutableCsr.vertex_capacity m | SingleMutable m => SingleMutableCsr.vertex_capacity m
  | Immutable m => ImmutableCsr.size m | SingleImmutable m => SingleImmutableCsr.size m | Empty => 0
  end.
Definition edge_num c : Z :=
  match body c with
  | Mutable m => MutableCsr.edge_num m | SingleMutable m => SingleMutableCsr.edge_num m
  | Immutable m => ImmutableCsr.edge_num m | SingleImmutable m => SingleImmutableCsr.edge_num m | Empty => 0
  end.
Definition capacity c : Z :=
  match body c with
  | Mutable _ | Immutable _ => 2^64 - 1
  | SingleMutable m => SingleMutableCsr.vertex_capacity m | SingleImmutable m => SingleImmutableCsr.capacity m
  | Empty => 0
  end.

Definition resize (vnum : Z) c : csr * res unit :=
  match body c with
  | Mutable m => put_back Mutable c (quiet (MutableCsr.resize vnum m))
  | SingleMutable m => put_back SingleMutable c (SingleMutableCsr.resize junk_nbr vnum m)
  | Immutable m => put_back Immutable c (quiet (ImmutableCsr.resize vnum m))
  | SingleImmutable m => put_back SingleImmutable c (quiet (SingleImmutableCsr.resize junk_inbr vnum m))
  | Empty => (c, Ok tt)
  end.
Definition compact c : csr * res unit :=
  match body c with
  | Mutable m => put_back Mutable c (MutableCsr.compact m)
  | SingleMutable m => put_back SingleMutable c (quiet (SingleMutableCsr.compact m))
  | Immutable m => put_back Immutable c (ImmutableCsr.compact m)
  | SingleImmutable m => put_back SingleImmutable c (quiet (SingleImmutableCsr.compact m))
  | Empty => (c, Ok tt)
  end.
Definition batch_sort_by_edge_data (ts : Z) c : csr * res unit :=
  match body c with
  | Mutable m => put_back Mutable c (quiet (MutableCsr.batch_sort_by_edge_data sort_nbrs ts m))
  | Immutable m => put_back Immutable c (quiet (ImmutableCsr.batch_sort_by_edge_data sort_inbrs ts m))
  | SingleMutable _ | SingleImmutable _ | Empty => (c, Ok tt)
  end.
Definition batch_delete_vertices (src_set dst_set : gset Z) c : csr * res unit :=
  match body c with
  | Mutable m => put_back Mutable c (quiet (MutableCsr.batch_delete_vertices src_set dst_set m))
  | SingleMutable m => put_back SingleMutable c (quiet (SingleMutableCsr.batch_delete_vertices src_set dst_set m))
  | Immutable m => put_back Immutable c (ImmutableCsr.batch_delete_vertices src_set dst_set m)
  | SingleImmutable m => put_back SingleImmutable c (quiet (SingleImmutableCsr.batch_delete_vertices src_set dst_set m))
  | Empty => (c, Ok tt)
  end.
Definition batch_delete_edges (src_list dst_list : list Z) c : csr * res unit :=
  match body c with
  | Mutable m => put_back Mutable c (quiet (MutableCsr.batch_delete_edges src_list dst_list m))
  | SingleMutable m => put_back SingleMutable c (quiet (SingleMutableCsr.batch_delete_edges src_list dst_list m))
  | Immutable m => put_back Immutable c (quiet (ImmutableCsr.batch_delete_edges src_list dst_list m))
  | SingleImmutable m => put_back SingleImmutable c (quiet (SingleImmutableCsr.batch_delete_edges src_list dst_list m))
  | Empty => (c, Ok tt)
  end.
Definition batch_delete_edges_offsets (edges : list (Z * Z)) c : csr * res unit :=
  match body c with
  | Mutable m => put_back Mutable c (MutableCsr.batch_delete_edges_offsets edges m)
  | SingleMutable m => put_back SingleMutable c (quiet (SingleMutableCsr.batch_delete_edges_offsets edges m))
  | Immutable m => put_back Immutable c (ImmutableCsr.batch_delete_edges_offsets edges m)
  | SingleImmutable m => put_back SingleImmutable c (quiet (SingleImmutableCsr.batch_delete_edges_offsets edges m))
  | Empty => (c, Ok tt)
  end.
Definition delete_edge (src offset ts : Z) c : csr * res unit :=
  match body c with
  | Mutable m => put_back Mutable c (MutableCsr.delete_edge src offset ts m)
  | SingleMutable m => put_back SingleMutable c (SingleMutableCsr.delete_edge src offset ts m)
  | Immutable m => put_back Immutable c (ImmutableCsr.delete_edge src offset ts m)
  | SingleImmutable m => put_back SingleImmutable c (SingleImmutableCsr.delete_edge src offset ts m)
  | Empty => (c, Ok tt)
  end.
Definition revert_delete_edge (src nbr offset ts : Z) c : csr * res unit :=
  match body c with
  | Mutable m => put_back Mutable c (MutableCsr.revert_delete_edge src nbr offset ts m)
  | SingleMutable m => put_back SingleMutable c (SingleMutableCsr.revert_delete_edge src nbr offset ts m)
  | Immutable m => put_back Immutable c (ImmutableCsr.revert_delete_edge src nbr offset ts m)
  | SingleImmutable m => put_back SingleImmutable c (SingleImmutableCsr.revert_delete_edge src nbr offset ts m)
  | Empty => (c, Ok tt)
  end.

(** [put_edge] of the immutable kinds is the one of the base class, which ends
    the process. *)
Definition put_generic_edge (src dst : Z) (v : Value) (ts : Z) c : csr * res Z :=
  match GetEData (edata c) v with
  | None => (c, Throw OutOfBounds)
  | Some d =>
      match body c with
      | Mutable m => put_back Mutable c (MutableCsr.put_edge junk_nbr src dst d ts m)
      | SingleMutable m => put_back SingleMutable c (SingleMutableCsr.put_edge src dst d ts m)
      | Immutable _ | SingleImmutable _ => (c, Throw CheckFailed)
      | Empty => (c, Ok 0)
      end
  end.

(** [dynamic_cast<TypedCsrBase<T>*>(csr)->batch_put_edges(...)]: a null pointer
    when the types differ. *)
Definition batch_put_edges (id : DataTypeId) (edges : list (Z * Z * Val)) (ts : Z) c : csr * res unit :=
  if bool_decide (edata c = id) then
    match body c with
    | Mutable m => put_back Mutable c (MutableCsr.batch_put_edges junk_nbr null_base edges ts m)
    | SingleMutable m => put_back SingleMutable c (quiet (SingleMutableCsr.batch_put_edges edges ts m))
    | Immutable m => put_back Immutable c (ImmutableCsr.batch_put_edges junk_inbr edges ts m)
    | SingleImmutable m => put_back SingleImmutable c (quiet (SingleImmutableCsr.batch_put_edges edges ts m))
    | Empty => (c, Ok tt)
    end
  else (c, Throw OutOfBounds).

Definition batch_export c : res (list (Z * Z * Val)) :=
  match body c with
  | Mutable m => Ok (MutableCsr.batch_export m)
  | SingleMutable m => Ok (SingleMutableCsr.batch_export m)
  | Immutable _ | SingleImmutable _ => Throw CheckFailed
  | Empty => Ok []
  end.

(** ** Views *)

(** The entries from [start_ptr] to [end_ptr] and those behind.  An entry of an
    immutable table has no timestamp: [ts_offset] is 0, and what is read as its
    timestamp is its neighbour. *)
Record NbrList := MkNbrList { slots : list (MutableNbr Val); beyond : list (MutableNbr Val); has_ts : bool; view_ts : Z }.

Definition as_nbr (e : ImmutableNbr Val) : MutableNbr Val := MkNbr (nbr_id e) (nbr_id e) (nbr_data e).
Definition IMMUTABLE_TS : Z := U32_MAX - 1.

Definition get_edges (ts v : Z) c : res NbrList :=
  match body c with
  | Mutable m =>
      r ← of_option OutOfBounds (MutableCsr.row_at m v);
      Ok (match MutableCsr.buffer r with
          | None => MkNbrList [] [] true ts
          | Some l => MkNbrList (take (Z.to_nat (MutableCsr.size r)) l) (drop (Z.to_nat (MutableCsr.size r)) l) true ts
          end)
  | SingleMutable m =>
      e ← of_option OutOfBounds (SingleMutableCsr.slot m v);
      Ok (MkNbrList [e] (drop (S (Z.to_nat v)) (SingleMutableCsr.slots m)) true ts)
  | Immutable m =>
      r ← of_option OutOfBounds (ImmutableCsr.row_at m v);
      Ok (match ImmutableCsr.adj r with
          | None => MkNbrList [] [] false IMMUTABLE_TS
          | Some p =>
              MkNbrList (as_nbr <$> ImmutableCsr.segment (ImmutableCsr.nbr_list m) r)
                (as_nbr <$> drop (p + ImmutableCsr.degree r) (ImmutableCsr.nbr_list m)) false IMMUTABLE_TS
          end)
  | SingleImmutable m =>
      e ← of_option OutOfBounds (SingleImmutableCsr.slot m v);
      Ok (MkNbrList [as_nbr e] (as_nbr <$> drop (S (Z.to_nat v)) (SingleImmutableCsr.nbr_list m)) false IMMUTABLE_TS)
  | Empty => Throw CheckFailed
  end.

(** Writing an entry in place. *)
Definition store (v : Z) (i : nat) (e : MutableNbr Val) c : csr :=
  match body c with
  | Mutable m =>
      match MutableCsr.row_at m v with
      | Some r => MkCsr (edata c) (Mutable (MutableCsr.store_slot v (Z.of_nat i) r (MutableCsr.contents r) e m))
      | None => c
      end
  | SingleMutable m => MkCsr (edata c) (SingleMutable (SingleMutableCsr.write v e 0 m))
  | Immutable m =>
      match ImmutableCsr.row_at m v with
      | Some r =>
          MkCsr (edata c) (Immutable (ImmutableCsr.MkCsr (ImmutableCsr.rows m)
            (<[(default O (ImmutableCsr.adj r) + i)%nat := MkImmutableNbr (neighbor e) (data e)]> (ImmutableCsr.nbr_list m))
            (ImmutableCsr.unsorted_since_ m) (ImmutableCsr.edge_num_ m)))
      | None => c
      end
  | SingleImmutable m =>
      MkCsr (edata c) (SingleImmutable (SingleImmutableCsr.write v (MkImmutableNbr (neighbor e) (data e)) 0 m))
  | Empty => c
  end.
End operations.
End Csr.

(** ** Equality of edge data

    [operator==] of the inline types: floating-point numbers compare by value,
    so that no NaN equals itself and the two zeros are equal; intervals compare
    after carrying days and months. *)
Definition ieee_eqb (mantissa_bits exponent_max sign : Z) (a b : Z) : bool :=
  let mag x := x `mod` sign in
  let nan x := exponent_max * 2^mantissa_bits <? mag x in
  negb (nan a) && negb (nan b) && ((a =? b) || ((mag a =? 0) && (mag b =? 0))).

Definition MICROS_PER_DAY : Z := 86400 * 1000 * 1000.
Definition DAYS_PER_MONTH : Z := 30.
Definition Interval_normalize (months days micros : Z) : Z * Z * Z :=
  let carry_days := Z.quot micros MICROS_PER_DAY in
  let days := days + carry_days in
  let carry_months := Z.quot days DAYS_PER_MONTH in
  (months + carry_months, days - carry_months * DAYS_PER_MONTH, micros - carry_days * MICROS_PER_DAY).

Definition val_eqb (a b : Val) : bool :=
  match a, b with
  | V_boolean x, V_boolean y => Bool.eqb x y
  | V_integer x, V_integer y | V_bigint x, V_bigint y | V_uinteger x, V_uinteger y | V_ubigint x, V_ubigint y
  | V_date x, V_date y | V_timestamp_ms x, V_timestamp_ms y => x =? y
  | V_float x, V_float y => ieee_eqb 23 255 (2^31) x y
  | V_double x, V_double y => ieee_eqb 52 2047 (2^63) x y
  | V_interval m d u, V_interval m' d' u' =>
      ((m =? m') && (d =? d') && (u =? u')) || bool_decide (Interval_normalize m d u = Interval_normalize m' d' u')
  | _, _ => false
  end.

Module CsrSearch.
Import Csr.

(** The type entries are compared as: of a single inline property, and the
    64-bit word of row ids otherwise. *)
Definition determine_search_prop_type (props : list DataType) : DataTypeId :=
  match props with
  | [p] => match id_ p with kVarchar | kArray | kList | kStruct => kUInt64 | id => id end
  | _ => kUInt64
  end.

(** Entries of these types have no padding in front of their data. *)
Definition narrow (id : DataTypeId) : bool :=
  match id with kBoolean | kInt32 | kUInt32 | kFloat | kDate | kEmpty => true | _ => false end.

Definition NOT_FOUND : Z := 2^31 - 1.

Section search.
Context `{!Memory}.
Implicit Types (l : NbrList).

(** [*reinterpret_cast<const type*>(data_ptr)] at slot [i] of a list whose data
    are of type [ed].  An entry without data ends with its timestamp, or
    neighbour, and the 64 bits at its data are that word and the neighbour of
    the entry behind. *)
Definition read_data (ed ty : DataTypeId) l (i : nat) : res Val :=
  if bool_decide (PropertyColumn.zero_of ty = None) then Throw NotImplemented
  else
    e ← of_option OutOfBounds ((slots l ++ beyond l) !! i);
    if bool_decide (ed = ty) then Ok (data e)
    else
      match ed, ty with
      | kEmpty, kUInt64 =>
          next ← of_option OutOfBounds ((slots l ++ beyond l) !! S i);
          Ok (V_ubigint (timestamp e + 2^32 * neighbor next))
      | _, _ => Throw OutOfBounds
      end.

(** The timestamp in front of the data of slot [i], for an entry compared with
    entries that have one. *)
Definition expected_ts (ed : DataTypeId) l (i : nat) : res Z :=
  e ← of_option OutOfBounds (slots l !! i);
  Ok (if has_ts l then timestamp e else if narrow ed then neighbor e else padding).

(** [expected] is slot [i] of the list [cur]. *)
Fixpoint find_exact_match_in_candidates (ed ty : DataTypeId) (candidates : list nat) l (cur : NbrList) (i : nat) : res Z :=
  match candidates with
  | [] => Ok NOT_FOUND
  | offset :: candidates =>
      d ← read_data ed ty l offset;
      d' ← read_data ed ty cur i;
      if val_eqb d d' && has_ts l then
        e ← of_option OutOfBounds (slots l !! offset);
        t ← expected_ts ed cur i;
        if timestamp e =? t then Ok (Z.of_nat offset)
        else find_exact_match_in_candidates ed ty candidates l cur i
      else find_exact_match_in_candidates ed ty candidates l cur i
  end.

Definition fuzzy_search_offset_from_nbr_list (ed ty : DataTypeId) l (expected_nbr : Z) (cur : NbrList) (i : nat) : res Z :=
  let candidates := (filter (λ p, neighbor p.2 = expected_nbr) (NbrList_iterate (view_ts l) (slots l))).*1 in
  match candidates with
  | [] => Ok NOT_FOUND
  | [offset] => Ok (Z.of_nat offset)
  | _ => find_exact_match_in_candidates ed ty candidates l cur i
  end.

Definition search_other_offset_with_cur_offset (cur_csr other_csr : csr) (ts src_lid other_lid : Z) (cur_offset : nat)
    (props : list DataType) : res Z :=
  other ← get_edges ts other_lid other_csr;
  cur ← get_edges ts src_lid cur_csr;
  fuzzy_search_offset_from_nbr_list (edata other_csr) (determine_search_prop_type props) other src_lid cur cur_offset.

(** An edge record names an entry by a pointer to its data: slot [i] of the list
    [cur].  [inside] tells whether the pointer is in the list searched; if so
    the entry there is compared with itself. *)
Definition get_offset_for_edge_record (ed ty : DataTypeId) (inside : bool) l (expected_nbr : Z) (cur : NbrList) (i : nat) : res Z :=
  if negb inside then fuzzy_search_offset_from_nbr_list ed ty l expected_nbr cur i
  else
    e ← of_option OutOfBounds (slots l !! i);
    if negb (neighbor e =? expected_nbr) then Throw InternalError
    else
      d ← read_data ed ty l i;
      if negb (val_eqb d d) then Throw InternalError else Ok (Z.of_nat i).

(** The offsets in the outgoing and the incoming list of an edge, for a record
    of slot [i] of the list it came from; the assertions that they were found
    are not part of a release build. *)
Definition record_to_csr_offset_pair (oe ie : csr) (ts : Z) (dir_out : bool) (src dst : Z) (i : nat) (props : list DataType) : res (Z * Z) :=
  let ty := determine_search_prop_type props in
  if dir_out then
    cur ← get_edges ts src oe; another ← get_edges ts dst ie;
    cur_offset ← get_offset_for_edge_record (edata oe) ty true cur dst cur i;
    another_offset ← fuzzy_search_offset_from_nbr_list (edata ie) ty another src cur i;
    Ok (cur_offset, another_offset)
  else
    cur ← get_edges ts dst ie; another ← get_edges ts src oe;
    cur_offset ← get_offset_for_edge_record (edata ie) ty true cur src cur i;
    another_offset ← fuzzy_search_offset_from_nbr_list (edata oe) ty another dst cur i;
    Ok (another_offset, cur_offset).
End search.
End CsrSearch.
