(* ===== verification/EdgeSchema.v ===== *)
(** * Edge schemas

    EdgeSchema (include/neug/storages/graph/schema.h, src/storages/graph/
    schema.cc): the properties of an edge triplet with their types, defaults and
    deletion marks in parallel vectors, and how its edges are stored. *)

From S2P Require Import Prelude Values Tables RedoRecords CsrBase.

Module EdgeSchema.

Record schema := MkSchema {
  property_names : list name;
  properties : list DataType;
  default_property_values : list Value;
  eprop_soft_deleted : list bool;
  oe_mutable : bool; ie_mutable : bool;
  oe_strategy : EdgeStrategy; ie_strategy : EdgeStrategy
}.
Implicit Types (s : schema).

Definition with_properties (ns : list name) (ts : list DataType) (vs : list Value) (ds : list bool) s : schema :=
  MkSchema ns ts vs ds (oe_mutable s) (ie_mutable s) (oe_strategy s) (ie_strategy s).

Definition is_bundled s : bool :=
  match properties s with
  | [] => true
  | [p] => match id_ p with kVarchar | kArray | kList | kStruct => false | _ => true end
  | _ => false
  end.

(** [std::find] and [std::distance]. *)
Definition find_property (n : name) s : option nat := fst <$> list_find (n =.) (property_names s).

Definition has_property (n : name) s : bool :=
  match find_property n s with Some i => negb (default true (eprop_soft_deleted s !! i)) | None => false end.
Definition get_property_index (n : name) s : Z :=
  match find_property n s with
  | Some i => if default true (eprop_soft_deleted s !! i) then -1 else Z.of_nat i
  | None => -1
  end.
Definition get_property_name (index : Z) s : res name :=
  if index <? 0 then Throw InvalidArgument else of_option InvalidArgument (property_names s !! Z.to_nat index).
Definition is_property_soft_deleted (n : name) s : res bool :=
  match find_property n s with Some i => of_option OutOfBounds (eprop_soft_deleted s !! i) | None => Throw InvalidArgument end.

Section defaults.
(** [get_default_value] of a type. *)
Context (get_default_value : DataType → Value).

Fixpoint add_properties (names : list name) (types : list DataType) (defaults : list Value) s : schema * res unit :=
  match names with
  | [] => (s, Ok tt)
  | n :: names =>
      if bool_decide (n ∈ property_names s) then (s, Throw RuntimeFailure)
      else match types with
        | [] => (s, Throw OutOfBounds)
        | t :: types =>
            let v := match defaults with v :: _ => v | [] => get_default_value t end in
            add_properties names types (tail defaults)
              (with_properties (property_names s ++ [n]) (properties s ++ [t]) (default_property_values s ++ [v])
                 (eprop_soft_deleted s ++ [false]) s)
        end
  end.
End defaults.

Fixpoint rename_properties (names renames : list name) s : schema * res unit :=
  match names with
  | [] => (s, Ok tt)
  | n :: names =>
      match find_property n s with
      | None => (s, Throw RuntimeFailure)
      | Some j =>
          match eprop_soft_deleted s !! j with
          | Some false =>
              match renames with
              | [] => (s, Throw OutOfBounds)
              | r :: renames =>
                  rename_properties names renames
                    (with_properties (<[j := r]> (property_names s)) (properties s) (default_property_values s)
                       (eprop_soft_deleted s) s)
              end
          | Some true => (s, Throw RuntimeFailure)
          | None => (s, Throw OutOfBounds)
          end
      end
  end.

(** An unknown name is only logged. *)
Definition delete_property (is_soft : bool) s (n : name) : schema :=
  match find_property n s with
  | None => s
  | Some j =>
      if is_soft then with_properties (property_names s) (properties s) (default_property_values s)
                        (<[j := true]> (eprop_soft_deleted s)) s
      else with_properties (delete j (property_names s)) (delete j (properties s)) (delete j (default_property_values s))
             (delete j (eprop_soft_deleted s)) s
  end.
Definition delete_properties (names : list name) (is_soft : bool) s : schema :=
  foldl (delete_property is_soft) s names.

(** ** The vectors stay parallel and the names distinct *)

Definition wf s : Prop :=
  length (properties s) = length (property_names s) ∧ length (default_property_values s) = length (property_names s) ∧
  length (eprop_soft_deleted s) = length (property_names s) ∧ NoDup (property_names s).

Lemma find_property_Some n s j : find_property n s = Some j → property_names s !! j = Some n.
Proof. unfold find_property. intros ([k x] & Hl & ->)%fmap_Some. apply list_find_Some in Hl as (Hk & -> & _). done. Qed.

(** Adding stops at the first name that is taken, with the earlier ones added. *)
Theorem add_properties_wf gd names types defaults s : wf s → wf (add_properties gd names types defaults s).1.
Proof.
  revert types defaults s. induction names as [|n names IH]; intros types defaults s Hs; [done|]. cbn [add_properties].
  destruct (bool_decide_reflect (n ∈ property_names s)) as [|Hn]; [done|]. destruct types as [|ty types]; [done|]. apply IH.
  destruct Hs as (H1 & H2 & H3 & H4). unfold wf. cbn. rewrite !length_app. cbn. split_and!; [lia..|].
  apply NoDup_app. split_and!; [done| |apply NoDup_singleton]. intros x Hx ->%list_elem_of_singleton. done.
Qed.

Lemma delete_property_wf soft s n : wf s → wf (delete_property soft s n).
Proof.
  intros Hs. unfold delete_property. destruct (find_property n s) as [j|] eqn:Hj; [|done].
  apply find_property_Some, lookup_lt_Some in Hj. destruct Hs as (H1 & H2 & H3 & H4). destruct soft; unfold wf; cbn.
  - by rewrite length_insert.
  - rewrite !length_delete by (apply lookup_lt_is_Some; lia). split_and!; [lia..|]. eapply sublist_NoDup; [exact H4|]. apply sublist_delete.
Qed.
Theorem delete_properties_wf names soft s : wf s → wf (delete_properties names soft s).
Proof. unfold delete_properties. revert s. induction names as [|n names IH]; intros s Hs; [done|]. by apply IH, delete_property_wf. Qed.

(** ** Adding properties and deleting them again *)

Definition extend s ns ts vs : schema :=
  with_properties (property_names s ++ ns) (properties s ++ ts) (default_property_values s ++ vs)
    (eprop_soft_deleted s ++ ((λ _, false) <$> ns)) s.

Lemma delete_extend s n ns t ts v vs :
  wf s → n ∉ property_names s → delete_property false (extend s (n :: ns) (t :: ts) (v :: vs)) n = extend s ns ts vs.
Proof.
  intros (H1 & H2 & H3 & _) Hn. unfold delete_property.
  assert (Hf : find_property n (extend s (n :: ns) (t :: ts) (v :: vs)) = Some (length (property_names s))).
  { unfold find_property. cbn. apply fmap_Some. exists (length (property_names s), n). split; [|done]. apply list_find_Some. split_and!; [|done|].
    - rewrite lookup_app_r, Nat.sub_diag by lia. done.
    - intros j y Hj Hlt <-. rewrite lookup_app_l in Hj by done. apply Hn. by eapply list_elem_of_lookup_2. }
  rewrite Hf. unfold extend, with_properties. cbn [property_names properties default_property_values eprop_soft_deleted oe_mutable ie_mutable oe_strategy ie_strategy].
  rewrite fmap_cons.
  f_equal; [|rewrite <- H1|rewrite <- H2|rewrite <- H3]; apply delete_middle.
Qed.

Lemma add_extend gd names types defaults s :
  NoDup names → (∀ n, n ∈ names → n ∉ property_names s) → length types = length names →
  ∃ vs, length vs = length names ∧ add_properties gd names types defaults s = (extend s names types vs, Ok tt).
Proof.
  revert types defaults s. induction names as [|n names IH]; intros [|t types] defaults s Hnd Hfresh Hlen; try done.
  - exists []. split; [done|]. unfold extend. cbn. rewrite !app_nil_r. by destruct s.
  - apply NoDup_cons in Hnd as [Hn Hnd]. cbn [add_properties]. rewrite bool_decide_false by (apply Hfresh; by left).
    set (v := match defaults with v :: _ => v | [] => gd t end).
    destruct (IH types (tail defaults) (with_properties (property_names s ++ [n]) (properties s ++ [t])
      (default_property_values s ++ [v]) (eprop_soft_deleted s ++ [false]) s)) as (vs & Hvs & ->); [done| |by injection Hlen|].
    + intros m Hm. cbn. rewrite elem_of_app, list_elem_of_singleton. intros [Hin| ->]; [|done]. eapply Hfresh; [by right|done].
    + exists (v :: vs). split; [cbn; by rewrite Hvs|]. unfold extend, with_properties. cbn. by rewrite <- !app_assoc.
Qed.

Theorem add_delete_properties gd names types defaults s :
  wf s → NoDup names → (∀ n, n ∈ names → n ∉ property_names s) → length types = length names →
  let x := add_properties gd names types defaults s in x.2 = Ok tt ∧ delete_properties names false x.1 = s.
Proof.
  intros Hwf Hnd Hfresh Hlen. destruct (add_extend gd names types defaults s Hnd Hfresh Hlen) as (vs & Hvs & ->).
  split; [done|]. unfold delete_properties. cbn [fst]. clear Hnd. revert types vs Hlen Hvs Hfresh.
  induction names as [|n names IH]; intros [|t types] [|v vs] Hlen Hvs Hfresh; try done.
  - unfold extend. cbn. rewrite !app_nil_r. by destruct s.
  - cbn [foldl]. rewrite delete_extend by (done || apply Hfresh; by left). apply IH; [by injection Hlen|by injection Hvs|].
    intros m Hm. apply Hfresh. by right.
Qed.

End EdgeSchema.
