(* ===== verification/LabelIndexer.v ===== *)
(** * Label ids

    LabelIndexer (src/storages/graph/schema.cc): the names of labels by 8-bit
    ids, with a map back and the ids of removed labels to use again; and the
    bytes it is stored as.  The key of an edge triplet packs three ids. *)

From stdpp Require Import gmap.
From S2P Require Import Prelude Archive Tables.

Module LabelIndexer.

Record t := MkIndexer { keys_ : list name; index_ : gmap name Z; free_list_ : list Z }.
Implicit Types (x : t) (n : name).

Definition empty_indexer : t := MkIndexer [] ∅ [].

(** Whether the label is new, and its id. *)
Definition add n x : t * res (bool * Z) :=
  match index_ x !! n with
  | Some lid => (x, Ok (false, lid))
  | None =>
      match last (free_list_ x) with
      | Some lid =>
          (MkIndexer (<[Z.to_nat lid := n]> (keys_ x)) (<[n := lid]> (index_ x)) (removelast (free_list_ x)), Ok (true, lid))
      | None =>
          if 256 <=? Z.of_nat (length (keys_ x)) then (x, Throw Overflow)
          else let lid := Z.of_nat (length (keys_ x)) in
               (MkIndexer (keys_ x ++ [n]) (<[n := lid]> (index_ x)) (free_list_ x), Ok (true, lid))
      end
  end.
Definition get_index n x : option Z := index_ x !! n.
Definition get_key (lid : Z) x : res name :=
  if Z.of_nat (length (keys_ x)) <=? lid then Throw IndexError else of_option OutOfBounds (keys_ x !! Z.to_nat lid).
(** The id of the removed label, or the largest one. *)
Definition remove n x : t * Z :=
  match index_ x !! n with
  | None => (x, 255)
  | Some lid => (MkIndexer (keys_ x) (delete n (index_ x)) (free_list_ x ++ [lid]), lid)
  end.
Definition num_slots x : Z := Z.of_nat (length (keys_ x)).
Definition size x : Z := Z.of_nat (base.size (index_ x)).

(** ** Storing *)

Definition Serialize x : list Z :=
  let arc := (put_u32 1 << put_vector put_string (keys_ x) << put_vector put_u8 (free_list_ x)).1 in
  le 8 (Z.of_nat (length arc)) ++ arc.

(** The map is built again from the names that are not vacant; the first of two
    equal ones is kept. *)
Definition reindex (keys : list name) (free : list Z) : gmap name Z :=
  foldl (λ m p, if decide (p.2 ∈ free) then m else if decide (is_Some (m !! p.1)) then m else <[p.1 := p.2]> m) ∅
    (imap (λ i k, (k, Z.of_nat i)) keys).
Definition read_indexer : parser t :=
  version ← get_u32;
  if negb (version =? 1) then get_fail RuntimeFailure
  else
    keys ← get_vector get_string;
    free ← get_vector get_u8;
    if forallb (λ lid, lid <? Z.of_nat (length keys)) free
    then mret (MkIndexer keys (reindex keys free) free) else get_fail RuntimeFailure.
Definition Deserialize : parser t := λ bs,
  match (size ← get_u64; GetBytes size) bs with
  | Throw e => Throw e
  | Ok (arc, rest) => match read_indexer arc with Ok (x, _) => Ok (x, rest) | Throw e => Throw e end
  end.

(** ** The invariant *)

(** A name has an id exactly when it is at a slot that is not vacant. *)
Record wf x : Prop := MkWf {
  wf_index : ∀ n i, index_ x !! n = Some i ↔ 0 ≤ i ∧ keys_ x !! Z.to_nat i = Some n ∧ i ∉ free_list_ x;
  wf_free : Forall (λ i, 0 ≤ i < num_slots x) (free_list_ x);
  wf_vacant : NoDup (free_list_ x);
  wf_size : num_slots x ≤ 256
}.

Lemma wf_empty : wf empty_indexer.
Proof. split; cbn; [|constructor|constructor|done]. intros n i. rewrite lookup_empty. naive_solver. Qed.

Lemma wf_inj x n n' i : wf x → index_ x !! n = Some i → index_ x !! n' = Some i → n = n'.
Proof. intros Hw (_ & H1 & _)%(wf_index _ Hw) (_ & H2 & _)%(wf_index _ Hw). congruence. Qed.
Lemma wf_bound x n i : wf x → index_ x !! n = Some i → 0 ≤ i < num_slots x ∧ i < 256.
Proof. intros Hw (H0 & H1 & _)%(wf_index _ Hw). apply lookup_lt_Some in H1. pose proof (wf_size _ Hw). unfold num_slots in *. lia. Qed.

(** A new label gets an id no other label has; only a full indexer refuses one. *)
Lemma add_spec n x :
  wf x →
  let r := add n x in
  wf r.1 ∧
  match r.2 with
  | Ok (fresh, i) => 0 ≤ i < 256 ∧ index_ r.1 = <[n := i]> (index_ x) ∧
                     (fresh = false → r.1 = x) ∧ (fresh = true → ∀ m, index_ x !! m ≠ Some i)
  | Throw e => e = Overflow ∧ r.1 = x ∧ index_ x !! n = None ∧ free_list_ x = [] ∧ num_slots x = 256
  end.
Proof.
  intros Hw. unfold add. destruct (index_ x !! n) as [i|] eqn:Hn.
  { split; [done|]. cbn. pose proof (wf_bound _ _ _ Hw Hn). split_and!; [lia|lia| |done|done]. by rewrite insert_id. }
  destruct Hw as [W1 W2 W3 W4]. assert (Hout : ∀ i, 0 ≤ i → keys_ x !! Z.to_nat i = Some n → i ∈ free_list_ x).
  { intros i Hi Hk. destruct (decide (i ∈ free_list_ x)) as [|Hf]; [done|]. assert (index_ x !! n = Some i) by (by apply W1). congruence. }
  destruct (last (free_list_ x)) as [i|] eqn:Hl.
  - apply last_Some in Hl as [fs Hfs]. rewrite Hfs in *. rewrite removelast_last. cbn [fst snd].
    apply Forall_app in W2 as [W2 [Wi _]%Forall_cons]. apply NoDup_app in W3 as (W3 & Wd & _).
    assert (Hfi : i ∉ fs) by (intros Hi; eapply Wd; [exact Hi|by left]).
    unfold num_slots in *. split; [|split_and!; [lia|lia|done|done|]].
    + split; cbn [index_ keys_ free_list_]; [|unfold num_slots; cbn; by rewrite length_insert|done|unfold num_slots; cbn; by rewrite length_insert].
      intros m j. destruct (decide (m = n)) as [->|Hm].
      * rewrite lookup_insert_eq. split.
        -- intros [= <-]. rewrite list_lookup_insert_eq by lia. split_and!; [lia|done|done].
        -- intros (Hj & Hk & Hf). destruct (decide (i = j)) as [->|Hne]; [done|]. rewrite list_lookup_insert_ne in Hk by lia.
           specialize (Hout j Hj Hk). apply elem_of_app in Hout as [|?%list_elem_of_singleton]; congruence.
      * rewrite lookup_insert_ne by done. rewrite W1. split.
        -- intros (Hj & Hk & Hf). apply not_elem_of_app in Hf as [Hf Hji]. rewrite list_elem_of_singleton in Hji.
           rewrite list_lookup_insert_ne by lia. done.
        -- intros (Hj & Hk & Hf). destruct (decide (i = j)) as [->|Hne].
           { rewrite list_lookup_insert_eq in Hk by lia. congruence. }
           rewrite list_lookup_insert_ne in Hk by lia. split_and!; [done|done|]. rewrite elem_of_app, list_elem_of_singleton. intros [|]; congruence.
    + intros _ m (_ & _ & Hm)%W1. apply Hm, elem_of_app. right. by left.
  - apply last_None in Hl. destruct (Z.leb_spec 256 (Z.of_nat (length (keys_ x)))); cbn [fst snd].
    + unfold num_slots in *. split; [by split|split_and!; [done|done|done|done|lia]].
    + rewrite Hl in *. unfold num_slots in *. split; [|split_and!; [lia|lia|done|done|]].
      * split; cbn [index_ keys_ free_list_]; [|constructor|constructor|unfold num_slots; cbn; rewrite length_app; cbn; lia].
        intros m j. destruct (decide (m = n)) as [->|Hm].
        -- rewrite lookup_insert_eq. split.
           ++ intros [= <-]. rewrite Nat2Z.id, lookup_app_r, Nat.sub_diag by lia. split_and!; [lia|done|by apply not_elem_of_nil].
           ++ intros (Hj & Hk & _). apply lookup_app_Some in Hk as [Hk|[Hge Hk]].
              { apply Hout in Hk; [|done]. by apply elem_of_nil in Hk. }
              apply list_lookup_singleton_Some in Hk as [Hz _]. f_equal. lia.
        -- rewrite lookup_insert_ne by done. rewrite W1. split.
           ++ intros (Hj & Hk & Hf). split_and!; [done| |done]. by apply lookup_app_l_Some.
           ++ intros (Hj & Hk & Hf). apply lookup_app_Some in Hk as [Hk|[_ [_ Hk]%list_lookup_singleton_Some]]; [done|congruence].
      * intros _ m (_ & Hm & _)%W1. apply lookup_lt_Some in Hm. lia.
Qed.

Lemma remove_spec n x : wf x → wf (remove n x).1 ∧ index_ (remove n x).1 = delete n (index_ x).
Proof.
  intros Hw. unfold remove. destruct (index_ x !! n) as [i|] eqn:Hn; [|split; [done|]; by rewrite delete_id].
  split; [|done]. pose proof (wf_bound _ _ _ Hw Hn) as [Hb _]. pose proof (wf_inj x n) as Hinj. destruct Hw as [W1 W2 W3 W4].
  assert (Hi : i ∉ free_list_ x) by (by apply W1 in Hn as (_ & _ & ?)). split; cbn [index_ keys_ free_list_ fst].
  - intros m j. rewrite lookup_delete_Some, W1, not_elem_of_app, list_elem_of_singleton. split.
    + intros (Hne & Hj & Hk & Hf). split_and!; [done|done|done|]. intros ->. apply Hne. eapply Hinj; [by split|done|]. apply W1. done.
    + intros (Hj & Hk & Hf & Hne). split_and!; [|done|done|done]. intros <-. apply Hne. assert (index_ x !! n = Some j) by (by apply W1). congruence.
  - apply Forall_app. split; [done|]. by constructor.
  - apply NoDup_app. split_and!; [done| |apply NoDup_singleton]. intros j Hj ->%list_elem_of_singleton. done.
  - done.
Qed.

(** ** Reading back *)

Lemma reindex_app keys k free :
  let m := reindex keys free in let i := Z.of_nat (length keys) in
  reindex (keys ++ [k]) free = if decide (i ∈ free) then m else if decide (is_Some (m !! k)) then m else <[k := i]> m.
Proof. unfold reindex. rewrite imap_app, foldl_app. cbn [imap foldl fst snd]. by rewrite Nat.add_0_r. Qed.

Lemma reindex_lookup keys free :
  (∀ i j n, keys !! i = Some n → keys !! j = Some n → Z.of_nat i ∉ free → Z.of_nat j ∉ free → i = j) →
  ∀ n i, reindex keys free !! n = Some i ↔ 0 ≤ i ∧ keys !! Z.to_nat i = Some n ∧ i ∉ free.
Proof.
  induction keys as [|k keys IH] using rev_ind; intros Huniq n i.
  { cbn. rewrite lookup_empty. naive_solver. }
  assert (IH' : ∀ n i, reindex keys free !! n = Some i ↔ 0 ≤ i ∧ keys !! Z.to_nat i = Some n ∧ i ∉ free).
  { apply IH. intros a b m Ha Hb. apply (Huniq a b m); by apply lookup_app_l_Some. }
  assert (Hlast : ∀ j m, 0 ≤ j → (keys ++ [k]) !! Z.to_nat j = Some m ↔
    keys !! Z.to_nat j = Some m ∨ j = Z.of_nat (length keys) ∧ m = k).
  { intros j m Hj. rewrite lookup_app_Some, list_lookup_singleton_Some. split.
    - intros [|(Hge & Hz & ->)]; [by left|]. right. split; [lia|done].
    - intros [|[-> ->]]; [by left|]. right. rewrite Nat2Z.id. split_and!; [lia|lia|done]. }
  rewrite reindex_app. set (L := Z.of_nat (length keys)) in *. case_decide as Hf.
  { rewrite IH'. split; [intros (? & ? & ?); rewrite Hlast by done; tauto|]. intros (Hi & Hk & Hn).
    apply Hlast in Hk as [|[-> _]]; done. }
  case_decide as Hs.
  { exfalso. destruct Hs as [j (Hj & Hk & Hn)%IH']. apply lookup_lt_Some in Hk as Hlt.
    assert (Z.to_nat j = length keys); [|lia]. apply (Huniq _ _ k); [by apply lookup_app_l_Some| |by rewrite Z2Nat.id|done].
    rewrite lookup_app_r, Nat.sub_diag by lia. done. }
  destruct (decide (n = k)) as [->|Hne].
  - rewrite lookup_insert_eq. split.
    + intros [= <-]. rewrite Hlast by lia. split_and!; [lia|by right|done].
    + intros (Hi & [Hk|[-> _]]%Hlast & Hn); [|done|done]. destruct Hs. exists i. by apply IH'.
  - rewrite lookup_insert_ne by done. rewrite IH'. split; [intros (? & ? & ?); rewrite Hlast by done; tauto|].
    intros (Hi & [Hk|[_ ->]]%Hlast & Hn); [done|done|done].
Qed.

Lemma reindex_wf x : wf x → reindex (keys_ x) (free_list_ x) = index_ x.
Proof.
  intros Hw. apply map_eq. intros n. apply option_eq. intros i. rewrite reindex_lookup, (wf_index _ Hw); [done|].
  intros a b m Ha Hb Hfa Hfb. assert (Hm : ∀ k, keys_ x !! k = Some m → Z.of_nat k ∉ free_list_ x → index_ x !! m = Some (Z.of_nat k)).
  { intros k Hk Hf. apply (wf_index _ Hw). rewrite Nat2Z.id. split_and!; [lia|done|done]. }
  pose proof (Hm a Ha Hfa). pose proof (Hm b Hb Hfb). assert (Z.of_nat a = Z.of_nat b) by congruence. lia.
Qed.

Definition stored x : out := put_u32 1 << put_vector put_string (keys_ x) << put_vector put_u8 (free_list_ x).

(** An indexer is read back as it was stored, with the ids to use again and
    whatever follows it in the file. *)
Theorem label_indexer_roundtrip x rest :
  wf x → Forall (λ n, Z.of_nat (length n) < 2^64) (keys_ x) → Z.of_nat (length (stored x).1) < 2^64 →
  Deserialize (Serialize x ++ rest) = Ok (x, rest).
Proof.
  intros Hw Hn Hlen.
  assert (Hfree : Z.of_nat (length (free_list_ x)) ≤ 256).
  { pose proof (wf_free _ Hw) as Hf. pose proof (wf_size _ Hw). rewrite Forall_forall in Hf.
    assert (Hsub : free_list_ x ⊆+ seqZ 0 256).
    { apply NoDup_submseteq; [apply Hw|]. intros i Hi. specialize (Hf i Hi). apply elem_of_seqZ. lia. }
    apply submseteq_length in Hsub. rewrite length_seqZ in Hsub. lia. }
  assert (Hr : reads read_indexer (stored x) x).
  { unfold stored, read_indexer. rewrite put_seq_assoc. eapply reads_bind; [apply (reads_uint 4); lia|]. cbn [negb Z.eqb Pos.eqb].
    eapply reads_bind.
    { eapply reads_congr; [apply (reads_vector get_string put_string id)|apply list_fmap_id].
      - eapply Z.le_lt_trans; [exact (wf_size _ Hw)|lia].
      - intros n Hin. apply reads_string. rewrite Forall_forall in Hn. by apply Hn. }
    rewrite <- (put_seq_nothing (put_vector put_u8 _)). eapply reads_bind.
    { eapply reads_congr; [apply (reads_vector get_u8 put_u8 id)|apply list_fmap_id]; [lia|].
      intros i Hi. apply (reads_uint 1). pose proof (wf_free _ Hw) as Hf. rewrite Forall_forall in Hf. specialize (Hf i Hi).
      pose proof (wf_size _ Hw). change (2^(8 * Z.of_nat 1)) with 256. unfold id. lia. }
    assert (Hall : forallb (λ lid, lid <? Z.of_nat (length (keys_ x))) (free_list_ x) = true).
    { apply forallb_forall. intros i Hi%list_elem_of_In. pose proof (wf_free _ Hw) as Hf. rewrite Forall_forall in Hf. specialize (Hf i Hi).
      apply Z.ltb_lt. exact (proj2 Hf). }
    rewrite Hall, (reindex_wf x Hw). destruct x. apply reads_ret. }
  unfold Deserialize, Serialize. fold (stored x).
  assert (Hs : reads (size ← get_u64; GetBytes size) (put_u64 (Z.of_nat (length (stored x).1)) << AddBytes (stored x).1) (stored x).1).
  { eapply reads_bind; [apply (reads_uint 8); lia|apply reads_bytes]. }
  destruct Hs as [_ Hs]. specialize (Hs rest). cbn [put_seq put_uint AddBytes fst] in Hs. rewrite Hs.
  destruct Hr as [_ Hr]. specialize (Hr []). rewrite app_nil_r in Hr. by rewrite Hr.
Qed.
End LabelIndexer.
