(* ===== verification/SchemaLabels.v ===== *)
(** * Labels of the schema

    Schema (src/storages/graph/schema.cc): the labels of vertices and edges by
    name and id, their schemas, and the tombstones of deleted labels and
    triplets.  A triplet is named by a number that packs the ids of its source,
    destination and edge labels. *)

From stdpp Require Import gmap.
From S2P Require Import Prelude Values Tables EdgeSchema LabelIndexer.

(** Bit sets, within their size. *)
Module Bitset.
Definition get (i : Z) (b : list bool) : bool := default false (b !! Z.to_nat i).
Definition set (i : Z) (b : list bool) : list bool := <[Z.to_nat i := true]> b.
Definition reset (i : Z) (b : list bool) : list bool := <[Z.to_nat i := false]> b.
Definition resize (n : Z) (b : list bool) : list bool :=
  take (Z.to_nat n) b ++ replicate (Z.to_nat n - length b) false.
Definition size (b : list bool) : Z := Z.of_nat (length b).
End Bitset.

Module Schema.

Record VertexSchema := MkVertexSchema {
  label_name : name;
  property_types : list DataType;
  property_names : list name;
  primary_keys : list (DataType * name * Z);
  default_property_values : list Value;
  vprop_soft_deleted : list bool;
  vtemporary : bool
}.
Definition clear_vertex_schema (v : VertexSchema) : VertexSchema := MkVertexSchema (label_name v) [] [] [] [] [] (vtemporary v).

(** An edge schema with what the label layer uses of it. *)
Record edge_entry := MkEntry { edge_label_name : name; body : EdgeSchema.schema; etemporary : bool }.

Record schema := MkSchema {
  vlabel_indexer_ : LabelIndexer.t;
  elabel_indexer_ : LabelIndexer.t;
  v_schemas_ : list (option VertexSchema);
  e_schemas_ : gmap Z edge_entry;
  vlabel_tomb_ : list bool;
  elabel_tomb_ : list bool;
  elabel_triplet_tomb_ : list bool
}.
Implicit Types (s : schema).

Definition empty_schema : schema := MkSchema LabelIndexer.empty_indexer LabelIndexer.empty_indexer [] ∅ [] [] [].

Definition set_vlabels x s : schema := MkSchema x (elabel_indexer_ s) (v_schemas_ s) (e_schemas_ s) (vlabel_tomb_ s) (elabel_tomb_ s) (elabel_triplet_tomb_ s).
Definition set_elabels x s : schema := MkSchema (vlabel_indexer_ s) x (v_schemas_ s) (e_schemas_ s) (vlabel_tomb_ s) (elabel_tomb_ s) (elabel_triplet_tomb_ s).
Definition set_v_schemas x s : schema := MkSchema (vlabel_indexer_ s) (elabel_indexer_ s) x (e_schemas_ s) (vlabel_tomb_ s) (elabel_tomb_ s) (elabel_triplet_tomb_ s).
Definition set_e_schemas x s : schema := MkSchema (vlabel_indexer_ s) (elabel_indexer_ s) (v_schemas_ s) x (vlabel_tomb_ s) (elabel_tomb_ s) (elabel_triplet_tomb_ s).
Definition set_vtomb x s : schema := MkSchema (vlabel_indexer_ s) (elabel_indexer_ s) (v_schemas_ s) (e_schemas_ s) x (elabel_tomb_ s) (elabel_triplet_tomb_ s).
Definition set_etomb x s : schema := MkSchema (vlabel_indexer_ s) (elabel_indexer_ s) (v_schemas_ s) (e_schemas_ s) (vlabel_tomb_ s) x (elabel_triplet_tomb_ s).
Definition set_ttomb x s : schema := MkSchema (vlabel_indexer_ s) (elabel_indexer_ s) (v_schemas_ s) (e_schemas_ s) (vlabel_tomb_ s) (elabel_tomb_ s) x.

(** ** Keys of triplets *)

Definition generate_edge_label (src dst edge : Z) : Z :=
  let ret := Z.lor 0 src in
  let ret := Z.shiftl ret 8 in
  let ret := Z.lor ret dst in
  let ret := Z.shiftl ret 8 in
  Z.lor ret edge.
Definition parse_edge_label (edge_label : Z) : Z * Z * Z :=
  let edge := Z.land edge_label 0xFF in
  let edge_label := Z.shiftr edge_label 8 in
  let dst := Z.land edge_label 0xFF in
  let edge_label := Z.shiftr edge_label 8 in
  let src := Z.land edge_label 0xFF in
  (src, dst, edge).

(** ** Reads *)

(** The number of slots as an 8-bit number. *)
Definition vertex_label_frontier s : Z := u8 (LabelIndexer.num_slots (vlabel_indexer_ s)).
Definition edge_label_frontier s : Z := u8 (LabelIndexer.num_slots (elabel_indexer_ s)).

Definition is_vertex_label_valid (label_id : Z) s : bool :=
  (label_id <? LabelIndexer.num_slots (vlabel_indexer_ s)) && negb (Bitset.get label_id (vlabel_tomb_ s)).
Definition is_edge_label_valid (label_id : Z) s : bool :=
  (label_id <? LabelIndexer.num_slots (elabel_indexer_ s)) && negb (Bitset.get label_id (elabel_tomb_ s)).
Definition is_vertex_name_valid (label : name) s : bool :=
  match LabelIndexer.get_index label (vlabel_indexer_ s) with Some i => negb (Bitset.get i (vlabel_tomb_ s)) | None => false end.
Definition is_edge_name_valid (label : name) s : bool :=
  match LabelIndexer.get_index label (elabel_indexer_ s) with Some i => negb (Bitset.get i (elabel_tomb_ s)) | None => false end.
Definition get_vertex_label_id (label : name) s : res Z :=
  match LabelIndexer.get_index label (vlabel_indexer_ s) with
  | Some i => if Bitset.get i (vlabel_tomb_ s) then Throw RuntimeFailure else Ok i
  | None => Throw RuntimeFailure
  end.
Definition get_edge_label_id (label : name) s : res Z :=
  match LabelIndexer.get_index label (elabel_indexer_ s) with
  | Some i => if Bitset.get i (elabel_tomb_ s) then Throw InvalidArgument else Ok i
  | None => Throw InvalidArgument
  end.
Definition get_vertex_label_id_internal (label : name) s : res Z :=
  of_option RuntimeFailure (LabelIndexer.get_index label (vlabel_indexer_ s)).
Definition get_edge_label_id_internal (label : name) s : res Z :=
  of_option InvalidArgument (LabelIndexer.get_index label (elabel_indexer_ s)).

Definition is_edge_triplet_valid (src dst edge : Z) s : bool :=
  let index := generate_edge_label src dst edge in
  (index <? Bitset.size (elabel_triplet_tomb_ s)) && negb (Bitset.get index (elabel_triplet_tomb_ s)) &&
  bool_decide (is_Some (e_schemas_ s !! index)).
Definition has_edge_triplet (src dst edge : Z) s : bool :=
  bool_decide (is_Some (e_schemas_ s !! generate_edge_label src dst edge)).
Definition has_edge_triplet_name (src dst label : name) s : res bool :=
  if negb (is_vertex_name_valid src s) || negb (is_vertex_name_valid dst s) then Ok false
  else
    i ← get_vertex_label_id src s; j ← get_vertex_label_id dst s;
    Ok (match LabelIndexer.get_index label (elabel_indexer_ s) with
        | None => false
        | Some e => has_edge_triplet i j e s
        end).
Definition is_vertex_label_temporary (label : Z) s : bool :=
  match v_schemas_ s !! Z.to_nat label with Some (Some v) => vtemporary v | _ => false end.
Definition ensure_vertex_label_valid (label : Z) s : res unit :=
  if is_vertex_label_valid label s then Ok tt else Throw RuntimeFailure.

(** ** Adding labels *)

Definition vertex_label_to_index (label : name) : st schema Z := λ s,
  match LabelIndexer.add label (vlabel_indexer_ s) with
  | (x, Throw e) => (set_vlabels x s, Throw e)
  | (x, Ok (_, ret)) =>
      let s := set_vlabels x s in
      (if Z.of_nat (length (v_schemas_ s)) <=? ret
       then set_vtomb (Bitset.resize (ret + 1) (vlabel_tomb_ s))
              (set_v_schemas (v_schemas_ s ++ replicate (Z.to_nat (ret + 1) - length (v_schemas_ s)) None) s)
       else s, Ok ret)
  end.
Definition edge_label_to_index (label : name) : st schema Z := λ s,
  match LabelIndexer.add label (elabel_indexer_ s) with
  | (x, Throw e) => (set_elabels x s, Throw e)
  | (x, Ok (_, ret)) =>
      let s := set_elabels x s in
      (if Bitset.size (elabel_tomb_ s) <=? ret then set_etomb (Bitset.resize (ret + 1) (elabel_tomb_ s)) s else s, Ok ret)
  end.

Definition AddVertexLabel (label : name) (v : VertexSchema) : st schema unit :=
  v_label_id ← vertex_label_to_index label;
  update (λ s, if Bitset.get v_label_id (vlabel_tomb_ s) then set_vtomb (Bitset.reset v_label_id (vlabel_tomb_ s)) s else s);;
  update (λ s, if Z.of_nat (length (v_schemas_ s)) <=? v_label_id
               then set_v_schemas (v_schemas_ s ++ replicate (Z.to_nat (v_label_id + 1) - length (v_schemas_ s)) None) s else s);;
  update (λ s, set_v_schemas (<[Z.to_nat v_label_id := Some v]> (v_schemas_ s)) s).

(** [emplace] keeps an entry that is there; its flag is set all the same. *)
Definition AddEdgeLabel (src_label dst_label edge_label : name) (e : EdgeSchema.schema) (temporary : bool) : st schema unit :=
  src ← vertex_label_to_index src_label;
  dst ← vertex_label_to_index dst_label;
  edge ← edge_label_to_index edge_label;
  update (λ s, if Bitset.get edge (elabel_tomb_ s) then set_etomb (Bitset.reset edge (elabel_tomb_ s)) s else s);;
  let label_id := generate_edge_label src dst edge in
  update (λ s, if decide (is_Some (e_schemas_ s !! label_id)) then s
               else set_e_schemas (<[label_id := MkEntry edge_label e false]> (e_schemas_ s)) s);;
  update (λ s, if Bitset.size (elabel_triplet_tomb_ s) <=? label_id
               then set_ttomb (Bitset.resize (label_id + 1) (elabel_triplet_tomb_ s)) s else s);;
  update (λ s, if Bitset.get label_id (elabel_triplet_tomb_ s)
               then set_ttomb (Bitset.reset label_id (elabel_triplet_tomb_ s)) s else s);;
  update (λ s, set_e_schemas (alter (λ x, MkEntry (edge_label_name x) (body x) temporary) label_id (e_schemas_ s)) s).

(** ** Deleting labels *)

Definition DeleteVertexLabel (v_label_id : Z) (is_soft : bool) : st schema unit :=
  s ← get_state;
  if Bitset.get v_label_id (vlabel_tomb_ s) then mret tt
  else
    (if is_soft then mret tt
     else
       update (λ s, set_v_schemas (alter (fmap clear_vertex_schema) (Z.to_nat v_label_id) (v_schemas_ s)) s);;
       old_name ← lift_res (LabelIndexer.get_key v_label_id (vlabel_indexer_ s));
       update (λ s, set_vlabels (LabelIndexer.remove old_name (vlabel_indexer_ s)).1 s));;
    update (λ s, set_vtomb (Bitset.set v_label_id (vlabel_tomb_ s)) s).

(** Whether a triplet uses the edge label: the scan ends at the first that does,
    in the order of the map's elements. *)
Fixpoint label_used (edge : Z) (es : list edge_entry) s : res bool :=
  match es with
  | [] => Ok false
  | e :: es => i ← get_edge_label_id_internal (edge_label_name e) s;
               if i =? edge then Ok true else label_used edge es s
  end.
Definition DeleteEdgeLabel (src dst edge : Z) (is_soft : bool) : st schema unit :=
  let index := generate_edge_label src dst edge in
  s ← get_state;
  if decide (is_Some (e_schemas_ s !! index)) then
    (if is_soft then mret tt else update (λ s, set_e_schemas (delete index (e_schemas_ s)) s));;
    update (λ s, set_ttomb (Bitset.set index (elabel_triplet_tomb_ s)) s);;
    s ← get_state;
    used ← lift_res (label_used edge ((map_to_list (e_schemas_ s)).*2) s);
    if used : bool then mret tt
    else if Bitset.get edge (elabel_tomb_ s) then mret tt
    else
      update (λ s, set_etomb (Bitset.set edge (elabel_tomb_ s)) s);;
      (if is_soft then mret tt
       else
         old_name ← lift_res (LabelIndexer.get_key edge (elabel_indexer_ s));
         update (λ s, set_elabels (LabelIndexer.remove old_name (elabel_indexer_ s)).1 s))
  else mret tt.

End Schema.
