(* ===== verification/SchemaLabelsProperties.v ===== *)
(** * Labels stay consistent

    The key of a triplet determines its labels, and through every addition and
    deletion of labels the names, ids, tombstones and triplets of a schema fit
    together: no triplet has a deleted label, and an id is used again only when
    nothing refers to it. *)

From stdpp Require Import gmap.
From S2P Require Import Prelude Values Tables EdgeSchema LabelIndexer SchemaLabels.
Import Schema.

(** ** Keys of triplets *)

Lemma generate_sum src dst edge :
  0 ≤ src → 0 ≤ dst < 256 → 0 ≤ edge < 256 → generate_edge_label src dst edge = src * 65536 + dst * 256 + edge.
Proof.
  intros Hs Hd He. unfold generate_edge_label. rewrite Z.lor_0_l. rewrite !Z.shiftl_mul_pow2 by lia.
  assert (Hlor : ∀ a b, 0 ≤ b < 256 → Z.lor (a * 2^8) b = a * 256 + b).
  { intros a b Hb. pose proof (Z.add_lor_land (a * 2^8) b) as Hal. assert (Z.land (a * 2^8) b = 0) as H0; [|lia].
    apply Z.bits_inj'. intros n Hn. rewrite Z.land_spec, Z.bits_0. destruct (Z.lt_ge_cases n 8) as [Hlt|Hge].
    - by rewrite Z.mul_pow2_bits_low by lia.
    - rewrite <- (Z.mod_small b (2^8)) by lia. by rewrite Z.mod_pow2_bits_high, andb_false_r by lia. }
  rewrite !Hlor by done. lia.
Qed.

Theorem triplet_roundtrip src dst edge :
  0 ≤ src < 256 → 0 ≤ dst < 256 → 0 ≤ edge < 256 →
  parse_edge_label (generate_edge_label src dst edge) = (src, dst, edge) ∧
  0 ≤ generate_edge_label src dst edge < 2^24.
Proof.
  intros Hs Hd He. rewrite (generate_sum src dst edge) by lia. split; [|lia]. unfold parse_edge_label.
  change 255 with (Z.ones 8). rewrite !Z.land_ones, !Z.shiftr_div_pow2 by lia. change (2^8) with 256.
  assert (H1 : (src * 65536 + dst * 256 + edge) / 256 = src * 256 + dst) by (symmetry; apply Z.div_unique with edge; lia).
  rewrite H1. assert (H2 : (src * 256 + dst) / 256 = src) by (symmetry; apply Z.div_unique with dst; lia). rewrite H2.
  f_equal; [f_equal|]; symmetry.
  - apply Z.mod_unique with 0; lia.
  - apply Z.mod_unique with src; lia.
  - apply Z.mod_unique with (src * 256 + dst); lia.
Qed.

Lemma generate_inj src dst edge src' dst' edge' :
  0 ≤ src < 256 → 0 ≤ dst < 256 → 0 ≤ edge < 256 → 0 ≤ src' < 256 → 0 ≤ dst' < 256 → 0 ≤ edge' < 256 →
  generate_edge_label src dst edge = generate_edge_label src' dst' edge' → src = src' ∧ dst = dst' ∧ edge = edge'.
Proof. intros. rewrite !generate_sum in * by lia. lia. Qed.

(** ** Bit sets *)

Lemma get_set i j b : 0 ≤ i → 0 ≤ j < Bitset.size b → Bitset.get i (Bitset.set j b) = (i =? j) || Bitset.get i b.
Proof.
  intros Hi Hj. unfold Bitset.get, Bitset.set, Bitset.size in *. destruct (Z.eqb_spec i j) as [->|Hne].
  - by rewrite list_lookup_insert_eq by lia.
  - by rewrite list_lookup_insert_ne by lia.
Qed.
Lemma get_reset i j b : 0 ≤ i → 0 ≤ j < Bitset.size b → Bitset.get i (Bitset.reset j b) = negb (i =? j) && Bitset.get i b.
Proof.
  intros Hi Hj. unfold Bitset.get, Bitset.reset, Bitset.size in *. destruct (Z.eqb_spec i j) as [->|Hne].
  - by rewrite list_lookup_insert_eq by lia.
  - by rewrite list_lookup_insert_ne by lia.
Qed.
Lemma get_grow i n b : Bitset.size b ≤ n → Bitset.get i (Bitset.resize n b) = Bitset.get i b.
Proof.
  intros Hn. unfold Bitset.get, Bitset.resize, Bitset.size in *. rewrite take_ge by lia.
  destruct (decide (Z.to_nat i < length b)%nat) as [Hlt|Hge]; [by rewrite lookup_app_l|].
  rewrite lookup_app_r by lia. rewrite (lookup_ge_None_2 b) by lia.
  destruct (replicate _ false !! _) as [x|] eqn:E; [|done]. by apply lookup_replicate in E as [-> _].
Qed.
Lemma size_grow n b : Bitset.size b ≤ n → Bitset.size (Bitset.resize n b) = n.
Proof. intros Hn. unfold Bitset.size, Bitset.resize in *. rewrite length_app, length_take, length_replicate. lia. Qed.
Lemma size_set i b : Bitset.size (Bitset.set i b) = Bitset.size b.
Proof. unfold Bitset.size, Bitset.set. by rewrite length_insert. Qed.
Lemma size_reset i b : Bitset.size (Bitset.reset i b) = Bitset.size b.
Proof. unfold Bitset.size, Bitset.reset. by rewrite length_insert. Qed.
Lemma get_outside i b : Bitset.size b ≤ i → Bitset.get i b = false.
Proof. unfold Bitset.get, Bitset.size. intros Hi. by rewrite lookup_ge_None_2 by lia. Qed.

(** ** Tombstones and vacant ids *)

Definition tombs_ok (x : LabelIndexer.t) (b : list bool) : Prop :=
  Bitset.size b = LabelIndexer.num_slots x ∧
  ∀ i, 0 ≤ i < LabelIndexer.num_slots x → (Bitset.get i b = true ↔ i ∈ LabelIndexer.free_list_ x).

(** What adding a label does to the tombstones: room for its id, and the mark
    of a deleted label taken off. *)
Definition untomb (i : Z) (b : list bool) : list bool :=
  let b := if Bitset.size b <=? i then Bitset.resize (i + 1) b else b in
  if Bitset.get i b then Bitset.reset i b else b.

Lemma untomb_spec i j b : 0 ≤ i → 0 ≤ j →
  Bitset.size (untomb i b) = Z.max (Bitset.size b) (i + 1) ∧ Bitset.get j (untomb i b) = negb (j =? i) && Bitset.get j b.
Proof.
  intros Hi Hj. unfold untomb. set (b1 := if Bitset.size b <=? i then _ else b).
  assert (H1 : Bitset.size b1 = Z.max (Bitset.size b) (i + 1) ∧ Bitset.get j b1 = Bitset.get j b).
  { unfold b1. destruct (Z.leb_spec (Bitset.size b) i); [|split; [lia|done]]. split; [rewrite size_grow by lia; lia|apply get_grow; lia]. }
  destruct H1 as [Hs Hg]. destruct (Bitset.get i b1) eqn:Hb.
  - rewrite size_reset, get_reset, Hg by lia. done.
  - split; [done|]. rewrite Hg. destruct (Z.eqb_spec j i) as [->|]; [|done]. by rewrite <- Hg.
Qed.

Lemma tombs_add n x b x' fresh i :
  LabelIndexer.wf x → tombs_ok x b → LabelIndexer.add n x = (x', Ok (fresh, i)) → tombs_ok x' (untomb i b).
Proof.
  intros Hw [Hs Ht] Ha. pose proof (LabelIndexer.wf_free _ Hw) as Hf. pose proof (LabelIndexer.wf_vacant _ Hw) as Hv.
  unfold LabelIndexer.add in Ha. destruct (LabelIndexer.index_ x !! n) as [k|] eqn:Hn.
  { injection Ha as <- <- <-. destruct (LabelIndexer.wf_bound _ _ _ Hw Hn) as [Hb _].
    apply (LabelIndexer.wf_index _ Hw) in Hn as (_ & _ & Hnf).
    split; [destruct (untomb_spec k k b); lia|]. intros j Hj. destruct (untomb_spec k j b) as [_ ->]; [lia|lia|].
    rewrite <- Ht by lia. destruct (Z.eqb_spec j k) as [->|]; [|done]. cbn. rewrite Ht by lia. split; [done|tauto]. }
  destruct (last (LabelIndexer.free_list_ x)) as [k|] eqn:Hl.
  - injection Ha as <- <- <-. apply last_Some in Hl as [fs Hfs]. rewrite Hfs in *. apply Forall_app in Hf as [_ [Hk _]%Forall_cons].
    apply NoDup_app in Hv as (_ & Hd & _). assert (Hkf : k ∉ fs) by (intros Hi; eapply Hd; [exact Hi|by left]).
    unfold tombs_ok, LabelIndexer.num_slots in *. cbn. rewrite removelast_last, length_insert.
    split; [destruct (untomb_spec k k b); lia|]. intros j Hj. destruct (untomb_spec k j b) as [_ ->]; [lia|lia|].
    specialize (Ht j Hj). rewrite elem_of_app, list_elem_of_singleton in Ht.
    destruct (Z.eqb_spec j k) as [->|Hne]; cbn; [naive_solver|]. rewrite Ht. naive_solver.
  - destruct (256 <=? _); [done|]. injection Ha as <- <- <-. apply last_None in Hl. rewrite Hl in *.
    unfold tombs_ok, LabelIndexer.num_slots in *. cbn [LabelIndexer.keys_ LabelIndexer.free_list_]. rewrite length_app. cbn [length].
    set (L := Z.of_nat (length (LabelIndexer.keys_ x))) in *.
    split; [destruct (untomb_spec L L b); lia|]. intros j Hj. destruct (untomb_spec L j b) as [_ ->]; [lia|lia|].
    destruct (Z.eqb_spec j L) as [->|Hne]; cbn; [split; [done|by intros ?%elem_of_nil]|]. apply Ht. lia.
Qed.

Lemma tombs_remove n x b i :
  LabelIndexer.wf x → tombs_ok x b → LabelIndexer.index_ x !! n = Some i →
  tombs_ok (LabelIndexer.remove n x).1 (Bitset.set i b).
Proof.
  intros Hw [Hs Ht] Hn. destruct (LabelIndexer.wf_bound _ _ _ Hw Hn) as [Hb _]. unfold LabelIndexer.remove. rewrite Hn.
  split; cbn; [by rewrite size_set|]. intros j Hj. rewrite get_set by lia. rewrite elem_of_app, list_elem_of_singleton.
  rewrite <- Ht by done. destruct (Z.eqb_spec j i) as [->|]; cbn; naive_solver.
Qed.

(** ** The invariant *)

Record ok (s : schema) : Prop := MkOk {
  ok_v : LabelIndexer.wf (vlabel_indexer_ s);
  ok_e : LabelIndexer.wf (elabel_indexer_ s);
  ok_vlen : Z.of_nat (length (v_schemas_ s)) = LabelIndexer.num_slots (vlabel_indexer_ s);
  ok_vtomb : tombs_ok (vlabel_indexer_ s) (vlabel_tomb_ s);
  ok_etomb : tombs_ok (elabel_indexer_ s) (elabel_tomb_ s);
  ok_triplets : ∀ k x, e_schemas_ s !! k = Some x → ∃ src dst edge,
    k = generate_edge_label src dst edge ∧ 0 ≤ src ∧ 0 ≤ dst ∧
    is_vertex_label_valid src s = true ∧ is_vertex_label_valid dst s = true ∧
    LabelIndexer.index_ (elabel_indexer_ s) !! edge_label_name x = Some edge ∧
    0 ≤ k < Bitset.size (elabel_triplet_tomb_ s) ∧ Bitset.get k (elabel_triplet_tomb_ s) = false
}.

Lemma ok_empty : ok empty_schema.
Proof.
  split; [apply LabelIndexer.wf_empty|apply LabelIndexer.wf_empty|done| | |intros k x; cbn; by rewrite lookup_empty];
    (split; [done|]; intros i Hi; unfold LabelIndexer.num_slots in Hi; cbn in Hi; lia).
Qed.

(** A label id is valid exactly when it belongs to a name. *)
Definition in_use (x : LabelIndexer.t) (b : list bool) (i : Z) : bool := (i <? LabelIndexer.num_slots x) && negb (Bitset.get i b).
Lemma in_use_iff x b i : LabelIndexer.wf x → tombs_ok x b → 0 ≤ i →
  (in_use x b i = true ↔ ∃ n, LabelIndexer.index_ x !! n = Some i).
Proof.
  intros Hw [_ Ht] Hi. unfold in_use. rewrite andb_true_iff, Z.ltb_lt, negb_true_iff.
  setoid_rewrite (LabelIndexer.wf_index _ Hw). split.
  - intros [Hlt Hb]. unfold LabelIndexer.num_slots in Hlt. destruct (lookup_lt_is_Some_2 (LabelIndexer.keys_ x) (Z.to_nat i)) as [n Hn]; [lia|].
    exists n. split_and!; [done|done|]. rewrite <- Ht by (unfold LabelIndexer.num_slots; lia). by rewrite Hb.
  - intros (n & _ & Hn & Hf). apply lookup_lt_Some in Hn.
    assert (Hlt : i < LabelIndexer.num_slots x) by (unfold LabelIndexer.num_slots; lia). split; [done|].
    destruct (Bitset.get i b) eqn:Hb; [|done]. by apply Ht in Hb.
Qed.
Lemma valid_iff s i : ok s → 0 ≤ i → (is_vertex_label_valid i s = true ↔ ∃ n, LabelIndexer.index_ (vlabel_indexer_ s) !! n = Some i).
Proof. intros Hok. apply in_use_iff; apply Hok. Qed.

Lemma valid_bound s i : ok s → is_vertex_label_valid i s = true → i < 256.
Proof.
  intros Hok Hv. unfold is_vertex_label_valid in Hv. apply andb_true_iff in Hv as [Hv%Z.ltb_lt _].
  pose proof (LabelIndexer.wf_size _ (ok_v _ Hok)). lia.
Qed.

(** A triplet with a schema is a valid one, with labels that are in use. *)
Lemma has_triplet_valid s src dst edge : ok s → has_edge_triplet src dst edge s = is_edge_triplet_valid src dst edge s.
Proof.
  intros Hok. unfold has_edge_triplet, is_edge_triplet_valid. set (k := generate_edge_label src dst edge).
  destruct (e_schemas_ s !! k) as [x|] eqn:Hx.
  - destruct (ok_triplets _ Hok _ _ Hx) as (? & ? & ? & _ & _ & _ & _ & _ & _ & Hk & ->). rewrite (proj2 (Z.ltb_lt _ _)) by lia.
    by rewrite !bool_decide_true by eauto.
  - rewrite !bool_decide_false by (intros [? ?]; done). by rewrite andb_false_r.
Qed.

(** ** Adding labels *)

Theorem AddVertexLabel_ok label v s :
  ok s → LabelIndexer.index_ (vlabel_indexer_ s) !! label = None →
  let x := AddVertexLabel label v s in
  match x.2 with
  | Ok _ => ok x.1 ∧ e_schemas_ x.1 = e_schemas_ s ∧ ∃ i, 0 ≤ i < 256 ∧ v_schemas_ x.1 !! Z.to_nat i = Some (Some v) ∧
      LabelIndexer.index_ (vlabel_indexer_ x.1) = <[label := i]> (LabelIndexer.index_ (vlabel_indexer_ s))
  | Throw e => e = Overflow ∧ x.1 = s ∧ LabelIndexer.num_slots (vlabel_indexer_ s) = 256
  end.
Proof.
  intros Hok Hnone. pose proof (LabelIndexer.add_spec label _ (ok_v _ Hok)) as (Hw & Hadd).
  unfold AddVertexLabel, vertex_label_to_index, mbind, st_bind, update.
  destruct (LabelIndexer.add label (vlabel_indexer_ s)) as [x' [[fresh i]|e]] eqn:Ha; cbn [fst snd] in *.
  2:{ destruct Hadd as (-> & -> & _ & _ & Hslots). split_and!; [done|by destruct s|done]. }
  destruct Hadd as (Hi & Hidx & _ & _). destruct s as [vi ei vs es vt et tt]. cbn [vlabel_indexer_ v_schemas_ vlabel_tomb_ set_vlabels set_vtomb set_v_schemas] in *.
  pose proof (tombs_add _ _ _ _ _ _ (ok_v _ Hok) (ok_vtomb _ Hok) Ha) as Htomb. cbn [vlabel_tomb_] in Htomb.
  pose proof (ok_vlen _ Hok) as Hlen. pose proof (proj1 (ok_vtomb _ Hok)) as Hsz. cbn in Hlen, Hsz.
  set (vs1 := vs ++ replicate (Z.to_nat (i + 1) - length vs) None).
  assert (Hlen1 : Z.of_nat (length vs1) = Z.max (Z.of_nat (length vs)) (i + 1)).
  { unfold vs1. rewrite length_app, length_replicate. lia. }
  assert (Hfinal : ok (MkSchema x' ei (<[Z.to_nat i := Some v]> vs1) es (untomb i vt) et tt)).
  { split; cbn [vlabel_indexer_ elabel_indexer_ v_schemas_ e_schemas_ vlabel_tomb_ elabel_tomb_ elabel_triplet_tomb_]; [done|apply Hok| |done|apply Hok|].
    - rewrite length_insert, Hlen1. destruct Htomb as [Ht _]. destruct (untomb_spec i i vt) as [Hs _]; [lia|lia|]. lia.
    - intros k e Hk. destruct (ok_triplets _ Hok k e Hk) as (src & dst & edge & Hgen & H1 & H2 & H3 & H4 & H5 & H6 & H7). cbn in *.
      assert (Hkeep : ∀ j, 0 ≤ j → is_vertex_label_valid j (MkSchema vi ei vs es vt et tt) = true → in_use x' (untomb i vt) j = true).
      { intros j Hj Hv. apply (valid_iff _ _ Hok Hj) in Hv as [n Hn]. cbn in Hn. apply in_use_iff; [done|done|done|]. exists n.
        rewrite Hidx, lookup_insert_ne; [done|]. intros ->. congruence. }
      exists src, dst, edge. split_and!; [done|done|done|by apply Hkeep|by apply Hkeep|done|lia|lia|done]. }
  assert (Hmap : (<[Z.to_nat i := Some v]> vs1) !! Z.to_nat i = Some (Some v)) by (apply list_lookup_insert_eq; lia).
  destruct (Z.leb_spec (Z.of_nat (length vs)) i) as [Hle|Hgt].
  - fold vs1. cbn [set_vtomb set_v_schemas v_schemas_ vlabel_tomb_].
    unfold untomb in Hfinal. rewrite (proj2 (Z.leb_le (Bitset.size vt) i)) in Hfinal by lia.
    destruct (Bitset.get i (Bitset.resize (i + 1) vt)); cbn [fst snd set_vlabels set_vtomb set_v_schemas v_schemas_ vlabel_tomb_ e_schemas_ vlabel_indexer_] in *;
      rewrite ?(proj2 (Z.leb_gt (Z.of_nat (length vs1)) i)) by lia; (split; [exact Hfinal|split; [done|exists i; split_and!; done || lia]]).
  - assert (Hvs1 : vs1 = vs) by (unfold vs1; replace (Z.to_nat (i + 1) - length vs)%nat with O by lia; apply app_nil_r). rewrite Hvs1 in *.
    unfold untomb in Hfinal. rewrite (proj2 (Z.leb_gt (Bitset.size vt) i)) in Hfinal by lia.
    cbn [set_vlabels v_schemas_ vlabel_tomb_]. destruct (Bitset.get i vt); cbn [fst snd set_vlabels set_vtomb set_v_schemas v_schemas_ vlabel_tomb_ e_schemas_ vlabel_indexer_] in *;
      rewrite ?(proj2 (Z.leb_gt (Z.of_nat (length vs)) i)) by lia; (split; [exact Hfinal|split; [done|exists i; split_and!; done || lia]]).
Qed.

Lemma add_known n x i : LabelIndexer.index_ x !! n = Some i → LabelIndexer.add n x = (x, Ok (false, i)).
Proof. intros H. unfold LabelIndexer.add. by rewrite H. Qed.

Lemma known_label s n i : ok s → LabelIndexer.index_ (vlabel_indexer_ s) !! n = Some i → vertex_label_to_index n s = (s, Ok i).
Proof.
  intros Hok Hn. unfold vertex_label_to_index. rewrite (add_known _ _ _ Hn). destruct (LabelIndexer.wf_bound _ _ _ (ok_v _ Hok) Hn) as [Hb _].
  pose proof (ok_vlen _ Hok) as Hl. destruct s as [vi ei vs es vt et tm]. cbn [set_vlabels v_schemas_ vlabel_indexer_] in *.
  by rewrite (proj2 (Z.leb_gt _ _)) by lia.
Qed.

(** The schema after a triplet was added. *)
Definition with_triplet (x' : LabelIndexer.t) (edge k : Z) (e : edge_entry) (temporary : bool) (s : schema) : schema :=
  MkSchema (vlabel_indexer_ s) x' (v_schemas_ s)
    (alter (λ x, MkEntry (edge_label_name x) (body x) temporary) k
       (if decide (is_Some (e_schemas_ s !! k)) then e_schemas_ s else <[k := e]> (e_schemas_ s)))
    (vlabel_tomb_ s) (untomb edge (elabel_tomb_ s)) (untomb k (elabel_triplet_tomb_ s)).

Lemma push_etomb (b : bool) x s : (if b then set_etomb x s else s) = set_etomb (if b then x else elabel_tomb_ s) s.
Proof. by destruct b, s. Qed.
Lemma push_ttomb (b : bool) x s : (if b then set_ttomb x s else s) = set_ttomb (if b then x else elabel_triplet_tomb_ s) s.
Proof. by destruct b, s. Qed.
Lemma push_es (P : Prop) `{!Decision P} x s :
  (if decide P then s else set_e_schemas x s) = set_e_schemas (if decide P then e_schemas_ s else x) s.
Proof. by destruct (decide P), s. Qed.

Lemma AddEdgeLabel_eq src_label dst_label edge_label e temporary s src dst :
  ok s → LabelIndexer.index_ (vlabel_indexer_ s) !! src_label = Some src →
  LabelIndexer.index_ (vlabel_indexer_ s) !! dst_label = Some dst →
  AddEdgeLabel src_label dst_label edge_label e temporary s =
  match LabelIndexer.add edge_label (elabel_indexer_ s) with
  | (x', Ok (_, edge)) =>
      (with_triplet x' edge (generate_edge_label src dst edge) (MkEntry edge_label e false) temporary s, Ok tt)
  | (x', Throw err) => (set_elabels x' s, Throw err)
  end.
Proof.
  intros Hok Hs Hd. unfold AddEdgeLabel. rewrite (st_bind_ok _ _ _ _ _ (known_label s _ _ Hok Hs)), (st_bind_ok _ _ _ _ _ (known_label s _ _ Hok Hd)).
  unfold mbind, st_bind, update, edge_label_to_index. destruct (LabelIndexer.add edge_label (elabel_indexer_ s)) as [x' [[fresh edge]|err]]; [|done].
  f_equal. rewrite !push_etomb, push_es, !push_ttomb. reflexivity.
Qed.

(** The parts of a schema about vertex labels. *)
Definition same_vertices (s s' : schema) : Prop :=
  vlabel_indexer_ s' = vlabel_indexer_ s ∧ v_schemas_ s' = v_schemas_ s ∧ vlabel_tomb_ s' = vlabel_tomb_ s.

Lemma same_vertices_valid s s' i : same_vertices s s' → is_vertex_label_valid i s' = is_vertex_label_valid i s.
Proof. intros (H1 & _ & H3). unfold is_vertex_label_valid. by rewrite H1, H3. Qed.

Theorem AddEdgeLabel_ok src_label dst_label edge_label e temporary s src dst :
  ok s → LabelIndexer.index_ (vlabel_indexer_ s) !! src_label = Some src →
  LabelIndexer.index_ (vlabel_indexer_ s) !! dst_label = Some dst →
  let x := AddEdgeLabel src_label dst_label edge_label e temporary s in
  match x.2 with
  | Ok _ => ok x.1 ∧ same_vertices s x.1 ∧ ∃ edge, 0 ≤ edge < 256 ∧
      LabelIndexer.index_ (elabel_indexer_ x.1) = <[edge_label := edge]> (LabelIndexer.index_ (elabel_indexer_ s)) ∧
      dom (e_schemas_ x.1) = {[generate_edge_label src dst edge]} ∪ dom (e_schemas_ s) ∧
      (∀ k, k ≠ generate_edge_label src dst edge → e_schemas_ x.1 !! k = e_schemas_ s !! k) ∧
      (e_schemas_ s !! generate_edge_label src dst edge = None →
       e_schemas_ x.1 !! generate_edge_label src dst edge = Some (MkEntry edge_label e temporary))
  | Throw err => err = Overflow ∧ x.1 = s ∧ LabelIndexer.num_slots (elabel_indexer_ s) = 256
  end.
Proof.
  intros Hok Hs Hd. cbv zeta. rewrite (AddEdgeLabel_eq _ _ _ _ _ _ _ _ Hok Hs Hd).
  pose proof (LabelIndexer.add_spec edge_label _ (ok_e _ Hok)) as (Hw & Hadd).
  destruct (LabelIndexer.add edge_label (elabel_indexer_ s)) as [x' [[fresh edge]|err]] eqn:Ha; cbn [fst snd] in *.
  2:{ destruct Hadd as (-> & -> & _ & _ & Hn). split_and!; [done|by destruct s|done]. }
  destruct Hadd as (Hi & Hidx & _ & _). pose proof (tombs_add _ _ _ _ _ _ (ok_e _ Hok) (ok_etomb _ Hok) Ha) as Htomb.
  destruct (LabelIndexer.wf_bound _ _ _ (ok_v _ Hok) Hs) as [Hsb Hs256]. destruct (LabelIndexer.wf_bound _ _ _ (ok_v _ Hok) Hd) as [Hdb Hd256].
  set (k := generate_edge_label src dst edge). destruct (triplet_roundtrip src dst edge) as [_ Hk]; [lia..|]. fold k in Hk.
  set (es := if decide (is_Some (e_schemas_ s !! k)) then e_schemas_ s else <[k := MkEntry edge_label e false]> (e_schemas_ s)).
  assert (Hes : ∀ j y, j ≠ k → es !! j = Some y ↔ e_schemas_ s !! j = Some y).
  { intros j y Hj. unfold es. case_decide; [done|]. by rewrite lookup_insert_ne. }
  assert (Hesk : e_schemas_ s !! k = None → es !! k = Some (MkEntry edge_label e false)).
  { intros Hn. unfold es. rewrite decide_False by (rewrite Hn; by intros [? ?]). apply lookup_insert_eq. }
  assert (Hdom : dom es = {[k]} ∪ dom (e_schemas_ s)).
  { unfold es. case_decide as Hd'; [|by rewrite dom_insert_L]. apply elem_of_dom in Hd'. set_solver. }
  assert (Hname : ∀ n j, LabelIndexer.index_ (elabel_indexer_ s) !! n = Some j → LabelIndexer.index_ x' !! n = Some j).
  { intros n j Hn. rewrite Hidx. destruct (decide (n = edge_label)) as [->|Hne]; [|by rewrite lookup_insert_ne].
    rewrite (add_known _ _ _ Hn) in Ha. injection Ha as _ _ <-. apply lookup_insert_eq. }
  split_and!; [|done|exists edge; split_and!; [lia|lia|done| | |]].
  - split; [apply Hok|done|apply Hok|apply Hok|done|]. cbn [with_triplet e_schemas_ elabel_indexer_ elabel_triplet_tomb_].
    fold es. intros j y Hj. apply lookup_alter_Some in Hj as Hcase.
    assert (Hold : ∀ y0, e_schemas_ s !! j = Some y0 → edge_label_name y = edge_label_name y0 → ∃ a b c, j = generate_edge_label a b c ∧ 0 ≤ a ∧ 0 ≤ b ∧
      is_vertex_label_valid a s = true ∧ is_vertex_label_valid b s = true ∧ LabelIndexer.index_ x' !! edge_label_name y = Some c ∧
      0 ≤ j < Bitset.size (untomb k (elabel_triplet_tomb_ s)) ∧ Bitset.get j (untomb k (elabel_triplet_tomb_ s)) = false).
    { intros y0 Hy0 Hny. destruct (ok_triplets _ Hok _ _ Hy0) as (a & b & c & Hg & H1 & H2 & H3 & H4 & H5 & H6 & H7). exists a, b, c.
      destruct (untomb_spec k j (elabel_triplet_tomb_ s)) as [-> ->]; [lia|lia|]. rewrite H7, andb_false_r, Hny.
      split_and!; try done; try lia. by apply Hname. }
    destruct Hcase as [(<- & y0 & Hy0 & ->)|[Hne Hy]].
    + destruct (e_schemas_ s !! k) as [y1|] eqn:Hk1.
      * assert (y0 = y1) as ->; [|by eapply Hold]. unfold es in Hy0. rewrite decide_True in Hy0 by (rewrite ?Hk1; eauto). congruence.
      * rewrite (Hesk eq_refl) in Hy0. injection Hy0 as <-. cbn [edge_label_name]. exists src, dst, edge.
        destruct (untomb_spec k k (elabel_triplet_tomb_ s)) as [-> ->]; [lia|lia|]. rewrite Z.eqb_refl. cbn [negb andb].
        split_and!; [done|lia|lia| | | |lia|lia|done].
        -- apply (valid_iff s src Hok); [lia|eauto].
        -- apply (valid_iff s dst Hok); [lia|eauto].
        -- rewrite Hidx. apply lookup_insert_eq.
    + apply (Hes j y) in Hy; [|done]. by eapply Hold.
  - cbn [with_triplet e_schemas_]. fold es. by rewrite dom_alter_L.
  - intros j Hj. cbn [with_triplet e_schemas_]. fold es. rewrite lookup_alter_ne by done.
    destruct (e_schemas_ s !! j) as [y|] eqn:Hy; [by apply Hes|]. destruct (es !! j) as [y|] eqn:Hy'; [|done]. apply Hes in Hy'; [congruence|done].
  - intros Hn. cbn [with_triplet e_schemas_]. fold es. rewrite lookup_alter_eq, (Hesk Hn). done.
Qed.

(** ** Deleting labels *)

Lemma label_used_spec edge es s :
  (∀ x, x ∈ es → is_Some (LabelIndexer.index_ (elabel_indexer_ s) !! edge_label_name x)) →
  ∃ b, label_used edge es s = Ok b ∧ (b = false → ∀ x, x ∈ es → LabelIndexer.index_ (elabel_indexer_ s) !! edge_label_name x ≠ Some edge).
Proof.
  induction es as [|x es IH]; intros Hall; cbn [label_used]; [exists false; split; [done|]; by intros _ x ?%elem_of_nil|].
  destruct (Hall x) as [i Hi]; [by left|]. unfold get_edge_label_id_internal, LabelIndexer.get_index. rewrite Hi. cbn [of_option mbind res_bind].
  destruct (Z.eqb_spec i edge) as [->|Hne]; [by exists true|].
  destruct IH as (b & Hb & Hno); [intros y Hy; apply Hall; by right|]. exists b. split; [done|]. intros Hf y [->|Hy]%elem_of_cons; [congruence|by apply Hno].
Qed.

(** Deleting a triplet frees its edge label when no other triplet has it. *)
Theorem DeleteEdgeLabel_ok src dst edge s :
  ok s → 0 ≤ src < 256 → 0 ≤ dst < 256 → 0 ≤ edge < 256 →
  let x := DeleteEdgeLabel src dst edge false s in
  x.2 = Ok tt ∧ ok x.1 ∧ same_vertices s x.1 ∧ e_schemas_ x.1 = delete (generate_edge_label src dst edge) (e_schemas_ s).
Proof.
  intros Hok Hsr Hds Hed. set (k := generate_edge_label src dst edge). unfold DeleteEdgeLabel. fold k. unfold mbind, st_bind, get_state.
  destruct (e_schemas_ s !! k) as [y|] eqn:Hy.
  2:{ rewrite decide_False by (by intros [? ?]). cbn. split_and!; [done|done|done|]. by rewrite delete_id. }
  rewrite decide_True by eauto. cbn [update lift_res mret st_ret].
  set (s1 := set_ttomb (Bitset.set k (elabel_triplet_tomb_ (set_e_schemas (delete k (e_schemas_ s)) s))) (set_e_schemas (delete k (e_schemas_ s)) s)).
  destruct (ok_triplets _ Hok _ _ Hy) as (a & b & c & Hg & H1 & H2 & H3 & H4 & H5 & H6 & H7).
  destruct (LabelIndexer.wf_bound _ _ _ (ok_e _ Hok) H5) as [Hcb Hc256].
  apply generate_inj in Hg as (_ & _ & <-); [|lia..|split; [lia|by eapply valid_bound]|split; [lia|by eapply valid_bound]|lia].
  assert (Hother : ∀ j z, delete k (e_schemas_ s) !! j = Some z → ∃ a b c, j = generate_edge_label a b c ∧ 0 ≤ a ∧ 0 ≤ b ∧
    is_vertex_label_valid a s = true ∧ is_vertex_label_valid b s = true ∧ LabelIndexer.index_ (elabel_indexer_ s) !! edge_label_name z = Some c ∧
    0 ≤ j < Bitset.size (Bitset.set k (elabel_triplet_tomb_ s)) ∧ Bitset.get j (Bitset.set k (elabel_triplet_tomb_ s)) = false).
  { intros j z [Hne Hz]%lookup_delete_Some. destruct (ok_triplets _ Hok _ _ Hz) as (a' & b' & c' & K1 & K2 & K3 & K4 & K5 & K6 & K7 & K8).
    exists a', b', c'. rewrite size_set, get_set, K8, orb_false_r, (proj2 (Z.eqb_neq _ _)) by lia. split_and!; done || lia. }
  destruct (label_used_spec edge ((map_to_list (e_schemas_ s1)).*2) s1) as (used & Hu & Hun).
  { intros z (p & -> & Hp)%list_elem_of_fmap. destruct p as [j z]. apply elem_of_map_to_list in Hp. cbn in Hp.
    destruct (Hother _ _ Hp) as (_ & _ & c' & _ & _ & _ & _ & _ & Hc' & _). eauto. }
  rewrite Hu. destruct used.
  { cbn. split_and!; [done| |done|done]. split; cbn; try apply Hok. exact Hother. }
  assert (Htf : Bitset.get edge (elabel_tomb_ s1) = false).
  { destruct (Bitset.get edge (elabel_tomb_ s1)) eqn:E; [|done]. apply (proj2 (ok_etomb _ Hok)) in E; [|lia].
    apply (LabelIndexer.wf_index _ (ok_e _ Hok)) in H5 as (_ & _ & ?). done. }
  rewrite Htf. assert (Hkey : LabelIndexer.get_key edge (elabel_indexer_ s1) = Ok (edge_label_name y)).
  { apply (LabelIndexer.wf_index _ (ok_e _ Hok)) in H5 as (_ & Hk & _). unfold LabelIndexer.get_key. cbn [s1 set_ttomb set_e_schemas elabel_indexer_].
    rewrite (proj2 (Z.leb_gt _ _)) by (unfold LabelIndexer.num_slots in Hcb; lia). by rewrite Hk. }
  rewrite Hkey. cbn [fst snd]. destruct (LabelIndexer.remove_spec (edge_label_name y) _ (ok_e _ Hok)) as [Hw Hidx].
  split_and!; [done| |done|done]. split; cbn; try apply Hok; [exact Hw|exact (tombs_remove _ _ _ _ (ok_e _ Hok) (ok_etomb _ Hok) H5)|].
  intros j z Hz. destruct (Hother _ _ Hz) as (a' & b' & c' & K1 & K2 & K3 & K4 & K5 & K6 & K7 & K8).
  exists a', b', c'. split_and!; try done; try lia. rewrite Hidx, lookup_delete_ne; [done|]. intros Hn.
  apply (Hun eq_refl z); [|by rewrite <- Hn]. apply list_elem_of_fmap. exists (j, z). split; [done|]. by apply elem_of_map_to_list.
Qed.

(** Deleting a vertex label frees its id; no triplet may have it any more. *)
Theorem DeleteVertexLabel_ok i s :
  ok s → 0 ≤ i → is_vertex_label_valid i s = true →
  (∀ a b c, 0 ≤ a < 256 → 0 ≤ b < 256 → 0 ≤ c < 256 → a = i ∨ b = i → e_schemas_ s !! generate_edge_label a b c = None) →
  let x := DeleteVertexLabel i false s in
  x.2 = Ok tt ∧ ok x.1 ∧ is_vertex_label_valid i x.1 = false ∧ e_schemas_ x.1 = e_schemas_ s ∧
  ∀ j, 0 ≤ j → j ≠ i → is_vertex_label_valid j x.1 = is_vertex_label_valid j s.
Proof.
  intros Hok Hi Hv Hno. cbv zeta. pose proof Hv as Hv'. unfold is_vertex_label_valid in Hv'. apply andb_true_iff in Hv' as [Hlt%Z.ltb_lt Ht%negb_true_iff].
  apply (valid_iff _ _ Hok Hi) in Hv as [n Hn].
  pose proof Hn as Hn'. apply (LabelIndexer.wf_index _ (ok_v _ Hok)) in Hn' as (_ & Hk & _).
  assert (Hkey : LabelIndexer.get_key i (vlabel_indexer_ s) = Ok n).
  { unfold LabelIndexer.get_key. rewrite (proj2 (Z.leb_gt _ _)) by (unfold LabelIndexer.num_slots in Hlt; lia). by rewrite Hk. }
  set (s' := MkSchema (LabelIndexer.remove n (vlabel_indexer_ s)).1 (elabel_indexer_ s)
    (alter (fmap clear_vertex_schema) (Z.to_nat i) (v_schemas_ s)) (e_schemas_ s) (Bitset.set i (vlabel_tomb_ s)) (elabel_tomb_ s) (elabel_triplet_tomb_ s)).
  assert (Heq : DeleteVertexLabel i false s = (s', Ok tt)).
  { unfold DeleteVertexLabel, mbind, st_bind, get_state. rewrite Ht. unfold update, lift_res. rewrite Hkey. done. }
  rewrite Heq. cbn [fst snd]. destruct (LabelIndexer.remove_spec n _ (ok_v _ Hok)) as [Hw Hidx].
  pose proof (tombs_remove _ _ _ _ (ok_v _ Hok) (ok_vtomb _ Hok) Hn) as Htr.
  assert (Hslots : LabelIndexer.num_slots (LabelIndexer.remove n (vlabel_indexer_ s)).1 = LabelIndexer.num_slots (vlabel_indexer_ s)).
  { unfold LabelIndexer.remove. by rewrite Hn. }
  assert (Hsz : Bitset.size (vlabel_tomb_ s) = LabelIndexer.num_slots (vlabel_indexer_ s)) by apply (ok_vtomb _ Hok).
  assert (Hj : ∀ j, 0 ≤ j → is_vertex_label_valid j s' = negb (j =? i) && is_vertex_label_valid j s).
  { intros j Hj. unfold is_vertex_label_valid. cbn. rewrite Hslots, get_set by lia. destruct (Z.eqb_spec j i) as [->|]; cbn; [by rewrite andb_false_r|done]. }
  split_and!; [done| |by rewrite Hj, Z.eqb_refl by done|done|intros j Hj0 Hne; rewrite Hj by done; by rewrite (proj2 (Z.eqb_neq _ _))].
  split; cbn; [exact Hw|apply Hok|rewrite length_alter, Hslots; apply Hok|exact Htr|apply Hok|].
  intros k x Hx. destruct (ok_triplets _ Hok _ _ Hx) as (a & b & c & K1 & K2 & K3 & K4 & K5 & K6 & K7 & K8).
  assert (Ha : a < 256) by (by eapply valid_bound). assert (Hb : b < 256) by (by eapply valid_bound).
  destruct (LabelIndexer.wf_bound _ _ _ (ok_e _ Hok) K6) as [Hcb Hc256].
  assert (Hneq : a ≠ i ∧ b ≠ i).
  { split; intros ->; rewrite K1, Hno in Hx; try done; try lia; tauto. }
  destruct Hneq as [Hai%Z.eqb_neq Hbi%Z.eqb_neq].
  exists a, b, c. split_and!; try done; try lia; rewrite Hj by done; rewrite ?Hai, ?Hbi; done.
Qed.

(** Deletions free ids and drop no slot. *)
Lemma remove_slots n x : LabelIndexer.num_slots (LabelIndexer.remove n x).1 = LabelIndexer.num_slots x.
Proof. unfold LabelIndexer.remove. by destruct (LabelIndexer.index_ x !! n). Qed.

Lemma DeleteEdgeLabel_slots src dst edge soft s :
  LabelIndexer.num_slots (elabel_indexer_ (DeleteEdgeLabel src dst edge soft s).1) = LabelIndexer.num_slots (elabel_indexer_ s).
Proof.
  unfold DeleteEdgeLabel, mbind, st_bind, get_state, update, lift_res, mret, st_ret.
  repeat (case_match; simplify_eq/=; try done); by rewrite ?remove_slots.
Qed.

Lemma DeleteVertexLabel_slots i soft s :
  let s' := (DeleteVertexLabel i soft s).1 in
  LabelIndexer.num_slots (vlabel_indexer_ s') = LabelIndexer.num_slots (vlabel_indexer_ s) ∧ elabel_indexer_ s' = elabel_indexer_ s.
Proof.
  unfold DeleteVertexLabel, mbind, st_bind, get_state, update, lift_res, mret, st_ret.
  repeat (case_match; simplify_eq/=; try done); by rewrite ?remove_slots.
Qed.

Lemma edge_valid_iff s i : ok s → 0 ≤ i → (is_edge_label_valid i s = true ↔ ∃ n, LabelIndexer.index_ (elabel_indexer_ s) !! n = Some i).
Proof. intros Hok. apply in_use_iff; apply Hok. Qed.
