(* ===== verification/SchemaColumns.v ===== *)
(** * Properties of vertex types, and changes of properties in the schema

    VertexSchema (src/storages/graph/schema.cc): the properties of a vertex type
    in parallel vectors, beside the primary key, which is known by its name and
    by the position of its column in the input.  And the functions of Schema that
    change the properties of a vertex type or of an edge triplet. *)

From stdpp Require Import gmap.
From S2P Require Import Prelude Values Tables EdgeSchema LabelIndexer SchemaLabels.

Module VertexSchema.
Import Schema.
Implicit Types (v : Schema.VertexSchema).

Definition with_properties (ns : list name) (ts : list DataType) (ks : list (DataType * name * Z)) (ds : list Value) (del : list bool) v : Schema.VertexSchema :=
  MkVertexSchema (label_name v) ts ns ks ds del (vtemporary v).

Definition find_property (n : name) v : option nat := fst <$> list_find (n =.) (property_names v).
Definition primary_key v : res (DataType * name * Z) := of_option OutOfBounds (head (primary_keys v)).

Definition has_property (n : name) v : res bool :=
  '(_, pk, _) ← primary_key v;
  Ok (bool_decide (pk = n) ||
      match find_property n v with Some i => negb (default true (vprop_soft_deleted v !! i)) | None => false end).
Definition has_property_internal (n : name) v : res bool :=
  '(_, pk, _) ← primary_key v; Ok (bool_decide (pk = n) || bool_decide (is_Some (find_property n v))).
Definition is_property_soft_deleted (n : name) v : res bool :=
  match find_property n v with Some i => of_option OutOfBounds (vprop_soft_deleted v !! i) | None => Throw InvalidArgument end.
Definition get_property_index (n : name) v : res Z :=
  '(_, pk, _) ← primary_key v;
  if bool_decide (pk = n) then Throw InvalidArgument
  else Ok (match find_property n v with
           | Some i => if default true (vprop_soft_deleted v !! i) then -1 else i32 (Z.of_nat i)
           | None => -1
           end).
Definition get_property_name (index : Z) v : res name :=
  if index <? 0 then Throw InvalidArgument else of_option InvalidArgument (property_names v !! Z.to_nat index).

Section defaults.
(** [get_default_value] of a type. *)
Context (get_default_value : DataType → Value).

(** Names are not compared with those that are there. *)
Fixpoint add_properties (names : list name) (types : list DataType) (defaults : list Value) v : Schema.VertexSchema * res unit :=
  match names with
  | [] => (v, Ok tt)
  | n :: names =>
      match types with
      | [] => (with_properties (property_names v ++ [n]) (property_types v) (primary_keys v) (default_property_values v) (vprop_soft_deleted v) v, Throw OutOfBounds)
      | t :: types =>
          let d := match defaults with d :: _ => d | [] => get_default_value t end in
          add_properties names types (tail defaults)
            (with_properties (property_names v ++ [n]) (property_types v ++ [t]) (primary_keys v) (default_property_values v ++ [d])
               (vprop_soft_deleted v ++ [false]) v)
      end
  end.
End defaults.

(** The first property of the name that is not deleted. *)
Fixpoint rename_scan (n r : name) (names : list name) (del : list bool) : res (list name) :=
  match names, del with
  | [], _ => Ok []
  | _ :: _, [] => Throw OutOfBounds
  | x :: names, true :: del => cons x <$> rename_scan n r names del
  | x :: names, false :: del => if bool_decide (x = n) then Ok (r :: names) else cons x <$> rename_scan n r names del
  end.
Fixpoint rename_properties (names renames : list name) v : Schema.VertexSchema * res unit :=
  match names with
  | [] => (v, Ok tt)
  | n :: names =>
      match renames with
      | [] => (v, Throw OutOfBounds)
      | r :: renames =>
          match rename_scan n r (property_names v) (vprop_soft_deleted v) with
          | Ok ns => rename_properties names renames (with_properties ns (property_types v) (primary_keys v) (default_property_values v) (vprop_soft_deleted v) v)
          | Throw e => (v, Throw e)
          end
      end
  end.

(** The position of the key moves with the columns before it. *)
Definition shift_key (j : nat) (k : DataType * name * Z) : DataType * name * Z :=
  let '(ty, pk, ord) := k in (ty, pk, if Z.of_nat j <? ord then ord - 1 else ord).
Definition delete_property (is_soft : bool) v (n : name) : Schema.VertexSchema :=
  match find_property n v with
  | None => v
  | Some j =>
      if is_soft then with_properties (property_names v) (property_types v) (primary_keys v) (default_property_values v)
                        (<[j := true]> (vprop_soft_deleted v)) v
      else with_properties (delete j (property_names v)) (delete j (property_types v)) (shift_key j <$> primary_keys v)
             (delete j (default_property_values v)) (delete j (vprop_soft_deleted v)) v
  end.
Definition delete_properties (names : list name) (is_soft : bool) v : Schema.VertexSchema * res unit :=
  match primary_key v with
  | Throw e => (v, Throw e)
  | Ok (_, pk, _) => if bool_decide (pk ∈ names) then (v, Throw RuntimeFailure) else (foldl (delete_property is_soft) v names, Ok tt)
  end.

(** ** The columns of the input *)

(** The key's column among the columns of the properties. *)
Definition columns (pk : name) (ord : nat) (names : list name) : list name := take ord names ++ pk :: drop ord names.

Lemma filter_out (n : name) X Y : n ∉ X → n ∉ Y → filter (λ c, c ≠ n) (X ++ n :: Y) = X ++ Y.
Proof.
  intros HX HY. rewrite filter_app, filter_cons_False by (intros H; by apply H).
  rewrite !filter_all_in; [done| |]; intros c Hc ->; done.
Qed.

Lemma delete_column_step pk ord names n j :
  names !! j = Some n → NoDup (columns pk ord names) → (ord ≤ length names)%nat →
  let ord' := if (j <? ord)%nat then (ord - 1)%nat else ord in
  columns pk ord' (delete j names) = filter (λ c, c ≠ n) (columns pk ord names) ∧ (ord' ≤ length (delete j names))%nat.
Proof.
  intros Hj Hnd Hord ord'. apply lookup_lt_Some in Hj as Hlt.
  split; [|rewrite length_delete by (by eexists); unfold ord'; destruct (Nat.ltb_spec j ord); lia].
  rewrite <- (take_drop_middle _ _ _ Hj) in Hnd, Hord |- *. set (A := take j names) in *. set (Y := drop (S j) names) in *.
  assert (HA : length A = j) by (unfold A; rewrite length_take; lia). clearbody A Y. subst j. clear Hj Hlt.
  rewrite delete_middle. unfold columns, ord' in *. destruct (Nat.ltb_spec (length A) ord) as [Hlt|Hge].
  - rewrite length_app in Hord. cbn in Hord. replace ord with (length A + S (ord - length A - 1))%nat in Hnd |- * by lia.
    set (m := (ord - length A - 1)%nat) in *. replace (length A + S m - 1)%nat with (length A + m)%nat by lia.
    rewrite !take_app_add, !drop_app_add in *. cbn [take drop] in *. rewrite <- !app_assoc in *. cbn [app] in *.
    apply NoDup_app in Hnd as (_ & HnA & Hnd). apply NoDup_cons in Hnd as [Hn _]. symmetry. apply filter_out; [|done].
    intros Hin. apply (HnA _ Hin). by left.
  - rewrite !take_app_le, !drop_app_le in * by lia.
    replace (take ord A ++ pk :: drop ord A ++ n :: Y) with ((take ord A ++ pk :: drop ord A) ++ n :: Y) in * by (by rewrite <- app_assoc).
    apply NoDup_app in Hnd as (_ & HnA & Hnd). apply NoDup_cons in Hnd as [Hn _]. rewrite filter_out; [by rewrite <- app_assoc| |done].
    intros Hin. apply (HnA _ Hin). by left.
Qed.

(** A schema with one key, at a position among its columns, all with different
    names and the vectors parallel. *)
Definition keyed v (ty : DataType) (pk : name) (ord : nat) : Prop :=
  primary_keys v = [(ty, pk, Z.of_nat ord)] ∧ (ord ≤ length (property_names v))%nat ∧ NoDup (columns pk ord (property_names v)) ∧
  length (property_types v) = length (property_names v) ∧ length (default_property_values v) = length (property_names v) ∧
  length (vprop_soft_deleted v) = length (property_names v).

Lemma delete_property_columns v ty pk ord n :
  keyed v ty pk ord → n ≠ pk →
  ∃ ord', keyed (delete_property false v n) ty pk ord' ∧
    columns pk ord' (property_names (delete_property false v n)) = filter (λ c, c ≠ n) (columns pk ord (property_names v)).
Proof.
  intros (Hk & Hord & Hnd & H1 & H2 & H3) Hne. unfold delete_property, find_property.
  destruct (list_find (n =.) (property_names v)) as [[j x]|] eqn:Hf; cbn [fmap option_fmap option_map fst].
  - apply list_find_Some in Hf as (Hj & <- & _). destruct (delete_column_step pk ord _ n j Hj Hnd Hord) as [Hc Ho].
    set (ord' := if (j <? ord)%nat then _ else _) in *. exists ord'. split; [|exact Hc]. unfold keyed.
    cbn [with_properties primary_keys property_names property_types default_property_values vprop_soft_deleted]. apply lookup_lt_Some in Hj as Hlt.
    rewrite Hk, !(length_delete _ j) by (apply lookup_lt_is_Some; lia). rewrite Hc. rewrite length_delete in Ho by (by eexists).
    split_and!; [|done|by apply NoDup_filter|lia..].
    cbn. unfold ord'. destruct (Nat.ltb_spec j ord), (Z.ltb_spec (Z.of_nat j) (Z.of_nat ord)); try lia; do 2 f_equal; lia.
  - exists ord. split; [done|]. symmetry. apply filter_all_in. intros c Hc ->. unfold columns in Hc.
    rewrite list_find_None, Forall_forall in Hf. apply (Hf n); [|done].
    apply elem_of_app in Hc as [Hc|[?|Hc]%elem_of_cons]; [eapply elem_of_sublist; [exact Hc|apply sublist_take]|done|eapply elem_of_sublist; [exact Hc|apply sublist_drop]].
Qed.

(** C16: Deleting properties of a vertex type that has its key
    anywhere among its columns leaves the columns of the input as they were
    without those deleted: the key is still where the schema says it is, and the
    vectors of the schema stay parallel.  The key itself is not deleted. *)
Theorem delete_keeps_columns names v ty pk ord :
  keyed v ty pk ord →
  let x := delete_properties names false v in
  if bool_decide (pk ∈ names) then x = (v, Throw RuntimeFailure)
  else x.2 = Ok tt ∧ ∃ ord', keyed x.1 ty pk ord' ∧
    columns pk ord' (property_names x.1) = filter (λ c, c ∉ names) (columns pk ord (property_names v)).
Proof.
  intros Hv x. unfold x, delete_properties, primary_key. destruct (Hv) as (-> & _). cbn [head of_option].
  destruct (bool_decide_reflect (pk ∈ names)) as [|Hn]; [done|]. split; [done|]. clear x. cbn [fst].
  revert v ord Hv. induction names as [|n names IH]; intros v ord Hv; cbn [foldl].
  - exists ord. split; [done|]. symmetry. apply filter_all_in. intros c _. apply not_elem_of_nil.
  - apply not_elem_of_cons in Hn as [Hne Hn].
    destruct (delete_property_columns v ty pk ord n Hv) as (ord1 & Hv1 & Hc1); [done|].
    destruct (IH Hn _ _ Hv1) as (ord2 & Hv2 & Hc2). exists ord2. split; [done|]. rewrite Hc2, Hc1, list_filter_filter.
    apply list_filter_iff. intros c. rewrite not_elem_of_cons. tauto.
Qed.

(** The key is the second of four columns; the first and the last are deleted. *)
Lemma delete_keeps_columns_witness :
  let v := MkVertexSchema [112] (replicate 3 (MkDataType kInt32 None)) [[97]; [98]; [99]] [(MkDataType kInt64 None, [105], 1)]
             (replicate 3 (scalar kInt32 (V_integer 0))) [false; false; false] false in
  let x := delete_properties [[99]; [97]] false v in
  x.2 = Ok tt ∧ ∃ ord', keyed x.1 (MkDataType kInt64 None) [105] ord' ∧ columns [105] ord' (property_names x.1) = [[105]; [98]].
Proof.
  intros v x. pose proof (delete_keeps_columns [[99]; [97]] v (MkDataType kInt64 None) [105] 1) as H.
  rewrite bool_decide_false in H by (by intros [?|[?|?%elem_of_nil]%elem_of_cons]%elem_of_cons). apply H.
  split_and!; [done|cbn; lia| |done|done|done]. apply (bool_decide_unpack _). vm_compute. exact I.
Defined.
End VertexSchema.

(** ** Changes through the schema *)

Module SchemaColumns.
Import Schema.
Implicit Types (s : schema).

Definition get_vertex_label_name (label : Z) s : res name :=
  if Bitset.get label (vlabel_tomb_ s) then Throw InternalError else LabelIndexer.get_key label (vlabel_indexer_ s).
Definition ensure_edge_label_valid (label : Z) s : res unit :=
  if is_edge_label_valid label s then Ok tt else Throw RuntimeFailure.
Definition ensure_edge_triplet_valid (src dst edge : Z) s : res unit :=
  if is_edge_triplet_valid src dst edge s then Ok tt else Throw RuntimeFailure.
Definition get_edge_label_name (label : Z) s : res name :=
  _ ← ensure_edge_label_valid label s; LabelIndexer.get_key label (elabel_indexer_ s).
Definition is_edge_triplet_name_valid (src dst edge : name) s : res bool :=
  if negb (is_vertex_name_valid src s) || negb (is_vertex_name_valid dst s) || negb (is_edge_name_valid edge s) then Ok false
  else i ← get_vertex_label_id src s; j ← get_vertex_label_id dst s; e ← get_edge_label_id edge s;
  Ok (is_edge_triplet_valid i j e s).

Definition vertex_schema (label : Z) s : res VertexSchema := of_option OutOfBounds (mjoin (v_schemas_ s !! Z.to_nat label)).
Definition edge_schema (index : Z) s : res EdgeSchema.schema := body <$> of_option OutOfBounds (e_schemas_ s !! index).

Definition vertex_has_property (label : Z) (n : name) s : res bool :=
  v ← vertex_schema label s; VertexSchema.has_property n v.
Definition vertex_has_property_internal (label : Z) (n : name) s : res bool :=
  v ← vertex_schema label s; VertexSchema.has_property_internal n v.
Definition edge_has_property (src dst edge : Z) (n : name) s : res bool :=
  _ ← ensure_vertex_label_valid src s;
  _ ← ensure_vertex_label_valid dst s;
  _ ← ensure_edge_label_valid edge s;
  _ ← ensure_edge_triplet_valid src dst edge s;
  EdgeSchema.has_property n <$> edge_schema (generate_edge_label src dst edge) s.
Definition edge_has_property_internal (src dst edge : Z) (n : name) s : res bool :=
  e ← edge_schema (generate_edge_label src dst edge) s; Ok (bool_decide (is_Some (EdgeSchema.find_property n e))).

(** A method of the schema of a label or of a triplet. *)
Definition on_vertex (label : Z) (f : VertexSchema → VertexSchema * res unit) : st schema unit := λ s,
  match vertex_schema label s with
  | Throw e => (s, Throw e)
  | Ok v => let '(v, r) := f v in (set_v_schemas (<[Z.to_nat label := Some v]> (v_schemas_ s)) s, r)
  end.
Definition on_edge (index : Z) (f : EdgeSchema.schema → EdgeSchema.schema * res unit) : st schema unit := λ s,
  match e_schemas_ s !! index with
  | None => (s, Throw OutOfBounds)
  | Some x => let '(e, r) := f (body x) in (set_e_schemas (<[index := MkEntry (edge_label_name x) e (etemporary x)]> (e_schemas_ s)) s, r)
  end.

Section defaults.
Context (get_default_value : DataType → Value).

Definition AddVertexProperties (label : name) (names : list name) (types : list DataType) (defaults : list Value) : st schema unit :=
  s ← get_state; i ← lift_res (get_vertex_label_id label s);
  on_vertex i (VertexSchema.add_properties get_default_value names types defaults).
Definition AddEdgeProperties (src dst edge : name) (names : list name) (types : list DataType) (defaults : list Value) : st schema unit :=
  s ← get_state; i ← lift_res (get_vertex_label_id src s); j ← lift_res (get_vertex_label_id dst s);
  e ← lift_res (get_edge_label_id edge s);
  on_edge (generate_edge_label i j e) (EdgeSchema.add_properties get_default_value names types defaults).
End defaults.

Definition RenameVertexProperties (label : name) (names renames : list name) : st schema unit :=
  s ← get_state; i ← lift_res (get_vertex_label_id label s); on_vertex i (VertexSchema.rename_properties names renames).
Definition DeleteVertexProperties (label : name) (names : list name) (is_soft : bool) : st schema unit :=
  s ← get_state; i ← lift_res (get_vertex_label_id label s); on_vertex i (VertexSchema.delete_properties names is_soft).
Definition RenameEdgeProperties (src dst edge : name) (names renames : list name) : st schema unit :=
  s ← get_state; i ← lift_res (get_vertex_label_id src s); j ← lift_res (get_vertex_label_id dst s);
  e ← lift_res (get_edge_label_id edge s);
  on_edge (generate_edge_label i j e) (EdgeSchema.rename_properties names renames).
Definition DeleteEdgeProperties (src dst edge : name) (names : list name) (is_soft : bool) : st schema unit :=
  s ← get_state; i ← lift_res (get_vertex_label_id_internal src s); j ← lift_res (get_vertex_label_id_internal dst s);
  e ← lift_res (get_edge_label_id_internal edge s);
  on_edge (generate_edge_label i j e) (λ x, (EdgeSchema.delete_properties names is_soft x, Ok tt)).
End SchemaColumns.
