(* ===== verification/DirtyTracker.v ===== *)
(** * Dirty bits

    DirtyTracker (include/neug/storages/graph/dirty_tracker.h): which tables of a
    graph changed since it was published: a bit per vertex label, one per edge
    table in a map that mirrors the edge tables, and one for the schema. *)

From stdpp Require Import gmap.
From S2P Require Import Prelude.

Module DirtyTracker.

Record t := MkTracker { vertex_ : list bool; edge_ : gmap Z bool; schema_ : bool }.
Implicit Types (d : t).

Definition kMaxVertexLabels : nat := 256.
Definition fresh : t := MkTracker (replicate kMaxVertexLabels false) ∅ false.

Definition SetVertex (label : Z) (dirty : bool) d : t := MkTracker (<[Z.to_nat label := dirty]> (vertex_ d)) (edge_ d) (schema_ d).
Definition MarkVertex (label : Z) d : t := SetVertex label true d.
Definition IsVertexDirty (label : Z) d : bool := default false (vertex_ d !! Z.to_nat label).

(** A slot that is missing is written through the end iterator. *)
Definition MarkEdge (index : Z) d : t * res unit :=
  match edge_ d !! index with
  | None => (d, Throw OutOfBounds)
  | Some _ => (MkTracker (vertex_ d) (<[index := true]> (edge_ d)) (schema_ d), Ok tt)
  end.
Definition IsEdgeDirty (index : Z) d : bool := default false (edge_ d !! index).
Definition AddEdgeSlot (index : Z) (dirty : bool) d : t :=
  if decide (is_Some (edge_ d !! index)) then d else MkTracker (vertex_ d) (<[index := dirty]> (edge_ d)) (schema_ d).
Definition EraseEdgeSlot (index : Z) d : t := MkTracker (vertex_ d) (delete index (edge_ d)) (schema_ d).

Definition SetSchema (dirty : bool) d : t := MkTracker (vertex_ d) (edge_ d) dirty.
Definition MarkSchema d : t := SetSchema true d.
Definition IsModified d : bool :=
  schema_ d || existsb id (vertex_ d) || existsb id ((map_to_list (edge_ d)).*2).

Definition MergeFrom (other d : t) : t :=
  MkTracker (zip_with orb (vertex_ d) (vertex_ other))
    (foldl (λ m p, let m := if decide (is_Some (m !! p.1)) then m else <[p.1 := false]> m in
                   if p.2 : bool then <[p.1 := true]> m else m) (edge_ d) (map_to_list (edge_ other)))
    (schema_ d || schema_ other).
Definition ClearAll d : t := MkTracker ((λ _, false) <$> vertex_ d) ((λ _, false) <$> edge_ d) false.
Definition Reset d : t := ClearAll (MkTracker (vertex_ d) ∅ (schema_ d)).

(** ** What the bits say *)

Lemma dirty_clear d : IsModified (ClearAll d) = false.
Proof.
  unfold IsModified, ClearAll. cbn [schema_ vertex_ edge_]. rewrite !orb_false_iff. split_and!; [done| |].
  - apply not_true_iff_false. intros (b & Hb & Ht)%existsb_exists. apply list_elem_of_In, list_elem_of_fmap in Hb as (x & -> & _). done.
  - apply not_true_iff_false. intros (b & Hb & Ht)%existsb_exists. apply list_elem_of_In, list_elem_of_fmap in Hb as ([k x] & -> & Hx).
    apply elem_of_map_to_list in Hx. rewrite lookup_fmap in Hx. destruct (edge_ d !! k); [|done]. cbn in Hx. by injection Hx as <-.
Qed.

Lemma modified_iff d : IsModified d = true ↔
  schema_ d = true ∨ (∃ i, vertex_ d !! i = Some true) ∨ (∃ k, edge_ d !! k = Some true).
Proof.
  unfold IsModified. rewrite !orb_true_iff, !existsb_exists. setoid_rewrite <- list_elem_of_In. split.
  - intros [[?|(b & [i Hi]%list_elem_of_lookup & Hb)]|(b & ([k x] & -> & Hk)%list_elem_of_fmap & Hb)].
    + by left.
    + right; left. exists i. by rewrite Hi, (Hb : b = true).
    + right; right. exists k. apply elem_of_map_to_list in Hk. by rewrite Hk, (Hb : x = true).
  - intros [?|[[i Hi]|[k Hk]]]; [by left; left|left; right|right].
    + exists true. split; [|done]. apply list_elem_of_lookup. eauto.
    + exists true. split; [|done]. apply list_elem_of_fmap. exists (k, true). split; [done|]. by apply elem_of_map_to_list.
Qed.

(** A merge has the bits of both trackers, and the edge slots of both. *)
Theorem merge_exact other d :
  length (vertex_ other) = length (vertex_ d) →
  schema_ (MergeFrom other d) = schema_ d || schema_ other ∧
  (∀ i, IsVertexDirty i (MergeFrom other d) = IsVertexDirty i d || IsVertexDirty i other) ∧
  (∀ k, edge_ (MergeFrom other d) !! k =
        match edge_ d !! k, edge_ other !! k with
        | Some a, Some b => Some (a || b)
        | Some a, None => Some a
        | None, o => o
        end).
Proof.
  intros Hlen. split_and!; [done| |].
  - intros i. unfold IsVertexDirty. cbn [vertex_ MergeFrom]. rewrite lookup_zip_with.
    destruct (vertex_ d !! Z.to_nat i) as [a|] eqn:Ha; cbn.
    + destruct (lookup_lt_is_Some_2 (vertex_ other) (Z.to_nat i)) as [b ->]; [rewrite Hlen; by eapply lookup_lt_Some|]. done.
    + rewrite (lookup_ge_None_2 (vertex_ other)); [done|]. rewrite Hlen. by apply lookup_ge_None.
  - intros k. cbn [edge_ MergeFrom]. generalize (edge_ d) as m. clear d Hlen.
    set (f := λ (m : gmap Z bool) (p : Z * bool), _). assert (Hf : ∀ l m, NoDup l.*1 →
      foldl f m l !! k = match m !! k, (list_to_map l : gmap Z bool) !! k with
        | Some a, Some b => Some (a || b) | Some a, None => Some a | None, o => o end).
    { induction l as [|[j b] l IH]; intros m Hnd; [cbn; rewrite lookup_empty; by destruct (m !! k)|].
      cbn in Hnd. apply NoDup_cons in Hnd as [Hj Hnd]. cbn [foldl]. rewrite IH, list_to_map_cons by done.
      assert (Hfk : f m (j, b) !! k = if decide (j = k) then Some (default false (m !! k) || b) else m !! k).
      { unfold f. cbn [fst snd]. destruct (decide (j = k)) as [->|Hne].
        - destruct b; [by rewrite lookup_insert_eq, orb_true_r|]. rewrite orb_false_r. destruct (m !! k) as [a|] eqn:Hm.
          + rewrite decide_True by eauto. by rewrite Hm.
          + rewrite decide_False by (by intros [? ?]). by rewrite lookup_insert_eq.
        - destruct b; rewrite ?lookup_insert_ne by done; case_decide; by rewrite ?lookup_insert_ne by done. }
      rewrite Hfk. destruct (decide (j = k)) as [->|Hne].
      - rewrite lookup_insert_eq. assert (list_to_map l !! k = None :> option bool) as -> by (by apply not_elem_of_list_to_map_1).
        by destruct (m !! k).
      - by rewrite lookup_insert_ne. }
    intros m. rewrite Hf by apply NoDup_fst_map_to_list. by rewrite list_to_map_to_list.
Qed.
End DirtyTracker.
