(* ===== verification/EdgeTable.v ===== *)
(** * Edge tables

    EdgeTable (src/storages/graph/edge_table.cc): the edges of a triplet in two
    adjacency tables, by source and by destination.  A bundled triplet has its
    only property inline; an unbundled one stores in each entry the row of a
    property table, which the two directions share.  Changing the properties of
    a triplet rebuilds both tables from the outgoing one. *)

From stdpp Require Import gmap.
From S2P Require Import Prelude Values StringColumn Tables PropertyColumns CsrView VertexTable CsrBase EdgeSchema.

(** ** Helpers of the file *)

Definition edge_capacity_with_headroom (edge_count : Z) : Z :=
  if edge_count <? 4096 then 4096
  else edge_count + edge_count / 5 + (if edge_count `mod` 5 =? 0 then 0 else 1).

Definition VID_NONE : Z := U32_MAX.

(** [filterInvalidEdges]: pairs with an unknown end are squeezed out in place. *)
Fixpoint filter_loop (todo i valid_count : nat) (src_lid dst_lid : list Z) (flags : list bool)
    : res (list Z * list Z * nat * list bool) :=
  match todo with
  | O => Ok (src_lid, dst_lid, valid_count, flags)
  | S todo =>
      s ← of_option OutOfBounds (src_lid !! i);
      d ← of_option OutOfBounds (dst_lid !! i);
      if negb (s =? VID_NONE) && negb (d =? VID_NONE)
      then filter_loop todo (S i) (S valid_count) (<[valid_count := s]> src_lid) (<[valid_count := d]> dst_lid) (flags ++ [true])
      else filter_loop todo (S i) valid_count src_lid dst_lid (flags ++ [false])
  end.
Definition filterInvalidEdges (src_lid dst_lid : list Z) : res (list Z * list Z * list bool) :=
  '(s, d, n, flags) ← filter_loop (length src_lid) 0 0 src_lid dst_lid [];
  Ok (take n s, take n d, flags).

Section puts.
Context `{!Memory}.

(** One default for all edges. *)
Definition batch_put_edges_with_default_edata (edges : list (Z * Z)) (property_type : DataTypeId) (default_value : Value)
    (c : Csr.csr) : Csr.csr * res unit :=
  if negb (Csr.inline_type property_type) then (c, Throw NotSupported)
  else match Csr.GetEData property_type default_value with
    | None => (c, Throw OutOfBounds)
    | Some d => Csr.batch_put_edges property_type ((λ p, (p.1, p.2, d)) <$> edges) 0 c
    end.

Fixpoint typed_data (property_type : DataTypeId) (edges : list (Z * Z)) (edge_data : list Value)
    : res (list (Z * Z * Val)) :=
  match edges, edge_data with
  | [], _ => Ok []
  | _ :: _, [] => Throw OutOfBounds
  | (s, d) :: edges, v :: vs =>
      x ← of_option OutOfBounds (Csr.GetEData property_type v);
      l ← typed_data property_type edges vs;
      Ok ((s, d, x) :: l)
  end.
Definition batch_put_edges_to_bundled_csr (edges : list (Z * Z)) (property_type : DataTypeId) (edge_data : list Value)
    (c : Csr.csr) : Csr.csr * res unit :=
  if negb (Csr.inline_type property_type) then (c, Throw NotSupported)
  else if bool_decide (property_type = kEmpty)
  then Csr.batch_put_edges kEmpty ((λ p, (p.1, p.2, V_none)) <$> edges) 0 c
  else match typed_data property_type edges edge_data with
    | Throw e => (c, Throw e)
    | Ok es => Csr.batch_put_edges property_type es 0 c
    end.
End puts.

Definition swap {A} (p : A * A) : A * A := (p.2, p.1).

Module EdgeTable.
Import EdgeSchema.

Record etable (C : Type) := MkEdgeTable {
  meta_ : EdgeSchema.schema;
  out_csr_ : Csr.csr;
  in_csr_ : Csr.csr;
  table_ : Table.table C;
  table_idx_ : Z;
  capacity_ : Z
}.
Arguments MkEdgeTable {C}. Arguments meta_ {C}. Arguments out_csr_ {C}. Arguments in_csr_ {C}.
Arguments table_ {C}. Arguments table_idx_ {C}. Arguments capacity_ {C}.

Section operations.
Context {C : Type} `{!ColumnBase C} `{!Memory}.
Abbreviation T := (etable C).
Implicit Types (t : T).

Definition set_out x t : T := MkEdgeTable (meta_ t) x (in_csr_ t) (table_ t) (table_idx_ t) (capacity_ t).
Definition set_in x t : T := MkEdgeTable (meta_ t) (out_csr_ t) x (table_ t) (table_idx_ t) (capacity_ t).
Definition set_table x t : T := MkEdgeTable (meta_ t) (out_csr_ t) (in_csr_ t) x (table_idx_ t) (capacity_ t).
Definition set_table_idx x t : T := MkEdgeTable (meta_ t) (out_csr_ t) (in_csr_ t) (table_ t) x (capacity_ t).
Definition set_capacity x t : T := MkEdgeTable (meta_ t) (out_csr_ t) (in_csr_ t) (table_ t) (table_idx_ t) x.
Definition SetEdgeSchema s t : T := MkEdgeTable s (out_csr_ t) (in_csr_ t) (table_ t) (table_idx_ t) (capacity_ t).

Definition with_out {A} (m : st Csr.csr A) : st T A := on out_csr_ set_out m.
Definition with_in {A} (m : st Csr.csr A) : st T A := on in_csr_ set_in m.
Definition with_table {A} (m : st (Table.table C) A) : st T A := on table_ set_table m.

(** [properties[0].id()] of a bundled triplet, or no data. *)
Definition bundled_type (s : schema) : DataTypeId := match properties s with [] => kEmpty | p :: _ => id_ p end.
Definition edata_type (s : schema) : DataTypeId := if is_bundled s then bundled_type s else kUInt64.

Definition empty_table : Table.table C := Table.MkTable ∅ [] [].
Definition Init (s : schema) : res T :=
  out ← Csr.create_csr (oe_mutable s) (oe_strategy s) (edata_type s);
  in_ ← Csr.create_csr (ie_mutable s) (ie_strategy s) (edata_type s);
  table ← (if is_bundled s then Ok empty_table else Table.New (property_names s) (properties s));
  Ok (MkEdgeTable s out in_ table 0 0).

(** ** Deletions *)

Definition BatchDeleteVertices (src_set dst_set : gset Z) : st T unit :=
  with_out (Csr.batch_delete_vertices src_set dst_set);; with_in (Csr.batch_delete_vertices dst_set src_set).
Definition BatchDeleteEdges (src_list dst_list : list Z) : st T unit :=
  with_out (Csr.batch_delete_edges src_list dst_list);; with_in (Csr.batch_delete_edges dst_list src_list).
Definition BatchDeleteEdgesOffsets (oe_edges ie_edges : list (Z * Z)) : st T unit :=
  with_out (Csr.batch_delete_edges_offsets oe_edges);; with_in (Csr.batch_delete_edges_offsets ie_edges).
Definition DeleteEdge (src_lid dst_lid oe_offset ie_offset ts : Z) : st T unit :=
  with_out (Csr.delete_edge src_lid oe_offset ts);; with_in (Csr.delete_edge dst_lid ie_offset ts).

(** The loop of [DeleteVertex] over the list of a vertex in one direction; the
    list is read again in each round, since the entries change under it. *)
Definition this_csr (is_src : bool) t : Csr.csr := if is_src then out_csr_ t else in_csr_ t.
Definition other_csr (is_src : bool) t : Csr.csr := if is_src then in_csr_ t else out_csr_ t.

Fixpoint delete_loop (fuel : nat) (is_src : bool) (vid ts : Z) (cur : nat) : st T unit :=
  match fuel with
  | O => throw Diverges
  | S fuel =>
      t ← get_state;
      l ← lift_res (Csr.get_edges ts vid (this_csr is_src t));
      match Csr.slots l !! cur with
      | None => mret tt
      | Some e =>
          (if ts <? timestamp e then mret tt
           else
             other_offset ← lift_res (CsrSearch.search_other_offset_with_cur_offset (this_csr is_src t) (other_csr is_src t)
                                        ts vid (neighbor e) cur (properties (meta_ t)));
             if is_src then DeleteEdge vid (neighbor e) (Z.of_nat cur) other_offset ts
             else DeleteEdge (neighbor e) vid other_offset (Z.of_nat cur) ts);;
          t ← get_state;
          l ← lift_res (Csr.get_edges ts vid (this_csr is_src t));
          delete_loop fuel is_src vid ts (NbrIterator_next (Csr.view_ts l) (Csr.slots l) cur)
      end
  end.
Definition DeleteVertex (is_src : bool) (vid ts : Z) : st T unit :=
  t ← get_state;
  l ← lift_res (Csr.get_edges ts vid (this_csr is_src t));
  _ ← lift_res (match Csr.body (other_csr is_src t) with Csr.Empty => Throw CheckFailed | _ => Ok tt end);
  delete_loop (S (length (Csr.slots l))) is_src vid ts (NbrIterator_init (Csr.view_ts l) (Csr.slots l) 0).

(** ** Properties of edges *)

(** The type of the accessed property and its column, if it has one. *)
Definition get_edge_data_accessor (col_id : Z) t : res (DataTypeId * option Z) :=
  if (col_id <? 0) || (len (properties (meta_ t)) <=? col_id) then Throw InvalidArgument
  else
    p ← of_option OutOfBounds (properties (meta_ t) !! Z.to_nat col_id);
    if negb (is_bundled (meta_ t)) then Ok (id_ p, Some col_id)
    else if negb (col_id =? 0) then Throw InvalidArgument
    else Ok (bundled_type (meta_ t), None).
Definition get_edge_data_accessor_by_name (n : name) t : res (DataTypeId * option Z) :=
  let prop_ind := get_property_index n (meta_ t) in
  if prop_ind =? -1 then Throw InvalidArgument else get_edge_data_accessor prop_ind t.

(** [position_iter_at_raw_slot]: the offset becomes an unsigned number. *)
Definition position_iter_at_raw_slot (l : Csr.NbrList) (offset : Z) : option (nat * MutableNbr Val) :=
  if len (Csr.slots l) <=? u64 offset then None
  else
    e ← Csr.slots l !! Z.to_nat (u64 offset);
    if negb (Csr.has_ts l) || (timestamp e <=? Csr.view_ts l) then Some (Z.to_nat (u64 offset), e) else None.

(** [EdgeDataAccessor::set_data] at a slot of a list: through the column by the
    row in the entry, or inline, with the timestamp first. *)
Definition set_inline (ty : DataTypeId) (has_ts : bool) (v i : Z) (e : MutableNbr Val) (value : Value) (ts : Z)
    : st Csr.csr unit :=
  let e := if has_ts then set_timestamp ts e else e in
  update (Csr.store v (Z.to_nat i) e);;
  if bool_decide (ty = kEmpty) then mret tt
  else if bool_decide (PropertyColumn.zero_of ty = None) then throw RuntimeFailure
  else match PropertyColumn.GetValue ty value with
    | None => throw OutOfBounds
    | Some d => update (Csr.store v (Z.to_nat i) (MkNbr (neighbor e) (timestamp e) d))
    end.
Definition set_cell (col_id row : Z) (value : Value) : st (Table.table C) unit := λ b,
  match Table.columns_ b !! Z.to_nat col_id with
  | None => (b, Throw OutOfBounds)
  | Some c => let '(c, r) := col_set_any row value true c in
              (Table.set_columns (<[Z.to_nat col_id := c]> (Table.columns_ b)) b, r)
  end.
Definition row_of (d : Val) : res Z := match d with V_ubigint z => Ok z | _ => Throw OutOfBounds end.

Definition UpdateEdgeProperty (src_lid dst_lid oe_offset ie_offset col_id : Z) (prop : Value) (ts : Z) : st T unit :=
  t ← get_state;
  '(ty, col) ← lift_res (get_edge_data_accessor col_id t);
  oe_edges ← lift_res (Csr.get_edges ts src_lid (out_csr_ t));
  match position_iter_at_raw_slot oe_edges oe_offset with
  | None => throw InvalidArgument
  | Some (i, e) =>
      (match col with
       | Some col => row ← lift_res (row_of (data e)); with_table (set_cell col row prop)
       | None => with_out (set_inline ty (Csr.has_ts oe_edges) src_lid (Z.of_nat i) e prop ts)
       end);;
      if is_bundled (meta_ t) then
        ie_edges ← lift_res (Csr.get_edges ts dst_lid (in_csr_ t));
        match position_iter_at_raw_slot ie_edges ie_offset with
        | None => throw InvalidArgument
        | Some (j, e) => with_in (set_inline ty (Csr.has_ts ie_edges) dst_lid (Z.of_nat j) e prop ts)
        end
      else mret tt
  end.

(** ** Capacity and counts *)

Definition EnsureCapacity (capacity : Z) : st T unit :=
  t ← get_state;
  if is_bundled (meta_ t) || (capacity <=? capacity_ t) then mret tt
  else
    let capacity := Z.max capacity 4096 in
    with_table (Table.resize_default capacity (default_property_values (meta_ t)));;
    update (set_capacity capacity).
Definition EnsureVertexCapacity (src_v_cap dst_v_cap capacity : Z) : st T unit :=
  t ← get_state;
  (if Csr.size (out_csr_ t) <? src_v_cap then with_out (Csr.resize src_v_cap) else mret tt);;
  (if Csr.size (in_csr_ t) <? dst_v_cap then with_in (Csr.resize dst_v_cap) else mret tt);;
  EnsureCapacity capacity.

Definition EdgeNum t : Z :=
  match Csr.body (out_csr_ t) with Csr.Empty => Csr.edge_num (in_csr_ t) | _ => Csr.edge_num (out_csr_ t) end.
Definition PropertyNum t : Z := Table.col_num (table_ t).
Definition PropTableSize t : Z := if is_bundled (meta_ t) then 0 else table_idx_ t.
Definition Capacity t : Z := if is_bundled (meta_ t) then Csr.capacity (out_csr_ t) else capacity_ t.

Definition Compact (sort_key_for_nbr : bool) : st T unit :=
  with_out Csr.compact;; with_in Csr.compact;;
  if sort_key_for_nbr then
    t ← get_state;
    if negb (is_bundled (meta_ t)) then throw InvalidArgument
    else with_out (Csr.batch_sort_by_edge_data 1);; with_in (Csr.batch_sort_by_edge_data 1)
  else mret tt.

(** ** Adding edges *)

Definition insert_edge_into_csr_internal (src_lid dst_lid : Z) (props : list Value) (ts : Z) (insert_safe : bool) : st T Z :=
  t ← get_state;
  if is_bundled (meta_ t) then
    let bundled_data := match props with [] => MkValue (MkDataType kEmpty None) true V_none | v :: _ => v end in
    with_in (Csr.put_generic_edge dst_lid src_lid bundled_data ts);;
    with_out (Csr.put_generic_edge src_lid dst_lid bundled_data ts)
  else if negb (length (properties (meta_ t)) =? length props)%nat then throw InvalidArgument
  else
    let row_id := table_idx_ t in
    update (set_table_idx (u64 (row_id + 1)));;
    let prop := scalar kUInt64 (V_ubigint row_id) in
    with_in (Csr.put_generic_edge dst_lid src_lid prop ts);;
    oe_offset ← with_out (Csr.put_generic_edge src_lid dst_lid prop ts);
    with_table (Table.insert row_id props insert_safe);;
    mret oe_offset.
Definition AddEdge (src_lid dst_lid : Z) (edge_data : list Value) (ts : Z) (insert_safe : bool) : st T Z :=
  insert_edge_into_csr_internal src_lid dst_lid edge_data ts insert_safe.

(** The row ids of a batch, from [offset] on. *)
Definition separated (offset : Z) (edges : list (Z * Z)) : list (Z * Z * Val) :=
  imap (λ i p, (p.1, p.2, V_ubigint (u64 (offset + Z.of_nat i)))) edges.
Definition insert_edges_separated_impl (offset : Z) (edges : list (Z * Z)) : st T unit :=
  with_out (Csr.batch_put_edges kUInt64 (separated offset edges) 0);;
  with_in (Csr.batch_put_edges kUInt64 (separated offset (swap <$> edges)) 0).

Definition BatchAddEdges (edges : list (Z * Z)) (edge_data_list : list (list Value)) : st T unit :=
  t ← get_state;
  EnsureCapacity (edge_capacity_with_headroom (u64 (table_idx_ t + len edges)));;
  if is_bundled (meta_ t) then
    match properties (meta_ t) with
    | [] => throw OutOfBounds
    | p :: _ =>
        flat_edge_data ← lift_res (if bool_decide (id_ p = kEmpty) then Ok []
                                   else mapM (λ vs, of_option OutOfBounds (head vs)) edge_data_list);
        with_out (batch_put_edges_to_bundled_csr edges (id_ p) flat_edge_data);;
        with_in (batch_put_edges_to_bundled_csr (swap <$> edges) (id_ p) flat_edge_data)
    end
  else
    let offset := table_idx_ t in
    update (set_table_idx (u64 (offset + len edges)));;
    insert_edges_separated_impl offset edges;;
    for_each (zip (seqZ offset (len edge_data_list)) edge_data_list) (λ p, with_table (Table.insert (u64 p.1) p.2 true)).

(** *** From chunks

    A chunk: the columns of source and destination ids, and the others, of
    which one can be missing. *)
Record edge_chunk := MkChunk {
  src_col : KeyedIndexer.key_column; dst_col : KeyedIndexer.key_column;
  prop_cols : list (option PropertyColumn.context_column)
}.

(** Cells of a property column: nulls of nested columns are skipped. *)
Definition nested_type (ty : DataTypeId) : bool := match ty with kArray | kList | kStruct => true | _ => false end.
Definition insert_cell (ty : DataTypeId) (j : nat) (dst_idx : Z) (v : Value) : st (Table.table C) unit :=
  if nested_type ty && IsNull v then mret tt else set_cell (Z.of_nat j) dst_idx v.
Definition make_inserter_ok (ty : DataTypeId) : bool :=
  match ty with kVarchar | kArray | kList | kStruct => true | _ => bool_decide (is_Some (PropertyColumn.zero_of ty)) end.

(** One chunk: columns first, then the valid rows of each. *)
Definition insert_chunk (prop_types : list DataType) (offset : Z) (cols : list PropertyColumn.context_column)
    (valid_rows : list nat) : st (Table.table C) unit :=
  types ← lift_res (mapM (λ j, of_option OutOfBounds (prop_types !! j)) (seq 0 (length cols)));
  (if forallb (λ ty, make_inserter_ok (id_ ty)) types then mret tt else throw NotSupported);;
  for_each (zip (seq 0 (length cols)) (zip types cols)) (λ p,
    let '(j, (ty, col)) := p in
    for_each (zip (seq 0 (length valid_rows)) valid_rows) (λ q,
      v ← lift_res (of_option OutOfBounds (PropertyColumn.elems col !! q.2));
      insert_cell (id_ ty) j (u64 (offset + Z.of_nat q.1)) v)).
Fixpoint insert_chunks (prop_types : list DataType) (offset : Z) (chunks : list (list PropertyColumn.context_column))
    (flags : list bool) : st (Table.table C) unit :=
  match chunks with
  | [] => mret tt
  | cols :: chunks =>
      let num_rows := length (from_option PropertyColumn.elems [] (head cols)) in
      let valid_rows := (filter (λ p, p.2 = true) (zip (seq 0 num_rows) flags)).*1 in
      (if (length flags <? num_rows)%nat then throw OutOfBounds else mret tt);;
      insert_chunk prop_types offset cols valid_rows;;
      insert_chunks prop_types (offset + len valid_rows) chunks (drop num_rows flags)
  end.

(** The data of the valid rows of the bundled column. *)
Definition valid_data (ty : DataTypeId) (cols : list PropertyColumn.context_column) (flags : list bool) : res (list Val) :=
  let vs := concat (PropertyColumn.elems <$> cols) in
  if (length flags <? length vs)%nat then Throw OutOfBounds
  else mapM (λ p, of_option OutOfBounds (Csr.GetEData ty p.2)) (filter (λ p, p.1 = true) (zip flags vs)).

Fixpoint with_data (edges : list (Z * Z)) (ds : list Val) : res (list (Z * Z * Val)) :=
  match edges, ds with
  | [], _ => Ok []
  | _ :: _, [] => Throw OutOfBounds
  | p :: edges, d :: ds => cons (p.1, p.2, d) <$> with_data edges ds
  end.
Definition batch_add_bundled_edges_impl (edges : list (Z * Z)) (data_cols : list PropertyColumn.context_column)
    (flags : list bool) : st T unit :=
  t ← get_state;
  let ty := bundled_type (meta_ t) in
  if bool_decide (ty = kEmpty) then
    with_out (Csr.batch_put_edges kEmpty ((λ p, (p.1, p.2, V_none)) <$> edges) 0);;
    with_in (Csr.batch_put_edges kEmpty ((λ p, (p.2, p.1, V_none)) <$> edges) 0)
  else if negb (Csr.inline_type ty) then throw NotSupported
  else
    ds ← lift_res (valid_data ty data_cols flags);
    es ← lift_res (with_data edges ds);
    with_out (Csr.batch_put_edges ty es 0);;
    with_in (Csr.batch_put_edges ty ((λ e, (e.1.2, e.1.1, e.2)) <$> es) 0).

(** The indexers of the two vertex tables: capacities, and the ids of a column
    of keys, the largest one for a key that is not there. *)
Definition BatchAddEdgesFrom (src_capacity dst_capacity : Z)
    (src_index dst_index : KeyedIndexer.key_column → res (list Z)) (chunks : list edge_chunk) : st T unit :=
  t ← get_state;
  with_in (Csr.resize dst_capacity);;
  with_out (Csr.resize src_capacity);;
  lids ← lift_res (mapM (λ ch, s ← src_index (src_col ch); d ← dst_index (dst_col ch);
                               if (length s =? length d)%nat then Ok (s, d) else Throw CheckFailed) chunks);
  '(src_lid, dst_lid, flags) ← lift_res (filterInvalidEdges (concat lids.*1) (concat lids.*2));
  let edges := zip src_lid dst_lid in
  let others := omap (λ ch, match prop_cols ch with [] => None | cols => Some cols end) chunks in
  EnsureCapacity (edge_capacity_with_headroom (u64 (table_idx_ t + len edges)));;
  if is_bundled (meta_ t) then
    cols ← lift_res (mapM (λ cols, of_option OutOfBounds (head cols ≫= id)) others);
    batch_add_bundled_edges_impl edges cols flags
  else
    let offset := table_idx_ t in
    update (set_table_idx (u64 (offset + len edges)));;
    insert_edges_separated_impl offset edges;;
    with_table (insert_chunks (properties (meta_ t)) offset (omap id <$> others) flags).

(** ** Changing the properties *)

(** Local tables are lost when a call on them throws. *)
Definition built {A B} (x : A * res B) : res A := match x.2 with Ok _ => Ok x.1 | Throw e => Throw e end.
Definition new_csrs (id : DataTypeId) t : res (Csr.csr * Csr.csr) :=
  out ← Csr.create_csr (oe_mutable (meta_ t)) (oe_strategy (meta_ t)) id;
  in_ ← Csr.create_csr (ie_mutable (meta_ t)) (ie_strategy (meta_ t)) id;
  out ← built (Csr.resize (Csr.size (out_csr_ t)) out);
  in_ ← built (Csr.resize (Csr.size (in_csr_ t)) in_);
  Ok (out, in_).

Definition ends (edges : list (Z * Z * Val)) : list (Z * Z) := fst <$> edges.

(** [batch_export] into a column of row ids, and the values at those rows. *)
Definition remaining_values (col : C) t : res (list Value) :=
  edges ← Csr.batch_export (out_csr_ t);
  if negb (bool_decide (Csr.edata (out_csr_ t) = kUInt64)) && negb (Csr.is_empty (out_csr_ t))
  then Throw InternalError
  else mapM (λ e, row ← row_of e.2; if row <? col_size col then Ok (col_get_any col row) else Throw CheckFailed) edges.

Definition dropAndCreateNewBundledCSR (remaining_col : option C) : st T unit :=
  t ← get_state;
  property_type ← lift_res (match remaining_col with
                            | None => id_ <$> of_option OutOfBounds (head (properties (meta_ t)))
                            | Some c => Ok (col_type c)
                            end);
  '(out, in_) ← lift_res (new_csrs property_type t);
  edges ← lift_res (ends <$> Csr.batch_export (out_csr_ t));
  '(out, in_) ← lift_res (
    match remaining_col with
    | None =>
        v ← of_option OutOfBounds (head (default_property_values (meta_ t)));
        out ← built (batch_put_edges_with_default_edata edges property_type v out);
        in_ ← built (batch_put_edges_with_default_edata (swap <$> edges) property_type v in_);
        Ok (out, in_)
    | Some c =>
        vs ← remaining_values c t;
        out ← built (batch_put_edges_to_bundled_csr edges property_type vs out);
        in_ ← built (batch_put_edges_to_bundled_csr (swap <$> edges) property_type vs in_);
        Ok (out, in_)
    end);
  update (set_table empty_table);;
  update (set_table_idx 0);; update (set_capacity 0);; update (set_out out);; update (set_in in_).

(** The inline data go into the first column, which has to be of their type. *)
Definition export_into (col_id : Z) (ed : DataTypeId) (edges : list (Z * Z * Val)) : st (Table.table C) unit :=
  b ← get_state;
  match Table.columns_ b !! Z.to_nat col_id with
  | None => throw OutOfBounds
  | Some c =>
      if negb (bool_decide (col_type c = ed)) then throw InternalError
      else
        update (Table.set_columns (<[Z.to_nat col_id := col_resize (len edges) c]> (Table.columns_ b)));;
        for_each (zip (seqZ 0 (len edges)) edges) (λ p, set_cell col_id p.1 (scalar ed p.2.2))
  end.

Definition dropAndCreateNewUnbundledCSR (delete_property preserve_bundled_property : bool) : st T unit :=
  (if delete_property then mret tt
   else
     t ← get_state;
     b ← lift_res (Table.New (property_names (meta_ t)) (properties (meta_ t)));
     update (set_table b));;
  t ← get_state;
  let preserve :=
    negb delete_property && preserve_bundled_property &&
    match head (Table.columns_ (table_ t)) with
    | Some c => negb (bool_decide (col_type c = kVarchar)) && negb (bool_decide (col_type c = kEmpty))
    | None => false
    end in
  (if delete_property then update (set_table_idx 0);; update (set_capacity 0) else mret tt);;
  edges ← lift_res (Csr.batch_export (out_csr_ t));
  (if preserve && negb (Csr.is_empty (out_csr_ t))
   then with_table (export_into 0 (Csr.edata (out_csr_ t)) edges) else mret tt);;
  t ← get_state;
  let prev_size := match head (Table.columns_ (table_ t)) with Some c => col_size c | None => 0 end in
  let defaults := default_property_values (meta_ t) in
  (if preserve && (0 <? prev_size) then
     with_table (Table.resize_default prev_size defaults);;
     update (set_table_idx prev_size);;
     EnsureCapacity prev_size
   else if negb delete_property then
     with_table (Table.resize_default (len edges) defaults);;
     update (set_table_idx (len edges));;
     EnsureCapacity (len edges)
   else mret tt);;
  t ← get_state;
  '(out, in_) ← lift_res (
    '(out, in_) ← new_csrs (if delete_property then kEmpty else kUInt64) t;
    if delete_property then
      out ← built (Csr.batch_put_edges kEmpty ((λ p, (p.1, p.2, V_none)) <$> ends edges) 0 out);
      in_ ← built (Csr.batch_put_edges kEmpty ((λ p, (p.2, p.1, V_none)) <$> ends edges) 0 in_);
      Ok (out, in_)
    else
      out ← built (Csr.batch_put_edges kUInt64 (separated 0 (ends edges)) 0 out);
      in_ ← built (Csr.batch_put_edges kUInt64 (separated 0 (swap <$> ends edges)) 0 in_);
      Ok (out, in_));
  update (set_out out);; update (set_in in_).

Definition AddProperties (prop_names : list name) (prop_types : list DataType) (default_values : list Value) : st T unit :=
  match prop_names with
  | [] => mret tt
  | _ =>
      t ← get_state;
      match Table.columns_ (table_ t) with
      | [] =>
          if is_bundled (meta_ t) then dropAndCreateNewBundledCSR None
          else dropAndCreateNewUnbundledCSR false (length prop_names <? length (properties (meta_ t)))%nat
      | c :: _ => with_table (Table.add_columns prop_names prop_types default_values (col_size c))
      end
  end.

Definition RenameProperties (old_names new_names : list name) : st T unit :=
  t ← get_state;
  if negb (length old_names =? length new_names)%nat then throw CheckFailed
  else if is_bundled (meta_ t) then mret tt
  else for_each (zip old_names new_names) (λ p, with_table (update (Table.rename_column p.1 p.2))).

Definition DeleteProperties (col_names : list name) : st T unit :=
  t ← get_state;
  if is_bundled (meta_ t) then
    match property_names (meta_ t) with
    | [] => mret tt
    | n :: _ => if bool_decide (n ∈ col_names) then dropAndCreateNewUnbundledCSR true false else mret tt
    end
  else
    for_each col_names (λ n, with_table (update (Table.delete_column n)));;
    t ← get_state;
    match Table.columns_ (table_ t) with
    | [] => dropAndCreateNewUnbundledCSR true false
    | [c] => match col_type c with
             | kVarchar | kArray | kList | kStruct => mret tt
             | _ => dropAndCreateNewBundledCSR (Some c)
             end
    | _ => mret tt
    end.

(** ** Putting a table together *)

(** [expectedCsrType], by kind and type instead of their names. *)
Definition expectedCsrType (s : schema) (is_in : bool) : Csr.CsrType * DataTypeId :=
  let strategy := if is_in then ie_strategy s else oe_strategy s in
  let is_mutable := if is_in then ie_mutable s else oe_mutable s in
  (Csr.csr_type (Csr.MkCsr kEmpty (Csr.create_csr_impl is_mutable strategy)), edata_type s).
Definition validateCsrSlot (s : schema) (c : Csr.csr) (is_in : bool) : res unit :=
  if bool_decide (expectedCsrType s is_in = (Csr.csr_type c, Csr.edata c)) then Ok tt else Throw InvalidArgument.
Definition SetInCsr (c : Csr.csr) : st T unit :=
  t ← get_state; lift_res (validateCsrSlot (meta_ t) c true);; update (set_in c).
Definition SetOutCsr (c : Csr.csr) : st T unit :=
  t ← get_state; lift_res (validateCsrSlot (meta_ t) c false);; update (set_out c).
End operations.
End EdgeTable.

(** ** Batches of edges from keys

    [filterInvalidEdges]: the pairs of vertex ids of a batch of edges are squeezed
    in place, leaving those with two known ends; and the numbers of a batch. *)
Module EdgeBatches.
Definition known (p : Z * Z) : bool := negb (p.1 =? VID_NONE) && negb (p.2 =? VID_NONE).
Definition kept (ps : list (Z * Z)) : list (Z * Z) := filter (λ p, known p = true) ps.

Lemma squeeze_one (l : list Z) (i w : nat) (x : Z) k :
  l !! i = Some x → (w ≤ i)%nat →
  take w (<[w := x]> l) = take w l ∧ drop (S i) (<[w := x]> l) = drop (S i) l ∧
  take (S w + k) (<[w := x]> l) = take w l ++ x :: take k (drop (S w) l).
Proof.
  intros Hx Hw. apply lookup_lt_Some in Hx as Hi. split_and!; [by apply take_insert_ge|apply drop_insert_lt; lia|].
  rewrite insert_take_drop by lia. rewrite take_app, length_take_le by lia. rewrite take_take, Nat.min_r by lia.
  replace (S w + k - w)%nat with (S k) by lia. done.
Qed.

Lemma filter_loop_spec todo i w s d flags :
  (w ≤ i)%nat → (i + todo = length s)%nat → length d = length s →
  let ps := zip (drop i s) (drop i d) in
  ∃ s' d', filter_loop todo i w s d flags = Ok (s', d', (w + length (kept ps))%nat, flags ++ (known <$> ps)) ∧
    take (w + length (kept ps)) s' = take w s ++ (kept ps).*1 ∧ take (w + length (kept ps)) d' = take w d ++ (kept ps).*2.
Proof.
  revert i w s d flags. induction todo as [|todo IH]; intros i w s d flags Hw Hi Hd ps.
  - unfold ps. rewrite !drop_ge by lia. exists s, d. cbn. by rewrite Nat.add_0_r, !app_nil_r.
  - destruct (lookup_lt_is_Some_2 s i) as [a Ha]; [lia|]. destruct (lookup_lt_is_Some_2 d i) as [b Hb]; [lia|].
    assert (Hps : ps = (a, b) :: zip (drop (S i) s) (drop (S i) d)) by (unfold ps; by rewrite (drop_S _ _ _ Ha), (drop_S _ _ _ Hb)).
    cbn [filter_loop]. rewrite Ha, Hb. cbn [of_option mbind res_bind]. unfold kept. rewrite Hps, filter_cons, fmap_cons.
    change (negb (a =? VID_NONE) && negb (b =? VID_NONE)) with (known (a, b)). destruct (known (a, b)) eqn:Hk.
    + rewrite decide_True by done.
      destruct (squeeze_one s i w a 0 Ha Hw) as (S1 & S2 & S3). destruct (squeeze_one d i w b 0 Hb Hw) as (D1 & D2 & D3).
      rewrite Nat.add_0_r, take_0 in S3, D3.
      destruct (IH (S i) (S w) (<[w := a]> s) (<[w := b]> d) (flags ++ [true])) as (s' & d' & E1 & E2 & E3); [lia| | |].
      { rewrite length_insert. lia. } { by rewrite !length_insert. }
      rewrite S2, D2 in E1, E2, E3. rewrite S3 in E2. rewrite D3 in E3. exists s', d'. cbn [length].
      unfold kept in *. rewrite <- app_assoc in E1. rewrite <- app_assoc in E2. rewrite <- app_assoc in E3.
      replace (w + S (length (filter (λ p, known p = true) (zip (drop (S i) s) (drop (S i) d)))))%nat with
        (S w + length (filter (λ p, known p = true) (zip (drop (S i) s) (drop (S i) d))))%nat by lia.
      split_and!; [exact E1|exact E2|exact E3].
    + rewrite decide_False by done. destruct (IH (S i) w s d (flags ++ [false])) as (s' & d' & E1 & E2 & E3); [lia|lia|done|].
      rewrite <- app_assoc in E1. exists s', d'. split_and!; [exact E1|exact E2|exact E3].
Qed.

(** The pairs with two known ends are left, in their order, and a flag per pair
    tells which they were. *)
Theorem filterInvalidEdges_exact s d :
  length d = length s →
  filterInvalidEdges s d = Ok ((kept (zip s d)).*1, (kept (zip s d)).*2, known <$> zip s d).
Proof.
  intros Hd. unfold filterInvalidEdges. destruct (filter_loop_spec (length s) 0 0 s d []) as (s' & d' & -> & E1 & E2); [lia|lia|done|].
  rewrite !drop_0 in *. cbn [take app mbind res_bind Nat.add] in *. by rewrite E1, E2.
Qed.

(** The reserve of a batch is at least its edges. *)
Theorem headroom_enough n : 0 ≤ n → n ≤ edge_capacity_with_headroom n ≤ Z.max 4096 (2 * n).
Proof. intros Hn. unfold edge_capacity_with_headroom. destruct (Z.ltb_spec n 4096), (Z.eqb_spec (n `mod` 5) 0); pose proof (Z.div_mod n 5 ltac:(lia)); pose proof (Z.mod_pos_bound n 5 ltac:(lia)); lia. Qed.
End EdgeBatches.
