(* ===== verification/EdgeArcs.v ===== *)
(** * Edges of an adjacency table

    The edges stored in the lists of an adjacency table as a list of arcs, up to
    order, and what the row-wise operations of the tables do to it. *)

From stdpp Require Import gmap.
From S2P Require Import Prelude CsrView MutableCsr MutableCsrSpec.
Import MutableCsr.

Record arc (D : Type) := MkArc { a_src : Z; a_dst : Z; a_ts : Z; a_data : D }.
Arguments MkArc {D}. Arguments a_src {D}. Arguments a_dst {D}. Arguments a_ts {D}. Arguments a_data {D}.

(** The arc seen from its other end. *)
Definition flip {D} (a : arc D) : arc D := MkArc (a_dst a) (a_src a) (a_ts a) (a_data a).

Lemma flip_flip {D} (a : arc D) : flip (flip a) = a.
Proof. by destruct a. Qed.
Lemma flip_list {D} (E : list (arc D)) : flip <$> (flip <$> E) = E.
Proof. rewrite <- list_fmap_compose. etrans; [|apply list_fmap_id]. apply list_fmap_ext. intros i a _. apply flip_flip. Qed.

Section arcs.
Context {D : Type}.
Implicit Types (l : list (MutableNbr D)) (ls : list (list (MutableNbr D))) (a : arc D).

Definition arc_of (k : nat) (e : MutableNbr D) : arc D := MkArc (Z.of_nat k) (neighbor e) (timestamp e) (data e).
Definition row_arcs (k : nat) l : list (arc D) := arc_of k <$> filter (λ e, live e = true) l.
Definition arcs_from (k : nat) ls : list (arc D) := concat (imap (λ i l, row_arcs (k + i) l) ls).
Definition arcs ls : list (arc D) := arcs_from 0 ls.

Lemma arcs_from_nil k : arcs_from k [] = [].
Proof. done. Qed.
Lemma arcs_from_cons k l ls : arcs_from k (l :: ls) = row_arcs k l ++ arcs_from (S k) ls.
Proof.
  unfold arcs_from. rewrite imap_cons. cbn [concat]. rewrite Nat.add_0_r. do 2 f_equal.
  apply imap_ext. intros i x _. unfold compose. f_equal. lia.
Qed.
Lemma arcs_from_app k ls ls' : arcs_from k (ls ++ ls') = arcs_from k ls ++ arcs_from (k + length ls) ls'.
Proof.
  revert k. induction ls as [|l ls IH]; intros k; cbn [app length]; [by rewrite Nat.add_0_r|].
  rewrite !arcs_from_cons, IH, <- app_assoc. do 3 f_equal. lia.
Qed.

Lemma row_arcs_app k l l' : row_arcs k (l ++ l') = row_arcs k l ++ row_arcs k l'.
Proof. unfold row_arcs. by rewrite filter_app, fmap_app. Qed.
Lemma row_arcs_perm k l l' : l ≡ₚ l' → row_arcs k l ≡ₚ row_arcs k l'.
Proof. intros Hl. unfold row_arcs. by rewrite Hl. Qed.

Lemma length_arcs k ls : Z.of_nat (length (arcs_from k ls)) = zsum live_count ls.
Proof.
  revert k. induction ls as [|l ls IH]; intros k; [done|]. rewrite zsum_cons, arcs_from_cons, length_app, Nat2Z.inj_add, <- (IH (S k)).
  unfold live_count, row_arcs. by rewrite length_fmap.
Qed.

(** ** Operations on every row *)

Section every_row.
Context (g : nat → list (MutableNbr D) → list (MutableNbr D)).

Lemma arcs_imap_from (h : list (arc D) → list (arc D)) k ls :
  h [] = [] → (∀ E F, h (E ++ F) = h E ++ h F) → (∀ i l, row_arcs (k + i) (g i l) = h (row_arcs (k + i) l)) →
  arcs_from k (imap g ls) = h (arcs_from k ls).
Proof using.
  intros Hn Ha. revert k g. induction ls as [|l ls IH]; intros k g' Hg; [by rewrite !arcs_from_nil, Hn|].
  rewrite imap_cons, !arcs_from_cons, Ha. f_equal.
  - specialize (Hg 0%nat l). by rewrite Nat.add_0_r in Hg.
  - apply (IH (S k) (g' ∘ S)). intros i l'. specialize (Hg (S i) l'). by rewrite Nat.add_succ_r in Hg.
Qed.

(** Removing the arcs that fail a test. *)
Lemma arcs_filter (P : arc D → Prop) `{!∀ a, Decision (P a)} ls :
  (∀ k l, row_arcs k (g k l) = filter P (row_arcs k l)) → arcs (imap g ls) = filter P (arcs ls).
Proof using. intros Hg. apply (arcs_imap_from (filter P)); [done|apply filter_app|apply Hg]. Qed.

(** Changing every arc. *)
Lemma arcs_map (f : arc D → arc D) ls :
  (∀ k l, row_arcs k (g k l) = f <$> row_arcs k l) → arcs (imap g ls) = f <$> arcs ls.
Proof using. intros Hg. apply (arcs_imap_from (fmap f)); [done|intros; apply fmap_app|apply Hg]. Qed.
End every_row.

Lemma arcs_fmap_perm (g : list (MutableNbr D) → list (MutableNbr D)) ls :
  (∀ l, l ∈ ls → g l ≡ₚ l) → arcs (g <$> ls) ≡ₚ arcs ls.
Proof.
  unfold arcs. generalize O. induction ls as [|l ls IH]; intros k Hg; [done|].
  rewrite fmap_cons, !arcs_from_cons. f_equiv; [|apply IH; intros; apply Hg; by right].
  apply row_arcs_perm, Hg. by left.
Qed.

Lemma arcs_resize ls n : arcs (ls ++ replicate n []) = arcs ls.
Proof.
  unfold arcs. rewrite arcs_from_app. replace (arcs_from _ (replicate n [])) with (@nil (arc D)); [apply app_nil_r|].
  generalize (0 + length ls)%nat. induction n as [|n IH]; intros k; [done|]. cbn [replicate]. by rewrite arcs_from_cons, <- IH.
Qed.

(** ** The operations of the tables *)

Lemma row_arcs_filter (P : arc D → Prop) `{!∀ a, Decision (P a)} k l :
  filter P (row_arcs k l) = row_arcs k (filter (λ e, P (arc_of k e)) l).
Proof.
  unfold row_arcs. induction l as [|e l IH]; [done|]. rewrite (filter_cons _ e l), (filter_cons (λ e, P (arc_of k e)) e l).
  destruct (decide (live e = true)), (decide (P (arc_of k e)));
    repeat first [rewrite fmap_cons | rewrite filter_cons_True by done | rewrite filter_cons_False by done];
    congruence || done.
Qed.

Definition off (src_set dst_set : gset Z) a : Prop := a_src a ∉ src_set ∧ a_dst a ∉ dst_set.
#[export] Instance off_dec src_set dst_set a : Decision (off src_set dst_set a).
Proof. unfold off. apply _. Defined.

Lemma arcs_without_vertices src_set dst_set ls :
  arcs (imap (without_vertices src_set dst_set) ls) = filter (off src_set dst_set) (arcs ls).
Proof.
  apply arcs_filter. intros k l. rewrite row_arcs_filter. unfold without_vertices, off. cbn [arc_of a_src a_dst].
  destruct (decide (Z.of_nat k ∈ src_set)) as [Hk|Hk].
  - replace (filter _ l) with (@nil (MutableNbr D)); [done|]. symmetry. apply filter_none_in. tauto.
  - f_equal. apply list_filter_iff. tauto.
Qed.

Definition unnamed (pairs : list (Z * Z)) a : Prop := (a_src a, a_dst a) ∉ pairs.
#[export] Instance unnamed_dec pairs a : Decision (unnamed pairs a).
Proof. unfold unnamed. apply _. Defined.

Lemma arcs_mark pairs ls :
  arcs (imap (λ k, mark (named_edge pairs k) 0) ls) = filter (unnamed pairs) (arcs ls).
Proof.
  apply arcs_filter. intros k l. generalize O. induction l as [|e l IH]; intros i; [done|]. cbn [mark].
  unfold row_arcs in *. unfold named_edge at 1. rewrite !filter_cons.
  destruct (bool_decide_reflect ((Z.of_nat k, neighbor e) ∈ pairs)) as [Hin|Hin].
  - rewrite live_set_timestamp. rewrite decide_False by done. rewrite IH. destruct (decide (live e = true)); [|done].
    rewrite fmap_cons, filter_cons_False; [done|]. unfold unnamed. cbn. tauto.
  - destruct (decide (live e = true)); [|apply IH]. rewrite !fmap_cons, filter_cons_True by done. f_equal. apply IH.
Qed.

(** Compacting makes every edge the oldest one. *)
Definition aged a : arc D := MkArc (a_src a) (a_dst a) 0 (a_data a).
Lemma arcs_compacted ls : arcs (compacted <$> ls) = aged <$> arcs ls.
Proof.
  etrans; [|apply (arcs_map (λ _, compacted))]; [f_equal; symmetry; apply (imap_const compacted)|].
  intros k l. unfold row_arcs, compacted. rewrite (filter_all_in _ (set_timestamp 0 <$> _)).
  2:{ intros x (e & -> & _)%list_elem_of_fmap. done. }
  by rewrite <- !list_fmap_compose.
Qed.

(** ** New edges *)

Definition new_arc (ts : Z) (p : Z * Z * D) : arc D := MkArc p.1.1 p.1.2 ts p.2.

Lemma arcs_from_append (g h : nat → list (MutableNbr D) → list (MutableNbr D)) k ls :
  arcs_from k (imap (λ i l, g i l ++ h i l) ls) ≡ₚ arcs_from k (imap g ls) ++ arcs_from k (imap h ls).
Proof.
  revert k g h. induction ls as [|l ls IH]; intros k g h; [done|]. rewrite !imap_cons, !arcs_from_cons, row_arcs_app.
  unfold compose. rewrite (IH (S k) (g ∘ S) (h ∘ S)). unfold compose.
  rewrite <- !app_assoc. apply Permutation_app_head. rewrite !app_assoc. apply Permutation_app_tail, Permutation_app_comm.
Qed.

Lemma arcs_from_new ts p k ls :
  ts ≠ INVALID_TIMESTAMP →
  arcs_from k (imap (λ i _, new_entries ts [p] (k + i)) ls) =
    if decide (Z.of_nat k ≤ p.1.1 < Z.of_nat (k + length ls)) then [new_arc ts p] else [].
Proof.
  intros Hts. revert k. induction ls as [|l ls IH]; intros k; [by rewrite decide_False by (cbn; lia)|].
  rewrite imap_cons, arcs_from_cons, Nat.add_0_r. unfold compose. cbn [length].
  replace (imap _ ls) with (imap (λ i _, new_entries ts [p] (S k + i)) ls) by (apply imap_ext; intros; f_equal; lia).
  rewrite IH. unfold new_entries at 1. rewrite filter_cons. destruct (decide (p.1.1 = Z.of_nat k)) as [E|E].
  - rewrite decide_False, app_nil_r, decide_True by lia. cbn [filter list_filter fmap list_fmap]. unfold row_arcs.
    rewrite filter_cons_True; [unfold new_arc, arc_of; cbn; by rewrite E|].
    unfold live. cbn [timestamp]. by rewrite (proj2 (Z.eqb_neq _ _)).
  - cbn [app]. apply decide_ext. lia.
Qed.

Definition source_in (n : nat) (p : Z * Z * D) : Prop := 0 ≤ p.1.1 < Z.of_nat n.
#[export] Instance source_in_dec n p : Decision (source_in n p).
Proof. unfold source_in. apply _. Defined.

(** A batch adds its edges, less those from vertices the table does not have. *)
Lemma arcs_new_entries ts edges ls :
  ts ≠ INVALID_TIMESTAMP →
  arcs (imap (λ i l, l ++ new_entries ts edges i) ls) ≡ₚ arcs ls ++ (new_arc ts <$> filter (source_in (length ls)) edges).
Proof.
  intros Hts. unfold arcs. rewrite arcs_from_append.
  replace (imap (λ (_ : nat) l, l) ls) with ls by (symmetry; etrans; [apply (imap_const id)|apply list_fmap_id]).
  apply Permutation_app_head. induction edges as [|p edges IH].
  { cbn [filter list_filter fmap list_fmap]. unfold new_entries. cbn. generalize O. induction ls as [|l ls IH]; intros k; [done|].
    rewrite imap_cons, arcs_from_cons. apply IH. }
  rewrite (imap_ext _ (λ i _, new_entries ts [p] i ++ new_entries ts edges i)) by (intros; apply new_entries_cons).
  rewrite (arcs_from_append (λ i _, new_entries ts [p] i)), IH.
  rewrite (arcs_from_new ts p 0 ls Hts : arcs_from 0 (imap (λ i _, new_entries ts [p] i) ls) = _).
  rewrite filter_cons. unfold source_in at 2. by destruct (decide _).
Qed.

Lemma append_as_batch ts src dst d l ls :
  0 ≤ src → ls !! Z.to_nat src = Some l →
  <[Z.to_nat src := l ++ [MkNbr dst ts d]]> ls = imap (λ i l, l ++ new_entries ts [(src, dst, d)] i) ls.
Proof.
  intros Hs Hl. apply list_eq. intros i. rewrite list_lookup_imap. unfold new_entries. rewrite filter_cons. cbn [fst snd].
  destruct (decide (i = Z.to_nat src)) as [->|Hne].
  - rewrite list_lookup_insert_eq by (by eapply lookup_lt_Some). rewrite Hl. cbn. by rewrite decide_True by lia.
  - rewrite list_lookup_insert_ne by done. rewrite decide_False by lia. destruct (ls !! i); [|done]. cbn. by rewrite app_nil_r.
Qed.

Lemma arcs_append_one ts src dst d l ls :
  0 ≤ src → ls !! Z.to_nat src = Some l → ts ≠ INVALID_TIMESTAMP →
  arcs (<[Z.to_nat src := l ++ [MkNbr dst ts d]]> ls) ≡ₚ MkArc src dst ts d :: arcs ls.
Proof.
  intros Hs Hl Hts. rewrite (append_as_batch _ _ _ _ _ _ Hs Hl), (arcs_new_entries _ _ _ Hts).
  apply lookup_lt_Some in Hl. rewrite filter_cons_True by (unfold source_in; cbn; lia). by rewrite Permutation_app_comm.
Qed.

(** ** One slot *)

Lemma arcs_slot ls v l i e :
  ls !! v = Some l → l !! i = Some e →
  ∃ rest, ∀ e', arcs (<[v := <[i := e']> l]> ls) ≡ₚ row_arcs v [e'] ++ rest.
Proof.
  intros Hl He. exists (arcs_from 0 (take v ls) ++ row_arcs v (take i l) ++ row_arcs v (drop (S i) l) ++ arcs_from (S v) (drop (S v) ls)).
  intros e'. unfold arcs. apply lookup_lt_Some in Hl as Hv. apply lookup_lt_Some in He.
  rewrite (insert_take_drop _ _ _ Hv), (insert_take_drop _ _ _ He), arcs_from_app, arcs_from_cons, length_take_le by lia.
  cbn [Nat.add]. rewrite (cons_middle e'), !row_arcs_app. generalize (row_arcs v [e']). intros E.
  rewrite (Permutation_app_comm E (_ ++ _)), <- !app_assoc. apply Permutation_app_head, Permutation_app_head.
  rewrite !app_assoc. rewrite (Permutation_app_comm E (row_arcs v (drop (S i) l))), <- !app_assoc. apply Permutation_app_head, Permutation_app_comm.
Qed.

Lemma row_arcs_live k e : live e = true → row_arcs k [e] = [arc_of k e].
Proof. intros He. unfold row_arcs. by rewrite filter_cons_True. Qed.

(** Deleting the edge in a slot removes its arc. *)
Lemma arcs_delete ls v l i e :
  ls !! v = Some l → l !! i = Some e → live e = true →
  arcs ls ≡ₚ arc_of v e :: arcs (<[v := <[i := set_timestamp INVALID_TIMESTAMP e]> l]> ls).
Proof.
  intros Hl He Hlive. destruct (arcs_slot ls v l i e Hl He) as [rest Hr]. rewrite (Hr (set_timestamp _ _)).
  specialize (Hr e). rewrite (list_insert_id l), (list_insert_id ls), (row_arcs_live v e Hlive) in Hr by done. exact Hr.
Qed.

Lemma elem_of_arcs a ls :
  a ∈ arcs ls ↔ ∃ k l i e, ls !! k = Some l ∧ l !! i = Some e ∧ live e = true ∧ a = arc_of k e.
Proof.
  unfold arcs, arcs_from. rewrite list_elem_of_In, in_concat. setoid_rewrite <- list_elem_of_In. split.
  - intros (E & [k Hk]%list_elem_of_lookup & Ha). rewrite list_lookup_imap in Hk. destruct (ls !! k) as [l|] eqn:Hl; [|done].
    cbn in Hk. injection Hk as <-. apply list_elem_of_fmap in Ha as (e & -> & [He [i Hi]%list_elem_of_lookup]%list_elem_of_filter).
    by exists k, l, i, e.
  - intros (k & l & i & e & Hl & Hi & He & ->). exists (row_arcs k l). split.
    + apply list_elem_of_lookup. exists k. by rewrite list_lookup_imap, Hl.
    + apply list_elem_of_fmap. exists e. split; [done|]. apply list_elem_of_filter. split; [done|]. by eapply list_elem_of_lookup_2.
Qed.

Lemma arcs_from_source k ls a : a ∈ arcs_from k ls → Z.of_nat k ≤ a_src a < Z.of_nat (k + length ls).
Proof.
  revert k. induction ls as [|l ls IH]; intros k; [by intros ?%elem_of_nil|]. rewrite arcs_from_cons, elem_of_app. cbn [length].
  intros [(e & -> & _)%list_elem_of_fmap|Ha]; [cbn; lia|]. specialize (IH _ Ha). lia.
Qed.

(** The arcs between two vertices that a reader sees. *)
Definition between (v w ts : Z) a : Prop := a_src a = v ∧ a_dst a = w ∧ a_ts a ≤ ts.
#[export] Instance between_dec v w ts a : Decision (between v w ts a).
Proof. unfold between. apply _. Defined.

Lemma arcs_between ls k l w ts :
  ls !! k = Some l → ts < INVALID_TIMESTAMP →
  filter (between (Z.of_nat k) w ts) (arcs ls) = arc_of k <$> filter (λ e, neighbor e = w ∧ timestamp e ≤ ts) l.
Proof.
  intros Hl Hts. apply lookup_lt_Some in Hl as Hk. rewrite <- (take_drop_middle _ _ _ Hl) at 1. unfold arcs.
  rewrite arcs_from_app, arcs_from_cons, length_take_le by lia. rewrite !filter_app.
  rewrite (filter_none_in _ (arcs_from 0 _)), (filter_none_in _ (arcs_from (S _) _)).
  - rewrite app_nil_r, row_arcs_filter. cbn [app]. unfold row_arcs, between. cbn [arc_of a_src a_dst a_ts Nat.add].
    rewrite filter_all_in.
    + f_equal. apply list_filter_iff. tauto.
    + intros e [(_ & _ & He) _]%list_elem_of_filter. unfold live. apply negb_true_iff, Z.eqb_neq. unfold INVALID_TIMESTAMP in *. lia.
  - intros a Ha%arcs_from_source [Hs _]. lia.
  - intros a Ha%arcs_from_source [Hs _]. rewrite length_take in Ha. lia.
Qed.

Lemma visible_between ts w k l :
  (filter (λ p, neighbor p.2 = w) (visible_from k ts l)).*2 = filter (λ e, neighbor e = w ∧ timestamp e ≤ ts) l.
Proof.
  revert k. induction l as [|e l IH]; intros k; [done|]. cbn [visible_from]. rewrite (filter_cons _ e l).
  destruct (Z.leb_spec (timestamp e) ts).
  - rewrite filter_cons. cbn [snd]. destruct (decide (neighbor e = w)).
    + rewrite decide_True by done. rewrite fmap_cons. f_equal. apply IH.
    + rewrite decide_False by tauto. apply IH.
  - rewrite decide_False by lia. apply IH.
Qed.

(** What an export lists. *)
Lemma export_arcs (c : MutableCsr.csr D) : batch_export c = (λ a, (a_src a, a_dst a, a_data a)) <$> arcs (lists c).
Proof.
  unfold batch_export, arcs, arcs_from, lists. rewrite imap_fmap, (concat_map _ _ : fmap _ _ = _). f_equal.
  etrans; [|symmetry; apply fmap_imap]. apply imap_ext. intros i r _. unfold compose, row_arcs. by rewrite <- list_fmap_compose.
Qed.
End arcs.
