(* ===== verification/EdgeStores.v ===== *)
(** * One direction of an edge table

    An adjacency table behind its interface as a store of arcs: what the calls
    of an edge table do to it, and the search for the entry of an edge in the
    table of the other direction. *)

From stdpp Require Import gmap.
From S2P Require Import Prelude Values StringColumn PropertyColumns CsrView MutableCsr MutableCsrSpec MutableCsrProperties CsrBase EdgeArcs.

Section stores.
Context `{!Memory}.
Implicit Types (c : Csr.csr) (E F : list (arc Val)).

(** The table of lists [c] holds the arcs [E], in some order. *)
Definition stores c E : Prop :=
  ∃ m, Csr.body c = Csr.Mutable m ∧ csr_ok m ∧ arcs (lists m) ≡ₚ E.

(** The list of a vertex. *)
Definition list_at c (v : Z) : list (MutableNbr Val) :=
  match Csr.body c with Csr.Mutable m => default [] (lists m !! Z.to_nat v) | _ => [] end.

(** A batch of [n] edges can be put into any list of the table: its new capacity
    fits the source's [int]. *)
Definition takes c (n : Z) : Prop :=
  match Csr.body c with Csr.Mutable m => Forall (λ l, n + len l ≤ max_reservable) (lists m) | _ => True end.

#[global] Instance stores_proper c : Proper ((≡ₚ) ==> iff) (stores c).
Proof. intros E F HEF. unfold stores. by setoid_rewrite HEF. Qed.

(** What no operation but [resize] changes. *)
Definition same_shape c c' : Prop := Csr.edata c' = Csr.edata c ∧ Csr.size c' = Csr.size c.

Lemma same_shape_refl c : same_shape c c.
Proof. done. Qed.

(** Operations on the rows of a table of lists keep its shape. *)
Lemma stores_intro c m m' E :
  Csr.body c = Csr.Mutable m → csr_ok m' → arcs (lists m') ≡ₚ E → length (lists m') = length (lists m) →
  stores (Csr.MkCsr (Csr.edata c) (Csr.Mutable m')) E ∧ same_shape c (Csr.MkCsr (Csr.edata c) (Csr.Mutable m')).
Proof.
  intros Hb Hok HE Hlen. split; [by exists m'|]. split; [done|]. unfold Csr.size. rewrite Hb. cbn.
  rewrite <- !length_lists. by rewrite Hlen.
Qed.

Lemma row_in_range (m : MutableCsr.csr Val) v : csr_ok m → 0 ≤ v < MutableCsr.vertex_capacity m →
  ∃ r, MutableCsr.row_at m v = Some r ∧ lists m !! Z.to_nat v = Some (MutableCsr.entries r) ∧
       Z.of_nat (length (MutableCsr.entries r)) = MutableCsr.size r.
Proof. intros Hok Hv. apply in_range_row; [done|]. split; [lia|]. cbn. pose proof (length_lists m). lia. Qed.

(** ** Adding *)

Lemma stores_put c E src dst v d ts :
  stores c E → Csr.GetEData (Csr.edata c) v = Some d → 0 ≤ src < Csr.size c → len (list_at c src) < 2^30 →
  ts ≠ INVALID_TIMESTAMP →
  let x := Csr.put_generic_edge src dst v ts c in
  x.2 = Ok (len (list_at c src)) ∧ stores x.1 (MkArc src dst ts d :: E) ∧ same_shape c x.1.
Proof.
  intros (m & Hb & Hok & HE) Hd Hsrc Hroom Hts. unfold Csr.put_generic_edge, list_at in *. unfold Csr.size in Hsrc.
  rewrite Hb, Hd in *. cbn [fst snd Csr.put_back].
  destruct (row_in_range m src Hok Hsrc) as (r & Hr & Hl & Hlen). rewrite Hl in *. cbn [default] in *. unfold id in *.
  rewrite Hlen in *. destruct (put_edge_spec junk_nbr m src r dst d ts Hok Hr Hroom Hts) as (H1 & H2 & H3 & _).
  split; [by rewrite H1|]. apply (stores_intro c m); [done|done| |by rewrite H3, length_insert].
  rewrite H3, (arcs_append_one _ _ _ _ _ _ (proj1 Hsrc) Hl Hts). by rewrite HE.
Qed.

Lemma stores_batch_put c E edges id :
  stores c E → Csr.edata c = id → takes c (len edges) → Forall (λ p, 0 ≤ p.1.1 < Csr.size c) edges →
  let x := Csr.batch_put_edges id edges 0 c in
  x.2 = Ok tt ∧ stores x.1 (E ++ (new_arc 0 <$> edges)) ∧ same_shape c x.1.
Proof.
  intros (m & Hb & Hok & HE) <- Ht Hr. unfold Csr.batch_put_edges, Csr.size, takes in *. rewrite bool_decide_true, Hb in * by done.
  cbn [fst snd Csr.put_back]. destruct (batch_put_edges_spec junk_nbr m null_base edges 0 Hok) as (H1 & H2 & H3 & _); [done| |].
  { intros i l Hl. eapply Forall_lookup_1 in Ht; [|exact Hl]. unfold degree_in.
    pose proof (length_filter (λ p : Z * Z * Val, p.1.1 = Z.of_nat i) edges). lia. }
  split; [by rewrite H1|]. apply (stores_intro c m); [done|done| |by rewrite H3, length_imap].
  rewrite H3, arcs_new_entries by done. rewrite HE, filter_all_in; [done|].
  intros p Hp. rewrite Forall_forall in Hr. specialize (Hr p Hp). unfold source_in. rewrite length_lists. exact Hr.
Qed.

(** ** Removing *)

Lemma stores_delete_vertices c E S D :
  stores c E → let x := Csr.batch_delete_vertices S D c in
  x.2 = Ok tt ∧ stores x.1 (filter (off S D) E) ∧ same_shape c x.1.
Proof.
  intros (m & Hb & Hok & HE). unfold Csr.batch_delete_vertices. rewrite Hb. cbn [fst snd Csr.put_back Csr.quiet].
  split; [done|]. destruct (batch_delete_vertices_spec m S D Hok) as (H1 & H2 & _).
  apply (stores_intro c m); [done|done| |by rewrite H2, length_imap]. rewrite H2, arcs_without_vertices. by rewrite HE.
Qed.

Lemma stores_delete_edges c E srcs dsts :
  stores c E → let x := Csr.batch_delete_edges srcs dsts c in
  x.2 = Ok tt ∧ stores x.1 (filter (unnamed (zip srcs dsts)) E) ∧ same_shape c x.1.
Proof.
  intros (m & Hb & Hok & HE). unfold Csr.batch_delete_edges. rewrite Hb. cbn [fst snd Csr.put_back Csr.quiet].
  split; [done|]. destruct (batch_delete_edges_spec m srcs dsts Hok) as (H1 & H2 & _).
  apply (stores_intro c m); [done|done| |by rewrite H2, length_imap]. rewrite H2, arcs_mark. by rewrite HE.
Qed.

(** Deleting a visible entry removes its arc; the rest of its list stays. *)
Lemma stores_delete_edge c E v i e ts :
  stores c E → 0 ≤ v → list_at c v !! i = Some e → timestamp e ≤ ts → 0 ≤ ts < INVALID_TIMESTAMP →
  let x := Csr.delete_edge v (Z.of_nat i) ts c in
  x.2 = Ok tt ∧ (∃ F, E ≡ₚ arc_of (Z.to_nat v) e :: F ∧ stores x.1 F) ∧ same_shape c x.1 ∧
  list_at x.1 v = <[i := set_timestamp INVALID_TIMESTAMP e]> (list_at c v).
Proof.
  intros (m & Hb & Hok & HE) Hv Hi Hvis Hts. unfold Csr.delete_edge, list_at in *. rewrite Hb in *.
  destruct (lists m !! Z.to_nat v) as [l|] eqn:Hl; [|cbn in Hi; done]. cbn [default] in Hi. unfold id in Hi.
  assert (Hlt : 0 ≤ v < MutableCsr.vertex_capacity m) by (apply lookup_lt_Some in Hl; rewrite <- length_lists; lia).
  destruct (row_in_range m v Hok Hlt) as (r & Hr & Hl' & Hlen). rewrite Hl in Hl'. injection Hl' as ->.
  apply lookup_lt_Some in Hi as Hi'.
  destruct (delete_edge_spec m v r (Z.of_nat i) ts Hok Hr) as (H1 & H2 & e' & He' & H3); [lia|done|].
  rewrite Nat2Z.id in *. simplify_eq. rewrite (proj2 (Z.leb_le _ _)) in H3 by done. destruct H3 as [H3 _].
  cbn [fst snd Csr.put_back Csr.body]. rewrite H3.
  assert (Hlive : live e = true) by (unfold live; apply negb_true_iff, Z.eqb_neq; unfold INVALID_TIMESTAMP in *; lia).
  pose proof (arcs_delete (lists m) (Z.to_nat v) _ i e Hl Hi Hlive) as Hd. rewrite HE in Hd.
  destruct (stores_intro c m (MutableCsr.delete_edge v (Z.of_nat i) ts m).1
              (arcs (<[Z.to_nat v := <[i := set_timestamp INVALID_TIMESTAMP e]> (MutableCsr.entries r)]> (lists m))))
    as [Hs Hsh]; [done|done|by rewrite H3|by rewrite H3, length_insert|].
  split_and!; [by rewrite H1|eauto|done|]. rewrite list_lookup_insert_eq by (by eapply lookup_lt_Some). done.
Qed.

(** ** Compacting, sorting and growing *)

Lemma stores_compact c E :
  stores c E → let x := Csr.compact c in x.2 = Ok tt ∧ stores x.1 (aged <$> E) ∧ same_shape c x.1.
Proof.
  intros (m & Hb & Hok & HE). unfold Csr.compact. rewrite Hb. cbn [fst snd Csr.put_back].
  destruct (compact_spec m Hok) as (H1 & H2 & H3 & _). split; [by rewrite H1|].
  apply (stores_intro c m); [done|done| |by rewrite H3, length_fmap]. rewrite H3, arcs_compacted. by rewrite HE.
Qed.

Lemma stores_sort c E :
  (∀ l, sort_nbrs l ≡ₚ l) → stores c E →
  let x := Csr.batch_sort_by_edge_data 1 c in x.2 = Ok tt ∧ stores x.1 E ∧ same_shape c x.1.
Proof.
  intros Hsort (m & Hb & Hok & HE). unfold Csr.batch_sort_by_edge_data. rewrite Hb. cbn [fst snd Csr.put_back Csr.quiet].
  split; [done|]. destruct (sort_row_spec sort_nbrs Hsort m Hok) as [H1 H2].
  apply (stores_intro c m); [done|done| |by rewrite H2, length_fmap]. rewrite H2, arcs_fmap_perm; done.
Qed.

Lemma stores_resize c E n :
  stores c E → Csr.size c ≤ n → let x := Csr.resize n c in
  x.2 = Ok tt ∧ stores x.1 E ∧ Csr.edata x.1 = Csr.edata c ∧ Csr.size x.1 = n ∧
  ∀ k, k ≤ max_reservable → takes c k → takes x.1 k.
Proof.
  intros (m & Hb & Hok & HE) Hn. unfold Csr.resize, Csr.size in *. rewrite Hb in *. cbn [fst snd Csr.put_back Csr.quiet Csr.body].
  destruct (resize_grow m n Hok Hn) as (H1 & H2 & _). split_and!; [done| |done| |].
  - exists (MutableCsr.resize n m). split_and!; [done|done|]. by rewrite H2, arcs_resize.
  - rewrite <- length_lists, H2, length_app, length_replicate, Nat2Z.inj_add, length_lists. unfold MutableCsr.vertex_capacity in *. lia.
  - intros k Hk. unfold takes. cbn [Csr.body]. rewrite Hb, H2, Forall_app. intros Hf. split; [done|].
    apply Forall_replicate. cbn. lia.
Qed.

Lemma stores_empty ed : stores (Csr.MkCsr ed (Csr.Mutable MutableCsr.empty_csr)) [].
Proof. exists MutableCsr.empty_csr. by split_and!; [|split|]. Qed.

Lemma stores_edge_num c E : stores c E → Csr.edge_num c = u64 (len E).
Proof.
  intros (m & Hb & [_ Hn] & HE). unfold Csr.edge_num. rewrite Hb. unfold MutableCsr.edge_num. rewrite Hn. f_equal.
  rewrite <- HE. unfold total. rewrite zsum_lists.
  symmetry. apply length_arcs.
Qed.
End stores.

(** ** Finding an edge in the other direction *)

Section search.
Context `{!Memory}.
Implicit Types (c : Csr.csr) (E F : list (arc Val)).
Import CsrSearch.

Lemma get_edges_stores c E ts v :
  stores c E → 0 ≤ v < Csr.size c → ∃ b, Csr.get_edges ts v c = Ok (Csr.MkNbrList (list_at c v) b true ts).
Proof.
  intros (m & Hb & Hok & _) Hv. unfold Csr.get_edges, list_at, Csr.size in *. rewrite Hb in *.
  destruct (row_in_range m v Hok Hv) as (r & -> & -> & _). cbn [of_option mbind res_bind default]. unfold id, MutableCsr.entries, MutableCsr.contents.
  destruct (MutableCsr.buffer r); eexists; cbn; by rewrite ?take_nil.
Qed.

Lemma read_data_same ty l i e :
  is_Some (PropertyColumn.zero_of ty) → Csr.slots l !! i = Some e → read_data ty ty l i = Ok (data e).
Proof.
  intros [z Hz] He. unfold read_data. rewrite bool_decide_false by (rewrite Hz; done). rewrite (lookup_app_l_Some _ _ _ _ He).
  cbn. by rewrite bool_decide_true.
Qed.

Lemma find_exact_match ty l cur i e cs :
  is_Some (PropertyColumn.zero_of ty) → Csr.has_ts l = true → Csr.has_ts cur = true → Csr.slots cur !! i = Some e →
  Forall (λ p, Csr.slots l !! p.1 = Some p.2) cs →
  Forall (λ p, val_eqb (data p.2) (data e) = true ↔ data p.2 = data e) cs →
  (∃ p, p ∈ cs ∧ data p.2 = data e ∧ timestamp p.2 = timestamp e) →
  ∃ p, p ∈ cs ∧ data p.2 = data e ∧ timestamp p.2 = timestamp e ∧
    find_exact_match_in_candidates ty ty (cs.*1) l cur i = Ok (Z.of_nat p.1).
Proof.
  intros Hty Hl Hc He. induction cs as [|[o x] cs IH]; intros Hs Hx Hex; [destruct Hex as (p & []%elem_of_nil & _)|].
  apply Forall_cons in Hs as [Ho Hs]. apply Forall_cons in Hx as [Heq Hx]. cbn [fst snd] in *. rewrite fmap_cons. cbn [find_exact_match_in_candidates fst].
  rewrite (read_data_same ty l o x Hty Ho), (read_data_same ty cur i e Hty He). cbn [mbind res_bind]. rewrite Hl, andb_true_r.
  assert (Hskip : (data x = data e → timestamp x ≠ timestamp e) → ∃ p, p ∈ (o, x) :: cs ∧ data p.2 = data e ∧ timestamp p.2 = timestamp e ∧
    find_exact_match_in_candidates ty ty (cs.*1) l cur i = Ok (Z.of_nat p.1)).
  { intros Hne. destruct IH as (p & Hp & ? & ? & ?); [done|done| |exists p; split_and!; [by right|done..]].
    destruct Hex as (p & [->|Hp]%elem_of_cons & Hd & Ht); [by destruct (Hne Hd)|eauto]. }
  destruct (val_eqb (data x) (data e)) eqn:Hv; [|apply Hskip; by intros Hd%Heq].
  destruct Heq as [Hd _]; specialize (Hd eq_refl).
  unfold expected_ts. cbn. rewrite Ho, He, Hc. cbn. destruct (Z.eqb_spec (timestamp x) (timestamp e)) as [Ht|Ht]; [|apply Hskip; tauto].
  exists (o, x). split_and!; [by left|done|done|done].
Qed.

(** Either the entries are compared as what they are, by an equality that is
    the one of the data, or there is at most one edge to choose from. *)
Definition unambiguous (ed ty : DataTypeId) (a : arc Val) (ts : Z) E : Prop :=
  (ed = ty ∧ is_Some (PropertyColumn.zero_of ty) ∧
   ∀ b, b ∈ E → (val_eqb (a_data b) (a_data a) = true ↔ a_data b = a_data a)) ∨
  (length (filter (between (a_src a) (a_dst a) ts) E) ≤ 1)%nat.

Lemma search_spec cur_csr other F props ts a i e b :
  stores other F → a ∈ F → a_ts a ≤ ts < INVALID_TIMESTAMP →
  Csr.get_edges ts (a_dst a) cur_csr = Ok (Csr.MkNbrList (list_at cur_csr (a_dst a)) b true ts) →
  list_at cur_csr (a_dst a) !! i = Some e → data e = a_data a → timestamp e = a_ts a →
  unambiguous (Csr.edata other) (determine_search_prop_type props) a ts F →
  ∃ o x, search_other_offset_with_cur_offset cur_csr other ts (a_dst a) (a_src a) i props = Ok (Z.of_nat o) ∧
    list_at other (a_src a) !! o = Some x ∧ arc_of (Z.to_nat (a_src a)) x = a ∧ 0 ≤ a_src a < Csr.size other.
Proof.
  intros Hst Ha Hts Hcur He Hed Het Hun. pose proof Hst as (m & Hb & Hok & HF).
  assert (Hin := Ha). rewrite <- HF in Hin. apply elem_of_arcs in Hin as (k & l & j & x & Hl & Hj & Hx & ->). cbn [arc_of a_src a_dst a_ts a_data] in *.
  assert (Hsz : 0 ≤ Z.of_nat k < Csr.size other).
  { unfold Csr.size. rewrite Hb. apply lookup_lt_Some in Hl. rewrite <- length_lists. lia. }
  destruct (get_edges_stores other F ts (Z.of_nat k) Hst Hsz) as [b' Hother].
  assert (Hlist : list_at other (Z.of_nat k) = l) by (unfold list_at; by rewrite Hb, Nat2Z.id, Hl). rewrite Hlist, ?Nat2Z.id in *.
  unfold search_other_offset_with_cur_offset. rewrite Hother, Hcur. cbn [mbind res_bind]. unfold fuzzy_search_offset_from_nbr_list.
  cbn [Csr.view_ts Csr.slots]. rewrite iterate_visible. set (V := filter _ _).
  assert (HV : arc_of k <$> V.*2 ≡ₚ filter (between (Z.of_nat k) (neighbor x) ts) F).
  { rewrite <- HF, (arcs_between _ _ _ _ _ Hl) by lia. unfold V. by rewrite visible_between. }
  assert (Hslot : Forall (λ p, l !! p.1 = Some p.2 ∧ neighbor p.2 = neighbor x) V).
  { apply Forall_forall. intros [o y] [Hy Hv]%list_elem_of_filter. apply visible_from_elem in Hv as (_ & Hv & _). by rewrite Nat.sub_0_r in Hv. }
  assert (HxV : (j, x) ∈ V).
  { apply list_elem_of_filter. split; [done|]. apply visible_from_elem. rewrite Nat.sub_0_r. split_and!; [lia|done|lia]. }
  clearbody V. destruct V as [|[o y] V]; [by apply elem_of_nil in HxV|].
  destruct V as [|q V].
  { apply list_elem_of_singleton in HxV. injection HxV as <- <-. exists j, x. by cbn. }
  destruct Hun as [(-> & Hty & Heq)|Hle].
  2:{ rewrite <- HV in Hle. cbn in Hle. lia. }
  destruct (find_exact_match (determine_search_prop_type props) (Csr.MkNbrList l b' true ts)
    (Csr.MkNbrList (list_at cur_csr (neighbor x)) b true ts) i e ((o, y) :: q :: V) Hty) as (p & Hp & Hd & Ht & Hf); [done|done|done| | | |].
  - eapply Forall_impl; [exact Hslot|]. by intros p [? _].
  - apply Forall_forall. intros p Hp. rewrite Hed. apply (Heq (arc_of k p.2)).
    assert (Hpf : arc_of k p.2 ∈ filter (between (Z.of_nat k) (neighbor x) ts) F) by (rewrite <- HV; do 2 apply list_elem_of_fmap_2; done).
    by apply list_elem_of_filter in Hpf as [_ ?].
  - exists (j, x). split_and!; [done|done|done].
  - rewrite Forall_forall in Hslot. destruct (Hslot p Hp) as [Hl1 Hn]. exists p.1, p.2. split_and!; [exact Hf|done| |lia|lia].
    unfold arc_of. rewrite Hn. f_equal; congruence.
Qed.
End search.
