(* ===== verification/EdgeTableSpec.v ===== *)
(** * Edge tables hold a set of edges

    The two adjacency tables of an edge table store the same edges, seen from
    their two ends, and the edges of an unbundled triplet have rows of their
    own: what each operation on the edges does to them. *)

From stdpp Require Import gmap.
From S2P Require Import Prelude Values StringColumn Tables PropertyColumns CsrView CsrBase EdgeSchema EdgeTable EdgeArcs EdgeStores.
Import EdgeTable EdgeSchema.

Section refinement.
Context {C : Type} {HC : ColumnBase C} {HM : Memory}.
Abbreviation T := (etable C).
Implicit Types (t : T) (E F : list (arc Val)).

(** ** The relation *)

(** The edges of an unbundled triplet have rows of their own. *)
Definition owns (n : Z) E : Prop :=
  Forall (λ a, ∃ r, a_data a = V_ubigint r ∧ 0 ≤ r < n) E ∧ NoDup (a_data <$> E).

Record rep t E : Prop := MkRep {
  rep_out : stores (out_csr_ t) E;
  rep_in : stores (in_csr_ t) (flip <$> E);
  rep_out_type : Csr.edata (out_csr_ t) = edata_type (meta_ t);
  rep_in_type : Csr.edata (in_csr_ t) = edata_type (meta_ t);
  rep_rows : is_bundled (meta_ t) = false → owns (table_idx_ t) E
}.

Lemma owns_perm n E F : E ≡ₚ F → owns n E → owns n F.
Proof. intros HE [H1 H2]. split; [by rewrite <- HE|]. by rewrite <- HE. Qed.
Lemma owns_filter n (P : arc Val → Prop) `{!∀ a, Decision (P a)} E : owns n E → owns n (filter P E).
Proof.
  intros [H1 H2]. split; [rewrite Forall_forall in *; intros a [_ Ha]%list_elem_of_filter; by apply H1|]. clear H1.
  induction E as [|a E IH]; [done|]. rewrite fmap_cons in H2. apply NoDup_cons in H2 as [Hn Hd]. rewrite filter_cons.
  destruct (decide (P a)); [|by apply IH]. rewrite fmap_cons. apply NoDup_cons. split; [|by apply IH].
  intros (b & Hab & [_ Hb]%list_elem_of_filter)%list_elem_of_fmap. apply Hn. rewrite Hab. by apply list_elem_of_fmap_2.
Qed.
Lemma owns_tail n a E : owns n (a :: E) → owns n E.
Proof. intros [H1 H2]. apply Forall_cons in H1 as [_ H1]. rewrite fmap_cons in H2. by apply NoDup_cons in H2 as [_ H2]. Qed.
Lemma owns_aged n E : owns n E → owns n (aged <$> E).
Proof. intros [H1 H2]. split; [by apply Forall_fmap|]. by rewrite <- list_fmap_compose. Qed.

#[global] Instance rep_proper t : Proper ((≡ₚ) ==> iff) (rep t).
Proof.
  assert (Hone : ∀ E F, E ≡ₚ F → rep t E → rep t F).
  { intros E F HE [H1 H2 H3 H4 H5]. split; [by rewrite <- HE|by rewrite <- HE|done|done|].
    intros Hb. by eapply owns_perm, H5. }
  intros E F HE. split; by apply Hone.
Qed.

(** Both adjacency tables are replaced by ones of the same shape. *)
Lemma rep_set t E F o i :
  rep t E → stores o F → stores i (flip <$> F) → same_shape (out_csr_ t) o → same_shape (in_csr_ t) i →
  (is_bundled (meta_ t) = false → owns (table_idx_ t) F) → rep (set_in i (set_out o t)) F.
Proof. intros [H1 H2 H3 H4 H5] Ho Hi [So _] [Si _] Hw. split; cbn; [done|done|congruence|congruence|done]. Qed.

(** A call on each table, in the order of the code. *)
Lemma both_ok (f g : st Csr.csr unit) t :
  (f (out_csr_ t)).2 = Ok tt → (g (in_csr_ t)).2 = Ok tt →
  (with_out f;; with_in g) t = (set_in (g (in_csr_ t)).1 (set_out (f (out_csr_ t)).1 t), Ok tt).
Proof.
  intros Hf Hg. unfold with_out, with_in, on, mbind, st_bind. destruct (f _) as [o x]. cbn in Hf. subst x. cbn.
  destruct (g _) as [i y]. cbn in Hg. by subst y.
Qed.

Lemma then_ok {A0 A B} (m1 : st T A0) (m2 : st T A) (k : A → st T B) t t' a :
  (m1;; m2) t = (t', Ok a) → (m1;; z ← m2; k z) t = k a t'.
Proof.
  unfold mbind, st_bind. destruct (m1 t) as [t1 [z|]]; [|intros ?; simplify_eq]. by intros ->.
Qed.

Lemma flip_filter (P Q : arc Val → Prop) `{!∀ a, Decision (P a)} `{!∀ a, Decision (Q a)} E :
  (∀ a, Q (flip a) ↔ P a) → filter Q (flip <$> E) = flip <$> filter P E.
Proof.
  intros HQ. induction E as [|a E IH]; [done|]. rewrite fmap_cons, !filter_cons.
  specialize (HQ a). destruct (decide (Q (flip a))), (decide (P a)); try tauto; by rewrite ?fmap_cons, IH.
Qed.

(** ** Deletions of many edges *)

Lemma BatchDeleteVertices_rep S D t E :
  rep t E → let x := BatchDeleteVertices S D t in
  x.2 = Ok tt ∧ rep x.1 (filter (off S D) E) ∧ capacity_ x.1 = capacity_ t ∧
  same_shape (out_csr_ t) (out_csr_ x.1) ∧ same_shape (in_csr_ t) (in_csr_ x.1).
Proof.
  intros H. destruct (stores_delete_vertices _ _ S D (rep_out _ _ H)) as (H1 & H2 & H3).
  destruct (stores_delete_vertices _ _ D S (rep_in _ _ H)) as (H4 & H5 & H6).
  unfold BatchDeleteVertices. rewrite both_ok by done. split_and!; [done| |done|done|done]. apply (rep_set t E); [done|done| |done|done|].
  - rewrite (flip_filter (off S D) (off D S)) in H5; [done|]. intros a. unfold off. cbn. tauto.
  - intros Hb. by apply owns_filter, H.
Qed.

Lemma zip_swap {A B} (l : list A) (k : list B) x y : (x, y) ∈ zip l k ↔ (y, x) ∈ zip k l.
Proof.
  revert k. induction l as [|a l IH]; intros [|b k]; cbn; [split; by intros ?%elem_of_nil..|].
  rewrite !elem_of_cons, IH. naive_solver.
Qed.

Lemma BatchDeleteEdges_rep srcs dsts t E :
  rep t E → let x := BatchDeleteEdges srcs dsts t in x.2 = Ok tt ∧ rep x.1 (filter (unnamed (zip srcs dsts)) E).
Proof.
  intros H. destruct (stores_delete_edges _ _ srcs dsts (rep_out _ _ H)) as (H1 & H2 & H3).
  destruct (stores_delete_edges _ _ dsts srcs (rep_in _ _ H)) as (H4 & H5 & H6).
  unfold BatchDeleteEdges. rewrite both_ok by done. split; [done|]. apply (rep_set t E); [done|done| |done|done|].
  - rewrite (flip_filter (unnamed (zip srcs dsts)) (unnamed (zip dsts srcs))) in H5; [done|]. intros a. unfold unnamed. cbn. by rewrite zip_swap.
  - intros Hb. by apply owns_filter, H.
Qed.

(** ** Compaction and capacity *)

Lemma Compact_rep sort t E :
  (∀ l, sort_nbrs l ≡ₚ l) → rep t E →
  let x := Compact sort t in
  rep x.1 (aged <$> E) ∧ x.2 = (if sort && negb (is_bundled (meta_ t)) then Throw InvalidArgument else Ok tt).
Proof.
  intros Hsort H. destruct (stores_compact _ _ (rep_out _ _ H)) as (H1 & H2 & H3).
  destruct (stores_compact _ _ (rep_in _ _ H)) as (H4 & H5 & H6).
  set (t' := set_in (Csr.compact (in_csr_ t)).1 (set_out (Csr.compact (out_csr_ t)).1 t)).
  assert (H' : rep t' (aged <$> E)).
  { apply (rep_set t E); [done|done| |done|done|intros Hb; by apply owns_aged, H].
    rewrite <- list_fmap_compose in H5. by rewrite <- list_fmap_compose. }
  cbv zeta. unfold Compact.
  rewrite (then_ok _ _ _ t t' tt) by (by apply both_ok).
  destruct sort; [|done]. cbn [andb]. rewrite get_then. change (meta_ t') with (meta_ t).
  destruct (is_bundled (meta_ t)) eqn:Hbun; [|done]. cbn [negb].
  destruct (stores_sort _ _ Hsort (rep_out _ _ H')) as (S1 & S2 & S3).
  destruct (stores_sort _ _ Hsort (rep_in _ _ H')) as (S4 & S5 & S6). rewrite both_ok by done. split; [|done].
  apply (rep_set t' (aged <$> E)); [done|done|done|done|done|]. cbn. congruence.
Qed.

(** The property table and its capacity carry no edges. *)
Lemma rep_table t E b n : rep t E → rep (set_capacity n (set_table b t)) E.
Proof. by intros []. Qed.

Lemma EnsureCapacity_frame n t :
  ∃ b k, (EnsureCapacity n t).1 = set_capacity k (set_table b t) ∧
         (is_bundled (meta_ t) = true → EnsureCapacity n t = (t, Ok tt)).
Proof.
  unfold EnsureCapacity. rewrite get_then. destruct (is_bundled (meta_ t) || (n <=? capacity_ t)) eqn:Hb.
  - exists (table_ t), (capacity_ t). split; [by destruct t|done].
  - apply orb_false_iff in Hb as [Hb _]. rewrite Hb. unfold with_table, on, mbind, st_bind. destruct (Table.resize_default _ _ _) as [b [[]|]]; cbn.
    + exists b, (Z.max n 4096). done.
    + exists b, (capacity_ t). done.
Qed.

Definition grow_to (n : Z) (c : Csr.csr) : st Csr.csr unit := if Csr.size c <? n then Csr.resize n else mret tt.
Lemma stores_grow c E n :
  stores c E → let x := grow_to n c c in
  x.2 = Ok tt ∧ stores x.1 E ∧ Csr.edata x.1 = Csr.edata c ∧ Csr.size x.1 = Z.max n (Csr.size c).
Proof.
  intros H. unfold grow_to. destruct (Z.ltb_spec (Csr.size c) n); [|split_and!; [done|done|done|cbn; lia]].
  destruct (stores_resize _ _ n H) as (? & ? & ? & ?); [lia|]. split_and!; [done|done|done|lia].
Qed.

(** The two tables grow to the vertices, then the columns to the edges. *)
Lemma EnsureVertexCapacity_grows s d n t E :
  rep t E → ∃ t', EnsureVertexCapacity s d n t = EnsureCapacity n t' ∧ rep t' E ∧ meta_ t' = meta_ t ∧ capacity_ t' = capacity_ t ∧
    Csr.size (out_csr_ t') = Z.max s (Csr.size (out_csr_ t)) ∧ Csr.size (in_csr_ t') = Z.max d (Csr.size (in_csr_ t)).
Proof.
  intros H. destruct (stores_grow _ _ s (rep_out _ _ H)) as (H1 & H2 & H3 & Ho).
  destruct (stores_grow _ _ d (rep_in _ _ H)) as (H4 & H5 & H6 & Hi).
  exists (set_in (grow_to d (in_csr_ t) (in_csr_ t)).1 (set_out (grow_to s (out_csr_ t) (out_csr_ t)).1 t)).
  split_and!; [|destruct H as [? ? H7 H8 ?]; split; cbn; [done|done|by rewrite H3|by rewrite H6|done]|done|done|done|done].
  unfold EnsureVertexCapacity. rewrite get_then. apply (then_ok _ _ (λ _, EnsureCapacity n) _ _ tt).
  rewrite <- (both_ok (grow_to s (out_csr_ t)) (grow_to d (in_csr_ t)) t) by done.
  clear. unfold grow_to, with_out, with_in, on, mbind, st_bind. destruct t as [me o i tb x k]. cbn [out_csr_ in_csr_].
  destruct (Csr.size o <? s), (Csr.size i <? d); [done| |done|done]. cbn. by destruct (Csr.resize s o) as [? [[]|]].
Qed.

Lemma EnsureVertexCapacity_rep s d n t E :
  rep t E → let x := EnsureVertexCapacity s d n t in
  rep x.1 E ∧ (is_bundled (meta_ t) = true → x.2 = Ok tt).
Proof.
  intros H. destruct (EnsureVertexCapacity_grows s d n t E H) as (t' & E' & Ht' & Hm & _). cbv zeta. rewrite E', <- Hm.
  destruct (EnsureCapacity_frame n t') as (b & k & -> & Hb). split; [by apply rep_table|]. intros Hbun. by rewrite (Hb Hbun).
Qed.

(** Growing to the vertices alone cannot fail. *)
Lemma grow_to_vertices s d t E :
  rep t E → 0 ≤ capacity_ t → ∃ t', EnsureVertexCapacity s d 0 t = (t', Ok tt) ∧ rep t' E ∧ meta_ t' = meta_ t ∧ capacity_ t' = capacity_ t ∧
    Csr.size (out_csr_ t') = Z.max s (Csr.size (out_csr_ t)) ∧ Csr.size (in_csr_ t') = Z.max d (Csr.size (in_csr_ t)).
Proof.
  intros H Hc. destruct (EnsureVertexCapacity_grows s d 0 t E H) as (t' & E' & Ht' & Hm & Hcap & Hs). exists t'. split; [|done].
  rewrite E'. unfold EnsureCapacity. rewrite get_then, (proj2 (Z.leb_le _ _)) by lia. by rewrite orb_true_r.
Qed.

(** ** Adding edges *)

Definition room t (src dst ts : Z) : Prop :=
  0 ≤ src < Csr.size (out_csr_ t) ∧ 0 ≤ dst < Csr.size (in_csr_ t) ∧
  len (list_at (out_csr_ t) src) < 2^30 ∧ len (list_at (in_csr_ t) dst) < 2^30 ∧ ts ≠ INVALID_TIMESTAMP.

(** [in_csr_->put_generic_edge] and [out_csr_->put_generic_edge]. *)
Lemma put_both t E src dst v d ts :
  stores (out_csr_ t) E → stores (in_csr_ t) (flip <$> E) → Csr.edata (out_csr_ t) = edata_type (meta_ t) →
  Csr.edata (in_csr_ t) = edata_type (meta_ t) → room t src dst ts → Csr.GetEData (edata_type (meta_ t)) v = Some d →
  ∃ o i, stores o (MkArc src dst ts d :: E) ∧ stores i (flip <$> (MkArc src dst ts d :: E)) ∧
    Csr.edata o = edata_type (meta_ t) ∧ Csr.edata i = edata_type (meta_ t) ∧
    (with_in (Csr.put_generic_edge dst src v ts);; with_out (Csr.put_generic_edge src dst v ts)) t =
      (set_in i (set_out o t), Ok (len (list_at (out_csr_ t) src))).
Proof.
  intros Ho Hi Hot Hit (Hs & Hd & Hls & Hld & Hts) Hv.
  destruct (stores_put _ _ src dst v d ts Ho) as (H1 & H2 & H3 & _); [by rewrite Hot|done..|].
  destruct (stores_put _ _ dst src v d ts Hi) as (H4 & H5 & H6 & _); [by rewrite Hit|done..|].
  exists (Csr.put_generic_edge src dst v ts (out_csr_ t)).1, (Csr.put_generic_edge dst src v ts (in_csr_ t)).1.
  split_and!; [done|done|congruence|congruence|].
  unfold with_in, with_out, on, mbind, st_bind. destruct (Csr.put_generic_edge dst src v ts (in_csr_ t)) as [i y]. cbn in H4. subst y. cbn.
  destruct (Csr.put_generic_edge src dst v ts (out_csr_ t)) as [o x]. cbn in H1. by subst x.
Qed.

(** The data of a new edge: its value, or the next row. *)
Definition bundled_value (props : list Value) : Value :=
  match props with [] => MkValue (MkDataType kEmpty None) true V_none | v :: _ => v end.
Definition new_data t (props : list Value) : option Val :=
  if is_bundled (meta_ t) then Csr.GetEData (edata_type (meta_ t)) (bundled_value props)
  else if (length (properties (meta_ t)) =? length props)%nat && (0 <=? table_idx_ t) && (table_idx_ t <? 2^64 - 1)
  then Some (V_ubigint (table_idx_ t)) else None.

Lemma owns_new n src dst ts E : 0 ≤ n → owns n E → owns (n + 1) (MkArc src dst ts (V_ubigint n) :: E).
Proof.
  intros Hn [H1 H2]. split.
  - constructor; [exists n; split; [done|lia]|]. eapply Forall_impl; [exact H1|]. intros a (r & ? & ?). exists r. split; [done|lia].
  - rewrite fmap_cons. apply NoDup_cons. split; [|done]. intros (a & Ha & Hin)%list_elem_of_fmap. cbn in Ha.
    rewrite Forall_forall in H1. destruct (H1 a Hin) as (r & Hr & ?). rewrite Hr in Ha. injection Ha as <-. lia.
Qed.

Lemma AddEdge_rep src dst props ts safe d t E :
  rep t E → room t src dst ts → new_data t props = Some d →
  let x := AddEdge src dst props ts safe t in
  rep x.1 (MkArc src dst ts d :: E) ∧ (is_bundled (meta_ t) = true → x.2 = Ok (len (list_at (out_csr_ t) src))).
Proof.
  intros H Hroom Hd. unfold AddEdge, insert_edge_into_csr_internal, new_data in *. rewrite get_then.
  destruct (is_bundled (meta_ t)) eqn:Hb.
  - destruct (put_both t E src dst (bundled_value props) d ts) as (o & i & Ho & Hi & Ht1 & Ht2 & Hx); try apply H; [done|done|].
    change (match props with [] => _ | v :: _ => v end) with (bundled_value props). rewrite Hx. split; [|done].
    split; cbn; [done|done|done|done|congruence].
  - destruct ((length (properties (meta_ t)) =? length props)%nat) eqn:Hl; [|done]. cbn [andb negb] in *.
    destruct (Z.leb_spec 0 (table_idx_ t)); [|done]. destruct (Z.ltb_spec (table_idx_ t) (2^64 - 1)); [|done]. injection Hd as <-.
    set (t1 := set_table_idx (u64 (table_idx_ t + 1)) t). rewrite update_then. fold t1.
    destruct (put_both t1 E src dst (scalar kUInt64 (V_ubigint (table_idx_ t))) (V_ubigint (table_idx_ t)) ts)
      as (o & i & Ho & Hi & Ht1 & Ht2 & Hx); try apply H; [done|by unfold t1, edata_type; cbn; rewrite Hb|].
    rewrite (then_ok _ _ _ _ _ _ Hx). split; [|done].
    assert (H' : rep (set_in i (set_out o t1)) (MkArc src dst ts (V_ubigint (table_idx_ t)) :: E)).
    { split; [done|done|done|done|]. intros _.
      change (table_idx_ (set_in i (set_out o t1))) with (u64 (table_idx_ t + 1)). rewrite u64_id by (unfold is_u64; lia). apply owns_new; [done|by apply H]. }
    unfold with_table, on, mbind, st_bind. destruct (Table.insert _ _ _ _) as [b [[]|]]; cbn; exact (rep_table _ _ b (capacity_ t) H').
Qed.

(** *** Batches *)

Definition flip3 (p : Z * Z * Val) : Z * Z * Val := (p.1.2, p.1.1, p.2).

Lemma typed_data_swap ty edges vs es :
  typed_data ty edges vs = Ok es → typed_data ty (swap <$> edges) vs = Ok (flip3 <$> es).
Proof.
  revert vs es. induction edges as [|[a b] edges IH]; intros [|v vs] es; cbn; try (by intros; simplify_eq).
  destruct (Csr.GetEData ty v) as [x|]; cbn; [|done]. destruct (typed_data ty edges vs) as [l|] eqn:El; cbn; [|done].
  intros [= <-]. by rewrite (IH vs l El).
Qed.
Lemma separated_swap n edges : separated n (swap <$> edges) = flip3 <$> separated n edges.
Proof. unfold separated. rewrite imap_fmap, fmap_imap. done. Qed.
Lemma typed_data_ends ty edges vs es : typed_data ty edges vs = Ok es → fst <$> es = edges.
Proof.
  revert vs es. induction edges as [|[a b] edges IH]; intros [|v vs] es; cbn; try (by intros; simplify_eq).
  destruct (Csr.GetEData ty v) as [x|]; cbn; [|done]. destruct (typed_data ty edges vs) as [l|] eqn:El; cbn; [|done].
  intros [= <-]. rewrite fmap_cons. by rewrite (IH vs l El).
Qed.
Lemma separated_ends n edges : fst <$> separated n edges = edges.
Proof.
  unfold separated. rewrite fmap_imap. etrans; [|apply list_fmap_id]. etrans; [|apply (imap_const id)].
  apply imap_ext. by intros i [] _.
Qed.

Definition in_range t (p : Z * Z) : Prop := 0 ≤ p.1 < Csr.size (out_csr_ t) ∧ 0 ≤ p.2 < Csr.size (in_csr_ t).

(** Both directions can take a batch of [n] edges. *)
Definition batch_fits t (n : Z) : Prop := takes (out_csr_ t) n ∧ takes (in_csr_ t) n.

Lemma batch_both t E es :
  stores (out_csr_ t) E → stores (in_csr_ t) (flip <$> E) → Csr.edata (out_csr_ t) = edata_type (meta_ t) →
  Csr.edata (in_csr_ t) = edata_type (meta_ t) → batch_fits t (len es) → Forall (in_range t) (fst <$> es) →
  ∃ o i, stores o (E ++ (new_arc 0 <$> es)) ∧ stores i (flip <$> (E ++ (new_arc 0 <$> es))) ∧
    same_shape (out_csr_ t) o ∧ same_shape (in_csr_ t) i ∧
    (with_out (Csr.batch_put_edges (edata_type (meta_ t)) es 0);;
     with_in (Csr.batch_put_edges (edata_type (meta_ t)) (flip3 <$> es) 0)) t = (set_in i (set_out o t), Ok tt).
Proof.
  intros Ho Hi Hot Hit [Hk1 Hk2] Hr. rewrite Forall_fmap in Hr.
  destruct (stores_batch_put _ _ es _ Ho Hot Hk1) as (H1 & H2 & H3).
  { eapply Forall_impl; [exact Hr|]. by intros p [? _]. }
  destruct (stores_batch_put _ _ (flip3 <$> es) _ Hi Hit) as (H4 & H5 & H6).
  { by rewrite length_fmap. }
  { rewrite Forall_fmap. eapply Forall_impl; [exact Hr|]. by intros p [_ ?]. }
  eexists _, _. split_and!; [exact H2| |exact H3|exact H6|by apply both_ok].
  rewrite fmap_app, <- list_fmap_compose. rewrite <- list_fmap_compose in H5. exact H5.
Qed.

(** The entries a batch adds, when its data have the type of the triplet. *)
Definition batch_entries t (edges : list (Z * Z)) (edge_data_list : list (list Value)) : res (list (Z * Z * Val)) :=
  if is_bundled (meta_ t) then
    match properties (meta_ t) with
    | [] => Throw OutOfBounds
    | p :: _ =>
        if bool_decide (id_ p = kEmpty) then Ok ((λ p, (p.1, p.2, V_none)) <$> edges)
        else if Csr.inline_type (id_ p)
        then vs ← mapM (λ vs, of_option OutOfBounds (head vs)) edge_data_list; typed_data (id_ p) edges vs
        else Throw NotSupported
    end
  else if (0 <=? table_idx_ t) && (table_idx_ t + len edges <? 2^64)
  then Ok (separated (table_idx_ t) edges) else Throw OutOfBounds.

Lemma owns_batch n edges E :
  0 ≤ n → n + len edges < 2^64 → owns n E → owns (n + len edges) (E ++ (new_arc 0 <$> separated n edges)).
Proof.
  revert n E. induction edges as [|p edges IH]; intros n E Hn Hlen HE.
  { unfold separated. cbn [imap fmap list_fmap length]. cbn. by rewrite app_nil_r, Z.add_0_r. }
  cbn [length] in *. unfold separated. rewrite imap_cons, fmap_cons, Z.add_0_r, u64_id by (unfold is_u64; lia).
  rewrite (imap_ext _ (λ i p, (p.1, p.2, V_ubigint (u64 (n + 1 + Z.of_nat i))))) by (intros i x _; unfold compose; do 3 f_equal; lia).
  replace (n + Z.of_nat (S (length edges))) with (n + 1 + Z.of_nat (length edges)) by lia.
  eapply owns_perm; [|apply (IH (n + 1) (MkArc p.1 p.2 0 (V_ubigint n) :: E)); [lia|lia|by apply owns_new]].
  unfold separated. cbn [app]. by rewrite Permutation_middle.
Qed.

Lemma for_each_table {A} (l : list A) (f : A → st (Table.table C) unit) t :
  ∃ b, (for_each l (λ p, with_table (f p)) t).1 = set_table b t.
Proof.
  revert t. induction l as [|x l IH]; intros t; [exists (table_ t); by destruct t|]. cbn [for_each].
  assert (Hw : with_table (f x) t = (set_table (f x (table_ t)).1 t, (f x (table_ t)).2))
    by (unfold with_table, on; by destruct (f x (table_ t))).
  unfold mbind, st_bind. rewrite Hw. destruct (f x (table_ t)).2 as [[]|]; [|eauto].
  destruct (IH (set_table (f x (table_ t)).1 t)) as [b ->]. eauto.
Qed.

Lemma BatchAddEdges_rep edges data es t E :
  rep t E → Forall (in_range t) edges → batch_fits t (len edges) → batch_entries t edges data = Ok es →
  (EnsureCapacity (edge_capacity_with_headroom (u64 (table_idx_ t + len edges))) t).2 = Ok tt →
  let x := BatchAddEdges edges data t in
  rep x.1 (E ++ (new_arc 0 <$> es)) ∧ (is_bundled (meta_ t) = true → x.2 = Ok tt).
Proof.
  intros H Hr Hfit Hes Hcap. unfold BatchAddEdges. rewrite get_then.
  destruct (EnsureCapacity_frame (edge_capacity_with_headroom (u64 (table_idx_ t + len edges))) t) as (b & k & Ht1 & _).
  set (t1 := set_capacity k (set_table b t)) in *. destruct (EnsureCapacity _ t) as [t0 y] eqn:Hec. cbn in Ht1, Hcap. subst t0 y.
  rewrite (st_bind_ok _ _ _ _ _ Hec). assert (H1 : rep t1 E) by (by apply rep_table).
  unfold batch_entries in Hes. destruct (is_bundled (meta_ t)) eqn:Hb.
  - destruct (properties (meta_ t)) as [|p ps] eqn:Hp; [done|].
    assert (Hty : edata_type (meta_ t) = id_ p) by (unfold edata_type, bundled_type; by rewrite Hb, Hp).
    assert (Hgo : ∃ flat, (if bool_decide (id_ p = kEmpty) then Ok [] else mapM (λ vs, of_option OutOfBounds (head vs)) data) = Ok flat ∧
      fst <$> es = edges ∧
      batch_put_edges_to_bundled_csr edges (id_ p) flat = Csr.batch_put_edges (id_ p) es 0 ∧
      batch_put_edges_to_bundled_csr (swap <$> edges) (id_ p) flat = Csr.batch_put_edges (id_ p) (flip3 <$> es) 0).
    { unfold batch_put_edges_to_bundled_csr. destruct (bool_decide_reflect (id_ p = kEmpty)) as [He|He].
      - injection Hes as <-. exists []. rewrite He. cbn [Csr.inline_type negb]. rewrite <- !list_fmap_compose. split_and!; [done| |done|done].
        etrans; [|apply list_fmap_id]. apply list_fmap_ext. by intros ? [] _.
      - destruct (Csr.inline_type (id_ p)); [|done]. destruct (mapM _ data) as [vs|]; cbn in Hes; [|done]. exists vs. cbn [negb].
        rewrite Hes, (typed_data_swap _ _ _ _ Hes). split_and!; [done|by eapply typed_data_ends|done|done]. }
    destruct Hgo as (flat & Hflat & Hends & Hb1 & Hb2). rewrite Hflat, lift_then, Hb1, Hb2.
    rewrite <- Hends in Hr.
    destruct (batch_both t1 E es) as (o & i & Ho & Hi & So & Si & Hx); try apply H1; [by rewrite <- Hends, length_fmap in Hfit|done|].
    change (meta_ t1) with (meta_ t) in Hx. rewrite Hty in Hx. rewrite Hx. split; [|done]. apply (rep_set t1 E); [done..|].
    cbn. congruence.
  - destruct (Z.leb_spec 0 (table_idx_ t)); [|done]. destruct (Z.ltb_spec (table_idx_ t + len edges) (2^64)); [|done]. injection Hes as <-.
    split; [|done]. set (n := u64 (table_idx_ t + len edges)).
    assert (Hn : n = table_idx_ t + len edges) by (apply u64_id; unfold is_u64; lia).
    rewrite update_then. unfold insert_edges_separated_impl. rewrite separated_swap.
    assert (Hty : edata_type (meta_ t) = kUInt64) by (unfold edata_type; by rewrite Hb).
    destruct (batch_both (set_table_idx n t1) E (separated (table_idx_ t) edges)) as (o & i & Ho & Hi & So & Si & Hx); try apply H1.
    { unfold separated. by rewrite length_imap. }
    { by rewrite separated_ends. }
    change (meta_ (set_table_idx n t1)) with (meta_ t) in Hx. rewrite Hty in Hx. rewrite (st_bind_ok _ _ _ _ _ Hx).
    destruct (for_each_table (zip (seqZ (table_idx_ t) (len data)) data) (λ p, Table.insert (u64 p.1) p.2 true) (set_in i (set_out o (set_table_idx n t1)))) as [b' ->].
    apply (rep_table (set_in i (set_out o (set_table_idx n t1))) _ b' k). destruct H1 as [_ _ T1 T2 R]. destruct So as [So _]. destruct Si as [Si _].
    split; [done|done|by etrans; [exact So|]|by etrans; [exact Si|]|]. intros _. change (table_idx_ (set_in i (set_out o (set_table_idx n t1)))) with n. rewrite Hn.
    apply owns_batch; [done|done|by apply R].
Qed.
End refinement.
