(* ===== verification/EdgeTableDelete.v ===== *)
(** * Deleting the edges of a vertex

    [EdgeTable::DeleteVertex]: the loop over the visible edges of a vertex in one
    direction, each with the search for its entry in the other. *)

From stdpp Require Import gmap.
From S2P Require Import Prelude Values StringColumn Tables PropertyColumns CsrView CsrBase EdgeSchema EdgeTable EdgeArcs EdgeStores EdgeTableSpec.
Import EdgeTable EdgeSchema.

Section delete.
Context {C : Type} {HC : ColumnBase C} {HM : Memory}.
Abbreviation T := (etable C).
Implicit Types (t : T) (E F : list (arc Val)).

(** An edge as the table of outgoing or of incoming edges has it. *)
Definition orient (is_src : bool) (a : arc Val) : arc Val := if is_src then a else flip a.

Lemma rep_this b t E : rep t E → stores (this_csr b t) (orient b <$> E).
Proof. intros [H1 H2 _ _ _]. destruct b; cbn; [by rewrite list_fmap_id|exact H2]. Qed.
Lemma rep_other b t E : rep t E → stores (other_csr b t) (orient (negb b) <$> E).
Proof. intros H. destruct b; [exact (rep_this false t E H)|exact (rep_this true t E H)]. Qed.

(** ** One edge *)

Definition DeleteAt (is_src : bool) (v w : Z) (i j : Z) (ts : Z) : st T unit :=
  if is_src then DeleteEdge v w i j ts else DeleteEdge w v j i ts.

Lemma DeleteEdge_rep t E s d i j e e' ts :
  rep t E → 0 ≤ s → 0 ≤ d → 0 ≤ ts < INVALID_TIMESTAMP →
  list_at (out_csr_ t) s !! i = Some e → list_at (in_csr_ t) d !! j = Some e' → timestamp e ≤ ts →
  arc_of (Z.to_nat d) e' = flip (arc_of (Z.to_nat s) e) →
  let x := DeleteEdge s d (Z.of_nat i) (Z.of_nat j) ts t in
  x.2 = Ok tt ∧ (meta_ x.1 = meta_ t ∧ capacity_ x.1 = capacity_ t) ∧ same_shape (out_csr_ t) (out_csr_ x.1) ∧ same_shape (in_csr_ t) (in_csr_ x.1) ∧
  list_at (out_csr_ x.1) s = <[i := set_timestamp INVALID_TIMESTAMP e]> (list_at (out_csr_ t) s) ∧
  list_at (in_csr_ x.1) d = <[j := set_timestamp INVALID_TIMESTAMP e']> (list_at (in_csr_ t) d) ∧
  ∃ F, E ≡ₚ arc_of (Z.to_nat s) e :: F ∧ rep x.1 F.
Proof.
  intros H Hs Hd Hts He He' Hvis Hflip.
  assert (Het : timestamp e' = timestamp e) by (by injection Hflip).
  destruct (stores_delete_edge _ _ s i e ts (rep_out _ _ H) Hs He Hvis Hts) as (H1 & (F & HF & Ho) & S1 & L1).
  destruct (stores_delete_edge _ _ d j e' ts (rep_in _ _ H) Hd He') as (H2 & (F' & HF' & Hi) & S2 & L2); [lia|done|].
  cbv zeta. unfold DeleteEdge. rewrite both_ok by done. cbn [fst snd set_in set_out out_csr_ in_csr_ meta_].
  split_and!; [done..|].
  exists F. split; [done|]. apply (rep_set t E); [done|done| |done|done|].
  - assert (Hp : F' ≡ₚ flip <$> F).
    { apply (Permutation_cons_inv (a := arc_of (Z.to_nat d) e')). rewrite <- HF', HF, fmap_cons. by rewrite Hflip. }
    by rewrite <- Hp.
  - intros Hb. eapply owns_tail, owns_perm; [exact HF|]. by apply H.
Qed.

(** What the search needs, for all the edges. *)
Definition searchable (b : bool) (ts : Z) t E : Prop :=
  ∀ a, a ∈ E → unambiguous (edata_type (meta_ t)) (CsrSearch.determine_search_prop_type (properties (meta_ t)))
                 (orient (negb b) a) ts (orient (negb b) <$> E).

Lemma searchable_sub b ts t t' E F : meta_ t' = meta_ t → F ⊆+ E → searchable b ts t E → searchable b ts t' F.
Proof.
  intros Hm [k HE]%submseteq_Permutation Hs x Hx. rewrite Hm. destruct (Hs x) as [(H1 & H2 & H3)|Hle]; [rewrite HE; set_solver|left|right].
  - split_and!; [done|done|]. intros y Hy. apply H3. rewrite HE, fmap_app. set_solver.
  - etrans; [|exact Hle]. rewrite HE, fmap_app, filter_app, length_app. lia.
Qed.

Lemma DeleteAt_rep b t E v i e ts :
  rep t E → 0 ≤ v < Csr.size (this_csr b t) → 0 ≤ ts < INVALID_TIMESTAMP → searchable b ts t E →
  list_at (this_csr b t) v !! i = Some e → timestamp e ≤ ts →
  ∃ j, CsrSearch.search_other_offset_with_cur_offset (this_csr b t) (other_csr b t) ts v (neighbor e) i (properties (meta_ t)) = Ok j ∧
  let x := DeleteAt b v (neighbor e) (Z.of_nat i) j ts t in
  x.2 = Ok tt ∧ (meta_ x.1 = meta_ t ∧ capacity_ x.1 = capacity_ t) ∧ (∀ b', Csr.size (this_csr b' x.1) = Csr.size (this_csr b' t)) ∧
  list_at (this_csr b x.1) v = <[i := set_timestamp INVALID_TIMESTAMP e]> (list_at (this_csr b t) v) ∧
  ∃ F, let a := orient b (arc_of (Z.to_nat v) e) in E ≡ₚ a :: F ∧ a_src (orient b a) = v ∧ a_ts a ≤ ts ∧ rep x.1 F.
Proof.
  intros H Hv Hts Hs He Hvis. set (a := orient b (arc_of (Z.to_nat v) e)).
  destruct (stores_delete_edge _ _ v i e ts (rep_this b t E H) (proj1 Hv) He Hvis Hts) as (_ & (F0 & HF0 & _) & _ & _).
  assert (Ha : a ∈ E).
  { assert (Hin : arc_of (Z.to_nat v) e ∈ orient b <$> E) by (rewrite HF0; by left).
    apply list_elem_of_fmap in Hin as (x & Hx & Hin). unfold a. rewrite Hx. destruct b; cbn; rewrite ?flip_flip; done. }
  assert (Hoa : orient (negb b) a = flip (arc_of (Z.to_nat v) e)) by (by destruct b; cbn; rewrite ?flip_flip).
  destruct (get_edges_stores _ _ ts v (rep_this b t E H) Hv) as [be Hcur].
  pose proof (Hs a Ha) as Hun. rewrite Hoa in Hun.
  assert (Het : Csr.edata (other_csr b t) = edata_type (meta_ t)) by (destruct b; apply H). rewrite <- Het in Hun.
  destruct (search_spec (this_csr b t) (other_csr b t) (orient (negb b) <$> E) (properties (meta_ t)) ts
              (flip (arc_of (Z.to_nat v) e)) i e be) as (j & x & Hsearch & Hx & Harc & Hw).
  { by apply rep_other. } { rewrite <- Hoa. by apply list_elem_of_fmap_2. } { cbn. lia. }
  { cbn. by rewrite Z2Nat.id by lia. } { cbn. by rewrite Z2Nat.id by lia. } { done. } { done. } { done. }
  cbn [flip a_dst a_src arc_of] in *. rewrite Z2Nat.id in Hsearch by lia. exists (Z.of_nat j). split; [exact Hsearch|].
  assert (Hne : timestamp x = timestamp e ∧ neighbor x = v).
  { injection Harc as _ Hn Ht _. rewrite Hn, Ht, Z2Nat.id by lia. done. }
  destruct b; cbn [this_csr other_csr DeleteAt orient negb] in *.
  - destruct (DeleteEdge_rep t E v (neighbor e) i j e x ts H) as (D1 & D2 & D3 & D4 & D5 & D6 & F & HF & HR); try done; try lia.
    cbv zeta. split_and!; [done|apply D2|apply D2|intros []; [apply D3|apply D4]|done|]. exists F. split_and!; [done|cbn; lia|cbn; lia|done].
  - destruct (DeleteEdge_rep t E (neighbor e) v j i x e ts H) as (D1 & D2 & D3 & D4 & D5 & D6 & F & HF & HR); try done; try lia.
    { rewrite Harc. unfold arc_of, flip. cbn. done. }
    cbv zeta. split_and!; [done|apply D2|apply D2|intros []; [apply D3|apply D4]|done|]. exists F. rewrite HF, Harc. split_and!; [done|cbn; lia|cbn; lia|done].
Qed.

(** ** A record of an edge *)

(** The entries are compared as what they are, by an equality that is the one
    of the data. *)
Definition comparable t E : Prop :=
  edata_type (meta_ t) = CsrSearch.determine_search_prop_type (properties (meta_ t)) ∧
  is_Some (PropertyColumn.zero_of (edata_type (meta_ t))) ∧
  ∀ a b, a ∈ E → b ∈ E → (val_eqb (a_data b) (a_data a) = true ↔ a_data b = a_data a).

Lemma orient_data b a : a_data (orient b a) = a_data a.
Proof. by destruct b. Qed.

Lemma comparable_searchable b ts t E : comparable t E → searchable b ts t E.
Proof.
  intros (H1 & H2 & H3) a Ha. left. rewrite <- H1. split_and!; [done|done|]. intros y (x & -> & Hx)%list_elem_of_fmap.
  rewrite !orient_data. by apply H3.
Qed.

(** The offsets found for a record of a visible edge are those of its two
    entries: deleting the edge there removes it, and no other one. *)
Theorem record_deletes_edge b t E v i e ts :
  rep t E → 0 ≤ v < Csr.size (this_csr b t) → 0 ≤ ts < INVALID_TIMESTAMP → comparable t E →
  list_at (this_csr b t) v !! i = Some e → timestamp e ≤ ts →
  let a := orient b (arc_of (Z.to_nat v) e) in
  ∃ p, CsrSearch.record_to_csr_offset_pair (out_csr_ t) (in_csr_ t) ts b (a_src a) (a_dst a) i (properties (meta_ t)) = Ok p ∧
  let x := DeleteEdge (a_src a) (a_dst a) p.1 p.2 ts t in
  x.2 = Ok tt ∧ ∃ F, E ≡ₚ a :: F ∧ rep x.1 F.
Proof.
  intros H Hv Hts Hc He Hvis a. pose proof Hc as (Hty & Hz & Heq).
  destruct (DeleteAt_rep b t E v i e ts H Hv Hts (comparable_searchable b ts t E Hc) He Hvis) as (j & Hj & D1 & _ & _ & _ & F & HF & _ & _ & HR).
  destruct (get_edges_stores _ _ ts v (rep_this b t E H) Hv) as [be Hcur].
  assert (Hown : CsrSearch.get_offset_for_edge_record (Csr.edata (this_csr b t)) (edata_type (meta_ t)) true
    (Csr.MkNbrList (list_at (this_csr b t) v) be true ts) (neighbor e) (Csr.MkNbrList (list_at (this_csr b t) v) be true ts) i = Ok (Z.of_nat i)).
  { assert (Ha : a ∈ E) by (rewrite HF; by left).
    assert (Hself : val_eqb (data e) (data e) = true).
    { specialize (Heq a a Ha Ha). unfold a in Heq. rewrite orient_data in Heq. by apply Heq. }
    assert (Hed : Csr.edata (this_csr b t) = edata_type (meta_ t)) by (destruct b; apply H). rewrite Hed.
    unfold CsrSearch.get_offset_for_edge_record. cbn [negb Csr.slots]. rewrite He. cbn [of_option mbind res_bind]. rewrite Z.eqb_refl. cbn [negb].
    rewrite (read_data_same _ (Csr.MkNbrList (list_at (this_csr b t) v) be true ts) i e Hz He). cbn [mbind res_bind]. by rewrite Hself. }
  unfold CsrSearch.search_other_offset_with_cur_offset in Hj. rewrite Hcur in Hj.
  unfold CsrSearch.record_to_csr_offset_pair. rewrite <- Hty in *. unfold a in *.
  destruct b; cbn [this_csr other_csr orient arc_of flip a_src a_dst DeleteAt] in *; rewrite Z2Nat.id by lia; rewrite Hcur; cbn [mbind res_bind].
  - destruct (Csr.get_edges ts (neighbor e) (in_csr_ t)) as [l|]; [|done]. cbn [mbind res_bind] in Hj |- *. rewrite Hown. cbn [mbind res_bind]. rewrite Hj.
    exists (Z.of_nat i, j). split; [done|]. split; [exact D1|eauto].
  - destruct (Csr.get_edges ts (neighbor e) (out_csr_ t)) as [l|]; [|done]. cbn [mbind res_bind] in Hj |- *. rewrite Hown. cbn [mbind res_bind]. rewrite Hj.
    exists (j, Z.of_nat i). split; [done|]. split; [exact D1|eauto].
Qed.

(** ** The loop *)

(** An edge at the vertex, in the direction of the loop, that is visible. *)
Definition seen (b : bool) (v ts : Z) (a : arc Val) : Prop := a_src (orient b a) = v ∧ a_ts a ≤ ts.
#[export] Instance seen_dec b v ts a : Decision (seen b v ts a).
Proof. unfold seen. apply _. Defined.
Definition unseen (b : bool) (v ts : Z) E : list (arc Val) := filter (λ a, ¬ seen b v ts a) E.

(** The iterator stops at the next visible entry and passes no other one. *)
Lemma skip_invisible {D} ts (l : list (MutableNbr D)) n cur :
  (cur + n = length l)%nat →
  let cur' := NbrIterator_skip ts l n cur in
  (cur ≤ cur' ≤ length l)%nat ∧ (∀ e, l !! cur' = Some e → timestamp e ≤ ts) ∧
  (∀ j e, (cur ≤ j < cur')%nat → l !! j = Some e → ts < timestamp e).
Proof.
  intros Hn cur'. destruct (skip_spec ts l n cur Hn) as (H1 & H2 & H3). fold cur' in H1, H2, H3. split_and!; [lia|lia|done|].
  intros j e Hj He. destruct (Z.lt_ge_cases ts (timestamp e)) as [|Hle]; [done|exfalso].
  assert (Hin : (j, e) ∈ visible_from cur ts (drop cur l)).
  { apply visible_from_elem. rewrite lookup_drop. replace (cur + (j - cur))%nat with j by lia. split_and!; [lia|done|done]. }
  rewrite H2 in Hin. apply visible_from_elem in Hin as [? _]. lia.
Qed.

Lemma all_unseen b v ts t E :
  rep t E → 0 ≤ v → (∀ j e, list_at (this_csr b t) v !! j = Some e → ts < timestamp e) → unseen b v ts E = E.
Proof.
  intros H Hv Hinv. apply filter_all_in. intros a Ha [Hs Ht].
  destruct (rep_this b t E H) as (m & Hb & Hok & Hp).
  assert (Hin : orient b a ∈ orient b <$> E) by (by apply list_elem_of_fmap_2).
  rewrite <- Hp in Hin. apply elem_of_arcs in Hin as (k & l & i & e & Hl & Hi & _ & Ha').
  rewrite Ha' in Hs. cbn in Hs. unfold list_at in Hinv. rewrite Hb, <- Hs, Nat2Z.id, Hl in Hinv. specialize (Hinv i e Hi).
  assert (a_ts a = timestamp e); [|lia]. by destruct b; apply (f_equal a_ts) in Ha'.
Qed.

Lemma delete_loop_rep fuel b v ts cur t E :
  rep t E → 0 ≤ v < Csr.size (this_csr b t) → 0 ≤ ts < INVALID_TIMESTAMP → searchable b ts t E →
  let l := list_at (this_csr b t) v in
  (cur ≤ length l)%nat → (length l - cur < fuel)%nat → (∀ e, l !! cur = Some e → timestamp e ≤ ts) →
  (∀ j e, (j < cur)%nat → l !! j = Some e → ts < timestamp e) →
  let x := delete_loop fuel b v ts cur t in
  x.2 = Ok tt ∧ rep x.1 (unseen b v ts E) ∧ (meta_ x.1 = meta_ t ∧ capacity_ x.1 = capacity_ t) ∧ ∀ b', Csr.size (this_csr b' x.1) = Csr.size (this_csr b' t).
Proof.
  revert cur t E. induction fuel as [|fuel IH]; intros cur t E H Hv Hts Hs l Hc Hf Hvis Hinv; [lia|].
  cbn [delete_loop]. rewrite get_then. destruct (get_edges_stores _ _ ts v (rep_this b t E H) Hv) as [be ->].
  rewrite lift_then. cbn [Csr.slots]. fold l. destruct (l !! cur) as [e|] eqn:He.
  2:{ split_and!; [done| |done|done|done]. rewrite (all_unseen b v ts t E H (proj1 Hv)); [done|]. intros j e Hj. eapply Hinv; [|exact Hj].
      fold l in Hj. apply lookup_lt_Some in Hj. apply lookup_ge_None in He. lia. }
  specialize (Hvis e eq_refl). rewrite (proj2 (Z.ltb_ge _ _)) by lia.
  destruct (DeleteAt_rep b t E v cur e ts H Hv Hts Hs He Hvis) as (j & Hj & D1 & D2 & D3 & D4 & F & HF & Ha & Ht & HR).
  set (t' := (DeleteAt b v (neighbor e) (Z.of_nat cur) j ts t).1) in *.
  erewrite st_bind_ok.
  2:{ rewrite Hj, lift_then. transitivity (DeleteAt b v (neighbor e) (Z.of_nat cur) j ts t); [reflexivity|].
      rewrite (surjective_pairing (DeleteAt _ _ _ _ _ _ _)), D1. reflexivity. }
  fold t'.
  rewrite get_then. destruct (get_edges_stores _ _ ts v (rep_this b t' F HR)) as [be' ->]; [rewrite D3; lia|].
  rewrite lift_then. cbn [Csr.slots Csr.view_ts]. rewrite D4. fold l. set (l' := <[cur := _]> l) in *.
  assert (Hlen : length l' = length l) by apply length_insert. apply lookup_lt_Some in He as Hcur.
  destruct (skip_invisible ts l' (length l' - S cur) (S cur)) as (K1 & K2 & K3); [lia|]. fold (NbrIterator_next ts l' cur) in K1, K2, K3.
  assert (HE : unseen b v ts E ≡ₚ unseen b v ts F).
  { unfold unseen. rewrite HF, filter_cons_False; [done|]. intros Hn. apply Hn. split; [done|done]. }
  assert (HF' : F ⊆+ E) by (rewrite HF; by apply submseteq_cons).
  destruct D2 as [D2 D2']. rewrite <- D2, <- D2'. setoid_rewrite <- D3. setoid_rewrite HE.
  apply IH; [done|rewrite D3; lia|done|by eapply searchable_sub| | | |]; rewrite ?D4; fold l; fold l'; [lia|lia|done|].
  intros i x Hi Hx. destruct (decide (i = cur)) as [->|Hne].
  - unfold l' in Hx. rewrite list_lookup_insert_eq in Hx by done. injection Hx as <-. cbn. lia.
  - destruct (decide (i < cur)%nat); [|apply (K3 i x); [lia|done]]. apply (Hinv i x); [done|].
    unfold l' in Hx. by rewrite list_lookup_insert_ne in Hx.
Qed.

Lemma DeleteVertex_rep b v ts t E :
  rep t E → 0 ≤ v < Csr.size (this_csr b t) → 0 ≤ ts < INVALID_TIMESTAMP → searchable b ts t E →
  let x := DeleteVertex b v ts t in
  x.2 = Ok tt ∧ rep x.1 (unseen b v ts E) ∧ (meta_ x.1 = meta_ t ∧ capacity_ x.1 = capacity_ t) ∧ ∀ b', Csr.size (this_csr b' x.1) = Csr.size (this_csr b' t).
Proof.
  intros H Hv Hts Hs. unfold DeleteVertex. rewrite get_then.
  destruct (get_edges_stores _ _ ts v (rep_this b t E H) Hv) as [be ->]. rewrite lift_then.
  destruct (rep_other b t E H) as (m & -> & _). rewrite lift_then. cbn [Csr.slots Csr.view_ts].
  destruct (skip_invisible ts (list_at (this_csr b t) v) (length (list_at (this_csr b t) v) - 0) 0) as (K1 & K2 & K3); [lia|].
  unfold NbrIterator_init. apply delete_loop_rep; [done|done|done|done|lia|lia|done|]. intros j e Hj. apply K3. lia.
Qed.
End delete.
