(* ===== verification/EdgeTableProperties.v ===== *)
(** * Properties of edge tables

    Sequences of operations on an edge table against a plain list of edges, what
    deleting a vertex removes, and where the two directions come apart. *)

From stdpp Require Import gmap.
From S2P Require Import Prelude Values StringColumn Tables PropertyColumns RedoRecords CsrView MutableCsr ImmutableCsr CsrBase EdgeSchema EdgeTable EdgeArcs EdgeStores EdgeTableSpec EdgeTableDelete.
Import EdgeTable EdgeSchema.

(** ** Operations and the edges after them *)

Inductive edge_op :=
  | OAddEdge (src dst : Z) (props : list Value) (ts : Z) (insert_safe : bool)
  | OBatchAddEdges (edges : list (Z * Z)) (edge_data_list : list (list Value))
  | OBatchDeleteVertices (src_set dst_set : gset Z)
  | OBatchDeleteEdges (src_list dst_list : list Z)
  | ODeleteVertex (is_src : bool) (vid ts : Z)
  | OCompact (sort_key_for_nbr : bool)
  | OEnsureVertexCapacity (src_v_cap dst_v_cap capacity : Z).

Section sequences.
Context {C : Type} {HC : ColumnBase C} {HM : Memory}.
Abbreviation T := (etable C).
Implicit Types (t : T) (E : list (arc Val)).

Definition edge_exec (o : edge_op) : st T unit :=
  match o with
  | OAddEdge src dst props ts safe => _ ← AddEdge src dst props ts safe; mret tt
  | OBatchAddEdges edges data => BatchAddEdges edges data
  | OBatchDeleteVertices ss ds => BatchDeleteVertices ss ds
  | OBatchDeleteEdges srcs dsts => BatchDeleteEdges srcs dsts
  | ODeleteVertex b v ts => DeleteVertex b v ts
  | OCompact sort => Compact sort
  | OEnsureVertexCapacity s d n => EnsureVertexCapacity s d n
  end.

(** What the callers see to: the ends exist, the values have the types of the
    triplet, the row ids last, and edges can be told apart. *)
Definition allowed t E (o : edge_op) : Prop :=
  match o with
  | OAddEdge src dst props ts _ => room t src dst ts ∧ is_Some (new_data t props)
  | OBatchAddEdges edges data =>
      Forall (in_range t) edges ∧ batch_fits t (len edges) ∧ (∃ es, batch_entries t edges data = Ok es) ∧
      (EnsureCapacity (edge_capacity_with_headroom (u64 (table_idx_ t + len edges))) t).2 = Ok tt
  | ODeleteVertex b v ts =>
      0 ≤ v < Csr.size (this_csr b t) ∧ 0 ≤ ts < INVALID_TIMESTAMP ∧ (is_bundled (meta_ t) = false ∨ searchable b ts t E)
  | _ => True
  end.

Definition edges_after t E (o : edge_op) : list (arc Val) :=
  match o with
  | OAddEdge src dst props ts _ => MkArc src dst ts (default V_none (new_data t props)) :: E
  | OBatchAddEdges edges data => E ++ (new_arc 0 <$> match batch_entries t edges data with Ok es => es | Throw _ => [] end)
  | OBatchDeleteVertices ss ds => filter (off ss ds) E
  | OBatchDeleteEdges srcs dsts => filter (unnamed (zip srcs dsts)) E
  | ODeleteVertex b v ts => unseen b v ts E
  | OCompact _ => aged <$> E
  | OEnsureVertexCapacity _ _ _ => E
  end.

Fixpoint edge_run (os : list edge_op) t E : T * list (arc Val) :=
  match os with
  | [] => (t, E)
  | o :: os => edge_run os (edge_exec o t).1 (edges_after t E o)
  end.
Fixpoint all_allowed (os : list edge_op) t E : Prop :=
  match os with
  | [] => True
  | o :: os => allowed t E o ∧ all_allowed os (edge_exec o t).1 (edges_after t E o)
  end.

(** Row ids are compared as what they are. *)
Lemma searchable_unbundled b ts t E : rep t E → is_bundled (meta_ t) = false → searchable b ts t E.
Proof.
  intros H Hb a Ha. left. destruct (rep_rows _ _ H Hb) as [Hr _]. rewrite Forall_forall in Hr.
  assert (Hd : ∀ x, a_data (orient (negb b) x) = a_data x) by (by intros; destruct b).
  assert (Hty : edata_type (meta_ t) = kUInt64) by (unfold edata_type; by rewrite Hb).
  assert (Hs : CsrSearch.determine_search_prop_type (properties (meta_ t)) = kUInt64).
  { unfold is_bundled in Hb. unfold CsrSearch.determine_search_prop_type.
    destruct (properties (meta_ t)) as [|p [|q ps]]; [done| |done]. by destruct (id_ p). }
  rewrite Hty, Hs. split_and!; [done|by eexists|]. intros x (y & -> & Hy)%list_elem_of_fmap. rewrite !Hd.
  destruct (Hr a Ha) as (r & -> & _). destruct (Hr y Hy) as (r' & -> & _). cbn. rewrite Z.eqb_eq. naive_solver.
Qed.

Lemma edge_step_rep (Hsort : ∀ l, sort_nbrs l ≡ₚ l) o t E :
  rep t E → allowed t E o → rep (edge_exec o t).1 (edges_after t E o).
Proof using HM.
  intros H. destruct o as [src dst props ts safe|edges data|ss ds|srcs dsts|b v ts|sort|s d n]; cbn [allowed edges_after edge_exec].
  - intros [Hroom [d Hd]]. destruct (AddEdge_rep src dst props ts safe d t E H Hroom Hd) as [H1 _]. rewrite Hd. cbn [default].
    unfold mbind, st_bind. by destruct (AddEdge _ _ _ _ _ _) as [t' []].
  - intros (Hr & Hfit & [es Hes] & Hc). rewrite Hes. by destruct (BatchAddEdges_rep edges data es t E H Hr Hfit Hes Hc).
  - intros _. by apply (BatchDeleteVertices_rep ss ds t E H).
  - intros _. by destruct (BatchDeleteEdges_rep srcs dsts t E H).
  - intros (Hv & Hts & Hs). apply DeleteVertex_rep; [done|done|done|]. destruct Hs; [by apply searchable_unbundled|done].
  - intros _. by destruct (Compact_rep sort t E Hsort H).
  - intros _. by destruct (EnsureVertexCapacity_rep s d n t E H).
Qed.

Lemma edge_run_rep (Hsort : ∀ l, sort_nbrs l ≡ₚ l) os t E :
  rep t E → all_allowed os t E → rep (edge_run os t E).1 (edge_run os t E).2.
Proof using HM.
  revert t E. induction os as [|o os IH]; intros t E H; [done|]. intros [Ho Hos]. apply IH; [by apply edge_step_rep|done].
Qed.

Lemma EdgeInit_rep s t :
  oe_mutable s = true → ie_mutable s = true → oe_strategy s = kMultiple → ie_strategy s = kMultiple →
  Init s = Ok t → rep t [].
Proof.
  intros Ho Hi So Si. unfold Init, Csr.create_csr, Csr.create_csr_impl. rewrite Ho, Hi, So, Si.
  destruct (Csr.inline_type (edata_type s)); [|done]. cbn [mbind res_bind]. destruct (if is_bundled s then _ else _) as [b|]; [|done].
  intros [= <-]. split; cbn; [apply stores_empty|apply stores_empty|done|done|]. intros _. split; [done|constructor].
Qed.
End sequences.

(** C14: An edge table whose two directions are mutable tables of lists
    (the other strategies are not described by [rep]) refines a plain list of edges.
    Take a run of additions, batch additions, batch deletions of vertices and of
    edges, deletions of the edges of a vertex, compactions and enlargements, each
    allowed where it happens: the ends of new edges exist and their values have the
    types of the triplet; a list has fewer than 2^30 entries before a single addition
    and at most [max_reservable] after a batch; the property table could grow
    for a batch and its row ids last; and where a vertex's edges are deleted, the
    triplet keeps row ids, or the visible edges can be told apart by the search (data
    compared by equality, or no two of them with the same ends - which excludes
    parallel edges without properties, see [parallel_edges_diverge]).  Then its two adjacency
    tables hold the same edges, seen from their two ends: those of the plain list
    under the same operations.  The number of edges it reports is the length of
    that list, also when the property table refused the values of an edge. *)
Theorem edge_table_refines {C} {HC : ColumnBase C} {HM : Memory} (os : list edge_op) (t : etable C) (E : list (arc Val)) :
  (∀ l, sort_nbrs l ≡ₚ l) → rep t E → all_allowed os t E →
  let x := edge_run os t E in rep x.1 x.2 ∧ EdgeNum x.1 = u64 (len x.2).
Proof.
  intros Hsort H Hall x. assert (Hx : rep x.1 x.2) by (by apply edge_run_rep). split; [done|].
  unfold EdgeNum. destruct (rep_out _ _ Hx) as (m & -> & _). by apply stores_edge_num, Hx.
Qed.

(** Fresh memory is zero, a sort that need not move anything, and columns
    without nested types. *)
Definition zeroed : Memory :=
  {| junk_nbr := MkNbr 0 0 V_none; junk_inbr := MkImmutableNbr 0 V_none; padding := 0; null_base := true;
     sort_nbrs := id; sort_inbrs := id |}.
#[local] Instance plain_columns : ColumnBase (PropertyColumn.column Empty_set) := PropertyColumn.column_base (O := Empty_set) (ColumnBase0 := no_nested).
#[local] Existing Instance zeroed.

Definition triplet (props : list DataTypeId) (oe ie : EdgeStrategy) : schema :=
  MkSchema (imap (λ i _, [Z.of_nat i]) props) ((λ id, MkDataType id None) <$> props) ((λ id, scalar id (V_integer 0)) <$> props)
    ((λ _, false) <$> props) true true oe ie.
Definition fresh (props : list DataTypeId) (oe ie : EdgeStrategy) : etable (PropertyColumn.column Empty_set) :=
  match Init (triplet props oe ie) with Ok t => t | Throw _ => MkEdgeTable (triplet props oe ie) (Csr.MkCsr kEmpty Csr.Empty) (Csr.MkCsr kEmpty Csr.Empty) empty_table 0 0 end.

Definition int (z : Z) : Value := scalar kInt32 (V_integer z).
(** Two parallel edges, of which the older one is deleted with its source. *)
Definition sample_ops : list edge_op :=
  [OEnsureVertexCapacity 2 2 0; OAddEdge 0 1 [int 5; int 6] 1 true; OAddEdge 0 1 [int 7; int 8] 2 true;
   ODeleteVertex true 0 1; OBatchDeleteEdges [1] [0]; OCompact false].

Ltac solve_allowed :=
  cbn [all_allowed allowed]; unfold room;
  repeat match goal with |- _ ∧ _ => split end; try exact I; try (left; vm_compute; reflexivity);
    try (eexists; vm_compute; reflexivity); vm_compute; first [reflexivity | discriminate].

Lemma edge_table_refines_witness :
  let x := edge_run sample_ops (fresh [kInt32; kInt32] kMultiple kMultiple) [] in
  rep x.1 x.2 ∧ EdgeNum x.1 = u64 (len x.2) ∧ x.2 = [MkArc 0 1 0 (V_ubigint 1)].
Proof.
  destruct (edge_table_refines sample_ops (fresh [kInt32; kInt32] kMultiple kMultiple) []) as [H1 H2].
  - intros l. reflexivity.
  - apply (EdgeInit_rep (triplet [kInt32; kInt32] kMultiple kMultiple)); reflexivity.
  - unfold sample_ops. solve_allowed.
  - split_and!; [exact H1|exact H2|vm_compute; reflexivity].
Defined.

(** ** Deleting the edges of a vertex *)

(** Deleting a vertex from an edge table ends without
    error and removes from both directions exactly the edges at the vertex that
    are visible at the timestamp, also when there are parallel edges and loops:
    a reader then finds none at the vertex, and every other edge is still there.
    The data of the edges are row ids, or are such that the comparison of the
    search is equality, or no two visible edges have the same ends. *)
Theorem delete_vertex_exact {C} {HC : ColumnBase C} {HM : Memory} (is_src : bool) (v ts : Z) (t : etable C) (E : list (arc Val)) :
  rep t E → 0 ≤ v < Csr.size (this_csr is_src t) → 0 ≤ ts < INVALID_TIMESTAMP →
  is_bundled (meta_ t) = false ∨ searchable is_src ts t E →
  let x := DeleteVertex is_src v ts t in
  x.2 = Ok tt ∧ rep x.1 (filter (λ a, ¬ (a_src (orient is_src a) = v ∧ a_ts a ≤ ts)) E) ∧
  ∃ l, Csr.get_edges ts v (this_csr is_src x.1) = Ok l ∧ NbrList_iterate ts (Csr.slots l) = [].
Proof.
  intros H Hv Hts Hs. assert (Hs' : searchable is_src ts t E) by (destruct Hs; [by apply searchable_unbundled|done]).
  destruct (DeleteVertex_rep is_src v ts t E H Hv Hts Hs') as (H1 & H2 & _ & Hsz). cbv zeta.
  split_and!; [done|exact H2|]. destruct (get_edges_stores _ _ ts v (rep_this is_src _ _ H2)) as [b Hb]; [rewrite Hsz; lia|].
  eexists. split; [exact Hb|]. cbn [Csr.slots]. rewrite iterate_visible. apply elem_of_nil_inv. intros [i e] Hin.
  apply visible_from_elem in Hin as (_ & Hi & Ht). rewrite Nat.sub_0_r in Hi.
  destruct (stores_delete_edge _ _ v i e ts (rep_this is_src _ _ H2) (proj1 Hv) Hi Ht Hts) as (_ & (F & HF & _) & _).
  assert (Ha : arc_of (Z.to_nat v) e ∈ orient is_src <$> unseen is_src v ts E) by (rewrite HF; by left).
  apply list_elem_of_fmap in Ha as (a & Ha & [Hn _]%list_elem_of_filter). apply Hn. split; [rewrite <- Ha; cbn; lia|].
  transitivity (a_ts (orient is_src a)); [by destruct is_src|]. by rewrite <- Ha.
Qed.

(** A loop, two parallel edges of different age and one back: of the edges of
    vertex 0 the two visible at timestamp 2 go. *)
Definition busy_ops : list edge_op :=
  [OEnsureVertexCapacity 2 2 0; OAddEdge 0 0 [int 1; int 1] 1 true; OAddEdge 0 1 [int 2; int 2] 1 true;
   OAddEdge 0 1 [int 3; int 3] 3 true; OAddEdge 1 0 [int 4; int 4] 1 true].
Definition busy := edge_run busy_ops (fresh [kInt32; kInt32] kMultiple kMultiple) [].

Lemma delete_vertex_exact_witness :
  (DeleteVertex true 0 2 busy.1).2 = Ok tt ∧
  rep (DeleteVertex true 0 2 busy.1).1 [MkArc 1 0 1 (V_ubigint 3); MkArc 0 1 3 (V_ubigint 2)].
Proof.
  destruct (delete_vertex_exact true 0 2 busy.1 busy.2) as (H1 & H2 & _).
  - apply edge_run_rep; [by intros l|apply (EdgeInit_rep (triplet [kInt32; kInt32] kMultiple kMultiple)); reflexivity|].
    unfold busy_ops. solve_allowed.
  - split; vm_compute; [discriminate|reflexivity].
  - split; vm_compute; [discriminate|reflexivity].
  - left. reflexivity.
  - split; [exact H1|exact H2].
Defined.

(** Between edges without properties the search
    compares 64 bits where there are none, and finds no parallel edge: deleting
    a vertex with two of them fails after the outgoing entry was deleted and
    before the incoming one is, and leaves the two directions with a different
    number of edges. *)
Theorem parallel_edges_diverge :
  let t := (edge_run [OEnsureVertexCapacity 2 2 0; OAddEdge 0 1 [] 1 true; OAddEdge 0 1 [] 2 true]
              (fresh [] kMultiple kMultiple) []).1 in
  let x := DeleteVertex true 0 5 t in
  x.2 = Throw InvalidArgument ∧ Csr.edge_num (out_csr_ t) = 2 ∧ Csr.edge_num (in_csr_ t) = 2 ∧
  Csr.edge_num (out_csr_ x.1) = 1 ∧ Csr.edge_num (in_csr_ x.1) = 2.
Proof. vm_compute. repeat split. Qed.
