(* ===== verification/EdgeTableRebuild.v ===== *)
(** * Changing the properties of a triplet

    Adding the first property of a triplet, or deleting its last one, builds
    both adjacency tables anew from an export of the outgoing one. *)

From stdpp Require Import gmap.
From S2P Require Import Prelude Values StringColumn Tables PropertyColumns RedoRecords CsrView MutableCsr MutableCsrSpec ImmutableCsr CsrBase EdgeSchema EdgeTable EdgeArcs EdgeStores EdgeTableSpec EdgeTableProperties.
Import EdgeTable EdgeSchema.

Section rebuild.
Context {C : Type} {HC : ColumnBase C} {HM : Memory}.
Abbreviation T := (etable C).
Implicit Types (t : T) (E : list (arc Val)).

(** Both directions have the edges, with data of type [id]. *)
Record holds t (id : DataTypeId) E : Prop := MkHolds {
  holds_out : stores (out_csr_ t) E;
  holds_in : stores (in_csr_ t) (flip <$> E);
  holds_out_type : Csr.edata (out_csr_ t) = id;
  holds_in_type : Csr.edata (in_csr_ t) = id
}.
Definition lists_of_edges (s : schema) : Prop :=
  oe_mutable s = true ∧ ie_mutable s = true ∧ oe_strategy s = kMultiple ∧ ie_strategy s = kMultiple.

(** The edges with new data, at the oldest timestamp. *)
Definition with_value (d : Val) (a : arc Val) : arc Val := MkArc (a_src a) (a_dst a) 0 d.

Lemma stores_range c E a : stores c E → a ∈ E → 0 ≤ a_src a < Csr.size c.
Proof.
  intros (m & Hb & _ & HE) Ha. rewrite <- HE in Ha. apply arcs_from_source in Ha. unfold Csr.size. rewrite Hb, <- length_lists. cbn in Ha. lia.
Qed.

Lemma stores_export c E :
  stores c E → ∃ F, F ≡ₚ E ∧ Csr.batch_export c = Ok ((λ a, (a_src a, a_dst a, a_data a)) <$> F).
Proof. intros (m & Hb & _ & HE). exists (arcs (lists m)). split; [done|]. unfold Csr.batch_export. by rewrite Hb, export_arcs. Qed.

Lemma new_csrs_spec id t E E' :
  lists_of_edges (meta_ t) → Csr.inline_type id = true → stores (out_csr_ t) E → stores (in_csr_ t) E' →
  ∃ o i, new_csrs id t = Ok (o, i) ∧ stores o [] ∧ stores i [] ∧ Csr.edata o = id ∧ Csr.edata i = id ∧
    Csr.size o = Csr.size (out_csr_ t) ∧ Csr.size i = Csr.size (in_csr_ t) ∧
    ∀ k, k ≤ max_reservable → takes o k ∧ takes i k.
Proof.
  intros (H1 & H2 & H3 & H4) Hty Ho Hi. unfold new_csrs, Csr.create_csr, Csr.create_csr_impl. rewrite H1, H2, H3, H4, Hty. cbn [mbind res_bind].
  assert (Hpos : ∀ c F, stores c F → 0 ≤ Csr.size c).
  { intros c F (m & Hb & _). unfold Csr.size. rewrite Hb. unfold MutableCsr.vertex_capacity. lia. }
  set (c0 := Csr.MkCsr id (Csr.Mutable MutableCsr.empty_csr)).
  destruct (stores_resize c0 [] (Csr.size (out_csr_ t)) (stores_empty id) (Hpos _ _ Ho)) as (O1 & O2 & O3 & O4 & O5).
  destruct (stores_resize c0 [] (Csr.size (in_csr_ t)) (stores_empty id) (Hpos _ _ Hi)) as (I1 & I2 & I3 & I4 & I5).
  eexists _, _. unfold built. rewrite O1, I1. split_and!; [reflexivity|done..|].
  intros k Hk. split; [apply O5|apply I5]; try done; constructor.
Qed.

(** Putting the edges of an export into new tables. *)
Lemma rebuilt id d t E F :
  lists_of_edges (meta_ t) → Csr.inline_type id = true → stores (out_csr_ t) E → stores (in_csr_ t) (flip <$> E) → F ≡ₚ E → len E ≤ max_reservable →
  let edges := (λ a, (a_src a, a_dst a)) <$> F in
  ∃ o0 i0 o i, new_csrs id t = Ok (o0, i0) ∧
    Csr.batch_put_edges id ((λ p, (p.1, p.2, d)) <$> edges) 0 o0 = (o, Ok tt) ∧
    Csr.batch_put_edges id ((λ p, (p.1, p.2, d)) <$> (swap <$> edges)) 0 i0 = (i, Ok tt) ∧
    stores o (with_value d <$> E) ∧ stores i (flip <$> (with_value d <$> E)) ∧ Csr.edata o = id ∧ Csr.edata i = id ∧
    Csr.size o = Csr.size (out_csr_ t) ∧ Csr.size i = Csr.size (in_csr_ t).
Proof.
  intros Hl Hty Ho Hi HF Hmax edges.
  destruct (new_csrs_spec id t E _ Hl Hty Ho Hi) as (o0 & i0 & Hn & So & Si & To & Ti & Zo & Zi & Hk).
  assert (Hlen : len edges ≤ max_reservable) by (unfold edges; by rewrite length_fmap, HF).
  destruct (Hk _ Hlen) as [Ko Ki].
  destruct (stores_batch_put o0 [] ((λ p, (p.1, p.2, d)) <$> edges) id So To) as (B1 & B2 & B3 & B4).
  { by rewrite length_fmap. }
  { unfold edges. rewrite !Forall_fmap. apply Forall_forall. intros a Ha. cbn. rewrite Zo. eapply stores_range; [exact Ho|]. by rewrite <- HF. }
  destruct (stores_batch_put i0 [] ((λ p, (p.1, p.2, d)) <$> (swap <$> edges)) id Si Ti) as (D1 & D2 & D3 & D4).
  { by rewrite !length_fmap. }
  { unfold edges. rewrite !Forall_fmap. apply Forall_forall. intros a Ha. cbn. rewrite Zi. apply (stores_range _ _ (flip a) Hi).
    apply list_elem_of_fmap_2. by rewrite <- HF. }
  exists o0, i0, (Csr.batch_put_edges id ((λ p, (p.1, p.2, d)) <$> edges) 0 o0).1,
    (Csr.batch_put_edges id ((λ p, (p.1, p.2, d)) <$> (swap <$> edges)) 0 i0).1.
  split_and!; [done|rewrite <- B1; apply surjective_pairing|rewrite <- D1; apply surjective_pairing| | |congruence|congruence|congruence|congruence].
  - assert (HE : [] ++ (new_arc 0 <$> ((λ p, (p.1, p.2, d)) <$> edges)) = with_value d <$> F)
      by (unfold edges; cbn [app]; by rewrite <- !list_fmap_compose).
    rewrite HE in B2. by rewrite <- HF.
  - assert (HE : [] ++ (new_arc 0 <$> ((λ p, (p.1, p.2, d)) <$> (swap <$> edges))) = flip <$> (with_value d <$> F))
      by (unfold edges; cbn [app]; by rewrite <- !list_fmap_compose).
    rewrite HE in D2. by rewrite <- HF.
Qed.

Lemma ends_fmap F : ends ((λ a, (a_src a, a_dst a, a_data a)) <$> F) = (λ a, (a_src a, a_dst a)) <$> F.
Proof. unfold ends. by rewrite <- list_fmap_compose. Qed.
Lemma swapped (d : Val) (l : list (Z * Z)) : (λ p, (p.1, p.2, d)) <$> (swap <$> l) = (λ p, (p.2, p.1, d)) <$> l.
Proof. by rewrite <- list_fmap_compose. Qed.
Lemma export_ends t F : Csr.batch_export (out_csr_ t) = Ok ((λ a, (a_src a, a_dst a, a_data a)) <$> F) →
  ends <$> Csr.batch_export (out_csr_ t) = Ok ((λ a, (a_src a, a_dst a)) <$> F).
Proof. intros ->. cbn. by rewrite ends_fmap. Qed.

Lemma put_default edges ty v d c :
  Csr.inline_type ty = true → Csr.GetEData ty v = Some d →
  batch_put_edges_with_default_edata edges ty v c = Csr.batch_put_edges ty ((λ p, (p.1, p.2, d)) <$> edges) 0 c.
Proof. intros H1 H2. unfold batch_put_edges_with_default_edata. by rewrite H1, H2. Qed.

(** When the last property of a bundled triplet is deleted, the edges stay in
    both directions, without data. *)
Theorem last_property_keeps_edges t E n ns cols :
  stores (out_csr_ t) E → stores (in_csr_ t) (flip <$> E) → lists_of_edges (meta_ t) → len E ≤ max_reservable → is_bundled (meta_ t) = true →
  property_names (meta_ t) = n :: ns → n ∈ cols →
  let x := DeleteProperties cols t in x.2 = Ok tt ∧ holds x.1 kEmpty (with_value V_none <$> E) ∧ table_idx_ x.1 = 0.
Proof.
  intros Ho Hi Hl Hmax Hb Hn Hin. unfold DeleteProperties. rewrite get_then, Hb, Hn, bool_decide_true by done.
  destruct (stores_export _ _ Ho) as (F & HF & Hex).
  set (t0 := set_capacity 0 (set_table_idx 0 t)).
  destruct (rebuilt kEmpty V_none t0 E F) as (o0 & i0 & o & i & R1 & R2 & R3 & R4 & R5 & R6 & R7 & _); [done..|].
  assert (Hx : dropAndCreateNewUnbundledCSR true false t = (set_in i (set_out o t0), Ok tt)).
  { unfold dropAndCreateNewUnbundledCSR. cbn [negb andb]. unfold mbind at 1, st_bind at 1, mret, st_ret. rewrite get_then.
    unfold mbind at 1, st_bind at 1. rewrite update_then. unfold update at 1. fold t0. rewrite Hex, lift_then.
    unfold mbind at 1, st_bind at 1. rewrite get_then. unfold mbind at 1, st_bind at 1. rewrite get_then.
    rewrite R1, ends_fmap. cbn [mbind res_bind]. unfold built. rewrite R2, <- swapped, R3. done. }
  cbv zeta. rewrite Hx. split_and!; [done|by split|done].
Qed.
End rebuild.

(** C15: When the first property, of a type kept in the lists, is
    added to a triplet whose two directions are mutable tables of lists (both
    strategies [kMultiple], both mutable; a triplet that keeps only incoming edges is
    excluded, it loses them: [only_in_rebuild_loses]) with at most [max_reservable]
    edges, both adjacency tables are built anew from an export of the
    outgoing one: every edge is still there, once and in both directions, with
    the default value of the property and the oldest timestamp, and no vertex is lost. *)
Theorem first_property_keeps_edges {C} {HC : ColumnBase C} {HM : Memory} (t : etable C) (E : list (arc Val)) p ps v vs d names types defaults :
  stores (out_csr_ t) E → stores (in_csr_ t) (flip <$> E) → lists_of_edges (meta_ t) → len E ≤ max_reservable → is_bundled (meta_ t) = true →
  properties (meta_ t) = p :: ps → default_property_values (meta_ t) = v :: vs → Csr.inline_type (id_ p) = true →
  Csr.GetEData (id_ p) v = Some d → Table.columns_ (table_ t) = [] → names ≠ [] →
  let x := AddProperties names types defaults t in
  x.2 = Ok tt ∧ rep x.1 (with_value d <$> E) ∧ EdgeNum x.1 = EdgeNum t ∧
  Csr.size (out_csr_ x.1) = Csr.size (out_csr_ t) ∧ Csr.size (in_csr_ x.1) = Csr.size (in_csr_ t).
Proof.
  intros Ho Hi Hl Hmax Hb Hp Hv Hty Hd Hcols Hnames. destruct (stores_export _ _ Ho) as (F & HF & Hex).
  destruct (rebuilt (id_ p) d t E F) as (o0 & i0 & o & i & R1 & R2 & R3 & R4 & R5 & R6 & R7 & R8 & R9); [done..|].
  set (t0 := set_capacity 0 (set_table_idx 0 (set_table empty_table t))).
  assert (Hx : AddProperties names types defaults t = (set_in i (set_out o t0), Ok tt)).
  { unfold AddProperties. destruct names; [done|]. rewrite get_then, Hcols, Hb. unfold dropAndCreateNewBundledCSR.
    rewrite get_then, Hp. cbn [head of_option fmap res_fmap]. rewrite lift_then, R1, lift_then, (export_ends _ _ Hex), lift_then, Hv.
    cbn [head of_option mbind res_bind]. rewrite !(put_default _ _ _ _ _ Hty Hd). rewrite R2, R3. cbn [built fst snd]. done. }
  cbv zeta. rewrite Hx. cbn [fst snd]. split_and!; [done| | |exact R8|exact R9].
  - assert (Hed : edata_type (meta_ t) = id_ p) by (unfold edata_type, bundled_type; by rewrite Hb, Hp).
    split; cbn; [done|done|congruence|congruence|congruence].
  - unfold EdgeNum. cbn [out_csr_ set_in set_out]. rewrite (stores_edge_num _ _ R4), (stores_edge_num _ _ Ho), length_fmap.
    destruct R4 as (m & -> & _). by destruct Ho as (m' & -> & _).
Qed.

#[local] Existing Instance zeroed.
#[local] Existing Instance plain_columns.

(** Two parallel edges without data, then a property with default 9. *)
Definition bare := edge_run [OEnsureVertexCapacity 2 2 0; OAddEdge 0 1 [] 1 true; OAddEdge 0 1 [] 2 true]
  (fresh [] kMultiple kMultiple) [].
Definition grown : schema :=
  MkSchema [[97]] [MkDataType kInt32 None] [int 9] [false] true true kMultiple kMultiple.

Lemma first_property_keeps_edges_witness :
  let x := AddProperties [[97]] [MkDataType kInt32 None] [int 9] (SetEdgeSchema grown bare.1) in
  x.2 = Ok tt ∧ rep x.1 [MkArc 0 1 0 (V_integer 9); MkArc 0 1 0 (V_integer 9)] ∧ EdgeNum x.1 = 2.
Proof.
  assert (Hb : rep bare.1 bare.2).
  { apply edge_run_rep; [by intros l|apply (EdgeInit_rep (triplet [] kMultiple kMultiple)); reflexivity|]. solve_allowed. }
  destruct (first_property_keeps_edges (SetEdgeSchema grown bare.1) bare.2 (MkDataType kInt32 None) [] (int 9) [] (V_integer 9)
    [[97]] [MkDataType kInt32 None] [int 9]) as (H1 & H2 & H3 & _).
  - apply Hb.
  - apply Hb.
  - repeat split.
  - vm_compute. discriminate.
  - reflexivity.
  - reflexivity.
  - reflexivity.
  - reflexivity.
  - reflexivity.
  - vm_compute. reflexivity.
  - discriminate.
  - split_and!; [exact H1|exact H2|]. etrans; [exact H3|]. vm_compute. reflexivity.
Defined.

(** A triplet that keeps only incoming edges exports none: the same change of
    its properties leaves it without edges, and no error. *)
Theorem only_in_rebuild_loses :
  let t := (edge_run [OEnsureVertexCapacity 2 2 0; OAddEdge 0 1 [] 1 true] (fresh [] kNone kMultiple) []).1 in
  let s := MkSchema [[97]] [MkDataType kInt32 None] [int 9] [false] true true kNone kMultiple in
  let x := AddProperties [[97]] [MkDataType kInt32 None] [int 9] (SetEdgeSchema s t) in
  EdgeNum t = 1 ∧ x.2 = Ok tt ∧ EdgeNum x.1 = 0.
Proof. vm_compute. repeat split. Qed.

