(* ===== verification/PropertyGraph.v ===== *)
(** * The property graph

    PropertyGraph (src/storages/graph/property_graph.cc): the schema, a table per
    vertex label and a table per edge triplet, and the operations that keep
    them together.  A vertex table is used through its functions, an interface
    here: labels differ in the types of their keys. *)

From stdpp Require Import gmap.
From S2P Require Import Prelude Values StringColumn Tables PropertyColumns RedoRecords VertexTable CsrBase EdgeSchema EdgeTable LabelIndexer SchemaLabels DirtyTracker.
Import EdgeTable.

(** ** Vertex tables *)

(** [vt_share_schema] is no call: the table reads the schema object of its label,
    and sees the changes made to it. *)
Class VertexTables (V : Type) := {
  vt_Init : Schema.VertexSchema → res V;
  vt_Capacity : V → Z;
  vt_LidNum : V → Z;
  vt_VertexNum : Z → V → Z;
  vt_IsValidLid : Z → Z → V → bool;
  vt_get_index : Value → Z → V → res (option Z);
  vt_GetOid : Z → Z → V → res Value;
  vt_indices : KeyedIndexer.key_column → V → res (list Z);
  vt_EnsureCapacity : Z → st V Z;
  vt_AddVertex : Value → list Value → Z → bool → st V (option Z);
  vt_UpdateProperty : Z → Z → Value → Z → st V bool;
  vt_DeleteVertex : Z → Z → st V unit;
  vt_BatchDeleteVertices : list Z → st V unit;
  vt_insert_vertices : Z → list (list KeyedIndexer.key_column) → st V (list Z);
  vt_AddProperties : list name → list DataType → list Value → st V unit;
  vt_RenameProperties : list name → list name → st V unit;
  vt_DeleteProperties : list name → st V unit;
  vt_share_schema : Schema.VertexSchema → V → V;
  vt_Close : V → V
}.

(** The codes of a [Status]; exceptions are not among them. *)
Inductive Status := OK | ERR_INVALID_ARGUMENT | ERR_SCHEMA_MISMATCH.

Module PropertyGraph.

Record graph (V C : Type) := MkGraph {
  schema_ : Schema.schema;
  vertex_tables_ : list V;
  edge_tables_ : gmap Z (etable C);
  dirty_ : DirtyTracker.t;
  uncompacted_modules_ : DirtyTracker.t;
  vertex_label_total_count_ : Z;
  edge_label_total_count_ : Z
}.
Arguments MkGraph {V C}. Arguments schema_ {V C}. Arguments vertex_tables_ {V C}. Arguments edge_tables_ {V C}.
Arguments dirty_ {V C}. Arguments uncompacted_modules_ {V C}. Arguments vertex_label_total_count_ {V C}. Arguments edge_label_total_count_ {V C}.

Section operations.
Context {V C : Type} `{!VertexTables V} `{!ColumnBase C} `{!Memory}.
Abbreviation G := (graph V C).
Implicit Types (g : G).

Definition set_schema x g : G := MkGraph x (vertex_tables_ g) (edge_tables_ g) (dirty_ g) (uncompacted_modules_ g) (vertex_label_total_count_ g) (edge_label_total_count_ g).
Definition set_vertex_tables x g : G := MkGraph (schema_ g) x (edge_tables_ g) (dirty_ g) (uncompacted_modules_ g) (vertex_label_total_count_ g) (edge_label_total_count_ g).
Definition set_edge_tables x g : G := MkGraph (schema_ g) (vertex_tables_ g) x (dirty_ g) (uncompacted_modules_ g) (vertex_label_total_count_ g) (edge_label_total_count_ g).
Definition set_dirty x g : G := MkGraph (schema_ g) (vertex_tables_ g) (edge_tables_ g) x (uncompacted_modules_ g) (vertex_label_total_count_ g) (edge_label_total_count_ g).
Definition set_uncompacted x g : G := MkGraph (schema_ g) (vertex_tables_ g) (edge_tables_ g) (dirty_ g) x (vertex_label_total_count_ g) (edge_label_total_count_ g).
Definition set_vertex_count n g : G := MkGraph (schema_ g) (vertex_tables_ g) (edge_tables_ g) (dirty_ g) (uncompacted_modules_ g) n (edge_label_total_count_ g).
Definition set_edge_count n g : G := MkGraph (schema_ g) (vertex_tables_ g) (edge_tables_ g) (dirty_ g) (uncompacted_modules_ g) (vertex_label_total_count_ g) n.

Definition empty_graph : G := MkGraph Schema.empty_schema [] ∅ DirtyTracker.fresh DirtyTracker.fresh 0 0.

Definition with_schema {A} (m : st Schema.schema A) : st G A := on schema_ set_schema m.
(** [vertex_tables_[label]] and [edge_tables_.at(index)]. *)
Definition with_vertex {A} (label : Z) (m : st V A) : st G A := λ g,
  match vertex_tables_ g !! Z.to_nat label with
  | None => (g, Throw OutOfBounds)
  | Some v => let '(v, r) := m v in (set_vertex_tables (<[Z.to_nat label := v]> (vertex_tables_ g)) g, r)
  end.
Definition with_edge {A} (index : Z) (m : st (etable C) A) : st G A := λ g,
  match edge_tables_ g !! index with
  | None => (g, Throw OutOfBounds)
  | Some t => let '(t, r) := m t in (set_edge_tables (<[index := t]> (edge_tables_ g)) g, r)
  end.
Definition has_table (index : Z) g : bool := bool_decide (is_Some (edge_tables_ g !! index)).

Definition emplace_edge_table (index : Z) (t : etable C) g : G :=
  set_uncompacted (DirtyTracker.AddEdgeSlot index false (uncompacted_modules_ g))
    (set_dirty (DirtyTracker.AddEdgeSlot index false (dirty_ g))
       (if has_table index g then g else set_edge_tables (<[index := t]> (edge_tables_ g)) g)).
Definition erase_edge_table (index : Z) g : G :=
  set_uncompacted (DirtyTracker.EraseEdgeSlot index (uncompacted_modules_ g))
    (set_dirty (DirtyTracker.EraseEdgeSlot index (dirty_ g)) (set_edge_tables (delete index (edge_tables_ g)) g)).

Definition MarkVertexTableDirty (label : Z) g : G := set_dirty (DirtyTracker.MarkVertex label (dirty_ g)) g.
Definition MarkEdgeTableDirty (src dst edge : Z) : st G unit :=
  on dirty_ set_dirty (DirtyTracker.MarkEdge (Schema.generate_edge_label src dst edge)).

(** [RETURN_IF_NOT_OK]. *)
Definition vertex_label_check (label : Z) g : bool := Schema.is_vertex_label_valid label (schema_ g).
Definition edge_triplet_check (src dst edge : Z) g : bool :=
  vertex_label_check src g && vertex_label_check dst g && Schema.is_edge_triplet_valid src dst edge (schema_ g).
Definition checked (b : G → bool) (m : st G Status) : st G Status :=
  g ← get_state; if b g then m else mret ERR_INVALID_ARGUMENT.

(** The label ids below a count. *)
Definition labels (n : Z) : list Z := seqZ 0 n.

(** ** Capacity *)

Definition SyncIncidentEdgeCapacity (v_label : Z) : st G Status :=
  g ← get_state;
  if negb (vertex_label_check v_label g) then mret ERR_INVALID_ARGUMENT
  else
    v ← lift_res (of_option OutOfBounds (vertex_tables_ g !! Z.to_nat v_label));
    let v_capacity := vt_Capacity v in
    for_each (labels (vertex_label_total_count_ g)) (λ dst_label,
      if negb (vertex_label_check dst_label g) then mret tt
      else for_each (labels (edge_label_total_count_ g)) (λ e_label,
        d ← lift_res (of_option OutOfBounds (vertex_tables_ g !! Z.to_nat dst_label));
        let index := Schema.generate_edge_label v_label dst_label e_label in
        (if has_table index g then
           with_edge index (EnsureVertexCapacity v_capacity (vt_Capacity d) 0);;
           MarkEdgeTableDirty v_label dst_label e_label
         else mret tt);;
        if negb (v_label =? dst_label) then
          let index := Schema.generate_edge_label dst_label v_label e_label in
          if has_table index g then
            with_edge index (EnsureVertexCapacity (vt_Capacity d) v_capacity 0);;
            MarkEdgeTableDirty dst_label v_label e_label
          else mret tt
        else mret tt));;
    mret OK.
Definition EnsureCapacity (v_label capacity : Z) : st G Status :=
  g ← get_state;
  if vertex_label_check v_label g then
    v ← lift_res (of_option OutOfBounds (vertex_tables_ g !! Z.to_nat v_label));
    if capacity <=? vt_Capacity v then mret OK
    else with_vertex v_label (vt_EnsureCapacity capacity);; SyncIncidentEdgeCapacity v_label
  else mret ERR_INVALID_ARGUMENT.
Definition EnsureEdgeCapacity (src dst edge capacity : Z) : st G Status :=
  g ← get_state;
  if negb (Schema.is_edge_triplet_valid src dst edge (schema_ g)) then mret ERR_INVALID_ARGUMENT
  else
    match edge_tables_ g !! Schema.generate_edge_label src dst edge with
    | None => mret ERR_INVALID_ARGUMENT
    | Some t =>
        if capacity <=? EdgeTable.Capacity t then mret OK
        else with_edge (Schema.generate_edge_label src dst edge) (EdgeTable.EnsureCapacity capacity);; mret OK
    end.
Definition EnsureTripletCapacity (src dst edge src_v_cap dst_v_cap capacity : Z) : st G Status :=
  g ← get_state;
  if negb (Schema.is_edge_triplet_valid src dst edge (schema_ g)) then mret ERR_INVALID_ARGUMENT
  else if negb (has_table (Schema.generate_edge_label src dst edge) g) then mret ERR_INVALID_ARGUMENT
  else with_edge (Schema.generate_edge_label src dst edge) (EnsureVertexCapacity src_v_cap dst_v_cap capacity);; mret OK.

(** ** Types of vertices and edges *)

Definition key_type_ok (id : DataTypeId) : bool :=
  match id with kInt64 | kVarchar | kUInt64 | kInt32 | kUInt32 => true | _ => false end.

(** [vertex_tables_[id].Swap(fresh)], or a new last one. *)
Definition put_vertex_table (id : Z) (v : V) g : G :=
  set_vertex_tables (if id <? Z.of_nat (length (vertex_tables_ g)) then <[Z.to_nat id := v]> (vertex_tables_ g)
                     else vertex_tables_ g ++ [v]) g.

Definition CreateVertexType (config : CreateVertexTypeParam) : st G Status :=
  g ← get_state;
  if Schema.is_vertex_name_valid (vertex_label_name config) (schema_ g) then mret ERR_SCHEMA_MISMATCH
  else match primary_key_names config with
    | [pk] =>
        let names := (cv_properties config).*1 in
        let values := (cv_properties config).*2 in
        match list_find (pk =.) names with
        | None => mret ERR_INVALID_ARGUMENT
        | Some (ind, _) =>
            ty ← lift_res (of_option OutOfBounds (type_ <$> values !! ind));
            if negb (key_type_ok (id_ ty)) then mret ERR_INVALID_ARGUMENT
            else
              let v := Schema.MkVertexSchema (vertex_label_name config) (type_ <$> delete ind values) (delete ind names)
                         [(ty, pk, Z.of_nat ind)] (delete ind values) ((λ _, false) <$> delete ind names) (cv_temporary config) in
              with_schema (Schema.AddVertexLabel (vertex_label_name config) v);;
              g ← get_state;
              id ← lift_res (Schema.get_vertex_label_id (vertex_label_name config) (schema_ g));
              fresh_vt ← lift_res (vt_Init v);
              update (put_vertex_table id fresh_vt);;
              update (λ g, set_dirty (DirtyTracker.SetVertex id false (dirty_ g)) g);;
              with_vertex id (vt_EnsureCapacity 4096);;
              update (λ g, set_vertex_count (Schema.vertex_label_frontier (schema_ g)) g);;
              mret OK
        end
    | _ => mret ERR_INVALID_ARGUMENT
    end.

Definition CreateEdgeType (config : CreateEdgeTypeParam) : st G Status :=
  g ← get_state;
  let src_name := src_label_name config in
  let dst_name := dst_label_name config in
  let edge_name := RedoRecords.edge_label_name config in
  if negb (Schema.is_vertex_name_valid src_name (schema_ g)) then mret ERR_INVALID_ARGUMENT
  else if negb (Schema.is_vertex_name_valid dst_name (schema_ g)) then mret ERR_INVALID_ARGUMENT
  else
    has ← lift_res (Schema.has_edge_triplet_name src_name dst_name edge_name (schema_ g));
    if has : bool then mret ERR_SCHEMA_MISMATCH
    else
      src ← lift_res (Schema.get_vertex_label_id src_name (schema_ g));
      dst ← lift_res (Schema.get_vertex_label_id dst_name (schema_ g));
      if (Schema.is_vertex_label_temporary src (schema_ g) || Schema.is_vertex_label_temporary dst (schema_ g)) && negb (ce_temporary config)
      then mret ERR_INVALID_ARGUMENT
      else
        let names := (ce_properties config).*1 in
        let values := (ce_properties config).*2 in
        let e := EdgeSchema.MkSchema names (type_ <$> values) values ((λ _, false) <$> names) true true
                   (oe_edge_strategy config) (ie_edge_strategy config) in
        with_schema (Schema.AddEdgeLabel src_name dst_name edge_name e (ce_temporary config));;
        update (λ g, set_edge_count (Schema.edge_label_frontier (schema_ g)) g);;
        g ← get_state;
        src ← lift_res (Schema.get_vertex_label_id src_name (schema_ g));
        dst ← lift_res (Schema.get_vertex_label_id dst_name (schema_ g));
        edge ← lift_res (Schema.get_edge_label_id edge_name (schema_ g));
        let index := Schema.generate_edge_label src dst edge in
        if has_table index g then mret ERR_INVALID_ARGUMENT
        else
          x ← lift_res (of_option OutOfBounds (Schema.e_schemas_ (schema_ g) !! index));
          fresh_et ← lift_res (Init (Schema.body x));
          update (emplace_edge_table index fresh_et);;
          vs ← lift_res (of_option OutOfBounds (vertex_tables_ g !! Z.to_nat src));
          vd ← lift_res (of_option OutOfBounds (vertex_tables_ g !! Z.to_nat dst));
          with_edge index (EnsureVertexCapacity (Z.max (vt_Capacity vs) 4096) (Z.max (vt_Capacity vd) 4096) 4096);;
          mret OK.

Definition DeleteEdgeType (src dst edge : Z) : st G Status :=
  let index := Schema.generate_edge_label src dst edge in
  with_schema (Schema.DeleteEdgeLabel src dst edge false);;
  update (λ g, if has_table index g then erase_edge_table index g else g);;
  mret OK.

(** One triplet of the loop of [DeleteVertexType]. *)
Definition drop_triplet (src dst edge : Z) : st G unit :=
  g ← get_state;
  if Schema.is_edge_triplet_valid src dst edge (schema_ g) then
    with_schema (Schema.DeleteEdgeLabel src dst edge false);;
    let index := Schema.generate_edge_label src dst edge in
    update (λ g, if has_table index g then erase_edge_table index g else g)
  else mret tt.
Definition DeleteVertexType (v_label_id : Z) : st G Status :=
  g0 ← get_state;
  for_each (labels (vertex_label_total_count_ g0)) (λ i,
    g ← get_state;
    if negb (Schema.is_vertex_label_valid i (schema_ g)) then mret tt
    else for_each (labels (edge_label_total_count_ g0)) (λ j,
      g ← get_state;
      if negb (Schema.is_edge_label_valid j (schema_ g)) then mret tt
      else drop_triplet v_label_id i j;; drop_triplet i v_label_id j));;
  with_schema (Schema.DeleteVertexLabel v_label_id false);;
  with_vertex v_label_id (update vt_Close);;
  update (λ g, set_dirty (DirtyTracker.SetVertex v_label_id false (dirty_ g)) g);;
  mret OK.

(** ** Vertices *)

Definition IsValidLid (label lid ts : Z) g : res bool :=
  _ ← Schema.ensure_vertex_label_valid label (schema_ g);
  vt_IsValidLid lid ts <$> of_option OutOfBounds (vertex_tables_ g !! Z.to_nat label).
Definition LidNum (label : Z) g : res Z :=
  _ ← Schema.ensure_vertex_label_valid label (schema_ g);
  vt_LidNum <$> of_option OutOfBounds (vertex_tables_ g !! Z.to_nat label).
Definition VertexNum (label ts : Z) g : res Z :=
  _ ← Schema.ensure_vertex_label_valid label (schema_ g);
  vt_VertexNum ts <$> of_option OutOfBounds (vertex_tables_ g !! Z.to_nat label).
Definition get_lid (label : Z) (oid : Value) (ts : Z) g : res (option Z) :=
  _ ← Schema.ensure_vertex_label_valid label (schema_ g);
  v ← of_option OutOfBounds (vertex_tables_ g !! Z.to_nat label); vt_get_index oid ts v.
Definition GetOid (label lid ts : Z) g : res Value :=
  v ← of_option OutOfBounds (vertex_tables_ g !! Z.to_nat label); vt_GetOid lid ts v.

Definition AddVertex (label : Z) (id : Value) (props : list Value) (ts : Z) (insert_safe : bool) : st G (Status * option Z) :=
  g ← get_state;
  if negb (vertex_label_check label g) then mret (ERR_INVALID_ARGUMENT, None)
  else
    r ← with_vertex label (vt_AddVertex id props ts insert_safe);
    mret (match r with Some _ => OK | None => ERR_INVALID_ARGUMENT end, r).
Definition BatchAddVertices (label row_nums : Z) (chunks : list (list KeyedIndexer.key_column)) : st G (Status * list Z) :=
  g ← get_state;
  if negb (vertex_label_check label g) then mret (ERR_INVALID_ARGUMENT, [])
  else
    update (MarkVertexTableDirty label);;
    vids ← with_vertex label (vt_insert_vertices row_nums chunks);
    mret (OK, vids).
Definition UpdateVertexProperty (label vid prop_id : Z) (value : Value) (ts : Z) : st G Status :=
  checked (vertex_label_check label) (
    r ← with_vertex label (vt_UpdateProperty vid prop_id value ts);
    mret (if r : bool then OK else ERR_INVALID_ARGUMENT)).

(** The edge tables at a label, in the order of the two loops: as destination
    and as source. *)
Definition at_label (label : Z) (body : bool → st (etable C) unit) : st G unit :=
  g ← get_state;
  for_each (labels (vertex_label_total_count_ g)) (λ i,
    if negb (Schema.is_vertex_label_valid i (schema_ g)) then mret tt
    else for_each (labels (edge_label_total_count_ g)) (λ j,
      (if Schema.has_edge_triplet i label j (schema_ g)
       then with_edge (Schema.generate_edge_label i label j) (body false) else mret tt);;
      (if Schema.has_edge_triplet label i j (schema_ g)
       then with_edge (Schema.generate_edge_label label i j) (body true) else mret tt))).

Definition BatchDeleteVertices (label : Z) (vids : list Z) : st G Status :=
  checked (vertex_label_check label) (
    with_vertex label (vt_BatchDeleteVertices vids);;
    let vids_set : gset Z := list_to_set vids in
    at_label label (λ is_src, if is_src then EdgeTable.BatchDeleteVertices vids_set ∅ else EdgeTable.BatchDeleteVertices ∅ vids_set);;
    mret OK).

Definition DeleteVertex (label lid ts : Z) : st G Status :=
  checked (vertex_label_check label) (
    g ← get_state;
    valid ← lift_res (IsValidLid label lid ts g);
    if negb valid then mret OK
    else
      at_label label (λ is_src, EdgeTable.DeleteVertex is_src lid ts);;
      with_vertex label (vt_DeleteVertex lid ts);;
      mret OK).
Definition DeleteVertexByOid (label : Z) (oid : Value) (ts : Z) : st G Status :=
  checked (vertex_label_check label) (
    g ← get_state;
    v ← lift_res (of_option OutOfBounds (vertex_tables_ g !! Z.to_nat label));
    lid ← lift_res (vt_get_index oid ts v);
    match lid with None => mret OK | Some lid => DeleteVertex label lid ts end).

(** ** Edges *)

(** A call that throws becomes an error status; what is no exception does not. *)
Definition is_exception (e : exn) : bool :=
  match e with OutOfBounds | CheckFailed | Diverges => false | _ => true end.
Definition caught {A} (m : st G A) (ok : A → Status * option A) : st G (Status * option A) := λ g,
  match m g with
  | (g, Ok a) => (g, Ok (ok a))
  | (g, Throw e) => if is_exception e then (g, Ok (ERR_INVALID_ARGUMENT, None)) else (g, Throw e)
  end.
Definition AddEdge (src_label src_lid dst_label dst_lid edge_label : Z) (props : list Value) (ts : Z) (insert_safe : bool)
    : st G (Status * option Z) :=
  g ← get_state;
  let index := Schema.generate_edge_label src_label dst_label edge_label in
  if negb (edge_triplet_check src_label dst_label edge_label g) then mret (ERR_INVALID_ARGUMENT, None)
  else if negb (has_table index g) then mret (ERR_INVALID_ARGUMENT, None)
  else caught (with_edge index (EdgeTable.AddEdge src_lid dst_lid props ts insert_safe)) (λ o, (OK, Some o)).

Definition on_triplet (src dst edge : Z) (m : st (etable C) unit) : st G Status :=
  checked (edge_triplet_check src dst edge) (with_edge (Schema.generate_edge_label src dst edge) m;; mret OK).
(** The same, after a look whether there is a table. *)
Definition on_table (src dst edge : Z) (m : st (etable C) unit) : st G Status :=
  checked (edge_triplet_check src dst edge) (
    checked (has_table (Schema.generate_edge_label src dst edge)) (with_edge (Schema.generate_edge_label src dst edge) m;; mret OK)).
Definition DeleteEdge (src src_lid dst dst_lid edge oe_offset ie_offset ts : Z) : st G Status :=
  on_table src dst edge (EdgeTable.DeleteEdge src_lid dst_lid oe_offset ie_offset ts).
Definition UpdateEdgeProperty (src src_lid dst dst_lid edge oe_offset ie_offset prop_id : Z) (value : Value) (ts : Z) : st G Status :=
  on_table src dst edge (EdgeTable.UpdateEdgeProperty src_lid dst_lid oe_offset ie_offset prop_id value ts).
Definition BatchDeleteEdges (src dst edge : Z) (edges : list (Z * Z)) : st G Status :=
  on_triplet src dst edge (EdgeTable.BatchDeleteEdges edges.*1 edges.*2).
Definition BatchDeleteEdgesOffsets (src dst edge : Z) (oe_edges ie_edges : list (Z * Z)) : st G Status :=
  on_triplet src dst edge (EdgeTable.BatchDeleteEdgesOffsets oe_edges ie_edges).
Definition BatchAddEdges (src dst edge : Z) (chunks : list edge_chunk) : st G Status :=
  checked (edge_triplet_check src dst edge) (
    MarkEdgeTableDirty src dst edge;;
    g ← get_state;
    vs ← lift_res (of_option OutOfBounds (vertex_tables_ g !! Z.to_nat src));
    vd ← lift_res (of_option OutOfBounds (vertex_tables_ g !! Z.to_nat dst));
    with_edge (Schema.generate_edge_label src dst edge)
      (BatchAddEdgesFrom (vt_Capacity vs) (vt_Capacity vd) (λ c, vt_indices c vs) (λ c, vt_indices c vd) chunks);;
    mret OK).
Definition EdgeNum (src edge dst : Z) g : Z :=
  match edge_tables_ g !! Schema.generate_edge_label src dst edge with Some t => EdgeTable.EdgeNum t | None => 0 end.
End operations.
End PropertyGraph.
