(* ===== verification/GraphColumns.v ===== *)
(** * Changing the properties of a property graph

    AddVertexProperties, AddEdgeProperties and their renaming and deleting
    siblings (src/storages/graph/property_graph.cc).  A table holds a pointer to
    the schema object of its label or triplet: what the schema changes, the table
    sees at once ([shared_vertex], [shared_edge]). *)

From stdpp Require Import gmap.
From S2P Require Import Prelude Values StringColumn Tables PropertyColumns RedoRecords VertexTable CsrView CsrBase EdgeSchema LabelIndexer SchemaLabels SchemaColumns DirtyTracker EdgeTable PropertyGraph.
Import EdgeTable PropertyGraph.

Module GraphColumns.
Section operations.
Context {V C : Type} `{!VertexTables V} `{!ColumnBase C} `{!Memory} (get_default_value : DataType → Value).
Abbreviation G := (graph V C).
Implicit Types (g : G).

(** A change of the schema that the table of the label, or of the triplet, sees
    whether it throws or not. *)
Definition shared_vertex (label : Z) (m : st Schema.schema unit) : st G unit := λ g,
  let '(g, r) := with_schema m g in
  match SchemaColumns.vertex_schema label (schema_ g) with
  | Ok v => (set_vertex_tables (alter (vt_share_schema v) (Z.to_nat label) (vertex_tables_ g)) g, r)
  | Throw _ => (g, r)
  end.
Definition shared_edge (index : Z) (m : st Schema.schema unit) : st G unit := λ g,
  let '(g, r) := with_schema m g in
  match SchemaColumns.edge_schema index (schema_ g) with
  | Ok e => (set_edge_tables (alter (SetEdgeSchema e) index (edge_tables_ g)) g, r)
  | Throw _ => (g, r)
  end.

(** The first name for which the test fails ends the operation. *)
Fixpoint all_names (test : name → res bool) (names : list name) : res bool :=
  match names with
  | [] => Ok true
  | n :: names => b ← test n; if b : bool then all_names test names else Ok false
  end.

(** ** Vertex types *)

Definition AddVertexProperties (v_label : Z) (add_properties : list (name * Value)) : st G Status :=
  checked (vertex_label_check v_label) (
    g ← get_state;
    vertex_type_name ← lift_res (SchemaColumns.get_vertex_label_name v_label (schema_ g));
    fresh ← lift_res (all_names (λ n, negb <$> SchemaColumns.vertex_has_property v_label n (schema_ g)) add_properties.*1);
    if negb fresh then mret ERR_SCHEMA_MISMATCH
    else
      let names := add_properties.*1 in
      let values := add_properties.*2 in
      shared_vertex v_label (SchemaColumns.AddVertexProperties get_default_value vertex_type_name names (type_ <$> values) values);;
      with_vertex v_label (vt_AddProperties names (type_ <$> values) values);;
      mret OK).

Definition RenameVertexProperties (v_label : Z) (update_properties : list (name * name)) : st G Status :=
  checked (vertex_label_check v_label) (
    g ← get_state;
    vertex_type_name ← lift_res (SchemaColumns.get_vertex_label_name v_label (schema_ g));
    known ← lift_res (all_names (λ n, SchemaColumns.vertex_has_property v_label n (schema_ g)) update_properties.*1);
    if negb known then mret ERR_SCHEMA_MISMATCH
    else
      shared_vertex v_label (SchemaColumns.RenameVertexProperties vertex_type_name update_properties.*1 update_properties.*2);;
      with_vertex v_label (vt_RenameProperties update_properties.*1 update_properties.*2);;
      mret OK).

Definition delete_vertex_properties_check (vertex_type_name : name) (props : list name) g : res Status :=
  if negb (Schema.is_vertex_name_valid vertex_type_name (schema_ g)) then Ok ERR_INVALID_ARGUMENT
  else
    label_id ← Schema.get_vertex_label_id vertex_type_name (schema_ g);
    known ← all_names (λ n, SchemaColumns.vertex_has_property_internal label_id n (schema_ g)) props;
    Ok (if known : bool then OK else ERR_SCHEMA_MISMATCH).
Definition DeleteVertexProperties (v_label : Z) (props : list name) : st G Status :=
  checked (vertex_label_check v_label) (
    g ← get_state;
    vertex_type_name ← lift_res (SchemaColumns.get_vertex_label_name v_label (schema_ g));
    c ← lift_res (delete_vertex_properties_check vertex_type_name props g);
    match c with
    | OK =>
        shared_vertex v_label (SchemaColumns.DeleteVertexProperties vertex_type_name props false);;
        with_vertex v_label (vt_DeleteProperties props);;
        mret OK
    | c => mret c
    end).

(** ** Edge triplets *)

Definition label_names (src dst edge : Z) g : res (name * name * name) :=
  s ← SchemaColumns.get_vertex_label_name src (schema_ g);
  d ← SchemaColumns.get_vertex_label_name dst (schema_ g);
  e ← SchemaColumns.get_edge_label_name edge (schema_ g);
  Ok (s, d, e).

Definition AddEdgeProperties (src dst edge : Z) (add_properties : list (name * Value)) : st G Status :=
  checked (edge_triplet_check src dst edge) (
    g ← get_state;
    '(s, d, e) ← lift_res (label_names src dst edge g);
    fresh ← lift_res (all_names (λ n, negb <$> SchemaColumns.edge_has_property src dst edge n (schema_ g)) add_properties.*1);
    if negb fresh then mret ERR_SCHEMA_MISMATCH
    else
      let names := add_properties.*1 in
      let values := add_properties.*2 in
      let index := Schema.generate_edge_label src dst edge in
      shared_edge index (SchemaColumns.AddEdgeProperties get_default_value s d e names (type_ <$> values) values);;
      g ← get_state;
      if negb (has_table index g) then mret ERR_INVALID_ARGUMENT
      else with_edge index (EdgeTable.AddProperties names (type_ <$> values) values);; mret OK).

Definition RenameEdgeProperties (src dst edge : Z) (update_properties : list (name * name)) : st G Status :=
  checked (edge_triplet_check src dst edge) (
    g ← get_state;
    '(s, d, e) ← lift_res (label_names src dst edge g);
    known ← lift_res (all_names (λ n, SchemaColumns.edge_has_property src dst edge n (schema_ g)) update_properties.*1);
    if negb known then mret ERR_SCHEMA_MISMATCH
    else
      let index := Schema.generate_edge_label src dst edge in
      shared_edge index (SchemaColumns.RenameEdgeProperties s d e update_properties.*1 update_properties.*2);;
      g ← get_state;
      if negb (has_table index g) then mret ERR_INVALID_ARGUMENT
      else with_edge index (EdgeTable.RenameProperties update_properties.*1 update_properties.*2);; mret OK).

Definition edge_name_check (src dst edge : name) g : res bool :=
  if negb (Schema.is_vertex_name_valid src (schema_ g)) || negb (Schema.is_vertex_name_valid dst (schema_ g)) ||
     negb (Schema.is_edge_name_valid edge (schema_ g)) then Ok false
  else SchemaColumns.is_edge_triplet_name_valid src dst edge (schema_ g).
Definition delete_edge_properties_check (src dst edge : name) (props : list name) g : res Status :=
  valid ← edge_name_check src dst edge g;
  if negb valid then Ok ERR_INVALID_ARGUMENT
  else
    i ← Schema.get_vertex_label_id_internal src (schema_ g);
    j ← Schema.get_vertex_label_id_internal dst (schema_ g);
    k ← Schema.get_edge_label_id_internal edge (schema_ g);
    known ← all_names (λ n, SchemaColumns.edge_has_property_internal i j k n (schema_ g)) props;
    Ok (if known : bool then OK else ERR_SCHEMA_MISMATCH).
(** The table before the schema, which it reads to decide how to rebuild. *)
Definition DeleteEdgeProperties (src dst edge : Z) (props : list name) : st G Status :=
  checked (edge_triplet_check src dst edge) (
    g ← get_state;
    '(s, d, e) ← lift_res (label_names src dst edge g);
    c ← lift_res (delete_edge_properties_check s d e props g);
    match c with
    | OK =>
        let index := Schema.generate_edge_label src dst edge in
        if negb (has_table index g) then mret ERR_INVALID_ARGUMENT
        else
          with_edge index (EdgeTable.DeleteProperties props);;
          shared_edge index (SchemaColumns.DeleteEdgeProperties s d e props false);;
          mret OK
    | c => mret c
    end).
End operations.
End GraphColumns.
