(* ===== verification/GraphReplay.v ===== *)
(** * Replay of a log on a property graph

    ReplayCowGraphWal (src/transaction/transaction_utils.cc): the records of a
    transaction are read one after the other and applied to the graph, the
    labels by their names and the vertices by their keys.  The graph has no
    indexes; the records of indexes and of projected graphs are a parameter. *)

From stdpp Require Import gmap.
From S2P Require Import Prelude Values StringColumn Tables PropertyColumns RedoRecords VertexTable CsrView CsrBase EdgeSchema LabelIndexer SchemaLabels SchemaColumns DirtyTracker EdgeTable PropertyGraph GraphColumns.
Import EdgeTable PropertyGraph.

Module GraphReplay.
Section replay.
Context {V C : Type} `{!VertexTables V} `{!ColumnBase C} `{!Memory} (get_default_value : DataType → Value).
Abbreviation G := (graph V C).
(** What the records of indexes and of projected graphs do. *)
Context (other_record : redo → Z → st G unit).
Implicit Types (g : G).

(** [THROW_STORAGE_EXCEPTION_STATUS]. *)
Definition expect (m : st G Status) : st G unit :=
  s ← m; match s with OK => mret tt | _ => throw StorageError end.
Definition MarkSchemaDirty : st G unit := update (λ g, set_dirty (DirtyTracker.MarkSchema (dirty_ g)) g).

Definition vertex_label (n : name) : st G Z := g ← get_state; lift_res (Schema.get_vertex_label_id n (schema_ g)).
Definition edge_label (n : name) : st G Z := g ← get_state; lift_res (Schema.get_edge_label_id n (schema_ g)).
Definition triplet_labels (src dst edge : name) : st G (Z * Z * Z) :=
  s ← vertex_label src; d ← vertex_label dst; e ← edge_label edge; mret (s, d, e).
(** [CHECK(graph.get_lid(...))]. *)
Definition known_vertex (label : Z) (oid : Value) (ts : Z) : st G Z :=
  g ← get_state; r ← lift_res (get_lid label oid ts g);
  match r with Some vid => mret vid | None => throw CheckFailed end.

(** ** Vertices and edges *)

Definition replay_InsertVertex (vertex_type : name) (oid : Value) (props : list Value) (ts : Z) : st G unit :=
  label ← vertex_label vertex_type;
  g ← get_state;
  found ← lift_res (get_lid label oid ts g);
  exists_ ← match found with None => mret false | Some vid => lift_res (IsValidLid label vid ts g) end;
  if exists_ : bool then mret tt
  else
    v ← lift_res (of_option OutOfBounds (vertex_tables_ g !! Z.to_nat label));
    (if vt_Capacity v <=? vt_LidNum v
     then let size := vt_LidNum v in
          _ ← PropertyGraph.EnsureCapacity label (if size <? 4096 then 4096 else size + size / 4); mret tt
     else mret tt);;
    update (MarkVertexTableDirty label);;
    expect (r ← AddVertex label oid props ts true; mret r.1).

Definition replay_InsertEdge (src_type : name) (src : Value) (dst_type : name) (dst : Value) (edge_type : name)
    (properties : list Value) (ts : Z) : st G unit :=
  '(s, d, e) ← triplet_labels src_type dst_type edge_type;
  src_vid ← known_vertex s src ts;
  dst_vid ← known_vertex d dst ts;
  MarkEdgeTableDirty s d e;;
  expect (r ← PropertyGraph.AddEdge s src_vid d dst_vid e properties ts true; mret r.1).

Definition replay_UpdateVertexProp (vertex_type : name) (oid : Value) (prop_id : Z) (value : Value) (ts : Z) : st G unit :=
  label ← vertex_label vertex_type;
  vid ← known_vertex label oid ts;
  update (MarkVertexTableDirty label);;
  expect (UpdateVertexProperty label vid prop_id value ts).

Definition replay_UpdateEdgeProp (src_type : name) (src : Value) (dst_type : name) (dst : Value) (edge_type : name)
    (oe_offset ie_offset prop_id : Z) (value : Value) (ts : Z) : st G unit :=
  '(s, d, e) ← triplet_labels src_type dst_type edge_type;
  src_vid ← known_vertex s src ts;
  dst_vid ← known_vertex d dst ts;
  MarkEdgeTableDirty s d e;;
  expect (PropertyGraph.UpdateEdgeProperty s src_vid d dst_vid e oe_offset ie_offset prop_id value ts).

(** Every edge table at the label is marked, in the order of the map. *)
Definition mark_incident (label : Z) : st G unit :=
  g ← get_state;
  for_each ((map_to_list (Schema.e_schemas_ (schema_ g))).*1) (λ k,
    let '(s, d, e) := Schema.parse_edge_label k in
    if (s =? label) || (d =? label) then MarkEdgeTableDirty s d e else mret tt).
Definition replay_RemoveVertex (vertex_type : name) (oid : Value) (ts : Z) : st G unit :=
  label ← vertex_label vertex_type;
  vid ← known_vertex label oid ts;
  update (MarkVertexTableDirty label);;
  mark_incident label;;
  expect (PropertyGraph.DeleteVertex label vid ts).

Definition replay_RemoveEdge (src_type : name) (src : Value) (dst_type : name) (dst : Value) (edge_type : name)
    (oe_offset ie_offset ts : Z) : st G unit :=
  '(s, d, e) ← triplet_labels src_type dst_type edge_type;
  src_vid ← known_vertex s src ts;
  dst_vid ← known_vertex d dst ts;
  MarkEdgeTableDirty s d e;;
  expect (PropertyGraph.DeleteEdge s src_vid d dst_vid e oe_offset ie_offset ts).

(** ** Types and properties *)

Definition replay_CreateVertexType (config : CreateVertexTypeParam) : st G unit :=
  MarkSchemaDirty;; expect (PropertyGraph.CreateVertexType config).
Definition replay_CreateEdgeType (config : CreateEdgeTypeParam) : st G unit :=
  MarkSchemaDirty;; expect (PropertyGraph.CreateEdgeType config).

(** A change of the properties of a vertex type or of a triplet. *)
Definition on_vertex_type (vertex_type : name) (m : Z → st G Status) : st G unit :=
  label ← vertex_label vertex_type; MarkSchemaDirty;; update (MarkVertexTableDirty label);; expect (m label).
Definition on_edge_type (src_type dst_type edge_type : name) (m : Z → Z → Z → st G Status) : st G unit :=
  '(s, d, e) ← triplet_labels src_type dst_type edge_type; MarkSchemaDirty;; MarkEdgeTableDirty s d e;; expect (m s d e).

(** The label ids are looked up before anything is deleted. *)
Definition replay_DeleteVertexType (vertex_type : name) : st G unit :=
  MarkSchemaDirty;;
  label ← vertex_label vertex_type;
  g ← get_state;
  v ← lift_res (SchemaColumns.vertex_schema label (schema_ g));
  _ ← lift_res (VertexSchema.primary_key v);
  id ← lift_res (Schema.get_vertex_label_id_internal vertex_type (schema_ g));
  expect (PropertyGraph.DeleteVertexType id).
Definition replay_DeleteEdgeType (src_type dst_type edge_type : name) : st G unit :=
  MarkSchemaDirty;;
  g ← get_state;
  s ← lift_res (Schema.get_vertex_label_id_internal src_type (schema_ g));
  d ← lift_res (Schema.get_vertex_label_id_internal dst_type (schema_ g));
  e ← lift_res (Schema.get_edge_label_id_internal edge_type (schema_ g));
  expect (PropertyGraph.DeleteEdgeType s d e).

(** ** The loop *)

Definition replay_record (ts : Z) (r : redo) : st G unit :=
  match r with
  | RedoRecords.CreateVertexType config => replay_CreateVertexType config
  | RedoRecords.CreateEdgeType config => replay_CreateEdgeType config
  | InsertVertex ty oid props => replay_InsertVertex ty oid props ts
  | InsertEdge st src dt dst et props => replay_InsertEdge st src dt dst et props ts
  | UpdateVertexProp ty oid p v => replay_UpdateVertexProp ty oid p v ts
  | UpdateEdgeProp st src dt dst et oe ie p v => replay_UpdateEdgeProp st src dt dst et oe ie p v ts
  | RemoveVertex ty oid => replay_RemoveVertex ty oid ts
  | RemoveEdge st src dt dst et oe ie => replay_RemoveEdge st src dt dst et oe ie ts
  | AddVertexProp ty config => on_vertex_type ty (λ l, GraphColumns.AddVertexProperties get_default_value l config)
  | AddEdgeProp st dt et config => on_edge_type st dt et (λ s d e, GraphColumns.AddEdgeProperties get_default_value s d e config)
  | RenameVertexProp ty config => on_vertex_type ty (λ l, GraphColumns.RenameVertexProperties l config)
  | RenameEdgeProp st dt et config => on_edge_type st dt et (λ s d e, GraphColumns.RenameEdgeProperties s d e config)
  | DeleteVertexProp ty config => on_vertex_type ty (λ l, GraphColumns.DeleteVertexProperties l config)
  | DeleteEdgeProp st dt et config => on_edge_type st dt et (λ s d e, GraphColumns.DeleteEdgeProperties s d e config)
  | RedoRecords.DeleteVertexType ty => replay_DeleteVertexType ty
  | RedoRecords.DeleteEdgeType st dt et => replay_DeleteEdgeType st dt et
  | r => other_record r ts
  end.

(** A record is applied before the next is read; the fuel is the length of the
    data, of which every record takes at least a byte. *)
Fixpoint replay_loop (fuel : nat) (ts : Z) (bs : list Z) : st G unit :=
  match bs with
  | [] => mret tt
  | _ =>
      match fuel with
      | O => throw Diverges
      | S fuel =>
          match get_redo bs with
          | Throw e => throw e
          | Ok (r, rest) => replay_record ts r;; replay_loop fuel ts rest
          end
      end
  end.
Definition ReplayCowGraphWal (ts : Z) (data : list Z) : st G unit := replay_loop (length data) ts data.
End replay.
End GraphReplay.
