(* ===== verification/GraphVertices.v ===== *)
(** * Vertex tables of a property graph

    What the property graph relies on from its vertex tables, and the vertex
    tables with keys of one type as an implementation of it: [None] is a table
    after [Close], whose indexer, columns and timestamps are gone. *)

From stdpp Require Import gmap.
From S2P Require Import Prelude Values StringColumn StringColumnProperties LFIndexer LFIndexerTable LFIndexerProperties KeyColumns Tables PropertyColumns TableRows VertexTimestamp VertexTable VertexTableProperties EdgeSchema LabelIndexer SchemaLabels PropertyGraph.

(** ** The contract *)

(** The vertices of a table, by id: the timestamp each exists from, [None] for a
    deleted one. *)
Definition valid_at (born : list (option Z)) (lid ts : Z) : bool :=
  match mjoin (born !! Z.to_nat lid) with Some x => x <=? ts | None => false end.
Definition without (born : list (option Z)) (ts lid : Z) : list (option Z) :=
  if valid_at born lid ts then <[Z.to_nat lid := None]> born else born.

Class VertexTableLaws (V : Type) `{!VertexTables V} := {
  vt_shows : V → list (option Z) → Prop;
  vt_may_grow : Z → V → Prop;
  law_valid : ∀ v born lid ts, vt_shows v born → 0 ≤ lid → 0 ≤ ts → vt_IsValidLid lid ts v = valid_at born lid ts;
  law_room : ∀ v born, vt_shows v born → len born ≤ vt_Capacity v;
  law_delete : ∀ v born lid ts, vt_shows v born → 0 ≤ lid → 0 ≤ ts →
    ∃ v', vt_DeleteVertex lid ts v = (v', Ok tt) ∧ vt_shows v' (without born ts lid) ∧ vt_Capacity v' = vt_Capacity v;
  law_batch_delete : ∀ v born lids, vt_shows v born → Forall (λ l, 0 ≤ l) lids →
    ∃ v', vt_BatchDeleteVertices lids v = (v', Ok tt) ∧ vt_shows v' (foldl (λ b l, without b MAX_TIMESTAMP l) born lids) ∧
          vt_Capacity v' = vt_Capacity v;
  law_grow : ∀ v born n, vt_shows v born → vt_may_grow n v → vt_Capacity v < n →
    ∃ v' m, vt_EnsureCapacity n v = (v', Ok m) ∧ vt_shows v' born ∧ n ≤ vt_Capacity v'
}.

Lemma valid_without born ts l lid ts' : 0 ≤ l → 0 ≤ lid →
  valid_at (without born ts l) lid ts' = valid_at born lid ts' && negb (bool_decide (lid = l) && valid_at born l ts).
Proof.
  intros Hl Hlid. unfold without. destruct (valid_at born l ts) eqn:Hv; [|by rewrite !andb_false_r, andb_true_r].
  unfold valid_at in *. destruct (decide (lid = l)) as [->|Hne].
  - rewrite bool_decide_true by done. rewrite andb_false_r. destruct (mjoin (born !! Z.to_nat l)) as [x|] eqn:E; [|done].
    apply join_Some, lookup_lt_Some in E. by rewrite list_lookup_insert_eq.
  - rewrite bool_decide_false by done. cbn. rewrite list_lookup_insert_ne by lia. by rewrite andb_true_r.
Qed.

(** ** Tables with keys of one type *)

Section keyed.
Context {K KC C : Type} `{!KeyColumn K KC} `{!KeyColumnLaws K KC} `{!PrimaryKey K} `{!PrimaryKeyLaws K}.
Context `{!ColumnBase C} `{!ColumnLaws C} (empty_keys : KC).
Context (set_properties : PropertyColumn.context_column → list Z → C → C * res unit).
(** Which weak exchanges of a vertex's timestamp fail spuriously, in a state. *)
Context (weak : VertexTimestamp.t → Z → bool).
Abbreviation T := (VertexTable.vtable KC C).

Definition table_schema (s : Schema.VertexSchema) : res VertexTable.VertexSchema :=
  '(_, pk, ind) ← of_option OutOfBounds (head (Schema.primary_keys s));
  Ok (VertexTable.MkSchema (Schema.property_names s) (Schema.property_types s) (Schema.default_property_values s) (pk, ind)).

Definition read {A} (d : A) (f : T → A) (v : option T) : A := from_option f d v.
Definition asks {A} (f : T → res A) (v : option T) : res A := from_option f (Throw OutOfBounds) v.
Definition opened {A} (m : st T A) : st (option T) A := λ v,
  match v with None => (None, Throw OutOfBounds) | Some t => let '(t, r) := m t in (Some t, r) end.

Instance keyed_tables : VertexTables (option T) := {|
  vt_Init s := vs ← table_schema s; Some <$> VertexTable.Init empty_keys vs;
  vt_Capacity := read 0 VertexTable.Capacity;
  vt_LidNum := read 0 VertexTable.LidNum;
  vt_VertexNum ts := read 0 (VertexTable.VertexNum ts);
  vt_IsValidLid lid ts := read false (VertexTable.IsValidLid lid ts);
  vt_get_index oid ts := asks (VertexTable.get_index oid ts);
  vt_GetOid lid ts := asks (VertexTable.GetOid lid ts);
  vt_indices col := asks (λ t, KeyedIndexer.get_index_column col (VertexTable.indexer_ t));
  vt_EnsureCapacity n := opened (VertexTable.EnsureCapacity n);
  vt_AddVertex id props ts safe := opened (λ t, VertexTable.AddVertex (weak (VertexTable.v_ts_ t)) id props ts safe t);
  vt_UpdateProperty vid p v ts := opened (VertexTable.UpdateProperty vid p v ts);
  vt_DeleteVertex lid ts := opened (VertexTable.DeleteVertex lid ts);
  vt_BatchDeleteVertices lids := opened (VertexTable.BatchDeleteVertices lids);
  vt_insert_vertices n chunks := opened (λ t, VertexTable.insert_vertices set_properties (weak (VertexTable.v_ts_ t)) n chunks t);
  vt_AddProperties ns ts ds := opened (VertexTable.AddProperties ns ts ds);
  vt_RenameProperties ns ms := opened (VertexTable.RenameProperties ns ms);
  vt_DeleteProperties ns := opened (VertexTable.DeleteProperties ns);
  vt_share_schema s v :=
    match table_schema s, v with
    | Ok vs, Some t => Some (VertexTable.MkVTable (VertexTable.indexer_ t) (VertexTable.table_ t) (VertexTable.v_ts_ t) vs)
    | _, _ => v
    end;
  vt_Close _ := None
|}.

(** The table represents rows in the sense of its own refinement. *)
Definition keyed_shows (v : option T) (b : list (option Z)) : Prop :=
  ∃ t vs a, v = Some t ∧ VertexTableProperties.rep vs t a ∧ born a = b.
Definition keyed_may_grow (n : Z) (v : option T) : Prop :=
  n ≤ MAX_CAPACITY ∧ ∀ t, v = Some t →
    Forall (λ c, col_budget c (row_cost (VertexTable.default_property_values (VertexTable.vertex_schema_ t)))) (Table.columns_ (VertexTable.table_ t)).

Lemma keyed_opened {A} (m : st T A) t t' r : m t = (t', r) → opened m (Some t) = (Some t', r).
Proof. intros E. cbn. by rewrite E. Qed.

Lemma capacity_kept vs t t' a a' : VertexTableProperties.rep vs t a → VertexTableProperties.rep vs t' a' → vcap a' = vcap a →
  VertexTable.Capacity t' = VertexTable.Capacity t.
Proof. intros [H _] [H' _] E. by rewrite (kr_cap _ _ H), (kr_cap _ _ H'). Qed.

Lemma born_delete_row ts l (a : vstate (K := K)) : born (delete_row ts l a) = without (born a) ts l.
Proof. unfold delete_row, without. change (valid_row a ts l) with (valid_at (born a) l ts). by destruct (valid_at _ _ _). Qed.
Lemma vcap_delete_row ts l (a : vstate (K := K)) : vcap (delete_row ts l a) = vcap a.
Proof. unfold delete_row. by destruct (valid_row _ _ _). Qed.
Lemma delete_rows ts lids (a : vstate (K := K)) :
  let a' := foldl (λ a v, delete_row ts v a) a lids in
  born a' = foldl (λ b l, without b ts l) (born a) lids ∧ vcap a' = vcap a.
Proof.
  revert a. induction lids as [|l lids IH]; intros a; [done|]. cbn [foldl]. destruct (IH (delete_row ts l a)) as [-> ->].
  by rewrite born_delete_row, vcap_delete_row.
Qed.

#[refine] Instance keyed_laws : VertexTableLaws (option T) := {| vt_shows := keyed_shows; vt_may_grow := keyed_may_grow |}.
Proof.
  - intros v b lid ts (t & vs & a & -> & Hr & <-) Hl Hts. by apply (sh_lid _ _ (rep_shows vs t a Hr)).
  - intros v b (t & vs & a & -> & [Hk _] & <-). cbn. rewrite (kr_cap _ _ Hk), (kr_len _ _ Hk). apply (krep_bound t a Hk).
  - intros v b lid ts (t & vs & a & -> & Hr & <-) Hl Hts. destruct (delete_step_ok vs t a lid ts Hr Hl Hts) as (t' & E & Hr' & _).
    exists (Some t'). split_and!; [by apply keyed_opened|exists t', vs, (delete_row ts lid a); split_and!; [done..|apply born_delete_row]|].
    apply (capacity_kept vs t t' a _ Hr Hr'). apply vcap_delete_row.
  - intros v b lids (t & vs & a & -> & Hr & <-) Hl. destruct (batch_step_ok vs lids t a Hr Hl) as (t' & E & Hr' & _).
    destruct (delete_rows MAX_TIMESTAMP lids a) as [Eb Ec].
    exists (Some t'). split_and!; [by apply keyed_opened|eexists t', vs, _; split_and!; [done|exact Hr'|done]|]. by apply (capacity_kept vs t t' a _ Hr Hr').
  - intros v b n (t & vs & a & -> & Hr & <-) [Hn Hg] Hc. pose proof (kr_cap _ _ (proj1 Hr)) as Hcap. cbn in Hc. rewrite Hcap in Hc.
    specialize (Hg t eq_refl). rewrite (cr_schema _ _ _ (proj2 Hr)) in Hg.
    destruct (ensure_step vs t a n Hr (conj Hc Hn) Hg) as (t' & E & Hr' & _).
    exists (Some t'), (Z.max n 4096). split_and!; [by apply keyed_opened|eexists t', vs, _; split_and!; [done|exact Hr'|done]|].
    cbn. rewrite (kr_cap _ _ (proj1 Hr')). cbn. lia.
Defined.
End keyed.
