(* ===== verification/GraphEdges.v ===== *)
(** * The edges of a property graph

    What the loops over the edge tables at a label do to the edges of all
    tables: the tables visited, each update once, and nothing else. *)

From stdpp Require Import gmap.
From S2P Require Import Prelude Values StringColumn Tables PropertyColumns CsrView VertexTable CsrBase EdgeSchema EdgeTable EdgeArcs EdgeStores EdgeTableSpec EdgeTableDelete EdgeTableProperties LabelIndexer SchemaLabels SchemaLabelsProperties DirtyTracker PropertyGraph GraphVertices.
Import EdgeTable PropertyGraph.

Section graph.
Context {V C : Type} {HV : VertexTables V} {HC : ColumnBase C} {HM : Memory}.
Abbreviation G := (graph V C).
Implicit Types (g : G) (E : Z → list (arc Val)).

(** ** The tables at a label *)

Definition visits (label : Z) g : list (Z * bool) :=
  labels (vertex_label_total_count_ g) ≫= λ i,
    if negb (Schema.is_vertex_label_valid i (schema_ g)) then []
    else labels (edge_label_total_count_ g) ≫= λ j,
      (if Schema.has_edge_triplet i label j (schema_ g) then [(Schema.generate_edge_label i label j, false)] else []) ++
      (if Schema.has_edge_triplet label i j (schema_ g) then [(Schema.generate_edge_label label i j, true)] else []).

(** What the loops do not touch. *)
Definition same_frame g g' : Prop :=
  schema_ g' = schema_ g ∧ vertex_tables_ g' = vertex_tables_ g ∧
  vertex_label_total_count_ g' = vertex_label_total_count_ g ∧ edge_label_total_count_ g' = edge_label_total_count_ g.

Lemma with_edge_run {A} k (m : st (etable C) A) g t :
  edge_tables_ g !! k = Some t → with_edge k m g = (set_edge_tables (<[k := (m t).1]> (edge_tables_ g)) g, (m t).2).
Proof. intros Ht. unfold with_edge. rewrite Ht. by destruct (m t). Qed.

(** Updates of tables, each followed by the mark of its table where [mark] says
    so.  An update that [A] holds of keeps [Q], removes from the edges those that [P] is false of,
    and establishes [R], which the other updates keep. *)
Section updates.
Context {U : Type} (key : U → Z) (body : U → st (etable C) unit) (mark : bool).
Context (P : U → arc Val → Prop) `{!∀ u a, Decision (P u a)}.
Context (Q : Z → etable C → list (arc Val) → Prop) (R : U → etable C → Prop) (A : U → Prop).
Hypothesis body_ok : ∀ u t l, A u → rep t l → Q (key u) t l →
  let x := body u t in
  x.2 = Ok tt ∧ rep x.1 (filter (P u) l) ∧ Q (key u) x.1 (filter (P u) l) ∧ R u x.1 ∧ ∀ u', key u' = key u → R u' t → R u' x.1.

Definition visit (u : U) : st G unit :=
  with_edge (key u) (body u);; if mark then on dirty_ set_dirty (DirtyTracker.MarkEdge (key u)) else mret tt.

Definition tables g E : Prop := ∀ k t, edge_tables_ g !! k = Some t → rep t (E k) ∧ Q k t (E k).
Definition has_slots g : Prop := ∀ k, is_Some (edge_tables_ g !! k) → is_Some (DirtyTracker.edge_ (dirty_ g) !! k).
Definition kept (us : list U) (k : Z) (a : arc Val) : Prop := Forall (λ u, key u = k → P u a) us.
#[export] Instance kept_dec us k a : Decision (kept us k a).
Proof. unfold kept. apply _. Defined.

Lemma visit_run u g t :
  edge_tables_ g !! key u = Some t → (body u t).2 = Ok tt → has_slots g →
  ∃ d, visit u g = (set_dirty d (set_edge_tables (<[key u := (body u t).1]> (edge_tables_ g)) g), Ok tt) ∧
    has_slots (visit u g).1.
Proof.
  intros Ht Hb Hs. unfold visit. rewrite (st_bind_ok _ _ _ (set_edge_tables (<[key u := (body u t).1]> (edge_tables_ g)) g) tt)
    by (by rewrite (with_edge_run _ _ _ t Ht), Hb).
  assert (Hdom : ∀ k, is_Some (<[key u := (body u t).1]> (edge_tables_ g) !! k) → is_Some (edge_tables_ g !! k)).
  { intros k. destruct (decide (k = key u)) as [->|Hne]; [intros _; by eexists|by rewrite lookup_insert_ne]. }
  destruct mark.
  - unfold on, DirtyTracker.MarkEdge. cbn [dirty_ set_edge_tables]. destruct (Hs (key u)) as [b ->]; [by eexists|].
    eexists. split; [done|]. intros k Hk%Hdom%Hs. cbn. destruct (decide (k = key u)) as [->|Hne]; [by rewrite lookup_insert_eq|by rewrite lookup_insert_ne].
  - exists (dirty_ g). split; [done|]. intros k Hk%Hdom. by apply Hs.
Qed.

Lemma visits_ok us g E :
  tables g E → has_slots g → Forall (λ u, A u ∧ is_Some (edge_tables_ g !! key u)) us →
  let x := for_each us visit g in
  x.2 = Ok tt ∧ same_frame g x.1 ∧ dom (edge_tables_ x.1) = dom (edge_tables_ g) ∧ has_slots x.1 ∧
  tables x.1 (λ k, filter (kept us k) (E k)) ∧
  (∀ u t t', edge_tables_ g !! key u = Some t → edge_tables_ x.1 !! key u = Some t' → u ∈ us ∨ R u t → R u t').
Proof.
  revert g E. induction us as [|u us IH]; intros g E Ht Hd Hus.
  { split_and!; try done; [|intros u t t' Hl Hr; cbn in Hr; simplify_eq; intros [Hin|]; [by apply not_elem_of_nil in Hin|done]].
    intros k t Hk. rewrite (list_filter_iff _ (λ _, True)); [|intros a; unfold kept; by rewrite Forall_nil].
    rewrite filter_all_in by done. by apply Ht. }
  apply Forall_cons in Hus as [[Hu [t Hk]] Hus]. destruct (Ht _ t Hk) as [Hr Hq].
  destruct (body_ok u t _ Hu Hr Hq) as (B1 & B2 & B3 & B4 & B5). cbn [for_each].
  destruct (visit_run u g t Hk B1 Hd) as (d & Ev & Hd1). rewrite (st_bind_ok _ _ _ _ tt Ev). rewrite Ev in Hd1.
  set (g1 := set_dirty _ _) in *. assert (Hg1 : edge_tables_ g1 = <[key u := (body u t).1]> (edge_tables_ g)) by done.
  destruct (IH g1 (λ k', if decide (k' = key u) then filter (P u) (E (key u)) else E k')) as (H1 & H2 & H3 & H4 & H5 & H6).
  - intros k' t'. rewrite Hg1. destruct (decide (k' = key u)) as [->|Hne].
    + rewrite lookup_insert_eq. by intros [= <-].
    + rewrite lookup_insert_ne by done. apply Ht.
  - exact Hd1.
  - eapply Forall_impl; [exact Hus|]. intros u' [Hu' Hs]. split; [done|]. rewrite Hg1.
    destruct (decide (key u' = key u)) as [->|Hne]; [by rewrite lookup_insert_eq|by rewrite lookup_insert_ne].
  - split_and!; [exact H1|exact H2|rewrite H3, Hg1; by rewrite dom_insert_lookup_L|exact H4| |].
    + intros k' t' Hk'. specialize (H5 k' t' Hk'). cbn beta in H5.
      assert (Heq : filter (kept (u :: us) k') (E k') =
                    filter (kept us k') (if decide (k' = key u) then filter (P u) (E (key u)) else E k')); [|by rewrite Heq].
      destruct (decide (k' = key u)) as [->|Hne].
      * rewrite list_filter_filter. apply list_filter_iff. intros a. unfold kept. rewrite Forall_cons. naive_solver.
      * apply list_filter_iff. intros a. unfold kept. rewrite Forall_cons. naive_solver.
    + intros u' t0 t' Hu' Ht' Hor. destruct (decide (key u' = key u)) as [Heq|Hne].
      * rewrite Heq, Hk in Hu'. injection Hu' as <-. apply (H6 u' (body u t).1); [by rewrite Hg1, Heq, lookup_insert_eq|done|].
        destruct Hor as [[->|?]%elem_of_cons|HR]; [by right|by left|right; by apply B5].
      * apply (H6 u' t0); [by rewrite Hg1, lookup_insert_ne|done|]. destruct Hor as [[->|?]%elem_of_cons|?]; [done|by left|by right].
Qed.
End updates.
Lemma at_label_visits label (body : bool → st (etable C) unit) g :
  at_label label body g = for_each (visits label g) (visit fst (λ u, body u.2) false) g.
Proof.
  transitivity (for_each (visits label g) (λ u, with_edge u.1 (body u.2)) g).
  - unfold at_label. rewrite get_then. unfold visits. rewrite <- for_each_nested. apply for_each_ext. intros i s _.
    destruct (negb _); [done|]. rewrite <- for_each_nested. apply for_each_ext. intros j s' _.
    by rewrite <- (pair_for_each _ _ _ _ (λ u, with_edge u.1 (body u.2))).
  - apply for_each_ext. intros u s _. unfold visit, mbind, st_bind. by destruct (with_edge _ _ _) as [? [[]|]].
Qed.
End graph.
