(* ===== verification/GraphInvariant.v ===== *)
(** * The property graph stays consistent

    The invariant of a property graph: a schema whose labels fit together, a
    vertex table per label, an edge table per triplet, each of them with room for
    every vertex of its two labels.  Deletions of vertices and growth keep it,
    and their effect is the one on the vertices and edges of all labels. *)

From stdpp Require Import gmap.
From S2P Require Import Prelude Values StringColumn Tables PropertyColumns CsrView VertexTable CsrBase EdgeSchema EdgeTable EdgeArcs EdgeStores EdgeTableSpec EdgeTableDelete EdgeTableProperties LabelIndexer SchemaLabels SchemaLabelsProperties DirtyTracker PropertyGraph GraphVertices GraphEdges.
Import EdgeTable PropertyGraph.

Abbreviation triplet_key := Schema.generate_edge_label.
Definition is_label (l : Z) : Prop := 0 ≤ l < 256.

Section graph.
Context {V C : Type} {HV : VertexTables V} {HL : VertexTableLaws V} {HC : ColumnBase C} {HM : Memory}.
Abbreviation G := (graph V C).
Implicit Types (g : G) (B : Z → list (option Z)) (E : Z → list (arc Val)).

(** Each direction of an edge table has a list for every vertex there is room for. *)
Definition room (vs : list V) (k : Z) (t : etable C) : Prop :=
  ∀ s d e, is_label s → is_label d → is_label e → k = triplet_key s d e →
  (∀ v, vs !! Z.to_nat s = Some v → vt_Capacity v ≤ Csr.size (out_csr_ t)) ∧
  (∀ v, vs !! Z.to_nat d = Some v → vt_Capacity v ≤ Csr.size (in_csr_ t)).

Definition fits (vs : list V) (k : Z) (t : etable C) (_ : list (arc Val)) : Prop := 0 ≤ capacity_ t ∧ room vs k t.

(** [B] gives the vertices of each label, [E] the edges of each triplet. *)
Record graph_ok g B E : Prop := MkGraphOk {
  go_schema : ok (schema_ g);
  go_vcount : vertex_label_total_count_ g = LabelIndexer.num_slots (Schema.vlabel_indexer_ (schema_ g));
  go_ecount : edge_label_total_count_ g = LabelIndexer.num_slots (Schema.elabel_indexer_ (schema_ g));
  go_vlen : len (vertex_tables_ g) = LabelIndexer.num_slots (Schema.vlabel_indexer_ (schema_ g));
  go_dom : ∀ k, is_Some (edge_tables_ g !! k) ↔ is_Some (Schema.e_schemas_ (schema_ g) !! k);
  go_slots : has_slots g;
  go_vertices : ∀ l v, 0 ≤ l → Schema.is_vertex_label_valid l (schema_ g) = true →
    vertex_tables_ g !! Z.to_nat l = Some v → vt_shows v (B l);
  go_edges : tables (fits (vertex_tables_ g)) g E
}.

(** ** Labels of tables *)

Lemma valid_label s l : ok s → 0 ≤ l → Schema.is_vertex_label_valid l s = true →
  is_label l ∧ l < LabelIndexer.num_slots (Schema.vlabel_indexer_ s).
Proof.
  intros Hok Hl Hv. pose proof (valid_bound s l Hok Hv). split; [unfold is_label; lia|].
  unfold Schema.is_vertex_label_valid in Hv. by apply andb_true_iff in Hv as [Hv%Z.ltb_lt _].
Qed.

Lemma valid_table g B E l : graph_ok g B E → 0 ≤ l → Schema.is_vertex_label_valid l (schema_ g) = true →
  ∃ v, vertex_tables_ g !! Z.to_nat l = Some v ∧ vt_shows v (B l).
Proof.
  intros Hg Hl Hv. destruct (valid_label _ _ (go_schema _ _ _ Hg) Hl Hv) as [_ Hlt].
  pose proof (go_vlen _ _ _ Hg). destruct (lookup_lt_is_Some_2 (vertex_tables_ g) (Z.to_nat l)) as [v Hvt]; [lia|].
  exists v. split; [done|]. by apply (go_vertices _ _ _ Hg l v).
Qed.

Lemma table_labels g B E k t :
  graph_ok g B E → edge_tables_ g !! k = Some t → ∃ s d e,
    k = triplet_key s d e ∧ is_label s ∧ is_label d ∧ is_label e ∧ Schema.parse_edge_label k = (s, d, e) ∧
    Schema.is_vertex_label_valid s (schema_ g) = true ∧ Schema.is_vertex_label_valid d (schema_ g) = true ∧
    e < LabelIndexer.num_slots (Schema.elabel_indexer_ (schema_ g)).
Proof.
  intros Hg Ht. destruct (proj1 (go_dom _ _ _ Hg k)) as [x Hx]; [by eexists|]. pose proof (go_schema _ _ _ Hg) as Hok.
  destruct (ok_triplets _ Hok _ _ Hx) as (s & d & e & -> & Hs & Hd & Hvs & Hvd & He & _).
  destruct (valid_label _ _ Hok Hs Hvs) as [Ls _], (valid_label _ _ Hok Hd Hvd) as [Ld _].
  destruct (LabelIndexer.wf_bound _ _ _ (ok_e _ Hok) He) as [Hb Hb'].
  exists s, d, e. assert (is_label e) by (unfold is_label; lia). split_and!; [done..| |done|done|lia]. by apply triplet_roundtrip.
Qed.

Lemma has_triplet_iff g B E s d e :
  graph_ok g B E → Schema.has_edge_triplet s d e (schema_ g) = true ↔ is_Some (edge_tables_ g !! triplet_key s d e).
Proof. intros Hg. unfold Schema.has_edge_triplet. rewrite bool_decide_eq_true. symmetry. apply Hg. Qed.

Lemma elem_labels l n : l ∈ labels n ↔ 0 ≤ l < n.
Proof. unfold labels. rewrite elem_of_seqZ. lia. Qed.

(** The tables visited at a label are those of the triplets with the label, on
    the side that the visit is for. *)
Lemma visits_iff g B E label k (b : bool) :
  graph_ok g B E → 0 ≤ label → Schema.is_vertex_label_valid label (schema_ g) = true →
  (k, b) ∈ visits label g ↔
  is_Some (edge_tables_ g !! k) ∧ let '(s, d, _) := Schema.parse_edge_label k in (if b then s else d) = label.
Proof.
  intros Hg Hl Hv. destruct (valid_label _ _ (go_schema _ _ _ Hg) Hl Hv) as [Ll _].
  pose proof (LabelIndexer.wf_size _ (ok_e _ (go_schema _ _ _ Hg))) as He256. split.
  - unfold visits. intros (i & Hin & Hi%elem_labels)%list_elem_of_bind.
    destruct (Schema.is_vertex_label_valid i (schema_ g)) eqn:Hvi; cbn [negb] in Hin; [|by apply not_elem_of_nil in Hin].
    destruct (valid_label _ _ (go_schema _ _ _ Hg) (proj1 Hi) Hvi) as [Li _].
    apply list_elem_of_bind in Hin as (j & Hin & Hj%elem_labels). rewrite (go_ecount _ _ _ Hg) in Hj.
    assert (Lj : is_label j) by (unfold is_label; lia).
    apply elem_of_app in Hin as [Hin|Hin]; (destruct (Schema.has_edge_triplet _ _ _ _) eqn:Ht; [|by apply not_elem_of_nil in Hin]);
      apply list_elem_of_singleton in Hin; injection Hin as -> ->; apply (has_triplet_iff g B E) in Ht; try done;
      (split; [done|]); [destruct (triplet_roundtrip i label j Li Ll Lj) as [-> _]|destruct (triplet_roundtrip label i j Ll Li Lj) as [-> _]]; done.
  - intros [[t Ht] Hp]. destruct (table_labels g B E k t Hg Ht) as (s & d & e & -> & Ls & Ld & Le & Hparse & Hvs & Hvd & Hek).
    rewrite Hparse in Hp. unfold visits. apply list_elem_of_bind.
    assert (Hmem : ∀ i, is_label i → Schema.is_vertex_label_valid i (schema_ g) = true → i ∈ labels (vertex_label_total_count_ g)).
    { intros i Li Hvi. apply elem_labels. rewrite (go_vcount _ _ _ Hg). destruct (valid_label _ _ (go_schema _ _ _ Hg) (proj1 Li) Hvi). unfold is_label in *. lia. }
    assert (Hej : e ∈ labels (edge_label_total_count_ g)) by (apply elem_labels; rewrite (go_ecount _ _ _ Hg); unfold is_label in *; lia).
    assert (Hhas : Schema.has_edge_triplet s d e (schema_ g) = true) by (apply (has_triplet_iff g B E); [done|by eexists]).
    destruct b; subst label.
    + exists d. rewrite Hvd. split; [|by apply Hmem]. cbn [negb]. apply list_elem_of_bind. exists e. split; [|done]. rewrite Hhas.
      apply elem_of_app. right. by left.
    + exists s. rewrite Hvs. split; [|by apply Hmem]. cbn [negb]. apply list_elem_of_bind. exists e. split; [|done]. rewrite Hhas.
      apply elem_of_app. left. by left.
Qed.

(** ** Changes that keep the invariant *)

Lemma graph_ok_edges g g' B E E' :
  graph_ok g B E → same_frame g g' → dom (edge_tables_ g') = dom (edge_tables_ g) → has_slots g' →
  tables (fits (vertex_tables_ g)) g' E' → graph_ok g' B E'.
Proof.
  intros [H1 H2 H3 H4 H5 H6 H7 H8] (F1 & F2 & F3 & F4) Hdom Hs Ht.
  split; rewrite ?F1, ?F2, ?F3, ?F4; try done. intros k. rewrite <- H5, <- !elem_of_dom. by rewrite Hdom.
Qed.

Lemma graph_ok_vertex g B E label v v' b :
  graph_ok g B E → 0 ≤ label → vertex_tables_ g !! Z.to_nat label = Some v → vt_shows v' b → vt_Capacity v' = vt_Capacity v →
  graph_ok (set_vertex_tables (<[Z.to_nat label := v']> (vertex_tables_ g)) g) (λ l, if decide (l = label) then b else B l) E.
Proof.
  intros [H1 H2 H3 H4 H5 H6 H7 H8] Hl Hv Hb Hc. apply lookup_lt_Some in Hv as Hlt.
  split; cbn [schema_ vertex_tables_ edge_tables_ vertex_label_total_count_ edge_label_total_count_ set_vertex_tables];
    rewrite ?length_insert; try done.
  - intros l w Hl' Hval. destruct (decide (l = label)) as [->|Hne].
    + rewrite list_lookup_insert_eq by done. by intros [= <-].
    + rewrite list_lookup_insert_ne by lia. by apply H7.
  - intros k t Ht. destruct (H8 k t Ht) as (Hr & Hcap & Hroom). split_and!; [done|split; [done|]].
    intros s d e Ls Ld Le Hk. destruct (Hroom s d e Ls Ld Le Hk) as [R1 R2].
    assert (Hold : ∀ i w, <[Z.to_nat label := v']> (vertex_tables_ g) !! i = Some w →
                   ∃ w', vertex_tables_ g !! i = Some w' ∧ vt_Capacity w' = vt_Capacity w).
    { intros i w. destruct (decide (i = Z.to_nat label)) as [->|Hne].
      - rewrite list_lookup_insert_eq by done. intros [= <-]. by exists v.
      - rewrite list_lookup_insert_ne by done. by exists w. }
    split; intros w (w' & Hw' & <-)%Hold; [by apply R1|by apply R2].
Qed.

Lemma graph_ok_ext g B B' E E' : (∀ l, B l = B' l) → (∀ k, E k = E' k) → graph_ok g B E → graph_ok g B' E'.
Proof.
  intros HB HE [H1 H2 H3 H4 H5 H6 H7 H8]. split; try done.
  - intros l v. rewrite <- HB. apply H7.
  - intros k t. rewrite <- HE. apply H8.
Qed.

(** ** The tables at a label *)

(** [P] on the side, or the sides, where a triplet has the label. *)
Definition spared (P : bool → arc Val → Prop) (label k : Z) (a : arc Val) : Prop :=
  let '(s, d, _) := Schema.parse_edge_label k in (s = label → P true a) ∧ (d = label → P false a).
#[export] Instance spared_dec P `{!∀ b a, Decision (P b a)} label k a : Decision (spared P label k a).
Proof. unfold spared. destruct (Schema.parse_edge_label k) as [[s d] e]. apply _. Defined.

Lemma fits_kept vs k t t' l l' :
  fits vs k t l → capacity_ t' = capacity_ t → (∀ b, Csr.size (this_csr b t') = Csr.size (this_csr b t)) → fits vs k t' l'.
Proof.
  intros [Hc Hr] Ec Es. split; [by rewrite Ec|]. pose proof (Es true) as Eo. pose proof (Es false) as Ei. cbn in Eo, Ei.
  intros s d e Ls Ld Le Hk. rewrite Eo, Ei. exact (Hr s d e Ls Ld Le Hk).
Qed.

Lemma at_label_ok g B E label (body : bool → st (etable C) unit) (P : bool → arc Val → Prop) `{!∀ b a, Decision (P b a)}
    (Q : etable C → list (arc Val) → Prop) :
  graph_ok g B E → 0 ≤ label → Schema.is_vertex_label_valid label (schema_ g) = true →
  (∀ k b t l, (k, b) ∈ visits label g → rep t l → fits (vertex_tables_ g) k t l → Q t l →
     let x := body b t in x.2 = Ok tt ∧ rep x.1 (filter (P b) l) ∧ Q x.1 (filter (P b) l) ∧
     capacity_ x.1 = capacity_ t ∧ ∀ b', Csr.size (this_csr b' x.1) = Csr.size (this_csr b' t)) →
  (∀ k t, edge_tables_ g !! k = Some t → Q t (E k)) →
  let x := at_label label body g in
  x.2 = Ok tt ∧ vertex_tables_ x.1 = vertex_tables_ g ∧ schema_ x.1 = schema_ g ∧
  graph_ok x.1 B (λ k, filter (spared P label k) (E k)).
Proof.
  intros Hg Hl Hv Hbody HQ. rewrite at_label_visits.
  destruct (visits_ok (V := V) fst (λ u, body u.2) false (λ u, P u.2) (λ k t l, fits (vertex_tables_ g) k t l ∧ Q t l) (λ _ _, True)
              (λ u, (u : Z * bool) ∈ visits label g)) with (us := visits label g) (g := g) (E := E) as (H1 & H2 & H3 & H4 & H5 & _).
  - intros [k b] t l Hu Hr [Hf Hq]. cbn [fst snd] in *. destruct (Hbody k b t l Hu Hr Hf Hq) as (D1 & D2 & D3 & D4 & D5).
    split_and!; [done|exact D2|by eapply fits_kept|done|done|done].
  - intros k t Ht. destruct (go_edges _ _ _ Hg k t Ht) as [Hr Hf]. split_and!; [done|done|by apply HQ].
  - apply Hg.
  - apply Forall_forall. intros [k b] Hu. split; [done|]. by apply (visits_iff g B E) in Hu as [? _].
  - split_and!; [exact H1|apply H2|apply H2|]. eapply graph_ok_edges; [exact Hg|exact H2|exact H3|exact H4|].
    intros k t Ht. destruct (H5 k t Ht) as [Hr [Hf _]].
    assert (Heq : filter (kept fst (λ u : Z * bool, P u.2) (visits label g) k) (E k) = filter (spared P label k) (E k));
      [|by rewrite <- Heq].
    apply list_filter_iff. intros a. unfold kept. rewrite Forall_forall.
    assert (Hin : ∀ b : bool, (k, b) ∈ visits label g ↔ let '(s, d, _) := Schema.parse_edge_label k in (if b then s else d) = label).
    { intros b. rewrite (visits_iff g B E) by done. split; [tauto|]. intros Hp. split; [|done].
      apply elem_of_dom. rewrite <- H3. apply elem_of_dom. by eexists. }
    unfold spared. destruct (Schema.parse_edge_label k) as [[s d] e]. split.
    + intros Hall. split; intros Hlab; [apply (Hall (k, true))|apply (Hall (k, false))]; try (by apply Hin); done.
    + intros [Ht' Hf'] [k' []]; cbn [fst snd]; intros Hu ->; apply Hin in Hu; auto.
Qed.

(** ** Deleting vertices *)

(** An edge at the vertex, visible at the timestamp. *)
Definition at_vertex (label lid ts k : Z) (a : arc Val) : Prop :=
  let '(s, d, _) := Schema.parse_edge_label k in
  a_ts a ≤ ts ∧ (s = label ∧ a_src a = lid ∨ d = label ∧ a_dst a = lid).
#[export] Instance at_vertex_dec label lid ts k a : Decision (at_vertex label lid ts k a).
Proof. unfold at_vertex. destruct (Schema.parse_edge_label k) as [[s d] e]. apply _. Defined.

Lemma detach_ok g B E label lid ts :
  graph_ok g B E → 0 ≤ label → Schema.is_vertex_label_valid label (schema_ g) = true → 0 ≤ ts < INVALID_TIMESTAMP →
  0 ≤ lid < len (B label) → (∀ k t b, edge_tables_ g !! k = Some t → searchable b ts t (E k)) →
  let x := at_label label (λ is_src, EdgeTable.DeleteVertex is_src lid ts) g in
  x.2 = Ok tt ∧ vertex_tables_ x.1 = vertex_tables_ g ∧ schema_ x.1 = schema_ g ∧
  graph_ok x.1 B (λ k, filter (λ a, ¬ at_vertex label lid ts k a) (E k)).
Proof.
  intros Hg Hl Hv Hts Hlid Hsearch. destruct (valid_table g B E label Hg Hl Hv) as (v & Hvt & Hshow).
  pose proof (law_room _ _ Hshow) as Hcap.
  destruct (at_label_ok g B E label (λ is_src, EdgeTable.DeleteVertex is_src lid ts) (λ b a, ¬ seen b lid ts a)
              (λ t l, ∀ b, searchable b ts t l)) as (H1 & H2 & H3 & H4); [done..| |by intros k t Ht b; apply Hsearch|].
  - intros k b t l Hu Hr [Hc Hroom] Hs. apply (visits_iff g B E) in Hu as [[t0 Ht0] Hside]; [|done..].
    destruct (table_labels g B E k t0 Hg Ht0) as (s & d & e & -> & Ls & Ld & Le & Hparse & _). rewrite Hparse in Hside.
    destruct (Hroom s d e Ls Ld Le eq_refl) as [R1 R2].
    assert (Hsize : lid < Csr.size (this_csr b t)).
    { destruct b; subst label; [specialize (R1 v Hvt)|specialize (R2 v Hvt)]; cbn; lia. }
    destruct (DeleteVertex_rep b lid ts t l Hr (conj (proj1 Hlid) Hsize) Hts (Hs b)) as (D1 & D2 & [D3 D4] & D5).
    split_and!; [done|exact D2| |done|done]. intros b'.
    eapply searchable_sub; [exact D3| |apply Hs]. apply sublist_submseteq, sublist_filter.
  - split_and!; [done..|]. revert H4. apply graph_ok_ext; [done|]. intros k. apply list_filter_iff. intros a.
    unfold spared, at_vertex, seen. destruct (Schema.parse_edge_label k) as [[s d] e]. cbn [orient flip a_src]. tauto.
Qed.

(** An edge with an end among the vertices. *)
Definition at_any (label : Z) (lids : gset Z) (k : Z) (a : arc Val) : Prop :=
  let '(s, d, _) := Schema.parse_edge_label k in s = label ∧ a_src a ∈ lids ∨ d = label ∧ a_dst a ∈ lids.
#[export] Instance at_any_dec label lids k a : Decision (at_any label lids k a).
Proof. unfold at_any. destruct (Schema.parse_edge_label k) as [[s d] e]. apply _. Defined.

Lemma batch_detach_ok g B E label (lids : gset Z) :
  graph_ok g B E → 0 ≤ label → Schema.is_vertex_label_valid label (schema_ g) = true →
  let x := at_label label (λ is_src, if is_src then EdgeTable.BatchDeleteVertices lids ∅ else EdgeTable.BatchDeleteVertices ∅ lids) g in
  x.2 = Ok tt ∧ vertex_tables_ x.1 = vertex_tables_ g ∧ schema_ x.1 = schema_ g ∧
  graph_ok x.1 B (λ k, filter (λ a, ¬ at_any label lids k a) (E k)).
Proof.
  intros Hg Hl Hv.
  set (sides := λ b : bool, if b then (lids, ∅ : gset Z) else (∅, lids)).
  destruct (at_label_ok g B E label (λ is_src, if is_src then EdgeTable.BatchDeleteVertices lids ∅ else EdgeTable.BatchDeleteVertices ∅ lids)
              (λ b, off (sides b).1 (sides b).2) (λ _ _, True)) as (H1 & H2 & H3 & H4); [done..| |done|].
  - intros k b t l _ Hr _ _.
    destruct (BatchDeleteVertices_rep (sides b).1 (sides b).2 t l Hr) as (D1 & D2 & D3 & [_ D4] & [_ D5]).
    destruct b; (split_and!; [exact D1|exact D2|done|exact D3|intros []; [exact D4|exact D5]]).
  - split_and!; [done..|]. revert H4. apply graph_ok_ext; [done|]. intros k. apply list_filter_iff. intros a.
    unfold spared, at_any, off. destruct (Schema.parse_edge_label k) as [[s d] e]. cbn. set_solver.
Qed.
End graph.
