(* ===== verification/GraphCapacity.v ===== *)
(** * Capacity of a property graph

    A vertex table that grows takes the edge tables at its label along
    ([SyncIncidentEdgeCapacity]), so that every edge table has room for every
    vertex of its labels. *)

From stdpp Require Import gmap.
From S2P Require Import Prelude Values StringColumn Tables PropertyColumns CsrView VertexTable CsrBase EdgeSchema EdgeTable EdgeArcs EdgeStores EdgeTableSpec EdgeTableDelete EdgeTableProperties LabelIndexer SchemaLabels SchemaLabelsProperties DirtyTracker PropertyGraph GraphVertices GraphEdges GraphInvariant.
Import EdgeTable PropertyGraph.

Section graph.
Context {V C : Type} {HV : VertexTables V} {HL : VertexTableLaws V} {HC : ColumnBase C} {HM : Memory}.
Abbreviation G := (graph V C).
Implicit Types (g : G) (B : Z → list (option Z)) (E : Z → list (arc Val)).

(** ** The visits of the loops *)

Definition cap_of g (l : Z) : Z := from_option vt_Capacity 0 (vertex_tables_ g !! Z.to_nat l).

(** A table and the room its directions need. *)
Definition syncs (label : Z) g : list (Z * (Z * Z)) :=
  labels (vertex_label_total_count_ g) ≫= λ d,
    if negb (Schema.is_vertex_label_valid d (schema_ g)) then []
    else labels (edge_label_total_count_ g) ≫= λ e,
      (if has_table (triplet_key label d e) g then [(triplet_key label d e, (cap_of g label, cap_of g d))] else []) ++
      (if negb (label =? d) && has_table (triplet_key d label e) g then [(triplet_key d label e, (cap_of g d, cap_of g label))] else []).

Definition grow_both (u : Z * (Z * Z)) : st (etable C) unit := EnsureVertexCapacity u.2.1 u.2.2 0.

Lemma bind_same {S A D} (f : A → st S D) (m m' : st S A) s : m s = m' s → (m ≫= f) s = (m' ≫= f) s.
Proof. intros H. unfold mbind, st_bind. by rewrite H. Qed.

Lemma sync_syncs label g v :
  Schema.is_vertex_label_valid label (schema_ g) = true → vertex_tables_ g !! Z.to_nat label = Some v →
  (∀ d, 0 ≤ d → Schema.is_vertex_label_valid d (schema_ g) = true → is_Some (vertex_tables_ g !! Z.to_nat d)) →
  SyncIncidentEdgeCapacity label g = (for_each (syncs label g) (visit fst grow_both true);; mret OK) g.
Proof.
  intros Hv Hvt Hall. unfold SyncIncidentEdgeCapacity, vertex_label_check. rewrite get_then, Hv. cbn [negb].
  rewrite Hvt. cbn [of_option]. rewrite lift_then. apply (bind_same (λ _, mret OK)).
  unfold syncs. rewrite <- for_each_nested. apply for_each_ext. intros d s Hd%elem_labels.
  destruct (Schema.is_vertex_label_valid d (schema_ g)) eqn:Hvd; cbn [negb]; [|done].
  rewrite <- for_each_nested. apply for_each_ext. intros e s' _.
  destruct (Hall d (proj1 Hd) Hvd) as [w Hw]. rewrite Hw. cbn [of_option]. rewrite lift_then.
  rewrite <- (pair_for_each _ _ _ _ (visit fst grow_both true)). unfold visit, grow_both, cap_of. cbn [fst snd].
  rewrite Hvt, Hw. cbn [from_option]. by destruct (negb (label =? d)).
Qed.

Lemma has_table_iff k g : has_table k g = true ↔ is_Some (edge_tables_ g !! k).
Proof. unfold has_table. by rewrite bool_decide_eq_true. Qed.

Lemma syncs_tables label g u : u ∈ syncs label g → is_Some (edge_tables_ g !! u.1).
Proof.
  unfold syncs. intros (d & Hin & _)%list_elem_of_bind. destruct (negb _) in Hin; [by apply not_elem_of_nil in Hin|].
  apply list_elem_of_bind in Hin as (e & Hin & _). rewrite <- has_table_iff.
  apply elem_of_app in Hin as [Hin|Hin].
  - destruct (has_table (triplet_key label d e) g) eqn:Ht; [|by apply not_elem_of_nil in Hin]. apply list_elem_of_singleton in Hin. by subst u.
  - destruct (has_table (triplet_key d label e) g) eqn:Ht; [|rewrite andb_false_r in Hin; by apply not_elem_of_nil in Hin].
    destruct (negb _) in Hin; [|by apply not_elem_of_nil in Hin]. apply list_elem_of_singleton in Hin. by subst u.
Qed.

(** A table with the label is visited with the capacities of both its labels. *)
Lemma syncs_reach g B E label s d e t :
  graph_ok g B E → 0 ≤ label → is_label s → is_label d → is_label e → edge_tables_ g !! triplet_key s d e = Some t →
  s = label ∨ d = label → ∀ g', schema_ g' = schema_ g → vertex_label_total_count_ g' = vertex_label_total_count_ g →
  edge_label_total_count_ g' = edge_label_total_count_ g → edge_tables_ g' = edge_tables_ g →
  (triplet_key s d e, (cap_of g' s, cap_of g' d)) ∈ syncs label g'.
Proof.
  intros Hg Hl Ls Ld Le Ht Hside g' F1 F2 F3 F4.
  destruct (table_labels g B E _ t Hg Ht) as (s' & d' & e' & Hk & Ls' & Ld' & Le' & _ & Hvs & Hvd & He).
  apply generate_inj in Hk; [|done..]. destruct Hk as (<- & <- & <-).
  destruct (valid_label _ _ (go_schema _ _ _ Hg) (proj1 Ls) Hvs) as [_ Hns], (valid_label _ _ (go_schema _ _ _ Hg) (proj1 Ld) Hvd) as [_ Hnd].
  assert (Hhas : has_table (triplet_key s d e) g' = true) by (apply has_table_iff; rewrite F4; by eexists).
  assert (Hm : ∀ l, is_label l → l < LabelIndexer.num_slots (Schema.vlabel_indexer_ (schema_ g)) → l ∈ labels (vertex_label_total_count_ g')).
  { intros l Ll Hlt. apply elem_labels. rewrite F2, (go_vcount _ _ _ Hg). unfold is_label in Ll. lia. }
  assert (Hej : e ∈ labels (edge_label_total_count_ g')) by (apply elem_labels; rewrite F3, (go_ecount _ _ _ Hg); unfold is_label in Le; lia).
  unfold syncs. apply list_elem_of_bind. destruct (decide (s = label)) as [->|Hne].
  - exists d. split; [|by apply Hm]. rewrite F1, Hvd. cbn [negb]. apply list_elem_of_bind. exists e. split; [|done].
    rewrite Hhas. apply elem_of_app. left. by left.
  - destruct Hside as [Heq|Heq]; [done|subst d]. exists s. split; [|by apply Hm]. rewrite F1, Hvs. cbn [negb].
    apply list_elem_of_bind. exists e. split; [|done]. apply elem_of_app. right.
    rewrite (proj2 (Z.eqb_neq label s)), Hhas by done. by left.
Qed.

(** ** The sync *)

(** A direction that has the room a visit asks for. *)
Definition has_room (u : Z * (Z * Z)) (t : etable C) : Prop :=
  u.2.1 ≤ Csr.size (out_csr_ t) ∧ u.2.2 ≤ Csr.size (in_csr_ t).

Lemma grow_both_ok vs u t l :
  rep t l → fits vs u.1 t l →
  let x := grow_both u t in
  x.2 = Ok tt ∧ rep x.1 (filter (λ _, True) l) ∧ fits vs u.1 x.1 (filter (λ _, True) l) ∧ has_room u x.1 ∧
  ∀ u', u'.1 = u.1 → has_room u' t → has_room u' x.1.
Proof.
  intros Hr [Hc Hroom]. unfold grow_both. destruct (grow_to_vertices u.2.1 u.2.2 t l Hr Hc) as (t' & -> & Hr' & _ & Hc' & Ho & Hi).
  rewrite filter_all_in by done. cbn [fst snd]. unfold has_room. rewrite Ho, Hi. split_and!; [done|done| |lia|lia|].
  - split; [by rewrite Hc'|]. intros s d e Ls Ld Le Hk. destruct (Hroom s d e Ls Ld Le Hk) as [R1 R2]. rewrite Ho, Hi.
    split; intros v Hv; [specialize (R1 v Hv)|specialize (R2 v Hv)]; lia.
  - intros u' _ ?. lia.
Qed.

(** [Sync] after a change of one vertex table, with the vertices kept. *)
Lemma sync_ok g B E label v v' :
  graph_ok g B E → 0 ≤ label → Schema.is_vertex_label_valid label (schema_ g) = true →
  vertex_tables_ g !! Z.to_nat label = Some v → vt_shows v' (B label) →
  let g' := set_vertex_tables (<[Z.to_nat label := v']> (vertex_tables_ g)) g in
  let x := SyncIncidentEdgeCapacity label g' in
  x.2 = Ok OK ∧ vertex_tables_ x.1 = vertex_tables_ g' ∧ graph_ok x.1 B E.
Proof.
  intros Hg Hl Hv Hvt Hshow g'. apply lookup_lt_Some in Hvt as Hlt.
  assert (Hnew : vertex_tables_ g' !! Z.to_nat label = Some v') by (by apply list_lookup_insert_eq).
  assert (Hsame : ∀ i, i ≠ Z.to_nat label → vertex_tables_ g' !! i = vertex_tables_ g !! i) by (intros i Hi; by apply list_lookup_insert_ne).
  rewrite (sync_syncs label g' v'); [|done|done|].
  2:{ intros d Hd Hvd. cbn [vertex_tables_ g' set_vertex_tables]. apply lookup_lt_is_Some. rewrite length_insert.
      destruct (valid_label _ _ (go_schema _ _ _ Hg) Hd Hvd). pose proof (go_vlen _ _ _ Hg). lia. }
  destruct (visits_ok (V := V) fst grow_both true (λ _ _, True) (fits (vertex_tables_ g)) has_room (λ _, True))
    with (us := syncs label g') (g := g') (E := E) as (H1 & H2 & H3 & H4 & H5 & H6).
  - intros u t l _. apply grow_both_ok.
  - apply (go_edges _ _ _ Hg).
  - apply (go_slots _ _ _ Hg).
  - apply Forall_forall. intros u Hu. split; [done|by apply syncs_tables in Hu].
  - cbv zeta. rewrite (st_bind_done _ _ _ tt H1). cbn [fst snd mret st_ret]. destruct H2 as (F1 & F2 & F3 & F4). split_and!; [done|done|].
    destruct Hg as [I1 I2 I3 I4 I5 I6 I7 I8].
    split; rewrite ?F1, ?F2, ?F3, ?F4; cbn [g' schema_ vertex_tables_ vertex_label_total_count_ edge_label_total_count_ set_vertex_tables];
      rewrite ?length_insert; try done.
    + intros k. rewrite <- I5, <- !elem_of_dom, H3. done.
    + intros l w Hl' Hval Hw. destruct (decide (l = label)) as [->|Hne].
      * change (vertex_tables_ g' !! Z.to_nat label = Some w) in Hw. rewrite Hnew in Hw. by injection Hw as <-.
      * change (vertex_tables_ g' !! Z.to_nat l = Some w) in Hw. rewrite Hsame in Hw by lia. by apply (I7 l).
    + change (<[Z.to_nat label := v']> (vertex_tables_ g)) with (vertex_tables_ g').
      intros k t Ht. destruct (H5 k t Ht) as (Hr & Hc & Hroom).
      rewrite filter_all_in in Hr by (intros a _; apply Forall_forall; done). split; [done|]. split; [done|].
      intros s d e Ls Ld Le ->. destruct (Hroom s d e Ls Ld Le eq_refl) as [R1 R2].
      assert (Hsync : s = label ∨ d = label → cap_of g' s ≤ Csr.size (out_csr_ t) ∧ cap_of g' d ≤ Csr.size (in_csr_ t)).
      { intros Hside. assert (Hd : is_Some (edge_tables_ g !! triplet_key s d e)).
        { apply elem_of_dom. change (dom (edge_tables_ g)) with (dom (edge_tables_ g')). rewrite <- H3. apply elem_of_dom. by eexists. }
        destruct Hd as [t0 Ht0].
        apply (H6 (triplet_key s d e, (cap_of g' s, cap_of g' d)) t0 t); [done|done|left].
        apply (syncs_reach g B E label s d e t0); done. }
      unfold cap_of in Hsync.
      split; intros w Hw; rewrite Hw in Hsync; cbn [from_option] in Hsync.
      * destruct (decide (s = label ∨ d = label)) as [Hside|Hno]; [by apply Hsync in Hside as [? _]|].
        apply R1. rewrite <- Hsame; [done|]. unfold is_label in *. intros ?. apply Hno. left. lia.
      * destruct (decide (s = label ∨ d = label)) as [Hside|Hno]; [by apply Hsync in Hside as [_ ?]|].
        apply R2. rewrite <- Hsame; [done|]. unfold is_label in *. intros ?. apply Hno. right. lia.
Qed.

(** C10: Growing the vertex table of a label of a consistent
    graph succeeds where the table can grow, gives the label the room that was
    asked for, and leaves the graph consistent with the same vertices and edges:
    in particular every edge table with the label, on either side or on both, has a list
    for every vertex there is now room for. *)
Theorem graph_ensure_capacity g B E label n :
  graph_ok g B E → 0 ≤ label → Schema.is_vertex_label_valid label (schema_ g) = true →
  (∀ v, vertex_tables_ g !! Z.to_nat label = Some v → vt_may_grow n v) →
  let x := EnsureCapacity label n g in
  x.2 = Ok OK ∧ graph_ok x.1 B E ∧ ∃ v, vertex_tables_ x.1 !! Z.to_nat label = Some v ∧ n ≤ vt_Capacity v.
Proof.
  intros Hg Hl Hv Hgrow. destruct (valid_table g B E label Hg Hl Hv) as (v & Hvt & Hshow).
  unfold EnsureCapacity, vertex_label_check. rewrite get_then, Hv, Hvt. cbn [of_option]. rewrite lift_then.
  destruct (Z.leb_spec n (vt_Capacity v)) as [Hle|Hgt]; [split_and!; [done|done|by exists v]|].
  destruct (law_grow v (B label) n Hshow (Hgrow v Hvt) Hgt) as (v' & m & Ev & Hshow' & Hn).
  erewrite st_bind_ok by (unfold with_vertex; rewrite Hvt, Ev; reflexivity).
  destruct (sync_ok g B E label v v' Hg Hl Hv Hvt Hshow') as (H1 & H2 & H3). split_and!; [done|done|].
  exists v'. rewrite H2. split; [|done]. apply list_lookup_insert_eq. by apply lookup_lt_Some in Hvt.
Qed.
End graph.
