(* ===== verification/GraphTypes.v ===== *)
(** * Deleting types from a property graph

    Deleting a vertex type deletes every triplet with its label, and no other,
    and frees the label: the graph stays consistent, so that the id can be given
    to another type. *)

From stdpp Require Import gmap.
From S2P Require Import Prelude Values StringColumn Tables PropertyColumns CsrView VertexTable CsrBase EdgeSchema EdgeTable EdgeArcs EdgeStores EdgeTableSpec EdgeTableDelete EdgeTableProperties LabelIndexer SchemaLabels SchemaLabelsProperties DirtyTracker PropertyGraph GraphVertices GraphEdges GraphInvariant.
Import EdgeTable PropertyGraph.

Section graph.
Context {V C : Type} {HV : VertexTables V} {HL : VertexTableLaws V} {HC : ColumnBase C} {HM : Memory}.
Abbreviation G := (graph V C).
Implicit Types (g : G) (B : Z → list (option Z)) (E : Z → list (arc Val)).

(** What deleting a triplet leaves as it is. *)
Definition keeps_vertices g g' : Prop :=
  same_vertices (schema_ g) (schema_ g') ∧ vertex_tables_ g' = vertex_tables_ g ∧
  vertex_label_total_count_ g' = vertex_label_total_count_ g ∧ edge_label_total_count_ g' = edge_label_total_count_ g.

Lemma keeps_vertices_trans g g' g'' : keeps_vertices g g' → keeps_vertices g' g'' → keeps_vertices g g''.
Proof. intros ((A1 & A2 & A3) & B1 & B2 & B3) ((C1 & C2 & C3) & D1 & D2 & D3). unfold keeps_vertices, same_vertices. split_and!; congruence. Qed.

(** ** One triplet *)

Definition erased (k : Z) g : G := if has_table k g then erase_edge_table k g else g.

Lemma DeleteEdgeType_run s d e g B E :
  graph_ok g B E → is_label s → is_label d → is_label e →
  let x := with_schema (Schema.DeleteEdgeLabel s d e false) g in
  let g' := erased (triplet_key s d e) x.1 in
  x.2 = Ok tt ∧ graph_ok g' B E ∧ keeps_vertices g g' ∧ edge_tables_ g' = delete (triplet_key s d e) (edge_tables_ g).
Proof.
  intros [H1 H2 H3 H4 H5 H6 H7 H8] Ls Ld Le. destruct (DeleteEdgeLabel_ok s d e (schema_ g) H1 Ls Ld Le) as (D1 & D2 & D3 & D4).
  pose proof (DeleteEdgeLabel_slots s d e false (schema_ g)) as D5. set (k := triplet_key s d e) in *.
  unfold with_schema, on. destruct (Schema.DeleteEdgeLabel s d e false (schema_ g)) as [sc r]. cbn [fst snd] in *. subst r.
  set (g1 := set_schema sc g). assert (Htab : edge_tables_ (erased k g1) = delete k (edge_tables_ g)).
  { unfold erased, has_table. cbn [g1 set_schema edge_tables_]. destruct (edge_tables_ g !! k) as [t|] eqn:Ht.
    - by rewrite bool_decide_true by eauto.
    - rewrite bool_decide_false by (by intros [? ?]). by rewrite delete_id. }
  assert (Hsl : has_slots (erased k g1)).
  { intros j. rewrite Htab. intros [t [Hne Ht]%lookup_delete_Some]. destruct (H6 j) as [b Hb]; [by eexists|]. exists b.
    unfold erased, has_table. destruct (bool_decide _); [|done]. cbn. by rewrite lookup_delete_ne. }
  assert (Hfr : schema_ (erased k g1) = sc ∧ vertex_tables_ (erased k g1) = vertex_tables_ g ∧
    vertex_label_total_count_ (erased k g1) = vertex_label_total_count_ g ∧ edge_label_total_count_ (erased k g1) = edge_label_total_count_ g).
  { unfold erased. by destruct (has_table k g1). }
  destruct Hfr as (F1 & F2 & F3 & F4). destruct D3 as (S1 & S2 & S3).
  split_and!; [done| |unfold keeps_vertices, same_vertices; rewrite F1; done|done].
  split; rewrite ?F1, ?F2, ?F3, ?F4, ?S1; try done.
  - by rewrite D5.
  - intros j. rewrite Htab, D4. destruct (decide (j = k)) as [->|Hne]; [by rewrite !lookup_delete_eq|]. by rewrite !lookup_delete_ne.
  - intros l v Hl. rewrite (same_vertices_valid (schema_ g) sc) by done. by apply H7.
  - intros j t. rewrite Htab. intros [_ Ht]%lookup_delete_Some. by apply H8.
Qed.

Lemma drop_triplet_ok g B E s d e :
  graph_ok g B E → is_label s → is_label d → is_label e →
  let x := drop_triplet s d e g in
  x.2 = Ok tt ∧ graph_ok x.1 B E ∧ keeps_vertices g x.1 ∧ edge_tables_ x.1 = delete (triplet_key s d e) (edge_tables_ g).
Proof.
  intros Hg Ls Ld Le. unfold drop_triplet. rewrite get_then. rewrite <- has_triplet_valid by apply Hg.
  destruct (Schema.has_edge_triplet s d e (schema_ g)) eqn:Ht.
  - destruct (DeleteEdgeType_run s d e g B E Hg Ls Ld Le) as (H1 & H2 & H3 & H4). rewrite (st_bind_done _ _ _ tt H1). cbv zeta. done.
  - split_and!; [done|done|done|]. symmetry. apply delete_id. destruct (edge_tables_ g !! triplet_key s d e) eqn:Hl; [|done].
    assert (Hs : Schema.has_edge_triplet s d e (schema_ g) = true) by (apply (has_triplet_iff g B E); [done|by eexists]). by rewrite Hs in Ht.
Qed.

(** Deleting an edge type of a consistent graph succeeds,
    removes its edge table and its triplet and no other table, and leaves the graph
    consistent. *)
Theorem graph_delete_edge_type g B E s d e :
  graph_ok g B E → is_label s → is_label d → is_label e →
  let x := DeleteEdgeType s d e g in
  x.2 = Ok OK ∧ graph_ok x.1 B E ∧ edge_tables_ x.1 = delete (triplet_key s d e) (edge_tables_ g) ∧
  vertex_tables_ x.1 = vertex_tables_ g ∧ Schema.has_edge_triplet s d e (schema_ x.1) = false.
Proof.
  intros Hg Ls Ld Le. destruct (DeleteEdgeType_run s d e g B E Hg Ls Ld Le) as (H1 & H2 & (_ & H3 & _) & H4).
  unfold DeleteEdgeType. cbv zeta. rewrite (st_bind_done _ _ _ tt H1), update_then. cbn [fst snd mret st_ret]. fold (erased (triplet_key s d e)).
  change (if has_table _ ?x then _ else ?x) with (erased (triplet_key s d e) x). split_and!; [done|done|done|done|].
  apply not_true_iff_false. rewrite (has_triplet_iff _ B E) by done. rewrite H4, lookup_delete_eq. by intros [? ?].
Qed.

(** ** All triplets of a label *)

Definition touches (label k : Z) : bool := let '(s, d, _) := Schema.parse_edge_label k in (s =? label) || (d =? label).

(** Between two states of the loops only tables of the label went. *)
Definition shrunk (label : Z) g g' : Prop :=
  keeps_vertices g g' ∧
  ∀ k, edge_tables_ g' !! k = edge_tables_ g !! k ∨ edge_tables_ g' !! k = None ∧ touches label k = true.

Lemma touches_key label s d e : is_label s → is_label d → is_label e → touches label (triplet_key s d e) = (s =? label) || (d =? label).
Proof. intros Ls Ld Le. unfold touches. by destruct (triplet_roundtrip s d e Ls Ld Le) as [-> _]. Qed.

Lemma shrunk_drop label g0 g B E s d e :
  shrunk label g0 g → graph_ok g B E → is_label s → is_label d → is_label e → s = label ∨ d = label →
  let x := drop_triplet s d e g in
  x.2 = Ok tt ∧ graph_ok x.1 B E ∧ shrunk label g0 x.1 ∧ edge_tables_ x.1 = delete (triplet_key s d e) (edge_tables_ g).
Proof.
  intros [Hk Hsh] Hg Ls Ld Le Hside. destruct (drop_triplet_ok g B E s d e Hg Ls Ld Le) as (H1 & H2 & H3 & H4).
  split_and!; [done|done| |done]. split; [by eapply keeps_vertices_trans|]. intros k. rewrite H4.
  destruct (decide (k = triplet_key s d e)) as [->|Hne]; [|rewrite lookup_delete_ne by done; apply Hsh].
  right. rewrite lookup_delete_eq, touches_key by done. split; [done|]. destruct Hside as [Heq|Heq]; subst; by rewrite Z.eqb_refl, ?orb_true_r.
Qed.

(** The round for a vertex label and an edge label. *)
Definition no_triplets (label i j : Z) g : Prop :=
  edge_tables_ g !! triplet_key label i j = None ∧ edge_tables_ g !! triplet_key i label j = None.

Definition round (label i j : Z) : st G unit :=
  g ← get_state;
  if negb (Schema.is_edge_label_valid j (schema_ g)) then mret tt else drop_triplet label i j;; drop_triplet i label j.

Lemma round_ok label g0 g B E i j :
  shrunk label g0 g → graph_ok g B E → is_label label → is_label i → is_label j →
  let x := round label i j g in
  x.2 = Ok tt ∧ (shrunk label g0 x.1 ∧ graph_ok x.1 B E) ∧ no_triplets label i j x.1.
Proof.
  intros Hsh Hg Ll Li Lj. unfold round. rewrite get_then. destruct (Schema.is_edge_label_valid j (schema_ g)) eqn:Hj; cbn [negb].
  - destruct (shrunk_drop label g0 g B E label i j Hsh Hg) as (H1 & H2 & H3 & H4); [done..|by left|]. rewrite (st_bind_done _ _ _ tt H1).
    destruct (shrunk_drop label g0 _ B E i label j H3 H2) as (K1 & K2 & K3 & K4); [done..|by right|]. split_and!; [done|done|done|].
    split; rewrite K4, ?H4, ?lookup_delete_eq; [|done].
    destruct (decide (triplet_key label i j = triplet_key i label j)) as [->|Hne]; [by rewrite lookup_delete_eq|].
    by rewrite lookup_delete_ne, lookup_delete_eq.
  - split_and!; [done|done|done|].
    assert (Hno : ∀ s d, is_label s → is_label d → edge_tables_ g !! triplet_key s d j = None).
    { intros s d Ls Ld. destruct (edge_tables_ g !! triplet_key s d j) as [t|] eqn:Ht; [|done]. exfalso.
      destruct (proj1 (go_dom _ _ _ Hg (triplet_key s d j))) as [y Hy]; [by eexists|].
      destruct (ok_triplets _ (go_schema _ _ _ Hg) _ _ Hy) as (a & b & c & Hk & Ha & Hb & Hva & Hvb & Hc & _).
      destruct (LabelIndexer.wf_bound _ _ _ (ok_e _ (go_schema _ _ _ Hg)) Hc) as [Hcb Hc256].
      apply generate_inj in Hk; [|done|done|done|split; [done|by eapply valid_bound, Hva; apply Hg]|split; [done|by eapply valid_bound, Hvb; apply Hg]|lia].
      destruct Hk as (_ & _ & <-). assert (Hval : Schema.is_edge_label_valid j (schema_ g) = true); [|by rewrite Hval in Hj].
      apply (edge_valid_iff _ _ (go_schema _ _ _ Hg)); [lia|]. by eexists. }
    split; by apply Hno.
Qed.

Lemma round_mono label i j a b g B E :
  graph_ok g B E → is_label label → is_label i → is_label j → no_triplets label a b g → no_triplets label a b (round label i j g).1.
Proof.
  intros Hg Ll Li Lj [N1 N2]. assert (Hsh : shrunk label g g) by (split; [done|by left]).
  destruct (round_ok label g g B E i j Hsh Hg Ll Li Lj) as (_ & [[_ Hs] _] & _).
  split; [destruct (Hs (triplet_key label a b)) as [->|[-> _]]|destruct (Hs (triplet_key a label b)) as [->|[-> _]]]; done.
Qed.

(** The loops over the labels. *)
Lemma drop_all_ok g B E label :
  graph_ok g B E → is_label label →
  let x := for_each (labels (vertex_label_total_count_ g)) (λ i,
    g' ← get_state;
    if negb (Schema.is_vertex_label_valid i (schema_ g')) then mret tt
    else for_each (labels (edge_label_total_count_ g)) (round label i)) g in
  x.2 = Ok tt ∧ graph_ok x.1 B E ∧ shrunk label g x.1 ∧ ∀ k, touches label k = true → edge_tables_ x.1 !! k = None.
Proof.
  intros Hg Ll. pose proof (go_schema _ _ _ Hg) as Hok.
  assert (Hlab : ∀ i, i ∈ labels (vertex_label_total_count_ g) → is_label i).
  { intros i Hi%elem_labels. rewrite (go_vcount _ _ _ Hg) in Hi. pose proof (LabelIndexer.wf_size _ (ok_v _ Hok)). unfold is_label. lia. }
  assert (Hlab' : ∀ j, j ∈ labels (edge_label_total_count_ g) → is_label j).
  { intros j Hj%elem_labels. rewrite (go_ecount _ _ _ Hg) in Hj. pose proof (LabelIndexer.wf_size _ (ok_e _ Hok)). unfold is_label. lia. }
  set (Inv := λ g', shrunk label g g' ∧ graph_ok g' B E).
  set (Done := λ i g', ∀ j, j ∈ labels (edge_label_total_count_ g) → Schema.is_vertex_label_valid i (schema_ g) = true → no_triplets label i j g').
  assert (Hsame : ∀ g', Inv g' → ∀ i, Schema.is_vertex_label_valid i (schema_ g') = Schema.is_vertex_label_valid i (schema_ g)).
  { intros g' [[[Hs _] _] _] i. by apply same_vertices_valid. }
  assert (Hinner : ∀ i g', is_label i → Inv g' →
    let x := for_each (labels (edge_label_total_count_ g)) (round label i) g' in
    x.2 = Ok tt ∧ Inv x.1 ∧ (∀ j, j ∈ labels (edge_label_total_count_ g) → no_triplets label i j x.1) ∧
    (∀ a b, no_triplets label a b g' → no_triplets label a b x.1)).
  { intros i g' Li Hi. destruct (for_each_ind Inv (λ j, no_triplets label i j) (labels (edge_label_total_count_ g)) (round label i) g') as (K1 & K2 & K3 & _).
    - intros j s Hj [Hs1 Hs2]. apply round_ok; [done..|by apply Hlab'].
    - intros j b s Hj [_ Hs2] Hn. eapply round_mono; [done..|by apply Hlab'|done].
    - done.
    - split_and!; [done|done|done|]. intros a b. clear K1 K2 K3. revert g' Hi. induction (labels (edge_label_total_count_ g)) as [|j l IH]; intros g' [Hi1 Hi2] Hn; [done|].
      assert (Lj : is_label j) by (apply Hlab'; by left). destruct (round_ok label g g' B E i j Hi1 Hi2 Ll Li Lj) as (R1 & R2 & _).
      cbn [for_each]. rewrite (st_bind_done _ _ _ tt R1). apply IH; [intros; apply Hlab'; by right|done|by eapply round_mono]. }
  destruct (for_each_ind Inv Done (labels (vertex_label_total_count_ g)) (λ i,
    g' ← get_state; if negb (Schema.is_vertex_label_valid i (schema_ g')) then mret tt
    else for_each (labels (edge_label_total_count_ g)) (round label i)) g) as (L1 & [L2 L2'] & L3 & _).
  - intros i g' Hi HI. rewrite get_then, (Hsame g' HI). destruct (Schema.is_vertex_label_valid i (schema_ g)) eqn:Hv; cbn [negb].
    + destruct (Hinner i g' (Hlab i Hi) HI) as (K1 & K2 & K3 & _). split_and!; [done|done|]. intros j Hj _. by apply K3.
    + split_and!; [done|done|]. intros j _ Hv'. by rewrite Hv in Hv'.
  - intros i b g' Hi HI Hd j Hj Hv. rewrite get_then, (Hsame g' HI). destruct (Schema.is_vertex_label_valid i (schema_ g)); cbn [negb]; [|by apply Hd].
    destruct (Hinner i g' (Hlab i Hi) HI) as (_ & _ & _ & K4). by apply K4, Hd.
  - split; [|done]. split; [done|by left].
  - split_and!; [exact L1|exact L2'|exact L2|]. intros k Hk. set (x := for_each _ _ g) in *. destruct (edge_tables_ x.1 !! k) as [t|] eqn:Ht; [|done]. exfalso.
    destruct (table_labels x.1 B E k t L2' Ht) as (s & d & e & -> & Ls & Ld & Le & _ & Hvs & Hvd & He). rewrite touches_key in Hk by done.
    rewrite (Hsame x.1) in Hvs, Hvd by done.
    assert (Hej : e ∈ labels (edge_label_total_count_ g)).
    { apply elem_labels. destruct L2 as [(_ & _ & _ & Ec) _]. rewrite <- Ec, (go_ecount _ _ _ L2'). unfold is_label in Le. lia. }
    assert (Hmem : ∀ i, is_label i → Schema.is_vertex_label_valid i (schema_ g) = true → i ∈ labels (vertex_label_total_count_ g)).
    { intros i Li Hv. apply elem_labels. rewrite (go_vcount _ _ _ Hg). destruct (valid_label _ _ Hok (proj1 Li) Hv). unfold is_label in Li. lia. }
    apply orb_true_iff in Hk as [->%Z.eqb_eq| ->%Z.eqb_eq].
    + destruct (L3 d (Hmem d Ld Hvd) e Hej Hvd) as [N _]. by rewrite N in Ht.
    + destruct (L3 s (Hmem s Ls Hvs) e Hej Hvs) as [_ N]. by rewrite N in Ht.
Qed.

(** C11: Deleting a vertex type of a consistent graph
    succeeds and leaves the graph consistent: its label is no longer valid, the
    edge tables with the label on either side are gone, those of all other triplets
    and the validity of all other labels are as before. *)
Theorem graph_delete_vertex_type g B E label :
  graph_ok g B E → 0 ≤ label → Schema.is_vertex_label_valid label (schema_ g) = true →
  let x := DeleteVertexType label g in
  x.2 = Ok OK ∧ graph_ok x.1 B E ∧ Schema.is_vertex_label_valid label (schema_ x.1) = false ∧
  (∀ k, edge_tables_ x.1 !! k = if touches label k then None else edge_tables_ g !! k) ∧
  (∀ l, 0 ≤ l → l ≠ label → Schema.is_vertex_label_valid l (schema_ x.1) = Schema.is_vertex_label_valid l (schema_ g) ∧
     vertex_tables_ x.1 !! Z.to_nat l = vertex_tables_ g !! Z.to_nat l).
Proof.
  intros Hg Hl Hv. destruct (valid_label _ _ (go_schema _ _ _ Hg) Hl Hv) as [Ll Hlt].
  destruct (drop_all_ok g B E label Hg Ll) as (H1 & H2 & [(Hsv & Hvt & Hvc & Hec) Hsh] & H4).
  unfold DeleteVertexType. rewrite get_then. unfold round in H1, H2, Hsv, Hvt, Hvc, Hec, Hsh, H4. rewrite (st_bind_done _ _ _ tt H1).
  set (g1 := (for_each _ _ g).1) in *. clearbody g1. clear H1.
  rewrite <- (same_vertices_valid _ _ label Hsv) in Hv.
  destruct (DeleteVertexLabel_ok label (schema_ g1) (go_schema _ _ _ H2) Hl Hv) as (D1 & D2 & D3 & D4 & D5).
  { intros a b c La Lb Lc Hside. destruct (Schema.e_schemas_ (schema_ g1) !! triplet_key a b c) eqn:Hx; [|done]. exfalso.
    destruct (proj2 (go_dom _ _ _ H2 (triplet_key a b c))) as [t Ht]; [by eexists|]. rewrite H4 in Ht; [done|].
    rewrite touches_key by done. destruct Hside as [Heq|Heq]; subst; by rewrite Z.eqb_refl, ?orb_true_r. }
  destruct (DeleteVertexLabel_slots label false (schema_ g1)) as [S1 S2].
  destruct (valid_table g1 B E label H2 Hl Hv) as (v & Hv1 & _).
  set (sc := (Schema.DeleteVertexLabel label false (schema_ g1)).1) in *.
  set (g2 := set_vertex_tables (<[Z.to_nat label := vt_Close v]> (vertex_tables_ g1)) (set_schema sc g1)).
  cbv zeta. match goal with |- (?m g1).2 = _ ∧ _ => assert (Hrun : m g1 = (set_dirty (DirtyTracker.SetVertex label false (dirty_ g2)) g2, Ok OK)) end.
  { rewrite (st_bind_ok _ _ _ (set_schema sc g1) tt).
    2:{ unfold with_schema, on. by rewrite (surjective_pairing (Schema.DeleteVertexLabel _ _ _)), D1. }
    rewrite (st_bind_ok _ _ _ g2 tt) by (unfold with_vertex; cbn [vertex_tables_ set_schema]; by rewrite Hv1). done. }
  rewrite Hrun. unfold g2. clear Hrun g2. clearbody sc. cbn [fst snd].
  destruct H2 as [I1 I2 I3 I4 I5 I6 I7 I8].
  split_and!; [done| |exact D3| |].
  - split; cbn [schema_ set_dirty set_vertex_tables set_schema vertex_tables_ edge_tables_ vertex_label_total_count_ edge_label_total_count_];
      rewrite ?length_insert, ?S1, ?S2, ?D4; try done.
    + intros l w Hl' Hval. destruct (decide (l = label)) as [->|Hne]; [by rewrite D3 in Hval|]. rewrite list_lookup_insert_ne by lia.
      rewrite D5 in Hval by done. by apply I7.
    + intros k t Ht. destruct (I8 k t Ht) as (Hr & Hc & Hroom). split_and!; [done|split; [done|]].
      intros s d e Ls Ld Le ->. destruct (Hroom s d e Ls Ld Le eq_refl) as [R1 R2].
      assert (Hno : s ≠ label ∧ d ≠ label).
      { split; intros ->; (rewrite H4 in Ht; [done|]); rewrite touches_key by done; by rewrite Z.eqb_refl, ?orb_true_r. }
      destruct Hno. unfold is_label in *. rewrite !list_lookup_insert_ne by lia. done.
  - intros k. cbn [edge_tables_ set_dirty set_vertex_tables set_schema]. destruct (touches label k) eqn:Hk; [by apply H4|].
    destruct (Hsh k) as [->|[_ Hk']]; [done|by rewrite Hk in Hk'].
  - intros l Hl' Hne. cbn [schema_ set_dirty set_vertex_tables set_schema vertex_tables_]. rewrite D5 by done.
    rewrite (same_vertices_valid _ _ l Hsv), list_lookup_insert_ne, Hvt by lia. done.
Qed.
End graph.
