(* ===== verification/GraphProperties.v ===== *)
(** * What the operations on a property graph guarantee

    Deleting vertices takes their edges out of every edge table at their label
    and no other edge, and the graph stays consistent; and the replay of a log
    applies exactly its records. *)

From stdpp Require Import gmap.
From S2P Require Import Prelude Archive Values StringColumn Tables PropertyColumns RedoRecords CsrView VertexTable CsrBase EdgeSchema EdgeTable EdgeArcs EdgeStores EdgeTableSpec EdgeTableDelete EdgeTableProperties LabelIndexer SchemaLabels SchemaLabelsProperties DirtyTracker PropertyGraph GraphReplay GraphVertices GraphEdges GraphInvariant.
Import EdgeTable PropertyGraph.

Section graph.
Context {V C : Type} {HV : VertexTables V} {HL : VertexTableLaws V} {HC : ColumnBase C} {HM : Memory}.
Abbreviation G := (graph V C).
Implicit Types (g : G) (B : Z → list (option Z)) (E : Z → list (arc Val)).

Lemma checked_true (b : G → bool) (m : st G Status) g : b g = true → checked b m g = m g.
Proof. intros Hb. unfold checked. rewrite get_then. by rewrite Hb. Qed.

Lemma IsValidLid_ok g B E label lid ts :
  graph_ok g B E → 0 ≤ label → Schema.is_vertex_label_valid label (schema_ g) = true → 0 ≤ lid → 0 ≤ ts →
  IsValidLid label lid ts g = Ok (valid_at (B label) lid ts).
Proof.
  intros Hg Hl Hv Hlid Hts. destruct (valid_table g B E label Hg Hl Hv) as (v & Hvt & Hshow).
  unfold IsValidLid, Schema.ensure_vertex_label_valid. rewrite Hv, Hvt. cbn. f_equal. by apply law_valid.
Qed.

Lemma with_vertex_run {A} label (m : st V A) g v v' r :
  vertex_tables_ g !! Z.to_nat label = Some v → m v = (v', r) →
  with_vertex label m g = (set_vertex_tables (<[Z.to_nat label := v']> (vertex_tables_ g)) g, r).
Proof. intros Hv Hm. unfold with_vertex. by rewrite Hv, Hm. Qed.

Lemma valid_at_range born lid ts : 0 ≤ lid → valid_at born lid ts = true → 0 ≤ lid < len born.
Proof.
  unfold valid_at. intros Hl Hv. destruct (mjoin (born !! Z.to_nat lid)) as [x|] eqn:Hx; [|done].
  destruct (born !! Z.to_nat lid) eqn:Hb; [|done]. apply lookup_lt_Some in Hb. lia.
Qed.

Lemma DeleteVertex_graph g B E label lid ts :
  graph_ok g B E → 0 ≤ label → Schema.is_vertex_label_valid label (schema_ g) = true → 0 ≤ lid → 0 ≤ ts < INVALID_TIMESTAMP →
  (∀ k t b, edge_tables_ g !! k = Some t → searchable b ts t (E k)) →
  let x := DeleteVertex label lid ts g in
  x.2 = Ok OK ∧
  graph_ok x.1 (λ l, if decide (l = label) then without (B l) ts lid else B l)
    (λ k, if valid_at (B label) lid ts then filter (λ a, ¬ at_vertex label lid ts k a) (E k) else E k).
Proof.
  intros Hg Hl Hv Hlid Hts Hs. unfold DeleteVertex. rewrite checked_true by done. rewrite get_then.
  rewrite (IsValidLid_ok g B E) by (done || lia). rewrite lift_then. destruct (valid_at (B label) lid ts) eqn:Hva; cbn [negb].
  2:{ split; [done|]. revert Hg. apply graph_ok_ext; [|done]. intros l. destruct (decide (l = label)) as [->|]; [|done]. unfold without. by rewrite Hva. }
  destruct (detach_ok g B E label lid ts Hg Hl Hv Hts (valid_at_range _ _ _ Hlid Hva) Hs) as (H1 & H2 & H3 & H4).
  rewrite (st_bind_done _ _ _ tt H1). set (g1 := (at_label _ _ g).1) in *.
  destruct (valid_table g B E label Hg Hl Hv) as (v & Hvt & Hshow). rewrite <- H2 in Hvt.
  destruct (law_delete v (B label) lid ts Hshow Hlid (proj1 Hts)) as (v' & Ev & Hshow' & Hcap).
  rewrite (st_bind_ok _ _ _ _ tt (with_vertex_run label _ g1 v v' _ Hvt Ev)). split; [done|].
  pose proof (graph_ok_vertex g1 B _ label v v' _ H4 Hl Hvt Hshow' Hcap) as Hok. revert Hok. apply graph_ok_ext; [|done].
  intros l. by destruct (decide (l = label)) as [->|].
Qed.

(** The edges of the triplets that keep their data in the adjacency lists can be
    told apart by the search of a deletion: the data have the type the search
    compares and its comparison is equality, or no two edges visible at the
    timestamp have the same two ends.  Triplets that keep row ids need nothing. *)
Definition distinguishable g E (ts : Z) : Prop :=
  ∀ k t b, edge_tables_ g !! k = Some t → EdgeSchema.is_bundled (meta_ t) = true → searchable b ts t (E k).

Lemma all_searchable g B E ts : graph_ok g B E → distinguishable g E ts →
  ∀ k t b, edge_tables_ g !! k = Some t → searchable b ts t (E k).
Proof.
  intros Hg Hd k t b Ht. destruct (EdgeSchema.is_bundled (meta_ t)) eqn:Hb; [by apply Hd|].
  destruct (go_edges _ _ _ Hg k t Ht) as [Hr _]. by apply searchable_unbundled.
Qed.

(** C8: Take a consistent property graph whose edge tables keep both
    directions in mutable lists ([kMultiple]), and a timestamp at which the
    edges are distinguishable: in the triplets that keep an edge's data in the lists
    (at most one property, of a fixed size) the data are compared by equality, or no
    two visible edges have the same two ends; parallel edges without properties are
    thus excluded (their deletion fails, [parallel_edges_diverge]), triplets
    with row ids are all covered.  Then deleting a vertex of a valid label succeeds.
    A vertex that is valid at the timestamp is then deleted, and so are
    exactly the edges at it that are visible at the timestamp, in every edge table
    with its label as source, as destination or as both; every other vertex
    and edge is still there, and the graph is consistent. A vertex that is not
    valid changes nothing. *)
Theorem graph_delete_vertex g B E label lid ts :
  graph_ok g B E → 0 ≤ label → Schema.is_vertex_label_valid label (schema_ g) = true → 0 ≤ lid → 0 ≤ ts < INVALID_TIMESTAMP →
  distinguishable g E ts →
  let x := DeleteVertex label lid ts g in
  x.2 = Ok OK ∧
  graph_ok x.1 (λ l, if decide (l = label) then without (B l) ts lid else B l)
    (λ k, if valid_at (B label) lid ts then filter (λ a, ¬ at_vertex label lid ts k a) (E k) else E k).
Proof. intros Hg Hl Hv Hlid Hts Hd. apply DeleteVertex_graph; try done. by eapply all_searchable. Qed.

(** C9: In a consistent property graph, whose edge tables keep both
    directions in mutable lists, deleting a list of vertices succeeds, parallel edges or
    not, and deletes the
    valid ones among them, and every edge with an end among them, visible or not,
    in every edge table with their label on that side; nothing else changes,
    and the graph is consistent. *)
Theorem graph_batch_delete g B E label lids :
  graph_ok g B E → 0 ≤ label → Schema.is_vertex_label_valid label (schema_ g) = true → Forall (λ l, 0 ≤ l) lids →
  let x := BatchDeleteVertices label lids g in
  x.2 = Ok OK ∧
  graph_ok x.1 (λ l, if decide (l = label) then foldl (λ b lid, without b MAX_TIMESTAMP lid) (B l) lids else B l)
    (λ k, filter (λ a, ¬ at_any label (list_to_set lids) k a) (E k)).
Proof.
  intros Hg Hl Hv Hlids. unfold BatchDeleteVertices. rewrite checked_true by done.
  destruct (valid_table g B E label Hg Hl Hv) as (v & Hvt & Hshow).
  destruct (law_batch_delete v (B label) lids Hshow Hlids) as (v' & Ev & Hshow' & Hcap).
  rewrite (st_bind_ok _ _ _ _ tt (with_vertex_run label _ g v v' _ Hvt Ev)). cbv zeta.
  pose proof (graph_ok_vertex g B E label v v' _ Hg Hl Hvt Hshow' Hcap) as Hg1.
  destruct (batch_detach_ok _ _ E label (list_to_set lids) Hg1 Hl Hv) as (H1 & H2 & H3 & H4).
  rewrite (st_bind_done _ _ _ tt H1). split; [done|].
  revert H4. apply graph_ok_ext; [|done]. intros l. by destruct (decide (l = label)) as [->|].
Qed.
End graph.

(** ** Replay

    The bytes of a transaction's records, replayed on a graph, apply exactly
    these records in their order; and the record of a deleted vertex deletes the
    vertex with its edges. *)
Import GraphReplay.

Section replay.
Context {V C : Type} {HV : VertexTables V} {HC : ColumnBase C} {HM : Memory}.
Context (get_default_value : DataType → Value) (other_record : redo → Z → st (graph V C) unit).
Abbreviation G := (graph V C).
Implicit Types (g : G) (B : Z → list (option Z)) (E : Z → list (arc Val)).

Lemma replay_loop_cons fuel ts bs g :
  bs ≠ [] → replay_loop get_default_value other_record (S fuel) ts bs g =
  match get_redo bs with
  | Throw e => (g, Throw e)
  | Ok (r, rest) => (replay_record get_default_value other_record ts r;; replay_loop get_default_value other_record fuel ts rest) g
  end.
Proof. intros Hbs. destruct bs; [done|]. cbn [replay_loop]. by destruct (get_redo _) as [[r rest]|]. Qed.

Lemma replay_loop_all rs fuel ts g :
  forallb redo_ok rs = true → (length (put_all put_redo rs).1 ≤ fuel)%nat →
  (put_all put_redo rs).2 = None ∧
  replay_loop get_default_value other_record fuel ts (put_all put_redo rs).1 g =
  for_each (canon_redo <$> rs) (replay_record get_default_value other_record ts) g.
Proof.
  revert fuel g. induction rs as [|r rs IH]; intros fuel g Hok Hf; [by destruct fuel|].
  cbn [forallb] in Hok. apply andb_true_iff in Hok as [Hr Hrs].
  destruct (reads_redo r Hr) as [Hn Hrd]. rewrite put_all_cons in *. rewrite put_seq_length in Hf by done.
  destruct (put_redo r) as [b e] eqn:Eb. cbn [fst snd] in *. subst e.
  assert (Hb : b ≠ []) by (intros ->; by destruct (put_redo_nonempty r)).
  assert (Hlen : (0 < length b)%nat) by (destruct b; [done|cbn; lia]).
  destruct fuel as [|fuel]; [lia|]. assert (Hfuel : (length (put_all put_redo rs).1 ≤ fuel)%nat) by lia.
  destruct (IH fuel g Hrs Hfuel) as [Hn' _].
  assert (Hseq : put_seq (b, None) (put_all put_redo rs) = (b ++ (put_all put_redo rs).1, None)).
  { destruct (put_all put_redo rs) as [b' e']. cbn in Hn'. by subst e'. }
  rewrite Hseq. cbn [fst snd]. split; [done|]. rewrite replay_loop_cons by (by destruct b). rewrite Hrd. cbn [for_each fmap list_fmap].
  unfold mbind, st_bind. destruct (replay_record _ _ ts (canon_redo r) g) as [g' [[]|]]; [|done].
  by apply (IH fuel g' Hrs Hfuel).
Qed.

(** C12: The data of any records that can be logged is replayed on any
    graph exactly as the records, in canonical form and in their order: each is
    applied before the next is read, the first one that fails ends the replay with its error,
    and the loop ends with the data. *)
Theorem replay_exact rs ts g :
  forallb redo_ok rs = true →
  (put_all put_redo rs).2 = None ∧
  ReplayCowGraphWal get_default_value other_record ts (put_all put_redo rs).1 g =
  for_each (canon_redo <$> rs) (replay_record get_default_value other_record ts) g.
Proof. intros Hok. by apply replay_loop_all. Qed.

(** ** The record of a deleted vertex *)

Context {HL : VertexTableLaws V}.

Lemma graph_ok_dirty g B E d :
  graph_ok g B E → (∀ k, is_Some (edge_tables_ g !! k) → is_Some (DirtyTracker.edge_ d !! k)) → graph_ok (set_dirty d g) B E.
Proof. intros [H1 H2 H3 H4 H5 H6 H7 H8] Hd. by split. Qed.

Lemma mark_incident_ok g B E label :
  graph_ok g B E → ∃ d, mark_incident label g = (set_dirty d g, Ok tt) ∧
    (∀ k, is_Some (edge_tables_ g !! k) → is_Some (DirtyTracker.edge_ d !! k)).
Proof.
  intros Hg. unfold mark_incident. rewrite get_then.
  assert (Hkeys : Forall (λ k, is_Some (edge_tables_ g !! k)) (map_to_list (Schema.e_schemas_ (schema_ g))).*1).
  { apply Forall_forall. intros k ([k' x] & -> & Hx)%list_elem_of_fmap. apply elem_of_map_to_list in Hx. apply (go_dom _ _ _ Hg). by eexists. }
  assert (Hloop : ∀ ks d, Forall (λ k, is_Some (edge_tables_ g !! k)) ks →
    (∀ k, is_Some (edge_tables_ g !! k) → is_Some (DirtyTracker.edge_ d !! k)) →
    ∃ d', for_each ks (λ k, let '(s, d, e) := Schema.parse_edge_label k in
            if (s =? label) || (d =? label) then MarkEdgeTableDirty s d e else mret tt) (set_dirty d g) = (set_dirty d' g, Ok tt) ∧
          (∀ k, is_Some (edge_tables_ g !! k) → is_Some (DirtyTracker.edge_ d' !! k))).
  { induction ks as [|k ks IH]; intros d Hks Hd; [by exists d|]. apply Forall_cons in Hks as [[t Ht] Hks]. cbn [for_each].
    destruct (table_labels g B E k t Hg Ht) as (s & ds & e & Hk & _ & _ & _ & Hparse & _). rewrite Hparse.
    destruct ((s =? label) || (ds =? label)); [|exact (IH d Hks Hd)].
    unfold MarkEdgeTableDirty. rewrite <- Hk. destruct (Hd k) as [b Hb]; [by eexists|].
    erewrite st_bind_ok by (unfold on, DirtyTracker.MarkEdge; cbn [dirty_ set_dirty]; rewrite Hb; reflexivity).
    apply (IH (DirtyTracker.MkTracker (DirtyTracker.vertex_ d) (<[k := true]> (DirtyTracker.edge_ d)) (DirtyTracker.schema_ d))); [done|].
    intros k' Hk'. cbn. destruct (decide (k' = k)) as [->|Hne]; [by rewrite lookup_insert_eq|rewrite lookup_insert_ne by done; by apply Hd]. }
  destruct (Hloop _ (dirty_ g) Hkeys (go_slots _ _ _ Hg)) as (d & Hrun & Hd). exists d. split; [|done].
  replace (set_dirty (dirty_ g) g) with g in Hrun by (by destruct g). exact Hrun.
Qed.

(** C13: Replaying the record of a vertex deletion on a
    consistent graph, for a key that is found at the timestamp, deletes the vertex
    of that key and exactly its visible edges, in every edge table at its label,
    and leaves the graph consistent.  As for the deletion itself, the edge tables
    keep both directions in mutable lists, and in the triplets that keep an edge's
    data in the lists the visible edges are distinguishable (data compared by equality,
    or no parallel edges); parallel edges without properties are excluded. *)
Theorem replay_remove_vertex g B E ty oid ts label lid :
  graph_ok g B E → Schema.get_vertex_label_id ty (schema_ g) = Ok label → 0 ≤ label → get_lid label oid ts g = Ok (Some lid) → 0 ≤ lid →
  0 ≤ ts < INVALID_TIMESTAMP → distinguishable g E ts →
  let x := replay_record get_default_value other_record ts (RemoveVertex ty oid) g in
  x.2 = Ok tt ∧
  graph_ok x.1 (λ l, if decide (l = label) then without (B l) ts lid else B l)
    (λ k, if valid_at (B label) lid ts then filter (λ a, ¬ at_vertex label lid ts k a) (E k) else E k).
Proof.
  intros Hg Hty Hl Hlid Hlid0 Hts Hs.
  assert (Hv : Schema.is_vertex_label_valid label (schema_ g) = true).
  { apply (valid_iff _ _ (go_schema _ _ _ Hg) Hl). exists ty. unfold Schema.get_vertex_label_id, LabelIndexer.get_index in Hty.
    destruct (LabelIndexer.index_ _ !! ty) as [i|]; [|done]. destruct (Bitset.get i _); [done|]. by injection Hty as ->. }
  cbn [replay_record]. unfold replay_RemoveVertex.
  rewrite (st_bind_ok _ _ _ g label) by (unfold vertex_label; by rewrite get_then, Hty).
  rewrite (st_bind_ok _ _ _ g lid) by (unfold known_vertex; by rewrite get_then, Hlid).
  rewrite update_then. set (g1 := MarkVertexTableDirty label g).
  assert (Hg1 : graph_ok g1 B E) by (apply graph_ok_dirty; [done|apply Hg]).
  destruct (mark_incident_ok g1 B E label Hg1) as (d & Hm & Hd). rewrite (st_bind_ok _ _ _ _ tt Hm).
  destruct (DeleteVertex_graph (set_dirty d g1) B E label lid ts (graph_ok_dirty _ _ _ _ Hg1 Hd) Hl Hv Hlid0 Hts
    (all_searchable g B E ts Hg Hs)) as [H1 H2].
  unfold expect. rewrite (st_bind_done _ _ _ OK H1). by split.
Qed.
End replay.
