(* ===== verification/GraphSample.v ===== *)
(** * A small property graph

    One label with two vertices and edges from the label to itself: the
    guarantees of the property graph at a concrete one. *)

From stdpp Require Import gmap.
From S2P Require Import Prelude Archive Values StringColumn StringColumnProperties LFIndexer LFIndexerTable LFIndexerProperties RedoRecords KeyColumns Tables PropertyColumns TableRows CsrView VertexTimestamp VertexTable VertexTableProperties VertexTableInserts CsrBase EdgeSchema EdgeTable EdgeArcs EdgeStores EdgeTableSpec EdgeTableDelete EdgeTableProperties LabelIndexer SchemaLabels SchemaLabelsProperties DirtyTracker PropertyGraph GraphColumns GraphVertices GraphEdges GraphInvariant GraphCapacity GraphTypes GraphProperties GraphReplay.
Import EdgeTable PropertyGraph.

#[local] Existing Instances int64_key int64_key_laws no_nested no_nested_laws PropertyColumn.column_base example_keys example_laws zeroed.

Abbreviation Col := (PropertyColumn.column Empty_set).
Abbreviation VTab := (option (VertexTable.vtable (TypedColumn.column Z) Col)).
#[local] Instance sample_tables : VertexTables VTab :=
  keyed_tables TypedColumn.OpenEmpty PropertyColumn.set_properties_from_context_column (λ _ _, false).
#[local] Instance sample_laws : VertexTableLaws VTab := keyed_laws TypedColumn.OpenEmpty PropertyColumn.set_properties_from_context_column (λ _ _, false).

(** ** Its parts *)

Definition int64 (z : Z) : Value := scalar kInt64 (V_bigint z).
Definition people_ops : list vop := [OpEnsure 10; OpAdd (λ _, false) (int64 7) [int 1] 1; OpAdd (λ _, false) (int64 8) [int 2] 4].
Definition people : VertexTable.vtable (TypedColumn.column Z) Col := (VertexTableProperties.run people_ops count_table).1.
Definition people_state : vstate (K := Z) := default (empty_state 1) (fst <$> spec_run count_schema people_ops (empty_state 1)).

Lemma people_rep : VertexTableProperties.rep count_schema people people_state.
Proof.
  destruct (vertex_run count_schema people_ops count_table (empty_state 1) people_state
    [Ok (RCapacity 4096); Ok (RAdded (Some 0)); Ok (RAdded (Some 1))]) as (t & E & Hr).
  - by apply (Init_rep count_schema TypedColumn.OpenEmpty); [vm_compute|..|repeat constructor; by eexists|].
  - by vm_compute.
  - unfold people_ops. repeat (apply Forall_cons_2; [cbn [keeps_op]|]); [..|by apply Forall_nil_2];
      first [ exact I | split; [intros H; by eexists|split; [intros k _; exact I|repeat constructor; by eexists]] ].
  - split; [done|]. repeat constructor.
  - unfold people. by rewrite E.
Qed.

Lemma people_columns : ∃ c, Table.columns_ (VertexTable.table_ people) = [PropertyColumn.Fixed kInt32 (V_integer 0) c].
Proof.
  assert (H : match Table.columns_ (VertexTable.table_ people) with
              | [PropertyColumn.Fixed kInt32 (V_integer 0) _] => true | _ => false end = true) by (by vm_compute).
  destruct (Table.columns_ (VertexTable.table_ people)) as [|[[] [] c| | |] [|]]; try done; destruct z; try done. by exists c.
Qed.

Definition knows_ops : list edge_op :=
  [OEnsureVertexCapacity 4096 4096 0; OAddEdge 0 0 [int 1; int 1] 1 true; OAddEdge 0 1 [int 2; int 2] 1 true;
   OAddEdge 0 1 [int 3; int 3] 3 true; OAddEdge 1 0 [int 4; int 4] 1 true; OAddEdge 1 1 [int 5; int 5] 1 true].
Definition knows : etable Col * list (arc Val) := edge_run knows_ops (fresh [kInt32; kInt32] kMultiple kMultiple) [].

Lemma knows_rep : EdgeTableSpec.rep knows.1 knows.2.
Proof.
  apply edge_run_rep; [by intros l|apply (EdgeInit_rep (triplet [kInt32; kInt32] kMultiple kMultiple)); reflexivity|].
  unfold knows_ops. solve_allowed.
Qed.

Definition person_schema : Schema.VertexSchema :=
  Schema.MkVertexSchema [112] [MkDataType kInt32 None] [[97]] [(MkDataType kInt64 None, [105], 0)] [int 0] [false] false.
Definition person_label : Schema.schema := (Schema.AddVertexLabel [112] person_schema Schema.empty_schema).1.
Definition sample_schema : Schema.schema :=
  (Schema.AddEdgeLabel [112] [112] [107] (triplet [kInt32; kInt32] kMultiple kMultiple) false person_label).1.

Lemma person_label_ok : ok person_label.
Proof.
  assert (Hr : (Schema.AddVertexLabel [112] person_schema Schema.empty_schema).2 = Ok tt) by (vm_compute; reflexivity).
  pose proof (AddVertexLabel_ok [112] person_schema Schema.empty_schema ok_empty) as H. cbv zeta in H. rewrite Hr in H.
  apply H. vm_compute. reflexivity.
Qed.

Lemma sample_schema_ok : ok sample_schema.
Proof.
  assert (Hr : (Schema.AddEdgeLabel [112] [112] [107] (triplet [kInt32; kInt32] kMultiple kMultiple) false person_label).2 = Ok tt)
    by (vm_compute; reflexivity).
  pose proof (AddEdgeLabel_ok [112] [112] [107] (triplet [kInt32; kInt32] kMultiple kMultiple) false person_label 0 0 person_label_ok) as H.
  cbv zeta in H. rewrite Hr in H. apply H; vm_compute; reflexivity.
Qed.

Definition sample : graph VTab Col :=
  MkGraph sample_schema [Some people] {[0 := knows.1]} (DirtyTracker.AddEdgeSlot 0 false DirtyTracker.fresh)
    (DirtyTracker.AddEdgeSlot 0 false DirtyTracker.fresh) 1 1.
Definition sample_vertices (l : Z) : list (option Z) := if decide (l = 0) then [Some 1; Some 4] else [].
Definition sample_edges (k : Z) : list (arc Val) := if decide (k = 0) then knows.2 else [].

(** ** It is consistent *)

Lemma sample_keys k : is_Some (Schema.e_schemas_ sample_schema !! k) ↔ k = 0.
Proof.
  rewrite <- elem_of_dom. assert (Hd : dom (Schema.e_schemas_ sample_schema) = {[0]}) by (by vm_compute). rewrite Hd. set_solver.
Qed.

Lemma sample_ok : graph_ok sample sample_vertices sample_edges.
Proof.
  split.
  - apply sample_schema_ok.
  - by vm_compute.
  - by vm_compute.
  - by vm_compute.
  - intros k. change (schema_ sample) with sample_schema. rewrite sample_keys. cbn [edge_tables_ sample].
    rewrite lookup_singleton_is_Some. done.
  - intros k. cbn [edge_tables_ sample dirty_]. rewrite lookup_singleton_is_Some. intros <-. by eexists.
  - intros l v Hl Hv. unfold Schema.is_vertex_label_valid in Hv. apply andb_true_iff in Hv as [Hv%Z.ltb_lt _].
    change (LabelIndexer.num_slots (Schema.vlabel_indexer_ (schema_ sample))) with 1 in Hv.
    assert (l = 0) as -> by lia. intros [= <-]. exists people, count_schema, people_state.
    split_and!; [done|apply people_rep|by vm_compute].
  - intros k t. cbn [edge_tables_ sample]. intros [<- <-]%lookup_singleton_Some. split; [apply knows_rep|]. split; [by vm_compute|].
    intros s d e Ls Ld Le Hk. apply (generate_inj 0 0 0) in Hk; [|unfold is_label in *; lia..]. destruct Hk as (<- & <- & <-).
    split; intros v [= <-]; vm_compute; discriminate.
Qed.

(** ** The guarantees *)

Lemma sample_distinguishable : distinguishable sample sample_edges 2.
Proof. intros k t b. cbn [edge_tables_ sample]. intros [<- <-]%lookup_singleton_Some _. apply searchable_unbundled; [apply knows_rep|by vm_compute]. Qed.

(** Vertex 0 at timestamp 2: its loop, the older of its edges to vertex 1 and the
    edge back go; the later edge and the loop of vertex 1 stay. *)
Lemma graph_delete_vertex_witness :
  ∃ E, (DeleteVertex 0 0 2 sample).2 = Ok OK ∧
    graph_ok (DeleteVertex 0 0 2 sample).1 (λ l, if decide (l = 0) then without (sample_vertices l) 2 0 else sample_vertices l) E ∧
    E 0 = [MkArc 1 1 1 (V_ubigint 4); MkArc 0 1 3 (V_ubigint 2)].
Proof.
  destruct (graph_delete_vertex sample sample_vertices sample_edges 0 0 2 sample_ok) as [H1 H2];
    [done|by vm_compute|done|done|apply sample_distinguishable|].
  eexists. split_and!; [exact H1|exact H2|]. vm_compute. reflexivity.
Defined.

Lemma graph_batch_delete_witness :
  ∃ E, (BatchDeleteVertices 0 [1; 5] sample).2 = Ok OK ∧
    graph_ok (BatchDeleteVertices 0 [1; 5] sample).1 (λ l, if decide (l = 0) then foldl (λ b lid, without b MAX_TIMESTAMP lid) (sample_vertices l) [1; 5] else sample_vertices l) E ∧
    E 0 = [MkArc 0 0 1 (V_ubigint 0)].
Proof.
  destruct (graph_batch_delete sample sample_vertices sample_edges 0 [1; 5] sample_ok) as [H1 H2];
    [done|by vm_compute|by repeat constructor|].
  eexists. split_and!; [exact H1|exact H2|]. vm_compute. reflexivity.
Defined.

Lemma graph_ensure_capacity_witness :
  let x := EnsureCapacity 0 5000 sample in
  x.2 = Ok OK ∧ graph_ok x.1 sample_vertices sample_edges ∧ ∃ v, vertex_tables_ x.1 !! Z.to_nat 0 = Some v ∧ 5000 ≤ vt_Capacity v.
Proof.
  destruct (graph_ensure_capacity sample sample_vertices sample_edges 0 5000 sample_ok) as (H1 & H2 & H3).
  - done.
  - by vm_compute.
  - intros v [= <-]. split; [by vm_compute|]. intros t Ht. apply (inj Some) in Ht. subst t. destruct people_columns as [c ->]. by repeat constructor.
  - split_and!; [exact H1|exact H2|exact H3].
Defined.

(** ** Replay *)

(** A whole database: types, three people, three edges, and a deletion. *)
Definition sample_log : list redo :=
  [RedoRecords.CreateVertexType (MkCreateVertexType [112] [([105], int64 0); ([97], int 0)] [[105]] false);
   RedoRecords.CreateEdgeType (MkCreateEdgeType [112] [112] [107] [([119], int 0); ([120], int 0)] kMultiple kMultiple None false);
   InsertVertex [112] (int64 7) [int 1]; InsertVertex [112] (int64 8) [int 2]; InsertVertex [112] (int64 9) [int 3];
   InsertEdge [112] (int64 7) [112] (int64 8) [107] [int 5; int 6];
   InsertEdge [112] (int64 8) [112] (int64 9) [107] [int 7; int 8];
   InsertEdge [112] (int64 9) [112] (int64 7) [107] [int 9; int 10];
   RemoveVertex [112] (int64 7)].

Definition no_default (_ : DataType) : Value := int 0.
Definition unindexed (_ : redo) (_ : Z) : st (graph VTab Col) unit := throw NotSupported.

Lemma replay_exact_witness :
  (put_all put_redo sample_log).2 = None ∧
  (GraphReplay.ReplayCowGraphWal no_default unindexed 3 (put_all put_redo sample_log).1 empty_graph) =
  for_each (canon_redo <$> sample_log) (GraphReplay.replay_record no_default unindexed 3) empty_graph.
Proof. apply (replay_exact no_default unindexed sample_log 3 empty_graph). vm_compute. reflexivity. Defined.

(** What the replayed graph answers: one edge is left, vertices 8 and 9 are there. *)
Theorem replayed_reads :
  let x := GraphReplay.ReplayCowGraphWal no_default unindexed 3 (put_all put_redo sample_log).1 empty_graph in
  x.2 = Ok tt ∧ EdgeNum 0 0 0 x.1 = 1 ∧ VertexNum 0 3 x.1 = Ok 2 ∧ get_lid 0 (int64 7) 3 x.1 = Ok None ∧
  get_lid 0 (int64 8) 3 x.1 = Ok (Some 1) ∧ get_lid 0 (int64 9) 2 x.1 = Ok None.
Proof. vm_compute. repeat split. Qed.

Lemma replay_remove_vertex_witness :
  ∃ E, (GraphReplay.replay_record no_default unindexed 2 (RemoveVertex [112] (int64 7)) sample).2 = Ok tt ∧
    graph_ok (GraphReplay.replay_record no_default unindexed 2 (RemoveVertex [112] (int64 7)) sample).1
      (λ l, if decide (l = 0) then without (sample_vertices l) 2 0 else sample_vertices l) E ∧
    E 0 = [MkArc 1 1 1 (V_ubigint 4); MkArc 0 1 3 (V_ubigint 2)].
Proof.
  destruct (replay_remove_vertex no_default unindexed sample sample_vertices sample_edges [112] (int64 7) 2 0 0 sample_ok) as [H1 H2];
    [vm_compute; reflexivity|done|vm_compute; reflexivity|done|done|apply sample_distinguishable|].
  eexists. split_and!; [exact H1|exact H2|]. vm_compute. reflexivity.
Defined.

(** ** A property named twice *)

(** Adding two properties of the same name to a triplet passes the test for names
    that exist, since neither does; the schema then takes the first and throws at
    the second.  The table, which shares the schema, now has a property without a
    column. *)
Theorem repeated_property_diverges :
  let x := GraphColumns.AddEdgeProperties (λ _, int 0) 0 0 0 [([120], int 1); ([120], int 2)] sample in
  x.2 = Throw RuntimeFailure ∧
  match edge_tables_ x.1 !! 0 with
  | Some t => length (EdgeSchema.property_names (meta_ t)) = 3%nat ∧ length (Table.columns_ (table_ t)) = 2%nat
  | None => False
  end.
Proof. vm_compute. repeat split. Qed.

(** ** Types *)

Lemma graph_delete_edge_type_witness :
  let x := DeleteEdgeType 0 0 0 sample in
  x.2 = Ok OK ∧ graph_ok x.1 sample_vertices sample_edges ∧ edge_tables_ x.1 = delete 0 (edge_tables_ sample) ∧
  Schema.has_edge_triplet 0 0 0 (schema_ x.1) = false.
Proof.
  destruct (graph_delete_edge_type sample sample_vertices sample_edges 0 0 0 sample_ok) as (H1 & H2 & H3 & _ & H4); [split; done..|].
  split_and!; [exact H1|exact H2|exact H3|exact H4].
Defined.

Lemma graph_delete_vertex_type_witness :
  let x := DeleteVertexType 0 sample in
  x.2 = Ok OK ∧ graph_ok x.1 sample_vertices sample_edges ∧ Schema.is_vertex_label_valid 0 (schema_ x.1) = false ∧
  edge_tables_ x.1 !! 0 = None.
Proof.
  destruct (graph_delete_vertex_type sample sample_vertices sample_edges 0 sample_ok) as (H1 & H2 & H3 & H4 & _); [done|by vm_compute|].
  split_and!; [exact H1|exact H2|exact H3|]. rewrite H4. vm_compute. reflexivity.
Defined.
