(* ===== verification/SnapshotStore.v ===== *)
(** * GraphSnapshotStore

    src/storages/graph/graph_snapshot_store.cc: a fixed pool of slots that hold
    graph snapshots.  One slot is current; readers pin it without a lock,
    writers prepare a new snapshot in a free slot and publish it by switching
    the current index, and the last one to unpin a slot that is no longer
    current cleans it up and returns it to the pool.  As in OperationGate each
    method is a machine whose steps make at most one access of a shared
    variable; the two operations on the free list, which hold its mutex, are one
    step each. *)

From S2P Require Import Prelude GateWord OperationGate.

(** What the environment decides: a spurious failure of a weak exchange, and
    whether building a [GraphView] throws. *)
Record store_oracle := StoreOracle { weak_fails : bool; view_throws : bool }.

Module GraphSnapshotStore.

Definition kCleanupSentinel : Z := - (Z.shiftl 1 20).

(** [storage_] is the graph a slot owns; [view_] is the graph its view was
    built from. *)
Record slot (G : Type) := MkSlot {
  storage_ : option G;
  view_ : option G;
  snapshot_generation_ : Z;
  planning_generation_ : Z;
  reader_count_ : Z }.
Arguments MkSlot {G}. Arguments storage_ {G}. Arguments view_ {G}.
Arguments snapshot_generation_ {G}. Arguments planning_generation_ {G}.
Arguments reader_count_ {G}.

Record store (G : Type) := MkStore {
  slots_ : list (slot G);
  cur_slot_index_ : nat;
  last_reserved_snapshot_generation_ : Z;
  free_list_ : list nat }.
Arguments MkStore {G}. Arguments slots_ {G}. Arguments cur_slot_index_ {G}.
Arguments last_reserved_snapshot_generation_ {G}. Arguments free_list_ {G}.

(** How an operation of a caller continues after a callee's step. *)
Definition call {S pc pc' R R'} (inj : pc → pc') (ret : R → ctl pc' R') (r : S * ctl pc R)
  : S * ctl pc' R' :=
  match r with
  | (s, Goto c) => (s, Goto (inj c))
  | (s, Return v) => (s, ret v)
  | (s, Raise e) => (s, Raise e)
  end.

Section operations.
Context {G : Type} (Clone : G → G).
Implicit Types (s : store G) (sl : slot G) (i j : nat).

Definition empty_slot : slot G := MkSlot None None 0 0 0.

(** The pool with [slot_num] slots, the initial graph in slot 0. *)
Definition init (slot_num : nat) (initial_pg : G) (initial_snapshot_generation : Z) : store G :=
  MkStore (MkSlot (Some initial_pg) (Some initial_pg) initial_snapshot_generation 0 1
             :: replicate (slot_num - 1) empty_slot)
    0 initial_snapshot_generation (seq 1 (slot_num - 1)).

Definition set_slot i (f : slot G → slot G) s : store G :=
  MkStore (alter f i (slots_ s)) (cur_slot_index_ s) (last_reserved_snapshot_generation_ s) (free_list_ s).
Definition set_cur i s : store G :=
  MkStore (slots_ s) i (last_reserved_snapshot_generation_ s) (free_list_ s).
Definition set_reserved g s : store G :=
  MkStore (slots_ s) (cur_slot_index_ s) g (free_list_ s).
Definition set_free l s : store G :=
  MkStore (slots_ s) (cur_slot_index_ s) (last_reserved_snapshot_generation_ s) l.

Definition set_storage v sl : slot G :=
  MkSlot v (view_ sl) (snapshot_generation_ sl) (planning_generation_ sl) (reader_count_ sl).
Definition set_view v sl : slot G :=
  MkSlot (storage_ sl) v (snapshot_generation_ sl) (planning_generation_ sl) (reader_count_ sl).
Definition set_generation v sl : slot G :=
  MkSlot (storage_ sl) (view_ sl) v (planning_generation_ sl) (reader_count_ sl).
Definition set_planning v sl : slot G :=
  MkSlot (storage_ sl) (view_ sl) (snapshot_generation_ sl) v (reader_count_ sl).
Definition set_count v sl : slot G :=
  MkSlot (storage_ sl) (view_ sl) (snapshot_generation_ sl) (planning_generation_ sl) v.
(** [fetch_add] on [std::atomic<int>]. *)
Definition add_count v sl : slot G := set_count (i32 (reader_count_ sl + v)) sl.

(** [storage_ != nullptr]. *)
Definition has_storage sl : bool := match storage_ sl with Some _ => true | None => false end.

(** ** The free list *)

(** [back] and [pop_back]; no slot is -1 in the source. *)
Definition getFreeSlot s : store G * option nat :=
  match last (free_list_ s) with
  | None => (s, None)
  | Some i => (set_free (removelast (free_list_ s)) s, Some i)
  end.

Definition returnFreeSlot i s : store G := set_free (free_list_ s ++ [i]) s.

(** ** Unpinning and cleanup *)

Inductive cleanup_pc := CL_storage | CL_view | CL_generation | CL_planning | CL_count | CL_return.

Definition cleanupSlot i (c : cleanup_pc) s : store G * ctl cleanup_pc unit :=
  match c with
  | CL_storage =>
      if (length (slots_ s) <=? i)%nat then (s, Return tt)
      else (set_slot i (set_storage None) s, Goto CL_view)
  | CL_view => (set_slot i (set_view None) s, Goto CL_generation)
  | CL_generation => (set_slot i (set_generation 0) s, Goto CL_planning)
  | CL_planning => (set_slot i (set_planning 0) s, Goto CL_count)
  | CL_count => (set_slot i (add_count (- kCleanupSentinel)) s, Goto CL_return)
  | CL_return => (returnFreeSlot i s, Return tt)
  end.

Inductive unpin_pc :=
  | UN_sub                       (* reader_count_.fetch_sub(1) *)
  | UN_cur                       (* it was the last pin: is the slot current? *)
  | UN_storage
  | UN_cas
  | UN_cleanup (c : cleanup_pc).

(** The result tells whether the call was legal; [false] is the path that logs
    an error. *)
Definition unpinSnapshotByIndex i (c : unpin_pc) s : store G * ctl unpin_pc bool :=
  match c with
  | UN_sub =>
      match slots_ s !! i with
      | None => (s, Return false)
      | Some sl =>
          let prev_count := reader_count_ sl in
          (set_slot i (add_count (-1)) s,
           if prev_count <=? 0 then Return false
           else if prev_count =? 1 then Goto UN_cur else Return true)
      end
  | UN_cur => (s, if (i =? cur_slot_index_ s)%nat then Return true else Goto UN_storage)
  | UN_storage =>
      (s, match slots_ s !! i with
          | Some sl => if has_storage sl then Goto UN_cas else Return true
          | None => Raise OutOfBounds
          end)
  | UN_cas =>
      match slots_ s !! i with
      | Some sl =>
          if reader_count_ sl =? 0
          then (set_slot i (set_count kCleanupSentinel) s, Goto (UN_cleanup CL_storage))
          else (s, Return true)
      | None => (s, Raise OutOfBounds)
      end
  | UN_cleanup c => call UN_cleanup (λ _, Return true) (cleanupSlot i c s)
  end.

(** ** Pinning *)

Inductive pin_pc :=
  | PIN_cur
  | PIN_count (i : nat)
  | PIN_cas (i : nat) (observed : Z)
  | PIN_verify (i : nat)
  | PIN_unpin (i : nat) (c : unpin_pc).

Definition PinCurrentSnapshot (o : store_oracle) (c : pin_pc) s : store G * ctl pin_pc nat :=
  match c with
  | PIN_cur => (s, Goto (PIN_count (cur_slot_index_ s)))
  | PIN_count i =>
      match slots_ s !! i with
      | None => (s, Raise OutOfBounds)
      | Some sl =>
          (s, if 0 <? reader_count_ sl then Goto (PIN_cas i (reader_count_ sl)) else Goto PIN_cur)
      end
  | PIN_cas i observed =>
      match slots_ s !! i with
      | None => (s, Raise OutOfBounds)
      | Some sl =>
          if (reader_count_ sl =? observed) && negb (weak_fails o)
          then (set_slot i (set_count (i32 (observed + 1))) s, Goto (PIN_verify i))
          else (s, if 0 <? reader_count_ sl then Goto (PIN_cas i (reader_count_ sl)) else Goto PIN_cur)
      end
  | PIN_verify i =>
      (s, if (cur_slot_index_ s =? i)%nat then Return i else Goto (PIN_unpin i UN_sub))
  | PIN_unpin i c => call (PIN_unpin i) (λ _, Goto PIN_cur) (unpinSnapshotByIndex i c s)
  end.

(** The graph of the current slot. *)
Definition CurrentSnapshot s : res G :=
  match slots_ s !! cur_slot_index_ s with
  | Some sl => match storage_ sl with Some g => Ok g | None => Throw CheckFailed end
  | None => Throw OutOfBounds
  end.

(** [CloneCurrentForUpdate]: pin, copy, unpin. *)
Inductive clone_pc :=
  | CC_pin (c : pin_pc)
  | CC_read (i : nat)
  | CC_unpin (i : nat) (g : G) (planning : Z) (c : unpin_pc).

Definition CloneCurrentForUpdate (o : store_oracle) (c : clone_pc) s : store G * ctl clone_pc (G * Z) :=
  match c with
  | CC_pin c => call CC_pin (λ i, Goto (CC_read i)) (PinCurrentSnapshot o c s)
  | CC_read i =>
      (s, match slots_ s !! i with
          | Some sl =>
              match storage_ sl with
              | Some g => Goto (CC_unpin i (Clone g) (planning_generation_ sl) UN_sub)
              | None => Raise OutOfBounds
              end
          | None => Raise OutOfBounds
          end)
  | CC_unpin i g p c => call (CC_unpin i g p) (λ _, Return (g, p)) (unpinSnapshotByIndex i c s)
  end.

(** ** Preparing and publishing *)

Inductive reserve_pc := RS_load | RS_cas (current : Z).

Definition reserveSnapshotGeneration (o : store_oracle) (c : reserve_pc) s : store G * ctl reserve_pc Z :=
  match c with
  | RS_load => (s, Goto (RS_cas (last_reserved_snapshot_generation_ s)))
  | RS_cas current =>
      if current =? U32_MAX then (s, Raise RuntimeFailure)
      else if (last_reserved_snapshot_generation_ s =? current) && negb (weak_fails o)
      then (set_reserved (u32 (current + 1)) s, Return (u32 (current + 1)))
      else (s, Goto (RS_cas (last_reserved_snapshot_generation_ s)))
  end.

Inductive undo_pc := PF_storage | PF_view | PF_generation | PF_planning | PF_count | PF_return.

(** The handler of [PrepareSnapshot], which rethrows [e]. *)
Definition undo_prepare i (e : exn) (c : undo_pc) s : store G * ctl undo_pc nat :=
  match c with
  | PF_storage => (set_slot i (set_storage None) s, Goto PF_view)
  | PF_view => (set_slot i (set_view None) s, Goto PF_generation)
  | PF_generation => (set_slot i (set_generation 0) s, Goto PF_planning)
  | PF_planning => (set_slot i (set_planning 0) s, Goto PF_count)
  | PF_count => (set_slot i (set_count 0) s, Goto PF_return)
  | PF_return => (returnFreeSlot i s, Raise e)
  end.

Inductive prepare_pc :=
  | PR_slot
  | PR_reserve (i : nat) (c : reserve_pc)
  | PR_guard (i : nat) (g : Z)
  | PR_storage (i : nat) (g : Z)
  | PR_view (i : nat) (g : Z)
  | PR_generation (i : nat) (g : Z)
  | PR_planning (i : nat) (g : Z)
  | PR_pin (i : nat) (g : Z)
  | PR_undo (i : nat) (e : exn) (c : undo_pc).

(** [None] is an error status; the slot of the [PreparedSnapshot] otherwise. *)
Definition PrepareSnapshot (new_pg : option G) (planning_generation : Z) (o : store_oracle)
    (c : prepare_pc) s : store G * ctl prepare_pc (option nat) :=
  match c with
  | PR_slot =>
      match new_pg with
      | None => (s, Return None)
      | Some _ =>
          let (s, slot_index) := getFreeSlot s in
          (s, match slot_index with
              | None => Return None
              | Some i => Goto (PR_reserve i RS_load)
              end)
      end
  | PR_reserve i c =>
      match reserveSnapshotGeneration o c s with
      | (s, Goto c) => (s, Goto (PR_reserve i c))
      | (s, Return g) => (s, Goto (PR_guard i g))
      | (s, Raise e) => (s, Goto (PR_undo i e PF_storage))
      end
  | PR_guard i g => (set_slot i (set_count kCleanupSentinel) s, Goto (PR_storage i g))
  | PR_storage i g => (set_slot i (set_storage new_pg) s, Goto (PR_view i g))
  | PR_view i g =>
      if view_throws o then (s, Goto (PR_undo i RuntimeFailure PF_storage))
      else (set_slot i (set_view new_pg) s, Goto (PR_generation i g))
  | PR_generation i g => (set_slot i (set_generation g) s, Goto (PR_planning i g))
  | PR_planning i g => (set_slot i (set_planning planning_generation) s, Goto (PR_pin i g))
  | PR_pin i g => (set_slot i (add_count (- kCleanupSentinel + 1)) s, Return (Some i))
  | PR_undo i e c => call (PR_undo i e) (λ _, Return None) (undo_prepare i e c s)
  end.

Inductive publish_pc :=
  | PU_generation                      (* the generation of the prepared slot *)
  | PU_check (g : Z)                   (* publishPreparedSnapshot *)
  | PU_exchange (g : Z)
  | PU_unpin (old_slot_index : nat) (g : Z) (c : unpin_pc).

(** [PreparedSnapshot::Publish] with [publishPreparedSnapshot]. *)
Definition Publish i (c : publish_pc) s : store G * ctl publish_pc Z :=
  match c with
  | PU_generation =>
      (s, match slots_ s !! i with
          | Some sl => Goto (PU_check (snapshot_generation_ sl))
          | None => Raise OutOfBounds
          end)
  | PU_check g =>
      (s, match slots_ s !! i with
          | Some sl => if 1 <=? reader_count_ sl then Goto (PU_exchange g) else Raise CheckFailed
          | None => Raise CheckFailed
          end)
  | PU_exchange g => (set_cur i s, Goto (PU_unpin (cur_slot_index_ s) g UN_sub))
  | PU_unpin old g c => call (PU_unpin old g) (λ _, Return g) (unpinSnapshotByIndex old c s)
  end.

(** ** In-place replacement and maintenance *)

Inductive replace_pc := RP_cur | RP_count | RP_storage | RP_view | RP_planning.

(** [replaceCurrentSnapshotInPlace] on the slot [target] the writer has pinned. *)
Definition replaceCurrentSnapshotInPlace (target : nat) (prepared : G) (planning_generation : Z)
    (c : replace_pc) s : store G * ctl replace_pc unit :=
  match c with
  | RP_cur => (s, if (target =? cur_slot_index_ s)%nat then Goto RP_count else Raise CheckFailed)
  | RP_count =>
      (s, match slots_ s !! target with
          | Some sl => if reader_count_ sl =? 2 then Goto RP_storage else Raise CheckFailed
          | None => Raise OutOfBounds
          end)
  | RP_storage => (set_slot target (set_storage (Some prepared)) s, Goto RP_view)
  | RP_view => (set_slot target (set_view (Some prepared)) s, Goto RP_planning)
  | RP_planning => (set_slot target (set_planning planning_generation) s, Return tt)
  end.

Inductive maintenance_pc :=
  | MT_cur
  | MT_count (i : nat)
  | MT_recheck (i : nat)
  | MT_scan (i j : nat)
  | MT_storage (i : nat).

(** The checks of [WithCheckpointMaintenance]; it returns the slot the callback
    is given. *)
Definition WithCheckpointMaintenance (c : maintenance_pc) s : store G * ctl maintenance_pc nat :=
  (s,
   match c with
   | MT_cur => Goto (MT_count (cur_slot_index_ s))
   | MT_count i =>
       match slots_ s !! i with
       | Some sl => if reader_count_ sl =? 1 then Goto (MT_recheck i) else Raise InternalError
       | None => Raise OutOfBounds
       end
   | MT_recheck i => if (cur_slot_index_ s =? i)%nat then Goto (MT_scan i 0) else Raise InternalError
   | MT_scan i j =>
       match slots_ s !! j with
       | None => Goto (MT_storage i)
       | Some sl =>
           if (j =? i)%nat then Goto (MT_scan i (S j))
           else if negb (reader_count_ sl =? 0) || has_storage sl
           then Raise InternalError else Goto (MT_scan i (S j))
       end
   | MT_storage i =>
       match slots_ s !! i with
       | Some sl => if has_storage sl then Return i else Raise CheckFailed
       | None => Raise OutOfBounds
       end
   end).

(** [CheckpointMaintenanceContext::RefreshCurrentView], also the end of
    [ReopenCurrentGraphFromCheckpoint]. *)
Definition RefreshCurrentView i (planning_changed : bool) s : store G * res Z :=
  match slots_ s !! i with
  | None => (s, Throw OutOfBounds)
  | Some sl =>
      let s := set_slot i (set_view (storage_ sl)) s in
      if planning_changed then
        if planning_generation_ sl =? 2^64 - 1 then (s, Throw CheckFailed)
        else (set_slot i (set_planning (u64 (planning_generation_ sl + 1))) s, Ok (snapshot_generation_ sl))
      else (s, Ok (snapshot_generation_ sl))
  end.
End operations.
End GraphSnapshotStore.
