(* ===== verification/SnapshotThreads.v ===== *)
(** * Concurrent users of the snapshot store

    Threads that pin, clone, prepare, publish, discard, replace and maintain
    snapshots in any interleaving.  Readers, inserters and any number of
    publishers run together; in-place replacement and maintenance run while no
    other thread uses the store, which is what the exclusive state of the
    version manager gives their callers (CurrentGraphWriteGuard,
    CheckpointCoordinator). *)

From S2P Require Import Prelude GateWord OperationGate SnapshotStore.
Import GraphSnapshotStore.

#[global] Instance replace_pc_eq_dec : EqDecision replace_pc.
Proof. solve_decision. Defined.

Inductive store_cmd (G : Type) :=
  | CPin | CRelease | CClone
  | CPrepare (pg : option G) (planning : Z) | CPublish | CDiscard
  | CExclusivePin | CReplace (pg : G) (planning : Z)
  | CMaintain | CRefresh (planning_changed : bool).
Arguments CPin {G}. Arguments CRelease {G}. Arguments CClone {G}. Arguments CPrepare {G}.
Arguments CPublish {G}. Arguments CDiscard {G}. Arguments CExclusivePin {G}.
Arguments CReplace {G}. Arguments CMaintain {G}. Arguments CRefresh {G}.

(** [Pinned i] is a thread with a [SnapshotGuard], [Prepared i] one with a
    [PreparedSnapshot]; the states with an X are those of an exclusive writer,
    [Maintained i] runs the maintenance callback. *)
Inductive store_thread (G : Type) :=
  | Idle
  | Failed (e : exn)
  | Pinning (c : pin_pc)
  | Pinned (i : nat)
  | Unpinning (i : nat) (c : unpin_pc)
  | Cloning (c : clone_pc (G := G))
  | Cloned (g : G) (planning : Z)
  | Preparing (pg : option G) (planning : Z) (c : prepare_pc)
  | Prepared (i : nat)
  | Publishing (i : nat) (c : publish_pc)
  | Published (g : Z)
  | XPinning (c : pin_pc)
  | XPinned (i : nat)
  | Replacing (i : nat) (pg : G) (planning : Z) (c : replace_pc)
  | XUnpinning (i : nat) (c : unpin_pc)
  | Maintaining (c : maintenance_pc)
  | Maintained (i : nat).
Arguments Idle {G}. Arguments Failed {G}. Arguments Pinning {G}. Arguments Pinned {G}.
Arguments Unpinning {G}. Arguments Cloning {G}. Arguments Cloned {G}. Arguments Preparing {G}.
Arguments Prepared {G}. Arguments Publishing {G}. Arguments Published {G}. Arguments XPinning {G}.
Arguments XPinned {G}. Arguments Replacing {G}. Arguments XUnpinning {G}. Arguments Maintaining {G}.
Arguments Maintained {G}.

Section threads.
Context {G : Type} (Clone : G → G).
Implicit Types (s : store G) (x y : store_thread G) (ts : list (store_thread G)).

(** Continuing a method: its next point, the state it returns to, or failure. *)
Definition resume {pc R} (inj : pc → store_thread G) (ret : R → store_thread G)
    (r : store G * ctl pc R) : store_thread G * store G :=
  match r with
  | (s, Goto c) => (inj c, s)
  | (s, Return v) => (ret v, s)
  | (s, Raise e) => (Failed e, s)
  end.

Definition start (cmd : store_cmd G) : store_thread G :=
  match cmd with
  | CPin => Pinning PIN_cur
  | CClone => Cloning (CC_pin PIN_cur)
  | CPrepare pg p => Preparing pg p PR_slot
  | CExclusivePin => XPinning PIN_cur
  | CMaintain => Maintaining MT_cur
  | _ => Idle
  end.

(** A caller that got an exception goes on; any other failure ends it.  An unpin
    that logs an error ends in [Failed InternalError]. *)
Definition unpinned (legal : bool) : store_thread G :=
  if legal then Idle else Failed InternalError.

Definition store_step (cmd : store_cmd G) (o : store_oracle) x s : store_thread G * store G :=
  match x with
  | Idle | Cloned _ _ | Published _ | Failed RuntimeFailure => (start cmd, s)
  | Failed e => (Failed e, s)
  | Pinning c => resume Pinning Pinned (PinCurrentSnapshot o c s)
  | Pinned i => (match cmd with CRelease => Unpinning i UN_sub | _ => x end, s)
  | Unpinning i c => resume (Unpinning i) unpinned (unpinSnapshotByIndex i c s)
  | Cloning c => resume Cloning (λ r, Cloned r.1 r.2) (CloneCurrentForUpdate Clone o c s)
  | Preparing pg p c =>
      resume (Preparing pg p) (λ r, match r with Some i => Prepared i | None => Idle end)
        (PrepareSnapshot pg p o c s)
  | Prepared i =>
      (match cmd with
       | CPublish => Publishing i PU_generation | CDiscard => Unpinning i UN_sub | _ => x
       end, s)
  | Publishing i c => resume (Publishing i) Published (Publish i c s)
  | XPinning c => resume XPinning XPinned (PinCurrentSnapshot o c s)
  | XPinned i =>
      (match cmd with
       | CReplace pg p => Replacing i pg p RP_cur | CRelease => XUnpinning i UN_sub | _ => x
       end, s)
  | Replacing i pg p c =>
      resume (Replacing i pg p) (λ _, XPinned i) (replaceCurrentSnapshotInPlace i pg p c s)
  | XUnpinning i c => resume (XUnpinning i) unpinned (unpinSnapshotByIndex i c s)
  | Maintaining c => resume Maintaining Maintained (WithCheckpointMaintenance c s)
  | Maintained i =>
      match cmd with
      | CRefresh b =>
          match RefreshCurrentView i b s with
          | (s, Ok _) => (x, s)
          | (s, Throw e) => (Failed e, s)
          end
      | CRelease => (Idle, s)
      | _ => (x, s)
      end
  end.

(** ** Admission *)

(** Threads that hold nothing of the store. *)
Definition quiet x : bool :=
  match x with Idle | Cloned _ _ | Published _ | Failed _ => true | _ => false end.

(** Threads that need the store for themselves.  A failed [CHECK] ends the
    process, so nobody starts after it. *)
Definition exclusive x : bool :=
  match x with
  | XPinning _ | XPinned _ | Replacing _ _ _ _ | XUnpinning _ _ | Maintaining _ | Maintained _
  | Failed CheckFailed => true
  | _ => false
  end.

(** A thread that starts to use the store: an exclusive one when all others
    are quiet, another one when no thread is exclusive. *)
Definition admitted ts (t : nat) x x' : bool :=
  if quiet x && negb (quiet x') then
    forallb id (imap (λ u y, (u =? t)%nat || (if exclusive x' then quiet y && negb (exclusive y) else negb (exclusive y))) ts)
  else true.

Record store_state := StoreState { ss : store G; sts : list (store_thread G) }.

Inductive store_trans (P : nat → Prop) : store_state → store_state → Prop :=
  | store_trans_intro s ts t x cmd o x' s' :
      ts !! t = Some x → P t → store_step cmd o x s = (x', s') → admitted ts t x x' = true →
      store_trans P (StoreState s ts) (StoreState s' (<[t:=x']> ts)).

(** Any thread moves, or any but [t]. *)
Definition any_step := store_trans (λ _, True).
Definition step_of_others (t : nat) := store_trans (λ u, u ≠ t).

Definition store_init (slot_num : nat) (pg : G) (generation : Z) (n : nat) : store_state :=
  StoreState (init slot_num pg generation) (replicate n Idle).

(** Running a schedule; a step that is not admitted is skipped. *)
Definition store_run (sched : list (nat * store_cmd G * store_oracle)) (st : store_state) : store_state :=
  foldl (λ st '(t, cmd, o),
    match sts st !! t with
    | Some x => let '(x', s') := store_step cmd o x (ss st) in
                if admitted (sts st) t x x' then StoreState s' (<[t:=x']> (sts st)) else st
    | None => st
    end) st sched.

Lemma store_run_star (P : nat → Prop) sched st :
  Forall (λ '(t, _, _), P t) sched → star (store_trans P) st (store_run sched st).
Proof.
  revert st. induction sched as [|[[t cmd] o] sched IH]; intros st HP; [constructor|].
  apply Forall_cons in HP as [Ht HP]. cbn [store_run foldl].
  destruct (sts st !! t) as [x|] eqn:Hx; [|by apply IH].
  destruct (store_step cmd o x (ss st)) as [x' s'] eqn:Hs.
  destruct (admitted (sts st) t x x') eqn:Ha; [|by apply IH].
  eapply star_trans; [|by apply IH]. eapply star_snoc; [constructor|].
  destruct st. by econstructor.
Qed.
End threads.
Arguments StoreState {G}. Arguments ss {G}. Arguments sts {G}.
