(* ===== verification/SnapshotInvariant.v ===== *)
(** * The slots of the snapshot store under concurrency

    What a thread has of a slot (nothing, one pin, or the slot itself while it
    is cleaned up or built), the invariant that ties the slots, the current
    index and the free list to these holdings, and the kinds of step that keep
    it. *)

From S2P Require Import Prelude GateWord OperationGate SnapshotStore.
Import GraphSnapshotStore.

(** [ROwn i P]: the slot is in nobody else's reach and satisfies [P]. *)
Inductive role (G : Type) :=
  | RNone
  | RPin (i : nat)
  | ROwn (i : nat) (P : slot G → Prop).
Arguments RNone {G}. Arguments RPin {G}. Arguments ROwn {G}.

Section invariant.
Context {G : Type}.
Implicit Types (s : store G) (sl : slot G) (i j : nat) (r : role G) (rs : list (role G)).

Definition pin_at i r : Z := match r with RPin j => if decide (i = j) then 1 else 0 | _ => 0 end.
Definition own_at i r : Z := match r with ROwn j _ => if decide (i = j) then 1 else 0 | _ => 0 end.
Definition free_at i s : Z := zsum (λ j, if decide (i = j) then 1 else 0) (free_list_ s).
Definition cur_at i s : Z := if decide (i = cur_slot_index_ s) then 1 else 0.

(** The pins of a slot, the one of the current index included. *)
Definition holders s rs i : Z := zsum (pin_at i) rs + cur_at i s.

Definition live sl : Prop := is_Some (storage_ sl) ∧ is_Some (view_ sl).

(** Every slot is live, free, or owned by one thread. *)
Record slots_inv s rs : Prop := {
  si_cur : (cur_slot_index_ s < length (slots_ s))%nat;
  si_part i : (i < length (slots_ s))%nat →
    zsum (own_at i) rs + free_at i s + (if 0 <? holders s rs i then 1 else 0) = 1;
  si_live i sl : slots_ s !! i = Some sl → 0 < holders s rs i →
    reader_count_ sl = holders s rs i ∧ live sl;
  si_free i : i ∈ free_list_ s → slots_ s !! i = Some empty_slot;
  si_own i P : ROwn i P ∈ rs → ∃ sl, slots_ s !! i = Some sl ∧ P sl ∧ reader_count_ sl ≤ 0;
  si_pin i : RPin i ∈ rs → (i < length (slots_ s))%nat;
  si_len : Z.of_nat (length rs) + 1 < 2^31 }.

Inductive move : role G → store G → role G → store G → Prop :=
  | mv_refl r s : move r s r s
  | mv_reserve r s g : move r s r (set_reserved g s)
  | mv_weaken i (P Q : slot G → Prop) s :
      (∀ sl, P sl → reader_count_ sl ≤ 0 → Q sl) → move (ROwn i P) s (ROwn i Q) s
  | mv_pin i sl s :
      slots_ s !! i = Some sl → 0 < reader_count_ sl →
      move RNone s (RPin i) (set_slot i (set_count (i32 (reader_count_ sl + 1))) s)
  | mv_unpin i sl s :
      slots_ s !! i = Some sl → reader_count_ sl ≠ 1 →
      move (RPin i) s RNone (set_slot i (add_count (-1)) s)
  | mv_last i sl (P : slot G → Prop) s :
      slots_ s !! i = Some sl → reader_count_ sl = 1 →
      (∀ sl, reader_count_ sl = 0 → live sl → P sl) →
      move (RPin i) s (ROwn i P) (set_slot i (add_count (-1)) s)
  | mv_own i (P Q : slot G → Prop) f s :
      (∀ sl, P sl → reader_count_ sl ≤ 0 → Q (f sl) ∧ reader_count_ (f sl) ≤ 0) →
      move (ROwn i P) s (ROwn i Q) (set_slot i f s)
  | mv_take i l (P : slot G → Prop) s :
      free_list_ s = l ++ [i] → P empty_slot → move RNone s (ROwn i P) (set_free l s)
  | mv_give i (P : slot G → Prop) s :
      (∀ sl, P sl → sl = empty_slot) → move (ROwn i P) s RNone (returnFreeSlot i s)
  | mv_ready i (P : slot G → Prop) f s :
      (∀ sl, P sl → reader_count_ (f sl) = 1 ∧ live (f sl) ∧ storage_ (f sl) = view_ (f sl)) →
      move (ROwn i P) s (RPin i) (set_slot i f s)
  | mv_exchange i s : move (RPin i) s (RPin (cur_slot_index_ s)) (set_cur i s).

(** ** Reading the invariant *)

Lemma pin_at_range i r : 0 ≤ pin_at i r ≤ 1.
Proof. destruct r; cbn; try lia; case_decide; lia. Qed.
Lemma own_at_range i r : 0 ≤ own_at i r ≤ 1.
Proof. destruct r; cbn; try lia; case_decide; lia. Qed.
Lemma cur_at_range i s : 0 ≤ cur_at i s ≤ 1.
Proof. unfold cur_at. case_decide; lia. Qed.
Lemma free_at_nonneg i s : 0 ≤ free_at i s.
Proof. apply zsum_nonneg. intros j _. case_decide; lia. Qed.

Lemma pins_nonneg i rs : 0 ≤ zsum (pin_at i) rs.
Proof. apply zsum_nonneg. intros r _. apply pin_at_range. Qed.
Lemma owns_nonneg i rs : 0 ≤ zsum (own_at i) rs.
Proof. apply zsum_nonneg. intros r _. apply own_at_range. Qed.

Lemma holders_range s rs i : 0 ≤ holders s rs i ≤ Z.of_nat (length rs) + 1.
Proof.
  unfold holders. pose proof (pins_nonneg i rs). pose proof (cur_at_range i s).
  pose proof (zsum_le_length (pin_at i) rs (λ r _, proj2 (pin_at_range i r))). lia.
Qed.

Lemma free_at_elem i s : i ∈ free_list_ s ↔ 0 < free_at i s.
Proof.
  unfold free_at. induction (free_list_ s) as [|j l IH]; [split; [intros H; inversion H|done]|]. rewrite zsum_cons.
  assert (0 ≤ zsum (λ j, if decide (i = j) then 1 else 0) l) by (apply zsum_nonneg; intros; case_decide; lia).
  rewrite elem_of_cons, IH. case_decide; naive_solver lia.
Qed.

(** A slot with a positive count is live: it is neither free nor owned. *)
Lemma counted_held s rs i sl :
  slots_inv s rs → slots_ s !! i = Some sl → 0 < reader_count_ sl → 0 < holders s rs i.
Proof.
  intros Hi Hl Hc. pose proof (si_part _ _ Hi i ltac:(eauto using lookup_lt_Some)) as Hp.
  destruct (0 <? holders s rs i) eqn:E; [by apply Z.ltb_lt|].
  pose proof (free_at_nonneg i s). pose proof (owns_nonneg i rs).
  destruct (decide (0 < free_at i s)) as [Hf|Hf].
  - apply free_at_elem, (si_free _ _ Hi) in Hf. rewrite Hl in Hf. simplify_eq. cbn in Hc. lia.
  - destruct (zsum_nonzero (own_at i) rs) as (r & Hr & Hn); [lia|].
    destruct r as [| |j P]; cbn in Hn; [done..|]. case_decide; [subst j|done].
    destruct (si_own _ _ Hi i P Hr) as (sl' & Hl' & _ & Hle). simplify_eq. lia.
Qed.

Lemma pinned_slot s rs i :
  slots_inv s rs → RPin i ∈ rs →
  ∃ sl, slots_ s !! i = Some sl ∧ 1 ≤ reader_count_ sl ∧ live sl ∧ reader_count_ sl = holders s rs i.
Proof.
  intros Hi Hr. destruct (lookup_lt_is_Some_2 _ _ (si_pin _ _ Hi i Hr)) as [sl Hl]. exists sl.
  assert (1 ≤ holders s rs i).
  { unfold holders. pose proof (cur_at_range i s).
    pose proof (zsum_elem_le (pin_at i) rs (RPin i) (λ r _, proj1 (pin_at_range i r)) Hr) as Hz.
    cbn in Hz. case_decide; [lia|done]. }
  destruct (si_live _ _ Hi i sl Hl ltac:(lia)) as [-> Hlv]. split_and!; done || lia.
Qed.

Lemma current_slot s rs :
  slots_inv s rs →
  ∃ sl, slots_ s !! cur_slot_index_ s = Some sl ∧ 1 ≤ reader_count_ sl ∧ live sl.
Proof.
  intros Hi. destruct (lookup_lt_is_Some_2 _ _ (si_cur _ _ Hi)) as [sl Hl]. exists sl.
  assert (1 ≤ holders s rs (cur_slot_index_ s)).
  { unfold holders, cur_at. pose proof (pins_nonneg (cur_slot_index_ s) rs). case_decide; [lia|done]. }
  destruct (si_live _ _ Hi _ sl Hl ltac:(lia)) as [-> Hlv]. split_and!; done || lia.
Qed.

(** An owned slot has no pins, is not current and not free. *)
Lemma owned_slot s rs i P :
  slots_inv s (ROwn i P :: rs) →
  ∃ sl, slots_ s !! i = Some sl ∧ P sl ∧ reader_count_ sl ≤ 0 ∧
    holders s rs i = 0 ∧ free_at i s = 0 ∧ zsum (own_at i) rs = 0.
Proof.
  intros Hi. destruct (si_own _ _ Hi i P ltac:(left)) as (sl & Hl & HP & Hc). exists sl. split_and!; try done.
  all: pose proof (si_part _ _ Hi i ltac:(eauto using lookup_lt_Some)) as Hp;
    pose proof (free_at_nonneg i s); pose proof (owns_nonneg i rs); pose proof (holders_range s rs i);
    unfold holders in *; rewrite !zsum_cons in Hp; cbn [pin_at own_at] in Hp; rewrite decide_True in Hp by done;
    case_bool; bool_to_prop; lia.
Qed.

(** ** Moves keep the invariant *)

Lemma slots_inv_perm s rs rs' : rs ≡ₚ rs' → slots_inv s rs → slots_inv s rs'.
Proof.
  intros Hp [H1 H2 H3 H4 H5 H6 H7]. unfold holders in *. split; unfold holders.
  - done.
  - intros i. rewrite <- (zsum_perm _ _ _ Hp), <- (zsum_perm (pin_at i) _ _ Hp). apply H2.
  - intros i sl. rewrite <- (zsum_perm (pin_at i) _ _ Hp). apply H3.
  - done.
  - intros i P. rewrite <- Hp. apply H5.
  - intros i. rewrite <- Hp. apply H6.
  - by rewrite <- (Permutation_length Hp).
Qed.

Lemma i32_id z : - 2^31 ≤ z < 2^31 → i32 z = z.
Proof. intros. unfold i32. dlia. Qed.

(** What changes of the pins, owners and free slots at one index. *)
Lemma slots_inv_step s s' r r' rs :
  slots_inv s (r :: rs) →
  length (slots_ s') = length (slots_ s) →
  (cur_slot_index_ s' < length (slots_ s))%nat →
  (∀ i, (i < length (slots_ s))%nat →
     own_at i r' + free_at i s' = own_at i r + free_at i s ∧ pin_at i r' + cur_at i s' = pin_at i r + cur_at i s ∨
     zsum (own_at i) rs + own_at i r' + free_at i s' + (if 0 <? pin_at i r' + zsum (pin_at i) rs + cur_at i s' then 1 else 0) = 1) →
  (∀ i sl, slots_ s' !! i = Some sl → 0 < holders s' (r' :: rs) i →
     reader_count_ sl = holders s' (r' :: rs) i ∧ live sl) →
  (∀ i, i ∈ free_list_ s' → slots_ s' !! i = Some empty_slot) →
  (∀ i P, r' = ROwn i P → ∃ sl, slots_ s' !! i = Some sl ∧ P sl ∧ reader_count_ sl ≤ 0) →
  (∀ i P sl, ROwn i P ∈ rs → slots_ s !! i = Some sl → slots_ s' !! i = Some sl) →
  (∀ i, r' = RPin i → (i < length (slots_ s))%nat) →
  slots_inv s' (r' :: rs).
Proof.
  intros Hi Hlen Hcur Hpart Hlive Hfree Hown Hrest Hpin. split; rewrite ?Hlen; try done.
  - intros i Hl. pose proof (si_part _ _ Hi i Hl) as Hp. unfold holders in *. rewrite !zsum_cons in *.
    destruct (Hpart i Hl) as [[H1 H2]|H1].
    + replace (pin_at i r' + zsum (pin_at i) rs + cur_at i s') with (pin_at i r + zsum (pin_at i) rs + cur_at i s) by lia. lia.
    + lia.
  - intros i P [Hr|Hr]%elem_of_cons; [by eauto|].
    destruct (si_own _ _ Hi i P ltac:(by right)) as (sl & Hl & ?). eauto.
  - intros i [Hr|Hr]%elem_of_cons; [by eauto|]. apply (si_pin _ _ Hi). by right.
  - apply (si_len _ _ Hi).
Qed.

Lemma lookup_set_slot i f s j :
  slots_ (set_slot i f s) !! j = if decide (i = j) then f <$> slots_ s !! i else slots_ s !! j.
Proof. cbn. apply list_lookup_alter. Qed.

Lemma length_set_slot i f s : length (slots_ (set_slot i f s)) = length (slots_ s).
Proof. cbn. apply length_alter. Qed.

Lemma set_slot_twice i f g s : set_slot i f (set_slot i g s) = set_slot i (f ∘ g) s.
Proof.
  unfold set_slot. cbn. f_equal. generalize (slots_ s). intros l. revert i.
  induction l as [|sl l IH]; intros [|i]; cbn; [done..|]. f_equal. apply IH.
Qed.

(** The slots other threads own are not the one this step changes. *)
Lemma rest_owned s r rs i j P :
  slots_inv s (r :: rs) → own_at i r = 1 ∨ (0 < holders s (r :: rs) i) →
  ROwn j P ∈ rs → i ≠ j.
Proof.
  intros Hi Hr Hj ->. destruct (si_own _ _ Hi j P ltac:(by right)) as (sl' & Hl & _ & Hc).
  pose proof (si_part _ _ Hi j ltac:(eauto using lookup_lt_Some)) as Hp. rewrite zsum_cons in Hp.
  pose proof (zsum_elem_le (own_at j) rs (ROwn j P) (λ r _, proj1 (own_at_range j r)) Hj) as Hz.
  cbn [own_at] in Hz. rewrite decide_True in Hz by done.
  pose proof (own_at_range j r). pose proof (free_at_nonneg j s).
  destruct Hr as [Hr|Hr]; case_bool; bool_to_prop; lia.
Qed.

(** A step that changes one slot which is live or the thread's own. *)
Lemma set_slot_inv s r r' rs k sl f :
  slots_inv s (r :: rs) → slots_ s !! k = Some sl →
  own_at k r = 1 ∨ 0 < holders s (r :: rs) k →
  (∀ i, i ≠ k → own_at i r' = own_at i r ∧ pin_at i r' = pin_at i r) →
  let H := holders s (r :: rs) k in
  let H' := pin_at k r' + (H - pin_at k r) in
  own_at k r' + (if 0 <? H' then 1 else 0) = own_at k r + (if 0 <? H then 1 else 0) →
  (0 < H' → reader_count_ (f sl) = H' ∧ live (f sl)) →
  (∀ i P, r' = ROwn i P → i = k ∧ P (f sl) ∧ reader_count_ (f sl) ≤ 0) →
  (∀ i, r' = RPin i → (i < length (slots_ s))%nat) →
  slots_inv (set_slot k f s) (r' :: rs).
Proof.
  intros Hi Hl Hk Hne H H' Hp Hlive Hown Hpin.
  assert (Hlt : (k < length (slots_ s))%nat) by eauto using lookup_lt_Some.
  assert (HH : ∀ i, holders (set_slot k f s) (r' :: rs) i = if decide (i = k) then H' else holders s (r :: rs) i).
  { intros i. unfold H', H, holders. rewrite !zsum_cons. unfold cur_at. cbn [set_slot cur_slot_index_].
    destruct (decide (i = k)) as [->|Hik]; [lia|]. destruct (Hne i Hik). lia. }
  apply (slots_inv_step s _ r); rewrite ?length_set_slot; try done.
  - apply (si_cur _ _ Hi).
  - intros i Hil. destruct (decide (i = k)) as [->|Hik].
    + right. specialize (HH k). rewrite decide_True in HH by done. unfold holders in HH. rewrite zsum_cons in HH.
      rewrite HH. pose proof (si_part _ _ Hi k Hlt) as Hpk. rewrite zsum_cons in Hpk. fold H in Hpk.
      change (free_at k (set_slot k f s)) with (free_at k s). lia.
    + left. destruct (Hne i Hik). change (free_at i (set_slot k f s)) with (free_at i s).
      change (cur_at i (set_slot k f s)) with (cur_at i s). lia.
  - intros i sl' Hl'. rewrite HH. rewrite lookup_set_slot in Hl'. destruct (decide (i = k)) as [->|Hik].
    + rewrite decide_True, Hl in Hl' by done. cbn in Hl'. simplify_eq. done.
    + rewrite decide_False in Hl' by congruence. by apply (si_live _ _ Hi).
  - intros i Hf. change (i ∈ free_list_ s) in Hf. rewrite lookup_set_slot. rewrite decide_False; [by apply (si_free _ _ Hi)|].
    intros ->. apply free_at_elem in Hf. pose proof (si_part _ _ Hi i Hlt) as Hpk. rewrite zsum_cons in Hpk.
    pose proof (owns_nonneg i rs). pose proof (own_at_range i r). destruct Hk; case_bool; bool_to_prop; lia.
  - intros i P Hr. destruct (Hown i P Hr) as (-> & ? & ?). exists (f sl). rewrite lookup_set_slot, decide_True, Hl; done.
  - intros i P sl' Hr Hl'. rewrite lookup_set_slot, decide_False; [done|]. by eapply rest_owned.
Qed.

(** Evaluates the shares of roles at an index. *)
Ltac shares :=
  cbn [pin_at own_at] in *;
  repeat match goal with
  | |- context [decide (?a = ?a)] => rewrite (decide_True (P := a = a)) by done
  | H : context [decide (?a = ?a)] |- _ => rewrite (decide_True (P := a = a)) in H by done
  | N : ?a ≠ ?b |- context [decide (?a = ?b)] => rewrite (decide_False (P := a = b)) by done
  | N : ?a ≠ ?b, H : context [decide (?a = ?b)] |- _ => rewrite (decide_False (P := a = b)) in H by done
  end.

Lemma pin_move_inv s r r' rs k sl f :
  slots_inv s (r :: rs) → slots_ s !! k = Some sl → 0 < holders s (r :: rs) k →
  (r = RNone ∧ r' = RPin k ∧ f sl = set_count (i32 (reader_count_ sl + 1)) sl) ∨
  (r = RPin k ∧ r' = RNone ∧ reader_count_ sl ≠ 1 ∧ f sl = add_count (-1) sl) →
  slots_inv (set_slot k f s) (r' :: rs).
Proof.
  intros Hi Hl Hh Hc. destruct (si_live _ _ Hi k sl Hl Hh) as [Hcnt [Hst Hv]].
  pose proof (holders_range s rs k). pose proof (si_len _ _ Hi) as Hlen. rewrite length_cons in Hlen.
  assert (Hr : holders s (r :: rs) k = pin_at k r + holders s rs k)
    by (unfold holders; rewrite zsum_cons; lia).
  unfold live. destruct Hc as [(-> & -> & Hf)|(-> & -> & Hn & Hf)]; rewrite Hcnt in *;
    shares; unfold add_count in Hf; rewrite ?Hcnt, i32_id in Hf by lia;
    apply (set_slot_inv s _ _ rs k sl f Hi Hl); rewrite ?Hf; shares; try done; try (by right);
    try (intros; shares; done); try (repeat case_bool; bool_to_prop; lia);
    try (intros; split_and!; cbn; done || lia).
  intros i Hri. simplify_eq. eauto using lookup_lt_Some.
Qed.

Lemma own_move_inv s i P r' rs f :
  slots_inv s (ROwn i P :: rs) →
  (∀ sl, slots_ s !! i = Some sl → P sl → reader_count_ sl ≤ 0 →
     (∃ Q, r' = ROwn i Q ∧ Q (f sl) ∧ reader_count_ (f sl) ≤ 0) ∨
     (r' = RPin i ∧ reader_count_ (f sl) = 1 ∧ live (f sl))) →
  slots_inv (set_slot i f s) (r' :: rs).
Proof.
  intros Hi Hc. destruct (owned_slot _ _ _ _ Hi) as (sl & Hl & HP & Hle & Hh & _ & _).
  assert (Hr : holders s (ROwn i P :: rs) i = 0) by (unfold holders in *; rewrite zsum_cons; done).
  destruct (Hc sl Hl HP Hle) as [(Q & -> & HQ & Hle')|(-> & H1 & Hlv)];
    apply (set_slot_inv s _ _ rs i sl f Hi Hl); rewrite ?Hr; shares; try (by left); try done;
    try (intros; shares; done).
  - intros j P' ?. by simplify_eq.
  - intros j ?. simplify_eq. eauto using lookup_lt_Some.
Qed.

Lemma last_move_inv s i sl P rs :
  slots_inv s (RPin i :: rs) → slots_ s !! i = Some sl → reader_count_ sl = 1 →
  (∀ sl, reader_count_ sl = 0 → live sl → P sl) →
  slots_inv (set_slot i (add_count (-1)) s) (ROwn i P :: rs).
Proof.
  intros Hi Hl Hc HP. destruct (pinned_slot _ _ i Hi ltac:(left)) as (sl' & Hl' & _ & Hlv & Hh). simplify_eq.
  assert (Hf : add_count (-1) sl = set_count 0 sl) by (unfold add_count; by rewrite Hc).
  apply (set_slot_inv s _ _ rs i sl _ Hi Hl); rewrite <- ?Hh, ?Hc, ?Hf; shares; try done; try (right; lia);
    try (intros; shares; done).
  intros j P' ?. simplify_eq. split_and!; [done|by apply HP|done].
Qed.

Lemma free_move_inv s i l P rs :
  slots_inv s (RNone :: rs) → free_list_ s = l ++ [i] → P empty_slot →
  slots_inv (set_free l s) (ROwn i P :: rs).
Proof.
  intros Hi Hf HP. assert (Hin : i ∈ free_list_ s) by (rewrite Hf; set_solver).
  assert (Hat : ∀ j, free_at j s = free_at j (set_free l s) + own_at j (ROwn i P)).
  { intros j. unfold free_at. rewrite Hf, zsum_snoc. done. }
  apply (slots_inv_step s _ RNone); try done.
  - apply (si_cur _ _ Hi).
  - intros j _. left. rewrite (Hat j). change (cur_at j (set_free l s)) with (cur_at j s). cbn [own_at pin_at]. lia.
  - intros j sl Hl Hh. by apply (si_live _ _ Hi).
  - intros j Hj. apply (si_free _ _ Hi). rewrite Hf. set_solver.
  - intros j Q ?. simplify_eq. exists empty_slot. split_and!; [by apply (si_free _ _ Hi)|done|cbn; lia].
Qed.

Lemma give_move_inv s i P rs :
  slots_inv s (ROwn i P :: rs) → (∀ sl, P sl → sl = empty_slot) →
  slots_inv (returnFreeSlot i s) (RNone :: rs).
Proof.
  intros Hi HP. destruct (owned_slot _ _ _ _ Hi) as (sl & Hl & Hsl & _).
  apply (slots_inv_step s _ (ROwn i P)); try done.
  - apply (si_cur _ _ Hi).
  - intros j _. left. change (cur_at j (returnFreeSlot i s)) with (cur_at j s).
    unfold free_at. cbn [returnFreeSlot set_free free_list_]. rewrite zsum_snoc. cbn [own_at pin_at]. lia.
  - intros j sl' Hl' Hh. by apply (si_live _ _ Hi).
  - intros j [Hj| ->%list_elem_of_singleton]%elem_of_app; [by apply (si_free _ _ Hi)|].
    cbn. rewrite Hl. f_equal. by apply HP.
Qed.

Lemma exchange_move_inv s i rs :
  slots_inv s (RPin i :: rs) → slots_inv (set_cur i s) (RPin (cur_slot_index_ s) :: rs).
Proof.
  intros Hi. pose proof (si_pin _ _ Hi i ltac:(left)) as Hr.
  apply (slots_inv_step s _ (RPin i)); try done.
  - intros j _. left. change (free_at j (set_cur i s)) with (free_at j s). unfold cur_at. cbn. lia.
  - intros j sl Hl Hh. unfold holders in Hh. rewrite zsum_cons in Hh. cbn [pin_at] in Hh. unfold cur_at in Hh. cbn in Hh.
    destruct (si_live _ _ Hi j sl Hl) as [-> ?];
      unfold holders; rewrite ?zsum_cons; cbn [pin_at]; unfold cur_at; [lia|]. split; [cbn; lia|done].
  - apply (si_free _ _ Hi).
  - intros j ?. simplify_eq. apply (si_cur _ _ Hi).
Qed.

Lemma move_inv s r s' r' rs :
  slots_inv s (r :: rs) → move r s r' s' → slots_inv s' (r' :: rs).
Proof.
  intros Hi Hm. destruct Hm.
  - done.
  - destruct Hi. by split.
  - destruct (si_own _ _ Hi i P ltac:(left)) as (sl & Hl & HP & Hc). destruct Hi as [? Hp Hlv ? Ho Hpin ?]. split; try done.
    + intros j Q' [Hr|Hr]%elem_of_cons; [simplify_eq; eauto 6|]. apply Ho. by right.
    + intros j Hj. apply Hpin. apply elem_of_cons in Hj as [?|?]; [done|by right].
  - eapply pin_move_inv; eauto. eapply counted_held; eauto.
  - destruct (pinned_slot _ _ i Hi ltac:(left)) as (sl' & Hl' & Hc & _ & Hh). simplify_eq.
    eapply pin_move_inv; [done|done|lia|]. right. done.
  - eapply last_move_inv; eauto.
  - eapply own_move_inv; eauto 7.
  - by eapply free_move_inv.
  - by eapply give_move_inv.
  - eapply own_move_inv; [done|]. intros sl _ HP _. right. by destruct (H sl HP) as (? & ? & _).
  - by apply exchange_move_inv.
Qed.

Lemma move_length s r s' r' : move r s r' s' → length (slots_ s') = length (slots_ s).
Proof. destruct 1; rewrite ?length_set_slot; done. Qed.

(** A write into a live slot that leaves it live. *)
Lemma write_inv s r rs k sl f :
  slots_inv s (r :: rs) → slots_ s !! k = Some sl → 0 < reader_count_ sl →
  reader_count_ (f sl) = reader_count_ sl → live (f sl) → (∀ j P, r ≠ ROwn j P) →
  slots_inv (set_slot k f s) (r :: rs).
Proof.
  intros Hi Hl Hc Hcf Hlv Hr. pose proof (counted_held _ _ _ _ Hi Hl Hc) as Hh.
  destruct (si_live _ _ Hi k sl Hl Hh) as [Hcnt _].
  apply (set_slot_inv s _ _ rs k sl f Hi Hl); try done; [by right|by rewrite Zplus_minus| | |].
  - intros _. split; [lia|done].
  - intros j P ?. by destruct (Hr j P).
  - intros j ->. apply (si_pin _ _ Hi). left.
Qed.

(** ** What a move does to the contents of live slots *)

Definition same_content (sl sl' : slot G) : Prop :=
  storage_ sl' = storage_ sl ∧ view_ sl' = view_ sl ∧
  snapshot_generation_ sl' = snapshot_generation_ sl ∧ planning_generation_ sl' = planning_generation_ sl.

(** A slot that is live after a move was live with the same contents, unless
    the moving thread has just finished building it. *)
Lemma move_live s r s' r' rs j sl' :
  slots_inv s (r :: rs) → move r s r' s' → slots_ s' !! j = Some sl' → 0 < reader_count_ sl' →
  (∃ sl, slots_ s !! j = Some sl ∧ 0 < reader_count_ sl ∧ same_content sl sl') ∨
  (r' = RPin j ∧ storage_ sl' = view_ sl' ∧ ∃ P sl f, r = ROwn j P ∧ slots_ s !! j = Some sl ∧ P sl ∧
     sl' = f sl ∧ s' = set_slot j f s).
Proof.
  intros Hi Hm Hl' Hc.
  assert (Hst : slots_ s !! j = Some sl' → ∃ sl, slots_ s !! j = Some sl ∧ 0 < reader_count_ sl ∧ same_content sl sl').
  { intros H. by exists sl'. }
  destruct Hm; try (left; by apply Hst);
    rewrite lookup_set_slot in Hl'; destruct (decide (i = j)) as [->|]; try (left; by apply Hst).
  - rewrite H in Hl'. cbn in Hl'. simplify_eq. left. by exists sl.
  - destruct (pinned_slot _ _ j Hi ltac:(left)) as (sl0 & Hl0 & Hc0 & _). rewrite H in Hl', Hl0. cbn in Hl'. simplify_eq.
    left. exists sl0. split_and!; [done|lia|done].
  - rewrite H in Hl'. cbn in Hl'. simplify_eq. unfold add_count in Hc. cbn in Hc. by rewrite H0 in Hc.
  - destruct (owned_slot _ _ _ _ Hi) as (sl & Hl & HP & Hle & _). rewrite Hl in Hl'. cbn in Hl'. simplify_eq.
    destruct (H sl HP Hle). lia.
  - destruct (owned_slot _ _ _ _ Hi) as (sl & Hl & HP & Hle & _). rewrite Hl in Hl'. cbn in Hl'. simplify_eq.
    right. destruct (H sl HP) as (_ & _ & ?). split_and!; [done|done|]. by eexists _, sl, f.
Qed.

(** Live slots keep their contents as long as somebody else pins them. *)
Lemma move_keeps s r s' r' rs j sl :
  slots_inv s (r :: rs) → move r s r' s' → RPin j ∈ rs → slots_ s !! j = Some sl →
  ∃ sl', slots_ s' !! j = Some sl' ∧ same_content sl sl'.
Proof.
  intros Hi Hm Hj Hl.
  destruct (pinned_slot s' (r' :: rs) j) as (sl' & Hl' & Hc' & _); [by eapply move_inv|by right|].
  exists sl'. split; [done|].
  destruct (move_live s r s' r' rs j sl' Hi Hm Hl' ltac:(lia)) as [(sl0 & Hl0 & _ & ?)|(_ & _ & P & sl0 & f & -> & _)].
  - by simplify_eq.
  - exfalso. destruct (owned_slot _ _ _ _ Hi) as (_ & _ & _ & _ & Hh & _). unfold holders in Hh.
    pose proof (cur_at_range j s).
    pose proof (zsum_elem_le (pin_at j) rs (RPin j) (λ r _, proj1 (pin_at_range j r)) Hj) as Hz. shares. lia.
Qed.
End invariant.
