(* ===== verification/SnapshotProperties.v ===== *)
(** * Guarantees of the snapshot store

    Every step of every thread is one of the moves of SnapshotInvariant or an
    in-place write of an exclusive thread; hence what holds in all reachable
    states: pinned snapshots stay as they are, generations identify
    snapshots, no check fails, and no slot is lost. *)

From S2P Require Import Prelude GateWord OperationGate SnapshotStore SnapshotThreads SnapshotInvariant.
Import GraphSnapshotStore.

Section roles.
Context {G : Type} (Clone : G → G).
Implicit Types (s : store G) (sl : slot G) (x y : store_thread G) (rs : list (role G)).

(** ** What each program point has *)

Definition cleanup_slot (c : cleanup_pc) sl : Prop :=
  match c with
  | CL_storage => reader_count_ sl = kCleanupSentinel
  | CL_view => reader_count_ sl = kCleanupSentinel ∧ storage_ sl = None
  | CL_generation => reader_count_ sl = kCleanupSentinel ∧ storage_ sl = None ∧ view_ sl = None
  | CL_planning =>
      reader_count_ sl = kCleanupSentinel ∧ storage_ sl = None ∧ view_ sl = None ∧ snapshot_generation_ sl = 0
  | CL_count => sl = set_count kCleanupSentinel empty_slot
  | CL_return => sl = empty_slot
  end.

Definition unpin_slot (c : unpin_pc) sl : Prop :=
  match c with
  | UN_sub => False
  | UN_cur | UN_storage | UN_cas => reader_count_ sl = 0 ∧ is_Some (storage_ sl)
  | UN_cleanup c => cleanup_slot c sl
  end.

Definition unpin_role (i : nat) (c : unpin_pc) : role G :=
  match c with UN_sub => RPin i | _ => ROwn i (unpin_slot c) end.

Definition pin_role (c : pin_pc) : role G :=
  match c with PIN_verify i => RPin i | PIN_unpin i c => unpin_role i c | _ => RNone end.

Definition clone_role (c : clone_pc (G := G)) : role G :=
  match c with
  | CC_pin c => pin_role c | CC_read i => RPin i | CC_unpin i _ _ c => unpin_role i c
  end.

Definition undo_slot (c : undo_pc) sl : Prop :=
  match c with
  | PF_storage => True
  | PF_view => storage_ sl = None
  | PF_generation => storage_ sl = None ∧ view_ sl = None
  | PF_planning => storage_ sl = None ∧ view_ sl = None ∧ snapshot_generation_ sl = 0
  | PF_count =>
      storage_ sl = None ∧ view_ sl = None ∧ snapshot_generation_ sl = 0 ∧ planning_generation_ sl = 0
  | PF_return => sl = empty_slot
  end.

Definition prepare_role (pg : option G) (p : Z) (c : prepare_pc) : role G :=
  match c with
  | PR_slot => RNone
  | PR_reserve i _ | PR_guard i _ => ROwn i (λ sl, sl = empty_slot)
  | PR_storage i _ => ROwn i (λ sl, sl = set_count kCleanupSentinel empty_slot)
  | PR_view i _ => ROwn i (λ sl, sl = MkSlot pg None 0 0 kCleanupSentinel)
  | PR_generation i _ => ROwn i (λ sl, sl = MkSlot pg pg 0 0 kCleanupSentinel)
  | PR_planning i g => ROwn i (λ sl, sl = MkSlot pg pg g 0 kCleanupSentinel)
  | PR_pin i g => ROwn i (λ sl, sl = MkSlot pg pg g p kCleanupSentinel)
  | PR_undo i _ c => ROwn i (undo_slot c)
  end.

Definition publish_role (i : nat) (c : publish_pc) : role G :=
  match c with PU_unpin old _ c => unpin_role old c | _ => RPin i end.

Definition role_of x : role G :=
  match x with
  | Pinning c | XPinning c => pin_role c
  | Pinned i | Prepared i | XPinned i | Replacing i _ _ _ => RPin i
  | Unpinning i c | XUnpinning i c => unpin_role i c
  | Cloning c => clone_role c
  | Preparing pg p c => prepare_role pg p c
  | Publishing i c => publish_role i c
  | _ => RNone
  end.

(** Slot numbers a thread has read are those of slots; a graph is prepared
    only if there is one. *)
Definition pin_ok (n : nat) (c : pin_pc) : Prop :=
  match c with
  | PIN_count i => (i < n)%nat
  | PIN_cas i observed => (i < n)%nat ∧ 0 < observed
  | _ => True
  end.

Definition prepare_ok (pg : option G) (c : prepare_pc) : Prop :=
  match c with
  | PR_slot => True
  | PR_undo _ e _ => e = RuntimeFailure
  | _ => is_Some pg
  end.

(** What an exclusive thread knows of the current slot. *)
Definition exclusive_ok s x : Prop :=
  match x with
  | XPinned i | Maintained i => cur_slot_index_ s = i
  | Replacing i pg _ c =>
      cur_slot_index_ s = i ∧
      (c = RP_view → ∀ sl, slots_ s !! i = Some sl → storage_ sl = Some pg)
  | Maintaining (MT_count i | MT_recheck i | MT_scan i _ | MT_storage i) => cur_slot_index_ s = i
  | Failed e =>
      e = RuntimeFailure ∨
      e = CheckFailed ∧ ∃ sl, slots_ s !! cur_slot_index_ s = Some sl ∧ planning_generation_ sl = 2^64 - 1
  | _ => True
  end.

Definition thread_ok s x : Prop :=
  exclusive_ok s x ∧
  match x with
  | Pinning c | XPinning c | Cloning (CC_pin c) => pin_ok (length (slots_ s)) c
  | Preparing pg _ c => prepare_ok pg c
  | _ => True
  end.

(** ** The methods make moves *)

Lemma unpin_move i c s rs s' k :
  slots_inv s (unpin_role i c :: rs) → unpinSnapshotByIndex i c s = (s', k) →
  match k with
  | Goto c' => move (unpin_role i c) s (unpin_role i c') s'
  | Return b => b = true ∧ move (unpin_role i c) s RNone s'
  | Raise _ => False
  end.
Proof.
  intros Hi Hs. destruct c; cbn [unpinSnapshotByIndex unpin_role] in Hs, Hi.
  - destruct (pinned_slot _ _ i Hi ltac:(left)) as (sl & Hl & Hc & Hlv & _). rewrite Hl in Hs.
    rewrite (proj2 (Z.leb_gt _ _)) in Hs by lia. case_bool; bool_to_prop; simplify_eq.
    + eapply mv_last; eauto. intros sl' Hc' [Hst _]. done.
    + split; [done|]. by eapply mv_unpin.
  - destruct (owned_slot _ _ _ _ Hi) as (sl & Hl & [Hc Hst] & _ & Hh & _).
    assert (i ≠ cur_slot_index_ s).
    { intros ->. unfold holders, cur_at in Hh. pose proof (pins_nonneg (cur_slot_index_ s) rs).
      rewrite decide_True in Hh by done. lia. }
    rewrite (proj2 (Nat.eqb_neq _ _)) in Hs by done. simplify_eq. apply mv_weaken. done.
  - destruct (owned_slot _ _ _ _ Hi) as (sl & Hl & [Hc [g Hst]] & _). rewrite Hl in Hs.
    unfold has_storage in Hs. rewrite Hst in Hs. simplify_eq. apply mv_weaken. done.
  - destruct (owned_slot _ _ _ _ Hi) as (sl & Hl & [Hc Hst] & _). rewrite Hl, Hc in Hs. cbn in Hs. simplify_eq.
    apply mv_own. intros sl' _ _. done.
  - destruct (owned_slot _ _ _ _ Hi) as (sl & Hl & HP & _). destruct c; cbn [cleanupSlot] in Hs.
    + pose proof (lookup_lt_Some _ _ _ Hl). rewrite (proj2 (Nat.leb_gt _ _)) in Hs by done. cbn in Hs. simplify_eq.
      apply mv_own. intros sl' ? ?. done.
    + cbn in Hs. simplify_eq. apply mv_own. intros sl' [? ?] ?. done.
    + cbn in Hs. simplify_eq. apply mv_own. intros sl' (? & ? & ?) ?. done.
    + cbn in Hs. simplify_eq. apply mv_own. intros [] (? & ? & ? & ?) ?. cbn in *. by simplify_eq.
    + cbn in Hs. simplify_eq. apply mv_own. intros sl' -> ?. done.
    + cbn in Hs. simplify_eq. split; [done|]. apply mv_give. done.
Qed.

Lemma pin_move o c s rs s' k :
  slots_inv s (pin_role c :: rs) → pin_ok (length (slots_ s)) c → PinCurrentSnapshot o c s = (s', k) →
  match k with
  | Goto c' => move (pin_role c) s (pin_role c') s' ∧ pin_ok (length (slots_ s)) c'
  | Return i => move (pin_role c) s (RPin i) s' ∧ cur_slot_index_ s' = i
  | Raise _ => False
  end.
Proof.
  intros Hi Hok Hs. destruct c as [|i|i observed|i|i c]; cbn [PinCurrentSnapshot pin_role] in Hs, Hi.
  - simplify_eq. split; [constructor|]. apply (si_cur _ _ Hi).
  - cbn in Hok. destruct (lookup_lt_is_Some_2 _ _ Hok) as [sl Hl]. rewrite Hl in Hs.
    case_bool; bool_to_prop; simplify_eq; (split; [constructor|done]).
  - destruct Hok as [Hlt Hob]. destruct (lookup_lt_is_Some_2 _ _ Hlt) as [sl Hl]. rewrite Hl in Hs.
    repeat case_bool; bool_to_prop; simplify_eq; (split; [|done]); try apply mv_refl. by apply mv_pin.
  - case_bool; bool_to_prop; simplify_eq; (split; [apply mv_refl|done]).
  - destruct (unpinSnapshotByIndex i c s) as [s1 k1] eqn:E. pose proof (unpin_move i c s rs s1 k1 Hi E) as Hm.
    destruct k1; cbn in Hs; simplify_eq; [done| |done]. by destruct Hm.
Qed.

Lemma clone_move o c s rs s' k :
  slots_inv s (clone_role c :: rs) → thread_ok s (Cloning c) → CloneCurrentForUpdate Clone o c s = (s', k) →
  match k with
  | Goto c' => move (clone_role c) s (clone_role c') s' ∧ thread_ok s' (Cloning c')
  | Return _ => move (clone_role c) s RNone s'
  | Raise _ => False
  end.
Proof.
  intros Hi [_ Hok] Hs. destruct c as [c|i|i g p c]; cbn [CloneCurrentForUpdate clone_role] in Hs, Hi.
  - destruct (PinCurrentSnapshot o c s) as [s1 k1] eqn:E. pose proof (pin_move o c s rs s1 k1 Hi Hok E) as Hm.
    destruct k1; cbn in Hs; simplify_eq; [| |done]; destruct Hm as [Hm Hc]; split; try done.
    split; [done|]. by rewrite (move_length _ _ _ _ Hm).
  - destruct (pinned_slot _ _ i Hi ltac:(left)) as (sl & Hl & Hc & [[g Hg] _] & _). rewrite Hl, Hg in Hs. simplify_eq.
    split; [apply mv_refl|done].
  - destruct (unpinSnapshotByIndex i c s) as [s1 k1] eqn:E. pose proof (unpin_move i c s rs s1 k1 Hi E) as Hm.
    destruct k1; cbn in Hs; simplify_eq; [done| |done]. by destruct Hm.
Qed.

Lemma last_split {A} (l : list A) (a : A) : last l = Some a → l = removelast l ++ [a].
Proof.
  intros Hl. destruct l as [|l y _] using rev_ind; [done|]. rewrite last_snoc in Hl. simplify_eq.
  by rewrite List.removelast_last.
Qed.

Lemma prepare_move pg p o c s rs s' k :
  slots_inv s (prepare_role pg p c :: rs) → prepare_ok pg c → PrepareSnapshot pg p o c s = (s', k) →
  match k with
  | Goto c' => move (prepare_role pg p c) s (prepare_role pg p c') s' ∧ prepare_ok pg c'
  | Return r => move (prepare_role pg p c) s (match r with Some i => RPin i | None => RNone end) s'
  | Raise e => move (prepare_role pg p c) s RNone s' ∧ e = RuntimeFailure
  end.
Proof.
  intros Hi Hok Hs. destruct c; cbn [PrepareSnapshot prepare_role] in Hs, Hi.
  - destruct pg as [pg|]; [|simplify_eq; apply mv_refl]. unfold getFreeSlot in Hs.
    destruct (last (free_list_ s)) as [i|] eqn:E; simplify_eq; [|apply mv_refl].
    split; [|by eexists]. apply mv_take; [by apply last_split|done].
  - destruct c as [|current]; cbn in Hs; [simplify_eq; split; [apply mv_refl|done]|].
    repeat case_bool; simplify_eq; (split; [|done]); first [apply mv_reserve|apply mv_weaken; done|apply mv_refl].
  - simplify_eq. split; [|done]. apply mv_own. by intros sl -> _.
  - simplify_eq. split; [|done]. apply mv_own. by intros sl -> _.
  - case_bool; simplify_eq; (split; [|done]); [by apply mv_weaken|]. apply mv_own. by intros sl -> _.
  - simplify_eq. split; [|done]. apply mv_own. by intros sl -> _.
  - simplify_eq. split; [|done]. apply mv_own. by intros sl -> _.
  - simplify_eq. apply mv_ready. intros sl ->. done.
  - cbn in Hok. subst e. destruct c; cbn in Hs; simplify_eq; (split; [|done]); try (apply mv_own); try (by apply mv_give).
    + intros sl _ ?. done.
    + intros sl ? ?. done.
    + intros sl [? ?] ?. done.
    + intros sl (? & ? & ?) ?. done.
    + intros [] (? & ? & ? & ?) ?. cbn in *. by simplify_eq.
Qed.

Lemma publish_move i c s rs s' k :
  slots_inv s (publish_role i c :: rs) → Publish i c s = (s', k) →
  match k with
  | Goto c' => move (publish_role i c) s (publish_role i c') s'
  | Return _ => move (publish_role i c) s RNone s'
  | Raise _ => False
  end.
Proof.
  intros Hi Hs. destruct c as [|g|g|old g c]; cbn [Publish publish_role] in Hs, Hi.
  1,2: destruct (pinned_slot _ _ i Hi ltac:(left)) as (sl & Hl & Hc & _); rewrite Hl in Hs.
  - simplify_eq. apply mv_refl.
  - rewrite (proj2 (Z.leb_le _ _)) in Hs by done. simplify_eq. apply mv_refl.
  - simplify_eq. apply mv_exchange.
  - destruct (unpinSnapshotByIndex old c s) as [s1 k1] eqn:E. pose proof (unpin_move old c s rs s1 k1 Hi E) as Hm.
    destruct k1; cbn in Hs; simplify_eq; [done| |done]. by destruct Hm.
Qed.

(** ** Exclusive operations *)

(** A write into the current slot that keeps it live. *)
Definition in_place s s' : Prop :=
  ∃ sl f, slots_ s !! cur_slot_index_ s = Some sl ∧ s' = set_slot (cur_slot_index_ s) f s ∧
    0 < reader_count_ sl ∧ reader_count_ (f sl) = reader_count_ sl ∧ live (f sl) ∧
    snapshot_generation_ (f sl) = snapshot_generation_ sl.

Lemma alone_pins rs i : (∀ r, r ∈ rs → r = RNone) → zsum (pin_at (G := G) i) rs = 0.
Proof. intros H. apply zsum_zero. intros r Hr. by rewrite (H r Hr). Qed.
Lemma alone_owns rs i : (∀ r, r ∈ rs → r = RNone) → zsum (own_at (G := G) i) rs = 0.
Proof. intros H. apply zsum_zero. intros r Hr. by rewrite (H r Hr). Qed.

Lemma replace_step i pg p c s rs s' k :
  slots_inv s (RPin i :: rs) → (∀ r, r ∈ rs → r = RNone) → exclusive_ok s (Replacing i pg p c) →
  replaceCurrentSnapshotInPlace i pg p c s = (s', k) →
  match k with
  | Goto c' => exclusive_ok s' (Replacing i pg p c')
  | Return _ => cur_slot_index_ s' = i
  | Raise _ => False
  end ∧ (s' = s ∨ in_place s s').
Proof.
  intros Hi Ha [Hc Hst] Hs. destruct (pinned_slot _ _ i Hi ltac:(left)) as (sl & Hl & Hp & Hlv & Hh).
  assert (Hw : ∀ f, reader_count_ (f sl) = reader_count_ sl → live (f sl) →
    snapshot_generation_ (f sl) = snapshot_generation_ sl → in_place s (set_slot i f s)).
  { intros f ? ? ?. exists sl, f. rewrite Hc. split_and!; try done. lia. }
  destruct Hlv as [H1 H2].
  destruct c; cbn [replaceCurrentSnapshotInPlace] in Hs.
  - rewrite Hc, Nat.eqb_refl in Hs. simplify_eq. by split; [|left].
  - assert (Hcnt : reader_count_ sl = 2).
    { rewrite Hh. unfold holders. rewrite zsum_cons, alone_pins by done. unfold cur_at, pin_at.
      rewrite !decide_True by done. done. }
    rewrite Hl, Hcnt in Hs. cbn in Hs. simplify_eq. by split; [|left].
  - simplify_eq. split; [|right; by apply Hw].
    split; [done|]. intros _ sl'. rewrite lookup_set_slot, decide_True, Hl by done. cbn. intros ?. by simplify_eq.
  - simplify_eq. split; [done|right; by apply Hw].
  - simplify_eq. split; [done|right; by apply Hw].
Qed.

Lemma maintenance_step c s rs s' k :
  slots_inv s (RNone :: rs) → (∀ r, r ∈ rs → r = RNone) → exclusive_ok s (Maintaining c) →
  WithCheckpointMaintenance c s = (s', k) →
  s' = s ∧
  match k with
  | Goto c' => exclusive_ok s (Maintaining c')
  | Return i => cur_slot_index_ s = i
  | Raise _ => False
  end.
Proof.
  intros Hi Ha Hok Hs. unfold WithCheckpointMaintenance in Hs. injection Hs as <- <-. split; [done|].
  destruct (current_slot _ _ Hi) as (sl & Hl & Hp & [[g Hg] Hlv]). destruct c as [|i|i|i j|i]; cbn in Hok; [done|subst i..].
  - assert (Hcnt : reader_count_ sl = 1).
    { assert (Hpos : 0 < reader_count_ sl) by lia.
      destruct (si_live _ _ Hi _ sl Hl (counted_held _ _ _ _ Hi Hl Hpos)) as [-> _].
      unfold holders. rewrite zsum_cons, alone_pins by done. unfold cur_at, pin_at. by rewrite decide_True. }
    by rewrite Hl, Hcnt.
  - by rewrite Nat.eqb_refl.
  - destruct (slots_ s !! j) as [slj|] eqn:Hj; [|done]. destruct (Nat.eqb_spec j (cur_slot_index_ s)) as [->|Hne]; [done|].
    assert (He : slj = empty_slot).
    { pose proof (si_part _ _ Hi j ltac:(eauto using lookup_lt_Some)) as Hpt.
      unfold holders in Hpt. rewrite !zsum_cons, alone_pins, alone_owns in Hpt by done.
      unfold cur_at, pin_at, own_at in Hpt. rewrite decide_False in Hpt by done. change (0 <? 0 + 0 + 0) with false in Hpt.
      assert (Hf : slots_ s !! j = Some empty_slot) by (apply (si_free _ _ Hi), free_at_elem; lia).
      rewrite Hj in Hf. by simplify_eq. }
    by rewrite He.
  - rewrite Hl. unfold has_storage. by rewrite Hg.
Qed.

Lemma refresh_step i b s rs s' r :
  slots_inv s (RNone :: rs) → cur_slot_index_ s = i → RefreshCurrentView i b s = (s', r) →
  in_place s s' ∧ cur_slot_index_ s' = i ∧
  match r with
  | Ok _ => True
  | Throw e => e = CheckFailed ∧ ∃ sl, slots_ s' !! i = Some sl ∧ planning_generation_ sl = 2^64 - 1
  end.
Proof.
  intros Hi Hc Hs. destruct (current_slot _ _ Hi) as (sl & Hl & Hp & [H1 H2]). rewrite Hc in Hl.
  unfold RefreshCurrentView in Hs. rewrite Hl in Hs.
  assert (Hw : ∀ f, reader_count_ (f sl) = reader_count_ sl → live (f sl) →
    snapshot_generation_ (f sl) = snapshot_generation_ sl → in_place s (set_slot i f s)).
  { intros f ? ? ?. exists sl, f. rewrite Hc. split_and!; try done. lia. }
  assert (Hlk : ∀ f, slots_ (set_slot i f s) !! i = Some (f sl))
    by (intros f; rewrite lookup_set_slot, decide_True, Hl by done; done).
  destruct b; [case_bool|]; bool_to_prop; injection Hs as <- <-; (split; [|split; [done|]]); try done.
  - by apply Hw.
  - split; [done|]. rewrite Hlk. by eexists.
  - rewrite set_slot_twice. by apply Hw.
  - by apply Hw.
Qed.

(** ** One step of a thread *)

Definition writes x : bool :=
  match x with Replacing _ _ _ _ | Maintained _ => true | _ => false end.

Definition step_effect x s x' s' : Prop :=
  move (role_of x) s (role_of x') s' ∨
  (writes x = true ∧ exclusive x' = true ∧ role_of x' = role_of x ∧
   (∀ j P, role_of x ≠ ROwn j P) ∧ in_place s s').

Lemma unpin_thread_step i c s rs s' k (inj : unpin_pc → store_thread G) x' s'' :
  slots_inv s (unpin_role i c :: rs) → unpinSnapshotByIndex i c s = (s', k) →
  resume inj unpinned (s', k) = (x', s'') →
  s'' = s' ∧ ((x' = Idle ∧ move (unpin_role i c) s RNone s') ∨
              ∃ c', x' = inj c' ∧ move (unpin_role i c) s (unpin_role i c') s').
Proof.
  intros Hi E Hs. pose proof (unpin_move i c s rs s' k Hi E) as Hm. destruct k; cbn in Hs; simplify_eq.
  - split; [done|]. right. by eexists.
  - destruct Hm as [-> Hm]. split; [done|]. by left.
  - done.
Qed.

Lemma store_step_ok cmd o x s rs x' s' :
  slots_inv s (role_of x :: rs) → thread_ok s x →
  (exclusive x = true → ∀ r, r ∈ rs → r = RNone) →
  store_step Clone cmd o x s = (x', s') →
  step_effect x s x' s' ∧
  (exclusive x = false → quiet x = false → exclusive x' = false) ∧ thread_ok s' x'.
Proof.
  intros Hi Hok Ha Hs. unfold step_effect. destruct x; cbn [role_of store_step] in *.
  - (* Idle *) destruct cmd; simplify_eq; (split; [left; apply mv_refl|done]).
  - destruct e, cmd; simplify_eq; (split; [left; apply mv_refl|done]).
  - destruct (PinCurrentSnapshot o c s) as [s1 k] eqn:E. pose proof (pin_move o c s rs s1 k Hi (proj2 Hok) E) as Hm.
    destruct k; cbn in Hs; simplify_eq; [| |done]; destruct Hm as [Hm Hc]; (split; [by left|]); try done.
    split; [done|split; [done|]]. by rewrite (move_length _ _ _ _ Hm).
  - destruct cmd; simplify_eq; (split; [left; apply mv_refl|done]).
  - destruct (unpinSnapshotByIndex i c s) as [s1 k] eqn:E.
    destruct (unpin_thread_step i c s rs s1 k _ _ _ Hi E Hs) as [-> [[-> Hm]|(c' & -> & Hm)]]; (split; [by left|done]).
  - destruct (CloneCurrentForUpdate Clone o c s) as [s1 k] eqn:E. pose proof (clone_move o c s rs s1 k Hi Hok E) as Hm.
    destruct k; cbn in Hs; simplify_eq; [destruct Hm| |done]; (split; [by left|done]).
  - destruct cmd; simplify_eq; (split; [left; apply mv_refl|done]).
  - destruct (PrepareSnapshot pg planning o c s) as [s1 k] eqn:E.
    pose proof (prepare_move pg planning o c s rs s1 k Hi (proj2 Hok) E) as Hm.
    destruct k as [c'|[i|]|e]; cbn in Hs; simplify_eq; [destruct Hm| | |destruct Hm; subst e]; (split; [by left|]); try done.
    split; [done|]. by split; [left|].
  - destruct cmd; simplify_eq; (split; [left; apply mv_refl|done]).
  - destruct (Publish i c s) as [s1 k] eqn:E. pose proof (publish_move i c s rs s1 k Hi E) as Hm.
    destruct k; cbn in Hs; simplify_eq; [| |done]; (split; [by left|done]).
  - destruct cmd; simplify_eq; (split; [left; apply mv_refl|done]).
  - destruct (PinCurrentSnapshot o c s) as [s1 k] eqn:E. pose proof (pin_move o c s rs s1 k Hi (proj2 Hok) E) as Hm.
    destruct k; cbn in Hs; simplify_eq; [| |done]; destruct Hm as [Hm Hc]; (split; [by left|]); try done.
    split; [done|split; [done|]]. by rewrite (move_length _ _ _ _ Hm).
  - destruct cmd; simplify_eq; (split; [left; apply mv_refl|]); try done. split; [done|]. split; [|done]. split; [apply Hok|done].
  - destruct (replaceCurrentSnapshotInPlace i pg planning c s) as [s1 k] eqn:E.
    destruct (replace_step i pg planning c s rs s1 k Hi (Ha eq_refl) (proj1 Hok) E) as [Hk Hw].
    destruct k; cbn in Hs; simplify_eq; [| |done]; (split; [|done]);
      (destruct Hw as [->|Hw]; [left; apply mv_refl|right; split_and!; done]).
  - destruct (unpinSnapshotByIndex i c s) as [s1 k] eqn:E.
    destruct (unpin_thread_step i c s rs s1 k _ _ _ Hi E Hs) as [-> [[-> Hm]|(c' & -> & Hm)]]; (split; [by left|done]).
  - destruct (WithCheckpointMaintenance c s) as [s1 k] eqn:E.
    destruct (maintenance_step c s rs s1 k Hi (Ha eq_refl) (proj1 Hok) E) as [-> Hk].
    destruct k; cbn in Hs; simplify_eq; [| |done]; (split; [left; apply mv_refl|done]).
  - destruct cmd; simplify_eq; try (split; [left; apply mv_refl|done]).
    destruct (RefreshCurrentView i planning_changed s) as [s1 r] eqn:E.
    destruct (refresh_step i planning_changed s rs s1 r Hi (proj1 Hok) E) as (Hw & Hc & Hr).
    destruct r as [g|e]; simplify_eq.
    + split; [right; split_and!; done|done].
    + destruct Hr as [-> Hr]. split; [right; split_and!; done|]. split; [done|]. split; [right|]; done.
Qed.

(** ** Generations *)

(** The generation a thread has reserved for the slot it builds. *)
Definition reserved x : option Z :=
  match x with
  | Preparing _ _ (PR_guard _ g | PR_storage _ g | PR_view _ g | PR_generation _ g
                  | PR_planning _ g | PR_pin _ g) => Some g
  | _ => None
  end.

Record generations s (xs : list (store_thread G)) : Prop := {
  ge_last : is_u32 (last_reserved_snapshot_generation_ s);
  ge_live i sl : slots_ s !! i = Some sl → 0 < reader_count_ sl →
    snapshot_generation_ sl ≤ last_reserved_snapshot_generation_ s;
  ge_uniq i j sl sl' : slots_ s !! i = Some sl → slots_ s !! j = Some sl' →
    0 < reader_count_ sl → 0 < reader_count_ sl' → snapshot_generation_ sl = snapshot_generation_ sl' → i = j;
  ge_tok x g : x ∈ xs → reserved x = Some g → g ≤ last_reserved_snapshot_generation_ s;
  ge_fresh x g i sl : x ∈ xs → reserved x = Some g → slots_ s !! i = Some sl → 0 < reader_count_ sl →
    snapshot_generation_ sl ≠ g;
  ge_distinct t u x y g : xs !! t = Some x → xs !! u = Some y →
    reserved x = Some g → reserved y = Some g → t = u }.

(** Only a reservation changes the last reserved generation. *)
Lemma unpin_last i c s s' k :
  unpinSnapshotByIndex i c s = (s', k) →
  last_reserved_snapshot_generation_ s' = last_reserved_snapshot_generation_ s.
Proof.
  intros Hs. destruct c as [| | | |c]; [..|destruct c]; cbn in Hs; repeat case_match; simplify_eq/=; done.
Qed.

Lemma pin_last o c s s' k :
  PinCurrentSnapshot o c s = (s', k) →
  last_reserved_snapshot_generation_ s' = last_reserved_snapshot_generation_ s.
Proof.
  intros Hs. destruct c as [|i|i ob|i|i c]; cbn in Hs.
  5: destruct (unpinSnapshotByIndex i c s) as [s1 k1] eqn:E; apply unpin_last in E; destruct k1; cbn in Hs; injection Hs as <- <-; done.
  all: repeat case_match; simplify_eq; done.
Qed.

Lemma resume_eq {pc R} (inj : pc → store_thread G) (ret : R → store_thread G) (r : store G * ctl pc R) x' s' :
  resume inj ret r = (x', s') →
  s' = r.1 ∧ ((∃ c, r.2 = Goto c ∧ x' = inj c) ∨ (∃ v, r.2 = Return v ∧ x' = ret v) ∨ (∃ e, r.2 = Raise e ∧ x' = Failed e)).
Proof. destruct r as [s1 []]; cbn; intros; simplify_eq; eauto 7. Qed.

Ltac resumed Hx :=
  let H := fresh in destruct Hx as [(? & H & ->)|[(? & H & ->)|(? & H & ->)]]; simplify_eq/=.

(** What a step does to the reserved generations. *)
Lemma reserved_step cmd o x s x' s' :
  is_u32 (last_reserved_snapshot_generation_ s) → store_step Clone cmd o x s = (x', s') →
  (last_reserved_snapshot_generation_ s' = last_reserved_snapshot_generation_ s ∧
   (reserved x' = reserved x ∨ reserved x' = None)) ∨
  (last_reserved_snapshot_generation_ s' = last_reserved_snapshot_generation_ s + 1 ∧
   last_reserved_snapshot_generation_ s + 1 < 2^32 ∧ slots_ s' = slots_ s ∧
   reserved x' = Some (last_reserved_snapshot_generation_ s + 1)).
Proof.
  intros Hu Hs. destruct x; cbn [store_step] in Hs;
    try (destruct cmd; simplify_eq; left; by auto).
  - destruct e, cmd; simplify_eq; left; by auto.
  - left. apply resume_eq in Hs as [-> Hx]. destruct (PinCurrentSnapshot _ _ _) eqn:E.
    split; [by eapply pin_last|]. right. resumed Hx; done.
  - left. apply resume_eq in Hs as [-> Hx]. destruct (unpinSnapshotByIndex _ _ _) eqn:E.
    split; [by eapply unpin_last|]. right. unfold unpinned in Hx. resumed Hx; try case_match; done.
  - left. apply resume_eq in Hs as [-> Hx]. split; [|right; resumed Hx; done].
    destruct c as [c|i|i g p c]; cbn; [destruct (PinCurrentSnapshot _ _ _) as [? []] eqn:E; cbn; by eapply pin_last| |].
    + repeat case_match; done.
    + destruct (unpinSnapshotByIndex _ _ _) as [? []] eqn:E; cbn; by eapply unpin_last.
  - apply resume_eq in Hs as [-> Hx]. destruct c as [|i c|i g|i g|i g|i g|i g|i g|i e c]; cbn [PrepareSnapshot] in *.
    2: { destruct c as [|current]; cbn in *; [left; split; [done|right; resumed Hx; done]|].
         repeat case_bool; bool_to_prop; cbn in *; try (left; split; [done|right; resumed Hx; done]).
         right. subst current. unfold U32_MAX, is_u32 in *. rewrite u32_id in * by (unfold is_u32; lia).
         split_and!; [done|lia|done|resumed Hx; simplify_eq/=; try done]. }
    all: left; unfold getFreeSlot in *; try (destruct c); repeat case_match; cbn in *; simplify_eq;
      (split; [done|]); resumed Hx; simplify_eq/=; auto.
  - left. apply resume_eq in Hs as [-> Hx]. split; [|right; resumed Hx; done].
    destruct c as [| | |old g c]; cbn; repeat case_match; try done;
    destruct (unpinSnapshotByIndex _ _ _) as [? []] eqn:E; cbn; by eapply unpin_last.
  - left. apply resume_eq in Hs as [-> Hx]. destruct (PinCurrentSnapshot _ _ _) eqn:E.
    split; [by eapply pin_last|]. right. resumed Hx; done.
  - left. apply resume_eq in Hs as [-> Hx]. split; [|right; resumed Hx; done]. by destruct c.
  - left. apply resume_eq in Hs as [-> Hx]. destruct (unpinSnapshotByIndex _ _ _) eqn:E.
    split; [by eapply unpin_last|]. right. unfold unpinned in Hx. resumed Hx; try case_match; done.
  - left. apply resume_eq in Hs as [-> Hx]. split; [done|right; resumed Hx; done].
  - left. destruct cmd; simplify_eq; auto. unfold RefreshCurrentView in Hs. repeat case_match; simplify_eq; auto.
Qed.

(** Only the end of a preparation turns an owned slot into a pinned one. *)
Lemma unpin_stays_owned i c s s' c' j P k :
  unpin_role i c = ROwn j P → unpinSnapshotByIndex i c s = (s', Goto c') → unpin_role i c' ≠ RPin k.
Proof.
  intros Hr Hs. destruct c as [| | | |c]; [done|..|destruct c]; cbn in Hs; repeat case_match; by simplify_eq/=.
Qed.

Lemma pin_stays_owned o c s s' r j P k :
  pin_role c = ROwn j P → PinCurrentSnapshot o c s = (s', r) →
  ∃ c', r = Goto c' ∧ pin_role c' ≠ RPin k ∨ ∃ e, r = Raise e.
Proof.
  intros Hr Hs. destruct c as [|i|i ob|i|i c]; try done. cbn in Hs, Hr.
  destruct (unpinSnapshotByIndex i c s) as [s1 [c'|b|e]] eqn:E; simplify_eq/=.
  - exists (PIN_unpin i c'). left. split; [done|]. by eapply unpin_stays_owned.
  - exists PIN_cur. by left.
  - exists PIN_cur. right. by eexists.
Qed.

Lemma ready_step cmd o x s x' s' j k P :
  store_step Clone cmd o x s = (x', s') → role_of x = ROwn j P → role_of x' = RPin k →
  ∃ pg p g, x = Preparing pg p (PR_pin j g) ∧ s' = set_slot j (add_count (- kCleanupSentinel + 1)) s ∧ x' = Prepared j.
Proof.
  intros Hs Hr Hk. destruct x; try done; cbn [store_step role_of] in Hs, Hr; apply resume_eq in Hs as [-> Hx].
  - exfalso. destruct (PinCurrentSnapshot o c s) as [s1 r] eqn:E.
    destruct (pin_stays_owned _ _ _ _ _ _ _ k Hr E) as [c' [[-> ?]|[e ->]]]; resumed Hx; done.
  - exfalso. destruct (unpinSnapshotByIndex i c s) as [s1 r] eqn:E. resumed Hx; try (unfold unpinned in Hk; case_match; done).
    by eapply unpin_stays_owned.
  - exfalso. destruct c as [c|i|i g p c]; cbn in Hr, Hx; [|done|].
    + destruct (PinCurrentSnapshot o c s) as [s1 r] eqn:E.
      destruct (pin_stays_owned _ _ _ _ _ _ _ k Hr E) as [c' [[-> ?]|[e ->]]]; cbn in Hx; resumed Hx; done.
    + destruct (unpinSnapshotByIndex i c s) as [s1 [c'|b|e]] eqn:E; cbn in Hx; resumed Hx; try done.
      by eapply unpin_stays_owned.
  - destruct c as [|i c|i g|i g|i g|i g|i g|i g|i e c]; cbn [PrepareSnapshot prepare_role] in *; try done.
    + exfalso. destruct c; cbn in Hx; repeat case_match; cbn in Hx; resumed Hx; done.
    + exfalso. resumed Hx; done.
    + exfalso. resumed Hx; done.
    + exfalso. case_match; resumed Hx; done.
    + exfalso. resumed Hx; done.
    + exfalso. resumed Hx; done.
    + resumed Hx; try done. by exists pg, planning, g.
    + exfalso. destruct c; cbn in Hx; resumed Hx; done.
  - exfalso. destruct c as [| | |old g c]; cbn in Hr, Hx; try done.
    destruct (unpinSnapshotByIndex old c s) as [s1 [c'|b|e]] eqn:E; cbn in Hx; resumed Hx; try done.
    by eapply unpin_stays_owned.
  - exfalso. destruct (PinCurrentSnapshot o c s) as [s1 r] eqn:E.
    destruct (pin_stays_owned _ _ _ _ _ _ _ k Hr E) as [c' [[-> ?]|[e ->]]]; resumed Hx; done.
  - exfalso. destruct (unpinSnapshotByIndex i c s) as [s1 r] eqn:E. resumed Hx; try (unfold unpinned in Hk; case_match; done).
    by eapply unpin_stays_owned.
Qed.

(** A slot live after a step was live with the same generation, or is the one
    the thread has built. *)
Definition live_after x s x' s' : Prop :=
  ∀ j sl', slots_ s' !! j = Some sl' → 0 < reader_count_ sl' →
    (∃ sl, slots_ s !! j = Some sl ∧ 0 < reader_count_ sl ∧ snapshot_generation_ sl' = snapshot_generation_ sl) ∨
    (reserved x = Some (snapshot_generation_ sl') ∧ reserved x' = None ∧ ∃ P, role_of x = ROwn j P).

Lemma step_live_after cmd o x s rs x' s' :
  slots_inv s (role_of x :: rs) → store_step Clone cmd o x s = (x', s') → step_effect x s x' s' →
  live_after x s x' s'.
Proof.
  intros Hi Hs He j sl' Hl' Hc'. destruct He as [Hm|(_ & _ & _ & _ & sl & f & Hl & -> & Hc & _ & _ & Hg)].
  - destruct (move_live _ _ _ _ _ j sl' Hi Hm Hl' Hc')
      as [(sl & Hl & Hc & _ & _ & Hg & _)|(Hr' & _ & P & sl & f & Hr & Hl & HP & -> & _)]; [left; by exists sl|].
    right. destruct (ready_step _ _ _ _ _ _ _ _ _ Hs Hr Hr') as (pg & p & g & -> & -> & ->).
    cbn in Hr. simplify_eq. rewrite lookup_set_slot, decide_True, Hl in Hl' by done. cbn in Hl'. simplify_eq.
    split_and!; [by rewrite <- Hl'|done|by eexists].
  - left. rewrite lookup_set_slot in Hl'. case_decide as Hd.
    + subst j. rewrite Hl in Hl'. cbn in Hl'. simplify_eq. by exists sl.
    + by exists sl'.
Qed.

Lemma generations_step cmd o x s xs t x' s' :
  generations s xs → xs !! t = Some x → store_step Clone cmd o x s = (x', s') → live_after x s x' s' →
  generations s' (<[t:=x']> xs).
Proof.
  intros Hg Hx Hs Hlv. pose proof (reserved_step _ _ _ _ _ _ (ge_last _ _ Hg) Hs) as Hr.
  assert (Hxin : x ∈ xs) by (apply list_elem_of_lookup; eauto).
  assert (Hle : last_reserved_snapshot_generation_ s ≤ last_reserved_snapshot_generation_ s') by lia.
  assert (Hin : ∀ y, y ∈ <[t:=x']> xs → y = x' ∨ ∃ u, u ≠ t ∧ xs !! u = Some y).
  { intros y Hy. apply list_elem_of_lookup in Hy as [u Hu].
    apply list_lookup_insert_Some in Hu as [(-> & -> & _)|(? & ?)]; eauto. }
  split.
  - pose proof (ge_last _ _ Hg). unfold is_u32 in *. lia.
  - intros i sl Hl Hc. destruct (Hlv i sl Hl Hc) as [(sl0 & Hl0 & Hc0 & ->)|(Hres & _)].
    + pose proof (ge_live _ _ Hg i sl0 Hl0 Hc0). lia.
    + pose proof (ge_tok _ _ Hg x _ Hxin Hres). lia.
  - intros i j sl sl' Hl Hl' Hc Hc' He.
    destruct (Hlv i sl Hl Hc) as [(a & Ha & Hca & Hga)|(Hra & _ & P & HP)];
      destruct (Hlv j sl' Hl' Hc') as [(b & Hb & Hcb & Hgb)|(Hrb & _ & Q & HQ)].
    + eapply (ge_uniq _ _ Hg i j a b); eauto. congruence.
    + destruct (ge_fresh _ _ Hg x _ i a Hxin Hrb Ha Hca). congruence.
    + destruct (ge_fresh _ _ Hg x _ j b Hxin Hra Hb Hcb). congruence.
    + congruence.
  - intros y g Hy Hyg. destruct (Hin y Hy) as [->|(u & Hu & Huy)].
    + destruct Hr as [[-> [Hr|Hr]]|(-> & _ & _ & Hr)]; rewrite Hyg in Hr; [|done|by simplify_eq].
      by apply (ge_tok _ _ Hg x).
    + assert (y ∈ xs) by (apply list_elem_of_lookup; eauto). pose proof (ge_tok _ _ Hg y g). naive_solver lia.
  - intros y g i sl Hy Hyg Hl Hc. destruct (Hin y Hy) as [->|(u & Hu & Huy)].
    + destruct Hr as [[_ [Hr|Hr]]|(_ & _ & Hsl & Hr)]; rewrite Hyg in Hr; [|done|].
      * destruct (Hlv i sl Hl Hc) as [(sl0 & Hl0 & Hc0 & ->)|(_ & Hn & _)]; [|congruence].
        by apply (ge_fresh _ _ Hg x g i sl0).
      * simplify_eq. rewrite Hsl in Hl. pose proof (ge_live _ _ Hg i sl Hl Hc). lia.
    + assert (Hyx : y ∈ xs) by (apply list_elem_of_lookup; eauto).
      destruct (Hlv i sl Hl Hc) as [(sl0 & Hl0 & Hc0 & ->)|(Hrx & _ & _)]; [by apply (ge_fresh _ _ Hg y g i sl0)|].
      intros <-. by destruct (Hu (ge_distinct _ _ Hg u t y x _ Huy Hx Hyg Hrx)).
  - assert (Hone : ∀ u y g, u ≠ t → xs !! u = Some y → reserved x' = Some g → reserved y = Some g → False).
    { intros u y g Hu Hy Hg1 Hg2. destruct Hr as [[_ [Hr|Hr]]|(_ & _ & _ & Hr)]; rewrite Hg1 in Hr; [|done|].
      - by destruct (Hu (ge_distinct _ _ Hg u t y x g Hy Hx Hg2 (eq_sym Hr))).
      - simplify_eq. assert (Hyx : y ∈ xs) by (apply list_elem_of_lookup; eauto).
        pose proof (ge_tok _ _ Hg y _ Hyx Hg2). lia. }
    intros a b y z g Hy Hz Hyg Hzg.
    apply list_lookup_insert_Some in Hy as [(<- & <- & _)|(? & Hy)];
      apply list_lookup_insert_Some in Hz as [(? & ? & _)|(? & Hz)]; simplify_eq; try done.
    + exfalso. eapply (Hone b); eauto.
    + exfalso. eapply (Hone a); eauto.
    + eapply (ge_distinct _ _ Hg a b); eauto.
Qed.

(** ** Reachable states *)

Record store_ok (st : store_state (G := G)) : Prop := {
  so_slots : slots_inv (ss st) (role_of <$> sts st);
  so_thread x : x ∈ sts st → thread_ok (ss st) x;
  so_alone t u x y : sts st !! t = Some x → exclusive x = true → sts st !! u = Some y → u ≠ t →
    quiet y = true ∧ exclusive y = false;
  so_view i sl : slots_ (ss st) !! i = Some sl → 0 < reader_count_ sl →
    storage_ sl = view_ sl ∨ ∃ pg p, Replacing i pg p RP_view ∈ sts st;
  so_gen : generations (ss st) (sts st) }.

Lemma insert_perm {A} (l : list A) t (a b : A) :
  l !! t = Some a → l ≡ₚ a :: delete t l ∧ <[t:=b]> l ≡ₚ b :: delete t l.
Proof.
  intros Ha. split; [by apply delete_Permutation|]. pose proof (lookup_lt_Some _ _ _ Ha) as Hlt.
  rewrite insert_take_drop by done. rewrite delete_take_drop. symmetry. apply Permutation_middle.
Qed.

Lemma quiet_none y : quiet y = true → role_of y = RNone.
Proof. by destruct y. Qed.

Lemma quiet_step cmd o x s x' s' :
  quiet x = true → store_step Clone cmd o x s = (x', s') →
  s' = s ∧ (quiet x' = true → exclusive x = false → exclusive x' = false).
Proof. intros Hq Hs. destruct x as [|[]| | | | | | | | | | | | | | |]; try done; cbn in Hs; simplify_eq; (split; [done|]); by destruct cmd. Qed.

Lemma thread_ok_other s s' y :
  thread_ok s y → exclusive y = false → length (slots_ s') = length (slots_ s) → thread_ok s' y.
Proof.
  intros [He Ho] Hx Hl. split.
  - destruct y; try done. cbn in *. destruct He as [->|[-> _]]; [by left|done].
  - destruct y; try done; by rewrite Hl.
Qed.

Lemma effect_length x s x' s' : step_effect x s x' s' → length (slots_ s') = length (slots_ s).
Proof.
  intros [Hm|(_ & _ & _ & _ & sl & f & _ & -> & _)]; [by eapply move_length|apply length_set_slot].
Qed.

(** What [admitted] gives to the threads. *)
Lemma admitted_spec ts t x x' u y :
  admitted ts t x x' = true → quiet x = true → quiet x' = false → ts !! u = Some y → u ≠ t →
  exclusive y = false ∧ (exclusive x' = true → quiet y = true).
Proof.
  unfold admitted. intros Ha Hq Hq' Hu Hne. rewrite Hq, Hq' in Ha. cbn [andb negb] in Ha.
  rewrite forallb_forall in Ha.
  specialize (Ha _ (proj1 (list_elem_of_In _ _) (elem_of_lookup_imap_2 _ _ _ _ Hu))). cbn beta in Ha.
  unfold id in Ha. rewrite (proj2 (Nat.eqb_neq _ _)) in Ha by done. cbn [orb] in Ha.
  destruct (exclusive x'); bool_to_prop; by auto.
Qed.

Lemma writes_cases x :
  writes x = true → (∃ i pg p c, x = Replacing i pg p c) ∨ (∃ i, x = Maintained i).
Proof. destruct x; try done; eauto 6. Qed.

Section step.
Context (s s' : store G) (ts : list (store_thread G)) (t : nat) (x x' : store_thread G).
Context (cmd : store_cmd G) (o : store_oracle).
Hypothesis Hok : store_ok (StoreState s ts).
Hypothesis Hx : ts !! t = Some x.
Hypothesis Hs : store_step Clone cmd o x s = (x', s').
Hypothesis Ha : admitted ts t x x' = true.

Let rest : list (role G) := role_of <$> delete t ts.

Lemma roles_before : role_of <$> ts ≡ₚ role_of x :: rest.
Proof. destruct (insert_perm ts t x x Hx) as [Hp _]. unfold rest. rewrite Hp at 1. done. Qed.
Lemma roles_after : role_of <$> <[t:=x']> ts ≡ₚ role_of x' :: rest.
Proof. destruct (insert_perm ts t x x' Hx) as [_ Hp]. unfold rest. rewrite Hp at 1. done. Qed.
Lemma slots_before : slots_inv s (role_of x :: rest).
Proof. eapply slots_inv_perm; [apply roles_before|apply (so_slots _ Hok)]. Qed.

Lemma rest_elem r : r ∈ rest → ∃ u y, u ≠ t ∧ ts !! u = Some y ∧ r = role_of y.
Proof.
  unfold rest. rewrite list_elem_of_fmap. intros (y & -> & Hy). apply list_elem_of_lookup in Hy as [u Hu].
  destruct (decide (u < t)%nat).
  - rewrite list_lookup_delete_lt in Hu by done. exists u, y. split_and!; [lia|done|done].
  - rewrite list_lookup_delete_ge in Hu by lia. exists (S u), y. split_and!; [lia|done|done].
Qed.

Lemma alone_rest : exclusive x = true → ∀ r, r ∈ rest → r = RNone.
Proof.
  intros He r Hr. apply rest_elem in Hr as (u & y & Hu & Hy & ->).
  apply quiet_none. by destruct (so_alone _ Hok t u x y Hx He Hy Hu).
Qed.

Lemma step_ok : step_effect x s x' s' ∧
  (exclusive x = false → quiet x = false → exclusive x' = false) ∧ thread_ok s' x'.
Proof.
  eapply store_step_ok; eauto using slots_before, alone_rest.
  apply (so_thread _ Hok). apply list_elem_of_lookup. eauto.
Qed.

Lemma slots_after : slots_inv s' (role_of x' :: rest).
Proof.
  destruct step_ok as ([Hm|(_ & _ & Hr & Hno & sl & f & Hl & -> & Hc & Hcf & Hlv & _)] & _).
  - eapply move_inv; [apply slots_before|done].
  - rewrite Hr. eapply write_inv; eauto using slots_before.
Qed.

Lemma alone_after u v y z :
  <[t:=x']> ts !! u = Some y → exclusive y = true → <[t:=x']> ts !! v = Some z → v ≠ u →
  quiet z = true ∧ exclusive z = false.
Proof.
  intros Hu He Hv Hne. destruct step_ok as (_ & Hrise & _).
  apply list_lookup_insert_Some in Hu as [(Eu & Ey & _)|(Hut & Hu)];
    apply list_lookup_insert_Some in Hv as [(Ev & Ez & _)|(Hvt & Hv)]; try congruence.
  - subst u y. destruct (exclusive x) eqn:Hxe.
    + by apply (so_alone _ Hok t v x z).
    + destruct (quiet x) eqn:Hq; [|by rewrite (Hrise eq_refl eq_refl) in He].
      destruct (quiet x') eqn:Hq'.
      { destruct (quiet_step _ _ _ _ _ _ Hq Hs) as [_ Hn]. rewrite Hn in He by done. done. }
      destruct (admitted_spec ts t x x' v z Ha Hq Hq' Hv Hne). auto.
  - subst v z. destruct (so_alone _ Hok u t y x Hu He Hx Hne) as [Hq Hxe].
    destruct (quiet_step _ _ _ _ _ _ Hq Hs) as [_ Hn]. destruct (quiet x') eqn:Hq'; [by auto|].
    destruct (admitted_spec ts t x x' u y Ha Hq Hq' Hu (not_eq_sym Hut)) as [Hf _]. congruence.
  - by apply (so_alone _ Hok u v y z).
Qed.

Lemma threads_after y : y ∈ <[t:=x']> ts → thread_ok s' y.
Proof.
  intros Hy. destruct step_ok as (He & _ & Ht). apply list_elem_of_lookup in Hy as [u Hu].
  apply list_lookup_insert_Some in Hu as [(-> & -> & _)|(Hut & Hu)]; [done|].
  pose proof (so_thread _ Hok y ltac:(apply list_elem_of_lookup; eauto)) as Hty. destruct (exclusive y) eqn:Hye.
  - destruct (so_alone _ Hok u t y x Hu Hye Hx Hut) as [Hq _].
    by destruct (quiet_step _ _ _ _ _ _ Hq Hs) as [-> _].
  - eapply thread_ok_other; eauto using effect_length.
Qed.

(** No other thread is replacing while this one does not. *)
Lemma view_before i sl :
  (∀ i pg p, x ≠ Replacing i pg p RP_view) → slots_ s !! i = Some sl → 0 < reader_count_ sl →
  storage_ sl = view_ sl ∨ ∃ u pg p, u ≠ t ∧ ts !! u = Some (Replacing i pg p RP_view).
Proof.
  intros Hn Hl Hc. destruct (so_view _ Hok i sl Hl Hc) as [?|(pg & p & Hin)]; [by left|right].
  apply list_elem_of_lookup in Hin as [u Hu]. exists u, pg, p. split; [|done].
  intros ->. cbn in Hu. rewrite Hx in Hu. simplify_eq. by eapply Hn.
Qed.

Lemma no_other_writer i sl :
  writes x = true → (∀ i pg p, x ≠ Replacing i pg p RP_view) →
  slots_ s !! i = Some sl → 0 < reader_count_ sl → storage_ sl = view_ sl.
Proof.
  intros Hw Hn Hl Hc. destruct (view_before i sl Hn Hl Hc) as [?|(u & pg & p & Hu & Hut)]; [done|].
  assert (exclusive x = true) as Hxe by (by destruct x).
  by destruct (so_alone _ Hok t u x _ Hx Hxe Hut Hu).
Qed.

Lemma lookup_written i j f sl' :
  slots_ (set_slot i f s) !! j = Some sl' →
  (j = i ∧ ∃ sl, slots_ s !! i = Some sl ∧ sl' = f sl) ∨ (j ≠ i ∧ slots_ s !! j = Some sl').
Proof.
  rewrite lookup_set_slot. case_decide as Hd; [|right; by split].
  subst j. destruct (slots_ s !! i) as [sl|]; intros H; simplify_eq/=. left. eauto.
Qed.

Lemma view_replacing i pg p c j sl' :
  x = Replacing i pg p c → slots_ s' !! j = Some sl' → 0 < reader_count_ sl' →
  storage_ sl' = view_ sl' ∨ ∃ pg p, x' = Replacing j pg p RP_view.
Proof.
  intros Ex Hl Hc. pose proof (so_thread _ Hok _ (list_elem_of_lookup_2 _ _ _ Hx)) as [Hcur _].
  rewrite Ex in Hcur. destruct Hcur as [_ Hst]. cbn [ss] in Hst.
  assert (Hwx : writes x = true) by (by rewrite Ex). assert (Hex : exclusive x = true) by (by rewrite Ex).
  assert (Hother : ∀ k sl, c ≠ RP_view ∨ k ≠ i → slots_ s !! k = Some sl → 0 < reader_count_ sl → storage_ sl = view_ sl).
  { intros k sl Hk Hlk Hck. destruct (decide (c = RP_view)) as [->|Hne].
    - destruct (so_view _ Hok k sl Hlk Hck) as [?|(pg' & p' & Hin)]; [done|exfalso].
      apply list_elem_of_lookup in Hin as [u Hu]. destruct (decide (u = t)) as [->|Hut].
      + cbn in Hu. rewrite Hx, Ex in Hu. simplify_eq. naive_solver.
      + by destruct (so_alone _ Hok t u _ _ Hx Hex Hu Hut).
    - apply (no_other_writer k); try done. intros ???. congruence. }
  pose proof Hs as Hs0. rewrite Ex in Hs0. cbn [store_step] in Hs0. destruct c; cbn in Hs0.
  - left. apply (Hother j); [by auto| |done]. by repeat case_match; simplify_eq/=.
  - left. apply (Hother j); [by auto| |done]. by repeat case_match; simplify_eq/=.
  - injection Hs0 as <- <-. apply lookup_written in Hl as [(-> & sl & Hl & ->)|(Hne & Hl)]; [by eauto|].
    left. apply (Hother j); auto.
  - injection Hs0 as <- <-. left. apply lookup_written in Hl as [(-> & sl & Hl & ->)|(Hne & Hl)].
    + cbn. by apply (Hst eq_refl).
    + apply (Hother j); auto.
  - injection Hs0 as <- <-. left. apply lookup_written in Hl as [(-> & sl & Hl & ->)|(Hne & Hl)].
    + cbn. apply (Hother i sl); auto.
    + apply (Hother j); auto.
Qed.

Lemma view_maintained i j sl' :
  x = Maintained i → slots_ s' !! j = Some sl' → 0 < reader_count_ sl' → storage_ sl' = view_ sl'.
Proof.
  intros Ex Hl Hc.
  assert (Hold : ∀ k sl, slots_ s !! k = Some sl → 0 < reader_count_ sl → storage_ sl = view_ sl).
  { intros k sl. apply no_other_writer; [by rewrite Ex|]. intros ???. congruence. }
  pose proof Hs as Hs0. rewrite Ex in Hs0. cbn [store_step] in Hs0.
  destruct cmd; try (injection Hs0 as <- <-; by apply (Hold j)).
  unfold RefreshCurrentView in Hs0. destruct (slots_ s !! i) as [sl|] eqn:Hi; [|injection Hs0 as <- <-; by apply (Hold j)].
  rewrite set_slot_twice in Hs0.
  repeat case_match; simplify_eq/=;
    (apply lookup_written in Hl as [(-> & sl0 & Hl0 & ->)|(Hne & Hl0)]; [by simplify_eq/=|by apply (Hold j)]).
Qed.

Lemma view_after i sl' :
  slots_ s' !! i = Some sl' → 0 < reader_count_ sl' →
  storage_ sl' = view_ sl' ∨ ∃ pg p, Replacing i pg p RP_view ∈ <[t:=x']> ts.
Proof.
  intros Hl Hc. assert (Hlt : (t < length ts)%nat) by eauto using lookup_lt_Some.
  destruct (writes x) eqn:Hw.
  - destruct (writes_cases x Hw) as [(i0 & pg & p & c & Ex)|[i0 Ex]].
    + destruct (view_replacing i0 pg p c i sl' Ex Hl Hc) as [?|(pg' & p' & E)]; [by left|right].
      exists pg', p'. rewrite <- E. by apply list_elem_of_insert.
    + left. by eapply view_maintained.
  - destruct step_ok as ([Hm|(? & _)] & _); [|congruence].
    destruct (move_live _ _ _ _ _ i sl' slots_before Hm Hl Hc) as [(sl & Hl0 & Hc0 & H1 & H2 & _)|(_ & ? & _)]; [|by left].
    rewrite H1, H2. destruct (view_before i sl) as [?|(u & pg & p & Hu & Hut)]; try done; [|by left|].
    + intros ??? E. by rewrite E in Hw.
    + right. exists pg, p. apply list_elem_of_lookup. exists u. by rewrite list_lookup_insert_ne.
Qed.

Lemma step_store_ok : store_ok (StoreState s' (<[t:=x']> ts)).
Proof.
  split; cbn [ss sts].
  - eapply slots_inv_perm; [symmetry; apply roles_after|apply slots_after].
  - apply threads_after.
  - apply alone_after.
  - apply view_after.
  - apply (generations_step cmd o x s ts t x' s' (so_gen _ Hok) Hx Hs).
    apply (step_live_after cmd o x s rest x' s' slots_before Hs). apply step_ok.
Qed.
End step.

Lemma trans_ok P st st' : store_ok st → store_trans Clone P st st' → store_ok st'.
Proof. intros Hok Ht. destruct Ht. by eapply step_store_ok. Qed.

(** The pool has a slot, and there are fewer than 2^31 - 1 threads. *)
Definition store_config (slot_num : nat) (generation : Z) (n : nat) : Prop :=
  (0 < slot_num)%nat ∧ is_u32 generation ∧ Z.of_nat n + 1 < 2^31.

Definition store_reachable (slot_num : nat) (pg : G) (generation : Z) (n : nat) st : Prop :=
  star (any_step Clone) (store_init slot_num pg generation n) st.

Lemma init_slot slot_num pg generation i sl :
  slots_ (init slot_num pg generation) !! i = Some sl →
  (i = 0%nat ∧ sl = MkSlot (Some pg) (Some pg) generation 0 1) ∨ ((0 < i)%nat ∧ sl = empty_slot).
Proof.
  destruct i as [|i]; cbn; intros H; simplify_eq; [by left|right].
  apply lookup_replicate in H as [-> _]. split; [lia|done].
Qed.

Lemma zsum_idle (f : role G → Z) n : f RNone = 0 → zsum f (role_of <$> replicate n Idle) = 0.
Proof.
  intros Hf. apply zsum_zero. intros r Hr. apply list_elem_of_fmap in Hr as (y & -> & Hy).
  by apply elem_of_replicate in Hy as [-> _].
Qed.

Lemma seq_count i k n :
  zsum (λ j, if decide (i = j) then 1 else 0) (seq k n) = if decide (k ≤ i < k + n)%nat then 1 else 0.
Proof.
  revert k. induction n as [|n IH]; intros k; cbn [seq]; [by rewrite decide_False by lia|].
  rewrite zsum_cons, IH. repeat case_decide; lia.
Qed.

Lemma init_slots slot_num pg generation n :
  store_config slot_num generation n →
  slots_inv (init slot_num pg generation) (role_of <$> replicate n Idle).
Proof.
  intros (Hn & Hg & Hl).
  assert (Hin : ∀ r, r ∈ role_of <$> replicate n Idle → r = RNone).
  { intros r Hr. apply list_elem_of_fmap in Hr as (y & -> & Hy). by apply elem_of_replicate in Hy as [-> _]. }
  assert (Hh : ∀ i, holders (init slot_num pg generation) (role_of <$> replicate n Idle) i
                    = if decide (i = 0%nat) then 1 else 0).
  { intros i. unfold holders. by rewrite zsum_idle. }
  split.
  - cbn. lia.
  - intros i Hi. rewrite Hh, zsum_idle by done. unfold free_at. cbn [init free_list_]. rewrite seq_count.
    cbn in Hi. rewrite length_replicate in Hi. repeat case_decide; cbn; lia.
  - intros i sl Hi. rewrite Hh. apply init_slot in Hi as [(-> & ->)|(Hi & ->)].
    + intros _. split; [done|]. by split; eexists.
    + rewrite decide_False by lia. lia.
  - intros i Hi. cbn in Hi. apply elem_of_seq in Hi. destruct i; [lia|]. cbn. by apply lookup_replicate_2; lia.
  - intros i P Hr. by apply Hin in Hr.
  - intros i Hr. by apply Hin in Hr.
  - rewrite length_fmap, length_replicate. lia.
Qed.

Lemma init_ok slot_num pg generation n :
  store_config slot_num generation n → store_ok (store_init slot_num pg generation n).
Proof.
  intros Hc. assert (Hin : ∀ x, x ∈ replicate n Idle → x = Idle (G := G)).
  { intros x Hx. by apply elem_of_replicate in Hx as [-> _]. }
  assert (Hlk : ∀ t x, replicate n Idle !! t = Some x → x = Idle (G := G)).
  { intros t x Hx. apply Hin, list_elem_of_lookup. eauto. }
  split; cbn [store_init ss sts].
  - by apply init_slots.
  - intros x ->%Hin. done.
  - intros t u x y ->%Hlk. done.
  - intros i sl Hi Hpos. left. apply init_slot in Hi as [(_ & ->)|(_ & ->)]; done.
  - destruct Hc as (_ & Hg & _). split; try (intros; subst; by match goal with H : _ ∈ replicate _ _ |- _ => apply Hin in H; subst end).
    + done.
    + intros i sl Hi Hpos. apply init_slot in Hi as [(_ & ->)|(_ & ->)]; cbn in *; lia.
    + intros i j sl sl' Hi Hj Hp Hp' _. apply init_slot in Hi as [(-> & ->)|(_ & ->)], Hj as [(-> & ->)|(_ & ->)]; cbn in *; lia.
    + intros t u x y g ->%Hlk. done.
Qed.

Lemma reachable_ok slot_num pg generation n st :
  store_config slot_num generation n → store_reachable slot_num pg generation n st → store_ok st.
Proof. intros Hc Hr. eapply (star_invariant (any_step Clone)); eauto using init_ok. intros. by eapply trans_ok. Qed.

(** ** The claims *)

Lemma elem_delete {A} (l : list A) t u (a : A) : l !! t = Some a → t ≠ u → a ∈ delete u l.
Proof.
  intros Ha Hne. apply list_elem_of_lookup. destruct (decide (t < u)%nat).
  - exists t. by rewrite list_lookup_delete_lt.
  - exists (t - 1)%nat. rewrite list_lookup_delete_ge by lia. by replace (S (t - 1)) with t by lia.
Qed.

Lemma others_keep st st' t i sl :
  store_ok st → step_of_others Clone t st st' → sts st !! t = Some (Pinned i) → slots_ (ss st) !! i = Some sl →
  sts st' !! t = Some (Pinned i) ∧ ∃ sl', slots_ (ss st') !! i = Some sl' ∧ same_content sl sl'.
Proof.
  intros Hok Ht Hp Hl. destruct Ht as [s ts u x cmd o x' s' Hx Hu Hs Ha]. cbn [ss sts] in *.
  split; [by rewrite list_lookup_insert_ne by done|].
  destruct (step_ok s s' ts u x x' cmd o Hok Hx Hs) as ([Hm|(Hw & _)] & _).
  - eapply move_keeps; [by apply (slots_before s ts u x)|exact Hm| |done]. apply list_elem_of_fmap. exists (Pinned i).
    split; [done|]. by eapply elem_delete.
  - assert (exclusive x = true) as He by (by destruct x).
    by destruct (so_alone _ Hok u t x (Pinned i) Hx He Hp (not_eq_sym Hu)).
Qed.

Lemma others_keep_run st st' t i sl :
  store_ok st → star (step_of_others Clone t) st st' → sts st !! t = Some (Pinned i) →
  slots_ (ss st) !! i = Some sl →
  store_ok st' ∧ sts st' !! t = Some (Pinned i) ∧ ∃ sl', slots_ (ss st') !! i = Some sl' ∧ same_content sl sl'.
Proof.
  intros Hok Hr Hp Hl. induction Hr as [st|st st1 st2 _ IH Hst]; [split_and!; [done..|]; exists sl; split; done|].
  destruct (IH Hok Hp Hl) as (Hok1 & Hp1 & sl1 & Hl1 & Hc1).
  destruct (others_keep _ _ _ _ _ Hok1 Hst Hp1 Hl1) as (Hp2 & sl2 & Hl2 & Hc2).
  split; [by eapply trans_ok|]. split; [done|]. exists sl2. split; [done|].
  destruct Hc1 as (?&?&?&?), Hc2 as (?&?&?&?). split_and!; congruence.
Qed.

(** C29: While a thread has a snapshot pinned, whatever the
    other threads do (publishing, unpinning, cleaning up, reusing slots,
    aborting preparations), its slot keeps the same graph, the view built from
    that graph, and the same generations, and no other live slot carries its
    snapshot generation. *)
Theorem pinned_snapshot_stable (slot_num : nat) (pg : G) (generation : Z) (n : nat)
    (st st' : store_state) (t i : nat) :
  store_config slot_num generation n → store_reachable slot_num pg generation n st →
  sts st !! t = Some (Pinned i) → star (step_of_others Clone t) st st' →
  ∃ sl sl' g, slots_ (ss st) !! i = Some sl ∧ slots_ (ss st') !! i = Some sl' ∧
    storage_ sl = Some g ∧ view_ sl = Some g ∧ same_content sl sl' ∧
    0 < reader_count_ sl ∧ 0 < reader_count_ sl' ∧
    ∀ j slj, slots_ (ss st') !! j = Some slj → 0 < reader_count_ slj →
      snapshot_generation_ slj = snapshot_generation_ sl → j = i.
Proof.
  intros Hc Hr Hp Hrun. pose proof (reachable_ok _ _ _ _ _ Hc Hr) as Hok.
  assert (Hpin : ∀ st, sts st !! t = Some (Pinned i) → RPin i ∈ role_of <$> sts st).
  { intros st0 H0. apply list_elem_of_fmap. exists (Pinned i). split; [done|]. apply list_elem_of_lookup. eauto. }
  destruct (pinned_slot _ _ i (so_slots _ Hok) (Hpin _ Hp)) as (sl & Hl & Hcnt & [[g Hg] _] & _).
  destruct (others_keep_run _ _ _ _ _ Hok Hrun Hp Hl) as (Hok' & Hp' & sl' & Hl' & Hsame).
  destruct (pinned_slot _ _ i (so_slots _ Hok') (Hpin _ Hp')) as (sl0 & Hl0 & Hcnt' & _).
  assert (sl0 = sl') as -> by congruence. exists sl, sl', g. split_and!; try done; try lia; try apply Hsame.
  - destruct (so_view _ Hok i sl Hl ltac:(lia)) as [<-|(pg0 & p & Hin)]; [done|].
    apply list_elem_of_lookup in Hin as [u Hu]. destruct (decide (t = u)) as [->|Hne]; [congruence|].
    by destruct (so_alone _ Hok u t _ _ Hu eq_refl Hp Hne).
  - intros j slj Hj Hcj Hgj. destruct Hsame as (_ & _ & Hgen & _).
    eapply (ge_uniq _ _ (so_gen _ Hok') j i); eauto; [lia|congruence].
Qed.

(** C30: No check of the store ever fails and no pin count goes
    wrong: in every reachable state the count of a slot that is in use is the
    number of its pins (the one of the current index included), the current
    slot holds a graph, and the only failures of callers are an exhausted
    generation space, a view that could not be built, and the exhaustion of
    the 64-bit planning generation. *)
Theorem store_never_fails (slot_num : nat) (pg : G) (generation : Z) (n : nat) (st : store_state) :
  store_config slot_num generation n → store_reachable slot_num pg generation n st →
  (∃ g, CurrentSnapshot (ss st) = Ok g) ∧
  (∀ i sl, slots_ (ss st) !! i = Some sl → 0 < reader_count_ sl →
     reader_count_ sl = holders (ss st) (role_of <$> sts st) i) ∧
  (∀ e, Failed e ∈ sts st → e = RuntimeFailure ∨
     e = CheckFailed ∧ ∃ sl, slots_ (ss st) !! cur_slot_index_ (ss st) = Some sl ∧
       planning_generation_ sl = 2^64 - 1).
Proof.
  intros Hc Hr. pose proof (reachable_ok _ _ _ _ _ Hc Hr) as Hok. split_and!.
  - destruct (current_slot _ _ (so_slots _ Hok)) as (sl & Hl & _ & [[g Hg] _]). exists g.
    unfold CurrentSnapshot. by rewrite Hl, Hg.
  - intros i sl Hl Hp. apply (si_live _ _ (so_slots _ Hok) i sl Hl). by eapply counted_held; eauto using so_slots.
  - intros e He. by destruct (so_thread _ Hok _ He) as [H _].
Qed.

Lemma count_NoDup (l : list nat) : (∀ i, zsum (λ j, if decide (i = j) then 1 else 0) l ≤ 1) → NoDup l.
Proof.
  induction l as [|a l IH]; intros H; constructor.
  - intros Hin. specialize (H a). rewrite zsum_cons, decide_True in H by done.
    assert (Hz : 1 ≤ zsum (λ j, if decide (a = j) then 1 else 0) l); [|lia].
    etrans; [|apply (zsum_elem_le _ l a); [intros; case_decide; lia|done]].
    cbn beta. by rewrite decide_True.
  - apply IH. intros i. specialize (H i). rewrite zsum_cons in H. case_decide; lia.
Qed.

(** No slot is lost or handed out twice: whenever no thread
    uses the store, every slot but the current one is empty and is in the free
    list exactly once, and the current slot has exactly its own pin, whatever
    mix of publications, aborted or failed preparations and races between
    readers and publishers led there. *)
Theorem slots_not_leaked (slot_num : nat) (pg : G) (generation : Z) (n : nat) (st : store_state) :
  store_config slot_num generation n → store_reachable slot_num pg generation n st →
  (∀ x, x ∈ sts st → quiet x = true) →
  free_list_ (ss st) ≡ₚ filter (λ i, i ≠ cur_slot_index_ (ss st)) (seq 0 (length (slots_ (ss st)))) ∧
  (∀ i sl, slots_ (ss st) !! i = Some sl → i ≠ cur_slot_index_ (ss st) → sl = empty_slot) ∧
  (∃ sl, slots_ (ss st) !! cur_slot_index_ (ss st) = Some sl ∧ reader_count_ sl = 1).
Proof.
  intros Hc Hr Hq. pose proof (reachable_ok _ _ _ _ _ Hc Hr) as Hok. pose proof (so_slots _ Hok) as Hi.
  assert (Hn : ∀ r, r ∈ role_of <$> sts st → r = RNone).
  { intros r Hin. apply list_elem_of_fmap in Hin as (y & -> & Hy). apply quiet_none. auto. }
  assert (Hfree : ∀ i, (i < length (slots_ (ss st)))%nat →
    free_at i (ss st) = if decide (i = cur_slot_index_ (ss st)) then 0 else 1).
  { intros i Hlt. pose proof (si_part _ _ Hi i Hlt) as Hp. rewrite alone_owns in Hp by done.
    unfold holders in Hp. rewrite alone_pins in Hp by done. unfold cur_at in Hp.
    case_decide; [change (0 <? 0 + 1) with true in Hp|change (0 <? 0 + 0) with false in Hp]; lia. }
  assert (Hrange : ∀ i, i ∈ free_list_ (ss st) → (i < length (slots_ (ss st)))%nat).
  { intros i Hf. eapply lookup_lt_Some, (si_free _ _ Hi), Hf. }
  split_and!.
  - apply NoDup_Permutation; [|apply NoDup_filter, NoDup_seq|].
    + apply count_NoDup. intros i. destruct (decide (i ∈ free_list_ (ss st))) as [Hin|Hin].
      * fold (free_at i (ss st)). rewrite Hfree by auto. case_decide; lia.
      * rewrite free_at_elem in Hin. fold (free_at i (ss st)). lia.
    + intros i. rewrite list_elem_of_filter, elem_of_seq, free_at_elem. split.
      * intros Hp. assert (Hlt : (i < length (slots_ (ss st)))%nat) by (by apply Hrange, free_at_elem).
        rewrite Hfree in Hp by done. case_decide; [lia|]. split; [done|lia].
      * intros [Hne Hlt]. rewrite Hfree by lia. rewrite decide_False by done. lia.
  - intros i sl Hl Hne. assert (Hf : i ∈ free_list_ (ss st)).
    { apply free_at_elem. rewrite Hfree by eauto using lookup_lt_Some. rewrite decide_False by done. lia. }
    apply (si_free _ _ Hi) in Hf. congruence.
  - destruct (current_slot _ _ Hi) as (sl & Hl & Hp & _). exists sl. split; [done|].
    destruct (si_live _ _ Hi _ sl Hl) as [-> _]; [eapply counted_held; eauto; lia|].
    unfold holders. rewrite alone_pins by done. unfold cur_at. by rewrite decide_True.
Qed.
End roles.

(** ** A run

    A reader pins the initial snapshot; a writer prepares and publishes graph 7
    in another slot while the pin lasts; then the reader releases its pin and
    cleans the old slot up. *)
Definition normal : store_oracle := StoreOracle false false.
Definition repeat_step (k : nat) (t : nat) (cmd : store_cmd Z) : list (nat * store_cmd Z * store_oracle) :=
  replicate k (t, cmd, normal).

Definition reader_pins : store_state := store_run id (repeat_step 5 0 CPin) (store_init 3 5 0 2).
Definition writer_publishes : list (nat * store_cmd Z * store_oracle) :=
  repeat_step 10 1 (CPrepare (Some 7) 0) ++ repeat_step 5 1 CPublish.
Definition after_publish : store_state := store_run id writer_publishes reader_pins.
Definition reader_released : store_state := store_run id (repeat_step 12 0 CRelease) after_publish.

Lemma sample_config : store_config 3 0 2.
Proof. split_and!; [lia| |lia]. split; lia. Qed.

Lemma reader_pins_reachable : store_reachable id 3 5 0 2 reader_pins.
Proof. apply store_run_star. by repeat constructor. Qed.
Lemma after_publish_reachable : store_reachable id 3 5 0 2 after_publish.
Proof. eapply star_trans; [apply reader_pins_reachable|]. apply store_run_star. by repeat constructor. Qed.
Lemma reader_released_reachable : store_reachable id 3 5 0 2 reader_released.
Proof. eapply star_trans; [apply after_publish_reachable|]. apply store_run_star. by repeat constructor. Qed.

Lemma pinned_snapshot_stable_witness :
  sts reader_pins !! 0%nat = Some (Pinned 0) ∧
  cur_slot_index_ (ss reader_pins) = 0%nat ∧ cur_slot_index_ (ss after_publish) ≠ 0%nat ∧
  ∃ sl sl' g, slots_ (ss reader_pins) !! 0%nat = Some sl ∧ slots_ (ss after_publish) !! 0%nat = Some sl' ∧
    storage_ sl = Some g ∧ view_ sl = Some g ∧ same_content sl sl' ∧
    0 < reader_count_ sl ∧ 0 < reader_count_ sl' ∧
    ∀ j slj, slots_ (ss after_publish) !! j = Some slj → 0 < reader_count_ slj →
      snapshot_generation_ slj = snapshot_generation_ sl → j = 0%nat.
Proof.
  split; [vm_compute; reflexivity|]. split; [vm_compute; reflexivity|]. split; [vm_compute; discriminate|].
  apply (pinned_snapshot_stable id 3 5 0 2 reader_pins after_publish 0 0).
  - apply sample_config.
  - apply reader_pins_reachable.
  - vm_compute. reflexivity.
  - apply store_run_star. repeat constructor; discriminate.
Defined.

Lemma store_never_fails_witness :
  CurrentSnapshot (ss after_publish) = Ok 7 ∧
  (∃ g, CurrentSnapshot (ss after_publish) = Ok g) ∧
  (∀ i sl, slots_ (ss after_publish) !! i = Some sl → 0 < reader_count_ sl →
     reader_count_ sl = holders (ss after_publish) (role_of <$> sts after_publish) i) ∧
  (∀ e, Failed e ∈ sts after_publish → e = RuntimeFailure ∨
     e = CheckFailed ∧ ∃ sl, slots_ (ss after_publish) !! cur_slot_index_ (ss after_publish) = Some sl ∧
       planning_generation_ sl = 2^64 - 1).
Proof.
  split; [vm_compute; reflexivity|].
  apply (store_never_fails id 3 5 0 2 after_publish); [apply sample_config|apply after_publish_reachable].
Defined.

Lemma slots_not_leaked_witness :
  sts reader_released = [Idle; Published 1] ∧
  free_list_ (ss reader_released)
    ≡ₚ filter (λ i, i ≠ cur_slot_index_ (ss reader_released)) (seq 0 (length (slots_ (ss reader_released)))) ∧
  (∀ i sl, slots_ (ss reader_released) !! i = Some sl → i ≠ cur_slot_index_ (ss reader_released) → sl = empty_slot) ∧
  (∃ sl, slots_ (ss reader_released) !! cur_slot_index_ (ss reader_released) = Some sl ∧ reader_count_ sl = 1).
Proof.
  split; [vm_compute; reflexivity|].
  apply (slots_not_leaked id 3 5 0 2 reader_released); [apply sample_config|apply reader_released_reachable|].
  apply Forall_forall. vm_compute. repeat constructor.
Defined.
