(* ===== verification/SnapshotEffects.v ===== *)
(** * Effects of one step at the snapshot store

    What a step of one user does to the current index and to the contents of
    slots, for the clients that relate them to graphs. *)

From S2P Require Import Prelude GateWord OperationGate SnapshotStore SnapshotThreads SnapshotInvariant SnapshotProperties.
Import GraphSnapshotStore.

Section effects.
Context {G : Type} (Clone : G → G).
Implicit Types (s : store G) (sl : slot G) (x y : store_thread G).

(** A move leaves the contents of every live slot alone. *)
Lemma move_keeps_live s r s' r' rs j sl :
  slots_inv s (r :: rs) → move r s r' s' → slots_ s !! j = Some sl → 0 < reader_count_ sl →
  ∃ sl', slots_ s' !! j = Some sl' ∧ same_content sl sl'.
Proof.
  intros Hi Hm Hl Hc.
  assert (Hkeep : ∃ sl', slots_ s !! j = Some sl' ∧ same_content sl sl') by (by exists sl).
  destruct Hm; try exact Hkeep; rewrite lookup_set_slot; case_decide; subst; try exact Hkeep; rewrite Hl; cbn;
    try (eexists; split; [done|done]).
  all: destruct (owned_slot _ _ _ _ Hi) as (sl0 & Hl0 & _ & Hle & _); simplify_eq; lia.
Qed.

(** Only the exchange of a publication changes the current index. *)
Lemma unpin_cur i c s s' k : unpinSnapshotByIndex i c s = (s', k) → cur_slot_index_ s' = cur_slot_index_ s.
Proof. intros Hs. destruct c as [| | | |[]]; cbn in Hs; repeat case_match; by simplify_eq/=. Qed.
Lemma pin_cur o c s s' k : PinCurrentSnapshot o c s = (s', k) → cur_slot_index_ s' = cur_slot_index_ s.
Proof.
  intros Hs. destruct c as [| | | |i c]; cbn in Hs; [repeat case_match; by simplify_eq/=..|].
  destruct (unpinSnapshotByIndex i c s) as [s1 []] eqn:E; cbn in Hs; simplify_eq; by eapply unpin_cur.
Qed.

Lemma step_cur cmd o x s x' s' :
  store_step Clone cmd o x s = (x', s') →
  cur_slot_index_ s' = cur_slot_index_ s ∨
  ∃ i g, x = Publishing i (PU_exchange g) ∧ s' = set_cur i s ∧ x' = Publishing i (PU_unpin (cur_slot_index_ s) g UN_sub).
Proof.
  intros Hs. destruct x as [|[]| | | | | | | | | | | | | | |]; cbn [store_step] in Hs;
    try (destruct cmd; simplify_eq; by left); try (simplify_eq; by left).
  - apply resume_eq in Hs as [-> _]. left. destruct (PinCurrentSnapshot _ _ _) eqn:E. by eapply pin_cur.
  - apply resume_eq in Hs as [-> _]. left. destruct (unpinSnapshotByIndex _ _ _) eqn:E. by eapply unpin_cur.
  - apply resume_eq in Hs as [-> _]. left.
    destruct c as [c|i|i g p c]; cbn; [destruct (PinCurrentSnapshot _ _ _) as [? []] eqn:E; cbn; by eapply pin_cur| |].
    + repeat case_match; done.
    + destruct (unpinSnapshotByIndex _ _ _) as [? []] eqn:E; cbn; by eapply unpin_cur.
  - apply resume_eq in Hs as [-> _]. left.
    destruct c as [|i []|i g|i g|i g|i g|i g|i g|i e []]; cbn [PrepareSnapshot]; unfold getFreeSlot; cbn; repeat case_match; simplify_eq/=; done.
  - destruct c as [| | |old g c]; cbn [Publish] in Hs.
    + apply resume_eq in Hs as [-> _]. by left.
    + apply resume_eq in Hs as [-> _]. by left.
    + cbn in Hs. simplify_eq. right. by eexists _, _.
    + apply resume_eq in Hs as [-> _]. left. destruct (unpinSnapshotByIndex _ _ _) as [? []] eqn:E; cbn; by eapply unpin_cur.
  - apply resume_eq in Hs as [-> _]. left. destruct (PinCurrentSnapshot _ _ _) eqn:E. by eapply pin_cur.
  - apply resume_eq in Hs as [-> _]. left. by destruct c.
  - apply resume_eq in Hs as [-> _]. left. destruct (unpinSnapshotByIndex _ _ _) eqn:E. by eapply unpin_cur.
  - apply resume_eq in Hs as [-> _]. by left.
  - left. destruct cmd; simplify_eq; try done. unfold RefreshCurrentView in Hs. repeat case_match; by simplify_eq.
Qed.

(** A graph in a slot was there, or is the one being prepared or installed. *)
Lemma unpin_storage i c s s' k j sl' g :
  unpinSnapshotByIndex i c s = (s', k) → slots_ s' !! j = Some sl' → storage_ sl' = Some g →
  ∃ sl, slots_ s !! j = Some sl ∧ storage_ sl = Some g.
Proof.
  intros Hs Hl Hg. destruct c as [| | | |[]]; cbn in Hs; repeat case_match; cbn in Hs; simplify_eq;
    first [by eauto | rewrite lookup_set_slot in Hl | cbn in Hl; by eauto];
    case_decide; subst; eauto; destruct (slots_ s !! j) as [sl|] eqn:E; simplify_eq/=; eauto.
Qed.
Lemma pin_storage o c s s' k j sl' g :
  PinCurrentSnapshot o c s = (s', k) → slots_ s' !! j = Some sl' → storage_ sl' = Some g →
  ∃ sl, slots_ s !! j = Some sl ∧ storage_ sl = Some g.
Proof.
  intros Hs Hl Hg. destruct c as [| | | |i c]; cbn in Hs; [repeat case_match; simplify_eq; eauto..|].
  - rewrite lookup_set_slot in Hl; case_decide; subst; eauto.
    destruct (slots_ s !! j) as [sl|] eqn:E; simplify_eq/=; eauto.
  - destruct (unpinSnapshotByIndex i c s) as [s1 []] eqn:E; cbn in Hs; simplify_eq; by eapply unpin_storage.
Qed.

Definition supplies x (g : G) : Prop :=
  (∃ p c, x = Preparing (Some g) p c) ∨ (∃ i p c, x = Replacing i g p c).

Lemma step_storage cmd o x s x' s' j sl' g :
  store_step Clone cmd o x s = (x', s') → slots_ s' !! j = Some sl' → storage_ sl' = Some g →
  (∃ sl, slots_ s !! j = Some sl ∧ storage_ sl = Some g) ∨ supplies x g.
Proof.
  intros Hs Hl Hg. destruct x as [|[]| | | | | | | | | | | | | | |]; cbn [store_step] in Hs;
    try (destruct cmd; simplify_eq; left; by eauto); try (simplify_eq; left; by eauto).
  - apply resume_eq in Hs as [-> _]. left. destruct (PinCurrentSnapshot _ _ _) eqn:E. by eapply pin_storage.
  - apply resume_eq in Hs as [-> _]. left. destruct (unpinSnapshotByIndex _ _ _) eqn:E. by eapply unpin_storage.
  - apply resume_eq in Hs as [-> _]. left.
    destruct c as [c|i|i g0 p c]; cbn in Hl; [destruct (PinCurrentSnapshot _ _ _) as [? []] eqn:E; cbn in Hl; by eapply pin_storage| |].
    + repeat case_match; eauto.
    + destruct (unpinSnapshotByIndex _ _ _) as [? []] eqn:E; cbn in Hl; by eapply unpin_storage.
  - apply resume_eq in Hs as [-> _].
    assert (Hset : ∀ f i, (∀ sl, storage_ (f sl) = storage_ sl ∨ storage_ (f sl) = None ∨ storage_ (f sl) = pg) →
      slots_ (set_slot i f s) !! j = Some sl' →
      (∃ sl, slots_ s !! j = Some sl ∧ storage_ sl = Some g) ∨ supplies (Preparing pg planning c) g).
    { intros f i Hf Hl0. rewrite lookup_set_slot in Hl0. case_decide as Hd; [subst i|by eauto].
      destruct (slots_ s !! j) as [sl|] eqn:E; [|done]. cbn in Hl0. injection Hl0 as <-.
      destruct (Hf sl) as [E1|[E1|E1]]; rewrite E1 in Hg; [by eauto|done|]. subst pg. right. left. by eexists _, _. }
    destruct c as [|i []|i n|i n|i n|i n|i n|i n|i e []]; cbn [PrepareSnapshot] in Hl; unfold getFreeSlot in Hl; cbn in Hl;
      repeat case_match; simplify_eq/=; try (left; by eauto); eapply Hset; [|done| |done| |done| |done| |done| |done| |done| |done| |done| |done| |done]; cbn; auto.
  - apply resume_eq in Hs as [-> _]. left. destruct c as [| | |old n c]; cbn in Hl; eauto.
    destruct (unpinSnapshotByIndex _ _ _) as [? []] eqn:E; cbn in Hl; by eapply unpin_storage.
  - apply resume_eq in Hs as [-> _]. left. destruct (PinCurrentSnapshot _ _ _) eqn:E. by eapply pin_storage.
  - apply resume_eq in Hs as [-> _]. destruct c; cbn [replaceCurrentSnapshotInPlace fst] in Hl; try (left; by eauto);
      rewrite lookup_set_slot in Hl; (case_decide; [subst|left; by eauto]); destruct (slots_ s !! j) as [sl|] eqn:E; simplify_eq/=;
      try (left; by eauto); right; right; by eexists _, _, _.
  - apply resume_eq in Hs as [-> _]. left. destruct (unpinSnapshotByIndex _ _ _) eqn:E. by eapply unpin_storage.
  - apply resume_eq in Hs as [-> _]. left. eauto.
  - left. destruct cmd; simplify_eq; eauto. unfold RefreshCurrentView in Hs.
    destruct (slots_ s !! i) as [sl|] eqn:E; [|simplify_eq; by eauto]. rewrite set_slot_twice in Hs.
    repeat case_match; simplify_eq; rewrite lookup_set_slot in Hl; (case_decide; [|by eauto]); subst;
      rewrite E in Hl; simplify_eq/=; eauto.
Qed.
End effects.
