(* ===== verification/Transactions.v ===== *)
(** * Transactions

    src/transaction/*_transaction.cc, read_snapshot_lease.cc and
    current_graph_write_guard.cc, with their beginnings in
    src/main/execution_slot.cc and the manual checkpoint of
    src/main/checkpoint_coordinator.cc, over the version manager, the snapshot
    store and the write-ahead log.  A method is a machine whose steps are the
    steps of the methods it calls.

    A PropertyGraph is an object in memory: a slot holds a reference to it, and
    what it holds is the list of operations applied to it since the checkpoint
    it was opened from, each with the timestamp of its transaction.  Insert
    transactions apply theirs to the current object in place; the others to a
    private copy. *)

From S2P Require Import Prelude GateWord OperationGate TimestampWindow VersionManager SnapshotStore.
Import OperationGate VersionManager GraphSnapshotStore.

(** How IWalWriter::append ends: it returned true, it returned false and wrote
    nothing, or it threw and the record may be in the file. *)
Inductive wal_answer := WalTrue | WalFalse | WalThrow (written : bool).

(** What the environment decides at a step. [graph_throws]: an operation on a
    graph throws; [endpoint_missing]: an end point of a logged edge is not in the
    graph; [refused]: a checkpoint precondition does not hold. *)
Record env := Env {
  e_vm : oracle; e_store : store_oracle; e_wal : wal_answer; graph_throws : bool;
  endpoint_missing : bool; refused : bool }.

Inductive outcome := Committed | Aborted | Threw (e : exn).

Section transactions.
Context {Op : Type} (changes_planning : Op → bool).

(** An operation in a graph: of a transaction with timestamp [a_ts], which was
    an insert transaction or ([a_update]) another one. *)
Record applied := Applied { a_ts : Z; a_update : bool; a_op : Op }.
Definition graph := list applied.

Record log_record := LogRecord { r_ts : Z; r_update : bool; r_ops : list Op }.

(** [w_graphs] are the graph objects by address.  [w_checkpoint] is what the
    last checkpoint has, [w_log] the records since then.  [w_torn] are the
    timestamps of insert transactions that threw while they applied a record
    already logged; nothing reads it.  [w_dead]: the process has been
    terminated. *)
Record world := World {
  w_vm : vm; w_store : store nat; w_graphs : list graph; w_checkpoint : graph;
  w_log : list log_record; w_torn : list Z; w_dead : bool }.

Definition set_vm v (w : world) : world :=
  World v (w_store w) (w_graphs w) (w_checkpoint w) (w_log w) (w_torn w) (w_dead w).
Definition set_store v (w : world) : world :=
  World (w_vm w) v (w_graphs w) (w_checkpoint w) (w_log w) (w_torn w) (w_dead w).
Definition set_graphs v (w : world) : world :=
  World (w_vm w) (w_store w) v (w_checkpoint w) (w_log w) (w_torn w) (w_dead w).
Definition set_log v (w : world) : world :=
  World (w_vm w) (w_store w) (w_graphs w) (w_checkpoint w) v (w_torn w) (w_dead w).
Definition add_torn ts (w : world) : world :=
  World (w_vm w) (w_store w) (w_graphs w) (w_checkpoint w) (w_log w) (ts :: w_torn w) (w_dead w).
Definition die (w : world) : world :=
  World (w_vm w) (w_store w) (w_graphs w) (w_checkpoint w) (w_log w) (w_torn w) true.

Definition on_vm {pc R} w (r : vm * ctl pc R) : world * ctl pc R := (set_vm r.1 w, r.2).
Definition on_store {pc R} w (r : store nat * ctl pc R) : world * ctl pc R := (set_store r.1 w, r.2).

Definition graph_at w (g : nat) : graph := default [] (w_graphs w !! g).
Definition slot_graph w (i : nat) : graph :=
  match slots_ (w_store w) !! i with
  | Some sl => match storage_ sl with Some g => graph_at w g | None => [] end
  | None => []
  end.
Definition slot_generation w (i : nat) : Z :=
  match slots_ (w_store w) !! i with Some sl => snapshot_generation_ sl | None => 0 end.
Definition slot_planning w (i : nat) : Z :=
  match slots_ (w_store w) !! i with Some sl => planning_generation_ sl | None => 0 end.

(** A graph object for a private copy. *)
Definition new_graph (l : graph) w : nat * world :=
  (length (w_graphs w), set_graphs (w_graphs w ++ [l]) w).

(** [append] of the writer; [None] is the exception. *)
Definition append_wal (a : wal_answer) (r : log_record) w : world * option bool :=
  match a with
  | WalTrue => (set_log (w_log w ++ [r]) w, Some true)
  | WalFalse => (w, Some false)
  | WalThrow written => (if written then set_log (w_log w ++ [r]) w else w, None)
  end.

(** ** Read leases *)

Inductive acquire_lease_pc :=
  | LA_operation (c : read_pc)
  | LA_pin (view : PublishedReadView) (c : pin_pc)
  | LA_compare (view : PublishedReadView) (i : nat)
  | LA_unpin (view : PublishedReadView) (i : nat) (c : unpin_pc)
  | LA_leave (c : release_pc)
  | LA_wait.

(** The waiting strategy of [RuntimeBackoff] has no effect on the state. *)
Definition ReadSnapshotLease_Acquire (e : env) (c : acquire_lease_pc) w
  : world * ctl acquire_lease_pc (PublishedReadView * nat) :=
  match c with
  | LA_operation c =>
      call LA_operation (λ view, Goto (LA_pin view PIN_cur))
        (on_vm w (acquire_read_operation (e_vm e) c (w_vm w)))
  | LA_pin view c =>
      call (LA_pin view) (λ i, Goto (LA_compare view i))
        (on_store w (PinCurrentSnapshot (e_store e) c (w_store w)))
  | LA_compare view i =>
      (w, if slot_generation w i =? snapshot_generation view then Return (view, i)
          else Goto (LA_unpin view i UN_sub))
  | LA_unpin view i c =>
      call (LA_unpin view i) (λ _, Goto (LA_leave REL_check))
        (on_store w (unpinSnapshotByIndex i c (w_store w)))
  | LA_leave c =>
      call LA_leave (λ _, Goto LA_wait) (on_vm w (on_gate (release_shared (e_vm e) c) (w_vm w)))
  | LA_wait => (w, Goto (LA_operation (RO_admit AS_load)))
  end.

Inductive release_lease_pc := RL_unpin (c : unpin_pc) | RL_leave (c : release_pc).

(** Of a lease that is held; also the end of a read transaction. *)
Definition ReadSnapshotLease_release (i : nat) (e : env) (c : release_lease_pc) w
  : world * ctl release_lease_pc unit :=
  match c with
  | RL_unpin c =>
      call RL_unpin (λ _, Goto (RL_leave REL_check)) (on_store w (unpinSnapshotByIndex i c (w_store w)))
  | RL_leave c =>
      call RL_leave Return (on_vm w (on_gate (release_shared (e_vm e) c) (w_vm w)))
  end.

(** ** Insert transactions *)

Inductive begin_insert_pc := BI_timestamp (c : insert_pc) | BI_pin (ts : Z) (c : pin_pc).

Definition BeginMvccInsertTransaction (e : env) (c : begin_insert_pc) w
  : world * ctl begin_insert_pc (Z * nat) :=
  match c with
  | BI_timestamp c =>
      call BI_timestamp (λ ts, Goto (BI_pin ts PIN_cur))
        (on_vm w (acquire_insert_timestamp (e_vm e) c (w_vm w)))
  | BI_pin ts c =>
      call (BI_pin ts) (λ i, Return (ts, i)) (on_store w (PinCurrentSnapshot (e_store e) c (w_store w)))
  end.

(** One operation of [IngestWal], through the writable view of the slot. *)
Definition ingest (i : nat) (a : applied) w : option world :=
  match slots_ (w_store w) !! i with
  | Some sl =>
      match view_ sl with
      | Some g => Some (set_graphs (alter (λ l, l ++ [a]) g (w_graphs w)) w)
      | None => None
      end
  | None => None
  end.

Inductive insert_commit_pc :=
  | IC_start
  | IC_append
  | IC_ingest (rest : list Op)
  | IC_unpin (out : outcome) (c : unpin_pc)
  | IC_release (out : outcome) (c : insert_end_pc).

(** [Commit]; [Abort] starts at [IC_unpin Aborted].  An operation of [IngestWal]
    ends the process when an end point of its edge is not found (the two
    [CHECK]s), and throws when the graph refuses it: the exception leaves
    [Commit], and the destructor aborts. *)
Definition MvccInsertTransaction_Commit (ts : Z) (i : nat) (arc : list Op) (e : env)
    (c : insert_commit_pc) w : world * ctl insert_commit_pc outcome :=
  match c with
  | IC_start =>
      (w, match arc with [] => Goto (IC_unpin Committed UN_sub) | _ => Goto IC_append end)
  | IC_append =>
      match append_wal (e_wal e) (LogRecord ts false arc) w with
      | (w, Some true) => (w, Goto (IC_ingest arc))
      | (w, Some false) => (w, Goto (IC_unpin Aborted UN_sub))
      | (w, None) => (w, Raise CheckFailed)
      end
  | IC_ingest [] => (w, Goto (IC_unpin Committed UN_sub))
  | IC_ingest (op :: rest) =>
      if endpoint_missing e then (w, Raise CheckFailed)
      else if graph_throws e then (add_torn ts w, Goto (IC_unpin (Threw StorageError) UN_sub))
      else match ingest i (Applied ts false op) w with
           | Some w => (w, Goto (IC_ingest rest))
           | None => (w, Raise OutOfBounds)
           end
  | IC_unpin out c =>
      call (IC_unpin out) (λ _, Goto (IC_release out (RIT_complete CW_mark)))
        (on_store w (unpinSnapshotByIndex i c (w_store w)))
  | IC_release out c =>
      call (IC_release out) (λ _, Return out)
        (on_vm w (release_insert_timestamp ts (e_vm e) c (w_vm w)))
  end.

(** ** Copy-on-write transactions on a snapshot *)

(** [CowGraphWorkspace]: the private graph, the planning generation of its
    base, the logical redo, and whether temporary tables were changed. *)
Record workspace := Workspace {
  ws_graph : graph; base_planning_generation : Z; logical_redo : list Op; transient : bool }.

(** An operation of a copy-on-write storage: it is applied and logged. *)
Definition edit (ts : Z) (op : Op) (ws : workspace) : workspace :=
  Workspace (ws_graph ws ++ [Applied ts true op]) (base_planning_generation ws)
    (logical_redo ws ++ [op]) (transient ws).
Definition mark_transient (ws : workspace) : workspace :=
  Workspace (ws_graph ws) (base_planning_generation ws) (logical_redo ws) true.

Definition PlanningChanged (ws : workspace) : bool :=
  existsb changes_planning (logical_redo ws) || transient ws.
Definition planning_exhausted (ws : workspace) : bool :=
  PlanningChanged ws && (base_planning_generation ws =? 2^64 - 1).
Definition committed_planning_generation (ws : workspace) : Z :=
  u64 (base_planning_generation ws + if PlanningChanged ws then 1 else 0).

Inductive begin_cow_pc :=
  | BC_timestamp (c : update_pc)
  | BC_try (c : try_update_pc)
  | BC_clone (ts : Z) (c : clone_pc (G := nat)) (copy : graph).

(** [BeginSnapshotCowWriteTransaction] starts at [BC_timestamp],
    [TryBeginSnapshotCowWriteTransaction] at [BC_try].  The graph is copied
    while its slot is pinned. *)
Definition BeginSnapshotCowWriteTransaction (e : env) (c : begin_cow_pc) w
  : world * ctl begin_cow_pc (option (Z * workspace)) :=
  match c with
  | BC_timestamp c =>
      call BC_timestamp (λ ts, Goto (BC_clone ts (CC_pin PIN_cur) []))
        (on_vm w (acquire_update_timestamp (e_vm e) c (w_vm w)))
  | BC_try c =>
      call BC_try (λ r, match r with
                        | Some ts => Goto (BC_clone ts (CC_pin PIN_cur) [])
                        | None => Return None
                        end)
        (on_vm w (try_acquire_update_timestamp (e_vm e) c (w_vm w)))
  | BC_clone ts c copy =>
      let copy := match c with CC_read i => slot_graph w i | _ => copy end in
      call (λ c, BC_clone ts c copy) (λ r, Return (Some (ts, Workspace copy r.2 [] false)))
        (on_store w (CloneCurrentForUpdate id (e_store e) c (w_store w)))
  end.

Inductive prepare_commit_pc :=
  | PC_start
  | PC_prepare (g : nat) (c : prepare_pc)
  | PC_release (out : outcome) (c : finish_pc).

(** [PrepareCommit].  It ends with the slot of the prepared snapshot, or with the
    transaction released; an exception of [PrepareSnapshot] reaches the
    destructor, which aborts. *)
Definition SnapshotCow_PrepareCommit (ts : Z) (ws : workspace) (e : env) (c : prepare_commit_pc) w
  : world * ctl prepare_commit_pc (outcome + nat) :=
  match c with
  | PC_start =>
      match logical_redo ws with
      | [] => (w, Goto (PC_release Committed FU_generation))
      | _ =>
          if planning_exhausted ws then (w, Goto (PC_release Aborted FU_generation))
          else let '(g, w) := new_graph (ws_graph ws) w in (w, Goto (PC_prepare g PR_slot))
      end
  | PC_prepare g c =>
      match on_store w (PrepareSnapshot (Some g) (committed_planning_generation ws) (e_store e) c (w_store w)) with
      | (w, Goto c) => (w, Goto (PC_prepare g c))
      | (w, Return (Some i)) => (w, Return (inr i))
      | (w, Return None) => (w, Goto (PC_release Aborted FU_generation))
      | (w, Raise x) => (w, Goto (PC_release (Threw x) FU_generation))
      end
  | PC_release out c =>
      call (PC_release out) (λ _, Return (inl out))
        (on_vm w (finish_update_timestamp ts None (e_vm e) c (w_vm w)))
  end.

Inductive abort_pc := AB_discard (c : unpin_pc) | AB_release (c : finish_pc).

(** [Abort] with a prepared snapshot in slot [i]; without one it starts at
    [AB_release]. *)
Definition SnapshotCow_Abort (ts : Z) (i : nat) (e : env) (c : abort_pc) w : world * ctl abort_pc unit :=
  match c with
  | AB_discard c =>
      call AB_discard (λ _, Goto (AB_release FU_generation))
        (on_store w (unpinSnapshotByIndex i c (w_store w)))
  | AB_release c =>
      call AB_release Return (on_vm w (finish_update_timestamp ts None (e_vm e) c (w_vm w)))
  end.

Inductive commit_prepared_pc :=
  | CP_append
  | CP_begin (c : phase_pc)
  | CP_publish (c : publish_pc)
  | CP_release (generation : Z) (c : finish_pc)
  | CP_abort (c : abort_pc).

Definition SnapshotCow_CommitPrepared (ts : Z) (ws : workspace) (i : nat) (e : env)
    (c : commit_prepared_pc) w : world * ctl commit_prepared_pc bool :=
  match c with
  | CP_append =>
      match append_wal (e_wal e) (LogRecord ts true (logical_redo ws)) w with
      | (w, Some true) => (w, Goto (CP_begin PH_load))
      | (w, Some false) => (w, Goto (CP_abort (AB_discard UN_sub)))
      | (w, None) => (w, Raise CheckFailed)
      end
  | CP_begin c =>
      call CP_begin (λ _, Goto (CP_publish PU_generation))
        (on_vm w (begin_update_commit (e_vm e) c (w_vm w)))
  | CP_publish c =>
      call CP_publish (λ g, Goto (CP_release g FU_generation)) (on_store w (Publish i c (w_store w)))
  | CP_release g c =>
      call (CP_release g) (λ _, Return true)
        (on_vm w (finish_update_timestamp ts (Some g) (e_vm e) c (w_vm w)))
  | CP_abort c => call CP_abort (λ _, Return false) (SnapshotCow_Abort ts i e c w)
  end.

(** ** Exclusive writers *)

Inductive exclusive_pc := ME_start | ME_begin (c : phase_pc) | ME_started | ME_drain (c : drain_pc).

(** [MakeUpdateExclusive] of a lease whose commit has not started. *)
Definition MakeUpdateExclusive (e : env) (c : exclusive_pc) w : world * ctl exclusive_pc unit :=
  match c with
  | ME_start => (w, Goto (ME_begin PH_load))
  | ME_begin c =>
      call ME_begin (λ _, Goto ME_started) (on_vm w (begin_update_commit (e_vm e) c (w_vm w)))
  | ME_started => (w, Goto (ME_drain DR_check))
  | ME_drain c => call ME_drain Return (on_vm w (drain_readers (e_vm e) c (w_vm w)))
  end.

Inductive guard_pc :=
  | GA_timestamp (c : update_pc)
  | GA_exclusive (ts : Z) (c : exclusive_pc)
  | GA_pin (ts : Z) (c : pin_pc).

Definition CurrentGraphWriteGuard_Acquire (e : env) (c : guard_pc) w
  : world * ctl guard_pc (Z * nat) :=
  match c with
  | GA_timestamp c =>
      call GA_timestamp (λ ts, Goto (GA_exclusive ts ME_start))
        (on_vm w (acquire_update_timestamp (e_vm e) c (w_vm w)))
  | GA_exclusive ts c =>
      call (GA_exclusive ts) (λ _, Goto (GA_pin ts PIN_cur)) (MakeUpdateExclusive e c w)
  | GA_pin ts c =>
      call (GA_pin ts) (λ i, Return (ts, i)) (on_store w (PinCurrentSnapshot (e_store e) c (w_store w)))
  end.

Inductive guard_release_pc := GR_unpin (c : unpin_pc) | GR_finish (c : finish_pc).

Definition CurrentGraphWriteGuard_release (ts : Z) (i : nat) (installed : option Z) (e : env)
    (c : guard_release_pc) w : world * ctl guard_release_pc unit :=
  match c with
  | GR_unpin c =>
      call GR_unpin (λ _, Goto (GR_finish FU_generation))
        (on_store w (unpinSnapshotByIndex i c (w_store w)))
  | GR_finish c =>
      call GR_finish Return (on_vm w (finish_update_timestamp ts installed (e_vm e) c (w_vm w)))
  end.

(** [CurrentCowWriteTransaction::Begin] on the slot of the guard. *)
Definition CurrentCow_Begin (i : nat) w : workspace :=
  Workspace (slot_graph w i) (slot_planning w i) [] false.

Inductive current_commit_pc :=
  | KC_start
  | KC_prepare
  | KC_append (g : nat)
  | KC_replace (g : nat) (c : replace_pc)
  | KC_committed
  | KC_release (out : outcome) (installed : option Z) (c : guard_release_pc).

(** [Commit], with [PrepareCommit], [CommitTransient] (an empty redo and a
    transient change), [replaceCurrentSnapshot] and [release]; [Abort] starts at
    [KC_release Aborted None].  A workspace with bulk mutations is committed by
    a checkpoint and does not get here. *)
Definition CurrentCow_Commit (ts : Z) (i : nat) (ws : workspace) (e : env) (c : current_commit_pc) w
  : world * ctl current_commit_pc outcome :=
  match c with
  | KC_start =>
      (w, match logical_redo ws with
          | [] => if transient ws then Goto KC_prepare
                  else Goto (KC_release Committed None (GR_unpin UN_sub))
          | _ => Goto KC_prepare
          end)
  | KC_prepare =>
      if planning_exhausted ws || graph_throws e
      then (w, Goto (KC_release Aborted None (GR_unpin UN_sub)))
      else let '(g, w) := new_graph (ws_graph ws) w in
           (w, match logical_redo ws with [] => Goto (KC_replace g RP_cur) | _ => Goto (KC_append g) end)
  | KC_append g =>
      match append_wal (e_wal e) (LogRecord ts true (logical_redo ws)) w with
      | (w, Some true) => (w, Goto (KC_replace g RP_cur))
      | (w, Some false) => (w, Goto (KC_release Aborted None (GR_unpin UN_sub)))
      | (w, None) => (w, Raise CheckFailed)
      end
  | KC_replace g c =>
      call (KC_replace g) (λ _, Goto KC_committed)
        (on_store w (replaceCurrentSnapshotInPlace i g (committed_planning_generation ws) c (w_store w)))
  | KC_committed => (w, Goto (KC_release Committed (Some (slot_generation w i)) (GR_unpin UN_sub)))
  | KC_release out g c =>
      call (KC_release out g) (λ _, Return out) (CurrentGraphWriteGuard_release ts i g e c w)
  end.

(** ** Manual checkpoints *)

(** What the callback of [execute] leaves when it succeeds: the content of the
    graph is in the checkpoint, the graph is reopened from it, and the writers
    append to the log of the new checkpoint. *)
Definition take_checkpoint (g : nat) w : world :=
  World (w_vm w) (w_store w) (<[g:=[]]> (w_graphs w)) (w_checkpoint w ++ graph_at w g) [] [] (w_dead w).

Inductive checkpoint_pc :=
  | CK_timestamp (c : update_pc)
  | CK_exclusive (ts : Z) (c : exclusive_pc)
  | CK_maintain (ts : Z) (c : maintenance_pc)
  | CK_callback (ts : Z) (i : nat)
  | CK_refresh (ts : Z) (i : nat)
  | CK_end (ts : Z) (i : nat)
  | CK_reset (ts : Z) (c : reset_pc)
  | CK_finish (ts : Z) (c : finish_pc).

(** [PublishManualCheckpoint] on a new lease, with [execute].  A failure before
    the graph is consumed releases the lease by its destructor; a later one
    terminates the process. *)
Definition PublishManualCheckpoint (e : env) (c : checkpoint_pc) w : world * ctl checkpoint_pc bool :=
  match c with
  | CK_timestamp c =>
      call CK_timestamp (λ ts, Goto (CK_exclusive ts ME_start))
        (on_vm w (acquire_update_timestamp (e_vm e) c (w_vm w)))
  | CK_exclusive ts c =>
      call (CK_exclusive ts) (λ _, Goto (CK_maintain ts MT_cur)) (MakeUpdateExclusive e c w)
  | CK_maintain ts c =>
      match on_store w (WithCheckpointMaintenance c (w_store w)) with
      | (w, Goto c) => (w, Goto (CK_maintain ts c))
      | (w, Return i) => (w, Goto (CK_callback ts i))
      | (w, Raise InternalError) => (w, Goto (CK_finish ts FU_generation))
      | (w, Raise x) => (w, Raise x)
      end
  | CK_callback ts i =>
      if refused e then (w, Goto (CK_finish ts FU_generation))
      else if graph_throws e then (w, Raise CheckFailed)
      else match slots_ (w_store w) !! i with
           | Some sl =>
               match storage_ sl with
               | Some g => (take_checkpoint g w, Goto (CK_refresh ts i))
               | None => (w, Raise OutOfBounds)
               end
           | None => (w, Raise OutOfBounds)
           end
  | CK_refresh ts i =>
      match RefreshCurrentView i true (w_store w) with
      | (s, Ok _) => (set_store s w, Goto (CK_end ts i))
      | (s, Throw x) => (set_store s w, Raise x)
      end
  | CK_end ts i => (w, Goto (CK_reset ts FR_gate))
  | CK_reset ts c =>
      call (CK_reset ts) (λ _, Return true)
        (on_vm w (finish_update_and_reset_timeline ts (e_vm e) c (w_vm w)))
  | CK_finish ts c =>
      call (CK_finish ts) (λ _, Return false)
        (on_vm w (finish_update_timestamp ts None (e_vm e) c (w_vm w)))
  end.

(** ** Compaction in place *)

Inductive begin_compaction_pc := BK_timestamp (c : compact_pc) | BK_pin (ts : Z) (c : pin_pc).

Definition BeginInPlaceCompactionTransaction (e : env) (c : begin_compaction_pc) w
  : world * ctl begin_compaction_pc (Z * nat) :=
  match c with
  | BK_timestamp c =>
      call BK_timestamp (λ ts, Goto (BK_pin ts PIN_cur))
        (on_vm w (acquire_compact_timestamp (e_vm e) c (w_vm w)))
  | BK_pin ts c =>
      call (BK_pin ts) (λ i, Return (ts, i)) (on_store w (PinCurrentSnapshot (e_store e) c (w_store w)))
  end.

Inductive compaction_pc :=
  | KM_append
  | KM_compact
  | KM_unpin (revert : bool) (c : unpin_pc)
  | KM_release (revert : bool) (c : compact_end_pc).

(** [Commit]; [Abort] starts at [KM_unpin true], also from the destructor when
    compacting throws.  The record has no content, and compacting a graph in
    place, as far as it gets, keeps what the graph holds. *)
Definition InPlaceCompaction_Commit (ts : Z) (i : nat) (e : env) (c : compaction_pc) w
  : world * ctl compaction_pc bool :=
  match c with
  | KM_append =>
      match append_wal (e_wal e) (LogRecord ts true []) w with
      | (w, Some true) => (w, Goto KM_compact)
      | (w, Some false) => (w, Goto (KM_unpin true UN_sub))
      | (w, None) => (w, Raise CheckFailed)
      end
  | KM_compact => (w, Goto (KM_unpin (graph_throws e) UN_sub))
  | KM_unpin revert c =>
      call (KM_unpin revert) (λ _, Goto (KM_release revert RC_check))
        (on_store w (unpinSnapshotByIndex i c (w_store w)))
  | KM_release false c =>
      call (KM_release false) (λ _, Return true)
        (on_vm w (release_compact_timestamp ts (e_vm e) c (w_vm w)))
  | KM_release true c =>
      call (KM_release true) (λ _, Return false)
        (on_vm w (revert_compact_timestamp ts (e_vm e) c (w_vm w)))
  end.
End transactions.
Arguments applied : clear implicits. Arguments graph : clear implicits.
Arguments log_record : clear implicits. Arguments world : clear implicits.
Arguments workspace : clear implicits. Arguments insert_commit_pc : clear implicits.
Arguments begin_cow_pc : clear implicits.
