(* ===== verification/TransactionThreads.v ===== *)
(** * Concurrent transactions

    Any number of clients that begin, edit, commit and abort transactions of
    every kind, in any interleaving of the steps of Transactions; what each of
    them is doing at the version manager and at the snapshot store; and the
    proof that it respects the protocols those components rely on. *)

From S2P Require Import Prelude GateWord OperationGate GateProtocol TimestampWindow VersionManager VersionThreads Timeline VersionSystem VersionProperties SnapshotStore SnapshotThreads SnapshotInvariant SnapshotProperties Transactions.
Import OperationGate VersionManager GraphSnapshotStore.

(** What a client does next where the code leaves a choice. *)
Inductive txn_cmd (Op : Type) :=
  | BeginRead | BeginInsert | BeginUpdate (try : bool) | AcquireGuard | BeginCheckpoint | BeginCompaction
  | BeginCurrent | Edit (op : Op) | Transient | Commit | Abort.
Arguments BeginRead {Op}. Arguments BeginInsert {Op}. Arguments BeginUpdate {Op}.
Arguments AcquireGuard {Op}. Arguments BeginCheckpoint {Op}. Arguments BeginCompaction {Op}.
Arguments BeginCurrent {Op}. Arguments Edit {Op}. Arguments Transient {Op}.
Arguments Commit {Op}. Arguments Abort {Op}.

Inductive txn (Op : Type) :=
  | TIdle
  | TFailed (e : exn)
  | TAcquire (c : acquire_lease_pc)
  | TLease (view : PublishedReadView) (i : nat)
  | TRelease (view : PublishedReadView) (i : nat) (c : release_lease_pc)
  | TInsertBegin (c : begin_insert_pc)
  | TInsert (ts : Z) (i : nat) (arc : list Op)
  | TInsertCommit (ts : Z) (i : nat) (arc : list Op) (c : insert_commit_pc Op)
  | TCowBegin (c : begin_cow_pc Op)
  | TCow (ts : Z) (ws : workspace Op)
  | TCowPrepare (ts : Z) (ws : workspace Op) (c : prepare_commit_pc)
  | TCowPrepared (ts : Z) (ws : workspace Op) (i : nat)
  | TCowCommit (ts : Z) (ws : workspace Op) (i : nat) (c : commit_prepared_pc)
  | TCowAbort (ts : Z) (i : nat) (c : abort_pc)
  | TGuardAcquire (c : guard_pc)
  | TGuard (ts : Z) (i : nat)
  | TGuardRelease (ts : Z) (i : nat) (c : guard_release_pc)
  | TCurrent (ts : Z) (i : nat) (ws : workspace Op)
  | TCurrentCommit (ts : Z) (i : nat) (ws : workspace Op) (c : current_commit_pc)
  | TCheckpoint (c : checkpoint_pc)
  | TCompactBegin (c : begin_compaction_pc)
  | TCompact (ts : Z) (i : nat)
  | TCompactCommit (ts : Z) (i : nat) (c : compaction_pc).
Arguments TIdle {Op}. Arguments TFailed {Op}. Arguments TAcquire {Op}. Arguments TLease {Op}.
Arguments TRelease {Op}. Arguments TInsertBegin {Op}. Arguments TInsert {Op}. Arguments TInsertCommit {Op}.
Arguments TCowBegin {Op}. Arguments TCow {Op}. Arguments TCowPrepare {Op}. Arguments TCowPrepared {Op}.
Arguments TCowCommit {Op}. Arguments TCowAbort {Op}. Arguments TGuardAcquire {Op}. Arguments TGuard {Op}.
Arguments TGuardRelease {Op}. Arguments TCurrent {Op}. Arguments TCurrentCommit {Op}.
Arguments TCheckpoint {Op}. Arguments TCompactBegin {Op}. Arguments TCompact {Op}. Arguments TCompactCommit {Op}.

Section threads.
Context {Op : Type} (changes_planning : Op → bool).
Implicit Types (w : world Op) (y : txn Op) (ws : workspace Op).

(** A failed [CHECK] and [LOG(FATAL)] terminate the process. *)
Definition fatal (e : exn) : bool := match e with CheckFailed | OutOfBounds => true | _ => false end.

Definition proceed {pc R} (inj : pc → txn Op) (ret : R → txn Op) y (r : world Op * ctl pc R)
  : txn Op * world Op :=
  match r with
  | (w, Goto c) => (inj c, w)
  | (w, Return v) => (ret v, w)
  | (w, Raise e) => if fatal e then (y, die w) else (TFailed e, w)
  end.

Definition begin_txn (cmd : txn_cmd Op) : txn Op :=
  match cmd with
  | BeginRead => TAcquire (LA_operation (RO_admit AS_load))
  | BeginInsert => TInsertBegin (BI_timestamp (AIT_admit AI_load))
  | BeginUpdate false => TCowBegin (BC_timestamp (AU_enter PH_load))
  | BeginUpdate true => TCowBegin (BC_try (TA_enter TE_load))
  | AcquireGuard => TGuardAcquire (GA_timestamp (AU_enter PH_load))
  | BeginCheckpoint => TCheckpoint (CK_timestamp (AU_enter PH_load))
  | BeginCompaction => TCompactBegin (BK_timestamp (AC_enter PH_load))
  | _ => TIdle
  end.

Definition txn_step (cmd : txn_cmd Op) (e : env) y w : txn Op * world Op :=
  match y with
  | TIdle => (begin_txn cmd, w)
  | TFailed _ => (y, w)
  | TAcquire c => proceed TAcquire (λ r, TLease r.1 r.2) y (ReadSnapshotLease_Acquire e c w)
  | TLease view i =>
      (match cmd with Commit | Abort => TRelease view i (RL_unpin UN_sub) | _ => y end, w)
  | TRelease view i c =>
      proceed (TRelease view i) (λ _, TIdle) y (ReadSnapshotLease_release i e c w)
  | TInsertBegin c =>
      proceed TInsertBegin (λ r, TInsert r.1 r.2 []) y (BeginMvccInsertTransaction e c w)
  | TInsert ts i arc =>
      (match cmd with
       | Edit op => TInsert ts i (arc ++ [op])
       | Commit => TInsertCommit ts i arc IC_start
       | Abort => TInsertCommit ts i arc (IC_unpin Aborted UN_sub)
       | _ => y
       end, w)
  | TInsertCommit ts i arc c =>
      proceed (TInsertCommit ts i arc) (λ _, TIdle) y (MvccInsertTransaction_Commit ts i arc e c w)
  | TCowBegin c =>
      proceed TCowBegin (λ r, match r with Some (ts, ws) => TCow ts ws | None => TIdle end) y
        (BeginSnapshotCowWriteTransaction e c w)
  | TCow ts ws =>
      (match cmd with
       | Edit op => TCow ts (edit ts op ws)
       | Transient => TCow ts (mark_transient ws)
       | Commit => TCowPrepare ts ws PC_start
       | Abort => TCowAbort ts 0 (AB_release FU_generation)
       | _ => y
       end, w)
  | TCowPrepare ts ws c =>
      proceed (TCowPrepare ts ws)
        (λ r, match r with inr i => TCowPrepared ts ws i | inl _ => TIdle end) y
        (SnapshotCow_PrepareCommit changes_planning ts ws e c w)
  | TCowPrepared ts ws i =>
      (match cmd with
       | Commit => TCowCommit ts ws i CP_append
       | Abort => TCowAbort ts i (AB_discard UN_sub)
       | _ => y
       end, w)
  | TCowCommit ts ws i c =>
      proceed (TCowCommit ts ws i) (λ _, TIdle) y (SnapshotCow_CommitPrepared ts ws i e c w)
  | TCowAbort ts i c => proceed (TCowAbort ts i) (λ _, TIdle) y (SnapshotCow_Abort ts i e c w)
  | TGuardAcquire c =>
      proceed TGuardAcquire (λ r, TGuard r.1 r.2) y (CurrentGraphWriteGuard_Acquire e c w)
  | TGuard ts i =>
      (match cmd with
       | BeginCurrent => TCurrent ts i (CurrentCow_Begin i w)
       | Abort => TGuardRelease ts i (GR_unpin UN_sub)
       | _ => y
       end, w)
  | TGuardRelease ts i c =>
      proceed (TGuardRelease ts i) (λ _, TIdle) y (CurrentGraphWriteGuard_release ts i None e c w)
  | TCurrent ts i ws =>
      (match cmd with
       | Edit op => TCurrent ts i (edit ts op ws)
       | Transient => TCurrent ts i (mark_transient ws)
       | Commit => TCurrentCommit ts i ws KC_start
       | Abort => TCurrentCommit ts i ws (KC_release Aborted None (GR_unpin UN_sub))
       | _ => y
       end, w)
  | TCurrentCommit ts i ws c =>
      proceed (TCurrentCommit ts i ws) (λ _, TIdle) y (CurrentCow_Commit changes_planning ts i ws e c w)
  | TCheckpoint c => proceed TCheckpoint (λ _, TIdle) y (PublishManualCheckpoint e c w)
  | TCompactBegin c =>
      proceed TCompactBegin (λ r, TCompact r.1 r.2) y (BeginInPlaceCompactionTransaction e c w)
  | TCompact ts i =>
      (match cmd with
       | Commit => TCompactCommit ts i KM_append
       | Abort => TCompactCommit ts i (KM_unpin true UN_sub)
       | _ => y
       end, w)
  | TCompactCommit ts i c =>
      proceed (TCompactCommit ts i) (λ _, TIdle) y (InPlaceCompaction_Commit ts i e c w)
  end.

Record system := System { sw : world Op; txns : list (txn Op) }.

(** One client makes a step, while the process lives. *)
Inductive txn_trans : system → system → Prop :=
  | txn_trans_intro w ts t y cmd e y' w' :
      w_dead w = false → ts !! t = Some y → txn_step cmd e y w = (y', w') →
      txn_trans (System w ts) (System w' (<[t:=y']> ts)).

(** The database after opening: the version manager starts at the timestamp
    and generation of the recovered graph, which is in slot 0. *)
Definition system_init (slot_num : nat) (view : PublishedReadView) (n : nat) : system :=
  System (World (match init_ts view vm_default with Ok s => s | Throw _ => vm_default end)
            (init slot_num 0%nat (snapshot_generation view)) [[]] [] [] [] false)
         (replicate n TIdle).

Definition system_run (sched : list (nat * txn_cmd Op * env)) (st : system) : system :=
  foldl (λ st '(t, cmd, e),
    match txns st !! t with
    | Some y =>
        if w_dead (sw st) then st
        else let '(y', w') := txn_step cmd e y (sw st) in System w' (<[t:=y']> (txns st))
    | None => st
    end) st sched.

Lemma system_run_star sched st : star txn_trans st (system_run sched st).
Proof.
  revert st. induction sched as [|[[t cmd] e] sched IH]; intros st; [constructor|].
  cbn [system_run foldl]. destruct (txns st !! t) as [y|] eqn:Hy; [|by apply IH].
  destruct (w_dead (sw st)) eqn:Hd; [by apply IH|].
  destruct (txn_step cmd e y (sw st)) as [y' w'] eqn:Hs.
  eapply star_trans; [|by apply IH]. eapply star_snoc; [constructor|].
  destruct st. by econstructor.
Qed.

(** ** What a client is doing at the version manager and at the store *)

Definition exclusive_vm (ts : Z) (c : exclusive_pc) : vm_thread :=
  match c with
  | ME_start => VUpd ts | ME_begin c => VUpdBegin ts c | ME_started => VUpdCommit ts
  | ME_drain c => VUpdDrain ts c
  end.

Definition vm_of y : vm_thread :=
  match y with
  | TFailed e => VFailed e
  | TAcquire (LA_operation c) => VReadOp c
  | TAcquire (LA_pin view _ | LA_compare view _ | LA_unpin view _ _) | TLease view _
  | TRelease view _ (RL_unpin _) => VReader view
  | TAcquire (LA_leave c) | TRelease _ _ (RL_leave c) => VReadEnd c
  | TInsertBegin (BI_timestamp c) => VInsOp c
  | TInsertCommit ts _ _ (IC_release _ c) => VInsEnd ts c
  | TInsertBegin (BI_pin ts _) | TInsert ts _ _ | TInsertCommit ts _ _ _ => VInserter ts
  | TCowBegin (BC_timestamp c) | TGuardAcquire (GA_timestamp c) | TCheckpoint (CK_timestamp c) => VUpdOp c
  | TCowBegin (BC_try c) => VTryOp c
  | TCowPrepare ts _ (PC_release _ c) | TCowAbort ts _ (AB_release c)
  | TCowCommit ts _ _ (CP_abort (AB_release c)) => VUpdFinish ts None false c
  | TCowCommit ts _ _ (CP_begin c) => VUpdBegin ts c
  | TCowCommit ts _ _ (CP_publish _) => VUpdCommit ts
  | TCowCommit ts _ _ (CP_release g c) => VUpdFinish ts (Some g) true c
  | TCowBegin (BC_clone ts _ _) | TCow ts _ | TCowPrepare ts _ _ | TCowPrepared ts _ _
  | TCowCommit ts _ _ _ | TCowAbort ts _ _ => VUpd ts
  | TGuardAcquire (GA_exclusive ts c) | TCheckpoint (CK_exclusive ts c) => exclusive_vm ts c
  | TGuardRelease ts _ (GR_finish c) | TCheckpoint (CK_finish ts c) => VUpdFinish ts None true c
  | TCurrentCommit ts _ _ (KC_release _ g (GR_finish c)) => VUpdFinish ts g true c
  | TCheckpoint (CK_reset ts c) => VUpdReset ts c
  | TGuardAcquire (GA_pin ts _) | TGuard ts _ | TGuardRelease ts _ _ | TCurrent ts _ _
  | TCurrentCommit ts _ _ _
  | TCheckpoint (CK_maintain ts _ | CK_callback ts _ | CK_refresh ts _ | CK_end ts _) => VUpdExcl ts
  | TCompactBegin (BK_timestamp c) => VCmpOp c
  | TCompactCommit ts _ (KM_release revert c) => VCmpEnd ts revert c
  | TCompactBegin (BK_pin ts _) | TCompact ts _ | TCompactCommit ts _ _ => VCmp ts
  | _ => VIdle
  end.

Definition store_of y : store_thread nat :=
  match y with
  | TAcquire (LA_pin _ c) | TInsertBegin (BI_pin _ c) => Pinning c
  | TAcquire (LA_compare _ i) | TLease _ i | TInsert _ i _ => Pinned i
  | TAcquire (LA_unpin _ i c) | TRelease _ i (RL_unpin c) | TInsertCommit _ i _ (IC_unpin _ c)
  | TCowAbort _ i (AB_discard c) | TCowCommit _ _ i (CP_abort (AB_discard c)) => Unpinning i c
  | TInsertCommit _ _ _ (IC_release _ _) => Idle
  | TInsertCommit _ i _ _ => Pinned i
  | TCowBegin (BC_clone _ c _) => Cloning c
  | TCowPrepare _ ws (PC_prepare g c) => Preparing (Some g) (committed_planning_generation changes_planning ws) c
  | TCowPrepared _ _ i | TCowCommit _ _ i (CP_append | CP_begin _) => Prepared i
  | TCowCommit _ _ i (CP_publish c) => Publishing i c
  | TGuardAcquire (GA_pin _ c) | TCompactBegin (BK_pin _ c) => XPinning c
  | TGuard _ i | TCurrent _ i _
  | TCurrentCommit _ i _ (KC_start | KC_prepare | KC_append _ | KC_committed) => XPinned i
  | TCurrentCommit _ i ws (KC_replace g c) =>
      Replacing i g (committed_planning_generation changes_planning ws) c
  | TGuardRelease _ i (GR_unpin c) | TCurrentCommit _ i _ (KC_release _ _ (GR_unpin c))
  | TCompactCommit _ i (KM_unpin _ c) => XUnpinning i c
  | TCheckpoint (CK_maintain _ c) => Maintaining c
  | TCheckpoint (CK_callback _ i | CK_refresh _ i | CK_end _ i) => Maintained i
  | TCompact _ i | TCompactCommit _ i (KM_append | KM_compact) => XPinned i
  | _ => Idle
  end.

(** ** Steps of a client are steps of those components *)

(** A caller at rest: what it got from the store is in its own hands. *)
Definition settle (x : store_thread nat) : store_thread nat :=
  match x with Cloned _ _ | Published _ | Failed RuntimeFailure => Idle | _ => x end.

Definition vm_moves y w y' w' : Prop :=
  (vm_of y' = vm_of y ∧ w_vm w' = w_vm w) ∨
  ∃ cmd o, vm_step cmd o (vm_of y) (w_vm w) = (vm_of y', w_vm w').
Definition store_moves y w y' w' : Prop :=
  (store_of y' = store_of y ∧ w_store w' = w_store w) ∨
  ∃ cmd o x, store_step id cmd o (store_of y) (w_store w) = (x, w_store w') ∧ settle x = store_of y'.

Lemma transition_raises from to o c z z' x :
  transition_phase from to o c z = (z', Raise x) → x = InternalError.
Proof. destruct c; cbn; intros H; repeat case_match; by simplify_eq. Qed.

(** Finding the step: no step, or one with the command the caller gives. *)
Ltac vgo cmd := right; exists cmd; match goal with e : env |- _ => exists (e_vm e) end; cbn [vm_step vm_of exclusive_vm];
  repeat match goal with H : _ = (_, _) |- _ => rewrite H; clear H end; reflexivity.
Ltac vmove := unfold vm_moves; cbn [vm_of exclusive_vm]; first [left; split; reflexivity
  | vgo CRead | vgo CInsert | vgo CUpdate | vgo CTryUpdate | vgo CCompact | vgo CBegin | vgo CExclusive | vgo CReset
  | vgo (CFinish None) | vgo (CEnd true) | vgo (CEnd false)
  | match goal with |- context [VUpdFinish _ ?g _ _] => vgo (CFinish g) end].
Ltac sgo cmd := right; exists cmd; match goal with e : env |- _ => exists (e_store e) end; cbn [store_step store_of];
  repeat match goal with H : _ = (_, _) |- _ => rewrite H; clear H end; eexists; split; reflexivity.
Ltac smove := unfold store_moves; cbn [store_of]; first [left; split; reflexivity
  | sgo (CPin (G := nat)) | sgo (CRelease (G := nat)) | sgo (CClone (G := nat)) | sgo (CPublish (G := nat))
  | sgo (CDiscard (G := nat)) | sgo (CExclusivePin (G := nat)) | sgo (CMaintain (G := nat))
  | sgo (CRefresh (G := nat) true)
  | match goal with
    | |- context [Preparing ?g ?p PR_slot] => sgo (CPrepare (G := nat) g p)
    | |- context [Replacing _ ?g ?p RP_cur] => sgo (CReplace (G := nat) g p)
    end].

Lemma failed_ok (s : store nat) x : thread_ok s (Failed x) → x = RuntimeFailure ∨ x = CheckFailed.
Proof. intros [[?|[? _]] _]; auto. Qed.

(** Most methods of the store end the process when they fail. *)
Ltac raises := cbn; unfold call; intros; repeat case_match; simplify_eq/=; eauto.
Lemma unpin_raises i c (s s' : store nat) x : unpinSnapshotByIndex i c s = (s', Raise x) → fatal x = true.
Proof. destruct c as [| | | |[]]; raises. Qed.
Lemma pin_raises o c (s s' : store nat) x : PinCurrentSnapshot o c s = (s', Raise x) → fatal x = true.
Proof. pose proof unpin_raises. destruct c; raises. Qed.
Lemma clone_raises o c (s s' : store nat) x : CloneCurrentForUpdate id o c s = (s', Raise x) → fatal x = true.
Proof. pose proof unpin_raises. pose proof pin_raises. destruct c; raises. Qed.
Lemma publish_raises i c (s s' : store nat) x : Publish i c s = (s', Raise x) → fatal x = true.
Proof. pose proof unpin_raises. destruct c; raises. Qed.
Lemma replace_raises i g p c (s s' : store nat) x :
  replaceCurrentSnapshotInPlace i g p c s = (s', Raise x) → fatal x = true.
Proof. destruct c; raises. Qed.

Definition sound (x : store_thread nat) (s : store nat) : Prop :=
  thread_ok s x ∧ ∀ cmd o x' s', store_step id cmd o x s = (x', s') → thread_ok s' x'.

Definition vm_sound (x : vm_thread) (s : vm) : Prop :=
  ∀ cmd o x' s', vm_step cmd o x s = (x', s') → vm_ok x'.

Section steps.
Context (cmd : txn_cmd Op) (e : env) (w : world Op).

(** The callee's result, and the step that corresponds to it. *)
Ltac callee f := destruct f as [? [?|?|?]] eqn:?; cbn in *;
  repeat match goal with
  | H : context [if fatal ?x then _ else _] |- _ => destruct (fatal x) eqn:?
  end; simplify_eq/=; try done; try (split; [vmove|smove]);
  try match goal with H : _ = (_, Raise _) |- _ =>
    first [apply unpin_raises in H|apply pin_raises in H|apply clone_raises in H|apply publish_raises in H
          |apply replace_raises in H]; congruence end.
(** An unpin; its error path does not occur. *)
Ltac unpins Hok f := destruct f as [? [?|[]|?]] eqn:?; cbn in *;
  repeat match goal with
  | H : context [if fatal ?x then _ else _] |- _ => destruct (fatal x) eqn:?
  end; simplify_eq/=; try done; try (split; [vmove|smove]);
  try match goal with H : _ = (_, Raise _) |- _ => apply unpin_raises in H; congruence end;
  exfalso; match goal with H : f = _ |- _ =>
    destruct Hok as [_ Hok]; specialize (Hok (CRelease (G := nat)) (e_store e)); cbn [store_step store_of] in Hok;
    rewrite H in Hok; destruct (failed_ok _ _ (Hok _ _ eq_refl)); done end.

Lemma acquire_moves c y' w' :
  txn_step cmd e (TAcquire c) w = (y', w') → w_dead w' = false → sound (store_of (TAcquire c)) (w_store w) →
  vm_moves (TAcquire c) w y' w' ∧ store_moves (TAcquire c) w y' w'.
Proof.
  intros Hs Hd Hok. destruct c as [c|view c|view i|view i c|c|]; cbn [txn_step ReadSnapshotLease_Acquire] in Hs.
  - callee (acquire_read_operation (e_vm e) c (w_vm w)).
  - callee (PinCurrentSnapshot (e_store e) c (w_store w)).
  - repeat case_match; simplify_eq/=; (split; [vmove|smove]).
  - unpins Hok (unpinSnapshotByIndex i c (w_store w)).
  - callee (on_gate (release_shared (e_vm e) c) (w_vm w)).
  - simplify_eq/=. split; [vmove|smove].
Qed.

Lemma release_moves view i c y' w' :
  txn_step cmd e (TRelease view i c) w = (y', w') → w_dead w' = false →
  sound (store_of (TRelease view i c)) (w_store w) →
  vm_moves (TRelease view i c) w y' w' ∧ store_moves (TRelease view i c) w y' w'.
Proof.
  intros Hs Hd Hok. destruct c as [c|c]; cbn [txn_step ReadSnapshotLease_release] in Hs.
  - unpins Hok (unpinSnapshotByIndex i c (w_store w)).
  - callee (on_gate (release_shared (e_vm e) c) (w_vm w)).
Qed.

Lemma insert_begin_moves c y' w' :
  txn_step cmd e (TInsertBegin c) w = (y', w') → w_dead w' = false →
  vm_moves (TInsertBegin c) w y' w' ∧ store_moves (TInsertBegin c) w y' w'.
Proof.
  intros Hs Hd. destruct c as [c|ts c]; cbn [txn_step BeginMvccInsertTransaction] in Hs.
  - callee (acquire_insert_timestamp (e_vm e) c (w_vm w)).
  - callee (PinCurrentSnapshot (e_store e) c (w_store w)).
Qed.

Lemma insert_commit_moves ts i arc c y' w' :
  txn_step cmd e (TInsertCommit ts i arc c) w = (y', w') → w_dead w' = false →
  sound (store_of (TInsertCommit ts i arc c)) (w_store w) →
  vm_moves (TInsertCommit ts i arc c) w y' w' ∧ store_moves (TInsertCommit ts i arc c) w y' w'.
Proof.
  intros Hs Hd Hok. destruct c as [| |rest|out c|out c]; cbn [txn_step MvccInsertTransaction_Commit] in Hs.
  - destruct arc; cbn in Hs; simplify_eq; (split; [vmove|smove]).
  - destruct (e_wal e) as [| |[]]; cbn in Hs; simplify_eq/=; try done; (split; [vmove|smove]).
  - destruct rest as [|op rest]; cbn in Hs; [simplify_eq; split; [vmove|smove]|].
    unfold ingest in Hs. repeat case_match; simplify_eq/=; try done; (split; [vmove|smove]).
  - unpins Hok (unpinSnapshotByIndex i c (w_store w)).
  - callee (release_insert_timestamp ts (e_vm e) c (w_vm w)).
Qed.

Lemma cow_begin_moves c y' w' :
  txn_step cmd e (TCowBegin c) w = (y', w') → w_dead w' = false →
  vm_moves (TCowBegin c) w y' w' ∧ store_moves (TCowBegin c) w y' w'.
Proof.
  intros Hs Hd. destruct c as [c|c|ts c copy]; cbn [txn_step BeginSnapshotCowWriteTransaction] in Hs.
  - callee (acquire_update_timestamp (e_vm e) c (w_vm w)).
  - callee (try_acquire_update_timestamp (e_vm e) c (w_vm w)).
    match goal with r : option Z |- _ => destruct r end; simplify_eq/=; (split; [vmove|smove]).
  - callee (CloneCurrentForUpdate id (e_store e) c (w_store w)).
Qed.

Lemma cow_prepare_moves ts ws c y' w' :
  txn_step cmd e (TCowPrepare ts ws c) w = (y', w') → w_dead w' = false →
  sound (store_of (TCowPrepare ts ws c)) (w_store w) →
  vm_moves (TCowPrepare ts ws c) w y' w' ∧ store_moves (TCowPrepare ts ws c) w y' w'.
Proof.
  intros Hs Hd Hok. destruct c as [|g c|r c]; cbn [txn_step SnapshotCow_PrepareCommit] in Hs.
  - unfold new_graph in Hs. repeat case_match; cbn in *; simplify_eq/=; (split; [vmove|smove]).
  - destruct (PrepareSnapshot _ _ _ _ _) as [s1 [c'|[i|]|x]] eqn:E; cbn in Hs; simplify_eq/=; try (split; [vmove|smove]).
    destruct Hok as [[_ Hok] _]. destruct c; cbn in E, Hok; repeat case_match; simplify_eq/=.
    unfold undo_prepare, call in E. repeat case_match; simplify_eq/=. split; [vmove|].
    right. exists CRelease, (e_store e), (Failed RuntimeFailure). done.
  - callee (finish_update_timestamp ts None (e_vm e) c (w_vm w)).
Qed.

Lemma cow_abort_moves ts i c y' w' :
  txn_step cmd e (TCowAbort ts i c) w = (y', w') → w_dead w' = false →
  sound (store_of (TCowAbort ts i c)) (w_store w) →
  vm_moves (TCowAbort ts i c) w y' w' ∧ store_moves (TCowAbort ts i c) w y' w'.
Proof.
  intros Hs Hd Hok. destruct c as [c|c]; cbn [txn_step SnapshotCow_Abort] in Hs.
  - unpins Hok (unpinSnapshotByIndex i c (w_store w)).
  - callee (finish_update_timestamp ts None (e_vm e) c (w_vm w)).
Qed.

Lemma cow_commit_moves ts ws i c y' w' :
  txn_step cmd e (TCowCommit ts ws i c) w = (y', w') → w_dead w' = false →
  vm_sound (vm_of (TCowCommit ts ws i c)) (w_vm w) → sound (store_of (TCowCommit ts ws i c)) (w_store w) →
  vm_moves (TCowCommit ts ws i c) w y' w' ∧ store_moves (TCowCommit ts ws i c) w y' w'.
Proof.
  intros Hs Hd Hv Hok. destruct c as [|c|c|g c|c]; cbn [txn_step SnapshotCow_CommitPrepared] in Hs.
  - destruct (e_wal e) as [| |[]]; cbn in Hs; simplify_eq/=; try done; (split; [vmove|smove]).
  - unfold begin_update_commit, on_gate in Hs.
    destruct (transition_phase _ _ _ _ _) as [g [c'|v|x]] eqn:E; cbn in Hs; simplify_eq/=.
    + split; [right|smove]. exists CBegin, (e_vm e). cbn. unfold begin_update_commit, on_gate. by rewrite E.
    + split; [right|smove]. exists CBegin, (e_vm e). cbn. unfold begin_update_commit, on_gate. by rewrite E.
    + apply transition_raises in E as Ex. subst x. simplify_eq/=.
      specialize (Hv CBegin (e_vm e)). cbn in Hv. unfold begin_update_commit, on_gate in Hv. rewrite E in Hv.
      by destruct (Hv _ _ eq_refl).
  - callee (Publish i c (w_store w)).
  - callee (finish_update_timestamp ts (Some g) (e_vm e) c (w_vm w)).
  - destruct c as [c|c]; cbn [SnapshotCow_Abort] in Hs.
    + unpins Hok (unpinSnapshotByIndex i c (w_store w)).
    + callee (finish_update_timestamp ts None (e_vm e) c (w_vm w)).
Qed.

Lemma guard_acquire_moves c y' w' :
  txn_step cmd e (TGuardAcquire c) w = (y', w') → w_dead w' = false →
  vm_moves (TGuardAcquire c) w y' w' ∧ store_moves (TGuardAcquire c) w y' w'.
Proof.
  intros Hs Hd. destruct c as [c|ts c|ts c]; cbn [txn_step CurrentGraphWriteGuard_Acquire] in Hs.
  - callee (acquire_update_timestamp (e_vm e) c (w_vm w)).
  - destruct c as [|c| |c]; cbn [MakeUpdateExclusive] in Hs.
    + simplify_eq/=. split; [vmove|smove].
    + callee (begin_update_commit (e_vm e) c (w_vm w)).
    + simplify_eq/=. split; [vmove|smove].
    + callee (drain_readers (e_vm e) c (w_vm w)).
  - callee (PinCurrentSnapshot (e_store e) c (w_store w)).
Qed.

Lemma guard_release_moves ts i c y' w' :
  txn_step cmd e (TGuardRelease ts i c) w = (y', w') → w_dead w' = false →
  sound (store_of (TGuardRelease ts i c)) (w_store w) →
  vm_moves (TGuardRelease ts i c) w y' w' ∧ store_moves (TGuardRelease ts i c) w y' w'.
Proof.
  intros Hs Hd Hok. destruct c as [c|c]; cbn [txn_step CurrentGraphWriteGuard_release] in Hs.
  - unpins Hok (unpinSnapshotByIndex i c (w_store w)).
  - callee (finish_update_timestamp ts None (e_vm e) c (w_vm w)).
Qed.

Lemma current_commit_moves ts i ws c y' w' :
  txn_step cmd e (TCurrentCommit ts i ws c) w = (y', w') → w_dead w' = false →
  sound (store_of (TCurrentCommit ts i ws c)) (w_store w) →
  vm_moves (TCurrentCommit ts i ws c) w y' w' ∧ store_moves (TCurrentCommit ts i ws c) w y' w'.
Proof.
  intros Hs Hd Hok. destruct c as [| |g|g c| |out g c]; cbn [txn_step CurrentCow_Commit] in Hs.
  - repeat case_match; cbn in *; simplify_eq/=; (split; [vmove|smove]).
  - unfold new_graph in Hs. repeat case_match; cbn in *; simplify_eq/=; (split; [vmove|smove]).
  - destruct (e_wal e) as [| |[]]; cbn in Hs; simplify_eq/=; try done; (split; [vmove|smove]).
  - callee (replaceCurrentSnapshotInPlace i g (committed_planning_generation changes_planning ws) c (w_store w)).
  - simplify_eq/=. split; [vmove|smove].
  - destruct c as [c|c]; cbn [CurrentGraphWriteGuard_release] in Hs.
    + unpins Hok (unpinSnapshotByIndex i c (w_store w)).
    + callee (finish_update_timestamp ts g (e_vm e) c (w_vm w)).
Qed.

Lemma checkpoint_moves c y' w' :
  txn_step cmd e (TCheckpoint c) w = (y', w') → w_dead w' = false →
  sound (store_of (TCheckpoint c)) (w_store w) →
  vm_moves (TCheckpoint c) w y' w' ∧ store_moves (TCheckpoint c) w y' w'.
Proof.
  intros Hs Hd Hok.
  destruct c as [c|ts c|ts c|ts i|ts i|ts i|ts c|ts c]; cbn [txn_step PublishManualCheckpoint] in Hs.
  - callee (acquire_update_timestamp (e_vm e) c (w_vm w)).
  - destruct c as [|c| |c]; cbn [MakeUpdateExclusive] in Hs.
    + simplify_eq/=. split; [vmove|smove].
    + callee (begin_update_commit (e_vm e) c (w_vm w)).
    + simplify_eq/=. split; [vmove|smove].
    + callee (drain_readers (e_vm e) c (w_vm w)).
  - destruct (WithCheckpointMaintenance c (w_store w)) as [s1 [c'|i|x]] eqn:E; cbn in Hs; simplify_eq/=;
      try (split; [vmove|smove]).
    destruct Hok as [_ Hok]. specialize (Hok CMaintain (e_store e)). cbn [store_step store_of] in Hok.
    rewrite E in Hok. destruct (failed_ok _ _ (Hok _ _ eq_refl)) as [-> | ->]; cbn in Hs; simplify_eq/=.
    unfold WithCheckpointMaintenance in E. repeat case_match; simplify_eq.
  - repeat case_match; cbn in *; simplify_eq/=; try done; (split; [vmove|smove]).
  - destruct (RefreshCurrentView i true (w_store w)) as [s1 [r|x]] eqn:E; cbn in Hs; simplify_eq/=; [split; [vmove|smove]|].
    unfold RefreshCurrentView in E. repeat case_match; by simplify_eq/=.
  - simplify_eq/=. split; [vmove|smove].
  - callee (finish_update_and_reset_timeline ts (e_vm e) c (w_vm w)).
  - callee (finish_update_timestamp ts None (e_vm e) c (w_vm w)).
Qed.

Lemma compact_begin_moves c y' w' :
  txn_step cmd e (TCompactBegin c) w = (y', w') → w_dead w' = false →
  vm_moves (TCompactBegin c) w y' w' ∧ store_moves (TCompactBegin c) w y' w'.
Proof.
  intros Hs Hd. destruct c as [c|ts c]; cbn [txn_step BeginInPlaceCompactionTransaction] in Hs.
  - callee (acquire_compact_timestamp (e_vm e) c (w_vm w)).
  - callee (PinCurrentSnapshot (e_store e) c (w_store w)).
Qed.

Lemma compact_commit_moves ts i c y' w' :
  txn_step cmd e (TCompactCommit ts i c) w = (y', w') → w_dead w' = false →
  sound (store_of (TCompactCommit ts i c)) (w_store w) →
  vm_moves (TCompactCommit ts i c) w y' w' ∧ store_moves (TCompactCommit ts i c) w y' w'.
Proof.
  intros Hs Hd Hok. destruct c as [| |revert c|[] c]; cbn [txn_step InPlaceCompaction_Commit] in Hs.
  - destruct (e_wal e) as [| |[]]; cbn in Hs; simplify_eq/=; try done; (split; [vmove|smove]).
  - simplify_eq/=. split; [vmove|smove].
  - destruct revert; unpins Hok (unpinSnapshotByIndex i c (w_store w)).
  - callee (revert_compact_timestamp ts (e_vm e) c (w_vm w)).
  - callee (release_compact_timestamp ts (e_vm e) c (w_vm w)).
Qed.

Lemma txn_moves y y' w' :
  txn_step cmd e y w = (y', w') → w_dead w' = false →
  vm_sound (vm_of y) (w_vm w) → sound (store_of y) (w_store w) →
  vm_moves y w y' w' ∧ store_moves y w y' w'.
Proof.
  intros Hs Hd Hv Hok. destruct y;
    try (by eauto using acquire_moves, release_moves, insert_begin_moves, insert_commit_moves, cow_begin_moves,
      cow_prepare_moves, cow_commit_moves, cow_abort_moves, guard_acquire_moves, guard_release_moves,
      current_commit_moves, checkpoint_moves, compact_begin_moves, compact_commit_moves);
    cbn in Hs; simplify_eq/=; try (split; [vmove|smove]); destruct cmd as [| |[]| | | | | | | |]; cbn;
    (split; [vmove|smove]).
Qed.
End steps.

(** ** The store is used under admission *)

Lemma busy_admitted y :
  quiet (store_of y) = false → vt_adm (vm_of y) = 1 ∨ vt_ins (vm_of y) = 1 ∨ vt_di (vm_of y) = true.
Proof.
  destruct y as [| |[]| |? ? []|[]| |? ? ? []|[]| |? ? []| |? ? ? [| | | |[]]|? ? []|[|? []|]| |? ? []| |? ? ? [| | | | |? ? []]
                |[|? []| | | | | |]|[]| |? ? []]; cbn; auto; done.
Qed.

Lemma exclusive_drained y :
  exclusive (store_of y) = true → vt_di (vm_of y) = true ∧ vt_dr (vm_of y) = true.
Proof.
  destruct y as [| |[]| |? ? []|[]| |? ? ? []|[]| |? ? []| |? ? ? [| | | |[]]|? ? []|[|? []|]| |? ? []| |? ? ? [| | | | |? ? []]
                |[|? []| | | | | |]|[]| |? ? []]; cbn; auto; done.
Qed.

Definition vm_view (st : system) : vm_state := VmState (w_vm (sw st)) (vm_of <$> txns st).
Definition store_view (st : system) : store_state := StoreState (w_store (sw st)) (store_of <$> txns st).
End threads.
Arguments System {Op}. Arguments sw {Op}. Arguments txns {Op}.
