(* ===== verification/TransactionSystem.v ===== *)
(** * The transaction system refines its components

    Every run of the transactions of TransactionThreads is a run of the callers
    of the version manager and a run of the users of the snapshot store in
    which in-place writers are alone: the admission the store relies on is what
    the gate of the version manager gives. *)

From S2P Require Import Prelude GateWord OperationGate GateProtocol TimestampWindow VersionManager VersionThreads Timeline VersionSystem VersionProperties SnapshotStore SnapshotThreads SnapshotInvariant SnapshotProperties Transactions TransactionThreads.
Import OperationGateWord OperationGate VersionManager GraphSnapshotStore.

Section system.
Context {Op : Type} (changes_planning : Op → bool).
Implicit Types (w : world Op) (y : txn Op) (st : system (Op := Op)).

Notation vm_view := (vm_view (Op := Op)).
Notation store_of := (store_of changes_planning).
Notation store_view := (store_view changes_planning).
Notation txn_trans := (txn_trans changes_planning).

(** Two clients of which one needs the store for itself do not use it together. *)
Lemma store_excludes z (ts : list (txn Op)) t u x y :
  gate_inv z (vm_of <$> ts) → ts !! t = Some x → ts !! u = Some y → t ≠ u →
  exclusive (store_of x) = true → quiet (store_of y) = true ∧ exclusive (store_of y) = false.
Proof.
  intros Hi Hx Hy Hne He. destruct (exclusive_drained _ _ He) as [Hdi Hdr].
  assert (Hl : ∀ v a, ts !! v = Some a → (vm_of <$> ts) !! v = Some (vm_of a)).
  { intros v a Ha. by rewrite list_lookup_fmap, Ha. }
  destruct (drained_exclusive z _ t (vm_of x) Hi (Hl _ _ Hx) Hdi Hdr u (vm_of y) (Hl _ _ Hy)) as (Ha & Hn & Ho).
  cbn in Ha, Hn, Ho. assert (Hd : vt_di (vm_of y) = false).
  { destruct (vt_di (vm_of y)) eqn:E; [|done]. exfalso. apply Hne. symmetry. apply Ho. exact (di_law (vm_of y) E). }
  split.
  - destruct (quiet (store_of y)) eqn:Hq; [done|]. destruct (busy_admitted _ _ Hq) as [?|[?|?]]; [lia|lia|congruence].
  - destruct (exclusive (store_of y)) eqn:Hq; [|done]. destruct (exclusive_drained _ _ Hq). congruence.
Qed.

Lemma admitted_intro (xs : list (store_thread nat)) t x x' :
  (quiet x = true → quiet x' = false → ∀ u z, xs !! u = Some z → u ≠ t →
     exclusive z = false ∧ (exclusive x' = true → quiet z = true)) →
  admitted xs t x x' = true.
Proof.
  intros H. unfold admitted. destruct (quiet x) eqn:Hq, (quiet x') eqn:Hq'; try done. cbn [andb negb].
  rewrite forallb_forall. intros b Hb. apply list_elem_of_In, elem_of_lookup_imap in Hb as (u & z & -> & Hz).
  unfold id. destruct (decide (u = t)) as [->|Hne]; [by rewrite Nat.eqb_refl|].
  destruct (H eq_refl eq_refl u z Hz Hne) as [-> Hx].
  rewrite (proj2 (Nat.eqb_neq u t)) by done. destruct (exclusive x'); [by rewrite Hx|done].
Qed.

(** One step of a client, as its components see it. *)
Section step.
Context (w : world Op) (ts : list (txn Op)) (t : nat) (y : txn Op) (cmd : txn_cmd Op) (e : env).
Context (y' : txn Op) (w' : world Op).
Hypothesis Hvm : vm_inv (vm_view (System w ts)).
Hypothesis Hst : store_ok (store_view (System w ts)).
Hypothesis Hy : ts !! t = Some y.
Hypothesis Hs : txn_step changes_planning cmd e y w = (y', w').
Hypothesis Hd : w_dead w' = false.

Lemma vm_lookup : (vm_of <$> ts) !! t = Some (vm_of y).
Proof using Hy. by rewrite list_lookup_fmap, Hy. Qed.
Lemma store_lookup : (store_of <$> ts) !! t = Some (store_of y).
Proof using Hy. by rewrite list_lookup_fmap, Hy. Qed.

Lemma step_vm_sound : vm_sound (vm_of y) (w_vm w).
Proof using Hvm Hy.
  intros c o x' s' H. eapply (vm_step_ok c o (vm_of y) (w_vm w)); [| | |done].
  - eapply gate_inv_view; [apply (vi_gate _ Hvm)|apply vm_lookup].
  - apply (vi_ok _ Hvm), list_elem_of_lookup. eauto using vm_lookup.
  - apply (inv_time_view _ t (vm_of y) Hvm vm_lookup).
Qed.

Lemma step_store_sound : sound (store_of y) (w_store w).
Proof using Hst Hy.
  split; [apply (so_thread _ Hst), list_elem_of_lookup; eauto using store_lookup|].
  intros c o x' s' H. by eapply (step_ok id (w_store w) s' (store_of <$> ts) t (store_of y) x' c o Hst store_lookup H).
Qed.

Lemma step_moves : vm_moves y w y' w' ∧ store_moves changes_planning y w y' w'.
Proof using Hvm Hst Hy Hs Hd. eapply txn_moves; eauto using step_vm_sound, step_store_sound. Qed.

Lemma step_vm : star vm_trans (vm_view (System w ts)) (vm_view (System w' (<[t:=y']> ts))).
Proof using Hvm Hst Hy Hs Hd.
  unfold TransactionThreads.vm_view. cbn [sw txns]. rewrite list_fmap_insert.
  destruct step_moves as [[[-> ->]|(c & o & H)] _].
  - rewrite list_insert_id by apply vm_lookup. constructor.
  - eapply star_snoc; [constructor|]. econstructor; [apply vm_lookup|done].
Qed.

Lemma step_vm_inv : vm_inv (vm_view (System w' (<[t:=y']> ts))).
Proof using Hvm Hst Hy Hs Hd. eapply star_invariant; eauto using vm_trans_inv, step_vm. Qed.

Lemma step_admitted x : settle x = store_of y' → admitted (store_of <$> ts) t (store_of y) x = true.
Proof using Hvm Hst Hy Hs Hd.
  intros Hx. apply admitted_intro. intros _ Hq u z Hu Hne.
  assert (Ex : x = store_of y') by (rewrite <- Hx; destruct x as [|[]| | | | | | | | | | | | | | |]; done).
  rewrite list_lookup_fmap in Hu. apply fmap_Some in Hu as (v & Hv & ->).
  assert (Hu' : <[t:=y']> ts !! u = Some v) by (by rewrite list_lookup_insert_ne).
  assert (Ht' : <[t:=y']> ts !! t = Some y') by (apply list_lookup_insert_eq; eauto using lookup_lt_Some).
  pose proof (vi_gate _ step_vm_inv) as Hg. cbn in Hg. subst x. split.
  - destruct (exclusive (store_of v)) eqn:E; [|done]. exfalso.
    destruct (store_excludes _ _ u t v y' Hg Hu' Ht' Hne E). congruence.
  - intros E. by eapply (store_excludes _ _ t u y' v Hg Ht' Hu' (not_eq_sym Hne) E).
Qed.

Lemma step_store : star (any_step id) (store_view (System w ts)) (store_view (System w' (<[t:=y']> ts))).
Proof using Hvm Hst Hy Hs Hd.
  unfold TransactionThreads.store_view. cbn [sw txns]. rewrite list_fmap_insert.
  destruct step_moves as [_ [[-> ->]|(c & o & x & H & Hx)]].
  - rewrite list_insert_id by apply store_lookup. constructor.
  - assert (H1 : any_step id (StoreState (w_store w) (store_of <$> ts)) (StoreState (w_store w') (<[t:=x]> (store_of <$> ts)))).
    { econstructor; [apply store_lookup|done|done|by apply step_admitted]. }
    assert (settle x = x ∨ settle x = Idle ∧ ∀ s, store_step id CRelease o x s = (Idle, s)) as [E|[E Hi]].
    { destruct x as [|[]| | | | | | | | | | | | | | |]; auto. }
    { rewrite <- Hx, E. eapply star_snoc; [constructor|done]. }
    eapply star_snoc; [eapply star_snoc; [constructor|done]|].
    rewrite <- (list_insert_insert_eq (store_of <$> ts) t (store_of y') x), <- Hx, E.
    eapply (store_trans_intro id _ _ _ t x CRelease o); [|done|done|].
    + apply list_lookup_insert_eq. eapply lookup_lt_Some, store_lookup.
    + by apply admitted_intro.
Qed.

Lemma step_store_inv : store_ok (store_view (System w' (<[t:=y']> ts))).
Proof using Hvm Hst Hy Hs Hd.
  eapply (star_invariant (any_step id)); [|apply step_store|exact Hst]. intros a b Ha Hb. by eapply trans_ok.
Qed.
End step.

(** ** Reachable systems *)

Definition components_ok st : Prop := vm_inv (vm_view st) ∧ store_ok (store_view st).

Lemma trans_components st st' :
  components_ok st → txn_trans st st' → w_dead (sw st') = false →
  components_ok st' ∧ star vm_trans (vm_view st) (vm_view st') ∧
  star (any_step id) (store_view st) (store_view st').
Proof.
  intros [Hvm Hst] Htr Hd. destruct Htr as [w ts t y cmd e y' w' Hl Hy Hs]. cbn in Hd.
  split; [split|split]; eauto using step_vm, step_store, step_vm_inv, step_store_inv.
Qed.

(** The numbers of the configuration fit their types. *)
Definition system_config (slot_num : nat) (view : PublishedReadView) (n : nat) : Prop :=
  (0 < slot_num)%nat ∧ 0 ≤ visibility_ts view < U32_MAX ∧ is_u32 (snapshot_generation view) ∧
  Z.of_nat n + 1 < 2^31.

Definition system_reachable slot_num view n st : Prop :=
  star txn_trans (system_init slot_num view n) st.

Lemma alive_before st st' : star txn_trans st st' → w_dead (sw st') = false → w_dead (sw st) = false.
Proof. intros Hs. induction Hs as [|a b c _ IH H]; [done|]. intros _. apply IH. by destruct H. Qed.

Lemma init_views slot_num view n :
  system_config slot_num view n →
  vm_initial view n (vm_view (system_init slot_num view n)) ∧
  store_view (system_init slot_num view n) = store_init slot_num 0%nat (snapshot_generation view) n.
Proof.
  intros (_ & Hv & _). unfold TransactionThreads.vm_view, TransactionThreads.store_view, vm_initial, store_init, system_init.
  cbn [sw txns w_vm w_store vs vts]. rewrite !fmap_replicate. split; [|done].
  unfold init_ts. rewrite (proj2 (Z.eqb_neq _ _)) by lia. done.
Qed.

Lemma config_vm slot_num view n : system_config slot_num view n → vm_config view n.
Proof. intros (_ & ? & _ & ?). split; unfold is_u32, U32_MAX, kMaxReaderCount in *; lia. Qed.
Lemma config_store slot_num view n :
  system_config slot_num view n → store_config slot_num (snapshot_generation view) n.
Proof. by intros (? & _ & ? & ?). Qed.

Lemma reachable_components slot_num view n st :
  system_config slot_num view n → system_reachable slot_num view n st → w_dead (sw st) = false →
  components_ok st ∧ vm_reachable view n (vm_view st) ∧
  store_reachable id slot_num 0%nat (snapshot_generation view) n (store_view st).
Proof.
  intros Hc Hr. destruct (init_views _ _ _ Hc) as [Hv Hi]. induction Hr as [st|st a b Hr IH Hab]; intros Hd.
  - split_and!.
    + split; [eapply vm_initial_inv; [by eapply config_vm|done]|]. rewrite Hi. by apply init_ok, config_store.
    + eexists. split; [done|constructor].
    + unfold store_reachable. rewrite Hi. constructor.
  - assert (Ha : w_dead (sw a) = false) by (by destruct Hab).
    destruct (IH Hv Hi Ha) as (Hok & (st0 & Hv0 & Hvs) & Hss).
    destruct (trans_components _ _ Hok Hab Hd) as (Hok' & H1 & H2). split_and!; [done| |].
    + exists st0. split; [done|]. by eapply star_trans.
    + by eapply star_trans.
Qed.
End system.
