(* ===== verification/TransactionContent.v ===== *)
(** * What graphs, log and read views have in common

    The invariant of the transaction system about contents: which logged
    operations are in the current graph, what a private copy holds, and what a
    reader's view and pinned snapshot may contain; and how it is kept by the
    steps of the other clients. *)

From S2P Require Import Prelude GateWord OperationGate GateProtocol TimestampWindow VersionManager VersionThreads Timeline VersionSystem VersionProperties SnapshotStore SnapshotThreads SnapshotInvariant SnapshotProperties Transactions TransactionThreads TransactionSystem.
Import OperationGateWord OperationGate VersionManager GraphSnapshotStore.

Section content.
Context {Op : Type} (changes_planning : Op → bool).
Implicit Types (w : world Op) (y : txn Op) (ws : workspace Op) (l : list (applied Op)) (a : Z).

Notation store_of := (store_of changes_planning).

(** ** Operations by timestamp *)

Definition stamped (ts : Z) (upd : bool) (ops : list Op) : list (applied Op) := Applied ts upd <$> ops.
Definition logged w : list (applied Op) := concat ((λ r, stamped (r_ts r) (r_update r) (r_ops r)) <$> w_log w).
Definition at_ts a l : list (applied Op) := filter (λ p, a_ts p = a) l.

Definition cur w : nat := cur_slot_index_ (w_store w).
Definition cur_graph w : list (applied Op) := slot_graph w (cur w).
Definition cur_gen w : Z := slot_generation w (cur w).

(** Nothing of a transaction later than [v] except inserts. *)
Definition updates_upto (v : Z) l : Prop := ∀ p, p ∈ l → a_update p = true → a_ts p ≤ v.

Lemma at_ts_app a l l' : at_ts a (l ++ l') = at_ts a l ++ at_ts a l'.
Proof. apply filter_app. Qed.
Lemma at_ts_stamped ts upd ops : at_ts ts (stamped ts upd ops) = stamped ts upd ops.
Proof. unfold at_ts, stamped. induction ops as [|op ops IH]; [done|].
  rewrite fmap_cons, filter_cons_True by done. by rewrite IH. Qed.
Lemma at_ts_other a l : (∀ p, p ∈ l → a_ts p ≠ a) → at_ts a l = [].
Proof.
  unfold at_ts. intros H. apply length_zero_iff_nil, Nat.le_0_r. destruct (filter _ l) as [|p k] eqn:E; [done|].
  exfalso. assert (Hp : p ∈ filter (λ p, a_ts p = a) l) by (rewrite E; left).
  apply list_elem_of_filter in Hp as [Ha Hp]. by apply (H p).
Qed.
Lemma elem_stamped ts upd ops p : p ∈ stamped ts upd ops → a_ts p = ts ∧ a_update p = upd.
Proof. unfold stamped. intros Hp. apply list_elem_of_fmap in Hp as (op & -> & _). done. Qed.
Lemma at_ts_stamped_ne a ts upd ops : a ≠ ts → at_ts a (stamped ts upd ops) = [].
Proof. intros Hne. apply at_ts_other. intros p Hp. apply elem_stamped in Hp as [-> _]. done. Qed.

(** ** What a client knows *)

(** Nothing of transaction [a] has been logged or applied. *)
Definition fresh w a : Prop :=
  at_ts a (logged w) = [] ∧ at_ts a (cur_graph w) = [] ∧ a ∉ w_torn w.
(** [rest] of the logged operations of [ts] is still to be applied. *)
Definition owed w (ts : Z) (upd : bool) (rest : list Op) : Prop :=
  at_ts ts (cur_graph w) ++ stamped ts upd rest = at_ts ts (logged w) ∧ ts ∉ w_torn w.
Lemma owed_prefix w ts upd rest : owed w ts upd rest → at_ts ts (cur_graph w) `prefix_of` at_ts ts (logged w).
Proof. intros [<- _]. by eexists. Qed.
(** A private copy is the current graph and the transaction's own operations. *)
Definition copy_ok w (ts : Z) ws : Prop := ws_graph ws = cur_graph w ++ stamped ts true (logical_redo ws).
Definition prepared_ok w ws (i : nat) : Prop :=
  slot_graph w i = ws_graph ws ∧ cur_gen w < slot_generation w i.

(** A view fits the current graph if it has the same generation. *)
Definition view_fits w (view : PublishedReadView) : Prop :=
  snapshot_generation view ≤ cur_gen w ∧
  (snapshot_generation view = cur_gen w → updates_upto (visibility_ts view) (cur_graph w)).
Definition view_ok w view : Prop := visibility_ts view ≤ read_ts_ (w_vm w) ∧ view_fits w view.

(** A pinned snapshot has every logged operation up to the view's timestamp (of a
    torn insert, the first ones), and no later one except inserts if the
    generations agree. *)
Definition snapshot_ok w (view : PublishedReadView) (i : nat) : Prop :=
  visibility_ts view ≤ read_ts_ (w_vm w) ∧
  (∀ a, a ≤ visibility_ts view → a ∉ w_torn w → at_ts a (slot_graph w i) = at_ts a (logged w)) ∧
  (∀ a, a ≤ visibility_ts view → at_ts a (slot_graph w i) `prefix_of` at_ts a (logged w)) ∧
  (slot_generation w i = snapshot_generation view → updates_upto (visibility_ts view) (slot_graph w i)).

Definition emptied w : Prop := w_log w = [] ∧ w_torn w = [] ∧ cur_graph w = [].

Definition fact w y : Prop :=
  match y with
  | TAcquire (LA_pin view _) => view_ok w view
  | TAcquire (LA_compare view i) => snapshot_ok w view i
  | TLease view i => snapshot_ok w view i ∧ slot_generation w i = snapshot_generation view
  | TInsertBegin (BI_pin ts _) => fresh w ts
  | TInsert ts i _ | TInsertCommit ts i _ (IC_start | IC_append) => fresh w ts ∧ i = cur w
  | TInsertCommit ts i _ (IC_ingest rest) => owed w ts false rest ∧ i = cur w
  | TCowBegin (BC_clone ts c copy) =>
      fresh w ts ∧
      match c with
      | CC_pin _ => True | CC_read i => i = cur w | CC_unpin _ _ _ _ => copy = cur_graph w
      end
  | TCow ts ws | TCowPrepare ts ws PC_start => fresh w ts ∧ copy_ok w ts ws
  | TCowPrepare ts ws (PC_prepare g _) =>
      fresh w ts ∧ copy_ok w ts ws ∧ w_graphs w !! g = Some (ws_graph ws) ∧
      ∀ n, reserved (store_of y) = Some n → cur_gen w < n
  | TCowPrepared ts ws i | TCowCommit ts ws i CP_append =>
      fresh w ts ∧ copy_ok w ts ws ∧ prepared_ok w ws i
  | TCowCommit ts ws i (CP_begin _ | CP_publish PU_generation) =>
      owed w ts true (logical_redo ws) ∧ copy_ok w ts ws ∧ prepared_ok w ws i
  | TCowCommit ts ws i (CP_publish (PU_check g | PU_exchange g)) =>
      owed w ts true (logical_redo ws) ∧ copy_ok w ts ws ∧ prepared_ok w ws i ∧ g = slot_generation w i
  | TCowCommit _ _ _ (CP_publish (PU_unpin _ g _)) | TCowCommit _ _ _ (CP_release g FU_generation) =>
      g = cur_gen w
  | TGuardAcquire (GA_exclusive ts _ | GA_pin ts _) | TGuard ts _ => fresh w ts
  | TCurrent ts _ ws | TCurrentCommit ts _ ws (KC_start | KC_prepare) => fresh w ts ∧ copy_ok w ts ws
  | TCurrentCommit ts _ ws (KC_append g) =>
      fresh w ts ∧ copy_ok w ts ws ∧ w_graphs w !! g = Some (ws_graph ws)
  | TCurrentCommit ts _ ws (KC_replace g (RP_cur | RP_count | RP_storage)) =>
      owed w ts true (logical_redo ws) ∧ copy_ok w ts ws ∧ w_graphs w !! g = Some (ws_graph ws)
  | TCurrentCommit _ _ _ (KC_replace g (RP_view | RP_planning)) => is_Some (w_graphs w !! g)
  | TCurrentCommit _ _ _ (KC_release _ (Some g) (GR_unpin _ | GR_finish FU_generation)) => g = cur_gen w
  | TCheckpoint (CK_refresh _ _ | CK_end _ _ | CK_reset _ _) => emptied w
  | _ => True
  end.

(** A client that has no admission knows nothing. *)
Lemma fact_passive w y :
  vt_adm (vm_of y) = 0 → vt_ins (vm_of y) = 0 → vt_di (vm_of y) = false → fact w y.
Proof.
  intros H1 H2 H3.
  destruct y as [| |[]| |? ? []|[]| |? ? ? []|[]| |? ? []| |? ? ? [|?|[]|? []|[]]|? ? []|[|? []|]| |? ? []| |? ? ? [| |?|? []| |? [] []]
                |[|? []| | | | | |]|[]| |? ? []]; cbn in *; done.
Qed.

(** ** Steps that leave the contents alone *)

Record undisturbed w w' y : Prop := {
  ud_cur : cur w' = cur w;
  ud_graph : cur_graph w' = cur_graph w;
  ud_gen : cur_gen w' = cur_gen w;
  ud_log : logged w' = logged w;
  ud_wal : w_log w' = w_log w;
  ud_torn : w_torn w' = w_torn w;
  ud_graphs : ∀ g l, w_graphs w !! g = Some l → w_graphs w' !! g = Some l;
  ud_pinned : ∀ i, role_of (store_of y) = RPin i →
    slot_graph w' i = slot_graph w i ∧ slot_generation w' i = slot_generation w i;
  ud_read : vt_adm (vm_of y) = 1 → read_ts_ (w_vm w) ≤ read_ts_ (w_vm w') }.

Lemma fact_undisturbed w w' y : undisturbed w w' y → fact w y → fact w' y.
Proof.
  intros [Hc Hg Hn Hl Hw Ht Hgs Hp Hr].
  destruct y as [| |[]| |? ? []|[]| |? ? ? []|[|?|? []]| |? ? []| |? ? ? [|?|[]|? []|[]]|? ? []|[|? []|]| |? ? []| |? ? ? [| |?|? []| |? [] []]
                |[|? []| | | | | |]|[]| |? ? []];
    cbn in *; unfold view_ok, view_fits, snapshot_ok, fresh, owed, copy_ok, prepared_ok, emptied in *;
    rewrite ?Hc, ?Hg, ?Hn, ?Hl, ?Hw, ?Ht; try done; try (destruct (Hp _ eq_refl) as [-> ->]);
    try (specialize (Hr eq_refl)); intuition (eauto; try lia).
  all: match goal with H : is_Some _ |- _ => destruct H as [? H]; eauto end.
Qed.

(** ** Steps of writers seen by the others *)

(** The step of a transaction with timestamp [ts] that logs, applies inserts, or
    gives up applying them. *)
Record stamped_change w w' (ts : Z) : Prop := {
  sc_cur : cur w' = cur w;
  sc_gen : ∀ i, slot_generation w' i = slot_generation w i;
  sc_log : ∃ l, logged w' = logged w ++ l ∧ ∀ p, p ∈ l → a_ts p = ts;
  sc_slot : ∀ i, ∃ l, slot_graph w' i = slot_graph w i ++ l ∧ ∀ p, p ∈ l → a_ts p = ts ∧ a_update p = false;
  sc_torn : ∀ a, a ∈ w_torn w' → a ∈ w_torn w ∨ a = ts;
  sc_kept : ∀ a, a ∈ w_torn w → a ∈ w_torn w';
  sc_read : read_ts_ (w_vm w') = read_ts_ (w_vm w);
  sc_late : read_ts_ (w_vm w) < ts }.

Lemma stamped_log w w' ts a : stamped_change w w' ts → a ≠ ts → at_ts a (logged w') = at_ts a (logged w).
Proof.
  intros Hc Ha. destruct (sc_log _ _ _ Hc) as (l & -> & Hl).
  rewrite at_ts_app, (at_ts_other a l), app_nil_r; [done|]. intros p Hp. rewrite (Hl p Hp). done.
Qed.
Lemma stamped_slot w w' ts a i :
  stamped_change w w' ts → a ≠ ts → at_ts a (slot_graph w' i) = at_ts a (slot_graph w i).
Proof.
  intros Hc Ha. destruct (sc_slot _ _ _ Hc i) as (l & -> & Hl).
  rewrite at_ts_app, (at_ts_other a l), app_nil_r; [done|]. intros p Hp. destruct (Hl p Hp) as [-> _]. done.
Qed.
Lemma stamped_updates w w' ts v i :
  stamped_change w w' ts → updates_upto v (slot_graph w i) → updates_upto v (slot_graph w' i).
Proof.
  intros Hc Hu p Hp Hup. destruct (sc_slot _ _ _ Hc i) as (l & E & Hl). rewrite E in Hp.
  apply elem_of_app in Hp as [Hp|Hp]; [by apply Hu|]. destruct (Hl p Hp) as [_ ?]. congruence.
Qed.
Lemma stamped_cur_graph w w' ts : stamped_change w w' ts → cur_graph w' = slot_graph w' (cur w).
Proof. intros Hc. unfold cur_graph. by rewrite (sc_cur _ _ _ Hc). Qed.
Lemma stamped_cur_gen w w' ts : stamped_change w w' ts → cur_gen w' = cur_gen w.
Proof. intros Hc. unfold cur_gen. by rewrite (sc_cur _ _ _ Hc), (sc_gen _ _ _ Hc). Qed.

Lemma stamped_fresh w w' ts a : stamped_change w w' ts → a ≠ ts → fresh w a → fresh w' a.
Proof.
  intros Hc Ha (H1 & H2 & H3). unfold fresh.
  rewrite (stamped_log w w' ts a Hc Ha), (stamped_cur_graph w w' ts Hc), (stamped_slot w w' ts a _ Hc Ha).
  split_and!; [done..|]. intros Ht. destruct (sc_torn _ _ _ Hc a Ht); done.
Qed.
Lemma stamped_owed w w' ts a upd rest :
  stamped_change w w' ts → a ≠ ts → owed w a upd rest → owed w' a upd rest.
Proof.
  intros Hc Ha (H1 & H2). unfold owed.
  rewrite (stamped_log w w' ts a Hc Ha), (stamped_cur_graph w w' ts Hc), (stamped_slot w w' ts a _ Hc Ha).
  split; [done|]. intros Ht. destruct (sc_torn _ _ _ Hc a Ht); done.
Qed.
Lemma stamped_view w w' ts view : stamped_change w w' ts → view_ok w view → view_ok w' view.
Proof.
  intros Hc (H1 & H2 & H3). unfold view_ok, view_fits.
  rewrite (sc_read _ _ _ Hc), (stamped_cur_gen w w' ts Hc), (stamped_cur_graph w w' ts Hc).
  split_and!; [done..|]. intros E. eapply stamped_updates; eauto.
Qed.
Lemma stamped_snapshot w w' ts view i : stamped_change w w' ts → snapshot_ok w view i → snapshot_ok w' view i.
Proof.
  intros Hc (H1 & H2 & Hp & H3). pose proof (sc_late _ _ _ Hc). unfold snapshot_ok.
  rewrite (sc_read _ _ _ Hc), (sc_gen _ _ _ Hc). split_and!; [done|..].
  - intros a Ha Ht. rewrite (stamped_log w w' ts a Hc), (stamped_slot w w' ts a i Hc) by lia.
    apply H2; [done|]. intros Hin. by apply Ht, (sc_kept _ _ _ Hc).
  - intros a Ha. rewrite (stamped_log w w' ts a Hc), (stamped_slot w w' ts a i Hc) by lia. by apply Hp.
  - intros E. eapply stamped_updates; eauto.
Qed.

Lemma fact_stamped w w' ts y :
  stamped_change w w' ts → vt_di (vm_of y) = false → held (tl (vm_of y)) ≠ Some ts → fact w y → fact w' y.
Proof.
  intros Hc Hd Hne. pose proof (sc_cur _ _ _ Hc) as Hcur.
  destruct (decide (vt_adm (vm_of y) = 0 ∧ vt_ins (vm_of y) = 0)) as [[? ?]|Hact]; [intros _; by apply fact_passive|].
  destruct y as [| |[]| |? ? []|[]| |? ? ? []|[]| |? ? []| |? ? ? [|?|[]|? []|[]]|? ? []|[|? []|]| |? ? []| |? ? ? [| |?|? []| |? [] []]
                |[|? []| | | | | |]|[]| |? ? []];
    cbn in *; try done; rewrite ?Hcur, ?(sc_gen _ _ _ Hc); intuition eauto using stamped_view, stamped_snapshot;
    try (eapply stamped_fresh; [done|congruence|done]); try (eapply stamped_owed; [done|congruence|done]).
Qed.

(** A publication seen by the readers. *)
Lemma fact_exchange w w' y :
  (∀ i, slot_graph w' i = slot_graph w i) → (∀ i, slot_generation w' i = slot_generation w i) →
  logged w' = logged w → w_torn w' = w_torn w → read_ts_ (w_vm w') = read_ts_ (w_vm w) →
  cur_gen w < cur_gen w' → vt_ins (vm_of y) = 0 → vt_di (vm_of y) = false → fact w y → fact w' y.
Proof.
  intros Hg Hn Hl Ht Hr Hlt Hi Hd.
  destruct (decide (vt_adm (vm_of y) = 0)) as [?|Hact]; [intros _; by apply fact_passive|].
  destruct y as [| |[]| |? ? []|[]| |? ? ? []|[]| |? ? []| |? ? ? [|?|[]|? []|[]]|? ? []|[|? []|]| |? ? []| |? ? ? [| |?|? []| |? [] []]
                |[|? []| | | | | |]|[]| |? ? []];
    cbn in *; try done; unfold view_ok, view_fits, snapshot_ok; rewrite ?Hg, ?Hn, ?Hl, ?Ht, ?Hr; intuition (auto; lia).
Qed.

(** ** The invariant *)

(** The transaction whose logged operations are not all in the current graph. *)
Definition owes y : option Z :=
  match y with
  | TInsertCommit ts _ _ (IC_ingest _) => Some ts
  | TCowCommit ts _ _ (CP_begin _ | CP_publish (PU_generation | PU_check _ | PU_exchange _)) => Some ts
  | TCurrentCommit ts _ _ (KC_replace _ (RP_cur | RP_count | RP_storage)) => Some ts
  | _ => None
  end.

Definition completed (c : finish_pc) : bool :=
  match c with FU_complete CW_unlock | FU_reopen _ => true | _ => false end.

(** The transaction has replaced the contents of the current slot in place,
    and the view for it is not published yet. *)
Definition replaced y : option Z :=
  match y with
  | TCurrentCommit ts _ _ (KC_replace _ (RP_view | RP_planning) | KC_committed | KC_release _ (Some _) (GR_unpin _)) =>
      Some ts
  | TCurrentCommit ts _ _ (KC_release _ (Some _) (GR_finish c)) => if completed c then None else Some ts
  | _ => None
  end.
(** The same, or it has published a new snapshot. *)
Definition swapped y : option Z :=
  match y with
  | TCowCommit ts _ _ (CP_publish (PU_unpin _ _ _)) => Some ts
  | TCowCommit ts _ _ (CP_release _ c) => if completed c then None else Some ts
  | _ => replaced y
  end.
(** The generation of the current slot is not the installed one yet. *)
Definition uninstalled y : bool :=
  match y with
  | TCowCommit _ _ _ (CP_publish (PU_unpin _ _ _) | CP_release _ FU_generation) => true
  | _ => false
  end.
(** The transaction has drained the readers and has not reopened the gate. *)
Definition sealed y : bool :=
  match y with
  | TGuardAcquire (GA_pin _ _) | TGuard _ _ | TGuardRelease _ _ _ | TCurrent _ _ _ | TCurrentCommit _ _ _ _ => true
  | TCheckpoint (CK_timestamp _ | CK_exclusive _ _) => false
  | TCheckpoint _ => true
  | TCompactBegin (BK_pin _ _) | TCompact _ _ | TCompactCommit _ _ _ => true
  | _ => false
  end.

Definition published w : PublishedReadView := UnpackPublishedReadView (published_read_view_ (w_vm w)).

Record content_ok (st : system) : Prop := {
  co_log a : a ∉ w_torn (sw st) → (∀ y, y ∈ txns st → owes y ≠ Some a) →
    at_ts a (cur_graph (sw st)) = at_ts a (logged (sw st));
  co_prefix a : at_ts a (cur_graph (sw st)) `prefix_of` at_ts a (logged (sw st));
  co_range p : p ∈ cur_graph (sw st) ∨ p ∈ logged (sw st) → a_ts p < write_ts_ (w_vm (sw st));
  co_torn a : a ∈ w_torn (sw st) → a < write_ts_ (w_vm (sw st));
  co_updates p : p ∈ cur_graph (sw st) → a_update p = true →
    a_ts p ≤ read_ts_ (w_vm (sw st)) ∨ ∃ y, y ∈ txns st ∧ swapped y = Some (a_ts p);
  co_gen : 0 ≤ cur_gen (sw st);
  co_installed : (∀ y, y ∈ txns st → uninstalled y = false) →
    installed_snapshot_generation_ (w_vm (sw st)) = cur_gen (sw st);
  co_published : snapshot_generation (published (sw st)) ≤ cur_gen (sw st) ∧
    (snapshot_generation (published (sw st)) = cur_gen (sw st) →
     updates_upto (visibility_ts (published (sw st))) (cur_graph (sw st)) ∨
     ∃ y, y ∈ txns st ∧ is_Some (replaced y));
  co_ids i sl g : slots_ (w_store (sw st)) !! i = Some sl → storage_ sl = Some g →
    (g < length (w_graphs (sw st)))%nat;
  co_fact y : y ∈ txns st → fact (sw st) y;
  co_sealed t u x y : txns st !! t = Some x → sealed x = true → txns st !! u = Some y → u ≠ t →
    vt_adm (vm_of y) = 0 }.

(** Who is swapping, sealed or owing is where the version manager says so. *)
Ltac each_txn y := destruct y as [| |[]| |? ? []|[]| |? ? ? []|[]| |? ? []| |? ? ? [|?|[]|? []|[]]|? ? []|[|? []|]| |? ? []| |? ? ? [| |?|? []| |? [] []]
                |[|? []| | | | | |]|[]| |? ? []].
Lemma swapped_di y a : swapped y = Some a → vt_di (vm_of y) = true.
Proof. each_txn y; cbn; done. Qed.
Lemma replaced_swapped y a : replaced y = Some a → swapped y = Some a ∧ sealed y = true.
Proof. each_txn y; cbn; done. Qed.
Lemma uninstalled_di y : uninstalled y = true → vt_di (vm_of y) = true.
Proof. each_txn y; cbn; done. Qed.
Lemma sealed_own y : sealed y = true → vt_own (vm_of y) = Some kAllBlocked ∧ vt_di (vm_of y) = true.
Proof. each_txn y; cbn; done. Qed.
Lemma owes_held y a : owes y = Some a → held (tl (vm_of y)) = Some a.
Proof. each_txn y; cbn; try done. all: by destruct c. Qed.
End content.
