(* ===== verification/TransactionIsolation.v ===== *)
(** * Contents under concurrency

    Every step of every client keeps the invariant of TransactionContent. *)

From S2P Require Import Prelude GateWord OperationGate GateProtocol TimestampWindow VersionManager VersionThreads Timeline VersionSystem VersionProperties VersionEffects SnapshotStore SnapshotThreads SnapshotInvariant SnapshotProperties SnapshotEffects Transactions TransactionThreads TransactionSystem TransactionContent.
Import OperationGateWord OperationGate VersionManager GraphSnapshotStore.

Section isolation.
Context {Op : Type} (changes_planning : Op → bool).
Implicit Types (w : world Op) (y : txn Op) (ws : workspace Op) (a : Z).

Notation store_of := (store_of changes_planning).
Notation fact := (fact changes_planning).
Notation content_ok := (content_ok changes_planning).
Notation components_ok := (components_ok changes_planning).
Notation txn_step := (txn_step changes_planning).

(** Steps that log, apply, publish or replace something. *)
Definition writes_content y (e : env) : bool :=
  match y with
  | TInsertCommit _ _ _ IC_append | TCowCommit _ _ _ CP_append | TCurrentCommit _ _ _ (KC_append _)
  | TCompactCommit _ _ KM_append => match e_wal e with WalTrue => true | _ => false end
  | TInsertCommit _ _ _ (IC_ingest (_ :: _)) => true
  | TCowCommit _ _ _ (CP_publish (PU_exchange _)) => true
  | TCurrentCommit _ _ _ (KC_replace _ RP_storage) => true
  | TCheckpoint (CK_callback _ _) => negb (refused e)
  | _ => false
  end.

Ltac each_txn y := destruct y as [| |[]| |? ? []|[]| |? ? ? [| |[]| |]|[|?|? []]| |? ? []| |? ? ? [|?|[]|? []|[]]|? ? []|[|? []|]| |? ? []| |? ? ? [| |?|? []| |? [] []]
                |[|? []| | | | | |]|[]| |? ? [| | |[]]].

Lemma calm_memory cmd e y w y' w' :
  writes_content y e = false → txn_step cmd e y w = (y', w') → w_dead w' = false →
  w_log w' = w_log w ∧ w_torn w' = w_torn w ∧
  (w_graphs w' = w_graphs w ∨ ∃ l, w_graphs w' = w_graphs w ++ [l]).
Proof.
  intros Hw Hs Hd. each_txn y; cbn in Hw, Hs; try done;
    unfold call, proceed, on_vm, on_store, new_graph, append_wal in Hs;
    repeat (case_match; simplify_eq/=; try done); simplify_eq/=; try by auto; try (split_and!; [done..|right; by eexists]).
Qed.

Lemma slot_of w i sl : slots_ (w_store w) !! i = Some sl →
  slot_generation w i = snapshot_generation_ sl ∧
  slot_graph w i = match storage_ sl with Some g => graph_at w g | None => [] end.
Proof. intros H. unfold slot_generation, slot_graph. by rewrite H. Qed.

Lemma graph_at_Some w g l : w_graphs w !! g = Some l → graph_at w g = l.
Proof. intros H. exact (f_equal (default []) H). Qed.

(** Only the checkpoint resets the timeline. *)
Lemma resetting_is_reset x : resetting (tl x) = true → ∃ a r, x = VUpdReset a r.
Proof.
  destruct x as [|[]| | |[]| |? [[]|]|[| |[]]|[| | | |[]]|[| | |[]]| | | | | |? ? ? [|[]|]|? []|[]| |? ? [|[]|]|[]|];
    cbn; try done; eauto.
Qed.
Lemma reset_sealed y a r : vm_of y = VUpdReset a r → sealed y = true.
Proof. each_txn y; cbn; done. Qed.
Lemma resetting_step c o x s x' s' :
  vm_step c o x s = (x', s') → resetting (tl x') = true → ∃ a r, x = VUpdReset a r.
Proof.
  intros H Hr. destruct (resetting_is_reset _ Hr) as (a & r & ->).
  destruct x; cbn [vm_step] in H; unfold run in H; repeat case_match; simplify_eq/=; eauto;
    destruct c as [| | | | | | | | |[]| |]; simplify_eq/=; done.
Qed.

Section step.
Context (w : world Op) (ts : list (txn Op)) (t : nat) (y : txn Op) (cmd : txn_cmd Op) (e : env).
Context (y' : txn Op) (w' : world Op).
Let st := System w ts.
Let st' := System w' (<[t:=y']> ts).
Hypothesis Hcomp : components_ok st.
Hypothesis Hco : content_ok st.
Hypothesis Hy : ts !! t = Some y.
Hypothesis Hs : txn_step cmd e y w = (y', w').
Hypothesis Hd : w_dead w' = false.

Lemma y_in : y ∈ ts.
Proof. apply list_elem_of_lookup. eauto. Qed.
Lemma y'_in : y' ∈ <[t:=y']> ts.
Proof. apply list_elem_of_insert. eauto using lookup_lt_Some. Qed.
Lemma other_in u z : u ≠ t → ts !! u = Some z → z ∈ <[t:=y']> ts.
Proof. intros Hne Hu. apply list_elem_of_lookup. exists u. by rewrite list_lookup_insert_ne. Qed.
Lemma in_after z : z ∈ <[t:=y']> ts → z = y' ∨ ∃ u, u ≠ t ∧ ts !! u = Some z.
Proof.
  intros Hz. apply list_elem_of_lookup in Hz as [u Hu].
  apply list_lookup_insert_Some in Hu as [(_&E&_)|(Hne&Hu)]; [by left|right]. exists u. split; [by apply not_eq_sym|done].
Qed.
Lemma in_before z : z ∈ ts → z = y ∨ ∃ u, u ≠ t ∧ ts !! u = Some z.
Proof.
  intros Hz. apply list_elem_of_lookup in Hz as [u Hu].
  destruct (decide (u = t)) as [->|Hne]; [left; congruence|right; by exists u].
Qed.

Lemma comp_after : components_ok st'.
Proof. destruct Hcomp. split; eauto using step_vm_inv, step_store_inv. Qed.
Lemma moves : vm_moves y w y' w' ∧ store_moves changes_planning y w y' w'.
Proof. destruct Hcomp. by eapply (step_moves changes_planning w ts t y cmd e). Qed.

Lemma vm_at u z : ts !! u = Some z → (vm_of <$> ts) !! u = Some (vm_of z).
Proof. intros Hu. by rewrite list_lookup_fmap, Hu. Qed.
Lemma store_at u z : ts !! u = Some z → (store_of <$> ts) !! u = Some (store_of z).
Proof. intros Hu. by rewrite list_lookup_fmap, Hu. Qed.

(** *** Who else can be there *)

Lemma sole u z : vt_di (vm_of y) = true → u ≠ t → ts !! u = Some z →
  vt_ins (vm_of z) = 0 ∧ vt_di (vm_of z) = false ∧ active (tl (vm_of z)) = false.
Proof.
  intros Hdi Hne Hu. pose proof (vi_gate _ (proj1 Hcomp)) as Hg. cbn in Hg.
  assert (Hz : vm_of z ∈ vm_of <$> ts) by (apply list_elem_of_fmap; exists z; split; [done|]; apply list_elem_of_lookup; eauto).
  assert (Hyi : vm_of y ∈ vm_of <$> ts) by (apply list_elem_of_fmap; exists y; split; [done|apply y_in]).
  split_and!.
  - pose proof (gi_di _ _ Hg (vm_of y) Hyi Hdi) as H0.
    pose proof (zsum_elem_le ins _ (vm_of z) (λ x _, proj1 (ins_law x)) Hz). pose proof (ins_law (vm_of z)). cbn in *. lia.
  - destruct (vt_di (vm_of z)) eqn:E; [|done]. exfalso. apply Hne.
    eapply (owner_unique _ _ u t (vm_of z) (vm_of y) Hg); eauto using vm_at.
    + exact (di_law (vm_of z) E).
    + exact (di_law (vm_of y) Hdi).
  - by eapply (sole_others _ _ t u (vm_of y) (vm_of z) Hg); eauto using vm_at.
Qed.

Lemma not_owner u z : vt_ins (vm_of y) = 1 → u ≠ t → ts !! u = Some z → vt_di (vm_of z) = false.
Proof.
  intros Hin Hne Hu. destruct (vt_di (vm_of z)) eqn:E; [|done]. exfalso.
  pose proof (vi_gate _ (proj1 Hcomp)) as Hg. cbn in Hg.
  assert (Hz : vm_of z ∈ vm_of <$> ts) by (apply list_elem_of_fmap; exists z; split; [done|]; apply list_elem_of_lookup; eauto).
  assert (Hyi : vm_of y ∈ vm_of <$> ts) by (apply list_elem_of_fmap; exists y; split; [done|apply y_in]).
  pose proof (gi_di _ _ Hg (vm_of z) Hz E).
  pose proof (zsum_elem_le ins _ (vm_of y) (λ x _, proj1 (ins_law x)) Hyi). cbn in *. lia.
Qed.

(** A reader or inserter excludes sealed clients. *)
Lemma reader_unsealed z : vt_adm (vm_of y) = 1 → z ∈ ts → sealed z = false.
Proof.
  intros Ha Hz. destruct (sealed z) eqn:E; [|done]. exfalso.
  apply in_before in Hz as [->|(u & Hne & Hu)].
  - destruct (sealed_own _ E) as [Ho _]. clear -Ha Ho. revert Ha Ho. each_txn y; cbn; done.
  - pose proof (co_sealed _ _ Hco u t z y Hu E Hy (not_eq_sym Hne)). lia.
Qed.

Lemma others_passive u z x : sealed y = true → u ≠ t → ts !! u = Some z → fact x z.
Proof.
  intros Hse Hne Hu. destruct (sealed_own _ Hse) as [_ Hdi]. destruct (sole u z Hdi Hne Hu) as (? & ? & _).
  apply fact_passive; [|done|done]. by eapply (co_sealed _ _ Hco t u y z).
Qed.

(** Timestamps of two clients differ, and are above what can be read. *)
Lemma timeline_now a : held (tl (vm_of y)) = Some a → timeline (w_vm w) (tl <$> (vm_of <$> ts)).
Proof.
  intros Ha. eapply (active_timeline (vm_view st) t (vm_of y) (proj1 Hcomp)); [by apply vm_at|..]; by destruct (tl (vm_of y)).
Qed.
Lemma held_range a : held (tl (vm_of y)) = Some a → read_ts_ (w_vm w) < a < write_ts_ (w_vm w).
Proof.
  intros Ha. eapply (timeline_held (vm_view st) t (vm_of y) a); [by eapply timeline_now|by apply vm_at|done].
Qed.
Lemma held_other u z a : u ≠ t → ts !! u = Some z → held (tl (vm_of y)) = Some a → held (tl (vm_of z)) ≠ Some a.
Proof.
  intros Hne Hu Ha Hz. apply Hne. pose proof (timeline_now a Ha) as Ht.
  eapply (tl_uniq _ _ Ht u t (tl (vm_of z)) (tl (vm_of y)) a); rewrite ?list_lookup_fmap, ?Hu, ?Hy; cbn; try done;
    unfold tok; by rewrite ?Hz, ?Ha.
Qed.

(** *** Steps that leave the contents alone *)

Lemma cur_slot : ∃ sl, slots_ (w_store w) !! cur w = Some sl ∧ 0 < reader_count_ sl ∧ live sl.
Proof.
  destruct (current_slot _ _ (so_slots _ (proj2 Hcomp))) as (sl & Hl & Hc & Hlv). exists sl. split_and!; [done|lia|done].
Qed.
Lemma pinned_live u z i : ts !! u = Some z → role_of (store_of z) = RPin i →
  ∃ sl, slots_ (w_store w) !! i = Some sl ∧ 0 < reader_count_ sl.
Proof.
  intros Hu Hr. destruct (pinned_slot _ _ i (so_slots _ (proj2 Hcomp))) as (sl & Hl & Hc & _).
  { cbn. rewrite <- Hr. apply list_elem_of_fmap. exists (store_of z). split; [done|].
    apply list_elem_of_fmap. exists z. split; [done|]. apply list_elem_of_lookup. eauto. }
  exists sl. split; [done|lia].
Qed.

Section calm.
Hypothesis Hw : writes_content y e = false.

Lemma calm_slots j sl : slots_ (w_store w) !! j = Some sl → 0 < reader_count_ sl →
  ∃ sl', slots_ (w_store w') !! j = Some sl' ∧ storage_ sl' = storage_ sl ∧
    snapshot_generation_ sl' = snapshot_generation_ sl.
Proof.
  intros Hl Hc. destruct moves as [_ [[_ ->]|(c & o & x & H & Hx)]]; [by exists sl|].
  pose proof (store_at t y Hy) as Hsy.
  destruct (SnapshotProperties.step_ok id (w_store w) (w_store w') _ t (store_of y) x c o (proj2 Hcomp) Hsy H) as ([Hm|(Hwr & _)] & _).
  - destruct (move_keeps_live _ _ _ _ _ j sl (slots_before _ _ t (store_of y) (proj2 Hcomp) Hsy) Hm Hl Hc) as (sl' & Hl' & ? & _ & ? & _).
    by exists sl'.
  - assert (Hset : ∀ i f, (∀ sl, storage_ (f sl) = storage_ sl ∧ snapshot_generation_ (f sl) = snapshot_generation_ sl) →
      w_store w' = set_slot i f (w_store w) → ∃ sl', slots_ (w_store w') !! j = Some sl' ∧ storage_ sl' = storage_ sl ∧
        snapshot_generation_ sl' = snapshot_generation_ sl).
    { intros i f Hf ->. rewrite lookup_set_slot. case_decide; [subst i|by exists sl]. rewrite Hl. exists (f sl). split; [done|apply Hf]. }
    destruct (writes_cases _ Hwr) as [(i & g & p & cc & E)|(i & E)]; rewrite E in H.
    + assert (Hcc : cc ≠ RP_storage) by (intros ->; revert E Hw; clear; each_txn y; cbn; done).
      cbn [store_step] in H. apply resume_eq in H as [H _].
      destruct cc; cbn [replaceCurrentSnapshotInPlace fst] in H; try done; try (rewrite H; by exists sl); eapply Hset; try exact H; done.
    + cbn [store_step] in H. destruct c; try (injection H as _ H; rewrite <- H; by exists sl).
      unfold RefreshCurrentView in H. destruct (slots_ (w_store w) !! i) as [sl0|]; [|injection H as _ H; rewrite <- H; by exists sl].
      rewrite set_slot_twice in H. repeat case_match; simplify_eq; (eapply Hset; [|symmetry; eassumption]; done).
Qed.

Lemma calm_cur : cur w' = cur w.
Proof.
  unfold cur. destruct moves as [_ [[_ ->]|(c & o & x & H & Hx)]]; [done|].
  destruct (step_cur _ _ _ _ _ _ _ H) as [?|(i & g & E & _)]; [done|]. exfalso.
  revert E Hw. clear. each_txn y; cbn; done.
Qed.

Lemma calm_graph_at g l : w_graphs w !! g = Some l → w_graphs w' !! g = Some l.
Proof.
  intros Hg. destruct (calm_memory _ _ _ _ _ _ Hw Hs Hd) as (_ & _ & [->|(k & ->)]); [done|].
  by rewrite lookup_app_l by eauto using lookup_lt_Some.
Qed.

Lemma calm_slot i sl : slots_ (w_store w) !! i = Some sl → 0 < reader_count_ sl →
  slot_graph w' i = slot_graph w i ∧ slot_generation w' i = slot_generation w i.
Proof.
  intros Hl Hc. destruct (calm_slots i sl Hl Hc) as (sl' & Hl' & Est & Eg).
  destruct (slot_of _ _ _ Hl) as [-> ->], (slot_of _ _ _ Hl') as [-> ->]. split; [|done]. rewrite Est.
  destruct (storage_ sl) as [g|] eqn:E; [|done]. pose proof (co_ids _ _ Hco i sl g Hl E) as Hlt. cbn in Hlt.
  apply lookup_lt_is_Some in Hlt as [l Hg]. by rewrite (graph_at_Some w g l Hg), (graph_at_Some w' g l (calm_graph_at g l Hg)).
Qed.

Lemma calm_current : cur_graph w' = cur_graph w ∧ cur_gen w' = cur_gen w.
Proof. destruct cur_slot as (sl & Hl & Hc & _). unfold cur_graph, cur_gen. rewrite calm_cur. by eapply calm_slot. Qed.

Lemma unsealed u z : ts !! u = Some z → vt_adm (vm_of z) = 1 → sealed y ≠ true.
Proof.
  intros Hu Ha Hse. destruct (decide (u = t)) as [E|Hne].
  - assert (z = y) as -> by congruence. by rewrite (reader_unsealed y Ha y_in) in Hse.
  - pose proof (co_sealed _ _ Hco t u y z Hy Hse Hu Hne). lia.
Qed.

Lemma calm_read u z : ts !! u = Some z → vt_adm (vm_of z) = 1 → read_ts_ (w_vm w) ≤ read_ts_ (w_vm w').
Proof.
  intros Hu Ha. destruct moves as [[[_ ->]|(c & o & H)] _]; [lia|].
  apply (effect_mono (vm_view st) t (vm_of y) c o (vm_of y') (w_vm w') (proj1 Hcomp) (vm_at t y Hy) H).
  - destruct (resetting (tl (vm_of y))) eqn:E; [|done]. exfalso. apply (unsealed u z Hu Ha).
    destruct (resetting_is_reset _ E) as (a & r & Er). by eapply reset_sealed.
  - destruct (resetting (tl (vm_of y'))) eqn:E; [|done]. exfalso. apply (unsealed u z Hu Ha).
    destruct (resetting_step _ _ _ _ _ _ H E) as (a & r & Er). by eapply reset_sealed.
Qed.

Lemma calm_logged : logged w' = logged w.
Proof. unfold logged. by destruct (calm_memory _ _ _ _ _ _ Hw Hs Hd) as (-> & _ & _). Qed.

Lemma calm_undisturbed u z : ts !! u = Some z → undisturbed changes_planning w w' z.
Proof.
  intros Hu. destruct (calm_memory _ _ _ _ _ _ Hw Hs Hd) as (Hl & Ht & _). destruct calm_current. split; try done.
  - apply calm_cur.
  - apply calm_logged.
  - apply calm_graph_at.
  - intros i Hr. destruct (pinned_live u z i Hu Hr) as (sl & Hsl & Hc). by eapply calm_slot.
  - by eapply calm_read.
Qed.

Lemma calm_own_before : fact w' y.
Proof. eapply fact_undisturbed; [by eapply calm_undisturbed|]. apply (co_fact _ _ Hco), y_in. Qed.

(** A transaction that gets its timestamp has logged nothing. *)
Lemma calm_fresh a : held (tl (vm_of y)) = None → held (tl (vm_of y')) = Some a → fresh w' a.
Proof.
  intros Hn Ha. destruct moves as [[[E _]|(c & o & H)] _]; [congruence|].
  destruct (effect_reserved (vm_view st) t (vm_of y) c o (vm_of y') (w_vm w') (proj1 Hcomp) (vm_at t y Hy) H a Hn Ha) as (Ea & _).
  destruct (calm_memory _ _ _ _ _ _ Hw Hs Hd) as (_ & Ht & _). unfold fresh. rewrite calm_logged, Ht.
  destruct calm_current as [-> _]. cbn in Ea. split_and!.
  - apply at_ts_other. intros p Hp. pose proof (co_range _ _ Hco p (or_intror Hp)). cbn in *. lia.
  - apply at_ts_other. intros p Hp. pose proof (co_range _ _ Hco p (or_introl Hp)). cbn in *. lia.
  - intros Hin. pose proof (co_torn _ _ Hco a Hin). cbn in *. lia.
Qed.

(** The view a reader loads fits. *)
Lemma loaded_view_ok : vt_adm (vm_of y) = 1 → view_ok w (published w).
Proof.
  intros Ha. assert (Hun : ∀ z, z ∈ ts → sealed z = false) by (intros; by eapply reader_unsealed).
  assert (Ht : timeline (w_vm w) (tl <$> (vm_of <$> ts))).
  { apply (vi_time _ (proj1 Hcomp)). intros u x Hu. cbn in Hu. rewrite list_lookup_fmap in Hu.
    apply fmap_Some in Hu as (z & Hz & ->). destruct (resetting (tl (vm_of z))) eqn:E; [|done].
    destruct (resetting_is_reset _ E) as (a & r & Er). rewrite <- (Hun z), (reset_sealed z a r Er); [done|].
    apply list_elem_of_lookup. eauto. }
  split.
  - destruct (tl_pub _ _ Ht) as (v & g & Ep & Hv & _). pose proof (tl_range _ _ Ht). unfold published. rewrite Ep, unpack_pack.
    + cbn. lia.
    + unfold is_u32, U32_MAX in *. lia.
  - destruct (co_published _ _ Hco) as [H1 H2]. split; [done|]. intros E. destruct (H2 E) as [?|(z & Hz & a & Hr)]; [done|].
    destruct (replaced_swapped _ _ Hr) as [_ Hse]. rewrite Hun in Hse; done.
Qed.

(** The current snapshot under a view that fits. *)
Lemma current_snapshot_ok view : view_ok w view → snapshot_ok w view (cur w).
Proof.
  intros (H1 & H2 & H3). split; [done|]. split; [|split; [intros a _; apply (co_prefix _ _ Hco)|intros E; by apply H3]].
  intros a Ha Ht. apply (co_log _ _ Hco); [done|]. intros z Hz Ho. pose proof (owes_held _ _ Ho) as Hh.
  apply list_elem_of_lookup in Hz as [u Hu].
  assert (Htl : timeline (w_vm w) (tl <$> (vm_of <$> ts))).
  { eapply (active_timeline (vm_view st) u (vm_of z) (proj1 Hcomp)); [by apply vm_at|..]; by destruct (tl (vm_of z)). }
  destruct (timeline_held (vm_view st) u (vm_of z) a Htl (vm_at u z Hu) Hh) as [Hr _]. cbn in Hr. lia.
Qed.

(** *** What the moving client knows afterwards *)

Lemma pin_returns o c (s s' : store nat) i :
  PinCurrentSnapshot o c s = (s', Return i) → s' = s ∧ i = cur_slot_index_ s.
Proof.
  destruct c as [| | | |j c]; cbn; intros H; repeat case_match; simplify_eq/=; [|].
  - split; [done|]. symmetry. by apply Nat.eqb_eq.
  - unfold call in H. repeat case_match; simplify_eq.
Qed.

Ltac own_start Hf Hf0 Hlv Hfr H := let E := fresh in
  intros E; pose proof calm_own_before as Hf; pose proof (co_fact _ _ Hco y y_in) as Hf0;
  pose proof loaded_view_ok as Hlv; pose proof calm_fresh as Hfr; pose proof Hs as H;
  rewrite E in Hf, Hf0, Hlv, Hfr, H; clear E; cbn [sw] in Hf0.
Ltac own_cases H := unfold call, proceed, on_vm, on_store in H; repeat (case_match; simplify_eq/=; try done); simplify_eq/=; try done.

Lemma own_acquire c : y = TAcquire c → fact w' y'.
Proof.
  own_start Hf Hf0 Hlv Hfr H.
  destruct c as [c|view c|view i|view i c|c|]; cbn [TransactionThreads.txn_step ReadSnapshotLease_Acquire] in H.
  - destruct c as [a|]; cbn [acquire_read_operation] in H; [unfold embed in H; own_cases H|].
    own_cases H. by apply Hlv.
  - destruct (PinCurrentSnapshot (e_store e) c (w_store w)) as [s1 k] eqn:Ek. own_cases H.
    apply pin_returns in Ek as [-> ->]. by apply (current_snapshot_ok view).
  - own_cases H. split; [done|]. by apply Z.eqb_eq.
  - own_cases H.
  - own_cases H.
  - own_cases H.
Qed.

Lemma own_lease view i : y = TLease view i → fact w' y'.
Proof. own_start Hf Hf0 Hlv Hfr H. cbn in H. destruct cmd; simplify_eq/=; done. Qed.

Lemma own_release view i c : y = TRelease view i c → fact w' y'.
Proof.
  own_start Hf Hf0 Hlv Hfr H. destruct c; cbn [TransactionThreads.txn_step ReadSnapshotLease_release] in H; own_cases H.
Qed.

Ltac callee H f := destruct f as [? [?|?|?]] eqn:?; cbn in H;
  repeat match type of H with context [if fatal ?x then _ else _] => destruct (fatal x) eqn:? end; simplify_eq/=; try done.

Lemma own_insert_begin c : y = TInsertBegin c → fact w' y'.
Proof.
  own_start Hf Hf0 Hlv Hfr H. destruct c as [c|a c]; cbn [TransactionThreads.txn_step BeginMvccInsertTransaction] in H.
  - assert (Hh : held (tl (VInsOp c)) = None) by (by destruct c).
    callee H (acquire_insert_timestamp (e_vm e) c (w_vm w)). by apply Hfr.
  - callee H (PinCurrentSnapshot (e_store e) c (w_store w)).
    match goal with Ek : PinCurrentSnapshot _ _ _ = _ |- _ => apply pin_returns in Ek as [-> ->] end. done.
Qed.

Lemma own_insert ts0 i arc : y = TInsert ts0 i arc → fact w' y'.
Proof. own_start Hf Hf0 Hlv Hfr H. cbn in H. destruct cmd; simplify_eq/=; done. Qed.

Lemma own_insert_commit ts0 i arc c : y = TInsertCommit ts0 i arc c → fact w' y'.
Proof.
  intros Ey. pose proof Hw as Hw0. rewrite Ey in Hw0. revert Ey. own_start Hf Hf0 Hlv Hfr H.
  destruct c as [| |rest|out c|out c]; cbn [TransactionThreads.txn_step MvccInsertTransaction_Commit] in H.
  - destruct arc; simplify_eq/=; done.
  - cbn in Hw0. unfold append_wal in H. destruct (e_wal e); simplify_eq/=; done.
  - destruct rest; simplify_eq/=; done.
  - callee H (unpinSnapshotByIndex i c (w_store w)).
  - callee H (release_insert_timestamp ts0 (e_vm e) c (w_vm w)).
Qed.

Lemma own_cow_begin c : y = TCowBegin c → fact w' y'.
Proof.
  pose proof calm_current as Hcc. pose proof calm_cur as Hcu. own_start Hf Hf0 Hlv Hfr H.
  destruct c as [c|c|a c copy]; cbn [TransactionThreads.txn_step BeginSnapshotCowWriteTransaction] in H.
  - assert (Hh : held (tl (VUpdOp c)) = None) by (by destruct c as [| |[]]).
    callee H (acquire_update_timestamp (e_vm e) c (w_vm w)). split; [by apply Hfr|done].
  - assert (Hh : held (tl (VTryOp c)) = None) by (by destruct c as [| | |[]]).
    callee H (try_acquire_update_timestamp (e_vm e) c (w_vm w)).
    match goal with r : option Z |- _ => destruct r end; simplify_eq/=; try done. split; [by apply Hfr|done].
  - cbn in Hf, Hf0. destruct c as [c|i|i g p c]; cbn [CloneCurrentForUpdate] in H.
    + callee H (PinCurrentSnapshot (e_store e) c (w_store w)).
      match goal with Ek : PinCurrentSnapshot _ _ _ = _ |- _ => apply pin_returns in Ek as [-> ->] end. by destruct Hf.
    + destruct Hf0 as [_ ->]. destruct Hf as [Hfa _], Hcc as [Hcg _].
      repeat (case_match; simplify_eq/=; try done).
    + callee H (unpinSnapshotByIndex i c (w_store w)). destruct Hf as [Hfa Hfb]. split; [done|].
      unfold copy_ok. cbn. by rewrite app_nil_r.
Qed.

Lemma own_cow a ws : y = TCow a ws → fact w' y'.
Proof.
  own_start Hf Hf0 Hlv Hfr H. cbn in H, Hf. destruct Hf as [Hfa Hfb]. destruct cmd; simplify_eq/=; try done.
  split; [done|]. unfold copy_ok, edit, stamped in *. cbn. by rewrite Hfb, fmap_app, <- app_assoc.
Qed.

(** Where the client is at the store. *)
Lemma own_slot i P : role_of (store_of y) = ROwn i P → ∃ sl, slots_ (w_store w) !! i = Some sl ∧ P sl.
Proof.
  intros Hr. destruct (si_own _ _ (so_slots _ (proj2 Hcomp)) i P) as (sl & ? & ? & _); [|by exists sl].
  cbn. rewrite <- Hr. apply list_elem_of_fmap. exists (store_of y). split; [done|].
  apply list_elem_of_fmap. exists y. split; [done|apply y_in].
Qed.
Lemma own_thread_ok : thread_ok (w_store w) (store_of y).
Proof. apply (so_thread _ (proj2 Hcomp)), list_elem_of_fmap. exists y. split; [done|apply y_in]. Qed.

(** A generation that a client has reserved is above the current one. *)
Lemma own_reserved x' s' c o n :
  store_step id c o (store_of y) (w_store w) = (x', s') → reserved x' = Some n →
  (∀ n, reserved (store_of y) = Some n → cur_gen w < n) → cur_gen w < n.
Proof.
  intros H Hn Hres. pose proof (so_gen _ (proj2 Hcomp)) as Hge. cbn in Hge.
  destruct cur_slot as (sl & Hl & Hc & _). pose proof (ge_live _ _ Hge _ sl Hl Hc) as Hle.
  destruct (slot_of _ _ _ Hl) as [Eg _]. unfold cur_gen in *. rewrite Eg in *.
  destruct (reserved_step id c o (store_of y) (w_store w) x' s' (ge_last _ _ Hge) H) as [[_ [E|E]]|(_ & _ & _ & E)].
  - apply Hres. congruence.
  - congruence.
  - rewrite Hn in E. simplify_eq. lia.
Qed.

Lemma own_cow_prepare a ws c : y = TCowPrepare a ws c → fact w' y'.
Proof.
  intros Ey. pose proof own_reserved as Hres. pose proof own_slot as Hos. pose proof calm_current as [Hcg Hcn].
  rewrite Ey in Hres, Hos. revert Ey. own_start Hf Hf0 Hlv Hfr H.
  destruct c as [|g c|out c]; cbn [TransactionThreads.txn_step SnapshotCow_PrepareCommit] in H.
  - unfold new_graph in H. repeat (case_match; simplify_eq/=; try done). destruct Hf as [? ?]. split_and!; try done.
    by rewrite lookup_app_r, Nat.sub_diag.
  - cbn in Hf. destruct Hf as (Hf1 & Hf2 & Hf3 & _), Hf0 as (_ & _ & _ & Hf4).
    destruct (PrepareSnapshot _ _ _ _ _) as [s1 [c'|r|x]] eqn:E; simplify_eq/=; try done.
    + split_and!; try done. intros n Hn. rewrite Hcn. eapply (Hres _ _ CRelease (e_store e)); [by rewrite E|exact Hn|done].
    + destruct r as [i|]; simplify_eq/=; try done. split_and!; try done.
      destruct c as [|? []| | | | | | |? ? []]; cbn in E; repeat case_match; simplify_eq/=.
      destruct (Hos i _ eq_refl) as (sl & Hl & ->).
      assert (Hl' : slots_ (set_slot i (add_count (- kCleanupSentinel + 1)) (w_store w)) !! i =
        Some (add_count (- kCleanupSentinel + 1) (MkSlot (Some g) (Some g) g0 (committed_planning_generation changes_planning ws) kCleanupSentinel))).
      { by rewrite lookup_set_slot, decide_True, Hl by done. }
      set (w1 := set_store _ w) in *. destruct (slot_of w1 i _ Hl') as [En Eg]. unfold prepared_ok. rewrite En, Eg, Hcn. cbn.
      split; [by apply graph_at_Some|]. by apply Hf4.
  - callee H (finish_update_timestamp a None (e_vm e) c (w_vm w)).
Qed.

Lemma own_cow_prepared a ws i : y = TCowPrepared a ws i → fact w' y'.
Proof. own_start Hf Hf0 Hlv Hfr H. cbn in H. destruct cmd; simplify_eq/=; done. Qed.

Lemma finish_leaves a g o c v v' r : finish_update_timestamp a g o c v = (v', r) → r ≠ Goto FU_generation.
Proof. destruct c as [|c|c]; cbn; intros E; [by simplify_eq|..]; unfold embed in E;
  repeat case_match; by simplify_eq. Qed.

Lemma own_cow_commit a ws i c : y = TCowCommit a ws i c → fact w' y'.
Proof.
  intros Ey. pose proof Hw as Hw0. rewrite Ey in Hw0. revert Ey. own_start Hf Hf0 Hlv Hfr H.
  destruct c as [|c|c|g c|c]; cbn [TransactionThreads.txn_step SnapshotCow_CommitPrepared] in H.
  - cbn in Hw0. unfold append_wal in H. destruct (e_wal e); simplify_eq/=; done.
  - callee H (begin_update_commit (e_vm e) c (w_vm w)).
  - destruct c as [|g|g|old g c]; cbn [Publish] in H; cbn in Hf.
    + destruct (slots_ (w_store w) !! i) as [sl|] eqn:Hl; simplify_eq/=; try done.
      destruct (slot_of (set_store (w_store w) w) i sl Hl) as [En _]. rewrite En. destruct Hf as (?&?&?). by split_and!.
    + repeat (case_match; simplify_eq/=; try done).
    + done.
    + callee H (unpinSnapshotByIndex old c (w_store w)).
  - destruct (finish_update_timestamp a (Some g) (e_vm e) c (w_vm w)) as [v r] eqn:E.
    pose proof (finish_leaves _ _ _ _ _ _ _ E) as Hl. destruct r as [c'|r|x]; cbn in H; repeat case_match; simplify_eq/=; try done. all: by destruct c'.
  - callee H (SnapshotCow_Abort a i e c w).
Qed.

Lemma own_guard_acquire c : y = TGuardAcquire c → fact w' y'.
Proof.
  own_start Hf Hf0 Hlv Hfr H. destruct c as [c|a c|a c]; cbn [TransactionThreads.txn_step CurrentGraphWriteGuard_Acquire] in H.
  - assert (Hh : held (tl (VUpdOp c)) = None) by (by destruct c as [| |[]]).
    callee H (acquire_update_timestamp (e_vm e) c (w_vm w)). by apply Hfr.
  - callee H (MakeUpdateExclusive e c w).
  - callee H (PinCurrentSnapshot (e_store e) c (w_store w)).
Qed.

Lemma own_guard a i : y = TGuard a i → fact w' y'.
Proof.
  intros Ey. pose proof own_thread_ok as Hok. rewrite Ey in Hok. destruct Hok as [Hi _]. cbn in Hi. revert Ey.
  own_start Hf Hf0 Hlv Hfr H. cbn in H. destruct cmd; simplify_eq/=; try done.
  split; [done|]. unfold copy_ok. cbn. by rewrite app_nil_r.
Qed.

Lemma own_current a i ws : y = TCurrent a i ws → fact w' y'.
Proof.
  own_start Hf Hf0 Hlv Hfr H. cbn in H, Hf. destruct Hf as [Hfa Hfb]. destruct cmd; simplify_eq/=; try done.
  split; [done|]. unfold copy_ok, edit, stamped in *. cbn. by rewrite Hfb, fmap_app, <- app_assoc.
Qed.

Lemma own_current_commit a i ws c : y = TCurrentCommit a i ws c → fact w' y'.
Proof.
  intros Ey. pose proof Hw as Hw0. pose proof own_thread_ok as Hok. rewrite Ey in Hw0, Hok. revert Ey. own_start Hf Hf0 Hlv Hfr H.
  destruct c as [| |g|g c| |out g c]; cbn [TransactionThreads.txn_step CurrentCow_Commit] in H.
  - repeat (case_match; simplify_eq/=; try done).
  - unfold new_graph in H. destruct Hf as [Hfa Hfb]. pose proof Hfa as (Hf1 & Hf2 & Hf3).
    repeat (case_match; simplify_eq/=; try done); split_and!; try done; try by rewrite lookup_app_r, Nat.sub_diag.
    split; [|done]. by rewrite Hf1, Hf2.
  - cbn in Hw0. unfold append_wal in H. destruct (e_wal e); simplify_eq/=; done.
  - destruct c; cbn [replaceCurrentSnapshotInPlace] in H; repeat (case_match; simplify_eq/=; try done); simplify_eq/=; done.
  - destruct Hok as [Hi _]. cbn in Hi. simplify_eq/=. done.
  - destruct c as [c|c]; cbn [CurrentGraphWriteGuard_release] in H.
    + destruct g; callee H (unpinSnapshotByIndex i c (w_store w)).
    + destruct (finish_update_timestamp a g (e_vm e) c (w_vm w)) as [v r] eqn:E. pose proof (finish_leaves _ _ _ _ _ _ _ E) as Hl.
      destruct r as [c'|r|x]; cbn in H; repeat case_match; simplify_eq/=; try done. all: by destruct g, c'.
Qed.

Lemma own_checkpoint c : y = TCheckpoint c → fact w' y'.
Proof.
  intros Ey. pose proof Hw as Hw0. rewrite Ey in Hw0. revert Ey. own_start Hf Hf0 Hlv Hfr H.
  destruct c as [c|a c|a c|a i|a i|a i|a c|a c]; cbn [TransactionThreads.txn_step PublishManualCheckpoint] in H.
  - callee H (acquire_update_timestamp (e_vm e) c (w_vm w)).
  - callee H (MakeUpdateExclusive e c w).
  - destruct (WithCheckpointMaintenance c (w_store w)) as [? [?|?|[]]]; simplify_eq/=; done.
  - cbn in Hw0. destruct (refused e); [|done]. simplify_eq/=; done.
  - destruct (RefreshCurrentView i true (w_store w)) as [? []]; cbn in H; repeat case_match; simplify_eq/=; done.
  - simplify_eq/=; done.
  - callee H (finish_update_and_reset_timeline a (e_vm e) c (w_vm w)).
  - callee H (finish_update_timestamp a None (e_vm e) c (w_vm w)).
Qed.

Lemma own_rest :
  match y with
  | TIdle | TFailed _ | TCowAbort _ _ _ | TGuardRelease _ _ _ | TCompactBegin _ | TCompact _ _ | TCompactCommit _ _ _ => True
  | _ => False
  end → fact w' y'.
Proof.
  intros Hk. pose proof Hs as H. destruct y; cbn in Hk; try done; clear -H;
    cbn [TransactionThreads.txn_step] in H; unfold proceed in H; repeat case_match; simplify_eq/=; try done;
    destruct cmd as [| |[]| | | | | | | |]; done.
Qed.

Lemma own_calm : fact w' y'.
Proof.
  assert (H : ∀ z, y = z → fact w' y'); [|by apply (H y)]. intros z Ez. pose proof own_rest as Hr. rewrite Ez in Hr.
  destruct z; eauto using own_acquire, own_lease, own_release, own_insert_begin, own_insert, own_insert_commit, own_cow_begin,
    own_cow, own_cow_prepare, own_cow_prepared, own_cow_commit, own_guard_acquire, own_guard, own_current,
    own_current_commit, own_checkpoint.
Qed.
End calm.
End step.
End isolation.
