(* ===== verification/TransactionInvariant.v ===== *)
(** * The contents invariant in steps that leave contents alone

    The fields of [content_ok] after a step that neither logs, applies,
    publishes nor replaces anything. *)

From S2P Require Import Prelude GateWord OperationGate GateProtocol TimestampWindow VersionManager VersionThreads Timeline VersionSystem VersionProperties VersionEffects SnapshotStore SnapshotThreads SnapshotInvariant SnapshotProperties SnapshotEffects Transactions TransactionThreads TransactionSystem TransactionContent TransactionIsolation.
Import OperationGateWord OperationGate VersionManager GraphSnapshotStore.

Section calm.
Context {Op : Type} (changes_planning : Op → bool).
Context (w : world Op) (ts : list (txn Op)) (t : nat) (y : txn Op) (cmd : txn_cmd Op) (e : env).
Context (y' : txn Op) (w' : world Op).
Let st := System w ts.
Let st' := System w' (<[t:=y']> ts).
Hypothesis Hcomp : components_ok changes_planning st.
Hypothesis Hco : content_ok changes_planning st.
Hypothesis Hy : ts !! t = Some y.
Hypothesis Hs : txn_step changes_planning cmd e y w = (y', w').
Hypothesis Hd : w_dead w' = false.
Hypothesis Hw : writes_content y e = false.

Notation store_of := (store_of changes_planning).
Ltac each_txn y := destruct y as [| |[]| |? ? []|[]| |? ? ? [| |[]| |]|[|?|? []]| |? ? []| |? ? ? [|?|[]|? []|[]]|? ? []|[|? []|]| |? ? []| |? ? ? [| |?|? []| |? [] []]
                |[|? []| | | | | |]|[]| |? ? [| | |[]]].

Lemma memory : w_log w' = w_log w ∧ w_torn w' = w_torn w ∧ logged w' = logged w ∧ cur_graph w' = cur_graph w ∧ cur_gen w' = cur_gen w.
Proof.
  destruct (calm_memory _ _ _ _ _ _ _ Hw Hs Hd) as (? & ? & _).
  destruct (calm_current changes_planning w ts t y cmd e y' w'); try done.
  split_and!; try done. by eapply calm_logged.
Qed.

Lemma vm_effect : vm_moves y w y' w'.
Proof. by destruct (moves changes_planning w ts t y cmd e y' w'). Qed.

Lemma fact_before : fact changes_planning w y.
Proof. apply (co_fact _ _ Hco), list_elem_of_lookup. eauto. Qed.

(** A reset happens when everything is in the checkpoint. *)
Lemma reset_emptied a r : vm_of y = VUpdReset a r → emptied w'.
Proof.
  intros E. assert (Ey : y = TCheckpoint (CK_reset a r)) by (clear -E; revert E; each_txn y; cbn; naive_solver).
  pose proof fact_before as Hf. rewrite Ey in Hf. cbn in Hf. destruct Hf as (H1 & H2 & H3).
  destruct memory as (E1 & E2 & _ & E4 & _). by rewrite <- E1, <- E2, <- E4 in *.
Qed.

Lemma reset_or_grow :
  emptied w' ∨ (read_ts_ (w_vm w) ≤ read_ts_ (w_vm w') ∧ write_ts_ (w_vm w) ≤ write_ts_ (w_vm w')).
Proof.
  destruct vm_effect as [[_ ->]|(c & o & H)]; [right; lia|].
  destruct (resetting (tl (vm_of y))) eqn:E1; [destruct (resetting_is_reset _ E1) as (a & r & Er); left; by eapply reset_emptied|].
  destruct (resetting (tl (vm_of y'))) eqn:E2; [destruct (resetting_step _ _ _ _ _ _ H E2) as (a & r & Er); left; by eapply reset_emptied|].
  right. by apply (effect_mono (vm_view st) t (vm_of y) c o (vm_of y') (w_vm w') (proj1 Hcomp) (vm_at ts t y Hy) H).
Qed.

(** ** What is logged and applied *)

Lemma owes_step a : owes y = Some a → owes y' = Some a ∨ ∃ i arc, y = TInsertCommit a i arc (IC_ingest []).
Proof.
  intros Ho. pose proof (vi_ok _ (proj1 (comp_after changes_planning w ts t y cmd e y' w' Hcomp Hy Hs Hd)) (vm_of y')) as Hok.
  assert (Hin : vm_of y' ∈ vts (vm_view st')).
  { cbn. apply list_elem_of_fmap. exists y'. split; [done|]. apply list_elem_of_insert. eauto using lookup_lt_Some. }
  specialize (Hok Hin). clear Hin. pose proof Hs as H. revert Ho Hw H Hd Hok. clear.
  destruct y as [| |[]| |? ? []|[]| |? ? ? [| |[]| |]|[|?|? []]| |? ? []| |? ? ? [|?|[]|? []|[]]|? ? []|[|? []|]| |? ? []| |? ? ? [| |?|? []| |? [] []]
                |[|? []| | | | | |]|[]| |? ? [| | |[]]]; cbn; intros Ho Hw H Hd Hok; simplify_eq; eauto.
  - unfold begin_update_commit, on_gate in H. destruct (transition_phase _ _ _ _ _) as [g [c'|v|x]] eqn:E; simplify_eq/=; auto.
    apply transition_raises in E. subst x. simplify_eq/=. by destruct Hok.
  - repeat case_match; simplify_eq/=; auto; done.
  - repeat case_match; simplify_eq/=; auto; done.
  - repeat case_match; simplify_eq/=; auto; done.
  - repeat case_match; simplify_eq/=; auto; done.
Qed.

Lemma calm_co_log a : a ∉ w_torn w' → (∀ z, z ∈ <[t:=y']> ts → owes z ≠ Some a) →
  at_ts a (cur_graph w') = at_ts a (logged w').
Proof.
  destruct memory as (_ & -> & -> & -> & _). intros Ht Hn. destruct (decide (owes y = Some a)) as [Ho|Hno].
  - destruct (owes_step a Ho) as [Ho'|(i & arc & Ey)].
    + exfalso. apply (Hn y'); [|done]. apply list_elem_of_insert. eauto using lookup_lt_Some.
    + pose proof fact_before as Hf. rewrite Ey in Hf. cbn in Hf. destruct Hf as [[Hf _] _]. by rewrite app_nil_r in Hf.
  - apply (co_log _ _ Hco); [done|]. intros z Hz. destruct (in_before ts t y Hy z Hz) as [->|(u & Hne & Hu)]; [done|].
    by eapply Hn, other_in.
Qed.

Lemma calm_co_range p : p ∈ cur_graph w' ∨ p ∈ logged w' → a_ts p < write_ts_ (w_vm w').
Proof.
  intros Hp. destruct reset_or_grow as [(El & _ & Eg)|[_ Hle]].
  - exfalso. unfold logged in Hp. rewrite El, Eg in Hp. destruct Hp as [Hp|Hp]; by apply elem_of_nil in Hp.
  - destruct memory as (_ & _ & El & Eg & _). rewrite El, Eg in Hp. pose proof (co_range _ _ Hco p Hp). cbn in *. lia.
Qed.
Lemma calm_co_torn a : a ∈ w_torn w' → a < write_ts_ (w_vm w').
Proof.
  intros Hp. destruct reset_or_grow as [(_ & Et & _)|[_ Hle]].
  - rewrite Et in Hp. by apply elem_of_nil in Hp.
  - destruct memory as (_ & Et & _). rewrite Et in Hp. pose proof (co_torn _ _ Hco a Hp). cbn in *. lia.
Qed.

(** ** What is visible *)

(** A publication that completes has been made readable. *)
Lemma swapped_step a : swapped y = Some a →
  swapped y' = Some a ∨
  (a < write_ts_ (w_vm w) → a ≤ read_ts_ (w_vm w')) ∧ ∃ g b n, vm_of y = VUpdFinish a g b (FU_complete (CW_advance (ADV_publish (read_ts_ (w_vm w)) n))).
Proof.
  intros Ha.
  assert (Hfin : ∀ g b c v r, vm_of y = VUpdFinish a g b c → completed c = false →
    finish_update_timestamp a g (e_vm e) c (w_vm w) = (v, r) → w_vm w' = v →
    match r with Goto c' => vm_of y' = VUpdFinish a g b c' | _ => True end →
    match r with
    | Goto c' => completed c' = false ∨ (a < write_ts_ (w_vm w) → a ≤ read_ts_ (w_vm w')) ∧ ∃ g b n, vm_of y = VUpdFinish a g b (FU_complete (CW_advance (ADV_publish (read_ts_ (w_vm w)) n)))
    | _ => False end).
  { intros g b c v r Ey Hc E Ew Hv'.
    assert (Hr : match r with Goto _ => True | _ => False end).
    { clear -E Hc. destruct c as [|c|c]; cbn in E; [by simplify_eq|destruct c as [| | |[]|]; cbn in E; repeat case_match; by simplify_eq/=|done]. }
    destruct r as [c'|?|?]; try done. destruct (completed c') eqn:Hc'; [right|by left].
    assert (H : vm_step (CFinish g) (e_vm e) (vm_of y) (w_vm w) = (vm_of y', w_vm w')) by (rewrite Ey; cbn; by rewrite E, Hv', Ew).
    destruct c as [|c|c]; [cbn in E; simplify_eq; done| |done].
    assert (Hne : c ≠ CW_unlock) by (by intros ->).
    assert (Hx' : ∃ c0, vm_of y' = VUpdFinish a g b (FU_complete CW_unlock) ∨ vm_of y' = VUpdFinish a g b (FU_reopen c0)).
    { rewrite Hv'. destruct c' as [|[]|c']; try done; [exists PH_load; by left|eexists; by right]. }
    destruct Hx' as [c0 Hx'].
    destruct (effect_completed (vm_view st) t (vm_of y) (CFinish g) (e_vm e) (vm_of y') (w_vm w') (proj1 Hcomp) (vm_at ts t y Hy) H a g b c c0 Ey Hne Hx') as [H1 [n H2]].
    split; [done|]. exists g, b, n. by rewrite Ey, H2. }
  pose proof Hs as H. pose proof Hw as Hw0. destruct y as [| |[]| |? ? []|[]| |? ? ? [| |[]| |]|[|?|? []]| |? ? []| |a0 ws i [|?|[]|g c|[]]|? ? []|[|? []|]| |? ? []| |a0 i ws [| |?|? []| |? [g|] [c|c]]
                |[|? []| | | | | |]|[]| |? ? [| | |[]]] eqn:Ey; cbn in Ha; simplify_eq; cbn [writes_content] in Hw0; try done;
    cbn [txn_step SnapshotCow_CommitPrepared CurrentCow_Commit CurrentGraphWriteGuard_release replaceCurrentSnapshotInPlace Publish] in H.
  - destruct (unpinSnapshotByIndex _ _ _) as [? [?|?|?]] eqn:E; cbn in H; repeat case_match; simplify_eq/=; auto; try done.
    apply unpin_raises in E. congruence.
  - destruct (completed c) eqn:Hc; [done|]. simplify_eq.
    destruct (finish_update_timestamp _ _ _ _ _) as [v r] eqn:E.
    pose proof (Hfin (Some g) true c v r eq_refl Hc E) as Hf. destruct r as [c'|r|x]; cbn in H; repeat case_match; simplify_eq/=; try (by destruct Hf).
    destruct (Hf eq_refl eq_refl) as [->|?]; auto.
  - simplify_eq/=; auto.
  - simplify_eq/=; auto.
  - simplify_eq/=; auto.
  - destruct (unpinSnapshotByIndex _ _ _) as [? [?|?|?]] eqn:E; cbn in H; repeat case_match; simplify_eq/=; auto; try done.
    apply unpin_raises in E. congruence.
  - destruct (completed c) eqn:Hc; [done|]. simplify_eq.
    destruct (finish_update_timestamp _ _ _ _ _) as [v r] eqn:E.
    pose proof (Hfin (Some g) true c v r eq_refl Hc E) as Hf. destruct r as [c'|r|x]; cbn in H; repeat case_match; simplify_eq/=; try (by destruct Hf).
    destruct (Hf eq_refl eq_refl) as [->|?]; auto.
Qed.

Lemma calm_co_updates p : p ∈ cur_graph w' → a_update p = true →
  a_ts p ≤ read_ts_ (w_vm w') ∨ ∃ z, z ∈ <[t:=y']> ts ∧ swapped z = Some (a_ts p).
Proof.
  intros Hp Hu. destruct reset_or_grow as [(_ & _ & Eg)|[Hle _]]; [rewrite Eg in Hp; by apply elem_of_nil in Hp|].
  destruct memory as (_ & _ & _ & Eg & _). rewrite Eg in Hp.
  destruct (co_updates _ _ Hco p Hp Hu) as [?|(z & Hz & Hsw)]; [left; cbn in *; lia|].
  destruct (in_before ts t y Hy z Hz) as [->|(u & Hne & Hu')].
  - destruct (swapped_step (a_ts p) Hsw) as [Hsw'|[Hle' _]]; [|left; apply Hle', (co_range _ _ Hco); by left].
    right. exists y'. split; [|done]. apply list_elem_of_insert. eauto using lookup_lt_Some.
  - right. exists z. split; [by eapply other_in|done].
Qed.

(** ** Generations *)

Lemma finish_came c o x s s' a g b c' :
  vm_step c o x s = (VUpdFinish a g b (FU_complete c'), s') → ∃ c0, x = VUpdFinish a g b c0.
Proof.
  intros H. destruct x; cbn [vm_step] in H; unfold run in H; repeat case_match; simplify_eq/=; eauto;
    destruct c as [| | | | | | | | |[]| |]; simplify_eq/=; done.
Qed.

Lemma vm_step_installed c o x s x' s' ls :
  vm_step c o x s = (x', s') → tmove s (tl x) (tl x') s' → ls = tl x →
  installed_snapshot_generation_ s' = installed_snapshot_generation_ s ∨
  ∃ a g b, x = VUpdFinish a (Some g) b FU_generation ∧ installed_snapshot_generation_ s' = g.
Proof.
  intros H Hm _. destruct (tmove_generation _ _ _ _ Hm) as [?|(a & E & E')]; [by left|right].
  assert (Ex : ∃ g b, x' = VUpdFinish a (Some g) b (FU_complete CW_mark)).
  { revert E'. clear. destruct x' as [|[]| | |[]| |? [[]|]|[| |[]]|[| | | |[]]|[| | |[]]| | | | | |? [] ? [|[]|]|? []|[]| |? ? [|[]|]|[]|];
      cbn; intros; simplify_eq; eauto. }
  destruct Ex as (g & b & ->). destruct (finish_came _ _ _ _ _ _ _ _ _ H) as (c0 & ->).
  destruct c0 as [|[]|]; cbn in E; simplify_eq. exists a, g, b. split; [done|]. cbn in H. by simplify_eq/=.
Qed.

Lemma installed_step :
  installed_snapshot_generation_ (w_vm w') = installed_snapshot_generation_ (w_vm w) ∧ (uninstalled y = true → uninstalled y' = true) ∨
  installed_snapshot_generation_ (w_vm w') = cur_gen w'.
Proof.
  destruct memory as (_ & _ & _ & _ & ->). pose proof fact_before as Hf. 
  assert (Hfin : ∀ a g b, vm_of y = VUpdFinish a (Some g) b FU_generation → g = cur_gen w).
  { intros a g b E. revert Hf E. clear. each_txn y; cbn; intros; simplify_eq; done. }
  destruct (uninstalled y) eqn:Hu.
  - assert (Hgo : (∃ a ws i old g c, y = TCowCommit a ws i (CP_publish (PU_unpin old g c))) ∨ ∃ a ws i g, y = TCowCommit a ws i (CP_release g FU_generation)).
    { revert Hu. clear. each_txn y; cbn; intros; simplify_eq; eauto 9. }
    pose proof Hs as H. destruct Hgo as [(a & ws & i & old & g & c & E)|(a & ws & i & g & E)]; rewrite E in H;
      cbn [txn_step SnapshotCow_CommitPrepared Publish] in H.
    + left. destruct (unpinSnapshotByIndex _ _ _) as [? [?|?|?]] eqn:Eu; cbn in H; repeat case_match; simplify_eq/=; try done.
      apply unpin_raises in Eu. congruence.
    + right. rewrite E in Hf. cbn in H, Hf. by simplify_eq/=.
  - destruct vm_effect as [[_ ->]|(c & o & H)]; [by left|].
    pose proof (effect_move (vm_view st) t (vm_of y) c o (vm_of y') (w_vm w') (proj1 Hcomp) (vm_at ts t y Hy) H) as Hm.
    destruct (vm_step_installed c o _ _ _ _ _ H Hm eq_refl) as [?|(a & g & b & E & ->)]; [by left|right]. by eapply Hfin.
Qed.

Lemma calm_co_installed : (∀ z, z ∈ <[t:=y']> ts → uninstalled z = false) →
  installed_snapshot_generation_ (w_vm w') = cur_gen w'.
Proof.
  intros Hn. destruct installed_step as [[-> Hu]|?]; [|done]. destruct memory as (_ & _ & _ & _ & ->).
  apply (co_installed _ _ Hco). intros z Hz. destruct (in_before ts t y Hy z Hz) as [->|(u & Hne & Hu')].
  - destruct (uninstalled y) eqn:E; [|done]. rewrite <- (Hu eq_refl). apply Hn, list_elem_of_insert. eauto using lookup_lt_Some.
  - by eapply Hn, other_in.
Qed.

(** While a client is on the timeline, nobody else has unpublished contents. *)
Lemma publisher_alone z : active (tl (vm_of y)) = true → z ∈ ts → vt_di (vm_of z) = true → z = y.
Proof.
  intros Ha Hz Hdi. destruct (in_before ts t y Hy z Hz) as [?|(u & Hne & Hu)]; [done|exfalso].
  destruct (sole changes_planning w ts u z Hcomp Hu t y Hdi (not_eq_sym Hne) Hy) as (_ & _ & Hf). congruence.
Qed.
Lemma installed_now : active (tl (vm_of y)) = true → uninstalled y = false →
  installed_snapshot_generation_ (w_vm w) = cur_gen w.
Proof.
  intros Ha Hu. apply (co_installed _ _ Hco). intros z Hz. destruct (uninstalled z) eqn:E; [|done].
  rewrite (publisher_alone z Ha Hz (uninstalled_di z E)) in E. congruence.
Qed.

Lemma cur_gen_u32 : is_u32 (cur_gen w).
Proof.
  destruct (cur_slot changes_planning w ts Hcomp) as (sl & Hl & Hc & _). pose proof (so_gen _ (proj2 Hcomp)) as Hge.
  pose proof (ge_live _ _ Hge _ sl Hl Hc). pose proof (ge_last _ _ Hge). pose proof (co_gen _ _ Hco). cbn in *.
  unfold cur_gen in *. rewrite (proj1 (slot_of w _ sl Hl)) in *. unfold is_u32 in *. lia.
Qed.

(** ** The published view *)

(** What a publication by the advance loop publishes. *)
Lemma advance_published a d : tl (vm_of y) = TCompl a d (CW_advance (ADV_publish (read_ts_ (w_vm w)) (installed_snapshot_generation_ (w_vm w)))) →
  w_vm w' = set_published (PackPublishedReadView (ReadView (read_ts_ (w_vm w)) (installed_snapshot_generation_ (w_vm w)))) (w_vm w) →
  snapshot_generation (published w') = cur_gen w ∧ updates_upto (visibility_ts (published w')) (cur_graph w).
Proof.
  intros Etl Ew. assert (Ha : active (tl (vm_of y)) = true) by (by rewrite Etl).
  assert (Hu : uninstalled y = false) by (revert Etl; clear; each_txn y; cbn; done).
  pose proof (installed_now Ha Hu) as Ei. pose proof cur_gen_u32 as Hg32.
  destruct (effect_timeline (vm_view st) t (vm_of y) (proj1 Hcomp) (vm_at ts t y Hy)) as [Ht _]; [done|by rewrite Etl|].
  pose proof (tl_range _ _ Ht) as Hrg. cbn in Hrg. unfold published. rewrite Ew. cbn [published_read_view_ set_published].
  rewrite Ei, unpack_pack by (unfold is_u32, U32_MAX in *; lia). cbn. split; [by apply u32_id|].
  intros p Hp Hup. destruct (co_updates _ _ Hco p Hp Hup) as [?|(z & Hz & Hsw)]; [done|].
  rewrite (publisher_alone z Ha Hz (swapped_di z _ Hsw)) in Hsw.
  pose proof (co_range _ _ Hco p (or_introl Hp)) as Hlt. cbn in Hlt.
  destruct (swapped_step (a_ts p) Hsw) as [Hsw'|[Hle _]]; [|rewrite Ew in Hle; by apply Hle].
  exfalso. set (c := FU_complete (CW_advance (ADV_publish (read_ts_ (w_vm w)) (installed_snapshot_generation_ (w_vm w))))).
  assert (Hk : (∃ b ws i g, y = TCowCommit b ws i (CP_release g c)) ∨ ∃ b i ws out g, y = TCurrentCommit b i ws (KC_release out (Some g) (GR_finish c))).
  { subst c. revert Hsw Etl. clear. set (n := ADV_publish _ _). clearbody n.
    destruct y as [| |[]| |? ? []|[]| |? ? ? [| |[]| |]|[|?|? []]| |? ? []| |a0 ws i [|?|[]|g c|[]]|? ? []|[|? []|]| |? ? []| |a0 i ws [| |?|? []| |? [g|] [c|c]]
                |[|? []| | | | | |]|[]| |? ? [| | |[]]]; cbn; try done; (destruct c as [|c|c]; [done| |done]); destruct c; cbn; intros; simplify_eq; eauto 9. }
  pose proof Hs as H. destruct Hk as [(b & ws & i & g & Ey)|(b & i & ws & out & g & Ey)]; rewrite Ey in H, Hsw; cbn in H, Hsw; by simplify_eq/=.
Qed.

Lemma replaced_step a : replaced y = Some a →
  replaced y' = Some a ∨
  tl (vm_of y) = TCompl a true (CW_advance (ADV_publish (read_ts_ (w_vm w)) (installed_snapshot_generation_ (w_vm w)))) ∧
  w_vm w' = set_published (PackPublishedReadView (ReadView (read_ts_ (w_vm w)) (installed_snapshot_generation_ (w_vm w)))) (w_vm w).
Proof.
  intros Ha. destruct (replaced_swapped _ _ Ha) as [Hsw _]. destruct (swapped_step a Hsw) as [Hsw'|(_ & g & b & n & E)].
  - left. revert Ha Hsw' Hs. clear.
    destruct y as [| |[]| |? ? []|[]| |? ? ? [| |[]| |]|[|?|? []]| |? ? []| |a0 ws i [|?|[]|g c|[]]|? ? []|[|? []|]| |? ? []| |a0 i ws c
                |[|? []| | | | | |]|[]| |? ? [| | |[]]]; cbn [replaced]; try done. intros _ Hsw' H.
    cbn [txn_step] in H. unfold proceed in H. repeat case_match; simplify_eq; try done.
  - right. assert (Ey : ∃ i ws out g0, y = TCurrentCommit a i ws (KC_release out (Some g0)
      (GR_finish (FU_complete (CW_advance (ADV_publish (read_ts_ (w_vm w)) n)))))).
    { revert Ha E. clear. set (c := ADV_publish _ _). clearbody c. each_txn y; cbn; intros; simplify_eq/=; eauto 9. }
    destruct Ey as (i & ws & out & g0 & Ey).
    assert (n = installed_snapshot_generation_ (w_vm w)) as ->.
    { destruct (effect_timeline (vm_view st) t (vm_of y) (proj1 Hcomp) (vm_at ts t y Hy)) as [_ Hpc]; [by rewrite E..|].
      rewrite Ey in Hpc. by destruct Hpc. }
    pose proof Hs as H. rewrite Ey in H |- *. cbn in H. by simplify_eq/=.
Qed.

Lemma calm_co_published :
  snapshot_generation (published w') ≤ cur_gen w' ∧
  (snapshot_generation (published w') = cur_gen w' →
   updates_upto (visibility_ts (published w')) (cur_graph w') ∨ ∃ z, z ∈ <[t:=y']> ts ∧ is_Some (replaced z)).
Proof.
  assert (Hin : y' ∈ <[t:=y']> ts) by (apply list_elem_of_insert; eauto using lookup_lt_Some).
  pose proof memory as (_ & _ & _ & -> & ->). destruct (co_published _ _ Hco) as [Hle Heq]. cbn in Hle, Heq.
  assert (Hsame : published_read_view_ (w_vm w') = published_read_view_ (w_vm w) →
    snapshot_generation (published w') ≤ cur_gen w ∧ (snapshot_generation (published w') = cur_gen w →
     updates_upto (visibility_ts (published w')) (cur_graph w) ∨ ∃ z, z ∈ <[t:=y']> ts ∧ is_Some (replaced z))).
  { intros Ep. destruct (replaced y) as [a|] eqn:Ha; [destruct (replaced_step a Ha) as [Hr|[Etl Ew]]|].
    2: destruct (advance_published a true Etl Ew) as [-> Hup]; split; [done|by left].
    all: unfold published; rewrite Ep; split; [done|]; intros E; destruct (Heq E) as [?|(z & Hz & b & Hb)]; [by left|];
      destruct (in_before ts t y Hy z Hz) as [->|(u & Hne & Hu)]; [|right; exists z; split; [by eapply other_in|by exists b]].
    - right. exists y'. by rewrite Hr.
    - congruence. }
  destruct vm_effect as [[Ev Ew]|(c & o & H)]; [apply Hsame; by rewrite Ew|].
  pose proof (effect_move (vm_view st) t (vm_of y) c o (vm_of y') (w_vm w') (proj1 Hcomp) (vm_at ts t y Hy) H) as Hm.
  destruct (tmove_published _ _ _ _ Hm) as [Ep|[Hre|(a & d & Etl & Ew)]].
  - intros Ha Hr. by apply (effect_timeline (vm_view st) t (vm_of y) (proj1 Hcomp) (vm_at ts t y Hy)).
  - by apply Hsame.
  - destruct (resetting_is_reset _ Hre) as (a & r & Er). rewrite Er in H. cbn [vm_step] in H. unfold run in H.
    assert (Hp : published_read_view_ (w_vm w') = published_read_view_ (w_vm w) ∨ ∃ g, r = FR_publish g ∧ w_vm w' = set_published (PackPublishedReadView (ReadView 0 g)) (w_vm w)).
    { rewrite Er in Hre. clear -H Hre. destruct r; cbn in H, Hre; try done; injection H as _ H; rewrite <- H; first [by left | right; eexists; by split]. }
    destruct Hp as [?|(g & -> & Ew)]; [by apply Hsame|].
    pose proof (vi_reset _ (proj1 Hcomp) t (vm_of y) (FR_publish g) (vm_at ts t y Hy)) as Hg. rewrite Er in Hg.
    destruct (Hg eq_refl) as (_ & _ & _ & ->). cbn in Ew. clear Hg.
    assert (Ei : installed_snapshot_generation_ (w_vm w) = cur_gen w).
    { apply installed_now; [by rewrite Er|]. clear -Er. revert Er. each_txn y; cbn; done. }
    unfold published. rewrite Ew. cbn [published_read_view_ set_published].
    rewrite Ei, unpack_pack, u32_id by (by apply cur_gen_u32 || (unfold is_u32; lia)). cbn. split; [done|]. intros _. left.
    destruct (reset_emptied _ _ Er) as (_ & _ & Eg). destruct memory as (_ & _ & _ & Eg' & _). rewrite <- Eg', Eg.
    intros p Hp. by apply elem_of_nil in Hp.
  - destruct (advance_published a d Etl Ew) as [-> Hup]. split; [done|]. by left.
Qed.

(** ** Slots and exclusion *)

Lemma calm_co_ids i sl g : slots_ (w_store w') !! i = Some sl → storage_ sl = Some g → (g < length (w_graphs w'))%nat.
Proof.
  intros Hl Hg. destruct (calm_memory _ _ _ _ _ _ _ Hw Hs Hd) as (_ & _ & Hgs).
  assert (Hlen : (length (w_graphs w) ≤ length (w_graphs w'))%nat).
  { destruct Hgs as [->|(l & ->)]; [done|]. rewrite length_app. lia. }
  assert (Hold : ∀ sl0, slots_ (w_store w) !! i = Some sl0 → storage_ sl0 = Some g → (g < length (w_graphs w'))%nat).
  { intros sl0 H1 H2. pose proof (co_ids _ _ Hco i sl0 g H1 H2). cbn in *. lia. }
  destruct (moves changes_planning w ts t y cmd e y' w' Hcomp Hy Hs Hd) as [_ [[_ E]|(c & o & x & H & _)]].
  { rewrite E in Hl. by eapply Hold. }
  destruct (step_storage id _ _ _ _ _ _ i sl g H Hl Hg) as [(sl0 & H1 & H2)|Hsup]; [by eapply Hold|].
  assert (Hin : is_Some (w_graphs w !! g)).
  { pose proof fact_before as Hf. revert Hf Hsup. clear. unfold supplies.
    each_txn y; cbn; intros Hf [(pp & cc & E)|(ii & pp & cc & E)]; simplify_eq; try (by destruct Hf as (_ & _ & Hf & _); eauto); try done.
    all: by destruct Hf as (_ & _ & Hf); eauto. }
  apply lookup_lt_is_Some in Hin. lia.
Qed.

Lemma sealed_step : sealed y' = true → sealed y = true ∨ vt_dr (vm_of y') = true.
Proof.
  pose proof Hs as H. revert H. clear. intros H.
  destruct y as [| |[]| |? ? []|[]| |? ? ? [| |[]| |]|[|?|? []]| |? ? []| |? ? ? [|?|[]|? []|[]]|? ? []|[|? c|]| |? ? []| |? ? ? c
                |[|? c| | | | | |]|[]| |? ? [| | |[]]]; cbn [sealed]; auto; cbn [txn_step] in H; unfold proceed in H;
    repeat case_match; simplify_eq/=; auto; try done; try (destruct cmd as [| |[]| | | | | | | |]; done).
  all: match goal with H : _ = (_, Goto ?p) |- _ => destruct p; cbn; auto; try done;
    cbn [PublishManualCheckpoint] in H; unfold call in H; repeat case_match; by simplify_eq end.
Qed.

Lemma calm_co_sealed t1 u x z :
  <[t:=y']> ts !! t1 = Some x → sealed x = true → <[t:=y']> ts !! u = Some z → u ≠ t1 → vt_adm (vm_of z) = 0.
Proof.
  intros Hx Hse Hz Hne. pose proof (comp_after changes_planning w ts t y cmd e y' w' Hcomp Hy Hs Hd) as Hc'.
  apply list_lookup_insert_Some in Hx as [(<- & <- & _)|(Hx1 & Hx)].
  - rewrite list_lookup_insert_ne in Hz by done. destruct (sealed_step Hse) as [Hy1|Hdr].
    + by eapply (co_sealed _ _ Hco t u y z).
    + destruct (sealed_own _ Hse) as [_ Hdi]. pose proof (vi_gate _ (proj1 Hc')) as Hg. cbn in Hg.
      assert (Ht : (vm_of <$> <[t:=y']> ts) !! t = Some (vm_of y')).
      { rewrite list_lookup_fmap, list_lookup_insert_eq; [done|]. eauto using lookup_lt_Some. }
      assert (Hu : (vm_of <$> <[t:=y']> ts) !! u = Some (vm_of z)) by (by rewrite list_lookup_fmap, list_lookup_insert_ne, Hz).
      by destruct (drained_exclusive _ _ t (vm_of y') Hg Ht Hdi Hdr u (vm_of z) Hu).
  - apply list_lookup_insert_Some in Hz as [(<- & <- & _)|(Hz1 & Hz)]; [|by eapply (co_sealed _ _ Hco t1 u x z)].
    pose proof (co_sealed _ _ Hco t1 t x y Hx Hse Hy Hne) as H0. destruct vm_effect as [[-> _]|(c & o & H)]; [done|].
    destruct (effect_legal (vm_view st) t (vm_of y) c o (vm_of y') (w_vm w') (proj1 Hcomp) (vm_at ts t y Hy) H) as [Hl _].
    assert (Hr : 0 ≤ vt_adm (vm_of y') ≤ 1) by (destruct (vm_of y') as [|[]| | | | | | | | | | | | | | | | | | | |]; cbn; lia).
    destruct (decide (vt_adm (vm_of y') = 0)) as [|Hn]; [done|exfalso].
    apply (ls_adm _ _ _ _ Hl); [cbn; lia|]. destruct (sealed_own _ Hse) as [Ho _].
    eapply (owner_phase _ _ (vm_of x)); [apply (vi_gate _ (proj1 Hcomp))| |done].
    apply list_elem_of_lookup. exists t1. by apply vm_at.
Qed.

Lemma calm_content : content_ok changes_planning st'.
Proof.
  split; cbn [st' sw txns].
  - apply calm_co_log.
  - destruct memory as (_ & _ & -> & -> & _). apply (co_prefix _ _ Hco).
  - apply calm_co_range.
  - apply calm_co_torn.
  - apply calm_co_updates.
  - destruct memory as (_ & _ & _ & _ & ->). apply (co_gen _ _ Hco).
  - apply calm_co_installed.
  - apply calm_co_published.
  - apply calm_co_ids.
  - intros z Hz. destruct (in_after ts t y' z Hz) as [->|(u & Hne & Hu)].
    + by eapply own_calm.
    + eapply fact_undisturbed; [by eapply (calm_undisturbed changes_planning w ts t y cmd e y' w')|].
      apply (co_fact _ _ Hco), list_elem_of_lookup. eauto.
  - apply calm_co_sealed.
Qed.
End calm.
