(* ===== verification/TransactionWrites.v ===== *)
(** * The contents invariant in the steps of writers

    A record is logged, an insert is applied, a snapshot is published, the
    current snapshot is replaced, a checkpoint is taken; and the invariant of
    all reachable systems. *)

From S2P Require Import Prelude GateWord OperationGate GateProtocol TimestampWindow VersionManager VersionThreads Timeline VersionSystem VersionProperties VersionEffects SnapshotStore SnapshotThreads SnapshotInvariant SnapshotProperties SnapshotEffects Transactions TransactionThreads TransactionSystem TransactionContent TransactionIsolation TransactionInvariant.
Import OperationGateWord OperationGate VersionManager GraphSnapshotStore.

Section writes.
Context {Op : Type} (changes_planning : Op → bool).
Context (w : world Op) (ts : list (txn Op)) (t : nat) (y : txn Op) (cmd : txn_cmd Op) (e : env).
Context (y' : txn Op) (w' : world Op).
Let st := System w ts.
Let st' := System w' (<[t:=y']> ts).
Hypothesis Hcomp : components_ok changes_planning st.
Hypothesis Hco : content_ok changes_planning st.
Hypothesis Hy : ts !! t = Some y.
Hypothesis Hs : txn_step changes_planning cmd e y w = (y', w').
Hypothesis Hd : w_dead w' = false.

Notation fact := (fact changes_planning).
Notation store_of := (store_of changes_planning).
Notation content_ok := (content_ok changes_planning).

Lemma own_fact : fact w y.
Proof. apply (co_fact _ _ Hco), list_elem_of_lookup. eauto. Qed.
Lemma after_in : y' ∈ <[t:=y']> ts.
Proof. apply list_elem_of_insert. eauto using lookup_lt_Some. Qed.
Lemma sealed_after t1 u x z :
  <[t:=y']> ts !! t1 = Some x → sealed x = true → <[t:=y']> ts !! u = Some z → u ≠ t1 → vt_adm (vm_of z) = 0.
Proof. by eapply calm_co_sealed. Qed.
Lemma range_now a : held (tl (vm_of y)) = Some a → read_ts_ (w_vm w) < a < write_ts_ (w_vm w).
Proof. intros Ha. by eapply held_range. Qed.

(** Something that held of one client before and is not true of [y] holds of another one after. *)
Lemma exists_other (P : txn Op → Prop) : ¬ P y → (∃ z, z ∈ ts ∧ P z) → ∃ z, z ∈ <[t:=y']> ts ∧ P z.
Proof.
  intros Hn (z & Hz & HP). destruct (in_before ts t y Hy z Hz) as [->|(u & Hne & Hu)]; [done|].
  exists z. split; [by eapply other_in|done].
Qed.
Lemma forall_before (P : txn Op → Prop) : P y → (∀ z, z ∈ <[t:=y']> ts → P z) → ∀ z, z ∈ ts → P z.
Proof.
  intros Hn HP z Hz. destruct (in_before ts t y Hy z Hz) as [->|(u & Hne & Hu)]; [done|]. by eapply HP, other_in.
Qed.
Lemma facts_after : fact w' y' → (∀ u z, u ≠ t → ts !! u = Some z → fact w z → fact w' z) →
  ∀ z, z ∈ <[t:=y']> ts → fact w' z.
Proof.
  intros Hy' Ho z Hz. destruct (in_after ts t y' z Hz) as [->|(u & Hne & Hu)]; [done|].
  eapply Ho; eauto. apply (co_fact _ _ Hco), list_elem_of_lookup. eauto.
Qed.

(** ** Logging and inserting *)

Section stamped.
Context (a : Z).
Hypothesis Hc : stamped_change w w' a.
Hypothesis Ha : held (tl (vm_of y)) = Some a.
Hypothesis Hvm : w_vm w' = w_vm w.
Hypothesis Hst : w_store w' = w_store w.
Hypothesis Hgs : length (w_graphs w') = length (w_graphs w).
Hypothesis Hat : vt_ins (vm_of y) = 1 ∨ vt_di (vm_of y) = true.
Hypothesis Hcalm : swapped y = None ∧ uninstalled y = false.
Hypothesis Hown : fact w' y'.
Hypothesis Hlog : a ∈ w_torn w' ∨ owes y' = Some a ∨ at_ts a (cur_graph w') = at_ts a (logged w').
Hypothesis Hpre : at_ts a (cur_graph w') `prefix_of` at_ts a (logged w').
Hypothesis Howes : owes y = Some a ∨ owes y = None.

Lemma stamped_content : content_ok st'.
Proof.
  destruct (range_now a Ha) as [Hlo Hhi]. destruct Hcalm as [Hsw Hun].
  split; cbn [st' sw txns].
  - intros b Hb Ho. destruct (decide (b = a)) as [->|Hne].
    + destruct Hlog as [?|[Hl|?]]; [done|by destruct (Ho y' after_in)|done].
    + rewrite (stamped_cur_graph w w' a Hc), (stamped_slot w w' a b _ Hc Hne), (stamped_log w w' a b Hc Hne).
      apply (co_log _ _ Hco); [intros Hin; by apply Hb, (sc_kept _ _ _ Hc)|].
      apply forall_before; [|done]. destruct Howes as [-> | ->]; congruence.
  - intros b. destruct (decide (b = a)) as [->|Hne]; [done|].
    rewrite (stamped_cur_graph w w' a Hc), (stamped_slot w w' a b _ Hc Hne), (stamped_log w w' a b Hc Hne).
    apply (co_prefix _ _ Hco).
  - rewrite Hvm. intros p Hp.
    assert (Hold : p ∈ cur_graph w ∨ p ∈ logged w → a_ts p < write_ts_ (w_vm w)) by apply (co_range _ _ Hco).
    destruct Hp as [Hp|Hp].
    + rewrite (stamped_cur_graph w w' a Hc) in Hp. destruct (sc_slot _ _ _ Hc (cur w)) as (l & E & Hl). rewrite E in Hp.
      apply elem_of_app in Hp as [Hp|Hp]; [by apply Hold; left|]. destruct (Hl p Hp) as [-> _]. done.
    + destruct (sc_log _ _ _ Hc) as (l & E & Hl). rewrite E in Hp.
      apply elem_of_app in Hp as [Hp|Hp]; [by apply Hold; right|]. by rewrite (Hl p Hp).
  - rewrite Hvm. intros b Hb. destruct (sc_torn _ _ _ Hc b Hb) as [Hb'| ->]; [|done]. apply (co_torn _ _ Hco b Hb').
  - rewrite Hvm. intros p Hp Hu. rewrite (stamped_cur_graph w w' a Hc) in Hp.
    destruct (sc_slot _ _ _ Hc (cur w)) as (l & E & Hl). rewrite E in Hp.
    apply elem_of_app in Hp as [Hp|Hp]; [|destruct (Hl p Hp); congruence].
    destruct (co_updates _ _ Hco p Hp Hu) as [?|Hz]; [by left|right]. eapply exists_other; [|done]. congruence.
  - rewrite (stamped_cur_gen w w' a Hc). apply (co_gen _ _ Hco).
  - rewrite Hvm, (stamped_cur_gen w w' a Hc). intros Hn. apply (co_installed _ _ Hco). by apply forall_before.
  - unfold published. rewrite Hvm, (stamped_cur_gen w w' a Hc). destruct (co_published _ _ Hco) as [Hle Heq]. split; [done|].
    intros E. destruct (Heq E) as [Hup|Hz]; [left|right].
    + rewrite (stamped_cur_graph w w' a Hc). by eapply stamped_updates.
    + eapply exists_other; [|done]. intros [b Hb]. destruct (replaced_swapped _ _ Hb). congruence.
  - rewrite Hst, Hgs. apply (co_ids _ _ Hco).
  - apply facts_after; [done|]. intros u z Hne Hu. eapply fact_stamped; [done| |].
    + destruct Hat as [Hi|Hi]; [by eapply (not_owner changes_planning w ts t y)|].
      by destruct (sole changes_planning w ts t y Hcomp Hy u z Hi Hne Hu) as (_ & ? & _).
    + by eapply (held_other changes_planning w ts t y).
  - apply sealed_after.
Qed.
End stamped.

Lemma logged_app r : logged (set_log (w_log w ++ [r]) w) = logged w ++ stamped (r_ts r) (r_update r) (r_ops r).
Proof. unfold logged. cbn [w_log set_log]. rewrite fmap_app, concat_app. cbn. by rewrite app_nil_r. Qed.

Lemma log_change r : held (tl (vm_of y)) = Some (r_ts r) → w' = set_log (w_log w ++ [r]) w → stamped_change w w' (r_ts r).
Proof.
  intros Ha ->. destruct (range_now _ Ha). split; try done.
  - exists (stamped (r_ts r) (r_update r) (r_ops r)). split; [apply logged_app|]. intros p Hp. by apply elem_stamped in Hp as [-> _].
  - intros i. exists []. rewrite app_nil_r. split; [done|]. intros p Hp. by apply elem_of_nil in Hp.
  - auto.
Qed.

(** After logging, everything logged is still to be applied. *)
Lemma logged_owed a upd ops : fresh w a → held (tl (vm_of y)) = Some a →
  w' = set_log (w_log w ++ [LogRecord a upd ops]) w → owed w' a upd ops.
Proof.
  intros (H1 & H2 & H3) _ ->. split; [|done]. rewrite logged_app. cbn [r_ts r_update r_ops].
  rewrite at_ts_app, H1, at_ts_stamped. change (cur_graph (set_log _ w)) with (cur_graph w). by rewrite H2.
Qed.

Lemma append_insert a i arc : y = TInsertCommit a i arc IC_append → e_wal e = WalTrue → content_ok st'.
Proof.
  intros Ey Ew. pose proof Hs as H. pose proof own_fact as Hf. rewrite Ey in H, Hf. cbn in H, Hf. rewrite Ew in H. cbn in H.
  destruct Hf as [Hfr Hi]. injection H as H1 H2.
  assert (Ha : held (tl (vm_of y)) = Some a) by (by rewrite Ey).
  assert (Ho : owed w' a false arc) by (by apply logged_owed).
  apply (stamped_content a); rewrite ?Ey, <- ?H1; cbn; auto; try (by rewrite <- H2).
  - by apply (log_change (LogRecord a false arc)).
  - split; [done|]. by rewrite <- H2.
  - by eapply owed_prefix.
Qed.

Lemma append_cow a ws i : y = TCowCommit a ws i CP_append → e_wal e = WalTrue → content_ok st'.
Proof.
  intros Ey Ew. pose proof Hs as H. pose proof own_fact as Hf. rewrite Ey in H, Hf. cbn in H, Hf. rewrite Ew in H. cbn in H.
  destruct Hf as (Hfr & Hc & Hp). injection H as H1 H2.
  assert (Ha : held (tl (vm_of y)) = Some a) by (by rewrite Ey).
  assert (Ho : owed w' a true (logical_redo ws)) by (by apply logged_owed).
  apply (stamped_content a); rewrite ?Ey, <- ?H1; cbn; auto; try (by rewrite <- H2).
  - by apply (log_change (LogRecord a true (logical_redo ws))).
  - split; [done|]. by rewrite <- H2.
  - by eapply owed_prefix.
Qed.

Lemma append_current a i ws g : y = TCurrentCommit a i ws (KC_append g) → e_wal e = WalTrue → content_ok st'.
Proof.
  intros Ey Ew. pose proof Hs as H. pose proof own_fact as Hf. rewrite Ey in H, Hf. cbn in H, Hf. rewrite Ew in H. cbn in H.
  destruct Hf as (Hfr & Hc & Hp). injection H as H1 H2.
  assert (Ha : held (tl (vm_of y)) = Some a) by (by rewrite Ey).
  assert (Ho : owed w' a true (logical_redo ws)) by (by apply logged_owed).
  apply (stamped_content a); rewrite ?Ey, <- ?H1; cbn; auto; try (by rewrite <- H2).
  - by apply (log_change (LogRecord a true (logical_redo ws))).
  - split; [done|]. by rewrite <- H2.
  - by eapply owed_prefix.
Qed.

Lemma append_compact a i : y = TCompactCommit a i KM_append → e_wal e = WalTrue → content_ok st'.
Proof.
  intros Ey Ew. pose proof Hs as H. rewrite Ey in H. cbn in H. rewrite Ew in H. cbn in H. injection H as H1 H2.
  assert (Ha : held (tl (vm_of y)) = Some a) by (by rewrite Ey).
  apply (stamped_content a); rewrite ?Ey, <- ?H1; cbn; auto; try (by rewrite <- H2).
  - by apply (log_change (LogRecord a true [])).
  - destruct (decide (a ∈ w_torn w)) as [?|Ht]; [left; by rewrite <- H2|right; right]. rewrite <- H2, logged_app. cbn. rewrite app_nil_r.
    apply (co_log _ _ Hco); [done|]. intros z Hz Ho. apply list_elem_of_lookup in Hz as [u Hu].
    destruct (decide (u = t)) as [->|Hne]; [assert (z = y) as -> by (cbn in Hu; congruence); by rewrite Ey in Ho|].
    by apply (held_other changes_planning w ts t y Hcomp Hy u z a Hne Hu Ha), owes_held.
  - rewrite <- H2, logged_app. cbn. rewrite app_nil_r. apply (co_prefix _ _ Hco).
Qed.

(** An insert is applied to the current graph. *)
Lemma current_view a i arc c sl : y = TInsertCommit a i arc c → vt_ins (vm_of y) = 1 →
  slots_ (w_store w) !! cur w = Some sl → storage_ sl = view_ sl.
Proof.
  intros Ey Hi Hl. destruct (cur_slot changes_planning w ts Hcomp) as (sl' & Hl' & Hc & _). assert (sl' = sl) as -> by congruence.
  destruct (so_view _ (proj2 Hcomp) _ _ Hl Hc) as [?|(g & p & Hin)]; [done|exfalso].
  cbn in Hin. apply list_elem_of_fmap in Hin as (z & Ez & Hz). apply list_elem_of_lookup in Hz as [u Hu].
  destruct (exclusive_drained changes_planning z) as [Hdi _]; [by rewrite <- Ez|].
  destruct (decide (u = t)) as [->|Hne]; [assert (Ezy : z = y) by congruence; rewrite Ezy, Ey in Ez; by destruct c|].
  rewrite (not_owner changes_planning w ts t y Hcomp Hy u z Hi Hne Hu) in Hdi. done.
Qed.

Lemma slot_graph_insert g p j :
  slot_graph (set_graphs (alter (λ l, l ++ [p]) g (w_graphs w)) w) j =
  slot_graph w j ++ match slots_ (w_store w) !! j with
                    | Some sl => if decide (storage_ sl = Some g ∧ (g < length (w_graphs w))%nat) then [p] else []
                    | None => []
                    end.
Proof.
  unfold slot_graph. cbn [w_store set_graphs]. destruct (slots_ (w_store w) !! j) as [sl|]; [|done].
  destruct (storage_ sl) as [h|]; [|by rewrite decide_False, app_nil_r by naive_solver].
  unfold graph_at. cbn [w_graphs set_graphs]. destruct (decide (h = g)) as [->|Hne].
  - set (app_p := λ o : option (list (applied Op)), default [] ((λ l, l ++ [p]) <$> o)).
    rewrite list_lookup_alter_eq. destruct (w_graphs w !! g) as [l|] eqn:E.
    + rewrite decide_True; [exact (f_equal app_p E)|]. split; [done|]. eauto using lookup_lt_Some.
    + rewrite decide_False; [exact (f_equal app_p E)|]. intros [_ Hlt]. exact (proj1 (Nat.lt_nge _ _) Hlt (proj1 (lookup_ge_None _ _) E)).
  - rewrite list_lookup_alter_ne, decide_False, app_nil_r by naive_solver. done.
Qed.

(** The step of an insert that applies one operation or gives up. *)
Lemma ingest_change a i arc op rest : y = TInsertCommit a i arc (IC_ingest (op :: rest)) →
  stamped_change w w' a ∧ length (w_graphs w') = length (w_graphs w) ∧ w_vm w' = w_vm w ∧ w_store w' = w_store w ∧
  fact w' y' ∧ (a ∈ w_torn w' ∨ owes y' = Some a) ∧
  at_ts a (cur_graph w') `prefix_of` at_ts a (logged w').
Proof.
  intros Ey. pose proof Hs as H. pose proof own_fact as Hf. rewrite Ey in H, Hf. cbn in H, Hf. destruct Hf as [[Ho Ht] ->].
  assert (Ha : held (tl (vm_of y)) = Some a) by (by rewrite Ey). destruct (range_now a Ha) as [Hlo _].
  destruct (endpoint_missing e); [cbn in H; injection H as _ H; by rewrite <- H in Hd|].
  destruct (graph_throws e).
  - injection H as H1 H2. rewrite <- H1, <- H2. split_and!; try done; [|left; left|apply (co_prefix _ _ Hco)].
    split; try done; try (by exists []; rewrite app_nil_r; split; [done|]; intros p Hp; apply elem_of_nil in Hp).
    + cbn. intros b Hb. apply elem_of_cons in Hb as [->|?]; auto.
    + cbn. intros b Hb. by right.
  - destruct (cur_slot changes_planning w ts Hcomp) as (sl & Hl & Hc & [g Hg] & _).
    pose proof (current_view a _ arc _ sl Ey ltac:(by rewrite Ey) Hl) as Hv.
    pose proof (co_ids _ _ Hco _ sl g Hl Hg) as Hlt. cbn in Hlt.
    unfold ingest in H. rewrite Hl, <- Hv, Hg in H. cbn in H. injection H as H1 H2. symmetry in H2.
    assert (Eg : cur_graph w' = cur_graph w ++ [Applied a false op]).
    { rewrite H2. unfold cur_graph. change (cur (set_graphs _ w)) with (cur w). rewrite slot_graph_insert, Hl. by rewrite decide_True. }
    assert (Hown : owed w' a false rest).
    { split; [|by rewrite H2]. rewrite Eg, at_ts_app, <- app_assoc. etransitivity; [|rewrite H2; exact Ho]. f_equal.
      change [Applied a false op] with (stamped a false [op]). by rewrite at_ts_stamped. }
    rewrite <- H1. split_and!; try (by rewrite H2);
      [|rewrite H2; cbn; by rewrite length_alter|split; [done|by rewrite H2]|by right|by eapply owed_prefix].
    rewrite H2. split; try done.
    + exists []. rewrite app_nil_r. split; [done|]. intros p Hp. by apply elem_of_nil in Hp.
    + intros j. rewrite slot_graph_insert. eexists. split; [done|]. intros p Hp.
      repeat case_match; try (by apply elem_of_nil in Hp). apply list_elem_of_singleton in Hp as ->. done.
    + auto.
Qed.

Lemma ingest_insert a i arc op rest : y = TInsertCommit a i arc (IC_ingest (op :: rest)) → content_ok st'.
Proof.
  intros Ey. destruct (ingest_change a i arc op rest Ey) as (Hc & Hg & Hvm & Hst & Hf & Hlog & Hpre).
  apply (stamped_content a); rewrite ?Ey; cbn; auto. destruct Hlog; auto.
Qed.

(** ** Publishing and replacing *)

(** A new current graph: the old one and what the transaction owes. *)
Section installed.
Context (a : Z) (ops : list Op).
Hypothesis Ha : held (tl (vm_of y)) = Some a.
Hypothesis Howed : owed w a true ops.
Hypothesis Howes : owes y = Some a.
Hypothesis Hnone : swapped y = None ∧ uninstalled y = false.
Hypothesis Hgraph : cur_graph w' = cur_graph w ++ stamped a true ops.
Hypothesis Hvm : w_vm w' = w_vm w.
Hypothesis Hmem : w_log w' = w_log w ∧ w_torn w' = w_torn w.
Hypothesis Hswap : swapped y' = Some a.

Lemma installed_log b : b ∉ w_torn w' → (∀ z, z ∈ <[t:=y']> ts → owes z ≠ Some b) →
  at_ts b (cur_graph w') = at_ts b (logged w').
Proof.
  destruct Hmem as [El ->]. intros Hb Ho. rewrite Hgraph, at_ts_app. replace (logged w') with (logged w) by (unfold logged; by rewrite El).
  destruct (decide (b = a)) as [->|Hne].
  - rewrite at_ts_stamped. by destruct Howed.
  - rewrite at_ts_stamped_ne, app_nil_r by done. apply (co_log _ _ Hco); [done|]. apply forall_before; [congruence|done].
Qed.
Lemma installed_prefix b : at_ts b (cur_graph w') `prefix_of` at_ts b (logged w').
Proof.
  destruct Hmem as [El _]. rewrite Hgraph, at_ts_app. replace (logged w') with (logged w) by (unfold logged; by rewrite El).
  destruct (decide (b = a)) as [->|Hne].
  - rewrite at_ts_stamped. by destruct Howed as [-> _].
  - rewrite at_ts_stamped_ne, app_nil_r by done. apply (co_prefix _ _ Hco).
Qed.
Lemma installed_range p : p ∈ cur_graph w' ∨ p ∈ logged w' → a_ts p < write_ts_ (w_vm w').
Proof.
  destruct Hmem as [El _]. replace (logged w') with (logged w) by (unfold logged; by rewrite El). rewrite Hvm, Hgraph, elem_of_app.
  intros [[Hp|Hp]|Hp]; [by apply (co_range _ _ Hco); left| |by apply (co_range _ _ Hco); right].
  apply elem_stamped in Hp as [-> _]. by apply range_now.
Qed.
Lemma installed_torn b : b ∈ w_torn w' → b < write_ts_ (w_vm w').
Proof. destruct Hmem as [_ ->]. rewrite Hvm. apply (co_torn _ _ Hco). Qed.
Lemma installed_updates p : p ∈ cur_graph w' → a_update p = true →
  a_ts p ≤ read_ts_ (w_vm w') ∨ ∃ z, z ∈ <[t:=y']> ts ∧ swapped z = Some (a_ts p).
Proof.
  rewrite Hvm, Hgraph, elem_of_app. intros [Hp|Hp] Hu.
  - destruct (co_updates _ _ Hco p Hp Hu) as [?|Hz]; [by left|right]. eapply exists_other; [|done]. destruct Hnone. congruence.
  - right. exists y'. apply elem_stamped in Hp as [-> _]. split; [apply after_in|done].
Qed.
End installed.

Lemma publish_cow a ws i g : y = TCowCommit a ws i (CP_publish (PU_exchange g)) → content_ok st'.
Proof.
  intros Ey. pose proof Hs as H. pose proof own_fact as Hf. rewrite Ey in H, Hf. cbn in H, Hf.
  destruct Hf as (Ho & Hc & [Hp1 Hp2] & Hg). injection H as H1 H2. symmetry in H2.
  assert (Ha : held (tl (vm_of y)) = Some a) by (by rewrite Ey).
  assert (Hgr : cur_graph w' = cur_graph w ++ stamped a true (logical_redo ws)).
  { transitivity (slot_graph w i); [by rewrite H2|]. by rewrite Hp1, Hc. }
  assert (Hge : cur_gen w' = slot_generation w i) by (by rewrite H2).
  assert (Hvm : w_vm w' = w_vm w) by (by rewrite H2).
  assert (Hmem : w_log w' = w_log w ∧ w_torn w' = w_torn w) by (by rewrite H2).
  assert (Hsw : swapped y' = Some a) by (by rewrite <- H1).
  assert (Hno : swapped y = None ∧ uninstalled y = false ∧ owes y = Some a) by (by rewrite Ey). destruct Hno as (? & ? & ?).
  split; cbn [st' sw txns].
  - by eapply installed_log.
  - by eapply installed_prefix.
  - by eapply installed_range.
  - by eapply installed_torn.
  - by eapply installed_updates.
  - rewrite Hge. pose proof (co_gen _ _ Hco) as Hpos. cbn in Hpos. lia.
  - intros Hn. specialize (Hn y' after_in). by rewrite <- H1 in Hn.
  - unfold published. rewrite Hvm, Hge. destruct (co_published _ _ Hco) as [Hle _]. unfold published in Hle. change (sw st) with w in Hle. split; [lia|]. intros E. exfalso. lia.
  - rewrite H2. apply (co_ids _ _ Hco).
  - apply facts_after; [by rewrite <- H1; cbn; rewrite Hge|]. intros u z Hne Hu.
    destruct (sole changes_planning w ts t y Hcomp Hy u z) as (? & ? & _); [by rewrite Ey|done..|].
    apply fact_exchange; try done; by rewrite H2.
  - apply sealed_after.
Qed.

Lemma replace_current a i ws g : y = TCurrentCommit a i ws (KC_replace g RP_storage) → content_ok st'.
Proof.
  intros Ey. pose proof Hs as H. pose proof own_fact as Hf.
  pose proof (own_thread_ok changes_planning w ts t y Hcomp Hy) as [Hi _]. rewrite Ey in H, Hf, Hi. cbn in H, Hf, Hi.
  destruct Hf as (Ho & Hc & Hg), Hi as [Hi _]. subst i. injection H as H1 H2. symmetry in H2.
  destruct (cur_slot changes_planning w ts Hcomp) as (sl & Hl & _).
  assert (Hl' : slots_ (w_store w') !! cur w' = Some (set_storage (Some g) sl)).
  { replace (cur w') with (cur w) by (by rewrite H2). rewrite H2. cbn [w_store set_store].
    rewrite lookup_set_slot, decide_True by done. by setoid_rewrite Hl. }
  destruct (slot_of w _ _ Hl) as [En _]. destruct (slot_of w' _ _ Hl') as [En' Eg']. cbn in En', Eg'.
  assert (Ha : held (tl (vm_of y)) = Some a) by (by rewrite Ey).
  assert (Hgr : cur_graph w' = cur_graph w ++ stamped a true (logical_redo ws)).
  { unfold cur_graph at 1. rewrite Eg', <- Hc. rewrite H2. by apply graph_at_Some. }
  assert (Hge : cur_gen w' = cur_gen w) by (unfold cur_gen; by rewrite En, En').
  assert (Hvm : w_vm w' = w_vm w) by (by rewrite H2).
  assert (Hmem : w_log w' = w_log w ∧ w_torn w' = w_torn w) by (by rewrite H2).
  assert (Hsw : swapped y' = Some a ∧ replaced y' = Some a) by (by rewrite <- H1). destruct Hsw as [Hsw Hre].
  assert (Hno : swapped y = None ∧ uninstalled y = false ∧ owes y = Some a) by (by rewrite Ey). destruct Hno as (? & ? & ?).
  split; cbn [st' sw txns].
  - by eapply installed_log.
  - by eapply installed_prefix.
  - by eapply installed_range.
  - by eapply installed_torn.
  - by eapply installed_updates.
  - rewrite Hge. apply (co_gen _ _ Hco).
  - rewrite Hvm, Hge. intros Hn. apply (co_installed _ _ Hco). by apply forall_before.
  - unfold published. rewrite Hvm, Hge. destruct (co_published _ _ Hco) as [Hle _]. split; [done|].
    intros _. right. exists y'. split; [apply after_in|by rewrite Hre].
  - intros j sl0 h Hj Hh. rewrite H2 in Hj |- *. cbn [w_store set_store w_graphs] in Hj |- *. rewrite lookup_set_slot in Hj.
    case_decide; [|by eapply (co_ids _ _ Hco)]. subst j. unfold cur in Hl. rewrite Hl in Hj. cbn in Hj. injection Hj as <-.
    cbn in Hh. injection Hh as <-. eauto using lookup_lt_Some.
  - apply facts_after; [rewrite <- H1, H2; cbn; eauto|]. intros u z Hne Hu _.
    eapply (others_passive changes_planning w ts t y); try done. by rewrite Ey.
  - apply sealed_after.
Qed.

Lemma checkpoint_current a i : y = TCheckpoint (CK_callback a i) → refused e = false → content_ok st'.
Proof.
  intros Ey Hr. pose proof Hs as H.
  pose proof (own_thread_ok changes_planning w ts t y Hcomp Hy) as [Hi _]. rewrite Ey in H, Hi. cbn in H, Hi. subst i.
  destruct (cur_slot changes_planning w ts Hcomp) as (sl & Hl & _ & [g Hg] & _).
  rewrite Hr in H. destruct (graph_throws e); [cbn in H; injection H as _ H; by rewrite <- H in Hd|].
  unfold cur in Hl. rewrite Hl, Hg in H. cbn in H. injection H as H1 H2. symmetry in H2.
  pose proof (co_ids _ _ Hco _ sl g Hl Hg) as Hlt. cbn in Hlt.
  assert (Hem : emptied w').
  { rewrite H2. split; [done|]. split; [done|]. unfold cur_graph, slot_graph, cur. cbn [w_store take_checkpoint]. rewrite Hl, Hg.
    apply graph_at_Some. cbn. by apply list_lookup_insert_eq. }
  destruct Hem as (El & Et & Eg). assert (Elg : logged w' = []) by (unfold logged; by rewrite El).
  assert (Hvm : w_vm w' = w_vm w) by (by rewrite H2). assert (Hge : cur_gen w' = cur_gen w) by (by rewrite H2).
  split; cbn [st' sw txns].
  - intros b _ _. by rewrite Eg, Elg.
  - intros b. by rewrite Eg, Elg.
  - intros p. rewrite Eg, Elg. intros [Hp|Hp]; by apply elem_of_nil in Hp.
  - intros b. rewrite Et. intros Hp. by apply elem_of_nil in Hp.
  - intros p. rewrite Eg. intros Hp. by apply elem_of_nil in Hp.
  - rewrite Hge. apply (co_gen _ _ Hco).
  - rewrite Hvm, Hge. intros Hn. apply (co_installed _ _ Hco). apply forall_before; [by rewrite Ey|done].
  - unfold published. rewrite Hvm, Hge. destruct (co_published _ _ Hco) as [Hle _]. split; [done|].
    intros _. left. rewrite Eg. intros p Hp. by apply elem_of_nil in Hp.
  - rewrite H2. cbn [w_store w_graphs take_checkpoint]. rewrite length_insert. apply (co_ids _ _ Hco).
  - apply facts_after; [by rewrite <- H1|]. intros u z Hne Hu _.
    eapply (others_passive changes_planning w ts t y); try done. by rewrite Ey.
  - apply sealed_after.
Qed.

Lemma step_content : content_ok st'.
Proof.
  destruct (writes_content y e) eqn:Hw; [|by eapply calm_content].
  assert (H : ∀ z, y = z → writes_content z e = true → content_ok st'); [|by apply (H y)].
  intros z Ez Hz. destruct z as [| |[]| |? ? []|[]| |? ? ? [| |[]| |]|[|?|? []]| |? ? []| |? ? ? [|?|[]|? []|[]]|? ? []|[|? []|]| |? ? []| |? ? ? [| |?|? []| |? [] []]
                |[|? []| | | | | |]|[]| |? ? [| | |[]]]; try done; cbn in Hz; try (destruct (e_wal e) eqn:?; try done);
    eauto using append_insert, append_cow, append_current, append_compact, ingest_insert, publish_cow, replace_current.
  all: eapply checkpoint_current; [done|]; by destruct (refused e).
Qed.

(** ** What a step does to a pinned slot *)

(** A client that reads sees its slot unchanged but for later inserts. *)
Lemma step_pinned u z i : u ≠ t → ts !! u = Some z → vt_adm (vm_of z) = 1 → role_of (store_of z) = RPin i →
  slot_generation w' i = slot_generation w i ∧
  ∃ l, slot_graph w' i = slot_graph w i ++ l ∧ ∀ p, p ∈ l → read_ts_ (w_vm w) < a_ts p.
Proof.
  intros Hne Hu Hadm Hr.
  assert (Hse : sealed y = true → False).
  { intros Hse. pose proof (co_sealed _ _ Hco t u y z Hy Hse Hu Hne). lia. }
  assert (Hsame : slot_generation w' i = slot_generation w i ∧ slot_graph w' i = slot_graph w i →
    slot_generation w' i = slot_generation w i ∧ ∃ l, slot_graph w' i = slot_graph w i ++ l ∧ ∀ p, p ∈ l → read_ts_ (w_vm w) < a_ts p).
  { intros [H1 H2]. split; [done|]. exists []. rewrite app_nil_r. split; [done|]. intros p Hp. by apply elem_of_nil in Hp. }
  destruct (writes_content y e) eqn:Hw.
  2: { apply Hsame. destruct (pinned_live changes_planning w ts Hcomp u z i Hu Hr) as (sl & Hl & Hc).
       split; by eapply (calm_slot changes_planning w ts t y cmd e y' w'). }
  assert (H : ∀ x, y = x → writes_content x e = true →
    slot_generation w' i = slot_generation w i ∧ ∃ l, slot_graph w' i = slot_graph w i ++ l ∧ ∀ p, p ∈ l → read_ts_ (w_vm w) < a_ts p);
    [|by apply (H y)].
  intros x Ex Hx. pose proof Hs as H. rewrite Ex in H.
  destruct x as [| |[]| |? ? []|[]| |? ? ? [| |[|op rest]| |]|[|?|? []]| |? ? []| |? ? ? [|?|[]|? []|[]]|? ? []|[|? []|]| |? ? []| |? ? ? [| |?|? []| |? [] []]
                |[|? []| | | | | |]|[]| |? ? [| | |[]]]; try done; try (exfalso; by apply Hse; rewrite Ex).
  - cbn in Hx, H. destruct (e_wal e); simplify_eq/=. by apply Hsame.
  - destruct (ingest_change _ _ _ _ _ Ex) as (Hc & _). split; [apply (sc_gen _ _ _ Hc)|].
    destruct (sc_slot _ _ _ Hc i) as (l & El & Hl). exists l. split; [done|]. intros p Hp. destruct (Hl p Hp) as [-> _].
    apply (sc_late _ _ _ Hc).
  - cbn in Hx, H. destruct (e_wal e); simplify_eq/=. by apply Hsame.
  - cbn in H. simplify_eq/=. by apply Hsame.
Qed.
End writes.

(** ** Reachable systems *)

Section reachable.
Context {Op : Type} (changes_planning : Op → bool).

Lemma init_content slot_num view n :
  system_config slot_num view n → content_ok changes_planning (system_init (Op := Op) slot_num view n).
Proof.
  intros (Hn & Hv & Hg & _).
  assert (Hidle : ∀ z, z ∈ txns (system_init (Op := Op) slot_num view n) → z = TIdle).
  { intros z Hz. by apply elem_of_replicate in Hz as [-> _]. }
  assert (Egen : cur_gen (sw (system_init (Op := Op) slot_num view n)) = snapshot_generation view) by (by destruct slot_num; [lia|]).
  assert (Egr : cur_graph (sw (system_init (Op := Op) slot_num view n)) = []) by (by destruct slot_num; [lia|]).
  assert (Evm : ∃ s, init_ts view vm_default = Ok s ∧ w_vm (sw (system_init (Op := Op) slot_num view n)) = s ∧
    installed_snapshot_generation_ s = snapshot_generation view ∧ published_read_view_ s = PackPublishedReadView view).
  { unfold system_init, init_ts. rewrite (proj2 (Z.eqb_neq _ _)) by lia. eexists. done. }
  destruct Evm as (s & _ & Es & Ei & Ep).
  split.
  - intros a _ _. by rewrite Egr.
  - intros a. by rewrite Egr.
  - intros p. rewrite Egr. intros [Hp|Hp]; by apply elem_of_nil in Hp.
  - intros a Ha. by apply elem_of_nil in Ha.
  - intros p. rewrite Egr. intros Hp. by apply elem_of_nil in Hp.
  - rewrite Egen. unfold is_u32 in Hg. lia.
  - intros _. by rewrite Egen, Es, Ei.
  - unfold published. rewrite Es, Ep, Egen. destruct view as [v g]. cbn in Hv, Hg.
    rewrite unpack_pack by (unfold is_u32, U32_MAX in *; lia). cbn [visibility_ts snapshot_generation]. rewrite u32_id by done. split; [done|]. intros _. left.
    rewrite Egr. intros p Hp. by apply elem_of_nil in Hp.
  - intros i sl g Hl Hst. destruct i as [|i]; cbn in Hl.
    + simplify_eq/=. lia.
    + apply lookup_replicate in Hl as [-> _]. done.
  - intros z Hz. by rewrite (Hidle z Hz).
  - intros t u x z Hx Hse. rewrite (Hidle x) in Hse; [done|]. apply list_elem_of_lookup. eauto.
Qed.

Lemma reachable_content slot_num view n st :
  system_config slot_num view n → system_reachable changes_planning slot_num view n st → w_dead (sw st) = false →
  components_ok changes_planning st ∧ content_ok changes_planning st.
Proof.
  intros Hc Hr Hd. split; [by eapply reachable_components|]. revert Hd.
  unfold system_reachable in Hr. remember (system_init slot_num view n) as st0 eqn:E0.
  induction Hr as [|st0 a b Hr IH Hab]; intros Hd; [rewrite E0; by apply init_content|].
  assert (Ha : w_dead (sw a) = false) by (by destruct Hab). specialize (IH E0 Ha). rewrite E0 in Hr.
  destruct (reachable_components changes_planning slot_num view n a Hc Hr Ha) as [Hok _].
  destruct Hab. by eapply step_content.
Qed.
End reachable.
