(* ===== verification/TransactionFailures.v ===== *)
(** * What ends the process

    A failed check terminates the process.  In the states that transactions
    reach, only a log write whose effect is uncertain, a logged edge whose end
    points are not in the graph, a checkpoint that fails after it has consumed
    the graph, and an exhausted planning generation do. *)

From S2P Require Import Prelude GateWord OperationGate GateProtocol TimestampWindow VersionManager VersionThreads Timeline VersionSystem VersionProperties VersionEffects SnapshotStore SnapshotThreads SnapshotInvariant SnapshotProperties SnapshotEffects Transactions TransactionThreads TransactionSystem TransactionContent TransactionIsolation TransactionInvariant TransactionWrites.
Import OperationGateWord OperationGate VersionManager GraphSnapshotStore.

Section failures.
Context {Op : Type} (changes_planning : Op → bool).
Notation txn_step := (txn_step changes_planning).
Notation store_of := (store_of changes_planning).


Section dying.
Context (cmd : txn_cmd Op) (e : env) (w : world Op).

(** A call that fails ends the process only if the callee's failure is one that
    the callee does not have in these states. *)
Lemma vm_survives x o v x' : vm_sound x (w_vm w) → vm_step CRead o x (w_vm w) = (VFailed x', v) → fatal x' = false.
Proof. intros Hv H. by destruct (Hv _ _ _ _ H) as [-> | ->]. Qed.
Lemma store_survives x o s x' : sound x (w_store w) → store_step id CRelease o x (w_store w) = (Failed x', s) →
  fatal x' = false ∨ ∃ sl, slots_ s !! cur_slot_index_ s = Some sl ∧ planning_generation_ sl = 2^64 - 1.
Proof. intros [_ Hs] H. destruct (Hs _ _ _ _ H) as [[->|(-> & Hsl)] _]; [by left|by right]. Qed.

(** A client that appends to the log; one that applies a logged operation. *)
Definition appending (y : txn Op) : Prop :=
  match y with
  | TInsertCommit _ _ _ IC_append | TCowCommit _ _ _ CP_append | TCurrentCommit _ _ _ (KC_append _)
  | TCompactCommit _ _ KM_append => True
  | _ => False
  end.
Definition ingesting (y : txn Op) : Prop :=
  match y with TInsertCommit _ _ _ (IC_ingest (_ :: _)) => True | _ => False end.

Definition planning_at_limit (w' : world Op) : Prop :=
  ∃ sl, slots_ (w_store w') !! cur_slot_index_ (w_store w') = Some sl ∧ planning_generation_ sl = 2^64 - 1.

Definition excused (y : txn Op) (w' : world Op) : Prop :=
  (appending y ∧ ∃ b, e_wal e = WalThrow b) ∨
  (ingesting y ∧ endpoint_missing e = true) ∨
  ((∃ a i, y = TCheckpoint (CK_callback a i)) ∧ refused e = false ∧ graph_throws e = true) ∨
  planning_at_limit w'.

Ltac dies H := cbn in H; simplify_eq/=; try congruence; try done;
  match goal with x : exn |- _ => destruct (fatal x) eqn:?; simplify_eq/=; try congruence end.
Ltac vm_call H Hv f := destruct f as [? [?|?|?]] eqn:?; [dies H; fail|dies H; fail|]; dies H; exfalso;
  match goal with E : f = (?v, Raise ?x), Ex : fatal ?x = true |- _ =>
    rewrite (vm_survives _ (e_vm e) v x Hv) in Ex; [done|cbn [vm_step vm_of exclusive_vm]; by rewrite E] end.
Ltac store_call H Hv f := destruct f as [? [?|?|?]] eqn:?; [dies H; fail|dies H; fail|]; dies H;
  match goal with E : f = (?v, Raise ?x), Ex : fatal ?x = true |- _ =>
    destruct (store_survives _ (e_store e) v x Hv) as [?|?]; [cbn [store_step TransactionThreads.store_of]; by rewrite E|congruence|by right; right; right] end.


Section client.
Context (y : txn Op) (y' : txn Op) (w' : world Op).
Hypothesis Hs : txn_step cmd e y w = (y', w').
Hypothesis Hd : w_dead w = false.
Hypothesis Hd' : w_dead w' = true.
Hypothesis Hvm : vm_sound (vm_of y) (w_vm w).
Hypothesis Hok : sound (store_of y) (w_store w).

Ltac dying_start E H Hv Ho := intros E; pose proof Hs as H; pose proof Hvm as Hv; pose proof Hok as Ho; rewrite E in H, Hv, Ho; rename E into Ey.

Lemma acquire_dies c : y = TAcquire c → excused y w'.
Proof.
  dying_start E H Hv Ho. destruct c as [c|view c|view i|view i c|c|]; cbn [TransactionThreads.txn_step ReadSnapshotLease_Acquire] in H.
  - vm_call H Hv (acquire_read_operation (e_vm e) c (w_vm w)).
  - store_call H Ho (PinCurrentSnapshot (e_store e) c (w_store w)).
  - repeat case_match; dies H.
  - store_call H Ho (unpinSnapshotByIndex i c (w_store w)).
  - vm_call H Hv (on_gate (release_shared (e_vm e) c) (w_vm w)).
  - dies H.
Qed.

Lemma release_dies view i c : y = TRelease view i c → excused y w'.
Proof.
  dying_start E H Hv Ho. destruct c as [c|c]; cbn [TransactionThreads.txn_step ReadSnapshotLease_release] in H.
  - store_call H Ho (unpinSnapshotByIndex i c (w_store w)).
  - vm_call H Hv (on_gate (release_shared (e_vm e) c) (w_vm w)).
Qed.

Lemma insert_begin_dies c : y = TInsertBegin c → excused y w'.
Proof.
  dying_start E H Hv Ho. destruct c as [c|a c]; cbn [TransactionThreads.txn_step BeginMvccInsertTransaction] in H.
  - vm_call H Hv (acquire_insert_timestamp (e_vm e) c (w_vm w)).
  - store_call H Ho (PinCurrentSnapshot (e_store e) c (w_store w)).
Qed.

Lemma insert_commit_dies a i arc c : y = TInsertCommit a i arc c →
  (∃ sl g, slots_ (w_store w) !! i = Some sl ∧ view_ sl = Some g) ∨ (∀ rest, c ≠ IC_ingest rest) → excused y w'.
Proof.
  dying_start E H Hv Ho. intros Hlive.
  destruct c as [| |rest|out c|out c]; cbn [TransactionThreads.txn_step MvccInsertTransaction_Commit] in H.
  - destruct arc; dies H.
  - unfold append_wal in H. destruct (e_wal e) eqn:Ew; [dies H; fail..|]. left. split; [by rewrite Ey|by eexists].
  - destruct rest as [|op rest]; [dies H; fail|].
    destruct (endpoint_missing e) eqn:Em; [right; left; split; [by rewrite Ey|done]|].
    destruct (graph_throws e) eqn:Eg; [dies H; fail|].
    destruct Hlive as [(sl & g & Hl & Hg)|Hn]; [|by destruct (Hn (op :: rest))]. unfold ingest in H. rewrite Hl, Hg in H. dies H.
  - store_call H Ho (unpinSnapshotByIndex i c (w_store w)).
  - vm_call H Hv (release_insert_timestamp a (e_vm e) c (w_vm w)).
Qed.

Lemma cow_begin_dies c : y = TCowBegin c → excused y w'.
Proof.
  dying_start E H Hv Ho. destruct c as [c|c|a c copy]; cbn [TransactionThreads.txn_step BeginSnapshotCowWriteTransaction] in H.
  - vm_call H Hv (acquire_update_timestamp (e_vm e) c (w_vm w)).
  - destruct (try_acquire_update_timestamp (e_vm e) c (w_vm w)) as [? [?|[]|x]] eqn:E; [dies H; fail..|]. dies H. exfalso.
    rewrite (vm_survives _ (e_vm e) v x Hv) in Heqb; [done|cbn [vm_step vm_of]; by rewrite E].
  - store_call H Ho (CloneCurrentForUpdate id (e_store e) c (w_store w)).
Qed.

Lemma cow_prepare_dies a ws c : y = TCowPrepare a ws c → excused y w'.
Proof.
  dying_start E H Hv Ho. destruct c as [|g c|out c]; cbn [TransactionThreads.txn_step SnapshotCow_PrepareCommit] in H.
  - unfold new_graph in H. repeat case_match; dies H.
  - destruct (PrepareSnapshot _ _ _ _ _) as [? [?|[]|?]]; dies H.
  - vm_call H Hv (finish_update_timestamp a None (e_vm e) c (w_vm w)).
Qed.

Lemma cow_abort_dies a i c : y = TCowAbort a i c → excused y w'.
Proof.
  dying_start E H Hv Ho. destruct c as [c|c]; cbn [TransactionThreads.txn_step SnapshotCow_Abort] in H.
  - store_call H Ho (unpinSnapshotByIndex i c (w_store w)).
  - vm_call H Hv (finish_update_timestamp a None (e_vm e) c (w_vm w)).
Qed.

Lemma cow_commit_dies a ws i c : y = TCowCommit a ws i c → excused y w'.
Proof.
  dying_start E H Hv Ho. destruct c as [|c|c|g c|c]; cbn [TransactionThreads.txn_step SnapshotCow_CommitPrepared] in H.
  - unfold append_wal in H. destruct (e_wal e) eqn:Ew; [dies H; fail..|]. left. split; [by rewrite Ey|by eexists].
  - vm_call H Hv (begin_update_commit (e_vm e) c (w_vm w)).
  - store_call H Ho (Publish i c (w_store w)).
  - vm_call H Hv (finish_update_timestamp a (Some g) (e_vm e) c (w_vm w)).
  - destruct c as [c|c]; cbn [SnapshotCow_Abort] in H.
    + store_call H Ho (unpinSnapshotByIndex i c (w_store w)).
    + vm_call H Hv (finish_update_timestamp a None (e_vm e) c (w_vm w)).
Qed.

Lemma guard_acquire_dies c : y = TGuardAcquire c → excused y w'.
Proof.
  dying_start E H Hv Ho. destruct c as [c|a c|a c]; cbn [TransactionThreads.txn_step CurrentGraphWriteGuard_Acquire] in H.
  - vm_call H Hv (acquire_update_timestamp (e_vm e) c (w_vm w)).
  - destruct c as [|c| |c]; cbn [MakeUpdateExclusive] in H; [dies H; fail| |dies H; fail|].
    + vm_call H Hv (begin_update_commit (e_vm e) c (w_vm w)).
    + vm_call H Hv (drain_readers (e_vm e) c (w_vm w)).
  - store_call H Ho (PinCurrentSnapshot (e_store e) c (w_store w)).
Qed.

Lemma guard_release_dies a i c : y = TGuardRelease a i c → excused y w'.
Proof.
  dying_start E H Hv Ho. destruct c as [c|c]; cbn [TransactionThreads.txn_step CurrentGraphWriteGuard_release] in H.
  - store_call H Ho (unpinSnapshotByIndex i c (w_store w)).
  - vm_call H Hv (finish_update_timestamp a None (e_vm e) c (w_vm w)).
Qed.

Lemma current_commit_dies a i ws c : y = TCurrentCommit a i ws c → excused y w'.
Proof.
  dying_start E H Hv Ho. destruct c as [| |g|g c| |out g c]; cbn [TransactionThreads.txn_step CurrentCow_Commit] in H.
  - repeat case_match; dies H.
  - unfold new_graph in H. repeat case_match; dies H.
  - unfold append_wal in H. destruct (e_wal e) eqn:Ew; [dies H; fail..|]. left. split; [by rewrite Ey|by eexists].
  - store_call H Ho (replaceCurrentSnapshotInPlace i g (committed_planning_generation changes_planning ws) c (w_store w)).
  - dies H.
  - destruct c as [c|c]; cbn [CurrentGraphWriteGuard_release] in H.
    + store_call H Ho (unpinSnapshotByIndex i c (w_store w)).
    + vm_call H Hv (finish_update_timestamp a g (e_vm e) c (w_vm w)).
Qed.

Lemma checkpoint_dies c : y = TCheckpoint c →
  (∀ a i, c = CK_callback a i → ∃ sl g, slots_ (w_store w) !! i = Some sl ∧ storage_ sl = Some g) → excused y w'.
Proof.
  dying_start E H Hv Ho. intros Hlive.
  destruct c as [c|a c|a c|a i|a i|a i|a c|a c]; cbn [TransactionThreads.txn_step PublishManualCheckpoint] in H.
  - vm_call H Hv (acquire_update_timestamp (e_vm e) c (w_vm w)).
  - destruct c as [|c| |c]; cbn [MakeUpdateExclusive] in H; [dies H; fail| |dies H; fail|].
    + vm_call H Hv (begin_update_commit (e_vm e) c (w_vm w)).
    + vm_call H Hv (drain_readers (e_vm e) c (w_vm w)).
  - destruct (WithCheckpointMaintenance c (w_store w)) as [s1 [c'|i|x]] eqn:Ec; [dies H; fail..|].
    destruct (store_survives _ (e_store e) s1 x Ho) as [Ex|?].
    + cbn [store_step TransactionThreads.store_of]. by rewrite Ec.
    + destruct x; try done; dies H.
    + do 3 right. destruct x; cbn in H; simplify_eq/=; done.
  - destruct (refused e) eqn:Er; [dies H; fail|]. destruct (graph_throws e) eqn:Eg; [right; right; left; eauto|].
    destruct (Hlive a i eq_refl) as (sl & g & Hl & Hg). rewrite Hl, Hg in H. dies H.
  - destruct (RefreshCurrentView i true (w_store w)) as [s1 [r|x]] eqn:Ec; [dies H; fail|]. do 3 right.
    unfold RefreshCurrentView in Ec. destruct Ho as [_ Ho]. specialize (Ho (CRefresh (G := nat) true) (e_store e) (Failed x) s1).
    cbn [store_step TransactionThreads.store_of] in Ho. unfold RefreshCurrentView in Ho. rewrite Ec in Ho.
    destruct (Ho eq_refl) as [[->|(-> & Hsl)] _]; [repeat case_match; by simplify_eq/=|]. dies H.
  - dies H.
  - vm_call H Hv (finish_update_and_reset_timeline a (e_vm e) c (w_vm w)).
  - vm_call H Hv (finish_update_timestamp a None (e_vm e) c (w_vm w)).
Qed.

Lemma compact_begin_dies c : y = TCompactBegin c → excused y w'.
Proof.
  dying_start E H Hv Ho. destruct c as [c|a c]; cbn [TransactionThreads.txn_step BeginInPlaceCompactionTransaction] in H.
  - vm_call H Hv (acquire_compact_timestamp (e_vm e) c (w_vm w)).
  - store_call H Ho (PinCurrentSnapshot (e_store e) c (w_store w)).
Qed.

Lemma compact_commit_dies a i c : y = TCompactCommit a i c → excused y w'.
Proof.
  dying_start E H Hv Ho. destruct c as [| |revert c|[] c]; cbn [TransactionThreads.txn_step InPlaceCompaction_Commit] in H.
  - unfold append_wal in H. destruct (e_wal e) eqn:Ew; [dies H; fail..|]. left. split; [by rewrite Ey|by eexists].
  - dies H.
  - destruct revert; store_call H Ho (unpinSnapshotByIndex i c (w_store w)).
  - vm_call H Hv (revert_compact_timestamp a (e_vm e) c (w_vm w)).
  - vm_call H Hv (release_compact_timestamp a (e_vm e) c (w_vm w)).
Qed.
End client.
End dying.

(** C6: Which steps end the process.  In a live reachable
    system, a step that terminates the process is one of: a commit in its log
    append, with a log writer that threw; an insert transaction that applies its
    logged operations, with an edge whose end point is not found in the graph (the
    CHECKs of IngestWal); the callback of a manual checkpoint whose preconditions
    hold, with a graph operation that throws; or a step after which the planning
    generation of the current snapshot is at its 64-bit maximum.  In particular no
    check of the version manager, of the operation gate or of a lease fails, and a
    graph operation that throws outside of that callback does not end the process. *)
Theorem only_declared_deaths (slot_num : nat) (view : PublishedReadView) (n : nat) (st : system)
    (t : nat) (y : txn Op) (cmd : txn_cmd Op) (e : env) (y' : txn Op) (w' : world Op) :
  system_config slot_num view n → system_reachable changes_planning slot_num view n st → w_dead (sw st) = false →
  txns st !! t = Some y → txn_step cmd e y (sw st) = (y', w') → w_dead w' = true → excused e y w'.
Proof.
  intros Hc Hr Hd Hy Hs Hd'. destruct (reachable_content _ _ _ _ _ Hc Hr Hd) as [Hok Hco]. destruct st as [w ts].
  pose proof (step_vm_sound w ts t y (proj1 Hok) Hy) as Hv.
  pose proof (step_store_sound changes_planning w ts t y (proj2 Hok) Hy) as Ho.
  destruct (cur_slot changes_planning w ts Hok) as (sl & Hl & _ & [g Hg] & [gv Hgv]).
  assert (Hin : y ∈ ts) by (apply list_elem_of_lookup; eauto).
  pose proof (co_fact _ _ Hco y Hin) as Hf. pose proof (own_thread_ok changes_planning w ts t y Hok Hy) as [Hx _].
  assert (Hstill : w' = w → excused e y w') by (intros ->; cbn in Hd; congruence).
  destruct y as [|x|c|v i|v i c|c|a i arc|a i arc c|c|a ws|a ws c|a ws i|a ws i c|a i c|c|a i|a i c|a i ws|a i ws c|c|c|a i|a i c];
    try (apply Hstill; injection Hs as _ <-; reflexivity).
  - exact (acquire_dies cmd e w _ _ _ Hs Hd Hd' Hv Ho c eq_refl).
  - exact (release_dies cmd e w _ _ _ Hs Hd Hd' Hv Ho v i c eq_refl).
  - exact (insert_begin_dies cmd e w _ _ _ Hs Hd Hd' Hv Ho c eq_refl).
  - apply (insert_commit_dies cmd e w _ _ _ Hs Hd Hd' Hv Ho a i arc c eq_refl). destruct c; try (by right).
    left. destruct Hf as [_ ->]. by exists sl, gv.
  - exact (cow_begin_dies cmd e w _ _ _ Hs Hd Hd' Hv Ho c eq_refl).
  - exact (cow_prepare_dies cmd e w _ _ _ Hs Hd Hd' Hv Ho a ws c eq_refl).
  - exact (cow_commit_dies cmd e w _ _ _ Hs Hd Hd' Hv Ho a ws i c eq_refl).
  - exact (cow_abort_dies cmd e w _ _ _ Hs Hd Hd' Hv Ho a i c eq_refl).
  - exact (guard_acquire_dies cmd e w _ _ _ Hs Hd Hd' Hv Ho c eq_refl).
  - exact (guard_release_dies cmd e w _ _ _ Hs Hd Hd' Hv Ho a i c eq_refl).
  - exact (current_commit_dies cmd e w _ _ _ Hs Hd Hd' Hv Ho a i ws c eq_refl).
  - apply (checkpoint_dies cmd e w _ _ _ Hs Hd Hd' Hv Ho c eq_refl). intros a i ->. cbn in Hx. subst i. by exists sl, g.
  - exact (compact_begin_dies cmd e w _ _ _ Hs Hd Hd' Hv Ho c eq_refl).
  - exact (compact_commit_dies cmd e w _ _ _ Hs Hd Hd' Hv Ho a i c eq_refl).
Qed.
End failures.

(** The log writer throws in the commit of an insert. *)
Definition failing_env : env := Env (Oracle false false) (StoreOracle false false) (WalThrow true) false false false.
Definition before_failure : system :=
  system_run (λ _ : nat, false)
    (replicate 12 (0%nat, BeginInsert, failing_env) ++ [(0%nat, Edit 5%nat, failing_env)] ++ replicate 2 (0%nat, Commit, failing_env))
    (system_init 2 (ReadView 0 0) 1).
Definition after_failure : world nat :=
  die (set_log [LogRecord 1 false [5%nat]] (sw before_failure)).

Lemma only_declared_deaths_witness :
  txns before_failure !! 0%nat = Some (TInsertCommit 1 0 [5%nat] IC_append) ∧
  excused failing_env (TInsertCommit 1 0 [5%nat] IC_append) after_failure.
Proof.
  split; [vm_compute; reflexivity|].
  apply (only_declared_deaths (λ _ : nat, false) 2 (ReadView 0 0) 1 before_failure 0 (TInsertCommit 1 0 [5%nat] IC_append)
    Commit failing_env (TInsertCommit 1 0 [5%nat] IC_append) after_failure).
  - unfold system_config, is_u32, U32_MAX. cbn. lia.
  - apply system_run_star.
  - vm_compute. reflexivity.
  - vm_compute. reflexivity.
  - vm_compute. reflexivity.
  - vm_compute. reflexivity.
Defined.
