(* ===== verification/TransactionProperties.v ===== *)
(** * Guarantees of the transaction system

    Snapshot isolation, repeatable reads, agreement of log and graph, progress
    of readers, and the failures that end the process, for any number of
    clients in any interleaving. *)

From S2P Require Import Prelude GateWord OperationGate GateProtocol TimestampWindow VersionManager VersionThreads Timeline VersionSystem VersionProperties VersionEffects SnapshotStore SnapshotThreads SnapshotInvariant SnapshotProperties SnapshotEffects Transactions TransactionThreads TransactionSystem TransactionContent TransactionIsolation TransactionInvariant TransactionWrites.
Import OperationGateWord OperationGate VersionManager GraphSnapshotStore.

Section properties.
Context {Op : Type} (changes_planning : Op → bool).
Implicit Types (st : system (Op := Op)).

Notation system_reachable := (system_reachable changes_planning).
Notation txn_step := (txn_step changes_planning).

(** What a reader with timestamp [v] may see of a graph. *)
Definition visible (v : Z) (l : list (applied Op)) : list (applied Op) := filter (λ p, a_ts p ≤ v) l.

(** C3: Every run of transactions is a run of the version
    manager's callers and a run of the snapshot store's users: transactions
    call both within their protocols, and in-place writers are alone in the
    store because the gate keeps everybody else out. *)
Theorem transactions_refine (slot_num : nat) (view : PublishedReadView) (n : nat) st :
  system_config slot_num view n → system_reachable slot_num view n st → w_dead (sw st) = false →
  vm_reachable view n (vm_view st) ∧
  store_reachable id slot_num 0%nat (snapshot_generation view) n (store_view changes_planning st).
Proof. intros Hc Hr Hd. by eapply reachable_components. Qed.

(** Only an insert transaction whose graph throws while it applies its logged
    operations makes its timestamp torn. *)
Lemma torn_step cmd e y (w : world Op) y' w' a :
  txn_step cmd e y w = (y', w') → a ∈ w_torn w' →
  a ∈ w_torn w ∨ graph_throws e = true ∧ ∃ i arc op rest, y = TInsertCommit a i arc (IC_ingest (op :: rest)).
Proof.
  intros Hs Ha.
  destruct y as [| |[]| |? ? []|[]| |? ? ? [| |[]| |]|[|?|? []]| |? ? []| |? ? ? [|?|[]|? []|[]]|? ? []|[|? []|]| |? ? []| |? ? ? [| |?|? []| |? [] []]
                |[|? []| | | | | |]|[]| |? ? [| | |[]]]; cbn in Hs; try (injection Hs as _ <-; by left);
    unfold call, proceed, on_vm, on_store, new_graph, append_wal, ingest, take_checkpoint in Hs;
    repeat (case_match; simplify_eq/=; try (by left)); simplify_eq/=; try (by left).
  - apply elem_of_cons in Ha as [->|Ha]; [right|by left]. split; [done|]. eauto.
  - by apply elem_of_nil in Ha.
Qed.

(** C1: What a read lease holds.  A transaction is torn when it
    is an insert whose graph operation threw after its record was in the log (its
    timestamp is then in [w_torn]).  In every reachable live system, for every read
    lease: its slot is pinned and has the generation of its view; its timestamp is
    one that has been made readable; of every transaction up to that timestamp that
    is not torn, the graph in its slot has exactly the operations the log has, in
    their order; of a torn transaction up to that timestamp it has the first ones of
    the logged operations, in their order, and possibly not all of them; and it has
    nothing of a later update transaction. *)
Theorem read_lease_consistent (slot_num : nat) (view0 : PublishedReadView) (n : nat) st
    (t : nat) (view : PublishedReadView) (i : nat) :
  system_config slot_num view0 n → system_reachable slot_num view0 n st → w_dead (sw st) = false →
  txns st !! t = Some (TLease view i) →
  (∃ sl, slots_ (w_store (sw st)) !! i = Some sl ∧ 0 < reader_count_ sl ∧
     snapshot_generation_ sl = snapshot_generation view) ∧
  visibility_ts view ≤ read_ts_ (w_vm (sw st)) ∧
  (∀ a, a ≤ visibility_ts view → a ∉ w_torn (sw st) →
     at_ts a (slot_graph (sw st) i) = at_ts a (logged (sw st))) ∧
  (∀ a, a ≤ visibility_ts view →
     at_ts a (slot_graph (sw st) i) `prefix_of` at_ts a (logged (sw st))) ∧
  (∀ p, p ∈ slot_graph (sw st) i → a_update p = true → a_ts p ≤ visibility_ts view).
Proof.
  intros Hc Hr Hd Ht. destruct (reachable_content _ _ _ _ _ Hc Hr Hd) as [Hok Hco]. destruct st as [w ts].
  destruct (co_fact _ _ Hco (TLease view i)) as [(Hv & Hl & Hpre & Hu) Hg]; [apply list_elem_of_lookup; by exists t|].
  destruct (pinned_live changes_planning w ts Hok t (TLease view i) i Ht eq_refl) as (sl & Hsl & Hcnt).
  destruct (slot_of w i sl Hsl) as [Egen _]. cbn [sw] in *. split_and!; [|done..|by apply Hu].
  exists sl. split_and!; [done..|congruence].
Qed.

(** A step of a client other than [t]. *)
Inductive other_trans (t : nat) : system (Op := Op) → system (Op := Op) → Prop :=
  | other_trans_intro w ts u y cmd e y' w' :
      u ≠ t → w_dead w = false → ts !! u = Some y → txn_step cmd e y w = (y', w') →
      other_trans t (System w ts) (System w' (<[u:=y']> ts)).

Lemma visible_later v l l' : (∀ p, p ∈ l' → v < a_ts p) → visible v (l ++ l') = visible v l.
Proof.
  intros Hl. unfold visible. rewrite filter_app. assert (filter (λ p, a_ts p ≤ v) l' = []) as ->; [|by rewrite app_nil_r].
  induction l' as [|p l' IH]; [done|]. rewrite filter_cons_False.
  - apply IH. intros q Hq. apply Hl. by right.
  - specialize (Hl p ltac:(left)). lia.
Qed.

Lemma lease_kept st st' t view i :
  components_ok changes_planning st → content_ok changes_planning st → other_trans t st st' →
  w_dead (sw st') = false → txns st !! t = Some (TLease view i) →
  components_ok changes_planning st' ∧ content_ok changes_planning st' ∧ txns st' !! t = Some (TLease view i) ∧
  visible (visibility_ts view) (slot_graph (sw st') i) = visible (visibility_ts view) (slot_graph (sw st) i).
Proof.
  intros Hok Hco Hst Hd Ht. destruct Hst as [w ts u y cmd e y' w' Hne Hdw Hu Hs]. cbn [sw txns] in *.
  split_and!; [by eapply comp_after|by eapply step_content|by rewrite list_lookup_insert_ne|].
  destruct (step_pinned changes_planning w ts u y cmd e y' w' Hok Hco Hu Hs Hd t (TLease view i) i (not_eq_sym Hne) Ht eq_refl eq_refl)
    as (_ & l & -> & Hl). apply visible_later. intros p Hp. specialize (Hl p Hp).
  destruct (co_fact _ _ Hco (TLease view i)) as [(Hv & _) _]; [apply list_elem_of_lookup; by exists t|]. cbn in Hv. lia.
Qed.

(** C2: A reader sees the same graph for as long as it holds its
    lease: whatever the other clients do meanwhile (committing inserts into the
    same graph object, publishing new snapshots, compacting or checkpointing
    once they are let in, or failing), the operations within its timestamp stay
    the same, in the same order. *)
Theorem repeatable_read (slot_num : nat) (view0 : PublishedReadView) (n : nat) st st'
    (t : nat) (view : PublishedReadView) (i : nat) :
  system_config slot_num view0 n → system_reachable slot_num view0 n st → w_dead (sw st) = false →
  txns st !! t = Some (TLease view i) → star (other_trans t) st st' → w_dead (sw st') = false →
  txns st' !! t = Some (TLease view i) ∧
  visible (visibility_ts view) (slot_graph (sw st') i) = visible (visibility_ts view) (slot_graph (sw st) i).
Proof.
  intros Hc Hr Hd Ht Hrun Hd'. destruct (reachable_content _ _ _ _ _ Hc Hr Hd) as [Hok Hco]. clear Hr Hc Hd.
  enough (components_ok changes_planning st' ∧ content_ok changes_planning st' ∧ txns st' !! t = Some (TLease view i) ∧
    visible (visibility_ts view) (slot_graph (sw st') i) = visible (visibility_ts view) (slot_graph (sw st) i)) by tauto.
  revert Hd'. induction Hrun as [st|st st1 st2 _ IH Hst]; intros Hd'; [done|].
  destruct IH as (Hok1 & Hco1 & Ht1 & E1); try done; [by destruct Hst|].
  destruct (lease_kept _ _ _ _ _ Hok1 Hco1 Hst Hd' Ht1) as (? & ? & ? & E2). split_and!; try done. by rewrite E2, E1.
Qed.

(** C4: Log and graph agree up to torn transactions.  In every reachable
    live system in which no client is in a transaction: the current graph has, of
    every transaction since the last checkpoint that is not torn (an insert whose
    graph operation threw after its record was in the log), exactly the operations
    the log has, in their order; of a torn transaction it has the first ones of the
    logged operations, so that the graph has nothing that is not in the log, but the
    log may have more; and the published view has the current generation and a
    timestamp with everything in graph and log at or below it. *)
Theorem log_agrees (slot_num : nat) (view : PublishedReadView) (n : nat) st :
  system_config slot_num view n → system_reachable slot_num view n st → w_dead (sw st) = false →
  (∀ y, y ∈ txns st → y = TIdle) →
  (∀ a, a ∉ w_torn (sw st) → at_ts a (cur_graph (sw st)) = at_ts a (logged (sw st))) ∧
  (∀ a, at_ts a (cur_graph (sw st)) `prefix_of` at_ts a (logged (sw st))) ∧
  UnpackPublishedReadView (published_read_view_ (w_vm (sw st))) =
    ReadView (read_ts_ (w_vm (sw st))) (cur_gen (sw st)) ∧
  (∀ p, p ∈ cur_graph (sw st) ∨ p ∈ logged (sw st) → a_ts p ≤ read_ts_ (w_vm (sw st))).
Proof.
  intros Hc Hr Hd Hidle. destruct (reachable_content _ _ _ _ _ Hc Hr Hd) as [Hok Hco].
  destruct (idle_caught_up (vm_view st)) as (_ & Hw & Hp); [apply Hok| |].
  { intros x Hx. apply list_elem_of_fmap in Hx as (y & -> & Hy). by rewrite (Hidle y Hy). }
  cbn in Hw, Hp. split_and!.
  - intros a Ha. apply (co_log _ _ Hco); [done|]. intros y Hy. by rewrite (Hidle y Hy).
  - apply (co_prefix _ _ Hco).
  - rewrite Hp, (co_installed _ _ Hco) by (intros y Hy; by rewrite (Hidle y Hy)). f_equal. apply u32_id.
    destruct st as [w ts]. by eapply cur_gen_u32.
  - intros p Hin. pose proof (co_range _ _ Hco p Hin). cbn in *. lia.
Qed.

(** ** Progress *)

Lemma run_step t cmd e sched st y y' w' :
  txns st !! t = Some y → w_dead (sw st) = false → txn_step cmd e y (sw st) = (y', w') →
  system_run changes_planning ((t, cmd, e) :: sched) st = system_run changes_planning sched (System w' (<[t:=y']> (txns st))).
Proof. intros Hy Hd Hs. cbn. by rewrite Hy, Hd, Hs. Qed.

(** With the gate open to readers, the published view has the current generation. *)
Lemma published_current st :
  components_ok changes_planning st → content_ok changes_planning st → phase (gate_ (w_vm (sw st))) ≠ kAllBlocked →
  snapshot_generation (published (sw st)) = cur_gen (sw st).
Proof.
  intros Hok Hco Hph. destruct st as [w ts].
  assert (Hno : ∀ z, z ∈ ts → vt_own (vm_of z) ≠ Some kAllBlocked).
  { intros z Hz Ho. apply Hph. eapply (owner_phase _ _ (vm_of z)); [apply (vi_gate _ (proj1 Hok))| |done].
    apply list_elem_of_fmap. by exists z. }
  assert (Hun : ∀ z, z ∈ ts → uninstalled z = false).
  { intros z Hz. destruct (uninstalled z) eqn:E; [|done]. exfalso. apply (Hno z Hz). revert E. clear.
    destruct z as [| |[]| |? ? []|[]| |? ? ? []|[]| |? ? []| |? ? ? [|?|[]|? []|[]]|? ? []|[|? []|]| |? ? []| |? ? ? [| |?|? []| |? [] []]
                |[|? []| | | | | |]|[]| |? ? []]; done. }
  assert (Ht : timeline (w_vm w) (tl <$> (vm_of <$> ts))).
  { apply (inv_timeline (vm_view (System w ts)) (proj1 Hok)). intros x Hx. apply list_elem_of_fmap in Hx as (z & -> & Hz). specialize (Hno z Hz).
    destruct (resetting (tl (vm_of z))) eqn:E; [|done]. destruct (resetting_is_reset _ E) as (a & r & Er). by rewrite Er in Hno. }
  destruct (tl_pub _ _ Ht) as (v & g & Ep & Hv & _ & Hg). pose proof (tl_range _ _ Ht).
  cbn [sw]. unfold published. rewrite Ep, unpack_pack by (unfold is_u32, U32_MAX in *; lia). cbn [snapshot_generation].
  rewrite Hg.
  - change w with (sw (System w ts)). rewrite (co_installed _ _ Hco Hun). apply u32_id. by eapply cur_gen_u32.
  - intros l Hl. apply list_elem_of_fmap in Hl as (x & -> & Hx). apply list_elem_of_fmap in Hx as (z & -> & Hz).
    destruct (dirty (tl (vm_of z))) eqn:E; [|done]. exfalso. apply (Hno z Hz). revert E. clear.
    destruct z as [| |[]| |? ? []|[]| |? ? ? []|[]| |? ? []| |? ? ? [|?|[]|? []|[]]|? ? []|[|? []|]| |? ? []| |? ? ? [| |?|? []| |? [] []]
                |[|? []| | | | | |]|[]| |? ? []]; cbn; try done;
      try (match goal with c : exclusive_pc |- _ => destruct c; done | c : read_pc |- _ => by destruct c
           | c : insert_end_pc |- _ => by destruct c as [[]|] | c : insert_pc |- _ => by destruct c | c : update_pc |- _ => by destruct c as [| |[]]
           | c : try_update_pc |- _ => by destruct c as [| | |[]] | c : reset_pc |- _ => by destruct c | c : compact_pc |- _ => by destruct c
           | c : finish_pc |- _ => by destruct c as [|[]|] | c : compact_end_pc |- _ => by destruct c as [|[]|] end).
Qed.

Lemma admit_open o g : phase g ≠ kAllBlocked → readers g < kMaxReaderCount →
  acquire_shared o (AS_loop g) g = (u64 (g + kReaderUnit), Return tt).
Proof.
  intros Hp Hr. unfold acquire_shared. rewrite bool_decide_eq_false_2, bool_decide_eq_true_2 by done.
  by rewrite (proj2 (Z.leb_gt _ _)) by done.
Qed.

(** A client alone on its way to a lease; [es] is what the environment decides
    at its steps. *)
Section lease.
Context (t : nat) (ts : list (txn Op)).
Hypothesis Hlt : (t < length ts)%nat.

Definition read_steps (es : list env) : list (nat * txn_cmd Op * env) := (λ e, (t, BeginRead, e)) <$> es.
Definition reads (es : list env) (w : world Op) (y : txn Op) : system (Op := Op) :=
  system_run changes_planning (read_steps es) (System w (<[t:=y]> ts)).
Definition gets (s : system (Op := Op)) (view : PublishedReadView) (i : nat) : Prop := txns s !! t = Some (TLease view i).

(** The failures of a weak exchange without a reason. *)
Definition spurious_failures (es : list env) : nat :=
  length (filter (λ e, weak_fails (e_store e) = true) es).

Lemma reads_step e es w y w' y' :
  w_dead w = false → txn_step BeginRead e y w = (y', w') → reads (e :: es) w y = reads es w' y'.
Proof using Hlt.
  intros Hd Hs. unfold reads. cbn [read_steps fmap list_fmap].
  rewrite (run_step t BeginRead e _ (System w _) y y' w'); [|by apply list_lookup_insert_eq|done|done].
  cbn [txns]. by rewrite list_insert_insert_eq.
Qed.

Lemma reads_lease es w view i : w_dead w = false → gets (reads es w (TLease view i)) view i.
Proof using Hlt.
  intros Hd. induction es as [|e es IH]; [by apply list_lookup_insert_eq|]. by erewrite reads_step.
Qed.

Lemma set_store_id (v : world Op) : set_store (w_store v) v = v.
Proof. by destruct v. Qed.

Lemma spurious_cons e es :
  spurious_failures (e :: es) = ((if weak_fails (e_store e) then 1 else 0) + spurious_failures es)%nat.
Proof. unfold spurious_failures. rewrite filter_cons. by destruct (weak_fails (e_store e)). Qed.

(** From the exchange on: a spurious failure costs one step. *)
Lemma reads_exchange es w view sl :
  w_dead w = false → slots_ (w_store w) !! cur w = Some sl → 0 < reader_count_ sl →
  snapshot_generation_ sl = snapshot_generation view → (3 + spurious_failures es ≤ length es)%nat →
  gets (reads es w (TAcquire (LA_pin view (PIN_cas (cur w) (reader_count_ sl))))) view (cur w).
Proof using Hlt.
  intros Hd Hl Hcnt Hgen. set (i := cur w) in *. induction es as [|e es IH]; [cbn; lia|].
  rewrite spurious_cons. intros Hn. destruct (weak_fails (e_store e)) eqn:He.
  - rewrite (reads_step e es w _ w (TAcquire (LA_pin view (PIN_cas i (reader_count_ sl)))));
      [apply IH; cbn in *; lia|done|].
    cbn [TransactionThreads.txn_step ReadSnapshotLease_Acquire PinCurrentSnapshot]. rewrite Hl, Z.eqb_refl, He. cbn.
    rewrite (proj2 (Z.ltb_lt _ _)) by done. cbn. by rewrite set_store_id.
  - set (w2 := set_store (set_slot i (set_count (i32 (reader_count_ sl + 1))) (w_store w)) w).
    assert (Hl2 : slots_ (w_store w2) !! i = Some (set_count (i32 (reader_count_ sl + 1)) sl)).
    { cbn [w2 w_store set_store]. by rewrite lookup_set_slot, decide_True, Hl by done. }
    destruct es as [|e1 [|e2 es]]; [cbn in Hn; lia..|].
    rewrite (reads_step e _ w _ w2 (TAcquire (LA_pin view (PIN_verify i)))); [|done|].
    2: { cbn [TransactionThreads.txn_step ReadSnapshotLease_Acquire PinCurrentSnapshot]. by rewrite Hl, Z.eqb_refl, He. }
    rewrite (reads_step e1 _ w2 _ w2 (TAcquire (LA_compare view i))); [|done|].
    2: { cbn. change (cur_slot_index_ (w_store w)) with i. by rewrite Nat.eqb_refl. }
    rewrite (reads_step e2 _ w2 _ w2 (TLease view i)); [by apply reads_lease|done|].
    cbn [TransactionThreads.txn_step ReadSnapshotLease_Acquire]. rewrite (proj1 (slot_of w2 i _ Hl2)). cbn. by rewrite Hgen, Z.eqb_refl.
Qed.

(** The gate, the view and the count of the current slot: six steps, whatever the
    environment decides. *)
Lemma reads_before e1 e2 e3 e4 e5 e6 es w sl :
  w_dead w = false → phase (gate_ (w_vm w)) ≠ kAllBlocked → readers (gate_ (w_vm w)) < kMaxReaderCount →
  slots_ (w_store w) !! cur w = Some sl → 0 < reader_count_ sl →
  ∃ w', w_dead w' = false ∧ w_store w' = w_store w ∧
    reads (e1 :: e2 :: e3 :: e4 :: e5 :: e6 :: es) w TIdle =
    reads es w' (TAcquire (LA_pin (published w) (PIN_cas (cur w) (reader_count_ sl)))).
Proof using Hlt.
  intros Hd Hph Hroom Hl Hcnt.
  set (w1 := set_vm (set_gate (u64 (gate_ (w_vm w) + kReaderUnit)) (w_vm w)) w). exists w1. split_and!; [done..|].
  rewrite (reads_step e1 _ w _ w (TAcquire (LA_operation (RO_admit AS_load)))) by done.
  rewrite (reads_step e2 _ w _ w (TAcquire (LA_operation (RO_admit (AS_loop (gate_ (w_vm w))))))); [|done|].
  2: { cbn. f_equal. by destruct w as [[]]. }
  rewrite (reads_step e3 _ w _ w1 (TAcquire (LA_operation RO_load))); [|done|].
  2: { cbn [TransactionThreads.txn_step ReadSnapshotLease_Acquire acquire_read_operation]. unfold on_gate. by rewrite admit_open. }
  rewrite (reads_step e4 _ w1 _ w1 (TAcquire (LA_pin (published w) PIN_cur))) by done.
  rewrite (reads_step e5 _ w1 _ w1 (TAcquire (LA_pin (published w) (PIN_count (cur w))))) by done.
  rewrite (reads_step e6 _ w1 _ w1 (TAcquire (LA_pin (published w) (PIN_cas (cur w) (reader_count_ sl))))); [done|done|].
  cbn. rewrite Hl. cbn. by rewrite (proj2 (Z.ltb_lt _ _)) by done.
Qed.
End lease.

(** C5: Readers wait for nothing but an exclusive phase.  In every
    reachable live system whose gate is not blocked for readers, an idle client that
    asks for a read lease and then makes steps, with the other clients resting, has
    the lease after nine of its steps and one more for each of them at which a weak
    exchange fails without a reason, whatever else the environment decides at these
    steps; it keeps it, with the view that was published and the slot that was
    current when it asked. *)
Theorem reader_progress (slot_num : nat) (view : PublishedReadView) (n : nat) st (t : nat) (es : list env) :
  system_config slot_num view n → system_reachable slot_num view n st → w_dead (sw st) = false →
  txns st !! t = Some TIdle → phase (gate_ (w_vm (sw st))) ≠ kAllBlocked →
  (9 + spurious_failures es ≤ length es)%nat →
  txns (system_run changes_planning (read_steps t es) st) !! t =
    Some (TLease (published (sw st)) (cur_slot_index_ (w_store (sw st)))).
Proof.
  intros Hc Hr Hd Ht Hph Hes. destruct (reachable_content _ _ _ _ _ Hc Hr Hd) as [Hok Hco].
  pose proof (published_current st Hok Hco Hph) as Egen.
  destruct st as [w ts]. cbn [sw txns] in *. destruct (cur_slot changes_planning w ts Hok) as (sl & Hl & Hcnt & _).
  unfold cur_gen in Egen. rewrite (proj1 (slot_of w _ sl Hl)) in Egen.
  assert (Hroom : readers (gate_ (w_vm w)) < kMaxReaderCount).
  { apply (gv_room _ (VIdle)); [|done]. eapply (gate_inv_view _ (vm_of <$> ts) t); [apply (vi_gate _ (proj1 Hok))|].
    by rewrite list_lookup_fmap, Ht. }
  pose proof (lookup_lt_Some _ _ _ Ht) as Hlt. rewrite <- (list_insert_id ts t TIdle Ht).
  destruct es as [|e1 [|e2 [|e3 [|e4 [|e5 [|e6 es]]]]]]; [cbn in Hes; lia..|].
  destruct (reads_before t ts Hlt e1 e2 e3 e4 e5 e6 es w sl) as (w1 & Hd1 & Est & E); [done..|].
  unfold reads in E. rewrite E. assert (Ecur : cur w1 = cur w) by (unfold cur; by rewrite Est).
  change (cur_slot_index_ (w_store w)) with (cur w). rewrite <- Ecur.
  apply (reads_exchange t ts Hlt es w1 (published w) sl); rewrite ?Ecur, ?Est; try done.
  rewrite !spurious_cons in Hes. cbn [length] in Hes. lia.
Qed.
End properties.

(** ** Sample runs *)

Module samples.
Definition normal_env : env := Env (Oracle false false) (StoreOracle false false) WalTrue false false false.
Definition throwing_env : env := Env (Oracle false false) (StoreOracle false false) WalTrue true false false.
Definition no_planning (op : nat) : bool := false.
Definition go (k t : nat) (cmd : txn_cmd nat) : list (nat * txn_cmd nat * env) := replicate k (t, cmd, normal_env).
Definition start : system := system_init (Op := nat) 3 (ReadView 0 0) 3.
Definition insert_txn (t op : nat) := go 12 t BeginInsert ++ go 1 t (Edit op) ++ go 30 t Commit.
Definition update_txn (t op : nat) := go 14 t (BeginUpdate false) ++ go 1 t (Edit op) ++ go 60 t Commit.

(** Client 1 inserts and client 0 gets a lease; then client 1 inserts again and
    client 2 publishes an update. *)
Definition to_lease := insert_txn 1 5 ++ go 9 0 BeginRead.
Definition leased : system := system_run no_planning to_lease start.
Definition meanwhile := insert_txn 1 7 ++ update_txn 2 8.
Definition later : system := system_run no_planning meanwhile leased.
Definition written : system := system_run no_planning (insert_txn 1 5 ++ update_txn 2 8) start.

(** An insert that throws after it is logged. *)
Definition torn : system :=
  system_run no_planning (go 12 1 BeginInsert ++ go 1 1 (Edit 5%nat) ++ go 3 1 Commit ++ [(1%nat, Commit, throwing_env)] ++ go 30 1 Commit) start.
End samples.
Import samples.

Lemma sample_system_config : system_config 3 (ReadView 0 0) 3.
Proof. unfold system_config, is_u32, U32_MAX. cbn. lia. Qed.

Lemma other_run_star {Op} (cp : Op → bool) t sched st :
  Forall (λ '(u, _, _), u ≠ t) sched → star (other_trans cp t) st (system_run cp sched st).
Proof.
  revert st. induction sched as [|[[u cmd] e] sched IH]; intros st Hs; [constructor|]. apply Forall_cons in Hs as [Hu Hs].
  cbn [system_run foldl]. destruct (txns st !! u) as [y|] eqn:Hy; [|by apply IH].
  destruct (w_dead (sw st)) eqn:Hd; [by apply IH|].
  destruct (TransactionThreads.txn_step cp cmd e y (sw st)) as [y' w'] eqn:Hst.
  eapply star_trans; [|by apply IH]. eapply star_snoc; [constructor|]. destruct st. by econstructor.
Qed.

Lemma leased_reachable : system_reachable no_planning 3 (ReadView 0 0) 3 leased.
Proof. apply system_run_star. Qed.
Lemma later_reachable : system_reachable no_planning 3 (ReadView 0 0) 3 later.
Proof. exact (star_trans _ _ _ _ leased_reachable (system_run_star no_planning meanwhile leased)). Qed.

Lemma transactions_refine_witness :
  txns leased = [TLease (ReadView 1 0) 0; TIdle; TIdle] ∧
  vm_reachable (ReadView 0 0) 3 (vm_view leased) ∧
  store_reachable id 3 0%nat 0 3 (store_view no_planning leased).
Proof.
  split; [vm_compute; reflexivity|]. apply (transactions_refine no_planning 3 (ReadView 0 0) 3 leased).
  - apply sample_system_config.
  - apply system_run_star.
  - vm_compute. reflexivity.
Defined.

Lemma read_lease_consistent_witness :
  cur_slot_index_ (w_store (sw later)) = 2%nat ∧
  (∃ sl, slots_ (w_store (sw later)) !! 0%nat = Some sl ∧ 0 < reader_count_ sl ∧ snapshot_generation_ sl = 0) ∧
  1 ≤ read_ts_ (w_vm (sw later)) ∧
  (∀ a, a ≤ 1 → a ∉ w_torn (sw later) → at_ts a (slot_graph (sw later) 0) = at_ts a (logged (sw later))) ∧
  (∀ a, a ≤ 1 → at_ts a (slot_graph (sw later) 0) `prefix_of` at_ts a (logged (sw later))) ∧
  (∀ p, p ∈ slot_graph (sw later) 0 → a_update p = true → a_ts p ≤ 1).
Proof.
  split; [vm_compute; reflexivity|]. apply (read_lease_consistent no_planning 3 (ReadView 0 0) 3 later 0 (ReadView 1 0) 0).
  - apply sample_system_config.
  - apply later_reachable.
  - vm_compute. reflexivity.
  - vm_compute. reflexivity.
Defined.

Lemma repeatable_read_witness :
  slot_graph (sw later) 0 ≠ slot_graph (sw leased) 0 ∧
  visible 1 (slot_graph (sw leased) 0) = [Applied 1 false 5%nat] ∧
  txns later !! 0%nat = Some (TLease (ReadView 1 0) 0) ∧
  visible 1 (slot_graph (sw later) 0) = visible 1 (slot_graph (sw leased) 0).
Proof.
  split; [vm_compute; discriminate|]. split; [vm_compute; reflexivity|].
  apply (repeatable_read no_planning 3 (ReadView 0 0) 3 leased later 0 (ReadView 1 0) 0).
  - apply sample_system_config.
  - apply system_run_star.
  - vm_compute. reflexivity.
  - vm_compute. reflexivity.
  - apply other_run_star. repeat constructor; discriminate.
  - vm_compute. reflexivity.
Defined.

Lemma log_agrees_witness :
  cur_graph (sw written) = [Applied 1 false 5%nat; Applied 2 true 8%nat] ∧
  (∀ a, a ∉ w_torn (sw written) → at_ts a (cur_graph (sw written)) = at_ts a (logged (sw written))) ∧
  (∀ a, at_ts a (cur_graph (sw written)) `prefix_of` at_ts a (logged (sw written))) ∧
  UnpackPublishedReadView (published_read_view_ (w_vm (sw written))) =
    ReadView (read_ts_ (w_vm (sw written))) (cur_gen (sw written)) ∧
  (∀ p, p ∈ cur_graph (sw written) ∨ p ∈ logged (sw written) → a_ts p ≤ read_ts_ (w_vm (sw written))).
Proof.
  split; [vm_compute; reflexivity|]. apply (log_agrees no_planning 3 (ReadView 0 0) 3 written).
  - apply sample_system_config.
  - apply system_run_star.
  - vm_compute. reflexivity.
  - apply Forall_forall. vm_compute. repeat constructor.
Defined.

(** With a spurious failure at the seventh and at the eighth step. *)
Definition weak_env : env := Env (Oracle false false) (StoreOracle true false) WalTrue false false false.
Definition reader_envs : list env := replicate 6 normal_env ++ [weak_env; weak_env] ++ replicate 3 normal_env.

Lemma reader_progress_witness :
  txns written !! 0%nat = Some TIdle ∧ spurious_failures reader_envs = 2%nat ∧
  txns (system_run no_planning (read_steps 0 reader_envs) written) !! 0%nat =
    Some (TLease (published (sw written)) (cur_slot_index_ (w_store (sw written)))).
Proof.
  split; [vm_compute; reflexivity|]. split; [vm_compute; reflexivity|].
  apply (reader_progress no_planning 3 (ReadView 0 0) 3 written 0 reader_envs).
  - apply sample_system_config.
  - apply system_run_star.
  - vm_compute. reflexivity.
  - vm_compute. reflexivity.
  - vm_compute. discriminate.
  - vm_compute. repeat constructor.
Defined.

(** An insert transaction whose graph operation
    throws after its record was logged is aborted and its timestamp is made
    readable: the system goes on, with every client idle, although the log has
    an operation that the current graph does not have, so that a restart brings
    back an insert whose transaction failed. *)
Theorem throwing_insert_diverges :
  system_reachable no_planning 3 (ReadView 0 0) 3 torn ∧ w_dead (sw torn) = false ∧
  txns torn = [TIdle; TIdle; TIdle] ∧ read_ts_ (w_vm (sw torn)) = 1 ∧
  at_ts 1 (logged (sw torn)) = [Applied 1 false 5%nat] ∧ cur_graph (sw torn) = [].
Proof. split; [apply system_run_star|]. vm_compute. repeat split. Qed.
